(* ===== verification/_CoqProject ===== *)
-Q . S2P
Prelude.v
Misc.v
TreeInterface.v
InetProto.v
BAddr.v
ParseNumber.v
IpAddr.v
IpAddr6.v
IpAddr6Facts.v
IpAddr6Net.v
BAddrText.v
BAVL.v
BAVLFacts.v
CAvl.v
CAvlLinks.v
CAvlFacts.v
CAvlList.v
CAvlOrder.v
IndexedList.v
Device.v
ChunkBuffer2.v
BPending.v
Interfaces.v
PacketProto.v
Flow.v
FairQueue.v
UdpGwClient.v
SocksClient.v
SocksUdpGwClient.v
TcpClient.v
TcpRelay.v
BReactor.v
BReactorRun.v
ReactorClient.v
BConnection.v
BConnectionRun.v
BConnectionRules.v
BConnectionFacts.v
BConnectionOps.v
BConnectionEnds.v
BConnectionSafe.v
