(* ===== verification/Prelude.v ===== *)
(** * A verification of tun2socks

    The native part of this repository is tun2socks, from badvpn
    (src/app/src/main/jni/badvpn/): a process that reads IP packets from a TUN
    device, terminates their TCP connections in the lwIP stack and relays each of
    them to a SOCKS5 server, and carries their UDP datagrams over one more SOCKS
    connection to a udpgw gateway. It is single threaded: an event loop runs
    handlers, and handlers queue jobs for each other.

    This library models the code of that program which is its own (not lwIP, not
    the operating system) and proves what makes it correct. All paths below are
    relative to src/app/src/main/jni/badvpn/.

    ** How code is modelled

    A C structure is a [Record], updated by [r <| f := v |>]; an enumeration or a
    set of numbered states is an [Inductive] or the numbers of the source. A C
    integer is a [Z] with the wrap-around written out ([u8] to [u64], [s32]);
    memory is a list of bytes, each in 0..255. A function that changes state is a
    program ([prog]): it takes the state of its component and gives back a
    result, the new state and the calls it makes to the components around it, in
    order, or [None] where an [ASSERT] of the code fails, memory is accessed
    outside of its bounds, or a pointer to nothing is followed. Theorems of the
    form [∃ s' es, m s = Some (r, s', es) ∧ ...] therefore state total
    correctness. [wp] is the corresponding weakest precondition, [wp_step] and
    [wp_run] the tactics that run a program under it.

    What is outside of a component enters as an argument of its functions:
    whether an allocation or a connection attempt succeeds, what lwIP answers,
    what the contents of fresh memory are. Nothing is assumed of these but what
    the theorems state. Callbacks arrive as labels of a step relation whose
    [enabled] predicate says when the environment may call; the theorems hold in
    every state reachable by any interleaving of enabled labels.

    ** The files

    - Prelude: record update, C integers, byte lists, programs and [wp], lemmas
      and tactics shared by all files.
    - Misc: misc/byteorder.h, read_write_int.h, bsize.h, balign.h, minmax.h.
    - TreeInterface: the class [Comparator] (what the trees ask of a comparison)
      and the class [OrderedTree] (what they promise to their users). UdpGwClient,
      FairQueue and BReactor are proved against [OrderedTree]; BAVLFacts is an
      instance.
    - InetProto: misc/ipv4_proto.h, ipv6_proto.h, udp_proto.h. Header checks accept
      exactly the valid packets; the checksum with its 32-bit accumulator equals
      the ones' complement sum.
    - BAddr: addresses of system/BAddr.h and their order.
    - ParseNumber: misc/parse_number.h and find_char.h, numbers as text: what is
      accepted, overflow, and what is printed; and what the files after it use of
      the C library. IpAddr: misc/ipaddr.h. IpAddr6: misc/ipaddr6.h; IpAddr6Facts
      has the grammar of IPv6 addresses, the parser, whose every access is in
      bounds and which accepts exactly that grammar, and the printer, whose text
      is canonical; IpAddr6Net prefixes and networks, and the results.
    - BAddrText: the rest of system/BAddr.h: printing, parsing and resolving of
      socket addresses, with getaddrinfo as a parameter.
    - BAVL, BAVLFacts: structure/BAVL.h, pointer by pointer in a memory of nodes:
      insertion, removal and queries refine an ordered list, the tree stays
      balanced, and its depth bounds the loops.
    - CAvl: structure/CAvl_impl.h and CAvl_decl.h, the tree whose links, sizes and
      sums live in its users' entries. CAvlLinks follows the operations on links
      and the update of sizes and sums, CAvlFacts shows that they refine those on
      the list of entries, CAvlList the access by position and by sum, CAvlOrder
      insertion and searches by order; the result is one more [OrderedTree].
      IndexedList: structure/IndexedList.h and SAvl_impl.h, its two users.
    - Device: tun2socks/tun2socks.c, from the device and to it: which packets are
      taken for udpgw, which go to lwIP, and the packets written back.
    - ChunkBuffer2: structure/ChunkBuffer2.h, the circular buffer of packets, as a
      bounded queue.
    - BPending: base/BPending.c, the queue of jobs, as a stack that runs the last
      job set first.
    - Interfaces: flow/PacketPassInterface, PacketRecvInterface,
      StreamPassInterface, StreamRecvInterface: the handshake between a user and a
      provider.
    - PacketProto: flow/PacketProtoEncoder.c and PacketProtoDecoder.c: packets are
      recovered from the byte stream however it is cut.
    - Flow: flow/PacketBuffer.c, BufferWriter.c, PacketStreamSender.c,
      PacketPassConnector.c, SinglePacketBuffer.c, PacketProtoFlow.c and
      flowextra/PacketPassInactivityMonitor.c: queues lose nothing and keep order.
    - FairQueue: flow/PacketPassFairQueue.c: the flow with the least time sends,
      handling the overflow of times is invisible, no flow starves.
    - UdpGwClient: udpgw_client/UdpGwClient.c: the table of connections with its
      two trees and its list, and the packet format of protocol/udpgw_proto.h.
    - SocksClient: socksclient/BSocksClient.c: the SOCKS5 handshake, for every
      fragmentation of the server's bytes, with every access to its buffer.
    - SocksUdpGwClient: tun2socks/SocksUdpGwClient.c, with the two clients of
      UdpGwClient and SocksClient inside it: reconnection.
    - TcpClient, TcpRelay: the TCP clients of tun2socks/tun2socks.c: the handlers
      with the invariant of one client, then executions of it: safety of every
      interleaving of lwIP and SOCKS callbacks, both byte streams, the receive
      window, and progress of a half-closed client.
    - BReactor: system/BReactor_badvpn.c as built for epoll, with btime_add of
      system/BTime.h: jobs (the group of BPending), timers in a tree ordered by
      time and address, descriptors with the array of results and the pointers
      into it, limits, waiting and the loop; the invariant that ties them.
    - BReactorRun: executions of the loop. A history records what the program
      asked, what the kernel answered and which handlers were called; the state
      agrees with it in every execution. Handlers are called only for what was
      asked and is due, the loop sleeps exactly until the next timer, due timers
      are called, no assertion fails.
    - ReactorClient: what an object on the event loop relies on: the part of the
      reactor that belongs to it, what its requests do to that part, and that
      other users of the loop leave it alone.
    - BConnection: system/BConnection_unix.c, listeners, connectors and
      connections with their stream interfaces, descriptors and buffer sizes.
      BConnectionRun: executions of one listener, one connector and one connection
      on one event loop with other users of it. BConnectionRules: a rule for each
      request to the loop; BConnectionFacts: the invariant, and the programs of a
      connection; BConnectionOps: its jobs and what its user asks;
      BConnectionEnds: listeners and connectors; BConnectionSafe: the results. In
      every execution no assertion fails, descriptors are neither leaked nor closed
      twice, what is reported to the users is what was transferred, and an
      operation in progress is either queued or waits for its descriptor.

    Each file has a module with the code ([...Code] or the name of the component)
    whose definitions carry the names of the source, and a module with the facts
    ([...Facts]). A theorem that is a result carries a number C<n> in its comment.

    ** Loops and fuel

    Loops over a structure are structural. The loops of BAVL.h get as many rounds
    as there are nodes in memory, more than any path has; [bavl_depth] shows that
    2 log2 (n + 1) + 1 rounds already suffice. The loops of CAvl_impl.h get one
    round more than there are entries. The folding of a checksum gets three
    rounds, enough for a 32-bit accumulator. [find_unused_conid] gets
    [max_connections] rounds, as not all conids below that are in use; freeing
    the connections gets one round per connection; the loop that hands data to
    lwIP gets one round per byte, each round sending at least one. The loops that
    expire timers and reset limits get one round more than there are timers and
    limits; printing a number gets 21 rounds, as 64 bits have 20 decimal digits;
    the parsers of addresses get one round more than the text has characters, or
    one round per byte of the address, and the loops over masks one round per bit
    or byte and one to leave; the loop of [BReactor_Exec] and the one around epoll_wait follow a list
    of what they meet, of any length. Running out is
    [None] (for the checksum, an unfolded sum), which the theorems exclude. Where
    a theorem runs a component with its surroundings ([drive] of the decoder,
    [drain] of the stream sender), it gives the number of rounds, one per byte.

    ** What is not modelled

    - lwIP (lwip/): a third-party stack; the calls to it are emitted, its answers
      are arguments.
    - The operating system: epoll, the clock and the system calls on sockets,
      whose answers are arguments; BNetwork.c, BSignal.c, BTime.c, tuntap/BTap.c.
      In the components above the event loop and the sockets, timers are kept as
      whether they run, connections as whether they exist.
    - Of the tree of CAvl_impl.h: links other than pointers. Of sockets: several
      connections on one loop are one of them with the others among the other
      users of the loop. Reading and writing are assumed to transfer no more than
      asked, and to fail when an error is reported on a socket without the
      readiness that is waited for ([answers_for]): where they succeed the code
      leaves its request armed, as [connection_error_leaves_event] shows.
    - The kevent, poll and Windows variants of the event loop.
    - The parsers of parse_number.h for the split strings (b_cstring) of ncd, and
      what a failed BAddr_Parse leaves in the address.
    - structure/LinkedList1.h is modelled by lists in the components that use it;
      the fair queue and the timers use a tree by the interface [OrderedTree].
    - Start-up and command line of tun2socks.c, logging, the JNI entry points.
    - DebugObject and DebugCounter, which only assert; that an object is not used
      after it is freed is shown where freeing happens in a callback.
    - Reduced: the build is little endian, uses IPv4 and IPv6 addresses only, and
      disables udpgw keepalives.
    - The rest of badvpn (client, server, ncd, dhcpclient, security, udpgw, ...) and
      the Kotlin sources, which are not part of the process described here. *)
From stdpp Require Export base tactics option list numbers gmap.
From Stdlib Require Export ZArith Lia.
#[export] Set Default Goal Selector "!".
Open Scope Z_scope.

(** * Record update *)

(** A record type declares how it is rebuilt from its own projections; the
    notation [r <| f := v |>] then replaces one field, as a C assignment
    [r->f = v] does. *)
Class Eta (R : Type) := eta : R → R.
Class Upd {R F : Type} (p : R → F) := upd : F → R → R.
Arguments upd {R F} p {_} v r /.

Ltac derive_upd :=
  lazymatch goal with
  | |- @Upd ?R ?F ?p =>
      let e := constr:(ltac:(let i := constr:(_ : Eta R) in exact i) : Eta R) in
      let e := eval unfold eta in e in
      let e := eval hnf in e in
      let t := constr:(λ the_record : R, ltac:(
        let b := eval cbv beta in (e the_record) in
        let f := eval pattern (p the_record) in b in
        match f with ?g _ => exact g end)) in
      exact (λ (v : F) (r : R), t r v)
  end.
#[export] Hint Extern 1 (Upd _) => derive_upd : typeclass_instances.

Declare Scope badvpn_scope.
Delimit Scope badvpn_scope with badvpn.
Notation "r <| f := v |>" := (upd f v r)
  (at level 12, left associativity, format "r  <| f  :=  v |>") : badvpn_scope.
Open Scope badvpn_scope.

(** * C integers

    A w-bit integer is a [Z]; the casts below write the wrap-around out. *)

Definition INT_MAX : Z := 2147483647.
Definition UINT8_MAX : Z := 255.
Definition UINT16_MAX : Z := 65535.
Definition UINT64_MAX : Z := 18446744073709551615.

Definition u8 (x : Z) : Z := x mod 2 ^ 8.
Definition u16 (x : Z) : Z := x mod 2 ^ 16.
Definition u32 (x : Z) : Z := x mod 2 ^ 32.
Definition u64 (x : Z) : Z := x mod 2 ^ 64.

(** Conversion to [int]. *)
Definition s32 (x : Z) : Z := (x + 2 ^ 31) mod 2 ^ 32 - 2 ^ 31.

Definition is_u8 (x : Z) : Prop := 0 ≤ x < 2 ^ 8.
Definition is_u16 (x : Z) : Prop := 0 ≤ x < 2 ^ 16.
Definition is_u32 (x : Z) : Prop := 0 ≤ x < 2 ^ 32.
Definition is_u64 (x : Z) : Prop := 0 ≤ x < 2 ^ 64.

(** [B_COMPARE] of misc/compare.h: the sign of the difference. *)
Definition B_COMPARE (a b : Z) : Z := Z.b2z (b <? a) - Z.b2z (a <? b).

(** Bytes of memory, a [uint8_t] each. *)
Abbreviation bytes := (list Z).
Definition bytes_ok (l : bytes) : Prop := Forall is_u8 l.

(** The length of a buffer, as the [int] that the code keeps. *)
Definition len {A} (l : list A) : Z := Z.of_nat (length l).

(** [l[i ..]] and [l[.. i]] at an [int] offset. *)
Definition ztake {A} (i : Z) (l : list A) : list A := take (Z.to_nat i) l.
Definition zdrop {A} (i : Z) (l : list A) : list A := drop (Z.to_nat i) l.

(** The [n] elements at offset [off], and [memcpy] of [d] to that offset. *)
Definition zslice {A} (off n : Z) (l : list A) : list A := ztake n (zdrop off l).
Definition zwrite {A} (off : Z) (d l : list A) : list A :=
  ztake off l ++ d ++ zdrop (off + len d) l.

(** A byte of a buffer; the callers check the bounds first. *)
Definition byte_at (l : bytes) (i : nat) : Z := nth i l 0.

(** * Programs

    An operation reads and writes the state of its component, emits the calls
    it makes to the components around it, in order, and stops with [None]
    where an [ASSERT] of the code does not hold. *)

Definition prog (St Ev A : Type) : Type := St → option (A * St * list Ev).

#[export] Instance prog_ret {St Ev} : MRet (prog St Ev) := λ A a s, Some (a, s, []).
#[export] Instance prog_bind {St Ev} : MBind (prog St Ev) := λ A B f m s,
  match m s with
  | Some (a, s1, e1) =>
      match f a s1 with
      | Some (b, s2, e2) => Some (b, s2, e1 ++ e2)
      | None => None
      end
  | None => None
  end.

Section prog_ops.
Context {St Ev : Type}.
Definition get_st : prog St Ev St := λ s, Some (s, s, []).
Definition gets {A} (f : St → A) : prog St Ev A := λ s, Some (f s, s, []).
Definition modify (f : St → St) : prog St Ev unit := λ s, Some (tt, f s, []).
Definition emit (e : Ev) : prog St Ev unit := λ s, Some (tt, s, [e]).
Definition ASSERT (b : bool) : prog St Ev unit :=
  λ s, if b then Some (tt, s, []) else None.
(** A state change that can fail an assertion of its own. *)
Definition update (f : St → option St) : prog St Ev unit :=
  λ s, match f s with Some s' => Some (tt, s', []) | None => None end.
Definition when (b : bool) (m : prog St Ev unit) : prog St Ev unit :=
  if b then m else mret tt.
End prog_ops.

(** The same check in a function that only returns a value. *)
Notation "'ASSERT_' b ; k" := (if b%bool then k else None)
  (at level 10, b at level 99, k at level 200,
   format "'[v' 'ASSERT_'  b ;  '/' k ']'") : badvpn_scope.

(** Total correctness of an operation: it runs to the end, no assertion fails,
    and the result, the new state and the calls made satisfy [Q]. *)
Definition wp {St Ev A} (m : prog St Ev A) (s : St)
    (Q : A → St → list Ev → Prop) : Prop :=
  match m s with
  | Some (a, s', es) => Q a s' es
  | None => False
  end.

Section wp_rules.
Context {St Ev : Type}.
Implicit Types s : St.

Lemma wp_ret {A} (a : A) s (Q : A → St → list Ev → Prop) :
  Q a s [] → wp (mret a) s Q.
Proof. done. Qed.

Lemma wp_bind {A B} (m : prog St Ev A) (f : A → prog St Ev B) s Q :
  wp m s (λ a s1 e1, wp (f a) s1 (λ b s2 e2, Q b s2 (e1 ++ e2))) →
  wp (m ≫= f) s Q.
Proof.
  unfold wp, mbind, prog_bind. destruct (m s) as [[[a s1] e1]|]; [|done].
  by destruct (f a s1) as [[[b s2] e2]|].
Qed.

Lemma wp_mono {A} (m : prog St Ev A) s (Q R : A → St → list Ev → Prop) :
  wp m s Q → (∀ a s' es, Q a s' es → R a s' es) → wp m s R.
Proof. unfold wp. destruct (m s) as [[[a s1] e1]|]; eauto. Qed.

Lemma wp_get s (Q : St → St → list Ev → Prop) : Q s s [] → wp get_st s Q.
Proof. done. Qed.

Lemma wp_gets {A} (f : St → A) s (Q : A → St → list Ev → Prop) :
  Q (f s) s [] → wp (gets f) s Q.
Proof. done. Qed.

Lemma wp_modify (f : St → St) s (Q : unit → St → list Ev → Prop) :
  Q tt (f s) [] → wp (modify f) s Q.
Proof. done. Qed.

Lemma wp_emit (e : Ev) s (Q : unit → St → list Ev → Prop) :
  Q tt s [e] → wp (emit e) s Q.
Proof. done. Qed.

Lemma wp_assert (b : bool) s (Q : unit → St → list Ev → Prop) :
  b = true → Q tt s [] → wp (ASSERT b) s Q.
Proof. by intros ->. Qed.

Lemma wp_update (f : St → option St) s s' (Q : unit → St → list Ev → Prop) :
  f s = Some s' → Q tt s' [] → wp (update f) s Q.
Proof. unfold wp, update. by intros ->. Qed.

Lemma wp_when (b : bool) (m : prog St Ev unit) s Q :
  (b = true → wp m s Q) → (b = false → Q tt s []) → wp (when b m) s Q.
Proof. destruct b; cbn; eauto. Qed.

Lemma wp_some {A} (m : prog St Ev A) s Q :
  wp m s Q ↔ ∃ a s' es, m s = Some (a, s', es) ∧ Q a s' es.
Proof.
  unfold wp. destruct (m s) as [[[a s1] e1]|]; split;
    [eauto 6|by intros (?&?&?&[= <- <- <-]&?)|done|by intros (?&?&?&?&?)].
Qed.
End wp_rules.

(** One step of a program under [wp]. *)
Ltac wp_step :=
  lazymatch goal with
  | |- wp (_ ≫= _) _ _ => apply wp_bind
  | |- wp (mret _) _ _ => apply wp_ret
  | |- wp get_st _ _ => apply wp_get
  | |- wp (gets _) _ _ => apply wp_gets
  | |- wp (modify _) _ _ => apply wp_modify
  | |- wp (emit _) _ _ => apply wp_emit
  | |- wp (ASSERT _) _ _ => apply wp_assert
  | |- wp (when _ _) _ _ => apply wp_when; intros
  end; cbn beta.

(** Turns boolean tests of the code into the propositions they decide. *)
Ltac bool_to_prop :=
  repeat match goal with
  | H : (_ && _) = true |- _ => apply andb_true_iff in H as [??]
  | H : (_ && _) = false |- _ => apply andb_false_iff in H
  | H : (_ || _) = true |- _ => apply orb_true_iff in H
  | H : (_ || _) = false |- _ => apply orb_false_iff in H as [??]
  | H : negb _ = true |- _ => apply negb_true_iff in H
  | H : negb _ = false |- _ => apply negb_false_iff in H
  | H : (_ <? _) = true |- _ => apply Z.ltb_lt in H
  | H : (_ <? _) = false |- _ => apply Z.ltb_ge in H
  | H : (_ <=? _) = true |- _ => apply Z.leb_le in H
  | H : (_ <=? _) = false |- _ => apply Z.leb_gt in H
  | H : (_ =? _) = true |- _ => apply Z.eqb_eq in H
  | H : (_ =? _) = false |- _ => apply Z.eqb_neq in H
  | H : bool_decide _ = true |- _ => apply bool_decide_eq_true in H
  | H : bool_decide _ = false |- _ => apply bool_decide_eq_false in H
  end.

(** Proves a boolean test of the code from propositions. *)
Ltac bool_solve :=
  cbn in *;
  rewrite ?andb_true_iff, ?orb_true_iff, ?negb_true_iff, ?Z.eqb_eq, ?Z.ltb_lt, ?Z.leb_le,
    ?bool_decide_eq_true, ?Z.ltb_ge, ?Z.leb_gt, ?Z.eqb_neq;
  first [done | lia | tauto | congruence | intuition (lia || congruence)].

(** Runs a program to its next branch, proving its assertions. *)
Ltac wp_run :=
  repeat lazymatch goal with
  | |- wp (ASSERT _) _ _ => apply wp_assert; [solve [bool_solve]|]
  | |- wp (when _ _) _ _ => fail
  | |- wp _ _ _ => wp_step
  end.

(** * Shared lemmas *)

Create HintDb badvpn discriminated.

Lemma len_nonneg {A} (l : list A) : 0 ≤ len l.
Proof. unfold len. lia. Qed.
Lemma len_app {A} (l k : list A) : len (l ++ k) = len l + len k.
Proof. unfold len. rewrite length_app. lia. Qed.
Lemma len_nil {A} : len (@nil A) = 0.
Proof. done. Qed.
Lemma len_cons {A} (x : A) l : len (x :: l) = 1 + len l.
Proof. unfold len. cbn [length]. lia. Qed.
Lemma len_0_nil {A} (l : list A) : len l = 0 → l = [].
Proof. unfold len. intros. apply nil_length_inv. lia. Qed.
Lemma len_ztake {A} i (l : list A) : 0 ≤ i ≤ len l → len (ztake i l) = i.
Proof. unfold len, ztake. rewrite length_take. lia. Qed.
Lemma len_zdrop {A} i (l : list A) : 0 ≤ i ≤ len l → len (zdrop i l) = len l - i.
Proof. unfold len, zdrop. rewrite length_drop. lia. Qed.
Lemma ztake_zdrop {A} i (l : list A) : ztake i l ++ zdrop i l = l.
Proof. apply take_drop. Qed.
Lemma ztake_0 {A} (l : list A) : ztake 0 l = [].
Proof. done. Qed.
Lemma zdrop_0 {A} (l : list A) : zdrop 0 l = l.
Proof. done. Qed.
Lemma ztake_all {A} i (l : list A) : len l ≤ i → ztake i l = l.
Proof. unfold ztake, len. intros. apply take_ge. lia. Qed.
Lemma zdrop_all {A} i (l : list A) : len l ≤ i → zdrop i l = [].
Proof. unfold zdrop, len. intros. apply drop_ge. lia. Qed.
Lemma zdrop_zdrop {A} i j (l : list A) : 0 ≤ i → 0 ≤ j → zdrop j (zdrop i l) = zdrop (i + j) l.
Proof. intros. unfold zdrop. rewrite drop_drop. f_equal. lia. Qed.
Lemma ztake_app {A} (l k : list A) : ztake (len l) (l ++ k) = l.
Proof. unfold ztake, len. rewrite Nat2Z.id. apply take_app_length. Qed.
Lemma zdrop_app {A} (l k : list A) : zdrop (len l) (l ++ k) = k.
Proof. unfold zdrop, len. rewrite Nat2Z.id. apply drop_app_length. Qed.

#[export] Hint Resolve len_nonneg : badvpn.
Create Rewrite HintDb lens.
#[export] Hint Rewrite @len_app @len_nil @len_cons : lens.

(** Arithmetic on lengths. *)
Ltac len_lia :=
  repeat match goal with
  | |- context [len ?l] => lazymatch goal with
      | _ : 0 ≤ len l |- _ => fail | _ => pose proof (len_nonneg l) end
  | _ : context [len ?l] |- _ => lazymatch goal with
      | _ : 0 ≤ len l |- _ => fail | _ => pose proof (len_nonneg l) end
  end; lia.

Lemma B_COMPARE_spec a b :
  (a < b ∧ B_COMPARE a b = -1) ∨ (a = b ∧ B_COMPARE a b = 0) ∨ (b < a ∧ B_COMPARE a b = 1).
Proof.
  unfold B_COMPARE. destruct (Z.ltb_spec b a), (Z.ltb_spec a b); cbn; lia.
Qed.

Lemma filter_absent {A} `{!EqDecision A} (x : A) (l : list A) : x ∉ l → filter (λ y, y ≠ x) l = l.
Proof.
  induction l as [|y l IH]; [done|]. intros [Hy Hl]%not_elem_of_cons.
  rewrite filter_cons, decide_True by done. by rewrite IH.
Qed.

Lemma bytes_ok_app l k : bytes_ok (l ++ k) ↔ bytes_ok l ∧ bytes_ok k.
Proof. apply Forall_app. Qed.
Lemma bytes_ok_ztake i l : bytes_ok l → bytes_ok (ztake i l).
Proof. apply Forall_take. Qed.
Lemma bytes_ok_zdrop i l : bytes_ok l → bytes_ok (zdrop i l).
Proof. apply Forall_drop. Qed.
Lemma byte_at_ok l i : bytes_ok l → is_u8 (byte_at l i).
Proof.
  intros Hl. unfold byte_at. destruct (nth_in_or_default i l 0) as [Hi| ->].
  - by apply (proj1 (List.Forall_forall _ _) Hl).
  - unfold is_u8. lia.
Qed.
#[export] Hint Resolve bytes_ok_ztake bytes_ok_zdrop byte_at_ok : badvpn.

(** Byte lists built from known bytes. *)
Ltac bytes_solve :=
  unfold bytes_ok;
  repeat first [apply Forall_nil_2 | apply Forall_cons_2 | apply Forall_app_2];
  auto with badvpn.

Lemma double_half n : 2 * n / 2 = n.
Proof. rewrite Z.mul_comm. by apply Z.div_mul. Qed.

Lemma s32_small x : - 2 ^ 31 ≤ x < 2 ^ 31 → s32 x = x.
Proof. intros. unfold s32. rewrite Z.mod_small; lia. Qed.

(** ** Slices of memory *)

Lemma len_zslice {A} off n (l : list A) : 0 ≤ off → 0 ≤ n → off + n ≤ len l →
  len (zslice off n l) = n.
Proof. intros. unfold zslice. apply len_ztake. rewrite len_zdrop; lia. Qed.
Lemma len_zwrite {A} off (d l : list A) : 0 ≤ off → off + len d ≤ len l →
  len (zwrite off d l) = len l.
Proof.
  intros. unfold zwrite. pose proof (len_nonneg d).
  rewrite !len_app, len_ztake, len_zdrop; lia.
Qed.
Lemma zslice_zwrite_same {A} off (d l : list A) : 0 ≤ off → off + len d ≤ len l →
  zslice off (len d) (zwrite off d l) = d.
Proof.
  intros. unfold zslice, zwrite. pose proof (len_nonneg d).
  rewrite <- (len_ztake off l) at 1 by lia. rewrite zdrop_app. apply ztake_app.
Qed.
Lemma zslice_zwrite_before {A} off n off' (d l : list A) :
  0 ≤ off → 0 ≤ n → off + n ≤ off' → off' ≤ len l →
  zslice off n (zwrite off' d l) = zslice off n l.
Proof.
  intros ???. unfold zslice, zwrite, ztake, zdrop, len. intros.
  rewrite drop_app_le by (rewrite length_take; lia).
  rewrite take_app_le by (rewrite length_drop, length_take; lia).
  rewrite skipn_firstn_comm, take_take. f_equal. lia.
Qed.
Lemma zslice_zwrite_after {A} off n off' (d l : list A) :
  0 ≤ off' → off' + len d ≤ off → off' + len d ≤ len l →
  zslice off n (zwrite off' d l) = zslice off n l.
Proof.
  intros. unfold zslice. f_equal. unfold zwrite. pose proof (len_nonneg d).
  rewrite app_assoc.
  assert (len (ztake off' l ++ d) = off' + len d) as E by (rewrite len_app, len_ztake; lia).
  assert (off = len (ztake off' l ++ d) + (off - (off' + len d))) as -> by lia.
  rewrite <- zdrop_zdrop, zdrop_app, zdrop_zdrop by lia. f_equal. lia.
Qed.
Lemma zdrop_app_le {A} i (l k : list A) : 0 ≤ i ≤ len l → zdrop i (l ++ k) = zdrop i l ++ k.
Proof. intros. unfold zdrop, len in *. apply drop_app_le. lia. Qed.
Lemma ztake_app_le {A} i (l k : list A) : 0 ≤ i ≤ len l → ztake i (l ++ k) = ztake i l.
Proof. intros. unfold ztake, len in *. apply take_app_le. lia. Qed.
Lemma zslice_app_le {A} off n (l k : list A) : 0 ≤ off → 0 ≤ n → off + n ≤ len l →
  zslice off n (l ++ k) = zslice off n l.
Proof.
  intros. unfold zslice. rewrite zdrop_app_le by lia. apply ztake_app_le. rewrite len_zdrop; lia.
Qed.
Lemma zslice_zslice {A} off n o m (l : list A) : 0 ≤ off → 0 ≤ o → 0 ≤ m → o + m ≤ n →
  off + n ≤ len l → zslice o m (zslice off n l) = zslice (off + o) m l.
Proof.
  intros. unfold zslice, ztake, zdrop. rewrite skipn_firstn_comm, take_take, drop_drop.
  f_equal; [lia|f_equal; lia].
Qed.
Lemma zdrop_zslice {A} off n o (l : list A) : 0 ≤ off → 0 ≤ o ≤ n → off + n ≤ len l →
  zdrop o (zslice off n l) = zslice (off + o) (n - o) l.
Proof.
  intros. unfold zslice, ztake, zdrop. rewrite skipn_firstn_comm, drop_drop.
  f_equal; [lia|f_equal; lia].
Qed.
Lemma zslice_split {A} off n m (l : list A) : 0 ≤ off → 0 ≤ n → 0 ≤ m → off + n + m ≤ len l →
  zslice off (n + m) l = zslice off n l ++ zslice (off + n) m l.
Proof.
  intros. rewrite <- (ztake_zdrop n (zslice off (n + m) l)). f_equal.
  - unfold zslice, ztake. rewrite take_take. f_equal. lia.
  - rewrite zdrop_zslice by lia. f_equal. lia.
Qed.
