(* ===== verification/Misc.v ===== *)
(** Integer helpers of misc/: byte order (byteorder.h), reading and writing
    integers in memory (read_write_int.h), arithmetic with overflow detection
    (bsize.h), alignment (balign.h) and min/max (minmax.h).

    The library is built with BADVPN_LITTLE_ENDIAN (Android.mk), so the object
    representation of an integer is its little-endian byte list. *)
From S2P Require Import Prelude.

(** * misc/byteorder.h *)
Module ByteOrder.

(** [*((uint8_t * )&x + i)] on a little-endian machine. *)
Definition mem_byte (x i : Z) : Z := u8 (Z.shiftr x (8 * i)).

Definition badvpn_reverse16 (x : Z) : Z :=
  Z.lor (mem_byte x 1) (Z.shiftl (mem_byte x 0) 8).

Definition badvpn_reverse32 (x : Z) : Z :=
  Z.lor (mem_byte x 3) (Z.lor (Z.shiftl (mem_byte x 2) 8)
    (Z.lor (Z.shiftl (mem_byte x 1) 16) (Z.shiftl (mem_byte x 0) 24))).

Definition badvpn_reverse64 (x : Z) : Z :=
  Z.lor (mem_byte x 7) (Z.lor (Z.shiftl (mem_byte x 6) 8)
    (Z.lor (Z.shiftl (mem_byte x 5) 16) (Z.lor (Z.shiftl (mem_byte x 4) 24)
      (Z.lor (Z.shiftl (mem_byte x 3) 32) (Z.lor (Z.shiftl (mem_byte x 2) 40)
        (Z.lor (Z.shiftl (mem_byte x 1) 48) (Z.shiftl (mem_byte x 0) 56))))))).

Definition hton8 (x : Z) : Z := x.
Definition htol8 (x : Z) : Z := x.
Definition hton16 (x : Z) : Z := badvpn_reverse16 x.
Definition hton32 (x : Z) : Z := badvpn_reverse32 x.
Definition hton64 (x : Z) : Z := badvpn_reverse64 x.
Definition htol16 (x : Z) : Z := x.
Definition htol32 (x : Z) : Z := x.
Definition htol64 (x : Z) : Z := x.
Definition ntoh8 (x : Z) : Z := hton8 x.
Definition ntoh16 (x : Z) : Z := hton16 x.
Definition ntoh32 (x : Z) : Z := hton32 x.
Definition ntoh64 (x : Z) : Z := hton64 x.
Definition ltoh8 (x : Z) : Z := htol8 x.
Definition ltoh16 (x : Z) : Z := htol16 x.
Definition ltoh32 (x : Z) : Z := htol32 x.
Definition ltoh64 (x : Z) : Z := htol64 x.

End ByteOrder.
Export ByteOrder.

(** * misc/read_write_int.h *)
Module ReadWriteInt.

Definition badvpn_read_le8 (ptr : bytes) : Z := Z.shiftl (byte_at ptr 0) 0.
Definition badvpn_read_le16 (ptr : bytes) : Z :=
  Z.lor (Z.shiftl (byte_at ptr 1) 8) (Z.shiftl (byte_at ptr 0) 0).
Definition badvpn_read_le32 (ptr : bytes) : Z :=
  Z.lor (Z.lor (Z.shiftl (byte_at ptr 3) 24) (Z.shiftl (byte_at ptr 2) 16))
    (Z.lor (Z.shiftl (byte_at ptr 1) 8) (Z.shiftl (byte_at ptr 0) 0)).
Definition badvpn_read_le64 (ptr : bytes) : Z :=
  Z.lor
    (Z.lor (Z.lor (Z.shiftl (byte_at ptr 7) 56) (Z.shiftl (byte_at ptr 6) 48))
      (Z.lor (Z.shiftl (byte_at ptr 5) 40) (Z.shiftl (byte_at ptr 4) 32)))
    (Z.lor (Z.lor (Z.shiftl (byte_at ptr 3) 24) (Z.shiftl (byte_at ptr 2) 16))
      (Z.lor (Z.shiftl (byte_at ptr 1) 8) (Z.shiftl (byte_at ptr 0) 0))).

Definition badvpn_read_be8 (ptr : bytes) : Z := Z.shiftl (byte_at ptr 0) 0.
Definition badvpn_read_be16 (ptr : bytes) : Z :=
  Z.lor (Z.shiftl (byte_at ptr 0) 8) (Z.shiftl (byte_at ptr 1) 0).
Definition badvpn_read_be32 (ptr : bytes) : Z :=
  Z.lor (Z.lor (Z.shiftl (byte_at ptr 0) 24) (Z.shiftl (byte_at ptr 1) 16))
    (Z.lor (Z.shiftl (byte_at ptr 2) 8) (Z.shiftl (byte_at ptr 3) 0)).
Definition badvpn_read_be64 (ptr : bytes) : Z :=
  Z.lor
    (Z.lor (Z.lor (Z.shiftl (byte_at ptr 0) 56) (Z.shiftl (byte_at ptr 1) 48))
      (Z.lor (Z.shiftl (byte_at ptr 2) 40) (Z.shiftl (byte_at ptr 3) 32)))
    (Z.lor (Z.lor (Z.shiftl (byte_at ptr 4) 24) (Z.shiftl (byte_at ptr 5) 16))
      (Z.lor (Z.shiftl (byte_at ptr 6) 8) (Z.shiftl (byte_at ptr 7) 0))).

(** A write returns the bytes it stores, lowest address first. *)
Definition badvpn_write_le8 (x : Z) : bytes := [u8 (Z.shiftr x 0)].
Definition badvpn_write_le16 (x : Z) : bytes :=
  [u8 (Z.shiftr x 0); u8 (Z.shiftr x 8)].
Definition badvpn_write_le32 (x : Z) : bytes :=
  [u8 (Z.shiftr x 0); u8 (Z.shiftr x 8); u8 (Z.shiftr x 16); u8 (Z.shiftr x 24)].
Definition badvpn_write_le64 (x : Z) : bytes :=
  [u8 (Z.shiftr x 0); u8 (Z.shiftr x 8); u8 (Z.shiftr x 16); u8 (Z.shiftr x 24);
   u8 (Z.shiftr x 32); u8 (Z.shiftr x 40); u8 (Z.shiftr x 48); u8 (Z.shiftr x 56)].

Definition badvpn_write_be8 (x : Z) : bytes := [u8 (Z.shiftr x 0)].
Definition badvpn_write_be16 (x : Z) : bytes :=
  [u8 (Z.shiftr x 8); u8 (Z.shiftr x 0)].
Definition badvpn_write_be32 (x : Z) : bytes :=
  [u8 (Z.shiftr x 24); u8 (Z.shiftr x 16); u8 (Z.shiftr x 8); u8 (Z.shiftr x 0)].
Definition badvpn_write_be64 (x : Z) : bytes :=
  [u8 (Z.shiftr x 56); u8 (Z.shiftr x 48); u8 (Z.shiftr x 40); u8 (Z.shiftr x 32);
   u8 (Z.shiftr x 24); u8 (Z.shiftr x 16); u8 (Z.shiftr x 8); u8 (Z.shiftr x 0)].

End ReadWriteInt.
Export ReadWriteInt.

(** * Reference definitions: positional value of a byte list *)

Fixpoint le_val (l : bytes) : Z :=
  match l with [] => 0 | b :: l => b + 2 ^ 8 * le_val l end.
Fixpoint le_bytes (n : nat) (x : Z) : bytes :=
  match n with O => [] | S n => u8 x :: le_bytes n (x / 2 ^ 8) end.

(** The object representation of a [uint16_t] or [uint32_t] struct field. *)
Definition mem16 (x : Z) : bytes := le_bytes 2 x.
Definition mem32 (x : Z) : bytes := le_bytes 4 x.

Lemma u8_range x : is_u8 (u8 x).
Proof. apply Z.mod_pos_bound. lia. Qed.
#[export] Hint Resolve u8_range : badvpn.

Lemma lor_shiftl a b n : 0 ≤ n → 0 ≤ a < 2 ^ n → Z.lor a (Z.shiftl b n) = a + b * 2 ^ n.
Proof.
  intros Hn Ha. rewrite <- Z.shiftl_mul_pow2 by lia.
  assert (Z.land a (Z.shiftl b n) = 0) as E.
  { apply Z.bits_inj'. intros k Hk. rewrite Z.land_spec, Z.bits_0.
    destruct (Z.lt_ge_cases k n) as [Hkn|Hkn].
    - rewrite Z.shiftl_spec_low by done. apply andb_false_r.
    - rewrite <- (Z.mod_small a (2 ^ n)) by done.
      by rewrite Z.mod_pow2_bits_high by lia. }
  symmetry. rewrite Z.add_nocarry_lxor by done. by apply Z.lxor_lor.
Qed.

Lemma land_high x k n : 0 ≤ k ≤ n → 0 ≤ x < 2 ^ n → Z.land x (Z.shiftl (Z.ones (n - k)) k) = x / 2 ^ k * 2 ^ k.
Proof.
  intros Hk Hx. rewrite <- Z.shiftr_div_pow2, <- Z.shiftl_mul_pow2 by lia.
  apply Z.bits_inj'. intros m Hm. rewrite Z.land_spec, !Z.shiftl_spec by lia.
  destruct (Z.lt_ge_cases m k) as [Hmk|Hmk].
  { rewrite !(Z.testbit_neg_r _ (m - k)) by lia. apply andb_false_r. }
  rewrite Z.shiftr_spec by lia. replace (m - k + k) with m by lia.
  destruct (Z.lt_ge_cases m n) as [Hmn|Hmn].
  - rewrite Z.ones_spec_low by lia. apply andb_true_r.
  - rewrite Z.ones_spec_high by lia. rewrite andb_false_r. symmetry.
    rewrite <- (Z.mod_small x (2 ^ n)) by done. by rewrite Z.mod_pow2_bits_high by lia.
Qed.

(** A decidable property of small numbers, by computation. *)
Lemma below_dec (P : Z → Prop) `{!∀ p, Decision (P p)} n :
  bool_decide (Forall P (Z.of_nat <$> seq 0 n)) = true → ∀ p, 0 ≤ p < Z.of_nat n → P p.
Proof.
  intros Hc%bool_decide_eq_true p Hp. rewrite Forall_forall in Hc. apply Hc.
  apply list_elem_of_fmap. exists (Z.to_nat p). split; [lia|]. apply elem_of_seq. lia.
Qed.

Lemma le_val_range l : bytes_ok l → 0 ≤ le_val l < 2 ^ (8 * Z.of_nat (length l)).
Proof.
  induction 1 as [|b l Hb _ IH]; cbn [le_val length]; [lia|].
  unfold is_u8 in Hb.
  replace (8 * Z.of_nat (S (length l))) with (8 + 8 * Z.of_nat (length l)) by lia.
  rewrite Z.pow_add_r by lia. nia.
Qed.

Lemma le_bytes_ok n x : bytes_ok (le_bytes n x).
Proof.
  revert x. induction n as [|n IH]; intros x; cbn; constructor;
    [apply u8_range|apply IH].
Qed.
Lemma le_bytes_length n x : length (le_bytes n x) = n.
Proof. revert x. induction n; cbn; intros; [done|]. by f_equal. Qed.
#[export] Hint Resolve le_bytes_ok : badvpn.

Lemma le_val_bytes n x : le_val (le_bytes n x) = x mod 2 ^ (8 * Z.of_nat n).
Proof.
  revert x. induction n as [|n IH]; intros x; cbn [le_val le_bytes].
  - by rewrite Z.mod_1_r.
  - rewrite IH. unfold u8.
    replace (8 * Z.of_nat (S n)) with (8 + 8 * Z.of_nat n) by lia.
    rewrite Z.pow_add_r by lia. rewrite Z.rem_mul_r by lia. lia.
Qed.

Lemma le_bytes_val l : bytes_ok l → le_bytes (length l) (le_val l) = l.
Proof.
  induction 1 as [|b l Hb _ IH]; cbn [le_val length le_bytes]; [done|].
  unfold is_u8 in Hb. f_equal.
  - unfold u8. rewrite Z.mul_comm, Z.mod_add by lia. by apply Z.mod_small.
  - rewrite Z.mul_comm, Z.div_add by lia. by rewrite Z.div_small.
Qed.

Lemma le_bytes_inj n x y :
  0 ≤ x < 2 ^ (8 * Z.of_nat n) → 0 ≤ y < 2 ^ (8 * Z.of_nat n) →
  le_bytes n x = le_bytes n y → x = y.
Proof.
  intros Hx Hy E. apply (f_equal le_val) in E.
  rewrite !le_val_bytes in E. by rewrite !Z.mod_small in E.
Qed.

(** The or of shifted bytes is their sum, innermost operand first. *)
Lemma shiftl_lor a b n : 0 ≤ n → 0 ≤ a < 2 ^ n → Z.lor (Z.shiftl b n) a = b * 2 ^ n + a.
Proof. intros. rewrite Z.lor_comm, lor_shiftl by done. lia. Qed.

Ltac lor_loop :=
  repeat match goal with
  | |- context [Z.lor (Z.shiftl ?b ?n) ?a] =>
      lazymatch a with context [Z.lor] => fail | _ => idtac end;
      rewrite (shiftl_lor a b n) by lia
  | |- context [Z.lor ?a (Z.shiftl ?b ?n)] =>
      lazymatch a with context [Z.lor] => fail | _ => idtac end;
      rewrite (lor_shiftl a b n) by lia
  end.
Ltac lor_to_add :=
  unfold is_u8 in *; rewrite ?Z.shiftl_0_r, <- ?Z.lor_assoc; lor_loop.

(** The shift-and-or readers compute the positional value of the bytes. *)
Ltac read_val :=
  intros; unfold is_u8 in *; cbn [byte_at nth]; lor_to_add; cbn [le_val rev app]; lia.

Lemma read_le16_val b0 b1 k : is_u8 b0 → is_u8 b1 →
  badvpn_read_le16 (b0 :: b1 :: k) = le_val [b0; b1].
Proof. unfold badvpn_read_le16, byte_at. read_val. Qed.
Lemma read_be16_val b0 b1 k : is_u8 b0 → is_u8 b1 →
  badvpn_read_be16 (b0 :: b1 :: k) = le_val [b1; b0].
Proof. unfold badvpn_read_be16, byte_at. read_val. Qed.
Lemma read_le32_val b0 b1 b2 b3 k : is_u8 b0 → is_u8 b1 → is_u8 b2 → is_u8 b3 →
  badvpn_read_le32 (b0 :: b1 :: b2 :: b3 :: k) = le_val [b0; b1; b2; b3].
Proof. unfold badvpn_read_le32, byte_at. read_val. Qed.
Lemma read_be32_val b0 b1 b2 b3 k : is_u8 b0 → is_u8 b1 → is_u8 b2 → is_u8 b3 →
  badvpn_read_be32 (b0 :: b1 :: b2 :: b3 :: k) = le_val [b3; b2; b1; b0].
Proof. unfold badvpn_read_be32, byte_at. read_val. Qed.
Lemma read_le64_val b0 b1 b2 b3 b4 b5 b6 b7 k :
  bytes_ok [b0; b1; b2; b3; b4; b5; b6; b7] →
  badvpn_read_le64 (b0 :: b1 :: b2 :: b3 :: b4 :: b5 :: b6 :: b7 :: k)
  = le_val [b0; b1; b2; b3; b4; b5; b6; b7].
Proof.
  unfold badvpn_read_le64, byte_at, bytes_ok. rewrite !Forall_cons. intros. destruct_and!.
  read_val.
Qed.
Lemma read_be64_val b0 b1 b2 b3 b4 b5 b6 b7 k :
  bytes_ok [b0; b1; b2; b3; b4; b5; b6; b7] →
  badvpn_read_be64 (b0 :: b1 :: b2 :: b3 :: b4 :: b5 :: b6 :: b7 :: k)
  = le_val [b7; b6; b5; b4; b3; b2; b1; b0].
Proof.
  unfold badvpn_read_be64, byte_at, bytes_ok. rewrite !Forall_cons. intros. destruct_and!.
  read_val.
Qed.

(** The writers store the base-256 digits. *)
Ltac write_val :=
  cbn [le_bytes rev app]; unfold u8; rewrite !Z.shiftr_div_pow2 by lia;
  rewrite ?Z.div_div by lia; change (2 ^ 0) with 1; rewrite ?Z.div_1_r; reflexivity.
Lemma write_le16_val x : badvpn_write_le16 x = le_bytes 2 x.
Proof. unfold badvpn_write_le16. write_val. Qed.
Lemma write_le32_val x : badvpn_write_le32 x = le_bytes 4 x.
Proof. unfold badvpn_write_le32. write_val. Qed.
Lemma write_le64_val x : badvpn_write_le64 x = le_bytes 8 x.
Proof. unfold badvpn_write_le64. write_val. Qed.
Lemma write_be16_val x : badvpn_write_be16 x = rev (le_bytes 2 x).
Proof. unfold badvpn_write_be16. write_val. Qed.
Lemma write_be32_val x : badvpn_write_be32 x = rev (le_bytes 4 x).
Proof. unfold badvpn_write_be32. write_val. Qed.
Lemma write_be64_val x : badvpn_write_be64 x = rev (le_bytes 8 x).
Proof. unfold badvpn_write_be64. write_val. Qed.

(** Reading back what was written. *)
Lemma read_write_le16 x k : is_u16 x → badvpn_read_le16 (badvpn_write_le16 x ++ k) = x.
Proof.
  intros Hx. rewrite write_le16_val. cbn [le_bytes app].
  rewrite read_le16_val by auto with badvpn.
  change (le_val (le_bytes 2 x) = x). rewrite le_val_bytes. by apply Z.mod_small.
Qed.
Lemma read_write_be16 x k : is_u16 x → badvpn_read_be16 (badvpn_write_be16 x ++ k) = x.
Proof.
  intros Hx. rewrite write_be16_val. cbn [le_bytes app rev].
  rewrite read_be16_val by auto with badvpn.
  change (le_val (le_bytes 2 x) = x). rewrite le_val_bytes. by apply Z.mod_small.
Qed.
Lemma read_write_le32 x k : is_u32 x → badvpn_read_le32 (badvpn_write_le32 x ++ k) = x.
Proof.
  intros Hx. rewrite write_le32_val. cbn [le_bytes app].
  rewrite read_le32_val by auto with badvpn.
  change (le_val (le_bytes 4 x) = x). rewrite le_val_bytes. by apply Z.mod_small.
Qed.
Lemma read_write_be32 x k : is_u32 x → badvpn_read_be32 (badvpn_write_be32 x ++ k) = x.
Proof.
  intros Hx. rewrite write_be32_val. cbn [le_bytes app rev].
  rewrite read_be32_val by auto with badvpn.
  change (le_val (le_bytes 4 x) = x). rewrite le_val_bytes. by apply Z.mod_small.
Qed.
Lemma read_write_le64 x k : is_u64 x → badvpn_read_le64 (badvpn_write_le64 x ++ k) = x.
Proof.
  intros Hx. rewrite write_le64_val. pose proof (le_bytes_ok 8 x) as Hok.
  cbn [le_bytes app] in *. rewrite read_le64_val by done.
  change (le_val (le_bytes 8 x) = x). rewrite le_val_bytes. by apply Z.mod_small.
Qed.
Lemma read_write_be64 x k : is_u64 x → badvpn_read_be64 (badvpn_write_be64 x ++ k) = x.
Proof.
  intros Hx. rewrite write_be64_val.
  assert (bytes_ok (rev (le_bytes 8 x))) as Hok by (apply Forall_rev, le_bytes_ok).
  cbn [le_bytes app rev] in *. rewrite read_be64_val by done.
  change (le_val (le_bytes 8 x) = x). rewrite le_val_bytes. by apply Z.mod_small.
Qed.

(** Byte reversal reverses the object representation. *)
Lemma mem_byte_u8 x i : is_u8 (mem_byte x i).
Proof. apply u8_range. Qed.
#[export] Hint Resolve mem_byte_u8 : badvpn.

Lemma mem_bytes2 x : mem16 x = [mem_byte x 0; mem_byte x 1].
Proof. symmetry. unfold mem_byte, mem16. cbn [Z.mul]. apply write_le16_val. Qed.
Lemma mem_bytes4 x : mem32 x = [mem_byte x 0; mem_byte x 1; mem_byte x 2; mem_byte x 3].
Proof. symmetry. unfold mem_byte, mem32. cbn [Z.mul]. apply write_le32_val. Qed.

Lemma reverse16_val x : badvpn_reverse16 x = le_val (rev (mem16 x)).
Proof.
  rewrite mem_bytes2. unfold badvpn_reverse16.
  pose proof (mem_byte_u8 x 0). pose proof (mem_byte_u8 x 1). read_val.
Qed.
Lemma reverse32_val x : badvpn_reverse32 x = le_val (rev (mem32 x)).
Proof.
  rewrite mem_bytes4. unfold badvpn_reverse32.
  pose proof (mem_byte_u8 x 0). pose proof (mem_byte_u8 x 1).
  pose proof (mem_byte_u8 x 2). pose proof (mem_byte_u8 x 3).
  unfold is_u8 in *. rewrite !Z.lor_assoc.
  lor_loop. cbn [le_val rev app]. lia.
Qed.

Lemma mem_reverse16 x : mem16 (badvpn_reverse16 x) = rev (mem16 x).
Proof.
  rewrite reverse16_val. apply (le_bytes_val (rev (mem16 x))).
  apply Forall_rev, le_bytes_ok.
Qed.
Lemma mem_reverse32 x : mem32 (badvpn_reverse32 x) = rev (mem32 x).
Proof.
  rewrite reverse32_val. apply (le_bytes_val (rev (mem32 x))).
  apply Forall_rev, le_bytes_ok.
Qed.
Lemma reverse16_u16 x : is_u16 (badvpn_reverse16 x).
Proof.
  rewrite reverse16_val. apply (le_val_range (rev (mem16 x))), Forall_rev, le_bytes_ok.
Qed.
Lemma reverse32_u32 x : is_u32 (badvpn_reverse32 x).
Proof.
  rewrite reverse32_val. apply (le_val_range (rev (mem32 x))), Forall_rev, le_bytes_ok.
Qed.
Lemma mem16_inj x y : is_u16 x → is_u16 y → mem16 x = mem16 y → x = y.
Proof. apply (le_bytes_inj 2). Qed.
Lemma mem32_inj x y : is_u32 x → is_u32 y → mem32 x = mem32 y → x = y.
Proof. apply (le_bytes_inj 4). Qed.

Lemma ntoh16_hton16 x : is_u16 x → ntoh16 (hton16 x) = x.
Proof.
  intros. apply mem16_inj; [apply reverse16_u16|done|].
  unfold ntoh16, hton16. rewrite !mem_reverse16. apply rev_involutive.
Qed.
Lemma ntoh32_hton32 x : is_u32 x → ntoh32 (hton32 x) = x.
Proof.
  intros. apply mem32_inj; [apply reverse32_u32|done|].
  unfold ntoh32, hton32. rewrite !mem_reverse32. apply rev_involutive.
Qed.
Lemma ntoh16_inj x y : is_u16 x → is_u16 y → ntoh16 x = ntoh16 y → x = y.
Proof.
  intros Hx Hy E. rewrite <- (ntoh16_hton16 x), <- (ntoh16_hton16 y) by done.
  unfold ntoh16 in *. by rewrite E.
Qed.
Lemma ntoh32_inj x y : is_u32 x → is_u32 y → ntoh32 x = ntoh32 y → x = y.
Proof.
  intros Hx Hy E. rewrite <- (ntoh32_hton32 x), <- (ntoh32_hton32 y) by done.
  unfold ntoh32 in *. by rewrite E.
Qed.

(** A field in network order is big-endian in memory. *)
Lemma mem16_hton16 x : mem16 (hton16 x) = badvpn_write_be16 x.
Proof. unfold hton16. rewrite mem_reverse16. symmetry. apply write_be16_val. Qed.
Lemma mem32_hton32 x : mem32 (hton32 x) = badvpn_write_be32 x.
Proof. unfold hton32. rewrite mem_reverse32. symmetry. apply write_be32_val. Qed.

Lemma read_le16_mem16 x k : is_u16 x → badvpn_read_le16 (mem16 x ++ k) = x.
Proof. intros. unfold mem16. rewrite <- write_le16_val. by apply read_write_le16. Qed.
Lemma read_le32_mem32 x k : is_u32 x → badvpn_read_le32 (mem32 x ++ k) = x.
Proof. intros. unfold mem32. rewrite <- write_le32_val. by apply read_write_le32. Qed.
Lemma mem16_read_le16 b0 b1 k : is_u8 b0 → is_u8 b1 →
  mem16 (badvpn_read_le16 (b0 :: b1 :: k)) = [b0; b1].
Proof. intros. rewrite read_le16_val by done. apply (le_bytes_val [b0; b1]). by bytes_solve. Qed.
Lemma mem32_read_le32 b0 b1 b2 b3 k : is_u8 b0 → is_u8 b1 → is_u8 b2 → is_u8 b3 →
  mem32 (badvpn_read_le32 (b0 :: b1 :: b2 :: b3 :: k)) = [b0; b1; b2; b3].
Proof.
  intros. rewrite read_le32_val by done. apply (le_bytes_val [b0; b1; b2; b3]). by bytes_solve.
Qed.
Lemma mem16_ok x : bytes_ok (mem16 x).
Proof. apply le_bytes_ok. Qed.
Lemma mem32_ok x : bytes_ok (mem32 x).
Proof. apply le_bytes_ok. Qed.
#[export] Hint Resolve mem16_ok mem32_ok reverse16_u16 reverse32_u32 : badvpn.
Lemma hton16_u16 x : is_u16 (hton16 x).
Proof. apply reverse16_u16. Qed.
Lemma ntoh16_u16 x : is_u16 (ntoh16 x).
Proof. apply reverse16_u16. Qed.
Lemma read_le16_u16 b0 b1 k : is_u8 b0 → is_u8 b1 → is_u16 (badvpn_read_le16 (b0 :: b1 :: k)).
Proof.
  intros. rewrite read_le16_val by done. apply (le_val_range [b0; b1]). by bytes_solve.
Qed.
Lemma read_le32_u32 b0 b1 b2 b3 k : is_u8 b0 → is_u8 b1 → is_u8 b2 → is_u8 b3 →
  is_u32 (badvpn_read_le32 (b0 :: b1 :: b2 :: b3 :: k)).
Proof.
  intros. rewrite read_le32_val by done. apply (le_val_range [b0; b1; b2; b3]). by bytes_solve.
Qed.
#[export] Hint Resolve hton16_u16 ntoh16_u16 : badvpn.

(** * misc/bsize.h *)
Module BSize.
Section bsize.
(** [SIZE_MAX] is 2^32-1 or 2^64-1, by ABI. *)
Context (SIZE_MAX : Z).

Record bsize_t := BSize { is_overflow : bool; value : Z }.

Definition size_wrap (x : Z) : Z := x mod (SIZE_MAX + 1).

Definition bsize_fromsize (v : Z) : bsize_t := BSize false v.
Definition bsize_fromint (v : Z) : bsize_t :=
  BSize ((v <? 0) || (SIZE_MAX <? v)) (size_wrap v).
Definition bsize_tosize (s : bsize_t) : option Z :=
  if is_overflow s then None else Some (value s).
Definition bsize_toint (s : bsize_t) : option Z :=
  if is_overflow s || (INT_MAX <? value s) then None else Some (value s).
Definition bsize_add (s1 s2 : bsize_t) : bsize_t :=
  BSize (is_overflow s1 || is_overflow s2 || (SIZE_MAX - value s1 <? value s2))
    (size_wrap (value s1 + value s2)).
Definition bsize_max (s1 s2 : bsize_t) : bsize_t :=
  BSize (is_overflow s1 || is_overflow s2)
    (Z.b2z (value s2 <? value s1) * value s1 + Z.b2z (value s1 <=? value s2) * value s2).
Definition bsize_mul (s1 s2 : bsize_t) : bsize_t :=
  BSize (is_overflow s1 || is_overflow s2
    || (negb (value s1 =? 0) && (SIZE_MAX / value s1 <? value s2)))
    (size_wrap (value s1 * value s2)).

(** What a [bsize_t] stands for: a size, or an overflow. *)
Definition bsize_denote (s : bsize_t) : option Z := bsize_tosize s.
Definition bsize_ok (s : bsize_t) : Prop := 0 ≤ value s ≤ SIZE_MAX.
Definition fits (x : Z) : option Z := if x <=? SIZE_MAX then Some x else None.

Context (Hpos : 0 < SIZE_MAX).

Lemma size_wrap_ok x : 0 ≤ size_wrap x ≤ SIZE_MAX.
Proof using Hpos.
  unfold size_wrap. pose proof (Z.mod_pos_bound x (SIZE_MAX + 1)). lia.
Qed.
Lemma bsize_add_ok s1 s2 : bsize_ok (bsize_add s1 s2).
Proof using Hpos. apply size_wrap_ok. Qed.
Lemma bsize_mul_ok s1 s2 : bsize_ok (bsize_mul s1 s2).
Proof using Hpos. apply size_wrap_ok. Qed.

Lemma bsize_add_denote s1 s2 : bsize_ok s1 → bsize_ok s2 →
  bsize_denote (bsize_add s1 s2) =
    a ← bsize_denote s1; b ← bsize_denote s2; fits (a + b).
Proof using Hpos.
  destruct s1 as [[] v1], s2 as [[] v2]; unfold bsize_ok, bsize_add, bsize_denote,
    bsize_tosize, fits, size_wrap; cbn; intros; try done.
  destruct (Z.ltb_spec (SIZE_MAX - v1) v2), (Z.leb_spec (v1 + v2) SIZE_MAX);
    try lia; [done|]. by rewrite Z.mod_small by lia.
Qed.

Lemma bsize_max_denote s1 s2 :
  bsize_denote (bsize_max s1 s2) =
    a ← bsize_denote s1; b ← bsize_denote s2; Some (Z.max a b).
Proof.
  destruct s1 as [[] v1], s2 as [[] v2]; unfold bsize_max, bsize_denote,
    bsize_tosize; cbn; try done.
  f_equal. destruct (Z.ltb_spec v2 v1), (Z.leb_spec v1 v2); cbn [Z.b2z]; lia.
Qed.

Lemma bsize_mul_denote s1 s2 : bsize_ok s1 → bsize_ok s2 →
  bsize_denote (bsize_mul s1 s2) =
    a ← bsize_denote s1; b ← bsize_denote s2; fits (a * b).
Proof using Hpos.
  destruct s1 as [[] v1], s2 as [[] v2]; unfold bsize_ok, bsize_mul, bsize_denote,
    bsize_tosize, fits, size_wrap; cbn; intros [??] [??]; try done.
  destruct (Z.eqb_spec v1 0) as [->|]; cbn [negb andb].
  { rewrite Z.mul_0_l, Z.mod_0_l by lia. by destruct (Z.leb_spec 0 SIZE_MAX); [|lia]. }
  assert (v2 ≤ SIZE_MAX / v1 ↔ v1 * v2 ≤ SIZE_MAX) as Hdiv.
  { split; intros.
    - pose proof (Z.mul_div_le SIZE_MAX v1). nia.
    - apply Z.div_le_lower_bound; lia. }
  destruct (Z.ltb_spec (SIZE_MAX / v1) v2), (Z.leb_spec (v1 * v2) SIZE_MAX);
    try lia; [done|]. rewrite Z.mod_small by nia. done.
Qed.
End bsize.
End BSize.

(** * misc/balign.h, misc/minmax.h *)
Definition bdivide_up (a b : Z) : Z := if 0 <? a mod b then a / b + 1 else a / b.
Definition bmin_int (a b : Z) : Z := if a <? b then a else b.
Definition bmax_uint64 (a b : Z) : Z := if b <? a then a else b.

Lemma bdivide_up_spec a b : 0 ≤ a → 0 < b →
  b * (bdivide_up a b - 1) < a ≤ b * bdivide_up a b.
Proof.
  intros. unfold bdivide_up. pose proof (Z.div_mod a b). pose proof (Z.mod_pos_bound a b).
  destruct (Z.ltb_spec 0 (a mod b)); nia.
Qed.
Lemma bdivide_up_nonneg a b : 0 ≤ a → 0 < b → 0 ≤ bdivide_up a b.
Proof.
  intros. unfold bdivide_up. pose proof (Z.div_pos a b).
  destruct (Z.ltb_spec 0 (a mod b)); lia.
Qed.
Lemma bmin_int_min a b : bmin_int a b = Z.min a b.
Proof. unfold bmin_int. destruct (Z.ltb_spec a b); lia. Qed.
Lemma bmax_uint64_max a b : bmax_uint64 a b = Z.max a b.
Proof. unfold bmax_uint64. destruct (Z.ltb_spec b a); lia. Qed.
