(* ===== verification/TreeInterface.v ===== *)
(** What an intrusive search tree promises to the code that keeps its objects
    in one. The clients are proved against this interface. *)
From Stdlib Require Import Sorting.Sorted.
From S2P Require Import Prelude Misc.

(** What structure/BAVL.h and structure/CAvl_impl.h ask of a comparator: it
    returns -1, 0 or 1, and [<=] defined by it is a total order whose
    equivalence is equality, on the values satisfying [P]. *)
Class Comparator {A : Type} (P : A → Prop) (cmp : A → A → Z) : Prop := {
  cmp_range : ∀ x y, cmp x y = -1 ∨ cmp x y = 0 ∨ cmp x y = 1;
  cmp_eq : ∀ x y, P x → P y → cmp x y = 0 ↔ x = y;
  cmp_opp : ∀ x y, cmp y x = - cmp x y;
  cmp_lt_trans : ∀ x y z, P x → P y → P z → cmp x y = -1 → cmp y z = -1 → cmp x z = -1
}.

#[export] Instance B_COMPARE_comparator : Comparator (λ _, True) B_COMPARE.
Proof.
  split.
  - intros x y. destruct (B_COMPARE_spec x y) as [?|[?|?]]; lia.
  - intros x y _ _. destruct (B_COMPARE_spec x y) as [?|[?|?]]; lia.
  - intros x y. destruct (B_COMPARE_spec x y) as [?|[?|?]], (B_COMPARE_spec y x) as [?|[?|?]]; lia.
  - intros x y z _ _ _. destruct (B_COMPARE_spec x y) as [?|[?|?]], (B_COMPARE_spec y z) as [?|[?|?]],
      (B_COMPARE_spec x z) as [?|[?|?]]; lia.
Qed.

(** A tree of nodes, named by their addresses, ordered by the values found at
    those addresses. [ot_holds P cmp value t l]: the tree [t] is well formed, its
    nodes are [l], in order, and their values satisfy [P]. *)
Class OrderedTree (T : Type) := {
  ot_init : T;
  ot_insert {K} : (K → K → Z) → (positive → K) → positive → T → option (Z * T);
  ot_remove : positive → T → option T;
  ot_lookup {K} : (K → K → Z) → (positive → K) → K → T → option (option positive);
  ot_first : T → option (option positive);
  ot_holds {K} : (K → Prop) → (K → K → Z) → (positive → K) → T → list positive → Prop;

  ot_init_holds {K} (P : K → Prop) cmp value : ot_holds P cmp value ot_init [];
  ot_sorted {K} (P : K → Prop) cmp value t l : ot_holds P cmp value t l →
    StronglySorted (λ p q, cmp (value p) (value q) = -1) l;
  ot_nodup {K} (P : K → Prop) cmp value t l : ot_holds P cmp value t l → NoDup l;
  ot_value_ext {K} (P : K → Prop) cmp value value' t l : (∀ p, p ∈ l → value p = value' p) →
    ot_holds P cmp value t l → ot_holds P cmp value' t l;
  ot_value_mono {K} (P : K → Prop) cmp value value' t l : (∀ p, p ∈ l → P (value' p)) →
    (∀ p q, p ∈ l → q ∈ l → cmp (value p) (value q) = -1 → cmp (value' p) (value' q) = -1) →
    ot_holds P cmp value t l → ot_holds P cmp value' t l;
  ot_insert_spec {K} (P : K → Prop) cmp value t l node : Comparator P cmp →
    ot_holds P cmp value t l → node ∉ l → P (value node) →
    (∀ q, q ∈ l → cmp (value node) (value q) ≠ 0) →
    ∃ t' l1 l2, ot_insert cmp value node t = Some (1, t') ∧ l = l1 ++ l2 ∧
      ot_holds P cmp value t' (l1 ++ node :: l2);
  ot_remove_spec {K} (P : K → Prop) cmp value t l node : ot_holds P cmp value t l → node ∈ l →
    ∃ t' l1 l2, ot_remove node t = Some t' ∧ l = l1 ++ node :: l2 ∧ ot_holds P cmp value t' (l1 ++ l2);
  ot_lookup_spec {K} (P : K → Prop) cmp value t l v : Comparator P cmp → ot_holds P cmp value t l → P v →
    ∃ r, ot_lookup cmp value v t = Some r ∧
      match r with
      | Some q => q ∈ l ∧ cmp v (value q) = 0
      | None => ∀ q, q ∈ l → cmp v (value q) ≠ 0
      end;
  ot_first_spec {K} (P : K → Prop) cmp value t l : ot_holds P cmp value t l →
    ot_first t = Some (head l)
}.

(** ** A tree as a set of objects

    Clients keep in a tree the objects with some property [sel], and care for
    the order of the nodes only at the first one. *)
Section ot_set.
Context {T : Type} `{!OrderedTree T} {K : Type} (P : K → Prop) (cmp : K → K → Z) `{!Comparator P cmp}.
Implicit Types (value : positive → K) (sel : positive → Prop).

Definition ot_set value (t : T) sel : Prop :=
  ∃ l, ot_holds P cmp value t l ∧ ∀ p, p ∈ l ↔ sel p.

Lemma ot_set_init value : ot_set value ot_init (λ _, False).
Proof. exists []. split; [apply ot_init_holds|]. intros p. by rewrite elem_of_nil. Qed.

Lemma ot_set_ext value value' t sel sel' : ot_set value t sel →
  (∀ p, sel' p ↔ sel p) → (∀ p, sel' p → value p = value' p) → ot_set value' t sel'.
Proof.
  intros (l & Hl & Hin) Hs Hv. exists l. split.
  - eapply ot_value_ext; [|exact Hl]. intros p Hp%Hin. by apply Hv, Hs.
  - intros p. by rewrite Hin, Hs.
Qed.

Lemma ot_set_insert value value' t sel sel' p : ot_set value t sel → ¬ sel p → P (value p) →
  (∀ q, sel q → cmp (value p) (value q) ≠ 0) →
  (∀ q, sel' q ↔ q = p ∨ sel q) → (∀ q, sel' q → value q = value' q) →
  ∃ t', ot_insert cmp value p t = Some (1, t') ∧ ot_set value' t' sel'.
Proof.
  intros (l & Hl & Hin) Hp HP Hc Hs Hv.
  destruct (ot_insert_spec P cmp value t l p _ Hl) as (t' & l1 & l2 & E & -> & Ht');
    [by rewrite Hin|done|intros q Hq; by apply Hc, Hin|].
  exists t'. split; [done|]. apply (ot_set_ext value _ _ sel'); [|done..].
  eexists. split; [exact Ht'|]. intros q. rewrite Hs, <- Hin, !elem_of_app, elem_of_cons. naive_solver.
Qed.

Lemma ot_set_remove value value' t sel sel' p : ot_set value t sel → sel p →
  (∀ q, sel' q ↔ q ≠ p ∧ sel q) → (∀ q, sel' q → value q = value' q) →
  ∃ t', ot_remove p t = Some t' ∧ ot_set value' t' sel'.
Proof.
  intros (l & Hl & Hin) Hp Hs Hv.
  destruct (ot_remove_spec P cmp value t l p Hl) as (t' & l1 & l2 & E & -> & Ht'); [by apply Hin|].
  pose proof (ot_nodup _ _ _ _ _ Hl) as (_ & Hd & [Hn _]%NoDup_cons)%NoDup_app.
  exists t'. split; [done|]. apply (ot_set_ext value _ _ sel'); [|done..].
  eexists. split; [exact Ht'|]. intros q. rewrite Hs, <- Hin, !elem_of_app, elem_of_cons.
  split; [|naive_solver]. intros Hq. split; [|naive_solver].
  intros ->. destruct Hq as [Hq|]; [|done]. apply (Hd p Hq). left.
Qed.
End ot_set.
