(* ===== verification/InetProto.v ===== *)
(** The packet headers the tunnel reads and writes itself: IPv4
    (misc/ipv4_proto.h), IPv6 (misc/ipv6_proto.h) and UDP (misc/udp_proto.h),
    with the Internet checksum computed over them.

    A header is the packed C struct: its 16- and 32-bit fields hold the integer
    a little-endian machine loads, so a field in network order goes through
    [hton16] and [ntoh16] exactly where the code calls them. *)
From S2P Require Import Prelude Misc.

(** * The Internet checksum loop *)
Module Checksum.

(** [for (i = 0; i < n; i++) t += badvpn_read_be16(data + 2 * i)], on a
    [uint32_t] accumulator. *)
Definition sum_words (t : Z) (data : bytes) (n : nat) : Z :=
  fold_left (λ t i, u32 (t + badvpn_read_be16 (drop (2 * i) data))) (seq 0 n) t.

(** [while (t >> 16) t = (t & 0xFFFF) + (t >> 16)]. Three rounds are enough for
    any [uint32_t]: [fold16_terminates]. *)
Fixpoint fold16 (fuel : nat) (t : Z) : Z :=
  match fuel with
  | O => t
  | S fuel =>
      if Z.shiftr t 16 =? 0 then t
      else fold16 fuel (u32 (Z.land t 65535 + Z.shiftr t 16))
  end.
Definition fold_carry (t : Z) : Z := fold16 3 t.

(** [hton16(~t)]: the complement of a [uint32_t], truncated to the argument. *)
Definition hton16_not (t : Z) : Z := hton16 (u16 (u32 (Z.lnot t))).

(** Reference: the sum of the big-endian 16-bit words of an even-length list. *)
Fixpoint word_sum (l : bytes) : Z :=
  match l with
  | b0 :: b1 :: l => b0 * 2 ^ 8 + b1 + word_sum l
  | _ => 0
  end.

Lemma list_pair_ind (P : bytes → Prop) :
  P [] → (∀ b, P [b]) → (∀ b0 b1 l, P l → P (b0 :: b1 :: l)) → ∀ l, P l.
Proof.
  intros H0 H1 H2 l. enough (P l ∧ ∀ b, P (b :: l)) by tauto.
  induction l as [|b l [IH IH']]; split; eauto.
Qed.

Lemma word_sum_bound l : bytes_ok l → 0 ≤ word_sum l ≤ 65535 * (len l / 2).
Proof.
  induction l as [|b|b0 b1 l IH] using list_pair_ind; intros Hl; cbn [word_sum].
  - done.
  - done.
  - inversion_clear Hl as [|?? H0 Hl']. inversion_clear Hl' as [|?? H1 Hl].
    specialize (IH Hl). unfold is_u8 in *. rewrite !len_cons.
    replace (1 + (1 + len l)) with (len l + 1 * 2) by lia.
    rewrite Z.div_add by lia. lia.
Qed.

Lemma word_sum_app l k : Nat.Even (length l) → word_sum (l ++ k) = word_sum l + word_sum k.
Proof.
  induction l as [|b|b0 b1 l IH] using list_pair_ind; intros Hl; cbn [word_sum app].
  - lia.
  - destruct Hl as [m Hm]. cbn in Hm. lia.
  - rewrite IH; [lia|]. destruct Hl as [m Hm]. cbn in Hm. exists (m - 1)%nat. lia.
Qed.

Lemma fold_left_u32_shift data t : ∀ n k, is_u32 t →
  fold_left (λ t i, u32 (t + badvpn_read_be16 (drop (2 * i) data))) (seq (S k) n) t =
  fold_left (λ t i, u32 (t + badvpn_read_be16 (drop (2 * i) (drop 2 data)))) (seq k n) t.
Proof.
  intros n. revert t. induction n as [|n IH]; intros t k Ht; cbn [seq fold_left]; [done|].
  rewrite IH by apply Z.mod_pos_bound, eq_refl.
  do 4 f_equal. rewrite drop_drop. f_equal. lia.
Qed.

(** The loop adds the words of the buffer, as long as the total fits. *)
Lemma sum_words_ref n : ∀ t data, bytes_ok data → (2 * n ≤ length data)%nat →
  0 ≤ t → t + 65535 * Z.of_nat n < 2 ^ 32 →
  sum_words t data n = t + word_sum (take (2 * n) data).
Proof.
  unfold sum_words. induction n as [|n IH]; intros t data Hd Hn Ht Hb; cbn [seq fold_left].
  { change (take (2 * 0) data) with (@nil Z). cbn [word_sum]. lia. }
  destruct data as [|b0 [|b1 data]]; [cbn in Hn; lia..|].
  inversion_clear Hd as [|?? H0 Hd']. inversion_clear Hd' as [|?? H1 Hd]. cbn [drop Nat.mul Nat.add].
  rewrite read_be16_val by done. cbn [le_val].
  assert (0 ≤ b0 * 2 ^ 8 + b1 ≤ 65535) by (unfold is_u8 in *; lia).
  unfold u32 at 2. rewrite Z.mod_small by lia.
  rewrite fold_left_u32_shift by (unfold is_u32; lia).
  change (drop 2 (b0 :: b1 :: data)) with data.
  cbn [length] in Hn. rewrite IH; [|done|lia|unfold is_u8 in *; lia..].
  replace (n + S (n + 0))%nat with (S (2 * n)) by lia. cbn [take word_sum]. lia.
Qed.

(** ** Carry folding is the residue modulo 2^16-1 *)

Lemma fold_step t : is_u32 t →
  u32 (Z.land t 65535 + Z.shiftr t 16) = t mod 2 ^ 16 + t / 2 ^ 16.
Proof.
  intros Ht. unfold is_u32 in Ht. change 65535 with (Z.ones 16).
  rewrite Z.land_ones, Z.shiftr_div_pow2 by lia. apply Z.mod_small.
  pose proof (Z.mod_pos_bound t (2 ^ 16)). pose proof (Z.div_mod t (2 ^ 16)).
  assert (0 ≤ t / 2 ^ 16 < 2 ^ 16); [|lia].
  split; [apply Z.div_pos; lia|apply Z.div_lt_upper_bound; lia].
Qed.

Lemma shiftr16_0 t : 0 ≤ t → (Z.shiftr t 16 =? 0) = true ↔ t ≤ 65535.
Proof.
  intros. rewrite Z.shiftr_div_pow2 by lia. rewrite Z.eqb_eq.
  rewrite Z.div_small_iff by lia. lia.
Qed.

(** One round keeps the residue, stays positive and shrinks. *)
Lemma fold_step_spec t : is_u32 t → 65535 < t →
  let t' := t mod 2 ^ 16 + t / 2 ^ 16 in
  (65535 | t - t') ∧ 0 < t' < t ∧ t' ≤ 131070 ∧ (t ≤ 131070 → t' ≤ 65535).
Proof.
  intros Ht Hb t'. subst t'. unfold is_u32 in Ht.
  pose proof (Z.mod_pos_bound t (2 ^ 16)) as Hm. pose proof (Z.div_mod t (2 ^ 16)) as Hd.
  assert (1 ≤ t / 2 ^ 16 < 2 ^ 16).
  { split; [apply Z.div_le_lower_bound; lia|apply Z.div_lt_upper_bound; lia]. }
  split; [exists (t / 2 ^ 16); lia|]. split; [lia|]. split; [lia|].
  intros. assert (t / 2 ^ 16 < 2) by (apply Z.div_lt_upper_bound; lia). lia.
Qed.

(** The loop exits within three rounds, whatever the accumulator. *)
Lemma fold16_exits t : is_u32 t → 0 ≤ fold_carry t ≤ 65535 ∧ (65535 | t - fold_carry t)
  ∧ (0 < t → 0 < fold_carry t).
Proof.
  intros Ht. unfold fold_carry. cbn [fold16].
  assert (0 ≤ t) by (unfold is_u32 in Ht; lia).
  destruct (Z.shiftr t 16 =? 0) eqn:E1.
  { apply shiftr16_0 in E1; [|done]. rewrite Z.sub_diag. split_and!; try lia. apply Z.divide_0_r. }
  rewrite <- not_true_iff_false, shiftr16_0 in E1 by done.
  rewrite fold_step by done.
  destruct (fold_step_spec t) as (D1 & R1 & B1 & _); [done|lia|].
  set (t1 := t mod 2 ^ 16 + t / 2 ^ 16) in *.
  destruct (Z.shiftr t1 16 =? 0) eqn:E2.
  { apply shiftr16_0 in E2; [|lia]. split_and!; [lia..|done|lia]. }
  rewrite <- not_true_iff_false, shiftr16_0 in E2 by lia.
  assert (is_u32 t1) by (unfold is_u32 in *; lia). rewrite fold_step by done.
  destruct (fold_step_spec t1) as (D2 & R2 & B2 & S2); [done|lia|].
  set (t2 := t1 mod 2 ^ 16 + t1 / 2 ^ 16) in *.
  assert ((Z.shiftr t2 16 =? 0) = true) as -> by (apply shiftr16_0; lia).
  split_and!; [lia..| |lia]. replace (t - t2) with ((t - t1) + (t1 - t2)) by lia.
  by apply Z.divide_add_r.
Qed.

(** More fuel changes nothing: the loop had ended. *)
Lemma fold16_terminates t n : is_u32 t → fold16 (3 + n) t = fold_carry t.
Proof.
  intros Ht. destruct (fold16_exits t Ht) as [Hr _]. revert Hr. unfold fold_carry.
  change (3 + n)%nat with (S (S (S n))). cbn [fold16].
  repeat (case_match; [done|]). destruct n; cbn [fold16]; [done|].
  intros Hr. rewrite (proj2 (shiftr16_0 _ (proj1 Hr))) by lia. done.
Qed.

Lemma hton16_not_val t : 0 ≤ t ≤ 65535 → hton16_not t = hton16 (65535 - t).
Proof.
  intros. unfold hton16_not. f_equal. unfold u16, u32, Z.lnot.
  replace (Z.pred (- t) mod 2 ^ 32) with (2 ^ 32 - 1 - t)
    by (apply Z.mod_unique with (-1); lia).
  symmetry. apply Z.mod_unique with 65535; lia.
Qed.

(** A 16-bit field in network order contributes its host value. *)
Lemma word_sum_mem16 x k : word_sum (mem16 x ++ k) = ntoh16 x + word_sum k.
Proof.
  unfold ntoh16, hton16. rewrite reverse16_val, mem_bytes2.
  cbn [rev app le_val word_sum]. lia.
Qed.

(** The residue decides which field values complete a sum to all ones: the
    complement, or all ones when the complement is zero. *)
Lemma checksum_complete S c : 0 < S → S + 65535 < 2 ^ 32 → 0 ≤ c < 65535 →
  fold_carry (S + c) = 65535 ↔ c = 65535 - fold_carry S.
Proof.
  intros HS Hb Hc.
  destruct (fold16_exits S) as (R1 & [q1 D1] & P1); [unfold is_u32; lia|].
  destruct (fold16_exits (S + c)) as (R2 & [q2 D2] & P2); [unfold is_u32; lia|].
  specialize (P1 HS). specialize (P2 ltac:(lia)). split; intros.
  - assert (c + fold_carry S = 65535 * (q2 - q1 + 1)) by lia. nia.
  - assert (65535 * (q1 - q2 + 1) = fold_carry (S + c)) by lia. nia.
Qed.

Lemma hton16_eq_iff x y : is_u16 x → is_u16 y → x = hton16 y ↔ ntoh16 x = y.
Proof.
  intros. split; [intros ->; by apply ntoh16_hton16|].
  intros <-. symmetry. by apply ntoh16_hton16.
Qed.

End Checksum.
Export Checksum.

(** Names the first bytes of a buffer known to be long enough. *)
Ltac name_bytes l H :=
  repeat (destruct l as [|? l]; [cbn [length] in H; exfalso; lia|];
          lazymatch type of H with
          | (S _ <= length _)%nat => cbn [length] in H; apply le_S_n in H
          end).

(** * misc/ipv4_proto.h *)
Module Ipv4.

Definition IPV4_PROTOCOL_UDP : Z := 17.

Record ipv4_header := Ipv4Header {
  version4_ihl4 : Z;
  ds : Z;
  total_length : Z;
  identification : Z;
  flags3_fragmentoffset13 : Z;
  ttl : Z;
  protocol : Z;
  checksum : Z;
  source_address : Z;
  destination_address : Z
}.
#[global] Instance eta_ipv4 : Eta ipv4_header := λ h,
  Ipv4Header (version4_ihl4 h) (ds h) (total_length h) (identification h)
    (flags3_fragmentoffset13 h) (ttl h) (protocol h) (checksum h)
    (source_address h) (destination_address h).

Definition sizeof_ipv4_header : Z := 20.

(** The struct in memory, and the struct a [memcpy] from memory fills. *)
Definition ipv4_header_mem (h : ipv4_header) : bytes :=
  [version4_ihl4 h; ds h] ++ mem16 (total_length h) ++
  mem16 (identification h) ++ mem16 (flags3_fragmentoffset13 h) ++
  [ttl h; protocol h] ++ mem16 (checksum h) ++
  mem32 (source_address h) ++ mem32 (destination_address h).

Definition ipv4_header_load (d : bytes) : ipv4_header := {|
  version4_ihl4 := byte_at d 0;
  ds := byte_at d 1;
  total_length := badvpn_read_le16 (drop 2 d);
  identification := badvpn_read_le16 (drop 4 d);
  flags3_fragmentoffset13 := badvpn_read_le16 (drop 6 d);
  ttl := byte_at d 8;
  protocol := byte_at d 9;
  checksum := badvpn_read_le16 (drop 10 d);
  source_address := badvpn_read_le32 (drop 12 d);
  destination_address := badvpn_read_le32 (drop 16 d)
|}.

Definition IPV4_GET_VERSION (h : ipv4_header) : Z :=
  Z.shiftr (Z.land (version4_ihl4 h) 240) 4.
Definition IPV4_GET_IHL (h : ipv4_header) : Z :=
  Z.shiftr (Z.land (version4_ihl4 h) 15) 0.
Definition IPV4_MAKE_VERSION_IHL (size : Z) : Z := size / 4 + Z.shiftl 4 4.

Definition ipv4_checksum (header : ipv4_header) (extra : bytes) (extra_len : Z) : Z :=
  let t := sum_words 0 (ipv4_header_mem header) (Z.to_nat (sizeof_ipv4_header / 2)) in
  let t := sum_words t extra (Z.to_nat (extra_len / 2)) in
  let t := fold_carry t in
  hton16_not t.

(** [None] is the return value 0; otherwise the header and the payload. *)
Definition ipv4_check (data : bytes) : option (ipv4_header * bytes) :=
  let data_len := len data in
  if data_len <? sizeof_ipv4_header then None else
  let out_header := ipv4_header_load data in
  if negb (IPV4_GET_VERSION out_header =? 4) then None else
  let header_len := u16 (IPV4_GET_IHL out_header * 4) in
  if header_len <? sizeof_ipv4_header then None else
  if data_len <? header_len then None else
  let total_len := ntoh16 (total_length out_header) in
  if total_len <? header_len then None else
  if data_len <? total_len then None else
  let checksum_in_packet := checksum out_header in
  let zeroed := out_header <| checksum := hton16 0 |> in
  let checksum_computed :=
    ipv4_checksum zeroed (zdrop sizeof_ipv4_header data) (header_len - sizeof_ipv4_header) in
  if negb (checksum_in_packet =? checksum_computed) then None else
  Some (out_header, ztake (total_len - header_len) (zdrop header_len data)).

(** Every field is within its C type. *)
Definition ipv4_header_ok (h : ipv4_header) : Prop :=
  is_u8 (version4_ihl4 h) ∧ is_u8 (ds h) ∧ is_u16 (total_length h) ∧
  is_u16 (identification h) ∧ is_u16 (flags3_fragmentoffset13 h) ∧
  is_u8 (ttl h) ∧ is_u8 (protocol h) ∧ is_u16 (checksum h) ∧
  is_u32 (source_address h) ∧ is_u32 (destination_address h).

Lemma ipv4_header_mem_length h : length (ipv4_header_mem h) = 20%nat.
Proof. done. Qed.

Lemma ipv4_header_mem_ok h : ipv4_header_ok h → bytes_ok (ipv4_header_mem h).
Proof.
  intros (?&?&?&?&?&?&?&?&?&?). unfold ipv4_header_mem.
  rewrite !bytes_ok_app. split_and!; bytes_solve; apply le_bytes_ok.
Qed.

Lemma ipv4_load_mem h k : ipv4_header_ok h → ipv4_header_load (ipv4_header_mem h ++ k) = h.
Proof.
  intros (?&?&?&?&?&?&?&?&?&?). unfold ipv4_header_load, ipv4_header_mem.
  destruct h as [v d tl id fl tt pr cs sa da]; cbn [version4_ihl4 ds total_length
    identification flags3_fragmentoffset13 ttl protocol checksum source_address
    destination_address] in *.
  f_equal; try done.
  - by apply (read_le16_mem16 tl).
  - by apply (read_le16_mem16 id).
  - by apply (read_le16_mem16 fl).
  - by apply (read_le16_mem16 cs).
  - by apply (read_le32_mem32 sa).
  - by apply (read_le32_mem32 da).
Qed.

Lemma ipv4_mem_load d : bytes_ok d → (20 ≤ length d)%nat →
  ipv4_header_mem (ipv4_header_load d) = take 20 d.
Proof.
  intros Hd Hn. do 20 (destruct d as [|? d]; [cbn [length] in Hn; lia|]).
  unfold bytes_ok in Hd. rewrite !Forall_cons in Hd. destruct_and! Hd.
  unfold ipv4_header_mem, ipv4_header_load.
  cbn [version4_ihl4 ds total_length identification flags3_fragmentoffset13 ttl protocol
    checksum source_address destination_address drop take].
  rewrite !mem16_read_le16, !mem32_read_le32 by done. done.
Qed.

Lemma ipv4_load_ok d : bytes_ok d → (20 ≤ length d)%nat → ipv4_header_ok (ipv4_header_load d).
Proof.
  intros Hd Hn. do 20 (destruct d as [|? d]; [cbn [length] in Hn; lia|]).
  unfold bytes_ok in Hd. rewrite !Forall_cons in Hd. destruct_and! Hd.
  unfold ipv4_header_ok, ipv4_header_load. cbn [version4_ihl4 ds total_length identification
    flags3_fragmentoffset13 ttl protocol checksum source_address destination_address drop].
  split_and!; first [done | by apply read_le16_u16 | by apply read_le32_u32].
Qed.

(** The sum the checksum is computed from. *)
Lemma ipv4_checksum_val h extra n : ipv4_header_ok h → bytes_ok extra →
  0 ≤ n → 2 * n ≤ len extra → n ≤ 32767 →
  ipv4_checksum h extra (2 * n) =
    hton16 (65535 - fold_carry (word_sum (ipv4_header_mem h) + word_sum (ztake (2 * n) extra))).
Proof.
  intros Hh He Hn1 Hn2 Hn3. unfold ipv4_checksum.
  pose proof (ipv4_header_mem_ok h Hh) as Hm.
  pose proof (word_sum_bound _ Hm) as Hb1.
  pose proof (word_sum_bound _ (bytes_ok_ztake (2 * n) _ He)) as Hb2.
  rewrite len_ztake in Hb2 by lia. change (len (ipv4_header_mem h)) with 20 in Hb1.
  change (20 / 2) with 10 in Hb1.
  rewrite double_half in *.
  change (Z.to_nat (sizeof_ipv4_header / 2)) with 10%nat.
  rewrite (sum_words_ref _ 0); [|done|by rewrite ipv4_header_mem_length|lia..].
  rewrite (take_ge (ipv4_header_mem h)) by by rewrite ipv4_header_mem_length.
  rewrite Z.add_0_l. rewrite sum_words_ref; [|done|unfold len in Hn2; lia|lia|].
  - assert (take (2 * Z.to_nat n) extra = ztake (2 * n) extra) as ->
      by (unfold ztake; f_equal; lia).
    rewrite hton16_not_val; [done|]. apply fold16_exits. unfold is_u32. lia.
  - assert (Z.of_nat (Z.to_nat n) = n) by lia. lia.
Qed.

Lemma word_sum_header h :
  word_sum (ipv4_header_mem h) =
    word_sum (ipv4_header_mem (h <| checksum := hton16 0 |>)) + ntoh16 (checksum h).
Proof.
  unfold ipv4_header_mem. cbn [app word_sum].
  rewrite !word_sum_mem16. cbn [app word_sum]. rewrite !word_sum_mem16.
  change (ntoh16 (checksum (h <| checksum := hton16 0 |>))) with 0. cbn. lia.
Qed.

(** The packets the check accepts: a header whose length fields delimit the
    options and the payload, and whose 16-bit words sum to all ones in
    one's-complement arithmetic. *)
Definition ipv4_packet (data : bytes) (h : ipv4_header) (payload : bytes) : Prop :=
  ∃ options trailer,
    data = ipv4_header_mem h ++ options ++ payload ++ trailer ∧
    ipv4_header_ok h ∧
    IPV4_GET_VERSION h = 4 ∧
    IPV4_GET_IHL h * 4 = sizeof_ipv4_header + len options ∧
    ntoh16 (total_length h) = sizeof_ipv4_header + len options + len payload ∧
    ntoh16 (checksum h) ≠ 65535 ∧
    fold_carry (word_sum (ipv4_header_mem h ++ options)) = 65535.

Lemma ihl_range h : is_u8 (version4_ihl4 h) → 0 ≤ IPV4_GET_IHL h < 16.
Proof.
  intros. unfold IPV4_GET_IHL. rewrite Z.shiftr_0_r. change 15 with (Z.ones 4).
  rewrite Z.land_ones by lia. apply Z.mod_pos_bound. lia.
Qed.

Lemma version_pos h : ipv4_header_ok h → IPV4_GET_VERSION h = 4 →
  0 < word_sum (ipv4_header_mem (h <| checksum := hton16 0 |>)).
Proof.
  intros Hok Hv. unfold ipv4_header_mem. cbn [app word_sum].
  set (l := mem16 _ ++ _).
  assert (bytes_ok l) as Hl.
  { unfold l. unfold ipv4_header_ok in Hok. destruct_and! Hok.
    rewrite !bytes_ok_app. split_and!; bytes_solve; apply le_bytes_ok. }
  pose proof (word_sum_bound l Hl). destruct Hok as (Hv8 & Hds & _).
  change (version4_ihl4 (h <| checksum := hton16 0 |>)) with (version4_ihl4 h).
  change (ds (h <| checksum := hton16 0 |>)) with (ds h).
  unfold is_u8 in *. assert (version4_ihl4 h ≠ 0) by (intros E; unfold IPV4_GET_VERSION in Hv; by rewrite E in Hv).
  lia.
Qed.

(** The checksum test of the check is the one's-complement test. *)
Lemma ipv4_checksum_test h options rest : ipv4_header_ok h → bytes_ok (options ++ rest) →
  IPV4_GET_VERSION h = 4 → (∃ m, len options = 2 * m ∧ 0 ≤ m ≤ 20) →
  checksum h = ipv4_checksum (h <| checksum := hton16 0 |>) (options ++ rest) (len options)
  ↔ ntoh16 (checksum h) ≠ 65535 ∧ fold_carry (word_sum (ipv4_header_mem h ++ options)) = 65535.
Proof.
  intros Hh Ho Hv (m & Hm & ?).
  assert (ipv4_header_ok (h <| checksum := hton16 0 |>)) as Hz.
  { unfold ipv4_header_ok in *. cbn. destruct_and! Hh. split_and!; auto with badvpn. }
  assert (is_u16 (checksum h)) as Hc by apply Hh.
  rewrite Hm, ipv4_checksum_val, <- Hm, ztake_app;
    [|done|done|lia|rewrite len_app; len_lia|lia].
  apply bytes_ok_app in Ho as [Ho _].
  rewrite word_sum_app by (rewrite ipv4_header_mem_length; by exists 10%nat).
  rewrite (word_sum_header h).
  pose proof (version_pos h Hh Hv). pose proof (ntoh16_u16 (checksum h)) as Hn.
  pose proof (word_sum_bound _ (ipv4_header_mem_ok _ Hz)) as B1.
  pose proof (word_sum_bound _ Ho) as B2.
  change (len (ipv4_header_mem _)) with 20 in B1. change (20 / 2) with 10 in B1.
  rewrite Hm, double_half in B2.
  set (S0 := word_sum (ipv4_header_mem _)) in *. set (S1 := word_sum options) in *.
  unfold is_u16 in Hn.
  replace (S0 + ntoh16 (checksum h) + S1) with (S0 + S1 + ntoh16 (checksum h)) by lia.
  destruct (fold16_exits (S0 + S1)) as (R & _ & P); [unfold is_u32; lia|].
  specialize (P ltac:(lia)).
  rewrite hton16_eq_iff by (done || unfold is_u16; lia).
  split.
  - intros E. split; [lia|]. apply checksum_complete; lia.
  - intros [Hne E]. apply checksum_complete in E; lia.
Qed.

(** ** What the check accepts *)

Lemma ihl_options h (options : bytes) : is_u8 (version4_ihl4 h) →
  IPV4_GET_IHL h * 4 = sizeof_ipv4_header + len options →
  ∃ m, len options = 2 * m ∧ 0 ≤ m ≤ 20.
Proof.
  intros Hv E. pose proof (ihl_range h Hv). unfold sizeof_ipv4_header in E.
  exists (2 * IPV4_GET_IHL h - 10). pose proof (len_nonneg options). lia.
Qed.

Lemma ipv4_check_sound data h payload : bytes_ok data →
  ipv4_check data = Some (h, payload) → ipv4_packet data h payload.
Proof.
  intros Hd. unfold ipv4_check. unfold sizeof_ipv4_header at 1.
  destruct (Z.ltb_spec (len data) 20) as [|H20]; [done|].
  assert (20 ≤ length data)%nat by (unfold len in H20; lia).
  pose proof (ipv4_load_ok data Hd ltac:(done)) as Hok.
  pose proof (ipv4_mem_load data Hd ltac:(done)) as Hmem.
  set (h0 := ipv4_header_load data) in *.
  pose proof (ihl_range h0 (proj1 Hok)) as Hihl.
  assert (u16 (IPV4_GET_IHL h0 * 4) = IPV4_GET_IHL h0 * 4) as -> by (apply Z.mod_small; lia).
  set (hl := IPV4_GET_IHL h0 * 4) in *. set (tl := ntoh16 (total_length h0)) in *.
  repeat (case_match; [done|]). intros [= <- <-]. bool_to_prop.
  unfold sizeof_ipv4_header in *.
  set (options := ztake (hl - 20) (zdrop 20 data)).
  set (rest := zdrop (hl - 20) (zdrop 20 data)).
  assert (options ++ rest = zdrop 20 data) as Eor by apply ztake_zdrop.
  assert (len options = hl - 20) as Elen by (unfold options; rewrite len_ztake; rewrite ?len_zdrop; lia).
  assert (rest = zdrop hl data) as Er by (unfold rest; rewrite zdrop_zdrop by lia; f_equal; lia).
  exists options, (zdrop (tl - hl) (zdrop hl data)).
  assert (len (ztake (tl - hl) (zdrop hl data)) = tl - hl) as Epl
    by (rewrite len_ztake; rewrite ?len_zdrop; lia).
  unfold sizeof_ipv4_header. split_and!; try done; try lia.
  - rewrite ztake_zdrop, <- Er, Eor, Hmem. symmetry. apply (ztake_zdrop 20).
  - apply (ipv4_checksum_test h0 options rest); rewrite ?Eor, ?Elen; auto with badvpn.
    exists (2 * IPV4_GET_IHL h0 - 10). lia.
  - apply (ipv4_checksum_test h0 options rest); rewrite ?Eor, ?Elen; auto with badvpn.
    exists (2 * IPV4_GET_IHL h0 - 10). lia.
Qed.

Lemma ipv4_check_complete data h payload : bytes_ok data →
  ipv4_packet data h payload → ipv4_check data = Some (h, payload).
Proof.
  intros Hd (options & trailer & -> & Hok & Hv & Hihl & Htl & Hcs). unfold ipv4_check.
  rewrite ipv4_load_mem by done. pose proof (ihl_range h (proj1 Hok)).
  pose proof (ihl_options h options (proj1 Hok) Hihl) as Hopt.
  assert (u16 (IPV4_GET_IHL h * 4) = IPV4_GET_IHL h * 4) as -> by (apply Z.mod_small; lia).
  rewrite Hihl, Htl, Hv. unfold sizeof_ipv4_header in *.
  assert (len (ipv4_header_mem h ++ options ++ payload ++ trailer)
          = 20 + len options + len payload + len trailer) as ->
    by (rewrite !len_app; change (len (ipv4_header_mem h)) with 20; lia).
  pose proof (len_nonneg options). pose proof (len_nonneg payload). pose proof (len_nonneg trailer).
  rewrite !(proj2 (Z.ltb_ge _ _)) by lia. cbn [Z.eqb Pos.eqb negb].
  change 20 with (len (ipv4_header_mem h)) at 1. rewrite zdrop_app.
  replace (20 + len options - 20) with (len options) by lia.
  apply ipv4_checksum_test with (rest := payload ++ trailer) in Hcs; [|done| |done|done].
  2: { by apply bytes_ok_app in Hd as [_ Hd]. }
  rewrite (proj2 (Z.eqb_eq _ _) Hcs). cbn [negb]. do 2 f_equal.
  replace (20 + len options + len payload - (20 + len options)) with (len payload) by lia.
  rewrite <- zdrop_zdrop by lia. change 20 with (len (ipv4_header_mem h)).
  by rewrite !zdrop_app, ztake_app.
Qed.
End Ipv4.

(** * misc/ipv6_proto.h *)
Module Ipv6.

Definition IPV6_NEXT_UDP : Z := 17.

Record ipv6_header := Ipv6Header {
  version4_tc4 : Z;
  tc4_fl4 : Z;
  fl : Z;
  payload_length : Z;
  next_header : Z;
  hop_limit : Z;
  source_address : bytes;
  destination_address : bytes
}.

Definition sizeof_ipv6_header : Z := 40.

Definition ipv6_header_mem (h : ipv6_header) : bytes :=
  [version4_tc4 h; tc4_fl4 h] ++ mem16 (fl h) ++ mem16 (payload_length h) ++
  [next_header h; hop_limit h] ++ source_address h ++ destination_address h.

Definition ipv6_header_load (d : bytes) : ipv6_header := {|
  version4_tc4 := byte_at d 0;
  tc4_fl4 := byte_at d 1;
  fl := badvpn_read_le16 (drop 2 d);
  payload_length := badvpn_read_le16 (drop 4 d);
  next_header := byte_at d 6;
  hop_limit := byte_at d 7;
  source_address := take 16 (drop 8 d);
  destination_address := take 16 (drop 24 d)
|}.

Definition ipv6_check (data : bytes) : option (ipv6_header * bytes) :=
  let data_len := len data in
  if data_len <? sizeof_ipv6_header then None else
  let out_header := ipv6_header_load data in
  if negb (Z.shiftr (ntoh8 (version4_tc4 out_header)) 4 =? 6) then None else
  let pl := ntoh16 (payload_length out_header) in
  if data_len - sizeof_ipv6_header <? pl then None else
  Some (out_header, ztake pl (zdrop sizeof_ipv6_header data)).

Definition ipv6_header_ok (h : ipv6_header) : Prop :=
  is_u8 (version4_tc4 h) ∧ is_u8 (tc4_fl4 h) ∧ is_u16 (fl h) ∧ is_u16 (payload_length h) ∧
  is_u8 (next_header h) ∧ is_u8 (hop_limit h) ∧
  (length (source_address h) = 16%nat ∧ bytes_ok (source_address h)) ∧
  (length (destination_address h) = 16%nat ∧ bytes_ok (destination_address h)).

Lemma ipv6_header_mem_length h : ipv6_header_ok h → length (ipv6_header_mem h) = 40%nat.
Proof.
  intros (?&?&?&?&?&?&[E1 _]&[E2 _]). unfold ipv6_header_mem, mem16.
  rewrite !length_app, E1, E2. done.
Qed.

Lemma ipv6_header_mem_ok h : ipv6_header_ok h → bytes_ok (ipv6_header_mem h).
Proof.
  intros (?&?&?&?&?&?&[??]&[??]). unfold ipv6_header_mem.
  rewrite !bytes_ok_app. split_and!; bytes_solve; apply le_bytes_ok.
Qed.

Lemma ipv6_load_mem h k : ipv6_header_ok h → ipv6_header_load (ipv6_header_mem h ++ k) = h.
Proof.
  intros (?&?&?&?&?&?&[E1 _]&[E2 _]).
  destruct h as [v t f pl nh hl sa da]; cbn in E1, E2.
  unfold ipv6_header_load, ipv6_header_mem. cbn [version4_tc4 tc4_fl4 fl payload_length
    next_header hop_limit source_address destination_address] in *.
  rewrite <- !app_assoc. f_equal; try done.
  - by apply (read_le16_mem16 f).
  - by apply (read_le16_mem16 pl).
  - change (take 16 (sa ++ da ++ k) = sa). rewrite <- E1. apply take_app_length.
  - change (take 16 (drop 16 (sa ++ da ++ k)) = da).
    rewrite (drop_app_length' sa) by done. by apply take_app_length'.
Qed.

Lemma ipv6_mem_load d : bytes_ok d → (40 ≤ length d)%nat →
  ipv6_header_mem (ipv6_header_load d) = take 40 d.
Proof.
  intros Hd Hn. do 8 (destruct d as [|? d]; [cbn [length] in Hn; lia|]).
  unfold bytes_ok in Hd. rewrite !Forall_cons in Hd. destruct_and! Hd.
  unfold ipv6_header_mem, ipv6_header_load.
  cbn [version4_tc4 tc4_fl4 fl payload_length next_header hop_limit source_address
    destination_address drop].
  rewrite !mem16_read_le16 by done. cbn [take app byte_at nth]. do 8 f_equal.
  change 32%nat with (16 + 16)%nat. by rewrite <- take_take_drop.
Qed.

Lemma ipv6_load_ok d : bytes_ok d → (40 ≤ length d)%nat → ipv6_header_ok (ipv6_header_load d).
Proof.
  intros Hd Hn. do 8 (destruct d as [|? d]; [cbn [length] in Hn; lia|]).
  unfold bytes_ok in Hd. rewrite !Forall_cons in Hd. destruct_and! Hd.
  cbn [length] in Hn. unfold ipv6_header_ok, ipv6_header_load.
  cbn [version4_tc4 tc4_fl4 fl payload_length next_header hop_limit source_address
    destination_address drop].
  split_and!; first [done | by apply read_le16_u16 | by apply Forall_take |
    by apply Forall_take, Forall_drop | rewrite length_take, ?length_drop; lia].
Qed.

(** The packets the check accepts. *)
Definition ipv6_packet (data : bytes) (h : ipv6_header) (payload : bytes) : Prop :=
  ∃ trailer,
    data = ipv6_header_mem h ++ payload ++ trailer ∧ ipv6_header_ok h ∧
    Z.shiftr (version4_tc4 h) 4 = 6 ∧ ntoh16 (payload_length h) = len payload.

Lemma ipv6_check_sound data h payload : bytes_ok data →
  ipv6_check data = Some (h, payload) → ipv6_packet data h payload.
Proof.
  intros Hd. unfold ipv6_check, sizeof_ipv6_header.
  destruct (Z.ltb_spec (len data) 40) as [|H40]; [done|].
  assert (40 ≤ length data)%nat by (unfold len in H40; lia).
  repeat (case_match; [done|]). intros [= <- <-]. bool_to_prop.
  pose proof (ntoh16_u16 (payload_length (ipv6_header_load data))) as Hu. unfold is_u16 in Hu.
  set (pl := ntoh16 _) in *. exists (zdrop pl (zdrop 40 data)).
  rewrite ztake_zdrop, ipv6_mem_load by done. split_and!; try done.
  - symmetry. apply (ztake_zdrop 40).
  - by apply ipv6_load_ok.
  - change (pl = len (ztake pl (zdrop 40 data))).
    by rewrite len_ztake; [|rewrite len_zdrop; lia].
Qed.

Lemma ipv6_check_complete data h payload :
  ipv6_packet data h payload → ipv6_check data = Some (h, payload).
Proof.
  intros (trailer & -> & Hok & Hv & Hpl). unfold ipv6_check, sizeof_ipv6_header.
  rewrite ipv6_load_mem by done.
  assert (len (ipv6_header_mem h) = 40) as El by (unfold len; by rewrite ipv6_header_mem_length).
  rewrite !len_app, El, Hpl. pose proof (len_nonneg payload). pose proof (len_nonneg trailer).
  unfold ntoh8, hton8. rewrite Hv. cbn [Z.eqb Pos.eqb negb].
  rewrite !(proj2 (Z.ltb_ge _ _)) by lia. rewrite <- El. by rewrite zdrop_app, ztake_app.
Qed.
End Ipv6.

(** * misc/udp_proto.h *)
Module Udp.
Import Ipv4 Ipv6.

Record udp_header := UdpHeader {
  source_port : Z;
  dest_port : Z;
  length16 : Z;
  checksum : Z
}.
#[global] Instance eta_udp : Eta udp_header := λ h,
  UdpHeader (source_port h) (dest_port h) (length16 h) (checksum h).

Definition sizeof_udp_header : Z := 8.

Definition udp_header_mem (h : udp_header) : bytes :=
  mem16 (source_port h) ++ mem16 (dest_port h) ++ mem16 (length16 h) ++ mem16 (checksum h).

Definition udp_header_load (d : bytes) : udp_header := {|
  source_port := badvpn_read_le16 d;
  dest_port := badvpn_read_le16 (drop 2 d);
  length16 := badvpn_read_le16 (drop 4 d);
  checksum := badvpn_read_le16 (drop 6 d)
|}.

Definition udp_checksum_summer (data : bytes) (l : Z) : Z :=
  sum_words 0 data (Z.to_nat (l / 2)).

(** The payload part of both checksums: an odd last byte is padded with 0. *)
Definition udp_checksum_payload (t : Z) (payload : bytes) (payload_len : Z) : Z :=
  if payload_len mod 2 =? 0 then u32 (t + udp_checksum_summer payload payload_len)
  else
    let t := u32 (t + udp_checksum_summer payload (payload_len - 1)) in
    let x := hton16 (u16 (Z.shiftl (byte_at payload (Z.to_nat (payload_len - 1))) 8)) in
    u32 (t + udp_checksum_summer (mem16 x) 2).

(** The carry loop, the zero test and the complement that end both checksums. *)
Definition udp_checksum_finish (t : Z) : Z :=
  let t := fold_carry t in
  let t := if t =? 0 then UINT16_MAX else t in
  hton16_not t.

Definition udp_checksum (header : udp_header) (payload : bytes) (payload_len : Z)
    (source_addr dest_addr : Z) : Z :=
  let t := u32 (0 + udp_checksum_summer (mem32 source_addr) 4) in
  let t := u32 (t + udp_checksum_summer (mem32 dest_addr) 4) in
  let x := hton16 IPV4_PROTOCOL_UDP in
  let t := u32 (t + udp_checksum_summer (mem16 x) 2) in
  let x := hton16 (u16 (sizeof_udp_header + payload_len)) in
  let t := u32 (t + udp_checksum_summer (mem16 x) 2) in
  let t := u32 (t + udp_checksum_summer (udp_header_mem header) sizeof_udp_header) in
  let t := udp_checksum_payload t payload payload_len in
  udp_checksum_finish t.

Definition udp_ip6_checksum (header : udp_header) (payload : bytes) (payload_len : Z)
    (source_addr dest_addr : bytes) : Z :=
  let t := u32 (0 + udp_checksum_summer source_addr 16) in
  let t := u32 (t + udp_checksum_summer dest_addr 16) in
  let x := hton32 (u32 (sizeof_udp_header + payload_len)) in
  let t := u32 (t + udp_checksum_summer (mem32 x) 4) in
  let x := hton32 IPV6_NEXT_UDP in
  let t := u32 (t + udp_checksum_summer (mem32 x) 4) in
  let t := u32 (t + udp_checksum_summer (udp_header_mem header) sizeof_udp_header) in
  let t := udp_checksum_payload t payload payload_len in
  udp_checksum_finish t.

Definition udp_check (data : bytes) : option (udp_header * bytes) :=
  let data_len := len data in
  if data_len <? sizeof_udp_header then None else
  let out_header := udp_header_load data in
  let data := zdrop sizeof_udp_header data in
  let data_len := data_len - sizeof_udp_header in
  let udp_length := ntoh16 (length16 out_header) in
  if udp_length <? sizeof_udp_header then None else
  if sizeof_udp_header + data_len <? udp_length then None else
  Some (out_header, ztake (udp_length - sizeof_udp_header) data).

Definition udp_header_ok (h : udp_header) : Prop :=
  is_u16 (source_port h) ∧ is_u16 (dest_port h) ∧ is_u16 (length16 h) ∧ is_u16 (checksum h).

Lemma udp_header_mem_ok h : bytes_ok (udp_header_mem h).
Proof. unfold udp_header_mem. rewrite !bytes_ok_app. split_and!; apply le_bytes_ok. Qed.

Lemma udp_load_mem h k : udp_header_ok h → udp_header_load (udp_header_mem h ++ k) = h.
Proof.
  intros (?&?&?&?). destruct h as [sp dp l c]. unfold udp_header_load, udp_header_mem.
  cbn [source_port dest_port length16 checksum] in *. rewrite <- !app_assoc. f_equal.
  - by apply (read_le16_mem16 sp).
  - by apply (read_le16_mem16 dp).
  - by apply (read_le16_mem16 l).
  - by apply (read_le16_mem16 c).
Qed.

Lemma udp_mem_load d : bytes_ok d → (8 ≤ length d)%nat →
  udp_header_mem (udp_header_load d) = take 8 d.
Proof.
  intros Hd Hn. do 8 (destruct d as [|? d]; [cbn [length] in Hn; lia|]).
  unfold bytes_ok in Hd. rewrite !Forall_cons in Hd. destruct_and! Hd.
  unfold udp_header_mem, udp_header_load. cbn [source_port dest_port length16 checksum drop].
  rewrite !mem16_read_le16 by done. done.
Qed.

Lemma udp_load_ok d : bytes_ok d → (8 ≤ length d)%nat → udp_header_ok (udp_header_load d).
Proof.
  intros Hd Hn. do 8 (destruct d as [|? d]; [cbn [length] in Hn; lia|]).
  unfold bytes_ok in Hd. rewrite !Forall_cons in Hd. destruct_and! Hd.
  unfold udp_header_ok, udp_header_load. cbn [source_port dest_port length16 checksum drop].
  split_and!; by apply read_le16_u16.
Qed.

(** The datagrams the check accepts. *)
Definition udp_datagram (data : bytes) (h : udp_header) (payload : bytes) : Prop :=
  ∃ stray, data = udp_header_mem h ++ payload ++ stray ∧ udp_header_ok h ∧
    ntoh16 (length16 h) = sizeof_udp_header + len payload.

Lemma udp_check_sound data h payload : bytes_ok data →
  udp_check data = Some (h, payload) → udp_datagram data h payload.
Proof.
  intros Hd. unfold udp_check, sizeof_udp_header.
  destruct (Z.ltb_spec (len data) 8) as [|H8]; [done|].
  assert (8 ≤ length data)%nat by (unfold len in H8; lia).
  repeat (case_match; [done|]). intros [= <- <-]. bool_to_prop.
  set (ul := ntoh16 _) in *. exists (zdrop (ul - 8) (zdrop 8 data)).
  rewrite ztake_zdrop, udp_mem_load by done. split_and!.
  - symmetry. apply (ztake_zdrop 8).
  - by apply udp_load_ok.
  - change (ul = 8 + len (ztake (ul - 8) (zdrop 8 data))).
    rewrite len_ztake; [lia|rewrite len_zdrop; lia].
Qed.

Lemma udp_check_complete data h payload :
  udp_datagram data h payload → udp_check data = Some (h, payload).
Proof.
  intros (stray & -> & Hok & Hl). unfold udp_check, sizeof_udp_header in *.
  rewrite udp_load_mem by done. rewrite !len_app, Hl.
  change (len (udp_header_mem h)) with 8. pose proof (len_nonneg payload). pose proof (len_nonneg stray).
  rewrite !(proj2 (Z.ltb_ge _ _)) by lia.
  change (zdrop 8 (udp_header_mem h ++ payload ++ stray)) with (payload ++ stray).
  replace (8 + len payload - 8) with (len payload) by lia. by rewrite ztake_app.
Qed.

(** ** Value of the checksums *)

(** Zero-padding of an odd payload. *)
Definition pad_even (l : bytes) : bytes := if len l mod 2 =? 0 then l else l ++ [0].

(** The one's-complement sums RFC 768 and RFC 8200 prescribe: pseudo-header,
    header and padded payload. *)
Definition udp_sum (h : udp_header) (payload : bytes) (src dst : Z) : Z :=
  word_sum (mem32 src) + word_sum (mem32 dst) + IPV4_PROTOCOL_UDP
  + (sizeof_udp_header + len payload) + word_sum (udp_header_mem h) + word_sum (pad_even payload).
Definition udp_ip6_sum (h : udp_header) (payload src dst : bytes) : Z :=
  word_sum src + word_sum dst + (sizeof_udp_header + len payload) + IPV6_NEXT_UDP
  + word_sum (udp_header_mem h) + word_sum (pad_even payload).

Lemma summer_ref data n : bytes_ok data → 0 ≤ n ≤ 32767 → 2 * n ≤ len data →
  udp_checksum_summer data (2 * n) = word_sum (ztake (2 * n) data).
Proof.
  intros Hd Hn Hl. unfold udp_checksum_summer. rewrite double_half.
  rewrite sum_words_ref; [|done|unfold len in Hl; lia|lia..].
  unfold ztake. rewrite Z.add_0_l. do 2 f_equal. lia.
Qed.

Lemma word_sum_max l n : bytes_ok l → len l ≤ 2 * n → 0 ≤ word_sum l ≤ 65535 * n.
Proof.
  intros Hl Hn. pose proof (word_sum_bound l Hl).
  assert (len l / 2 ≤ n) by (apply Z.div_le_upper_bound; lia). lia.
Qed.

Lemma word_sum_be16 x : is_u16 x → word_sum (mem16 (hton16 x)) = x.
Proof.
  intros. rewrite <- (app_nil_r (mem16 _)), word_sum_mem16, ntoh16_hton16 by done. cbn. lia.
Qed.
Lemma word_sum_be32 x : is_u16 x → word_sum (mem32 (hton32 x)) = x.
Proof.
  intros. rewrite mem32_hton32, write_be32_val. unfold is_u16 in *.
  assert (0 ≤ x / 2 ^ 8 < 2 ^ 8)
    by (split; [apply Z.div_pos; lia|apply Z.div_lt_upper_bound; lia]).
  cbn [le_bytes rev app word_sum]. rewrite (Z.div_small (x / 2 ^ 8)) by done.
  change (u8 0) with 0. change (u8 (0 / 2 ^ 8)) with 0. unfold u8.
  rewrite (Z.mod_small (x / 2 ^ 8)) by done. pose proof (Z.div_mod x (2 ^ 8)). lia.
Qed.

(** The whole of an even-length object. *)
Lemma summer_all data l : bytes_ok data → len data = l → l mod 2 = 0 → l ≤ 65534 →
  udp_checksum_summer data l = word_sum data.
Proof.
  intros Hd E [n ->]%Z.mod_divide Hn; [|lia]. pose proof (len_nonneg data).
  rewrite (Z.mul_comm n 2), summer_ref, ztake_all by (done || lia). done.
Qed.
Lemma summer_be16 x : is_u16 x → udp_checksum_summer (mem16 (hton16 x)) 2 = x.
Proof.
  intros. rewrite summer_all by (auto with badvpn || done || lia). by apply word_sum_be16.
Qed.
Lemma summer_be32 x : is_u16 x → udp_checksum_summer (mem32 (hton32 x)) 4 = x.
Proof.
  intros. rewrite summer_all by (auto with badvpn || done || lia). by apply word_sum_be32.
Qed.

Lemma payload_sum t payload : bytes_ok payload → len payload ≤ 65527 →
  0 ≤ t → t + 65535 * 32768 < 2 ^ 32 →
  udp_checksum_payload t payload (len payload) = t + word_sum (pad_even payload).
Proof.
  intros Hp Hl Ht Hb. pose proof (len_nonneg payload). unfold udp_checksum_payload, pad_even.
  destruct (Z.eqb_spec (len payload mod 2) 0) as [E|E].
  - apply Z.mod_divide in E as [m E]; [|lia].
    rewrite E, (Z.mul_comm m 2), summer_ref, ztake_all by (done || lia).
    pose proof (word_sum_max payload m Hp ltac:(lia)). unfold u32. apply Z.mod_small. lia.
  - assert (∃ m, len payload = 2 * m + 1) as [m Em].
    { exists (len payload / 2). pose proof (Z.div_mod (len payload) 2).
      pose proof (Z.mod_pos_bound (len payload) 2). lia. }
    destruct (exists_last (l := payload)) as (l & b & ->); [intros ->; rewrite len_nil in Em; lia|].
    rewrite len_app in *. change (len [b]) with 1 in *.
    pose proof Hp as [Hpl Hb1]%bytes_ok_app. inversion_clear Hb1 as [|?? Hb' _].
    replace (len l + 1 - 1) with (2 * m) by lia. assert (len l = 2 * m) as El by lia.
    rewrite summer_ref; [|done|lia|rewrite len_app; change (len [b]) with 1; lia].
    rewrite <- El, ztake_app.
    assert (byte_at (l ++ [b]) (Z.to_nat (len l)) = b) as ->.
    { unfold byte_at, len. rewrite Nat2Z.id, app_nth2, Nat.sub_diag by lia. done. }
    unfold is_u8 in Hb'. rewrite Z.shiftl_mul_pow2 by lia.
    assert (u16 (b * 2 ^ 8) = b * 2 ^ 8) as -> by (apply Z.mod_small; lia).
    rewrite summer_be16 by (unfold is_u16; lia).
    pose proof (word_sum_max l m Hpl ltac:(lia)).
    unfold u32. rewrite (Z.mod_small (t + _)) by lia. rewrite Z.mod_small by lia.
    rewrite <- app_assoc, word_sum_app; [cbn; lia|].
    exists (Z.to_nat m). unfold len in El. lia.
Qed.

(** The end of both checksums; the zero test never fires on a positive sum. *)
Lemma finish_val t : 0 < t < 2 ^ 32 →
  udp_checksum_finish t = hton16 (65535 - fold_carry t) ∧ 0 < fold_carry t ≤ 65535.
Proof.
  intros Ht. unfold udp_checksum_finish.
  destruct (fold16_exits t) as (R & _ & P); [unfold is_u32; lia|]. specialize (P ltac:(lia)).
  destruct (Z.eqb_spec (fold_carry t) 0); [lia|].
  split; [by apply hton16_not_val|lia].
Qed.

Lemma udp_sum_bounds h payload src dst : bytes_ok payload → len payload ≤ 65527 →
  17 ≤ udp_sum h payload src dst < 2 ^ 32 - 65536.
Proof.
  intros Hp Hl. unfold udp_sum, IPV4_PROTOCOL_UDP, sizeof_udp_header.
  pose proof (word_sum_max (mem32 src) 2 (mem32_ok _) ltac:(by vm_compute)).
  pose proof (word_sum_max (mem32 dst) 2 (mem32_ok _) ltac:(by vm_compute)).
  pose proof (word_sum_max (udp_header_mem h) 4 (udp_header_mem_ok _) ltac:(by vm_compute)).
  pose proof (len_nonneg payload).
  assert (0 ≤ word_sum (pad_even payload) ≤ 65535 * 32764); [|lia].
  apply word_sum_max; unfold pad_even; case_match; rewrite ?len_app; try done;
    [bytes_solve; unfold is_u8; lia|lia|change (len [0]) with 1; lia].
Qed.

(** No addition of the checksum wraps, innermost first. *)
Ltac u32_small :=
  repeat match goal with
  | |- context [u32 ?x] =>
      lazymatch x with context [u32] => fail | _ => idtac end;
      replace (u32 x) with x by (symmetry; apply Z.mod_small; lia)
  end.

(** [udp_checksum] is the complement of the one's-complement sum. *)
Lemma udp_checksum_val h payload src dst : bytes_ok payload → len payload ≤ 65527 →
  udp_checksum h payload (len payload) src dst =
    hton16 (65535 - fold_carry (udp_sum h payload src dst)).
Proof.
  intros Hp Hl. pose proof (udp_sum_bounds h payload src dst Hp Hl) as Hs.
  destruct (finish_val (udp_sum h payload src dst)) as [<- _]; [lia|].
  unfold udp_checksum. f_equal. pose proof (len_nonneg payload).
  pose proof (word_sum_max (mem32 src) 2 (mem32_ok _) ltac:(by vm_compute)).
  pose proof (word_sum_max (mem32 dst) 2 (mem32_ok _) ltac:(by vm_compute)).
  pose proof (word_sum_max (udp_header_mem h) 4 (udp_header_mem_ok _) ltac:(by vm_compute)).
  unfold IPV4_PROTOCOL_UDP, sizeof_udp_header.
  assert (u16 (8 + len payload) = 8 + len payload) as -> by (apply Z.mod_small; lia).
  rewrite !summer_be16 by (unfold is_u16; lia).
  rewrite (summer_all (mem32 src)), (summer_all (mem32 dst)), (summer_all (udp_header_mem h))
    by (auto using udp_header_mem_ok with badvpn || done).
  u32_small. rewrite payload_sum by (done || lia).
  unfold udp_sum, IPV4_PROTOCOL_UDP, sizeof_udp_header. lia.
Qed.

Definition ip6_addr_ok (a : bytes) : Prop := length a = 16%nat ∧ bytes_ok a.

Lemma udp_ip6_sum_bounds h payload src dst : bytes_ok payload → len payload ≤ 65527 →
  ip6_addr_ok src → ip6_addr_ok dst → 17 ≤ udp_ip6_sum h payload src dst < 2 ^ 32 - 65536.
Proof.
  intros Hp Hl [Es Hs] [Ed Hd]. unfold udp_ip6_sum, IPV6_NEXT_UDP, sizeof_udp_header.
  pose proof (word_sum_max src 8 Hs ltac:(unfold len; lia)).
  pose proof (word_sum_max dst 8 Hd ltac:(unfold len; lia)).
  pose proof (word_sum_max (udp_header_mem h) 4 (udp_header_mem_ok _) ltac:(by vm_compute)).
  pose proof (len_nonneg payload).
  assert (0 ≤ word_sum (pad_even payload) ≤ 65535 * 32764); [|lia].
  apply word_sum_max; unfold pad_even; case_match; rewrite ?len_app; try done;
    [bytes_solve; unfold is_u8; lia|lia|change (len [0]) with 1; lia].
Qed.

Lemma udp_ip6_checksum_val h payload src dst : bytes_ok payload → len payload ≤ 65527 →
  ip6_addr_ok src → ip6_addr_ok dst →
  udp_ip6_checksum h payload (len payload) src dst =
    hton16 (65535 - fold_carry (udp_ip6_sum h payload src dst)).
Proof.
  intros Hp Hl Hsrc Hdst. pose proof (udp_ip6_sum_bounds h payload src dst Hp Hl Hsrc Hdst) as Hs.
  destruct (finish_val (udp_ip6_sum h payload src dst)) as [<- _]; [lia|].
  unfold udp_ip6_checksum. f_equal. pose proof (len_nonneg payload).
  destruct Hsrc as [Es Hs1], Hdst as [Ed Hd1].
  assert (len src = 16) by (unfold len; lia). assert (len dst = 16) by (unfold len; lia).
  pose proof (word_sum_max src 8 Hs1 ltac:(lia)). pose proof (word_sum_max dst 8 Hd1 ltac:(lia)).
  pose proof (word_sum_max (udp_header_mem h) 4 (udp_header_mem_ok _) ltac:(by vm_compute)).
  unfold IPV6_NEXT_UDP, sizeof_udp_header.
  assert (u32 (8 + len payload) = 8 + len payload) as -> by (apply Z.mod_small; lia).
  rewrite !summer_be32 by (unfold is_u16; lia).
  rewrite (summer_all src), (summer_all dst), (summer_all (udp_header_mem h))
    by (auto using udp_header_mem_ok with badvpn || done).
  u32_small. rewrite payload_sum by (done || lia).
  unfold udp_ip6_sum, IPV6_NEXT_UDP, sizeof_udp_header. lia.
Qed.

Lemma udp_checksum_u16 h payload src dst : bytes_ok payload → len payload ≤ 65527 →
  is_u16 (udp_checksum h payload (len payload) src dst).
Proof. intros. rewrite udp_checksum_val by done. apply hton16_u16. Qed.
Lemma udp_ip6_checksum_u16 h payload src dst : bytes_ok payload → len payload ≤ 65527 →
  ip6_addr_ok src → ip6_addr_ok dst →
  is_u16 (udp_ip6_checksum h payload (len payload) src dst).
Proof. intros. rewrite udp_ip6_checksum_val by done. apply hton16_u16. Qed.
End Udp.

(** * Properties *)
Module InetFacts.
Import Udp.

(** C37: [ipv4_check] accepts exactly the well-formed IPv4 packets: a buffer is
    accepted with header [h] and payload [p] if and only if it is the bytes of
    [h], then options filling the header length, then [p], then ignored bytes;
    the version is 4, both length fields agree with that split, and the header
    words sum to all ones in one's-complement arithmetic (with the checksum
    field itself not all ones). In particular the payload never reaches past
    the buffer. *)
Theorem ipv4_check_spec (data : bytes) (h : Ipv4.ipv4_header) (payload : bytes)
    (Hdata : bytes_ok data) :
  Ipv4.ipv4_check data = Some (h, payload) ↔ Ipv4.ipv4_packet data h payload.
Proof. split; [by apply Ipv4.ipv4_check_sound|by apply Ipv4.ipv4_check_complete]. Qed.

(** A 20-byte header, source 10.0.0.1, destination 10.0.0.2, two payload bytes. *)
Definition sample_ipv4 : bytes :=
  [69; 0; 0; 22; 0; 0; 0; 0; 64; 17; 102; 213; 10; 0; 0; 1; 10; 0; 0; 2; 7; 9].

Lemma bytes_dec (l : bytes) : forallb (λ b, (0 <=? b) && (b <? 256)) l = true → bytes_ok l.
Proof.
  intros H. apply List.Forall_forall. intros x Hx.
  rewrite forallb_forall in H. specialize (H x Hx). unfold is_u8. lia.
Qed.

Lemma ipv4_check_spec_witness :
  Ipv4.ipv4_packet sample_ipv4 (Ipv4.ipv4_header_load sample_ipv4) [7; 9].
Proof.
  apply (ipv4_check_spec sample_ipv4 (Ipv4.ipv4_header_load sample_ipv4) [7; 9]);
    [apply bytes_dec; reflexivity|vm_compute; reflexivity].
Defined.

(** The IPv6 and UDP header checks accept exactly the buffers that are a
    header followed by the payload its length field announces; bytes past the
    payload are ignored and a length field that reaches past the buffer, or is
    smaller than the header, is rejected. *)
Theorem ipv6_udp_check_spec (data : bytes) (Hdata : bytes_ok data) :
  (∀ h payload, Ipv6.ipv6_check data = Some (h, payload) ↔ Ipv6.ipv6_packet data h payload) ∧
  (∀ h payload, udp_check data = Some (h, payload) ↔ udp_datagram data h payload).
Proof.
  split; intros h payload; split;
    eauto using Ipv6.ipv6_check_sound, Ipv6.ipv6_check_complete, udp_check_sound, udp_check_complete.
Qed.

Lemma ipv6_udp_check_spec_witness :
  udp_datagram [0; 53; 1; 0; 0; 9; 0; 0; 42] (udp_header_load [0; 53; 1; 0; 0; 9; 0; 0]) [42].
Proof.
  apply (ipv6_udp_check_spec [0; 53; 1; 0; 0; 9; 0; 0; 42]);
    [apply bytes_dec; reflexivity|vm_compute; reflexivity].
Defined.

Lemma udp_sum_checksum h payload src dst :
  udp_sum h payload src dst
  = udp_sum (h <| checksum := 0 |>) payload src dst + ntoh16 (checksum h).
Proof.
  unfold udp_sum, udp_header_mem. cbn [source_port dest_port length16 checksum upd].
  rewrite <- (app_nil_r (mem16 (checksum h))), <- (app_nil_r (mem16 0)), !word_sum_mem16.
  change (ntoh16 0) with 0. lia.
Qed.
Lemma udp_ip6_sum_checksum h payload src dst :
  udp_ip6_sum h payload src dst
  = udp_ip6_sum (h <| checksum := 0 |>) payload src dst + ntoh16 (checksum h).
Proof.
  unfold udp_ip6_sum, udp_header_mem. cbn [source_port dest_port length16 checksum upd].
  rewrite <- (app_nil_r (mem16 (checksum h))), <- (app_nil_r (mem16 0)), !word_sum_mem16.
  change (ntoh16 0) with 0. lia.
Qed.

(** Completing a positive sum with its complement gives all ones. *)
Lemma complement_completes S : 17 ≤ S → S + 65535 < 2 ^ 32 →
  fold_carry (S + ntoh16 (hton16 (65535 - fold_carry S))) = 65535.
Proof.
  intros H1 H2. destruct (fold16_exits S) as (R & _ & P); [unfold is_u32; lia|].
  specialize (P ltac:(lia)). rewrite ntoh16_hton16 by (unfold is_u16; lia).
  apply checksum_complete; lia.
Qed.

(** C38: the UDP checksums written into a header are the one's-complement
    checksums of RFC 768 and RFC 8200: once the field holds the computed value,
    the 16-bit sum of pseudo-header, header and zero-padded payload is all
    ones, for IPv4 and for IPv6, whatever the (16-bit) payload length. *)
Theorem udp_checksum_correct (h : udp_header) (payload : bytes)
    (Hp : bytes_ok payload) (Hl : len payload ≤ 65527) :
  (∀ src dst, let c := udp_checksum (h <| checksum := 0 |>) payload (len payload) src dst in
    fold_carry (udp_sum (h <| checksum := c |>) payload src dst) = 65535) ∧
  (∀ src dst, ip6_addr_ok src → ip6_addr_ok dst →
    let c := udp_ip6_checksum (h <| checksum := 0 |>) payload (len payload) src dst in
    fold_carry (udp_ip6_sum (h <| checksum := c |>) payload src dst) = 65535).
Proof.
  split; intros; subst c; rewrite ?udp_checksum_val, ?udp_ip6_checksum_val by done.
  - rewrite udp_sum_checksum. apply complement_completes;
      pose proof (udp_sum_bounds (h <| checksum := 0 |>) payload src dst Hp Hl); cbn in *; lia.
  - rewrite udp_ip6_sum_checksum. apply complement_completes;
      pose proof (udp_ip6_sum_bounds (h <| checksum := 0 |>) payload src dst Hp Hl H H0); cbn in *; lia.
Qed.

Definition sample_udp : udp_header := UdpHeader (hton16 5000) (hton16 53) (hton16 11) 0.
Lemma udp_checksum_correct_witness :
  let c := udp_checksum (sample_udp <| checksum := 0 |>) [1; 2; 3] (len [1; 2; 3])
             16777226 33554442 in
  fold_carry (udp_sum (sample_udp <| checksum := c |>) [1; 2; 3] 16777226 33554442) = 65535.
Proof.
  assert (bytes_ok [1; 2; 3]) as H1 by (apply bytes_dec; reflexivity).
  assert (len [1; 2; 3] ≤ 65527) as H2 by (vm_compute; discriminate).
  exact (proj1 (udp_checksum_correct sample_udp [1; 2; 3] H1 H2) 16777226 33554442).
Defined.

(** C39: the substitution RFC 768 asks for is never made. A computed checksum of
    zero must be sent as all ones, since zero means "no checksum" (and IPv6
    forbids it); the code tests the sum instead of its complement, so it never
    produces all ones, and it does produce zero: the two-byte payload shown
    here, sent from 10.0.0.1:5000 to 10.0.0.2:53, gets checksum 0. *)
Theorem udp_checksum_zero_not_substituted :
  (∀ h payload src dst, bytes_ok payload → len payload ≤ 65527 →
    udp_checksum h payload (len payload) src dst ≠ hton16 UINT16_MAX) ∧
  udp_checksum (UdpHeader (hton16 5000) (hton16 53) (hton16 10) 0) [216; 26] 2
    16777226 33554442 = 0.
Proof.
  split; [|vm_compute; reflexivity].
  intros h payload src dst Hp Hl E. rewrite udp_checksum_val in E by done.
  pose proof (udp_sum_bounds h payload src dst Hp Hl).
  destruct (finish_val (udp_sum h payload src dst)) as [_ R]; [lia|].
  apply (f_equal ntoh16) in E. unfold UINT16_MAX in E.
  rewrite !ntoh16_hton16 in E by (unfold is_u16; lia). lia.
Qed.
End InetFacts.
