(* ===== verification/BAddr.v ===== *)
(** Socket addresses (system/BAddr.h): construction and comparison. *)
From S2P Require Import Prelude Misc TreeInterface.

#[local] Arguments B_COMPARE : simpl never.
#[local] Arguments ntoh16 : simpl never.
#[local] Arguments ntoh32 : simpl never.

(** * Comparisons *)

Lemma B_COMPARE_opp a b : B_COMPARE b a = - B_COMPARE a b.
Proof. apply (cmp_opp (P := λ _, True)). Qed.

(** [B_COMPARE_COMBINE]: the first comparison unless it is 0. *)
Definition cmp_combine (c1 c2 : Z) : Z := if c1 =? 0 then c2 else c1.

Lemma cmp_refl {A} (P : A → Prop) f `{!Comparator P f} x : f x x = 0.
Proof. pose proof (cmp_opp x x). lia. Qed.

(** Lexicographic comparison keeps the promise. *)
Lemma combine_comparator {A B} (P : A → Prop) (Q : B → Prop) f g
    `{!Comparator P f} `{!Comparator Q g} :
  Comparator (λ p : A * B, P p.1 ∧ Q p.2) (λ p q, cmp_combine (f p.1 q.1) (g p.2 q.2)).
Proof.
  unfold cmp_combine. split.
  - intros [a b] [a' b']; cbn. destruct (f a a' =? 0); apply cmp_range.
  - intros [a b] [a' b'] [??] [??]; cbn in *. destruct (Z.eqb_spec (f a a') 0) as [E|E].
    + rewrite cmp_eq by done. apply cmp_eq in E as ->; [|done..]. split; [by intros ->|by intros [= ->]].
    + split; [done|]. intros [= -> ->]. destruct E. by apply cmp_eq.
  - intros [a b] [a' b']; cbn. rewrite (cmp_opp a a').
    destruct (Z.eqb_spec (f a a') 0), (Z.eqb_spec (- f a a') 0); try lia. apply cmp_opp.
  - intros [a b] [a' b'] [a'' b''] [??] [??] [??]; cbn in *.
    destruct (Z.eqb_spec (f a a') 0) as [E1|E1], (Z.eqb_spec (f a' a'') 0) as [E2|E2]; intros H5 H6.
    + apply cmp_eq in E1 as ->; [|done..]. apply cmp_eq in E2 as ->; [|done..].
      rewrite (cmp_refl P f a''), Z.eqb_refl. by apply (cmp_lt_trans b b' b'').
    + apply cmp_eq in E1 as ->; [|done..]. destruct (Z.eqb_spec (f a' a'') 0); lia.
    + apply cmp_eq in E2 as ->; [|done..]. destruct (Z.eqb_spec (f a a'') 0); lia.
    + by rewrite (cmp_lt_trans a a' a'').
Qed.

(** Pairs compared by their first and then their second number. *)
Definition compare_pairs (x y : Z * Z) : Z :=
  let cmp := B_COMPARE (fst x) (fst y) in
  if negb (cmp =? 0) then cmp else B_COMPARE (snd x) (snd y).
Lemma compare_pairs_comparator : Comparator (λ _, True) compare_pairs.
Proof.
  pose proof (combine_comparator (λ _, True) (λ _, True) B_COMPARE B_COMPARE) as C.
  assert (∀ x y, compare_pairs x y = cmp_combine (B_COMPARE x.1 y.1) (B_COMPARE x.2 y.2)) as E.
  { intros. unfold compare_pairs, cmp_combine. by destruct (_ =? 0). }
  split; intros; rewrite !E in *; [apply C|by apply C|apply C|].
  by apply (C.(cmp_lt_trans) x y z).
Qed.
Lemma compare_pairs_lt x y : compare_pairs x y = -1 ↔ x.1 < y.1 ∨ (x.1 = y.1 ∧ x.2 < y.2).
Proof.
  unfold compare_pairs. destruct (B_COMPARE_spec x.1 y.1) as [[? ->]|[[? ->]|[? ->]]],
    (B_COMPARE_spec x.2 y.2) as [[? E]|[[? E]|[? E]]]; cbn; rewrite ?E; lia.
Qed.

(** * Addresses *)

Inductive BAddr :=
  | BADDR_NONE
  | BADDR_IPV4 (ip port : Z)
  | BADDR_IPV6 (ip : bytes) (port : Z)
  | BADDR_PACKET (phys_proto interface_index header_type packet_type : Z) (phys_addr : bytes).

#[export] Instance BAddr_eq_dec : EqDecision BAddr.
Proof. solve_decision. Defined.

Definition BAddr_type (a : BAddr) : Z :=
  match a with
  | BADDR_NONE => 0
  | BADDR_IPV4 _ _ => 1
  | BADDR_IPV6 _ _ => 2
  | BADDR_PACKET _ _ _ _ _ => 5
  end.

Definition BAddr_MakeNone : BAddr := BADDR_NONE.
Definition BAddr_MakeIPv4 (ip port : Z) : BAddr := BADDR_IPV4 ip port.
Definition BAddr_MakeIPv6 (ip : bytes) (port : Z) : BAddr := BADDR_IPV6 (take 16 ip) port.
Definition BAddr_InitIPv4 (ip port : Z) : BAddr := BAddr_MakeIPv4 ip port.
Definition BAddr_InitIPv6 (ip : bytes) (port : Z) : BAddr := BAddr_MakeIPv6 ip port.
Definition BAddr_IsInvalid (a : BAddr) : bool := BAddr_type a =? 0.

(** [memcmp], of which only the sign is specified: that of the first
    differing byte. *)
Fixpoint memcmp (l k : bytes) : Z :=
  match l, k with
  | a :: l, b :: k => if a =? b then memcmp l k else B_COMPARE a b
  | _, _ => 0
  end.

Definition BAddr_Compare (a1 a2 : BAddr) : bool :=
  if negb (BAddr_type a1 =? BAddr_type a2) then false else
  match a1, a2 with
  | BADDR_IPV4 ip1 port1, BADDR_IPV4 ip2 port2 => (ip1 =? ip2) && (port1 =? port2)
  | BADDR_IPV6 ip1 port1, BADDR_IPV6 ip2 port2 => (memcmp ip1 ip2 =? 0) && (port1 =? port2)
  | _, _ => false
  end.

Definition BAddr_CompareOrder (a1 a2 : BAddr) : Z :=
  let cmp := B_COMPARE (BAddr_type a1) (BAddr_type a2) in
  if negb (cmp =? 0) then cmp else
  match a1, a2 with
  | BADDR_NONE, _ => 0
  | BADDR_IPV4 ip1 port1, BADDR_IPV4 ip2 port2 =>
      let cmp := B_COMPARE (ntoh32 ip1) (ntoh32 ip2) in
      if negb (cmp =? 0) then cmp else B_COMPARE (ntoh16 port1) (ntoh16 port2)
  | BADDR_IPV6 ip1 port1, BADDR_IPV6 ip2 port2 =>
      let cmp := memcmp ip1 ip2 in
      if negb (cmp =? 0) then B_COMPARE cmp 0 else B_COMPARE (ntoh16 port1) (ntoh16 port2)
  | _, _ => 0
  end.

(** An address the tunnel handles: IPv4 or IPv6 with fields in range. *)
Definition BAddr_ok (a : BAddr) : Prop :=
  match a with
  | BADDR_IPV4 ip port => is_u32 ip ∧ is_u16 port
  | BADDR_IPV6 ip port => (length ip = 16%nat ∧ bytes_ok ip) ∧ is_u16 port
  | _ => False
  end.

(** ** [BAddr_CompareOrder] keeps the comparator promise *)

Lemma memcmp_range l k : memcmp l k = -1 ∨ memcmp l k = 0 ∨ memcmp l k = 1.
Proof.
  revert k. induction l as [|a l IH]; intros [|b k]; cbn; auto.
  destruct (a =? b); [apply IH|apply (cmp_range (P := λ _, True) (cmp := B_COMPARE))].
Qed.
Lemma memcmp_opp l k : memcmp k l = - memcmp l k.
Proof.
  revert k. induction l as [|a l IH]; intros [|b k]; cbn; try done.
  rewrite (Z.eqb_sym b a). destruct (a =? b); [apply IH|].
  apply B_COMPARE_opp.
Qed.
Lemma memcmp_eq l k : length l = length k → memcmp l k = 0 ↔ l = k.
Proof.
  revert k. induction l as [|a l IH]; intros [|b k]; cbn; try done; intros [= E].
  destruct (Z.eqb_spec a b) as [->|Hne].
  { rewrite IH by done. split; [by intros ->|by intros [= ->]]. }
  destruct (B_COMPARE_spec a b) as [?|[?|?]]; split; try lia; by intros [= ? ?].
Qed.
Lemma memcmp_trans l k m : length l = length k → length k = length m →
  memcmp l k = -1 → memcmp k m = -1 → memcmp l m = -1.
Proof.
  revert k m. induction l as [|a l IH]; intros [|b k] [|c m]; cbn; try done; intros [= E1] [= E2].
  destruct (Z.eqb_spec a b) as [->|], (Z.eqb_spec b c) as [->|]; eauto.
  - destruct (Z.eqb_spec a c) as [->|]; [lia|done].
  - destruct (Z.eqb_spec a c) as [->|].
    + destruct (B_COMPARE_spec c b) as [?|[?|?]], (B_COMPARE_spec b c) as [?|[?|?]]; lia.
    + by apply (cmp_lt_trans (P := λ _, True) (cmp := B_COMPARE)).
Qed.

Lemma CompareOrder_v4 i p i' p' :
  BAddr_CompareOrder (BADDR_IPV4 i p) (BADDR_IPV4 i' p') =
    cmp_combine (B_COMPARE (ntoh32 i) (ntoh32 i')) (B_COMPARE (ntoh16 p) (ntoh16 p')).
Proof.
  unfold cmp_combine.
  by destruct (Z.eqb_spec (B_COMPARE (ntoh32 i) (ntoh32 i')) 0) as [E|E%Z.eqb_neq];
    unfold BAddr_CompareOrder; cbn [BAddr_type negb Z.eqb]; rewrite E.
Qed.
Lemma CompareOrder_v6 i p i' p' :
  BAddr_CompareOrder (BADDR_IPV6 i p) (BADDR_IPV6 i' p') =
    cmp_combine (memcmp i i') (B_COMPARE (ntoh16 p) (ntoh16 p')).
Proof.
  unfold BAddr_CompareOrder, cmp_combine. destruct (memcmp_range i i') as [->|[->| ->]]; done.
Qed.

Lemma combine_range c1 c2 : (c1 = -1 ∨ c1 = 0 ∨ c1 = 1) → (c2 = -1 ∨ c2 = 0 ∨ c2 = 1) →
  cmp_combine c1 c2 = -1 ∨ cmp_combine c1 c2 = 0 ∨ cmp_combine c1 c2 = 1.
Proof. unfold cmp_combine. case_match; auto. Qed.
Lemma combine_opp c1 c2 : cmp_combine (- c1) (- c2) = - cmp_combine c1 c2.
Proof. unfold cmp_combine. destruct (Z.eqb_spec c1 0), (Z.eqb_spec (- c1) 0); lia. Qed.
Lemma combine_0 c1 c2 : cmp_combine c1 c2 = 0 ↔ c1 = 0 ∧ c2 = 0.
Proof. unfold cmp_combine. destruct (Z.eqb_spec c1 0); lia. Qed.
Lemma B_COMPARE_0 a b : B_COMPARE a b = 0 ↔ a = b.
Proof. by apply (cmp_eq (P := λ _, True)). Qed.
Lemma B_COMPARE_range a b : B_COMPARE a b = -1 ∨ B_COMPARE a b = 0 ∨ B_COMPARE a b = 1.
Proof. apply (cmp_range (P := λ _, True)). Qed.

Lemma CompareOrder_opp a b : BAddr_CompareOrder b a = - BAddr_CompareOrder a b.
Proof.
  destruct a as [|i p|i p|], b as [|i' p'|i' p'|]; try done.
  - rewrite !CompareOrder_v4, <- combine_opp, <- !B_COMPARE_opp. done.
  - by rewrite !CompareOrder_v6, <- combine_opp, <- B_COMPARE_opp, <- memcmp_opp.
Qed.

Lemma CompareOrder_range a b :
  BAddr_CompareOrder a b = -1 ∨ BAddr_CompareOrder a b = 0 ∨ BAddr_CompareOrder a b = 1.
Proof.
  destruct a as [|i p|i p|], b as [|i' p'|i' p'|];
    rewrite ?CompareOrder_v4, ?CompareOrder_v6;
    auto using combine_range, memcmp_range, B_COMPARE_range.
Qed.

Lemma CompareOrder_eq a b : BAddr_ok a → BAddr_ok b →
  BAddr_CompareOrder a b = 0 ↔ a = b.
Proof.
  destruct a as [|i p|i p|], b as [|i' p'|i' p'|]; try done.
  - intros [Hi Hp] [Hi' Hp']. rewrite CompareOrder_v4, combine_0, !B_COMPARE_0. split.
    + intros [->%ntoh32_inj ->%ntoh16_inj]; done.
    + by intros [= -> ->].
  - intros [[Hi _] Hp] [[Hi' _] Hp'].
    rewrite CompareOrder_v6, combine_0, B_COMPARE_0, memcmp_eq by lia. split.
    + intros [-> ->%ntoh16_inj]; done.
    + by intros [= -> ->].
Qed.

Lemma CompareOrder_trans a b c : BAddr_ok a → BAddr_ok b → BAddr_ok c →
  BAddr_CompareOrder a b = -1 → BAddr_CompareOrder b c = -1 → BAddr_CompareOrder a c = -1.
Proof.
  destruct a as [|i p|i p|], b as [|i' p'|i' p'|], c as [|i'' p''|i'' p''|]; try done.
  - intros _ _ _. rewrite !CompareOrder_v4.
    pose proof (combine_comparator (λ _, True) (λ _, True) B_COMPARE B_COMPARE) as C.
    apply (C.(cmp_lt_trans) (ntoh32 i, ntoh16 p) (ntoh32 i', ntoh16 p') (ntoh32 i'', ntoh16 p''));
      done.
  - intros [[Hi _] _] [[Hi' _] _] [[Hi'' _] _]. rewrite !CompareOrder_v6. unfold cmp_combine.
    destruct (Z.eqb_spec (memcmp i i') 0) as [->%memcmp_eq|N1]; [|lia|];
      destruct (Z.eqb_spec (memcmp i' i'') 0) as [->%memcmp_eq|N2]; try lia.
    + by apply (cmp_lt_trans (P := λ _, True) (cmp := B_COMPARE)).
    + destruct (Z.eqb_spec (memcmp i i'') 0); lia.
    + intros H1 H2. by rewrite (memcmp_trans i i' i'') by (done || lia).
Qed.

#[export] Instance BAddr_comparator : Comparator BAddr_ok BAddr_CompareOrder.
Proof.
  split; eauto using CompareOrder_range, CompareOrder_eq, CompareOrder_opp, CompareOrder_trans.
Qed.
