(* ===== verification/ParseNumber.v ===== *)
(** Numbers as text: misc/parse_number.h and misc/find_char.h, with what they and
    their users take from the C library (digits of [sprintf], [memcmp]). *)
From Stdlib Require Import Ascii String.
From S2P Require Import Prelude Misc TreeInterface BAddr.

(** * Characters and strings

    A character is its code; a region of characters, and a C string up to its
    terminating zero, is a list of them. *)
Definition chr (c : ascii) : Z := Z.of_N (N_of_ascii c).
Coercion chr : ascii >-> Z.
Definition str (s : string) : bytes := chr <$> list_ascii_of_string s.

(** Where the first [c] is in a region, or its end. *)
Fixpoint span_to (c : Z) (s : bytes) : Z :=
  match s with
  | [] => 0
  | d :: s => if d =? c then 0 else 1 + span_to c s
  end.

(** [strlen] of memory that holds a C string; [None] if there is no zero in it. *)
Definition strlen (mem : bytes) : option Z :=
  let n := span_to 0 mem in if n <? len mem then Some n else None.

(** Turns character constants into their codes. *)
Ltac chars :=
  repeat match goal with
  | |- context [chr ?c] => let v := eval vm_compute in (chr c) in change (chr c) with v
  | H : context [chr ?c] |- _ => let v := eval vm_compute in (chr c) in change (chr c) with v in H
  end.

(** * Digits

    What [sprintf] prints for an unsigned number in base [b], and the value of a
    list of digits, the most significant one first. *)
Module Digits.
Fixpoint to_digits (rounds : nat) (b x : Z) (acc : list Z) : list Z :=
  match rounds with
  | O => acc
  | S rounds =>
      let acc := x mod b :: acc in
      if x / b =? 0 then acc else to_digits rounds b (x / b) acc
  end.
Definition digits (b x : Z) : list Z := to_digits 64 b x [].
Definition undigits (b : Z) (ds : list Z) : Z := fold_left (λ n d, b * n + d) ds 0.

Lemma undigits_from b ds n :
  fold_left (λ n d, b * n + d) ds n = n * b ^ len ds + undigits b ds.
Proof.
  unfold undigits. revert n. induction ds as [|d ds IH]; intros n; cbn [fold_left].
  { rewrite len_nil. lia. }
  rewrite IH, (IH (b * 0 + d)), len_cons, Z.pow_add_r by len_lia. lia.
Qed.
Lemma undigits_cons b d ds : undigits b (d :: ds) = d * b ^ len ds + undigits b ds.
Proof. unfold undigits at 1. cbn [fold_left]. rewrite undigits_from. f_equal. lia. Qed.
Lemma undigits_snoc b ds d : undigits b (ds ++ [d]) = b * undigits b ds + d.
Proof. unfold undigits. by rewrite fold_left_app. Qed.
Lemma undigits_app b ds es : undigits b (ds ++ es) = undigits b ds * b ^ len es + undigits b es.
Proof. unfold undigits at 1. rewrite fold_left_app. apply undigits_from. Qed.

Section base.
Context {b : Z} (Hb : 2 ≤ b).

Definition is_digit (d : Z) : Prop := 0 ≤ d < b.

Lemma undigits_range ds : Forall is_digit ds → 0 ≤ undigits b ds < b ^ len ds.
Proof.
  induction 1 as [|d ds Hd _ IH]; [done|].
  rewrite undigits_cons, len_cons, Z.pow_add_r by len_lia.
  pose proof (len_nonneg ds). unfold is_digit in Hd. nia.
Qed.

(** What the loop leaves, for numbers of at most [rounds] digits: the number, in
    digits, without a leading zero. *)
Lemma to_digits_spec rounds x acc : 0 ≤ x < b ^ Z.of_nat (S rounds) →
  ∃ ds, to_digits (S rounds) b x acc = ds ++ acc ∧ undigits b ds = x ∧ Forall is_digit ds ∧
    (∀ k, 1 ≤ k → x < b ^ k → len ds ≤ k) ∧ ds ≠ [] ∧ (head ds = Some 0 → x = 0 ∧ ds = [0]).
Proof.
  revert x acc. induction rounds as [|rounds IH]; intros x acc Hx; cbn [to_digits].
  { change (Z.of_nat 1) with 1 in Hx. rewrite Z.pow_1_r in Hx.
    assert (x / b = 0) as -> by (apply Z.div_small; lia). rewrite Z.mod_small by lia. cbn [Z.eqb].
    exists [x]. split_and!; try done.
    - unfold undigits. cbn [fold_left]. lia.
    - apply Forall_singleton. unfold is_digit. lia.
    - intros [= ->]. done. }
  destruct (Z.eqb_spec (x / b) 0) as [E|E].
  { exists [x mod b]. assert (x mod b = x) as ->.
    { rewrite (Z.div_mod x b) at 2 by lia. rewrite E. lia. }
    assert (0 ≤ x < b). { apply Z.div_small_iff in E; lia. }
    split_and!; try done; [unfold undigits; cbn [fold_left]; lia|by apply Forall_singleton|by intros [= ->]]. }
  assert (b ^ Z.of_nat (S (S rounds)) = b * b ^ Z.of_nat (S rounds)) as Ep.
  { rewrite <- Z.pow_succ_r by lia. f_equal. lia. }
  assert (0 ≤ x / b < b ^ Z.of_nat (S rounds)) as Hq.
  { split; [apply Z.div_pos; lia|apply Z.div_lt_upper_bound; lia]. }
  destruct (IH (x / b) (x mod b :: acc) Hq) as (ds & Eq & Ev & Hd & Hl & Hne & Hh).
  cbn [to_digits] in Eq. exists (ds ++ [x mod b]). rewrite Eq, <- app_assoc. split_and!.
  - done.
  - rewrite undigits_snoc, Ev. symmetry. apply Z.div_mod. lia.
  - apply Forall_app. split; [done|]. apply Forall_singleton. apply Z.mod_pos_bound. lia.
  - intros k Hk Hxk. rewrite len_app. change (len [x mod b]) with 1.
    destruct (decide (k = 1)) as [->|].
    { destruct E. apply Z.div_small. rewrite Z.pow_1_r in Hxk. lia. }
    enough (len ds ≤ k - 1) by lia. apply Hl; [lia|].
    apply Z.div_lt_upper_bound; [lia|]. rewrite <- Z.pow_succ_r by lia.
    by replace (Z.succ (k - 1)) with k by lia.
  - intros [? [=]]%app_eq_nil.
  - destruct ds as [|d ds]; [done|]. cbn. intros [= ->]. destruct E. apply Hh. done.
Qed.

Lemma digits_spec x : is_u64 x →
  undigits b (digits b x) = x ∧ Forall is_digit (digits b x) ∧
  (∀ k, 1 ≤ k → x < b ^ k → len (digits b x) ≤ k) ∧ digits b x ≠ [] ∧
  (head (digits b x) = Some 0 → digits b x = [0]).
Proof.
  intros Hx. destruct (to_digits_spec 63 x []) as (ds & E & Ev & Hd & Hl & Hne & Hh).
  - split; [apply Hx|]. apply Z.lt_le_trans with (2 ^ 64); [apply Hx|].
    change (Z.of_nat 64) with 64. apply Z.pow_le_mono_l. lia.
  - unfold digits. rewrite E, app_nil_r. split_and!; [done..|]. intros H%Hh. apply H.
Qed.

(** The number of rounds does not matter once it is large enough. *)
Lemma to_digits_acc rounds x acc : to_digits rounds b x acc = to_digits rounds b x [] ++ acc.
Proof.
  revert x acc. induction rounds as [|rounds IH]; intros x acc; [done|]. cbn [to_digits].
  case_match; [done|]. rewrite IH, (IH _ [_]). by rewrite <- app_assoc.
Qed.
Lemma to_digits_more rounds rounds' x acc : 0 ≤ x < b ^ Z.of_nat (S rounds) → (rounds ≤ rounds')%nat →
  to_digits (S rounds') b x acc = to_digits (S rounds) b x acc.
Proof.
  revert rounds' x acc. induction rounds as [|rounds IH]; intros rounds' x acc Hx Hr.
  - change (Z.of_nat 1) with 1 in Hx. rewrite Z.pow_1_r in Hx. cbn [to_digits].
    by rewrite (Z.div_small x b) by lia.
  - destruct rounds' as [|rounds']; [lia|]. remember (S rounds) as r. remember (S rounds') as r'.
    cbn [to_digits]. case_match; [done|]. subst. apply IH; [|lia].
    rewrite Nat2Z.inj_succ, Z.pow_succ_r in Hx by lia.
    split; [apply Z.div_pos; lia|apply Z.div_lt_upper_bound; lia].
Qed.

(** Digit by digit comparison is comparison of the values. *)
Lemma memcmp_undigits ds es : length ds = length es → Forall is_digit ds → Forall is_digit es →
  memcmp ds es = B_COMPARE (undigits b ds) (undigits b es).
Proof.
  revert es. induction ds as [|d ds IH]; intros [|e es]; cbn [memcmp length]; try done.
  intros [= El] [Hd Hds]%Forall_cons [He Hes]%Forall_cons. rewrite !undigits_cons.
  assert (len es = len ds) as -> by (unfold len; lia).
  pose proof (undigits_range ds Hds) as R1. pose proof (undigits_range es Hes) as R2.
  assert (len es = len ds) as El' by (unfold len; lia). rewrite El' in R2.
  set (P := b ^ len ds) in *. unfold is_digit in *. destruct (Z.eqb_spec d e) as [->|Hne].
  - rewrite (IH es) by done. unfold B_COMPARE.
    destruct (B_COMPARE_spec (undigits b ds) (undigits b es)) as [[??]|[[??]|[??]]];
      unfold B_COMPARE; repeat case_match; try lia;
      repeat match goal with |- context [?a <? ?b] => destruct (Z.ltb_spec a b) end; cbn; lia.
  - assert (d < e ∨ e < d) as [?|?] by lia;
      [assert (d * P + undigits b ds < e * P + undigits b es) by nia
      |assert (e * P + undigits b es < d * P + undigits b ds) by nia];
      unfold B_COMPARE;
      repeat match goal with |- context [?a <? ?b] => destruct (Z.ltb_spec a b) end; cbn; lia.
Qed.
End base.
Arguments is_digit : clear implicits.
End Digits.

(** * misc/parse_number.h and misc/find_char.h *)
Module ParseNumber.
Definition parse_number__uintmax_max_str : bytes := str "18446744073709551615".

Definition decode_decimal_digit (c : Z) : Z :=
  if c =? "0"%char then 0 else if c =? "1"%char then 1 else if c =? "2"%char then 2 else
  if c =? "3"%char then 3 else if c =? "4"%char then 4 else if c =? "5"%char then 5 else
  if c =? "6"%char then 6 else if c =? "7"%char then 7 else if c =? "8"%char then 8 else
  if c =? "9"%char then 9 else -1.

Definition decode_hex_digit (c : Z) : Z :=
  if c =? "0"%char then 0 else if c =? "1"%char then 1 else if c =? "2"%char then 2 else
  if c =? "3"%char then 3 else if c =? "4"%char then 4 else if c =? "5"%char then 5 else
  if c =? "6"%char then 6 else if c =? "7"%char then 7 else if c =? "8"%char then 8 else
  if c =? "9"%char then 9 else
  if (c =? "A"%char) || (c =? "a"%char) then 10 else if (c =? "B"%char) || (c =? "b"%char) then 11 else
  if (c =? "C"%char) || (c =? "c"%char) then 12 else if (c =? "D"%char) || (c =? "d"%char) then 13 else
  if (c =? "E"%char) || (c =? "e"%char) then 14 else if (c =? "F"%char) || (c =? "f"%char) then 15 else -1.

(** Results: [Some] for 1 and what is stored, [None] for 0. *)
Fixpoint no_overflow_loop (s : bytes) (n : Z) : option Z :=
  match s with
  | [] => Some n
  | c :: s => if (c <? "0"%char) || ("9"%char <? c) then None else
      no_overflow_loop s (u64 (u64 (10 * n) + (c - "0"%char)))
  end.
Definition parse__no_overflow (s : bytes) : option Z := no_overflow_loop s 0.

Fixpoint skip_zeros (s : bytes) : bytes :=
  match s with
  | c :: s' => if c =? "0"%char then skip_zeros s' else s
  | [] => []
  end.

Definition parse_unsigned_integer_bin (s : bytes) : option Z :=
  if len s =? 0 then None else
  let s := skip_zeros s in
  if (len parse_number__uintmax_max_str <? len s) ||
     ((len s =? len parse_number__uintmax_max_str) && (0 <? memcmp s parse_number__uintmax_max_str))
  then None else parse__no_overflow s.
(** The functions on C strings fail if there is no terminating zero. *)
Definition parse_unsigned_integer (s : bytes) : option (option Z) :=
  n ← strlen s; Some (parse_unsigned_integer_bin (ztake n s)).

Fixpoint hex_loop (s : bytes) (n : Z) : option Z :=
  match s with
  | [] => Some n
  | c :: s =>
      let digit := decode_hex_digit c in
      if digit <? 0 then None else
      if UINT64_MAX / 16 <? n then None else
      let n := u64 (n * 16) in
      if UINT64_MAX - n <? digit then None else hex_loop s (u64 (n + digit))
  end.
Definition parse_unsigned_hex_integer_bin (s : bytes) : option Z :=
  if len s =? 0 then None else hex_loop s 0.
Definition parse_unsigned_hex_integer (s : bytes) : option (option Z) :=
  n ← strlen s; Some (parse_unsigned_hex_integer_bin (ztake n s)).

(** The sign and the magnitude. *)
Definition parse_signmag_integer_bin (s : bytes) : option (Z * Z) :=
  let '(sign, s) :=
    match s with
    | c :: s' => if (c =? "+"%char) || (c =? "-"%char) then (1 - 2 * Z.b2z (c =? "-"%char), s') else (1, s)
    | [] => (1, s)
    end in
  match parse_unsigned_integer_bin s with
  | Some mag => Some (sign, mag)
  | None => None
  end.
Definition parse_signmag_integer (s : bytes) : option (option (Z * Z)) :=
  n ← strlen s; Some (parse_signmag_integer_bin (ztake n s)).

(** The loops of printing, with more rounds than a 64-bit number has digits. *)
Definition decimal_rounds : nat := 21.
Fixpoint decimal_size_loop (rounds : nat) (size x : Z) : option Z :=
  match rounds with
  | O => None
  | S rounds =>
      let size := size + 1 in
      let x := x / 10 in
      if 0 <? x then decimal_size_loop rounds size x else Some size
  end.
Definition compute_decimal_repr_size (x : Z) : option Z := decimal_size_loop decimal_rounds 0 x.

(** Storing a character; [None] outside of the buffer. *)
Definition store (i c : Z) (out : bytes) : option bytes :=
  if (0 <=? i) && (i <? len out) then Some (<[Z.to_nat i := c]> out) else None.

Fixpoint decimal_loop (rounds : nat) (x i : Z) (out : bytes) : option bytes :=
  match rounds with
  | O => None
  | S rounds =>
      let i := i - 1 in
      match store i ("0"%char + x mod 10) out with
      | None => None
      | Some out =>
          let x := x / 10 in
          if 0 <? x then decimal_loop rounds x i out else Some out
      end
  end.
Definition generate_decimal_repr (x : Z) (out : bytes) (repr_size : Z) : option bytes :=
  ASSERT_ (bool_decide (compute_decimal_repr_size x = Some repr_size));
  decimal_loop decimal_rounds x repr_size out.
Definition generate_decimal_repr_string (x : Z) (out : bytes) : option (Z * bytes) :=
  match compute_decimal_repr_size x with
  | None => None
  | Some repr_size =>
      match generate_decimal_repr x out repr_size with
      | None => None
      | Some out => match store repr_size 0 out with Some out => Some (repr_size, out) | None => None end
      end
  end.

(** [b_find_char_bin]: the position of the first [c]. *)
Fixpoint find_char_loop (s : bytes) (c i : Z) : option Z :=
  match s with
  | [] => None
  | d :: s => if d =? c then Some i else find_char_loop s c (i + 1)
  end.
Definition b_find_char_bin (s : bytes) (c : Z) : option Z := find_char_loop s c 0.

(** What [sprintf] writes for [%u], and for [%x]. *)
Definition decimal_char (d : Z) : Z := "0"%char + d.
Definition hex_char (d : Z) : Z := if d <? 10 then "0"%char + d else "a"%char + (d - 10).
Definition print_decimal (x : Z) : bytes := decimal_char <$> Digits.digits 10 x.
Definition print_hex (x : Z) : bytes := hex_char <$> Digits.digits 16 x.

(** [sprintf] to position [pos] of a buffer, with the terminating zero. *)
Definition sprintf (pos : Z) (s buf : bytes) : option bytes :=
  if pos + len s + 1 <=? len buf then Some (zwrite pos (s ++ [0]) buf) else None.

(** Reading a byte, [memmove] within a buffer and [memset]; [None] outside of it. *)
Definition load (i : Z) (mem : bytes) : option Z :=
  if (0 <=? i) && (i <? len mem) then Some (byte_at mem (Z.to_nat i)) else None.
Definition memmove (dst src n : Z) (mem : bytes) : option bytes :=
  if (0 <=? n) && (0 <=? dst) && (dst + n <=? len mem) && (0 <=? src) && (src + n <=? len mem)
  then Some (zwrite dst (zslice src n mem) mem) else None.
Definition memset (dst c n : Z) (mem : bytes) : option bytes :=
  if (0 <=? n) && (0 <=? dst) && (dst + n <=? len mem)
  then Some (zwrite dst (replicate (Z.to_nat n) c) mem) else None.
End ParseNumber.

(** * What the functions compute *)
Module ParseNumberFacts.
Export ParseNumber Digits.

(** The specification: a number is a non-empty list of digits. *)
Definition decimal_digit (c : Z) : Prop := 48 ≤ c ≤ 57.
Definition dec_value (s : bytes) : Z := undigits 10 ((λ c, c - 48) <$> s).
Definition is_decimal (s : bytes) : Prop := s ≠ [] ∧ Forall decimal_digit s.

Definition hex_digit (c : Z) : Prop := 48 ≤ c ≤ 57 ∨ 65 ≤ c ≤ 70 ∨ 97 ≤ c ≤ 102.
Definition hex_digit_value (c : Z) : Z :=
  if c <=? 57 then c - 48 else if c <=? 70 then c - 55 else c - 87.
Definition hex_value (s : bytes) : Z := undigits 16 (hex_digit_value <$> s).
Definition is_hex (s : bytes) : Prop := s ≠ [] ∧ Forall hex_digit s.

#[export] Instance decimal_digit_dec c : Decision (decimal_digit c).
Proof. apply _. Defined.
#[export] Instance hex_digit_dec c : Decision (hex_digit c).
Proof. apply _. Defined.

Lemma decode_decimal_digit_spec c :
  decode_decimal_digit c = if decide (decimal_digit c) then c - 48 else -1.
Proof.
  unfold decode_decimal_digit, decimal_digit. chars. case_decide.
  - assert (c = 48 ∨ c = 49 ∨ c = 50 ∨ c = 51 ∨ c = 52 ∨ c = 53 ∨ c = 54 ∨ c = 55 ∨ c = 56 ∨ c = 57) by lia.
    by repeat destruct_or?; subst.
  - by repeat match goal with |- context [c =? ?k] => destruct (Z.eqb_spec c k) as [->|]; [lia|] end.
Qed.
Lemma decode_hex_digit_spec c :
  decode_hex_digit c = if decide (hex_digit c) then hex_digit_value c else -1.
Proof.
  unfold decode_hex_digit, hex_digit, hex_digit_value. chars. case_decide.
  - assert (c = 48 ∨ c = 49 ∨ c = 50 ∨ c = 51 ∨ c = 52 ∨ c = 53 ∨ c = 54 ∨ c = 55 ∨ c = 56 ∨ c = 57 ∨
      c = 65 ∨ c = 66 ∨ c = 67 ∨ c = 68 ∨ c = 69 ∨ c = 70 ∨
      c = 97 ∨ c = 98 ∨ c = 99 ∨ c = 100 ∨ c = 101 ∨ c = 102) by lia.
    by repeat destruct_or?; subst.
  - by repeat match goal with |- context [c =? ?k] => destruct (Z.eqb_spec c k) as [->|]; [lia|] end.
Qed.
Lemma hex_digit_value_range c : hex_digit c → 0 ≤ hex_digit_value c < 16.
Proof. unfold hex_digit, hex_digit_value. repeat case_match; bool_to_prop; lia. Qed.

Lemma dec_digits_range s : Forall decimal_digit s → Forall (is_digit 10) ((λ c, c - 48) <$> s).
Proof. intros H. apply Forall_fmap. eapply Forall_impl; [done|]. unfold decimal_digit, is_digit. cbn. lia. Qed.
Lemma dec_value_range s : Forall decimal_digit s → 0 ≤ dec_value s < 10 ^ len s.
Proof.
  intros H%dec_digits_range. unfold dec_value. pose proof (undigits_range (b := 10) ltac:(lia) _ H) as R.
  unfold len in *. by rewrite length_fmap in R.
Qed.

Lemma dec_value_cons c s : dec_value (c :: s) = (c - 48) * 10 ^ len s + dec_value s.
Proof. unfold dec_value. rewrite fmap_cons, undigits_cons. unfold len. by rewrite length_fmap. Qed.
Lemma dec_value_snoc s c : dec_value (s ++ [c]) = 10 * dec_value s + (c - 48).
Proof. unfold dec_value. rewrite fmap_app. apply undigits_snoc. Qed.
Lemma hex_value_cons c s : hex_value (c :: s) = hex_digit_value c * 16 ^ len s + hex_value s.
Proof. unfold hex_value. rewrite fmap_cons, undigits_cons. unfold len. by rewrite length_fmap. Qed.
Lemma hex_value_snoc s c : hex_value (s ++ [c]) = 16 * hex_value s + hex_digit_value c.
Proof. unfold hex_value. rewrite fmap_app. apply undigits_snoc. Qed.
Lemma hex_value_nonneg s : Forall hex_digit s → 0 ≤ hex_value s.
Proof.
  induction 1 as [|c s Hc _ IH]; [done|]. rewrite hex_value_cons.
  pose proof (hex_digit_value_range c Hc). pose proof (Z.pow_nonneg 16 (len s)). nia.
Qed.

(** ** Decimal *)

Lemma no_overflow_digits s n : Forall decimal_digit s → 0 ≤ n →
  n * 10 ^ len s + dec_value s ≤ UINT64_MAX → no_overflow_loop s n = Some (n * 10 ^ len s + dec_value s).
Proof.
  intros Hs. revert n. induction Hs as [|c s Hc Hs IH]; intros n Hn Hmax; cbn [no_overflow_loop].
  { f_equal. change (len (@nil Z)) with 0. change (dec_value []) with 0. lia. }
  rewrite dec_value_cons, len_cons, Z.pow_add_r in * by len_lia. chars.
  pose proof (dec_value_range s Hs) as Hv. assert (0 < 10 ^ len s) by (apply Z.pow_pos_nonneg; len_lia).
  unfold decimal_digit in Hc. assert (10 * n + (c - 48) ≤ UINT64_MAX) by nia.
  destruct (Z.ltb_spec c 48), (Z.ltb_spec 57 c); try lia. cbn [orb].
  unfold u64, UINT64_MAX in *. rewrite (Z.mod_small (10 * n)), Z.mod_small by lia.
  rewrite IH by lia. f_equal. lia.
Qed.
Lemma no_overflow_other s n : ¬ Forall decimal_digit s → no_overflow_loop s n = None.
Proof.
  revert n. induction s as [|c s IH]; intros n Hs; cbn [no_overflow_loop]; [by destruct Hs|]. chars.
  destruct (Z.ltb_spec c 48), (Z.ltb_spec 57 c); try done. cbn [orb]. apply IH.
  intros ?. destruct Hs. constructor; [|done]. unfold decimal_digit. lia.
Qed.

Lemma skip_zeros_spec s : len (skip_zeros s) ≤ len s ∧ head (skip_zeros s) ≠ Some 48 ∧
  (Forall decimal_digit (skip_zeros s) ↔ Forall decimal_digit s) ∧
  dec_value (skip_zeros s) = dec_value s.
Proof.
  induction s as [|c s (Hl & Hh & Hd & Hv)]; [done|]. cbn [skip_zeros]. chars.
  destruct (Z.eqb_spec c 48) as [->|Hc].
  - rewrite len_cons. split_and!; [lia|done| |].
    + rewrite Forall_cons, Hd. unfold decimal_digit at 2. intuition lia.
    + rewrite Hv, dec_value_cons. lia.
  - split_and!; [done|by intros [= ?]|done|done].
Qed.

Lemma memcmp_shift (f : Z → Z) l k : (∀ x y, B_COMPARE (f x) (f y) = B_COMPARE x y) →
  memcmp (f <$> l) (f <$> k) = memcmp l k.
Proof.
  intros Hf. revert k. induction l as [|a l IH]; intros [|b k]; [done..|]. rewrite !fmap_cons. cbn [memcmp].
  rewrite IH, Hf. destruct (Z.eqb_spec a b) as [->|Hab]; [by rewrite Z.eqb_refl|].
  destruct (Z.eqb_spec (f a) (f b)) as [E|]; [|done]. pose proof (Hf a b) as H. rewrite E in H.
  destruct (B_COMPARE_spec (f b) (f b)) as [?|[?|?]], (B_COMPARE_spec a b) as [?|[?|?]]; lia.
Qed.

Lemma overflow_test s : Forall decimal_digit s → head s ≠ Some 48 →
  (len parse_number__uintmax_max_str <? len s) ||
    ((len s =? len parse_number__uintmax_max_str) && (0 <? memcmp s parse_number__uintmax_max_str)) =
  (UINT64_MAX <? dec_value s).
Proof.
  intros Hs Hh. pose proof (dec_value_range s Hs) as Hv.
  change (len parse_number__uintmax_max_str) with 20.
  destruct (Z.ltb_spec 20 (len s)) as [Hl|Hl]; cbn [orb].
  { symmetry. apply Z.ltb_lt. destruct s as [|c s]; [done|]. apply Forall_cons in Hs as [Hc Hs].
    rewrite dec_value_cons, len_cons in *. pose proof (dec_value_range s Hs).
    assert (10 ^ 20 ≤ 10 ^ len s) by (apply Z.pow_le_mono_r; lia).
    unfold decimal_digit in Hc. assert (c ≠ 48) by (by intros ->). unfold UINT64_MAX. nia. }
  destruct (Z.eqb_spec (len s) 20) as [El|El]; cbn [andb].
  - rewrite <- (memcmp_shift (λ c, c - 48)).
    2:{ intros x y. unfold B_COMPARE.
        destruct (Z.ltb_spec x y), (Z.ltb_spec y x), (Z.ltb_spec (x - 48) (y - 48)),
          (Z.ltb_spec (y - 48) (x - 48)); lia. }
    rewrite (memcmp_undigits (b := 10)); [|lia| |by apply dec_digits_range|].
    + change (undigits 10 ((λ c, c - 48) <$> parse_number__uintmax_max_str)) with UINT64_MAX.
      fold (dec_value s). destruct (B_COMPARE_spec (dec_value s) UINT64_MAX) as [[? ->]|[[? ->]|[? ->]]];
        symmetry; [apply Z.ltb_ge|apply Z.ltb_ge|apply Z.ltb_lt]; lia.
    + rewrite !length_fmap. unfold len in El. cbn. lia.
    + apply dec_digits_range. apply (bool_decide_unpack _). by vm_compute.
  - symmetry. apply Z.ltb_ge. assert (10 ^ len s ≤ 10 ^ 19) by (apply Z.pow_le_mono_r; lia).
    unfold UINT64_MAX. lia.
Qed.

Lemma parse_unsigned_digits s : is_decimal s → dec_value s ≤ UINT64_MAX →
  parse_unsigned_integer_bin s = Some (dec_value s).
Proof.
  intros [Hne Hs] Hv. unfold parse_unsigned_integer_bin. destruct s as [|c s]; [done|].
  destruct (Z.eqb_spec (len (c :: s)) 0) as [H|_]; [rewrite len_cons in H; len_lia|].
  destruct (skip_zeros_spec (c :: s)) as (_ & Hh & Hd & <-). apply Hd in Hs.
  rewrite overflow_test by done. destruct (skip_zeros_spec (c :: s)) as (_ & _ & _ & E).
  rewrite E. destruct (Z.ltb_spec UINT64_MAX (dec_value (c :: s))); [lia|]. unfold parse__no_overflow.
  rewrite no_overflow_digits; [by rewrite Z.mul_0_l, Z.add_0_l, E|done|done|]. rewrite E. lia.
Qed.

(** The parser accepts exactly the numbers below 2^64. *)
Lemma parse_unsigned_spec s v :
  parse_unsigned_integer_bin s = Some v ↔ is_decimal s ∧ dec_value s = v ∧ v ≤ UINT64_MAX.
Proof.
  split; [|intros (Hs & <- & Hv); by apply parse_unsigned_digits].
  unfold parse_unsigned_integer_bin. destruct s as [|c s]; [done|].
  destruct (len (c :: s) =? 0); [done|]. destruct (skip_zeros_spec (c :: s)) as (_ & Hh & Hd & Hv).
  set (z := skip_zeros (c :: s)) in *. destruct (decide (Forall decimal_digit z)) as [Hz|Hz].
  2:{ unfold parse__no_overflow. rewrite (no_overflow_other z) by done. by case_match. }
  rewrite overflow_test by done. destruct (Z.ltb_spec UINT64_MAX (dec_value z)); [done|].
  unfold parse__no_overflow. rewrite no_overflow_digits by (done || lia).
  rewrite Z.mul_0_l, Z.add_0_l, Hv in *. intros [= <-]. split; [split; [done|by apply Hd]|lia].
Qed.

(** ** Hexadecimal *)

Lemma hex_loop_spec s n v : 0 ≤ n ≤ UINT64_MAX →
  hex_loop s n = Some v ↔ Forall hex_digit s ∧ v = n * 16 ^ len s + hex_value s ∧ v ≤ UINT64_MAX.
Proof.
  revert n. induction s as [|c s IH]; intros n Hn; cbn [hex_loop].
  { rewrite len_nil. change (hex_value []) with 0. split; [intros [= <-]; split_and!; [done|lia..]|].
    intros (_ & -> & _). f_equal. lia. }
  rewrite decode_hex_digit_spec, hex_value_cons, len_cons, Z.pow_add_r, Forall_cons by len_lia.
  assert (0 < 16 ^ len s) by (apply Z.pow_pos_nonneg; len_lia).
  case_decide as Hc; cycle 1.
  { cbn. split; [done|]. by intros [[??] _]. }
  pose proof (hex_digit_value_range c Hc). destruct (Z.ltb_spec (hex_digit_value c) 0); [lia|].
  assert (Forall hex_digit s → 0 ≤ hex_value s) as Hs by apply hex_value_nonneg.
  change (UINT64_MAX / 16) with 1152921504606846975. unfold UINT64_MAX in *.
  destruct (Z.ltb_spec 1152921504606846975 n).
  { split; [done|]. intros ([_ ?%Hs] & -> & ?). nia. }
  unfold u64. rewrite (Z.mod_small (n * 16)) by lia.
  destruct (Z.ltb_spec (18446744073709551615 - n * 16) (hex_digit_value c)).
  { split; [done|]. intros ([_ ?%Hs] & -> & ?). nia. }
  rewrite Z.mod_small by lia. rewrite IH by lia.
  replace (n * (16 ^ 1 * 16 ^ len s)) with (n * 16 * 16 ^ len s) by lia.
  rewrite Z.mul_add_distr_r, Z.add_assoc. naive_solver.
Qed.

Lemma parse_hex_spec s v :
  parse_unsigned_hex_integer_bin s = Some v ↔ is_hex s ∧ hex_value s = v ∧ v ≤ UINT64_MAX.
Proof.
  unfold parse_unsigned_hex_integer_bin, is_hex. destruct s as [|c s]; [naive_solver|].
  destruct (Z.eqb_spec (len (c :: s)) 0) as [H|_]; [rewrite len_cons in H; len_lia|].
  rewrite hex_loop_spec by (unfold UINT64_MAX; lia). rewrite Z.mul_0_l, Z.add_0_l. naive_solver.
Qed.

(** ** Signed *)

Lemma parse_signmag_spec s sign mag :
  parse_signmag_integer_bin s = Some (sign, mag) ↔
    is_decimal s ∧ sign = 1 ∧ dec_value s = mag ∧ mag ≤ UINT64_MAX ∨
    ∃ t, (s = chr "+" :: t ∧ sign = 1 ∨ s = chr "-" :: t ∧ sign = -1) ∧
      is_decimal t ∧ dec_value t = mag ∧ mag ≤ UINT64_MAX.
Proof.
  assert (∀ t n, match parse_unsigned_integer_bin t with Some m => Some (n, m) | None => None end = Some (sign, mag) ↔
    is_decimal t ∧ sign = n ∧ dec_value t = mag ∧ mag ≤ UINT64_MAX) as Hp.
  { intros t n. destruct (parse_unsigned_integer_bin t) as [m|] eqn:E.
    - apply parse_unsigned_spec in E as (Ht & <- & Hm). split; [by intros [= <- <-]|by intros (_ & -> & <- & _)].
    - split; [done|]. intros (Ht & -> & Hm). by rewrite (proj2 (parse_unsigned_spec t mag)) in E. }
  unfold parse_signmag_integer_bin. destruct s as [|c t].
  { rewrite Hp. split; [by left|]. intros [?|(t & [[? _]|[? _]] & _)]; [done|done|done]. }
  chars. assert (∀ c, is_decimal (c :: t) → 48 ≤ c ≤ 57) as Hd by (by intros d [_ [? _]%Forall_cons]).
  destruct (Z.eqb_spec c 43) as [->|H43]; cbn [orb].
  { rewrite Hp. split; [intros (? & -> & ?); right; exists t; split; [by left|done]|].
    intros [[?%Hd _]|(t' & [[[= ->] ->]|[[=] _]] & ?)]; [lia|naive_solver]. }
  destruct (Z.eqb_spec c 45) as [->|H45]; cbn [orb]; rewrite Hp.
  - split; [intros (? & -> & ?); right; exists t; split; [by right|done]|].
    intros [[?%Hd _]|(t' & [[[=] _]|[[= ->] ->]] & ?)]; [lia|naive_solver].
  - split; [by left|]. intros [?|(t' & [[[= ->] _]|[[= ->] _]] & _)]; done.
Qed.

(** ** Printing *)

Lemma fmap_id_on {A} (f : A → A) l : Forall (λ x, f x = x) l → f <$> l = l.
Proof. induction 1 as [|x l Hx _ IH]; [done|]. by rewrite fmap_cons, Hx, IH. Qed.

Lemma print_decimal_spec x : is_u64 x →
  is_decimal (print_decimal x) ∧ dec_value (print_decimal x) = x ∧
  (∀ k, 1 ≤ k → x < 10 ^ k → len (print_decimal x) ≤ k) ∧
  (head (print_decimal x) = Some 48 → print_decimal x = [48]).
Proof.
  intros Hx. destruct (digits_spec (b := 10) ltac:(lia) x Hx) as (Hv & Hd & Hl & Hne & Hh).
  unfold print_decimal. split_and!; [split| | |].
  - by intros ?%fmap_nil_inv.
  - apply Forall_fmap. eapply Forall_impl; [done|]. unfold is_digit, decimal_digit, decimal_char. cbn. chars. lia.
  - unfold dec_value. rewrite <- list_fmap_compose, fmap_id_on; [done|].
    apply Forall_true. intros d. unfold compose, decimal_char. chars. lia.
  - intros k Hk Hxk. unfold len. rewrite length_fmap. by apply Hl.
  - intros Hc. rewrite Hh; [done|]. destruct (digits 10 x) as [|d ds]; [done|]. cbn in *.
    unfold decimal_char in Hc. chars. injection Hc as Hc. f_equal. lia.
Qed.

Lemma hex_char_digit d : 0 ≤ d < 16 → hex_digit (hex_char d) ∧ hex_digit_value (hex_char d) = d.
Proof.
  intros. unfold hex_digit_value, hex_digit, hex_char. chars.
  destruct (Z.ltb_spec d 10); repeat (case_match; bool_to_prop); lia.
Qed.
Lemma print_hex_spec x : is_u64 x →
  is_hex (print_hex x) ∧ hex_value (print_hex x) = x ∧
  (∀ k, 1 ≤ k → x < 16 ^ k → len (print_hex x) ≤ k).
Proof.
  intros Hx. destruct (digits_spec (b := 16) ltac:(lia) x Hx) as (Hv & Hd & Hl & Hne & Hh).
  unfold print_hex. split_and!; [split| |].
  - by intros ?%fmap_nil_inv.
  - apply Forall_fmap. eapply Forall_impl; [done|]. intros d ?. by apply hex_char_digit.
  - unfold hex_value. rewrite <- list_fmap_compose, fmap_id_on; [done|].
    eapply Forall_impl; [done|]. intros d ?. by apply hex_char_digit.
  - intros k Hk Hxk. unfold len. rewrite length_fmap. by apply Hl.
Qed.

Lemma decimal_size_digits rounds size x : 0 ≤ x < 10 ^ Z.of_nat (S rounds) →
  decimal_size_loop (S rounds) size x = Some (size + len (to_digits (S rounds) 10 x [])).
Proof.
  revert size x. induction rounds as [|rounds IH]; intros size x Hx.
  { change (Z.of_nat 1) with 1 in Hx. cbn [decimal_size_loop to_digits].
    rewrite (Z.div_small x 10) by lia. done. }
  remember (S rounds) as r. cbn [decimal_size_loop to_digits]. rewrite Nat2Z.inj_succ, Z.pow_succ_r in Hx by lia.
  assert (0 ≤ x / 10 < 10 ^ Z.of_nat r) by (split; [apply Z.div_pos; lia|apply Z.div_lt_upper_bound; lia]).
  destruct (Z.ltb_spec 0 (x / 10)), (Z.eqb_spec (x / 10) 0); try lia; [|done].
  subst r. rewrite IH by done. rewrite (to_digits_acc _ _ [x mod 10]), len_app.
  change (len [x mod 10]) with 1. f_equal. lia.
Qed.

Lemma store_at pre m post c : store (len pre) c (pre ++ m :: post) = Some (pre ++ c :: post).
Proof.
  unfold store. destruct (Z.leb_spec 0 (len pre)); [|len_lia].
  destruct (Z.ltb_spec (len pre) (len (pre ++ m :: post))) as [|H']; cbn [andb].
  - unfold len. rewrite Nat2Z.id. by rewrite insert_app_r_alt, Nat.sub_diag by done.
  - rewrite len_app, len_cons in H'. len_lia.
Qed.

Lemma decimal_loop_digits rounds x pre mid post : 0 ≤ x < 10 ^ Z.of_nat (S rounds) →
  len mid = len (to_digits (S rounds) 10 x []) →
  decimal_loop (S rounds) x (len pre + len mid) (pre ++ mid ++ post) =
    Some (pre ++ (decimal_char <$> to_digits (S rounds) 10 x []) ++ post).
Proof.
  revert x mid post. induction rounds as [|rounds IH]; intros x mid post Hx Hm.
  { change (Z.of_nat 1) with 1 in Hx. cbn [decimal_loop to_digits] in *.
    rewrite (Z.div_small x 10) in * by lia. cbn [Z.eqb] in *.
    destruct mid as [|m [|??]]; try discriminate Hm; [|rewrite !len_cons, len_nil in Hm; len_lia].
    change (len [m]) with 1. replace (len pre + 1 - 1) with (len pre) by lia. change ([m] ++ post) with (m :: post). by rewrite store_at. }
  remember (S rounds) as r. cbn [decimal_loop to_digits] in *. rewrite Nat2Z.inj_succ, Z.pow_succ_r in Hx by lia.
  assert (0 ≤ x / 10 < 10 ^ Z.of_nat r) by (split; [apply Z.div_pos; lia|apply Z.div_lt_upper_bound; lia]).
  assert (mid ≠ []) as Hne.
  { intros ->. case_match; [done|]. rewrite to_digits_acc, len_app in Hm. cbn in Hm.
    pose proof (len_nonneg (to_digits r 10 (x / 10) [])). change (len [x mod 10]) with 1 in Hm. rewrite len_nil in Hm. lia. }
  destruct (exists_last Hne) as (mid' & m & ->). rewrite len_app in *. change (len [m]) with 1 in *.
  replace (len pre + (len mid' + 1) - 1) with (len (pre ++ mid')) by (rewrite len_app; lia).
  replace (pre ++ (mid' ++ [m]) ++ post) with ((pre ++ mid') ++ m :: post) by (by rewrite <- !app_assoc).
  rewrite store_at. destruct (Z.ltb_spec 0 (x / 10)), (Z.eqb_spec (x / 10) 0); try lia.
  - rewrite len_app, <- app_assoc. subst r. rewrite (to_digits_acc _ _ [x mod 10]), len_app in *.
    rewrite IH by (done || (change (len [x mod 10]) with 1 in Hm; lia)).
    by rewrite fmap_app, <- app_assoc.
  - change (len [x mod 10]) with 1 in Hm. destruct mid'; [|rewrite len_cons in Hm; len_lia].
    by rewrite <- app_assoc.
Qed.

(** Printing to a buffer that is large enough writes the digits and a zero after
    them, and nothing else. *)
Lemma generate_decimal_spec x out : is_u64 x → len (print_decimal x) < len out →
  ∃ rest, generate_decimal_repr_string x out =
    Some (len (print_decimal x), print_decimal x ++ 0 :: rest) ∧
    rest = zdrop (len (print_decimal x) + 1) out.
Proof.
  intros Hx Hout.
  assert (0 ≤ x < 10 ^ Z.of_nat decimal_rounds) as Hx' by (unfold is_u64 in Hx; change (Z.of_nat decimal_rounds) with 21; lia).
  assert (to_digits decimal_rounds 10 x [] = digits 10 x) as E.
  { symmetry. apply to_digits_more; [lia|done|lia]. }
  assert (compute_decimal_repr_size x = Some (len (print_decimal x))) as Es.
  { unfold compute_decimal_repr_size, decimal_rounds. rewrite decimal_size_digits by done.
    fold decimal_rounds. rewrite E, Z.add_0_l. unfold print_decimal, len. by rewrite length_fmap. }
  set (n := len (print_decimal x)) in *. assert (0 ≤ n) by apply len_nonneg.
  exists (zdrop (n + 1) out). split; [|done]. unfold generate_decimal_repr_string, generate_decimal_repr.
  rewrite Es, bool_decide_true by done.
  assert (len (ztake n out) = n) as Et by (rewrite len_ztake; lia).
  pose proof (decimal_loop_digits 20 x [] (ztake n out) (zdrop n out) Hx') as Hloop.
  rewrite len_nil, Z.add_0_l, Et in Hloop. rewrite !app_nil_l, ztake_zdrop in Hloop.
  unfold decimal_rounds in *. rewrite Hloop.
  2:{ rewrite E. unfold n, print_decimal, len. by rewrite length_fmap. }
  rewrite E. fold (print_decimal x). destruct (zdrop n out) as [|c rest] eqn:Er.
  { assert (len (zdrop n out) = len out - n) as H' by (rewrite len_zdrop; lia). rewrite Er, len_nil in H'. lia. }
  unfold n at 1. rewrite store_at. do 4 f_equal.
  rewrite <- zdrop_zdrop, Er by lia. done.
Qed.

(** ** Texts with separators *)

Lemma span_to_spec (c : Z) (s : bytes) : 0 ≤ span_to c s ≤ len s ∧ (c ∉ ztake (span_to c s) s) ∧
  (span_to c s < len s → s = ztake (span_to c s) s ++ c :: zdrop (span_to c s + 1) s).
Proof.
  induction s as [|d s (Hl & Hc & Hs)]; cbn [span_to].
  { unfold len; cbn. split_and!; [lia|lia|apply not_elem_of_nil|lia]. }
  rewrite len_cons. destruct (Z.eqb_spec d c) as [->|Hd].
  - split_and!; [lia|len_lia|by apply not_elem_of_nil|done].
  - unfold ztake, zdrop in *. replace (Z.to_nat (1 + span_to c s)) with (S (Z.to_nat (span_to c s))) by lia.
    replace (Z.to_nat (1 + span_to c s + 1)) with (S (Z.to_nat (span_to c s + 1))) by lia. cbn [take drop].
    split_and!; [lia..|by apply not_elem_of_cons|]. intros H. cbn. f_equal. apply Hs. lia.
Qed.
Lemma span_to_app c g s : c ∉ g → span_to c (g ++ s) = len g + span_to c s.
Proof.
  induction g as [|d g IH]; [done|]. intros [Hd Hg]%not_elem_of_cons. cbn [app span_to].
  destruct (Z.eqb_spec d c) as [->|]; [done|]. rewrite IH, len_cons by done. lia.
Qed.
Lemma span_to_cons c s : span_to c (c :: s) = 0.
Proof. cbn. by rewrite Z.eqb_refl. Qed.
Lemma span_to_all c g : c ∉ g → span_to c g = len g.
Proof. intros Hg. rewrite <- (app_nil_r g) at 1. rewrite span_to_app by done. cbn. lia. Qed.

(** A text is cut at its first separator in one way only. *)
Lemma split_at {A} (c : A) g s g' s' : c ∉ g → c ∉ g' → g ++ c :: s = g' ++ c :: s' → g = g' ∧ s = s'.
Proof.
  revert g'. induction g as [|d g IH]; intros [|d' g']; cbn.
  - by intros _ _ [= ->].
  - intros _ [??]%not_elem_of_cons [= ? _]. congruence.
  - intros [??]%not_elem_of_cons _ [= ? _]. congruence.
  - intros [_ ?]%not_elem_of_cons [_ ?]%not_elem_of_cons [= -> E]. apply IH in E as [-> ->]; done.
Qed.

(** A list of values: texts for each of them, with [c] between them. *)
Inductive separated (c : Z) (P : bytes → Z → Prop) : bytes → list Z → Prop :=
  | separated_last g v : P g v → separated c P g [v]
  | separated_cons g v s vs : P g v → separated c P s vs → separated c P (g ++ c :: s) (v :: vs).

Section separated.
Context {c : Z} {P : bytes → Z → Prop} (HP : ∀ g v, P g v → c ∉ g).

Lemma separated_nonempty s vs : separated c P s vs → vs ≠ [].
Proof. by intros []. Qed.
Lemma separated_head g s vs : c ∉ g → separated c P (g ++ c :: s) vs →
  ∃ v vs', vs = v :: vs' ∧ P g v ∧ separated c P s vs'.
Proof.
  intros Hg H. inversion H as [g' v Ho E1 E2|g' v s' vs' Ho Hs E1 E2].
  - subst. apply HP in Ho as []. apply elem_of_app. right. by left.
  - apply split_at in E1 as [-> ->]; [by eauto|by eapply HP|done].
Qed.
Lemma separated_one g vs : c ∉ g → separated c P g vs → ∃ v, vs = [v] ∧ P g v.
Proof.
  intros Hg H. inversion H as [g' v Ho E1 E2|g' v s' vs' Ho Hs E1 E2]; subst; [by eauto|].
  destruct Hg. apply elem_of_app. right. by left.
Qed.
(** A text is read up to its first separator. *)
Lemma separated_cut s v vs (j := span_to c s) :
  separated c P s (v :: vs) ↔
    P (ztake j s) v ∧ if j <? len s then separated c P (zdrop (j + 1) s) vs else vs = [].
Proof.
  destruct (span_to_spec c s) as (Hj & Hc & Hsplit). fold j in Hj, Hc, Hsplit.
  destruct (Z.ltb_spec j (len s)) as [Hlt|Hge].
  - specialize (Hsplit Hlt). split; [|intros [??]; rewrite Hsplit; by constructor].
    rewrite Hsplit at 1. intros (v' & vs' & [= <- <-] & ? & ?)%separated_head; done.
  - rewrite ztake_all in * by lia. split; [|intros [? ->]; by constructor].
    intros (v' & [= -> ->] & ?)%separated_one; done.
Qed.
Lemma separated_forall (Q : Z → Prop) s vs : (∀ g v, P g v → Q v) → separated c P s vs → Forall Q vs.
Proof. intros HQ. induction 1; eauto. Qed.
(** A character of the text is the separator or one of the parts. *)
Lemma separated_chars d s vs : d ≠ c → (∀ g v, P g v → d ∉ g) → separated c P s vs → d ∉ s.
Proof.
  intros Hd HQ. induction 1 as [g v Ho|g v s vs Ho _ IH]; [by eapply HQ|].
  rewrite not_elem_of_app, not_elem_of_cons. eauto.
Qed.
End separated.

Lemma find_char_spec s c i :
  find_char_loop s c i = if span_to c s <? len s then Some (i + span_to c s) else None.
Proof.
  revert i. induction s as [|d s IH]; intros i; cbn [find_char_loop span_to]; [done|]. rewrite len_cons.
  destruct (Z.eqb_spec d c).
  - destruct (Z.ltb_spec 0 (1 + len s)); [f_equal; lia|len_lia].
  - rewrite IH. destruct (Z.ltb_spec (span_to c s) (len s)), (Z.ltb_spec (1 + span_to c s) (1 + len s)); try lia;
      [f_equal; lia|done].
Qed.

Lemma decimal_no_char c g : (c < 48 ∨ 57 < c) → is_decimal g → c ∉ g.
Proof.
  intros Hc [_ Hg] Hi. rewrite Forall_forall in Hg. apply Hg in Hi. unfold decimal_digit in Hi. lia.
Qed.

(** ** C strings *)

Definition c_string (mem s : bytes) : Prop := ∃ rest, mem = s ++ 0 :: rest ∧ 0 ∉ s.
Lemma strlen_spec mem s : c_string mem s → strlen mem = Some (len s) ∧ ztake (len s) mem = s.
Proof.
  intros (rest & -> & Hs). unfold strlen. rewrite span_to_app, span_to_cons, len_app, len_cons, Z.add_0_r by done.
  destruct (Z.ltb_spec (len s) (len s + (1 + len rest))); [|len_lia]. split; [done|apply ztake_app].
Qed.

Lemma load_at pre c s i : i = len pre → load i (pre ++ c :: s) = Some c.
Proof.
  intros ->. unfold load. rewrite len_app, len_cons.
  rewrite (proj2 (Z.leb_le _ _)), (proj2 (Z.ltb_lt _ _)) by len_lia. cbn. unfold len. rewrite Nat2Z.id.
  unfold byte_at. by rewrite nth_middle.
Qed.

Lemma memmove_ok dst src n mem : 0 ≤ n → 0 ≤ dst → dst + n ≤ len mem → 0 ≤ src → src + n ≤ len mem →
  memmove dst src n mem = Some (zwrite dst (zslice src n mem) mem).
Proof. intros. unfold memmove. by rewrite !(proj2 (Z.leb_le _ _)) by done. Qed.
Lemma memset_ok dst c n mem : 0 ≤ n → 0 ≤ dst → dst + n ≤ len mem →
  memset dst c n mem = Some (zwrite dst (replicate (Z.to_nat n) c) mem).
Proof. intros. unfold memset. by rewrite !(proj2 (Z.leb_le _ _)) by done. Qed.

Lemma sprintf_at pos pre s rest : pos = len pre → len s < len rest →
  sprintf pos s (pre ++ rest) = Some (pre ++ s ++ 0 :: zdrop (len s + 1) rest).
Proof.
  intros -> Hl. unfold sprintf. rewrite len_app. destruct (Z.leb_spec (len pre + len s + 1) (len pre + len rest)); [|lia].
  f_equal. unfold zwrite. rewrite ztake_app, len_app. change (len [0]) with 1.
  rewrite <- zdrop_zdrop, zdrop_app, <- app_assoc by len_lia. done.
Qed.
(** Enough room: the buffer then holds the text. *)
Lemma sprintf_fits s buf : 0 ∉ s → len s < len buf →
  ∃ buf', sprintf 0 s buf = Some buf' ∧ c_string buf' s ∧ len buf' = len buf.
Proof.
  intros Hs Hl. pose proof (sprintf_at 0 [] s buf eq_refl Hl) as E. eexists. split; [exact E|]. split; [by eexists|].
  rewrite app_nil_l, len_app, len_cons, len_zdrop by len_lia. lia.
Qed.
End ParseNumberFacts.

(** * Results *)
Module ParseNumberTheorems.
Export ParseNumberFacts.

(** C31: Texts are read as numbers exactly if they are made of one or more digits
    (after a sign, where signs are allowed) and the number fits into 64 bits; the
    value is then that of the digits. In particular every overflow is detected, also
    behind leading zeros, and by the decimal parser before the characters have been
    looked at. *)
Theorem numbers_parsed_exactly s v :
  (parse_unsigned_integer_bin s = Some v ↔ is_decimal s ∧ dec_value s = v ∧ v ≤ UINT64_MAX) ∧
  (parse_unsigned_hex_integer_bin s = Some v ↔ is_hex s ∧ hex_value s = v ∧ v ≤ UINT64_MAX) ∧
  (∀ sign, parse_signmag_integer_bin s = Some (sign, v) ↔
    ∃ t, (s = t ∧ sign = 1 ∨ s = chr "+" :: t ∧ sign = 1 ∨ s = chr "-" :: t ∧ sign = -1) ∧
      is_decimal t ∧ dec_value t = v ∧ v ≤ UINT64_MAX).
Proof.
  split_and!; [apply parse_unsigned_spec|apply parse_hex_spec|]. intros sign. rewrite parse_signmag_spec.
  split; [intros [?|(t & ? & ?)]; [exists s|exists t]; naive_solver|]. naive_solver.
Qed.

(** A 64-bit number printed to a buffer of 21 bytes is terminated by a zero, has
    no leading zeros and leaves the rest of the buffer alone; parsing the text gives
    the number back. *)
Theorem decimal_roundtrip x out : is_u64 x → 21 ≤ len out →
  ∃ n out' t, generate_decimal_repr_string x out = Some (n, out') ∧
    out' = t ++ 0 :: zdrop (n + 1) out ∧ len t = n ∧ 1 ≤ n ≤ 20 ∧ (head t = Some (chr "0") → t = str "0") ∧
    parse_unsigned_integer out' = Some (Some x).
Proof.
  intros Hx Hout. destruct (print_decimal_spec x Hx) as (Hd & Hv & Hl & Hh).
  assert (len (print_decimal x) ≤ 20) as H20 by (apply Hl; [lia|]; unfold is_u64 in Hx; lia).
  destruct (generate_decimal_spec x out Hx) as (rest & E & ->); [lia|].
  assert (1 ≤ len (print_decimal x)) as H1.
  { destruct Hd as [Hne _]. destruct (print_decimal x); [done|]. rewrite len_cons. len_lia. }
  eexists _, _, _. split_and!; [exact E|done|done|done|done|exact Hh|].
  unfold parse_unsigned_integer. destruct (strlen_spec (print_decimal x ++ 0 :: zdrop (len (print_decimal x) + 1) out) (print_decimal x)) as [-> E'].
  { eexists. split; [done|]. apply decimal_no_char; [lia|done]. }
  cbn [mbind option_bind]. rewrite E'. f_equal. apply parse_unsigned_spec. split_and!; [done..|].
  unfold is_u64, UINT64_MAX in *. lia.
Qed.
Lemma decimal_roundtrip_witness : is_u64 18446744073709551615 ∧
  ∃ n out' t, generate_decimal_repr_string 18446744073709551615 (replicate 24 7) = Some (n, out') ∧
    out' = t ++ 0 :: zdrop (n + 1) (replicate 24 7) ∧ len t = n ∧ 1 ≤ n ≤ 20 ∧ (head t = Some (chr "0") → t = str "0") ∧
    parse_unsigned_integer out' = Some (Some 18446744073709551615).
Proof. split; [done|]. by apply (decimal_roundtrip 18446744073709551615 (replicate 24 7)). Defined.
End ParseNumberTheorems.
