(* ===== verification/IpAddr.v ===== *)
(** IPv4 addresses as text (misc/ipaddr.h): parsing and printing of addresses,
    prefixes and interface addresses, network masks. *)
From Stdlib Require Import Ascii String.
From S2P Require Import Prelude Misc TreeInterface BAddr ParseNumber.

(** * misc/ipaddr.h *)
Module IpAddr.
Export ParseNumber.

Record ipv4_ifaddr := MkIpv4Ifaddr { addr : Z; prefix : Z }.
#[export] Instance ipv4_ifaddr_eta : Eta ipv4_ifaddr := λ r, MkIpv4Ifaddr (addr r) (prefix r).

Definition IPADDR_PRINT_MAX : Z := 19.

(** The loop of [ipaddr_parse_ipv4_addr_bin], whose inner loop over [name[j]]
    stops at the first dot; [out] is the memory of the address.
    [None]: the loop goes on for too long, or stores outside of the address. *)
Fixpoint ipv4_loop (rounds : nat) (i : Z) (name out : bytes) : option (bool * bytes) :=
  match rounds with
  | O => None
  | S rounds =>
      let j := span_to "."%char name in
      if ((j =? len name) && (i <? 3)) || ((j <? len name) && (i =? 3)) then Some (false, out) else
      if (j <? 1) || (3 <? j) then Some (false, out) else
      match parse_unsigned_integer_bin (ztake j name) with
      | None => Some (false, out)
      | Some d =>
          if 255 <? d then Some (false, out) else
          match store i (u8 d) out with
          | None => None
          | Some out =>
              if i =? 3 then Some (true, out) else ipv4_loop rounds (i + 1) (zdrop (j + 1) name) out
          end
      end
  end.
(** The result, and the address with what has been stored in it. *)
Definition ipaddr_parse_ipv4_addr_bin (name : bytes) (out_addr : Z) : option (bool * Z) :=
  match ipv4_loop 4 0 name (mem32 out_addr) with
  | None => None
  | Some (ret, out) => Some (ret, le_val out)
  end.
Definition ipaddr_parse_ipv4_addr (name : bytes) (out_addr : Z) : option (bool * Z) :=
  n ← strlen name; ipaddr_parse_ipv4_addr_bin (ztake n name) out_addr.

Definition ipaddr_parse_ipv4_prefix_bin (s : bytes) : option Z :=
  match parse_unsigned_integer_bin s with
  | None => None
  | Some d => if 32 <? d then None else Some d
  end.
Definition ipaddr_parse_ipv4_prefix (s : bytes) : option (option Z) :=
  n ← strlen s; Some (ipaddr_parse_ipv4_prefix_bin (ztake n s)).

Definition ipaddr_parse_ipv4_ifaddr_bin (s : bytes) (out : ipv4_ifaddr) : option (bool * ipv4_ifaddr) :=
  match b_find_char_bin s "/"%char with
  | None => Some (false, out)
  | Some slash_pos =>
      match ipaddr_parse_ipv4_addr_bin (ztake slash_pos s) (addr out) with
      | None => None
      | Some (ret, a) =>
          let out := out <| addr := a |> in
          if ret : bool then
            match ipaddr_parse_ipv4_prefix_bin (zdrop (slash_pos + 1) s) with
            | None => Some (false, out)
            | Some p => Some (true, out <| prefix := p |>)
            end
          else Some (false, out)
      end
  end.
Definition ipaddr_parse_ipv4_ifaddr (s : bytes) (out : ipv4_ifaddr) : option (bool * ipv4_ifaddr) :=
  n ← strlen s; ipaddr_parse_ipv4_ifaddr_bin (ztake n s) out.

(** [t |= 1 << (32 - i - 1)]: the [int] bit becomes a [uint32_t]. *)
Definition set_mask_bit (t i : Z) : Z := Z.lor t (u32 (s32 (Z.shiftl 1 (32 - i - 1)))).

Fixpoint mask_loop (rounds : nat) (i t : Z) : Z :=
  match rounds with O => t | S rounds => mask_loop rounds (i + 1) (set_mask_bit t i) end.
Definition ipaddr_ipv4_mask_from_prefix (prefix : Z) : option Z :=
  ASSERT_ (0 <=? prefix);
  ASSERT_ (prefix <=? 32);
  Some (hton32 (mask_loop (Z.to_nat prefix) 0 0)).

(** The loop [for (i = 0; i <= 32; i++)]: where it breaks off, if it does. *)
Fixpoint prefix_loop (rounds : nat) (mask i t : Z) : option Z :=
  match rounds with
  | O => None
  | S rounds =>
      if ntoh32 mask =? t then Some i else
      prefix_loop rounds mask (i + 1) (if i <? 32 then set_mask_bit t i else t)
  end.
Definition ipaddr_ipv4_prefix_from_mask (mask : Z) : option Z := prefix_loop 33 mask 0 0.

Definition ipaddr_ipv4_ifaddr_from_addr_mask (address mask : Z) : option ipv4_ifaddr :=
  match ipaddr_ipv4_prefix_from_mask mask with
  | None => None
  | Some p => Some (MkIpv4Ifaddr address p)
  end.

Definition ipaddr_ipv4_addrs_in_network (addr1 addr2 netprefix : Z) : option bool :=
  ASSERT_ (0 <=? netprefix);
  ASSERT_ (netprefix <=? 32);
  match ipaddr_ipv4_mask_from_prefix netprefix with
  | None => None
  | Some mask => Some (Z.land addr1 mask =? Z.land addr2 mask)
  end.

(** ["%"PRIu8".%"PRIu8".%"PRIu8".%"PRIu8] on the bytes of an address. *)
Definition format_ipv4 (a : Z) : bytes :=
  print_decimal (mem_byte a 0) ++ chr "." :: print_decimal (mem_byte a 1) ++ chr "." ::
  print_decimal (mem_byte a 2) ++ chr "." :: print_decimal (mem_byte a 3).
Definition ipaddr_print_addr (address : Z) (out : bytes) : option bytes := sprintf 0 (format_ipv4 address) out.
Definition ipaddr_print_ifaddr (ifaddr : ipv4_ifaddr) (out : bytes) : option bytes :=
  ASSERT_ (0 <=? prefix ifaddr);
  ASSERT_ (prefix ifaddr <=? 32);
  sprintf 0 (format_ipv4 (addr ifaddr) ++ chr "/" :: print_decimal (prefix ifaddr)) out.
End IpAddr.

(** * The grammar of addresses *)
Module IpAddrFacts.
Export IpAddr ParseNumberFacts.

(** A number of one to three digits up to 255. *)
Definition octet (g : bytes) (v : Z) : Prop := is_decimal g ∧ len g ≤ 3 ∧ dec_value g = v ∧ v ≤ 255.
Definition octets : bytes → list Z → Prop := separated (chr ".") octet.
(** The bytes of the address that a text denotes. *)
Definition ipv4_text (s : bytes) (a : Z) : Prop := octets s (mem32 a) ∧ is_u32 a.

(** ** Parsing *)

Lemma octet_no_dot g v : octet g v → chr "." ∉ g.
Proof. intros [Hg _]. apply decimal_no_char; [|done]. chars. lia. Qed.
Lemma octet_parse g v : octet g v ↔
  1 ≤ len g ≤ 3 ∧ parse_unsigned_integer_bin g = Some v ∧ v ≤ 255.
Proof.
  unfold octet. rewrite parse_unsigned_spec. unfold is_decimal, UINT64_MAX. split.
  - intros ([Hne ?] & ? & ? & ?). split_and!; try done; [|lia]. destruct g; [done|]. rewrite len_cons. len_lia.
  - by intros ([??] & ([??] & ? & ?) & ?).
Qed.

(** What the loop does with [rounds + 1] numbers left to read: it accepts exactly
    the texts of that many numbers, and stores them. *)
Definition loop_result (rounds : nat) (name out : bytes) (r : option (bool * bytes)) : Prop :=
  ∃ ret out', r = Some (ret, out') ∧ length out' = 4%nat ∧
    (ret = true → ∃ vs, out' = take (3 - rounds) out ++ vs ∧ octets name vs ∧ length vs = S rounds) ∧
    (∀ vs, octets name vs → length vs = S rounds → ret = true ∧ out' = take (3 - rounds) out ++ vs).

Lemma loop_rejects rounds name out : length out = 4%nat →
  (∀ vs, octets name vs → length vs = S rounds → False) → loop_result rounds name out (Some (false, out)).
Proof. intros Ho H. exists false, out. split_and!; [done..|]. intros vs H1 H2. by destruct (H vs). Qed.

Lemma octets_cons_length name vs rounds : octets name vs → length vs = S rounds →
  ∃ v vs', vs = v :: vs' ∧ length vs' = rounds ∧ octets name (v :: vs').
Proof. destruct vs as [|v vs]; [done|]. intros ? [= <-]. by exists v, vs. Qed.

Lemma ipv4_loop_spec rounds name out : (rounds < 4)%nat → length out = 4%nat →
  loop_result rounds name out (ipv4_loop (S rounds) (3 - Z.of_nat rounds) name out).
Proof.
  revert name out. induction rounds as [rounds IH] using lt_wf_ind. intros name out Hr Ho.
  cbn [ipv4_loop]. destruct (span_to_spec (chr ".") name) as (Hj & _ & _).
  pose proof (separated_cut octet_no_dot name) as Hcut. fold octets in Hcut. cbv zeta in Hcut. set (j := span_to (chr ".") name) in *.
  pose proof (len_ztake j name Hj) as Hlj. set (i := 3 - Z.of_nat rounds).
  destruct ((j =? len name) && (i <? 3) || (j <? len name) && (i =? 3)) eqn:Hend.
  { apply loop_rejects; [done|]. intros vs H1 H2. destruct (octets_cons_length _ _ _ H1 H2) as (v & vs' & -> & Hl & [_ H]%Hcut).
    bool_to_prop. destruct (Z.ltb_spec j (len name)); destruct Hend; bool_to_prop; try lia.
    - apply separated_nonempty in H. destruct vs'; [done|]. cbn in Hl. lia.
    - subst vs'. cbn in Hl. lia. }
  assert (∀ v, octet (ztake j name) v ↔ 1 ≤ j ≤ 3 ∧ parse_unsigned_integer_bin (ztake j name) = Some v ∧ v ≤ 255)
    as Hoct by (intros v; by rewrite octet_parse, Hlj).
  assert (∀ vs, octets name vs → length vs = S rounds → ∃ v, octet (ztake j name) v) as Hfirst.
  { intros vs H1 H2. destruct (octets_cons_length _ _ _ H1 H2) as (v & vs' & -> & Hl & [? _]%Hcut). eauto. }
  destruct ((j <? 1) || (3 <? j)) eqn:Hlen.
  { apply loop_rejects; [done|]. intros vs H1 H2. destruct (Hfirst vs H1 H2) as (v & (? & _)%Hoct). bool_to_prop. lia. }
  destruct (parse_unsigned_integer_bin (ztake j name)) as [d|] eqn:Hd.
  2:{ apply loop_rejects; [done|]. intros vs H1 H2. by destruct (Hfirst vs H1 H2) as (v & (_ & ? & _)%Hoct). }
  destruct (Z.ltb_spec 255 d) as [Hd'|Hd'].
  { apply loop_rejects; [done|]. intros vs H1 H2. destruct (Hfirst vs H1 H2) as (v & (_ & [= ->] & ?)%Hoct). lia. }
  assert (0 ≤ d) as Hd0.
  { apply parse_unsigned_spec in Hd as ([_ H%dec_value_range] & <- & _). lia. }
  unfold store, u8. rewrite Z.mod_small by lia. replace (Z.to_nat i) with (3 - rounds)%nat by lia.
  destruct (Z.leb_spec 0 i); [|lia]. destruct (Z.ltb_spec i (len out)); [|unfold len in *; lia]. cbn [andb].
  assert (take (3 - rounds) (<[(3 - rounds)%nat:=d]> out) = take (3 - rounds) out) as Htake by (by apply take_insert_ge).
  assert (octet (ztake j name) d) as Hod by (apply Hoct; bool_to_prop; split_and!; [lia..|done|done]).
  assert (∀ v, octet (ztake j name) v → v = d) as Hod' by (by intros v (_ & [= ->] & _)%Hoct).
  destruct (Z.eqb_spec i 3) as [E3|E3].
  - (* the last number *)
    assert (rounds = 0%nat) as -> by lia. assert ((j <? len name) = false) as Hend'.
    { rewrite orb_false_iff, andb_true_r in Hend. apply Hend. }
    exists true, (<[3%nat:=d]> out). split_and!; [done|by rewrite length_insert| |].
    + intros _. exists [d]. split_and!; [|apply Hcut; by rewrite Hend'|done].
      destruct out as [|? [|? [|? [|? [|??]]]]]; done.
    + intros vs H1 H2. destruct (octets_cons_length _ _ _ H1 H2) as (v & [|??] & -> & Hl & [->%Hod' _]%Hcut); [|done].
      split; [done|]. destruct out as [|? [|? [|? [|? [|??]]]]]; done.
  - destruct rounds as [|rounds]; [lia|].
    assert ((j <? len name) = true) as Hmore.
    { rewrite orb_false_iff, (proj2 (Z.ltb_lt i 3)), andb_true_r in Hend by lia.
      destruct Hend as [?%Z.eqb_neq _]. apply Z.ltb_lt. lia. }
    rewrite Hmore in Hcut. destruct (IH rounds ltac:(lia) (zdrop (j + 1) name) (<[(3 - S rounds)%nat:=d]> out))
      as (ret & out' & E & Hl' & Hs & Hc); [lia|by rewrite length_insert|].
    replace (3 - Z.of_nat rounds) with (i + 1) in E by lia. rewrite E.
    assert (take (3 - rounds) (<[(3 - S rounds)%nat:=d]> out) = take (3 - S rounds) out ++ [d]) as Et.
    { replace (3 - rounds)%nat with (S (3 - S rounds)) by lia.
      rewrite (take_S_r _ _ d) by (apply list_lookup_insert_eq; lia). by rewrite Htake. }
    rewrite Et in Hs, Hc. exists ret, out'. split_and!; [done..| |].
    + intros (vs & -> & Hvs & Hl)%Hs. exists (d :: vs). rewrite <- app_assoc. split_and!; [done| |by cbn; f_equal].
      by apply Hcut.
    + intros vs H1 H2. destruct (octets_cons_length _ _ _ H1 H2) as (v & vs' & -> & Hl & [->%Hod' Hvs]%Hcut).
      destruct (Hc vs' Hvs Hl) as [-> ->]. by rewrite <- app_assoc.
Qed.

Lemma octets_ok s vs : octets s vs → bytes_ok vs.
Proof.
  apply separated_forall. intros g v ([_ H%dec_value_range] & _ & <- & ?). unfold is_u8. lia.
Qed.

(** Parsing succeeds exactly for the texts of addresses, and yields the address. *)
Lemma ipv4_parse_spec name old :
  ∃ ret a, ipaddr_parse_ipv4_addr_bin name old = Some (ret, a) ∧ ∀ b, ipv4_text name b ↔ ret = true ∧ a = b.
Proof.
  unfold ipaddr_parse_ipv4_addr_bin.
  destruct (ipv4_loop_spec 3 name (mem32 old)) as (ret & out & E & Hl & Hs & Hc); [lia|apply le_bytes_length|].
  change (3 - Z.of_nat 3) with 0 in E. rewrite E. exists ret, (le_val out). split; [done|].
  change (take (3 - 3) (mem32 old)) with (@nil Z) in *. intros b. split.
  - intros [Hb Hu]. destruct (Hc _ Hb) as [-> ->]; [apply le_bytes_length|]. split; [done|].
    rewrite app_nil_l. unfold mem32. rewrite le_val_bytes. apply Z.mod_small. apply Hu.
  - intros [Hret <-]. destruct (Hs Hret) as (vs & -> & Hvs & Hvl). rewrite app_nil_l in *. unfold ipv4_text, mem32.
    pose proof (octets_ok _ _ Hvs) as Hok. split; [|by pose proof (le_val_range vs Hok) as R; rewrite Hl in R].
    rewrite <- Hl, le_bytes_val; done.
Qed.

(** ** Printing *)

Lemma print_octet x : is_u8 x → octet (print_decimal x) x.
Proof.
  intros Hx. unfold is_u8 in Hx. destruct (print_decimal_spec x) as (Hd & Hv & Hl & _); [unfold is_u64; lia|].
  unfold octet. split_and!; [done|by apply Hl; lia|done|lia].
Qed.
Lemma octets_chars s vs c : c ≠ 46 → c < 48 ∨ 57 < c → octets s vs → c ∉ s.
Proof. intros H46 Hc. apply separated_chars; [done|]. intros g v [Hg _]. by eapply decimal_no_char. Qed.
Lemma octets_len s vs : octets s vs → len s + 1 ≤ 4 * len vs.
Proof.
  induction 1 as [g v (_ & H & _)|g v s vs (_ & H & _) _ IH]; [change (len [v]) with 1; lia|].
  rewrite len_app, !len_cons. lia.
Qed.

Lemma format_ipv4_text a : is_u32 a → ipv4_text (format_ipv4 a) a.
Proof.
  intros Ha. split; [|done]. rewrite mem_bytes4. unfold format_ipv4.
  repeat apply separated_cons; try apply separated_last; apply print_octet, mem_byte_u8.
Qed.
Lemma ipv4_text_len s a : ipv4_text s a → len s ≤ 15.
Proof. intros [H%octets_len _]. change (len (mem32 a)) with 4 in H. lia. Qed.

Lemma print_addr_spec a out : is_u32 a → 16 ≤ len out →
  ∃ out', ipaddr_print_addr a out = Some out' ∧ c_string out' (format_ipv4 a) ∧ len out' = len out.
Proof.
  intros Ha%format_ipv4_text Hl. apply sprintf_fits.
  - eapply octets_chars, Ha; lia.
  - apply ipv4_text_len in Ha. lia.
Qed.

(** ** Interface addresses *)

Lemma ipv4_prefix_spec s p : ipaddr_parse_ipv4_prefix_bin s = Some p ↔ is_decimal s ∧ dec_value s = p ∧ p ≤ 32.
Proof.
  unfold ipaddr_parse_ipv4_prefix_bin. pose proof (parse_unsigned_spec s) as H. unfold UINT64_MAX in H.
  destruct (parse_unsigned_integer_bin s) as [d|].
  - destruct (proj1 (H d) eq_refl) as (Hs & Hv & _). destruct (Z.ltb_spec 32 d); naive_solver lia.
  - split; [done|]. intros (Hs & Hv & Hp). apply H. split_and!; [done..|lia].
Qed.

(** An address, a slash and the length of a prefix. *)
Definition ifaddr_text (s : bytes) (i : ipv4_ifaddr) : Prop :=
  ∃ t p, s = t ++ chr "/" :: p ∧ ipv4_text t (addr i) ∧ is_decimal p ∧ dec_value p = prefix i ∧ prefix i ≤ 32.

Lemma ipv4_ifaddr_spec s old :
  ∃ ret i, ipaddr_parse_ipv4_ifaddr_bin s old = Some (ret, i) ∧ ∀ j, ifaddr_text s j ↔ ret = true ∧ i = j.
Proof.
  unfold ipaddr_parse_ipv4_ifaddr_bin, b_find_char_bin. rewrite find_char_spec, Z.add_0_l.
  destruct (span_to_spec (chr "/") s) as (Hj & Hns & Hsplit). set (n := span_to (chr "/") s) in *.
  assert (∀ j, ifaddr_text s j → n < len s ∧ ipv4_text (ztake n s) (addr j) ∧
    ipaddr_parse_ipv4_prefix_bin (zdrop (n + 1) s) = Some (prefix j)) as Htext.
  { intros j (t & p & -> & Ht & Hp). assert (chr "/" ∉ t) as Hnt by (eapply octets_chars, Ht; chars; lia).
    assert (n = len t) as -> by (unfold n; rewrite span_to_app, span_to_cons by done; lia).
    rewrite len_app, len_cons, ztake_app, <- zdrop_zdrop, zdrop_app by len_lia. change (zdrop 1 (chr "/" :: p)) with p.
    split_and!; [len_lia|done|]. by apply ipv4_prefix_spec. }
  destruct (Z.ltb_spec n (len s)) as [Hlt|Hge]; cycle 1.
  { exists false, old. split; [done|]. intros j. split; [intros (? & _)%Htext; lia|by intros [? _]]. }
  destruct (ipv4_parse_spec (ztake n s) (addr old)) as (ret & a & E & Ha). rewrite E.
  destruct ret; cycle 1.
  { eexists _, _. split; [done|]. intros j. split; [intros (_ & [? _]%Ha & _)%Htext; done|by intros [? _]]. }
  assert (ipv4_text (ztake n s) a) as Hta by by apply Ha.
  destruct (ipaddr_parse_ipv4_prefix_bin (zdrop (n + 1) s)) as [p|] eqn:Ep; cycle 1.
  { eexists _, _. split; [done|]. intros j. split; [by intros (_ & _ & ?)%Htext|by intros [? _]]. }
  eexists _, _. split; [done|]. intros j. split.
  - intros (_ & [_ ->]%Ha & [= ->])%Htext. split; [done|]. by destruct j.
  - intros [_ <-]. specialize (Hsplit Hlt). exists (ztake n s), (zdrop (n + 1) s). split_and!; [done..| | |];
      apply ipv4_prefix_spec in Ep; apply Ep.
Qed.

Lemma print_ifaddr_spec i out : is_u32 (addr i) → 0 ≤ prefix i ≤ 32 → IPADDR_PRINT_MAX ≤ len out →
  ∃ out' s, ipaddr_print_ifaddr i out = Some out' ∧ c_string out' s ∧ ifaddr_text s i ∧ len out' = len out.
Proof.
  intros Ha Hp Hl. unfold ipaddr_print_ifaddr, IPADDR_PRINT_MAX in *.
  destruct (Z.leb_spec 0 (prefix i)), (Z.leb_spec (prefix i) 32); try lia.
  apply format_ipv4_text in Ha as Ht. pose proof (ipv4_text_len _ _ Ht) as Htl.
  destruct (print_decimal_spec (prefix i)) as (Hd & Hv & Hdl & _); [unfold is_u64; lia|].
  specialize (Hdl 2 ltac:(lia) ltac:(lia)).
  destruct (sprintf_fits (format_ipv4 (addr i) ++ chr "/" :: print_decimal (prefix i)) out)
    as (out' & E & Hc & Hl').
  - rewrite not_elem_of_app, not_elem_of_cons. split_and!; [|by chars|].
    + eapply octets_chars, Ht; lia.
    + apply decimal_no_char; [lia|done].
  - rewrite len_app, len_cons. lia.
  - eexists _, _. split_and!; [exact E|exact Hc| |done]. eexists _, _. by split_and!.
Qed.

(** ** Network masks *)

(** The mask with the first [p] bits set, as a number. *)
Definition prefix_bits (p : Z) : Z := Z.shiftl (Z.ones p) (32 - p).

Lemma mask_from_prefix_spec p : 0 ≤ p ≤ 32 → ipaddr_ipv4_mask_from_prefix p = Some (hton32 (prefix_bits p)).
Proof.
  intros Hp. apply (below_dec (λ p, ipaddr_ipv4_mask_from_prefix p = Some (hton32 (prefix_bits p))) 33); [|lia].
  by vm_compute.
Qed.
Lemma prefix_bits_u32 p : 0 ≤ p ≤ 32 → is_u32 (prefix_bits p).
Proof. intros Hp. apply (below_dec (λ p, is_u32 (prefix_bits p)) 33); [|lia]. by vm_compute. Qed.
Lemma set_mask_bit_prefix p : 0 ≤ p < 32 → set_mask_bit (prefix_bits p) p = prefix_bits (p + 1).
Proof.
  intros Hp. apply (below_dec (λ p, set_mask_bit (prefix_bits p) p = prefix_bits (p + 1)) 32); [|lia].
  by vm_compute.
Qed.
(** Different prefixes have different masks: the first 0 is elsewhere. *)
Lemma prefix_bits_inj p q : 0 ≤ p ≤ 32 → 0 ≤ q ≤ 32 → prefix_bits p = prefix_bits q → p = q.
Proof.
  intros Hp Hq. assert (∀ r, 0 ≤ r ≤ 32 → r = 32 - Z.log2 (2 ^ 32 - prefix_bits r)) as H.
  { intros r Hr. apply (below_dec (λ r, r = 32 - Z.log2 (2 ^ 32 - prefix_bits r)) 33); [|lia]. by vm_compute. }
  intros E. rewrite (H p), (H q), E by done. done.
Qed.

Lemma prefix_loop_spec rounds mask i : 0 ≤ i → i + Z.of_nat rounds = 33 →
  ∀ p, prefix_loop rounds mask i (prefix_bits (Z.min i 32)) = Some p ↔ i ≤ p ≤ 32 ∧ ntoh32 mask = prefix_bits p.
Proof.
  revert i. induction rounds as [|rounds IH]; intros i Hi Hr p; cbn [prefix_loop].
  { split; [done|lia]. }
  rewrite Z.min_l by lia. destruct (Z.eqb_spec (ntoh32 mask) (prefix_bits i)) as [E|E].
  - rewrite E. split; [intros [= <-]; split; [lia|done]|]. intros [? Hb]. f_equal. apply prefix_bits_inj; [lia..|done].
  - destruct (Z.ltb_spec i 32).
    + rewrite set_mask_bit_prefix by lia. replace (i + 1) with (Z.min (i + 1) 32) at 2 by lia.
      rewrite IH by lia. split; [intros [??]; split; [lia|done]|]. intros [??]. split; [|done].
      destruct (decide (i = p)); [congruence|lia].
    + assert (rounds = 0%nat) as -> by lia. cbn. split; [done|]. intros [??]. assert (p = i) as -> by lia. done.
Qed.

(** The prefix of a mask is found exactly if the mask is that of a prefix. *)
Lemma prefix_from_mask_spec mask p : is_u32 mask →
  ipaddr_ipv4_prefix_from_mask mask = Some p ↔ ipaddr_ipv4_mask_from_prefix p = Some mask.
Proof.
  intros Hm. unfold ipaddr_ipv4_prefix_from_mask.
  pose proof (prefix_loop_spec 33 mask 0 ltac:(lia) eq_refl p) as H. change (prefix_bits (Z.min 0 32)) with 0 in H.
  rewrite H. split.
  - intros [Hp E]. rewrite mask_from_prefix_spec, <- E by done. f_equal. by apply ntoh32_hton32.
  - intros E. unfold ipaddr_ipv4_mask_from_prefix in E.
    destruct (Z.leb_spec 0 p), (Z.leb_spec p 32); try done. split; [lia|].
    pose proof (mask_from_prefix_spec p ltac:(lia)) as E'. unfold ipaddr_ipv4_mask_from_prefix in E'.
    destruct (Z.leb_spec 0 p), (Z.leb_spec p 32); try lia. rewrite E' in E. injection E as <-.
    apply ntoh32_hton32, prefix_bits_u32. lia.
Qed.

(** *** Two addresses in a network *)

Lemma le_val_land l k : bytes_ok l → bytes_ok k → length l = length k →
  le_val (zip_with Z.land l k) = Z.land (le_val l) (le_val k).
Proof.
  intros Hl. revert k. induction Hl as [|a l Ha Hl IH]; intros [|b k] Hk E; [done..|].
  apply Forall_cons in Hk as [Hb Hk]. injection E as E. cbn [zip_with le_val]. rewrite IH by done.
  assert (is_u8 (Z.land a b)) as Hab.
  { unfold is_u8 in *. rewrite <- (Z.mod_small a (2 ^ 8)), <- Z.land_ones, <- Z.land_assoc, (Z.land_comm (Z.ones 8)),
      Z.land_assoc, Z.land_ones by lia. by apply Z.mod_pos_bound. }
  assert (∀ x y, is_u8 x → x + 2 ^ 8 * y = Z.lor x (Z.shiftl y 8)) as Hlor.
  { intros x y Hx. rewrite lor_shiftl by (unfold is_u8 in Hx; lia). lia. }
  rewrite !Hlor by done. apply Z.bits_inj'. intros m Hm.
  rewrite Z.lor_spec, !Z.land_spec, !Z.lor_spec, !Z.shiftl_spec, !Z.land_spec by lia.
  destruct (Z.lt_ge_cases m 8).
  - rewrite !(Z.testbit_neg_r _ (m - 8)) by lia. cbn. by rewrite !orb_false_r.
  - assert (∀ x, is_u8 x → Z.testbit x m = false) as Hz.
    { intros x Hx. rewrite <- (Z.mod_small x (2 ^ 8)) by done. by rewrite Z.mod_pow2_bits_high by lia. }
    by rewrite !Hz.
Qed.

Lemma mem32_land x y : mem32 (Z.land x y) = zip_with Z.land (mem32 x) (mem32 y).
Proof.
  assert (∀ i, mem_byte (Z.land x y) i = Z.land (mem_byte x i) (mem_byte y i)) as H.
  { intros i. unfold mem_byte, u8. rewrite Z.shiftr_land, <- !Z.land_ones by lia. apply Z.bits_inj'. intros m Hm.
    rewrite !Z.land_spec. by destruct (Z.testbit _ m), (Z.testbit (Z.shiftr y _) m), (Z.testbit (Z.ones 8) m). }
  rewrite !mem_bytes4. cbn [zip_with]. by rewrite !H.
Qed.
Lemma ntoh32_land x y : ntoh32 (Z.land x y) = Z.land (ntoh32 x) (ntoh32 y).
Proof.
  unfold ntoh32, hton32. rewrite !reverse32_val, mem32_land.
  assert (∀ z, bytes_ok (rev (mem32 z))) as Hok by (intros z; apply Forall_rev, le_bytes_ok).
  rewrite <- le_val_land by (done || by rewrite !mem_bytes4). f_equal.
Qed.
Lemma land_u32 x y : is_u32 x → is_u32 y → is_u32 (Z.land x y).
Proof.
  intros Hx Hy. unfold is_u32 in *. rewrite <- (Z.mod_small x (2 ^ 32)), <- Z.land_ones, <- Z.land_assoc,
    (Z.land_comm (Z.ones 32)), Z.land_assoc, Z.land_ones by lia. by apply Z.mod_pos_bound.
Qed.

(** Being in the same network: agreeing on the first [p] bits. *)
Lemma addrs_in_network_spec a b p : is_u32 a → is_u32 b → 0 ≤ p ≤ 32 →
  ipaddr_ipv4_addrs_in_network a b p =
    Some (bool_decide (ntoh32 a / 2 ^ (32 - p) = ntoh32 b / 2 ^ (32 - p))).
Proof.
  intros Ha Hb Hp. unfold ipaddr_ipv4_addrs_in_network.
  destruct (Z.leb_spec 0 p), (Z.leb_spec p 32); try lia. rewrite mask_from_prefix_spec by done. f_equal.
  set (m := hton32 (prefix_bits p)). assert (is_u32 m) as Hm by apply reverse32_u32.
  assert (∀ x, is_u32 x → ntoh32 (Z.land x m) = ntoh32 x / 2 ^ (32 - p) * 2 ^ (32 - p)) as Hland.
  { intros x Hx. rewrite ntoh32_land. unfold m. rewrite ntoh32_hton32 by by apply prefix_bits_u32.
    unfold prefix_bits. replace p with (32 - (32 - p)) at 1 by lia. apply land_high; [lia|]. apply reverse32_u32. }
  apply eq_true_iff_eq. rewrite Z.eqb_eq, bool_decide_eq_true. split.
  - intros E%(f_equal ntoh32). rewrite !Hland in E by done. apply Z.mul_cancel_r in E; [done|]. lia.
  - intros E. apply ntoh32_inj; [by apply land_u32..|]. by rewrite !Hland, E.
Qed.
End IpAddrFacts.

(** * Results *)
Module IpAddrTheorems.
Export IpAddrFacts.

(** C33: The parser of IPv4 addresses accepts exactly the texts of four numbers of
    one to three digits up to 255 with dots between them, and stores their bytes;
    it never stores outside of the address. Whatever the printer writes, for every
    address and every interface address, fits the buffer it asks for and is read
    back as the same address and prefix. *)
Theorem ipv4_text_roundtrip :
  (∀ name old, ∃ ret a, ipaddr_parse_ipv4_addr_bin name old = Some (ret, a) ∧ ∀ b, ipv4_text name b ↔ ret = true ∧ a = b) ∧
  (∀ a old out, is_u32 a → 16 ≤ len out →
    ∃ out', ipaddr_print_addr a out = Some out' ∧ len out' = len out ∧ ipaddr_parse_ipv4_addr out' old = Some (true, a)) ∧
  (∀ i old out, is_u32 (addr i) → 0 ≤ prefix i ≤ 32 → IPADDR_PRINT_MAX ≤ len out →
    ∃ out', ipaddr_print_ifaddr i out = Some out' ∧ len out' = len out ∧ ipaddr_parse_ipv4_ifaddr out' old = Some (true, i)).
Proof.
  split_and!; [apply ipv4_parse_spec| |].
  - intros a old out Ha Hl. destruct (print_addr_spec a out Ha Hl) as (out' & -> & Hc & Hlen). exists out'.
    split_and!; [done..|]. unfold ipaddr_parse_ipv4_addr. destruct (strlen_spec _ _ Hc) as [-> Ez].
    cbn [mbind option_bind]. rewrite Ez. destruct (ipv4_parse_spec (format_ipv4 a) old) as (ret & b & -> & Hb).
    by destruct (proj1 (Hb a) (format_ipv4_text a Ha)) as [-> ->].
  - intros i old out Ha Hp Hl. destruct (print_ifaddr_spec i out Ha Hp Hl) as (out' & s & -> & Hc & Ht & Hlen). exists out'.
    split_and!; [done..|]. unfold ipaddr_parse_ipv4_ifaddr. destruct (strlen_spec _ _ Hc) as [-> Ez].
    cbn [mbind option_bind]. rewrite Ez. destruct (ipv4_ifaddr_spec s old) as (ret & j & -> & Hj).
    by destruct (proj1 (Hj i) Ht) as [-> ->].
Qed.
Lemma ipv4_text_roundtrip_witness :
  (∃ out', ipaddr_print_addr 16777343 (replicate 19 7) = Some out' ∧ len out' = 19 ∧
    ipaddr_parse_ipv4_addr out' 5 = Some (true, 16777343)) ∧
  (∃ out', ipaddr_print_ifaddr (MkIpv4Ifaddr 16777343 8) (replicate 19 7) = Some out' ∧ len out' = 19 ∧
    ipaddr_parse_ipv4_ifaddr out' (MkIpv4Ifaddr 5 5) = Some (true, MkIpv4Ifaddr 16777343 8)).
Proof.
  destruct ipv4_text_roundtrip as (_ & H1 & H2). split.
  - by apply (H1 16777343 5 (replicate 19 7)).
  - by apply (H2 (MkIpv4Ifaddr 16777343 8) (MkIpv4Ifaddr 5 5) (replicate 19 7)).
Defined.
End IpAddrTheorems.
