(* ===== verification/IpAddr6.v ===== *)
(** IPv6 addresses as text (misc/ipaddr6.h): the parser, with every access to the
    text and to the address, and the printer. *)
From Stdlib Require Import Ascii String.
From S2P Require Import Prelude Misc TreeInterface BAddr ParseNumber IpAddr.

(** * misc/ipaddr6.h *)
Module IpAddr6.
Export ParseNumber.

(** An address is 16 bytes. *)
Record ipv6_ifaddr := MkIpv6Ifaddr { addr : bytes; prefix : Z }.
#[export] Instance ipv6_ifaddr_eta : Eta ipv6_ifaddr := λ r, MkIpv6Ifaddr (addr r) (prefix r).

Definition IPADDR6_PRINT_MAX : Z := 44.

(** ** [ipaddr6_parse_ipv6_addr_bin]

    The local variables of the parser, and the address it writes to. *)
Record parser := MkParser {
  num_blocks : Z; compress_pos : Z; block : Z; empty : bool; out : bytes;
}.
#[export] Instance parser_eta : Eta parser := λ r,
  MkParser (num_blocks r) (compress_pos r) (block r) (empty r) (out r).

(** Stores the block that has been read and counts it. *)
Definition put_block (p : parser) : option parser :=
  out1 ← store (2 * num_blocks p + 0) (Z.shiftr (block p) 8) (out p);
  out2 ← store (2 * num_blocks p + 1) (Z.land (block p) 255) out1;
  Some (p <| out := out2 |> <| num_blocks := num_blocks p + 1 |>).

(** How a part of the parser ends: [return 0], or it goes on with the rest. *)
Inductive parsed (A : Type) := Rejected (out : bytes) | Continue (a : A).
Arguments Rejected {A} out.
Arguments Continue {A} a.

(** One round of the first loop at the character [c = name[i]] other than a dot:
    the new [i]. *)
Definition addr_round (name : bytes) (c i : Z) (p : parser) : option (parsed (Z * parser)) :=
  if c =? ":"%char then
    is_double ← (if i + 1 <? len name then d ← load (i + 1) name; Some (d =? ":"%char) else Some false);
    q ← (if 0 <? i then
           if empty p || (num_blocks p =? 7) then Some (Rejected (out p)) else
           q ← put_block p; Some (Continue (q <| block := 0 |> <| empty := true |>))
         else if negb is_double then Some (Rejected (out p)) else Some (Continue p));
    match q with
    | Rejected o => Some (Rejected o)
    | Continue q =>
        if (is_double : bool) then
          if negb (compress_pos q =? -1) then Some (Rejected (out q)) else
          Some (Continue (i + 2, q <| compress_pos := num_blocks q |>))
        else Some (Continue (i + 1, q))
    end
  else
    let digit := decode_hex_digit c in
    if digit <? 0 then Some (Rejected (out p)) else
    if UINT16_MAX / 16 <? block p then Some (Rejected (out p)) else
    let b := u16 (block p * 16) in
    if UINT16_MAX - b <? digit then Some (Rejected (out p)) else
    Some (Continue (i + 1, p <| block := u16 (b + digit) |> <| empty := false |>)).

(** The first loop: it ends at the end of the text, or at a dot ([Some i]). *)
Fixpoint addr_loop (rounds : nat) (name : bytes) (i : Z) (p : parser) :
    option (parsed (option Z * parser)) :=
  match rounds with
  | O => None
  | S rounds =>
      if i <? len name then
        c ← load i name;
        if c =? "."%char then Some (Continue (Some i, p)) else
        r ← addr_round name c i p;
        match r with
        | Rejected o => Some (Rejected o)
        | Continue (i, p) => addr_loop rounds name i p
        end
      else Some (Continue (None, p))
  end.

(** [ipv4_done]: puts the blocks after the compressed part in their place. *)
Definition ipv4_done (p : parser) : option (bool * bytes) :=
  if (compress_pos p =? -1) && negb (num_blocks p =? 8) then Some (false, out p) else
  let compress := if compress_pos p =? -1 then 0 else compress_pos p in
  let num_rear := num_blocks p - compress in
  out1 ← memmove (2 * (8 - num_rear)) (2 * compress) (2 * num_rear) (out p);
  out2 ← memset (2 * compress) 0 (2 * (8 - num_rear - compress)) out1;
  Some (true, out2).

(** [ipv4_ending]: back to where the number before the dot began. *)
Fixpoint back_loop (rounds : nat) (name : bytes) (i : Z) : option Z :=
  match rounds with
  | O => None
  | S rounds =>
      c ← load (i - 1) name;
      if c =? ":"%char then Some i else back_loop rounds name (i - 1)
  end.

(** The loop over the four numbers, with its own [bytes], [cur_byte] and [byte]. *)
Record ipv4_parser := MkIpv4Parser { quad : bytes; cur_byte : Z; byte : Z; byte_empty : bool }.
#[export] Instance ipv4_parser_eta : Eta ipv4_parser := λ r,
  MkIpv4Parser (quad r) (cur_byte r) (byte r) (byte_empty r).

(** A round of it; [Continue None] for [return 0]. *)
Definition quad_round (c : Z) (q : ipv4_parser) : option (option ipv4_parser) :=
  if c =? "."%char then
    if byte_empty q || (cur_byte q =? 3) then Some None else
    quad1 ← store (cur_byte q) (byte q) (quad q);
    Some (Some (MkIpv4Parser quad1 (cur_byte q + 1) 0 true))
  else
    if negb (byte_empty q) && (byte q =? 0) then Some None else
    let digit := decode_decimal_digit c in
    if digit <? 0 then Some None else
    if UINT8_MAX / 10 <? byte q then Some None else
    let b := u8 (byte q * 10) in
    if UINT8_MAX - b <? digit then Some None else
    Some (Some (q <| byte := u8 (b + digit) |> <| byte_empty := false |>)).
Fixpoint quad_loop (rounds : nat) (name : bytes) (i : Z) (q : ipv4_parser) : option (option ipv4_parser) :=
  match rounds with
  | O => None
  | S rounds =>
      if i <? len name then
        c ← load i name;
        r ← quad_round c q;
        match r with
        | None => Some None
        | Some q => quad_loop rounds name (i + 1) q
        end
      else Some (Some q)
  end.

(** [init] is what the uninitialised [bytes] hold. *)
Definition ipv4_ending (init name : bytes) (i : Z) (p : parser) : option (bool * bytes) :=
  if empty p || ((num_blocks p =? 0) && (compress_pos p =? -1)) then Some (false, out p) else
  i ← back_loop (S (length name)) name i;
  r ← quad_loop (S (length name)) name i (MkIpv4Parser init 0 0 true);
  match r with
  | None => Some (false, out p)
  | Some q =>
      if negb (cur_byte q =? 3) || byte_empty q then Some (false, out p) else
      quad1 ← store (cur_byte q) (byte q) (quad q);
      if 8 - num_blocks p <? 2 then Some (false, out p) else
      if 2 * num_blocks p + 4 <=? len (out p) then
        ipv4_done (p <| out := zwrite (2 * num_blocks p) quad1 (out p) |> <| num_blocks := num_blocks p + 2 |>)
      else None
  end.

(** What follows the first loop. *)
Definition addr_end (init name : bytes) (r : parsed (option Z * parser)) : option (bool * bytes) :=
  match r with
  | Rejected o => Some (false, o)
  | Continue (Some i, p) => ipv4_ending init name i p
  | Continue (None, p) =>
      if negb (empty p) then p ← put_block p; ipv4_done p
      else if negb (num_blocks p =? compress_pos p) then Some (false, out p)
      else ipv4_done p
  end.
(** The result, and the address with what has been stored in it. *)
Definition ipaddr6_parse_ipv6_addr_bin (init name out_addr : bytes) : option (bool * bytes) :=
  r ← addr_loop (S (length name)) name 0 (MkParser 0 (-1) 0 true out_addr);
  addr_end init name r.
Definition ipaddr6_parse_ipv6_addr (init name out_addr : bytes) : option (bool * bytes) :=
  n ← strlen name; ipaddr6_parse_ipv6_addr_bin init (ztake n name) out_addr.

(** ** Prefixes and networks *)

Definition ipaddr6_parse_ipv6_prefix_bin (s : bytes) : option Z :=
  match parse_unsigned_integer_bin s with
  | None => None
  | Some d => if 128 <? d then None else Some d
  end.
Definition ipaddr6_parse_ipv6_prefix (s : bytes) : option (option Z) :=
  n ← strlen s; Some (ipaddr6_parse_ipv6_prefix_bin (ztake n s)).

Definition ipaddr6_parse_ipv6_ifaddr_bin (init s : bytes) (o : ipv6_ifaddr) : option (bool * ipv6_ifaddr) :=
  match b_find_char_bin s "/"%char with
  | None => Some (false, o)
  | Some slash_pos =>
      '(ret, a) ← ipaddr6_parse_ipv6_addr_bin init (ztake slash_pos s) (addr o);
      let o := o <| addr := a |> in
      if ret : bool then
        match ipaddr6_parse_ipv6_prefix_bin (zdrop (slash_pos + 1) s) with
        | None => Some (false, o)
        | Some p => Some (true, o <| prefix := p |>)
        end
      else Some (false, o)
  end.
Definition ipaddr6_parse_ipv6_ifaddr (init s : bytes) (o : ipv6_ifaddr) : option (bool * ipv6_ifaddr) :=
  n ← strlen s; ipaddr6_parse_ipv6_ifaddr_bin init (ztake n s) o.

(** [|= (uint8_t)1 << (8 - i - 1)] for [i] from 0 to [rem - 1]. *)
Fixpoint set_bits (rounds : nat) (i t : Z) : Z :=
  match rounds with O => t | S rounds => set_bits rounds (i + 1) (u8 (Z.lor t (Z.shiftl 1 (8 - i - 1)))) end.
Fixpoint mask6_loop (rounds : nat) (quot i : Z) (mask : bytes) : option bytes :=
  match rounds with
  | O => Some mask
  | S rounds =>
      b ← load quot mask;
      mask ← store quot (u8 (Z.lor b (Z.shiftl 1 (8 - i - 1)))) mask;
      mask6_loop rounds quot (i + 1) mask
  end.
Definition ipaddr6_ipv6_mask_from_prefix (prefix : Z) (out_mask : bytes) : option bytes :=
  ASSERT_ (0 <=? prefix);
  ASSERT_ (prefix <=? 128);
  let quot := prefix / 8 in
  let rem := prefix mod 8 in
  mask ← (if 0 <? quot then memset 0 255 quot out_mask else Some out_mask);
  mask ← (if 0 <? 16 - quot then memset quot 0 (16 - quot) mask else Some mask);
  mask6_loop (Z.to_nat rem) quot 0 mask.

(** The bytes 255 at the beginning: how many. *)
Fixpoint full_loop (rounds : nat) (mask : bytes) (prefix i : Z) : option (Z * Z) :=
  match rounds with
  | O => None
  | S rounds =>
      if i <? 16 then
        b ← load i mask;
        if b =? 255 then full_loop rounds mask (prefix + 8) (i + 1) else Some (prefix, i)
      else Some (prefix, i)
  end.
Fixpoint part_loop (rounds : nat) (b j t : Z) : option Z :=
  match rounds with
  | O => None
  | S rounds =>
      if b =? t then Some j else
      part_loop rounds b (j + 1) (if j <? 8 then u8 (Z.lor t (Z.shiftl 1 (8 - j - 1))) else t)
  end.
Fixpoint zero_loop (rounds : nat) (mask : bytes) (i : Z) : option bool :=
  match rounds with
  | O => None
  | S rounds =>
      if i <? 16 then
        b ← load i mask;
        if negb (b =? 0) then Some false else zero_loop rounds mask (i + 1)
      else Some true
  end.
(** [Some None] for 0. *)
Definition ipaddr6_ipv6_prefix_from_mask (mask : bytes) : option (option Z) :=
  '(prefix, i) ← full_loop 17 mask 0 0;
  if i <? 16 then
    b ← load i mask;
    match part_loop 9 b 0 0 with
    | None => Some None
    | Some j =>
        z ← zero_loop 16 mask (i + 1);
        Some (if (z : bool) then Some (prefix + j) else None)
    end
  else Some (Some prefix).

Definition ipaddr6_ipv6_ifaddr_from_addr_mask (a mask : bytes) : option (option ipv6_ifaddr) :=
  r ← ipaddr6_ipv6_prefix_from_mask mask;
  Some (match r with None => None | Some p => Some (MkIpv6Ifaddr a p) end).

Definition ipaddr6_ipv6_addrs_in_network (addr1 addr2 : bytes) (netprefix : Z) : option bool :=
  ASSERT_ (0 <=? netprefix);
  ASSERT_ (netprefix <=? 128);
  let quot := netprefix / 8 in
  let rem := netprefix mod 8 in
  if negb (memcmp (ztake quot addr1) (ztake quot addr2) =? 0) then Some false else
  if rem =? 0 then Some true else
  let t := set_bits (Z.to_nat rem) 0 0 in
  b1 ← load quot addr1;
  b2 ← load quot addr2;
  Some (Z.land b1 t =? Z.land b2 t).

(** ** Printing *)

(** The longest run of zero blocks: the loop over the blocks. *)
Record zero_runs := MkRuns { largest_start : Z; largest_len : Z; current_start : Z; current_len : Z }.
#[export] Instance zero_runs_eta : Eta zero_runs := λ r,
  MkRuns (largest_start r) (largest_len r) (current_start r) (current_len r).

Fixpoint runs_loop (rounds : nat) (a : bytes) (i : Z) (r : zero_runs) : option zero_runs :=
  match rounds with
  | O => Some r
  | S rounds =>
      b0 ← load (2 * i) a;
      b1 ← load (2 * i + 1) a;
      runs_loop rounds a (i + 1)
        (if (b0 =? 0) && (b1 =? 0) then
           let r := r <| current_len := current_len r + 1 |> in
           if largest_len r <? current_len r then
             r <| largest_start := current_start r |> <| largest_len := current_len r |>
           else r
         else r <| current_start := i + 1 |> <| current_len := 0 |>)
  end.

(** [out_buf += sprintf(out_buf, ...)]: the position in the buffer moves. *)
Definition put (s : bytes) (o : Z * bytes) : option (Z * bytes) :=
  buf ← sprintf o.1 s o.2; Some (o.1 + len s, buf).

Definition load_block (i : Z) (a : bytes) : option Z :=
  b0 ← load (2 * i) a;
  b1 ← load (2 * i + 1) a;
  Some (Z.lor (Z.shiftl b0 8) b1).
Fixpoint print_loop (rounds : nat) (a : bytes) (format : bytes → bytes) (i : Z) (o : Z * bytes) : option (Z * bytes) :=
  match rounds with
  | O => Some o
  | S rounds =>
      b ← load_block i a;
      o ← put (format (print_hex b)) o;
      print_loop rounds a format (i + 1) o
  end.
(** The loop with [prefix], which is empty in the first round. *)
Fixpoint print_all_loop (rounds : nat) (a : bytes) (sep : bytes) (i : Z) (o : Z * bytes) : option (Z * bytes) :=
  match rounds with
  | O => Some o
  | S rounds =>
      b ← load_block i a;
      o ← put (sep ++ print_hex b) o;
      print_all_loop rounds a (str ":") (i + 1) o
  end.
Definition ipaddr6_print_addr (a out_buf : bytes) : option bytes :=
  r ← runs_loop 8 a 0 (MkRuns 0 0 0 0);
  let start := largest_start r in
  let stop := largest_start r + largest_len r in
  o ← (if 1 <? largest_len r then
         o ← print_loop (Z.to_nat start) a (λ h, h ++ str ":") 0 (0, out_buf);
         o ← (if start =? 0 then put (str ":") o else Some o);
         o ← print_loop (Z.to_nat (8 - stop)) a (λ h, str ":" ++ h) stop o;
         (if stop =? 8 then put (str ":") o else Some o)
       else print_all_loop 8 a [] 0 (0, out_buf));
  Some o.2.
Definition ipaddr6_print_ifaddr (i : ipv6_ifaddr) (out_buf : bytes) : option bytes :=
  ASSERT_ (0 <=? prefix i);
  ASSERT_ (prefix i <=? 128);
  buf ← ipaddr6_print_addr (addr i) out_buf;
  n ← strlen buf;
  sprintf n (str "/" ++ print_decimal (prefix i)) buf.
End IpAddr6.
