(* ===== verification/IpAddr6Facts.v ===== *)
(** The parser and the printer of misc/ipaddr6.h: the texts that are accepted, and
    that what is printed is read back. *)
From Stdlib Require Import Ascii String.
From S2P Require Import Prelude Misc TreeInterface BAddr ParseNumber IpAddr IpAddr6.

(** * The grammar of addresses *)
Module Ipv6Grammar.
Export ParseNumberFacts.

(** The memory of a list of blocks. *)
Definition blocks_mem (vs : list Z) : bytes := vs ≫= λ v, [v / 256; v mod 256].

(** A block: hexadecimal digits with a value of 16 bits. *)
Definition hex_group (g : bytes) (v : Z) : Prop := is_hex g ∧ hex_value g = v ∧ v ≤ 65535.
(** A byte in decimal, without leading zeros. *)
Definition quad_number (g : bytes) (v : Z) : Prop :=
  is_decimal g ∧ (head g = Some 48 → g = [48]) ∧ dec_value g = v ∧ v ≤ 255.
Definition quads : bytes → list Z → Prop := separated (chr ".") quad_number.

(** Blocks with colons between them; the last two may be written as IPv4. *)
Inductive groups : bytes → list Z → Prop :=
  | groups_last g v : hex_group g v → groups g [v]
  | groups_quads t a b c d : quads t [a; b; c; d] → groups t [256 * a + b; 256 * c + d]
  | groups_cons g v s vs : hex_group g v → groups s vs → groups (g ++ chr ":" :: s) (v :: vs).

(** The texts of an address of eight blocks: all of them, or with "::" for the
    zero blocks that are missing (which may be none). *)
Inductive ipv6_text : bytes → list Z → Prop :=
  | text_full s vs : groups s vs → len vs = 8 → ipv6_text s vs
  | text_short s1 vs1 s2 vs2 :
      s1 = [] ∧ vs1 = [] ∨ separated (chr ":") hex_group s1 vs1 →
      s2 = [] ∧ vs2 = [] ∨ groups s2 vs2 →
      len vs1 ≤ 7 → len vs1 + len vs2 ≤ 8 →
      ipv6_text (s1 ++ str "::" ++ s2)
        (vs1 ++ replicate (Z.to_nat (8 - len vs1 - len vs2)) 0 ++ vs2).

(** ** The same from left to right

    [accepts vs k start t f]: after the blocks [vs], of which those from [k] on come
    after the "::" ([k = -1]: there was none yet), the text [t] completes the blocks
    [f]. *)
Definition finish (k : Z) (vs f : list Z) : Prop :=
  if k =? -1 then len vs = 8 ∧ f = vs
  else len vs ≤ 8 ∧ f = ztake k vs ++ replicate (Z.to_nat (8 - len vs)) 0 ++ zdrop k vs.

Inductive accepts : list Z → Z → bool → bytes → list Z → Prop :=
  | acc_last vs k start g v f : hex_group g v → finish k (vs ++ [v]) f → accepts vs k start g f
  | acc_quads vs k start t a b c d f : quads t [a; b; c; d] →
      finish k (vs ++ [256 * a + b; 256 * c + d]) f → accepts vs k start t f
  | acc_end vs k start f : len vs = k → finish k vs f → accepts vs k start [] f
  | acc_colon vs k start g v s f : hex_group g v → s ≠ [] → accepts (vs ++ [v]) k false s f →
      accepts vs k start (g ++ chr ":" :: s) f
  | acc_double vs start g v s f : hex_group g v → len vs ≤ 6 → accepts (vs ++ [v]) (len vs + 1) false s f →
      accepts vs (-1) start (g ++ chr ":" :: chr ":" :: s) f
  | acc_start s f : accepts [] 0 false s f → accepts [] (-1) true (chr ":" :: chr ":" :: s) f.

Lemma groups_nonempty s vs : groups s vs → vs ≠ [].
Proof. by intros []. Qed.
Lemma hex_group_nonempty g v : hex_group g v → g ≠ [].
Proof. by intros [[? _] _]. Qed.
Lemma quads_text_nonempty t vs : quads t vs → t ≠ [].
Proof. intros [g v [[? _] _]|g v s vs' _ _]; [done|by intros [_ [=]]%app_eq_nil]. Qed.
Lemma groups_text_nonempty s vs : groups s vs → s ≠ [].
Proof.
  intros [g v ?%hex_group_nonempty|t a b c d ?%quads_text_nonempty|g v s' vs' _ _]; [done|done|].
  by intros [_ [=]]%app_eq_nil.
Qed.

Lemma groups_accepts vs k start s ws f : groups s ws → finish k (vs ++ ws) f → accepts vs k start s f.
Proof.
  intros Hs. revert vs start. induction Hs as [g v Hg|t a b c d Ht|g v s ws Hg Hs IH]; intros vs start Hf.
  - by eapply acc_last.
  - by eapply acc_quads.
  - eapply acc_colon; [done|by eapply groups_text_nonempty|]. apply IH. by rewrite <- app_assoc.
Qed.

Lemma front_accepts vs start s1 ws1 s2 f : separated (chr ":") hex_group s1 ws1 → len (vs ++ ws1) ≤ 7 →
  accepts (vs ++ ws1) (len (vs ++ ws1)) false s2 f → accepts vs (-1) start (s1 ++ str "::" ++ s2) f.
Proof.
  intros Hs. revert vs start. induction Hs as [g v Hg|g v s ws Hg Hs IH]; intros vs start Hl Hf.
  - rewrite len_app in *. change (len [v]) with 1 in *. by eapply acc_double; [|lia|].
  - rewrite <- app_assoc. cbn [app]. eapply acc_colon; [done|by destruct s|].
    apply IH; by rewrite <- app_assoc.
Qed.

Lemma text_accepts s f : ipv6_text s f → accepts [] (-1) true s f.
Proof.
  intros [s' vs Hs Hl|s1 vs1 s2 vs2 H1 H2 Hl1 Hl2].
  - by eapply groups_accepts.
  - assert (accepts vs1 (len vs1) false s2 (vs1 ++ replicate (Z.to_nat (8 - len vs1 - len vs2)) 0 ++ vs2)) as Hrear.
    { assert (∀ ws, len (vs1 ++ ws) ≤ 8 → finish (len vs1) (vs1 ++ ws)
        (vs1 ++ replicate (Z.to_nat (8 - len vs1 - len ws)) 0 ++ ws)) as Hfin.
      { intros ws Hws. unfold finish. destruct (Z.eqb_spec (len vs1) (-1)); [len_lia|]. split; [done|].
        rewrite ztake_app, zdrop_app, len_app. do 4 f_equal. lia. }
      destruct H2 as [[-> ->]|H2].
      - apply acc_end; [done|]. rewrite <- (app_nil_r vs1) at 2. apply Hfin. rewrite len_app. lia.
      - eapply groups_accepts; [done|]. apply Hfin. rewrite len_app. lia. }
    destruct H1 as [[-> ->]|H1]; [by apply acc_start|]. by eapply (front_accepts []).
Qed.

(** What an accepted text looks like. *)
Lemma accepts_groups vs k start t f : accepts vs k start t f → 0 ≤ k ≤ len vs →
  ∃ ws, (t = [] ∧ ws = [] ∨ groups t ws) ∧ finish k (vs ++ ws) f.
Proof.
  induction 1 as [vs k start g v f Hg Hf|vs k start t a b c d f Ht Hf|vs k start f Hk Hf
    |vs k start g v s f Hg Hs Ha IH|vs start g v s f Hg Hl Ha IH|s f Ha IH]; intros Hk'.
  - exists [v]. split; [right; by constructor|done].
  - eexists. split; [right; by constructor|done].
  - exists []. split; [by left|by rewrite app_nil_r].
  - destruct IH as (ws & [[? _]|Hw] & Hf); [rewrite len_app; len_lia|done|].
    exists (v :: ws). split; [right; by constructor|]. by rewrite <- app_assoc in Hf.
  - lia.
  - lia.
Qed.
Lemma accepts_short vs k start t f : accepts vs k start t f → k = -1 →
  (∃ ws, groups t ws ∧ finish (-1) (vs ++ ws) f) ∨
  (∃ s1 ws1 s2, t = s1 ++ str "::" ++ s2 ∧
    (start = true ∧ vs = [] ∧ s1 = [] ∧ ws1 = [] ∨ separated (chr ":") hex_group s1 ws1) ∧
    len (vs ++ ws1) ≤ 7 ∧ accepts (vs ++ ws1) (len (vs ++ ws1)) false s2 f).
Proof.
  induction 1 as [vs k start g v f Hg Hf|vs k start t a b c d f Ht Hf|vs k start f Hk Hf
    |vs k start g v s f Hg Hs Ha IH|vs start g v s f Hg Hl Ha IH|s f Ha IH]; intros Hk'; subst.
  - left. eexists. split; [by constructor|done].
  - left. eexists. split; [by constructor|done].
  - len_lia.
  - destruct (IH eq_refl) as [(ws & Hw & Hf)|(s1 & ws1 & s2 & -> & [[? _]|H1] & Hl & Hf)]; [|done|].
    + left. exists (v :: ws). split; [by constructor|]. by rewrite <- app_assoc in Hf.
    + right. exists (g ++ chr ":" :: s1), (v :: ws1), s2. rewrite <- !app_assoc in *. split_and!; [done| |done|done].
      right. by constructor.
  - right. exists g, [v], s. rewrite len_app. change (len [v]) with 1. split_and!; [done|right; by constructor|lia|done].
  - right. exists [], [], s. split_and!; [done|by left|done|done].
Qed.

Lemma accepts_text s f : accepts [] (-1) true s f ↔ ipv6_text s f.
Proof.
  split; [|apply text_accepts]. intros Ha.
  destruct (accepts_short _ _ _ _ _ Ha eq_refl) as [(ws & Hw & [Hl ->])|(s1 & ws1 & s2 & -> & H1 & Hl & H2)].
  { by constructor. }
  cbn [app] in *. pose proof (len_nonneg ws1). apply accepts_groups in H2 as (ws2 & H2 & Hf); [|lia].
  unfold finish in Hf. destruct (Z.eqb_spec (len ws1) (-1)); [lia|]. destruct Hf as [Hl8 ->].
  rewrite ztake_app, zdrop_app, len_app in *. replace (8 - (len ws1 + len ws2)) with (8 - len ws1 - len ws2) by lia.
  constructor; [naive_solver|done|lia|lia].
Qed.
End Ipv6Grammar.

(** * Reading a text one character at a time *)
Module Ipv6Reading.
Export Ipv6Grammar.

Lemma prefix_until {A} (c : A) g s h r : c ∉ g → g ++ s = h ++ c :: r →
  ∃ h', h = g ++ h' ∧ s = h' ++ c :: r.
Proof.
  revert h. induction g as [|d g IH]; intros h Hg E; [by exists h|].
  apply not_elem_of_cons in Hg as [Hd Hg]. destruct h as [|d' h]; injection E as <- E; [done|].
  destruct (IH h Hg E) as (h' & -> & ->). by exists h'.
Qed.

Lemma hex_no_char c g : Forall hex_digit g → ¬ hex_digit c → c ∉ g.
Proof. intros Hg Hc Hi. by rewrite Forall_forall in Hg; apply Hg in Hi. Qed.
Lemma not_hex_dot : ¬ hex_digit (chr ".").
Proof. unfold hex_digit. chars. lia. Qed.
Lemma not_hex_colon : ¬ hex_digit (chr ":").
Proof. unfold hex_digit. chars. lia. Qed.
#[local] Hint Resolve not_hex_dot not_hex_colon hex_no_char : core.

Lemma hex_value_app g h : hex_value (g ++ h) = hex_value g * 16 ^ len h + hex_value h.
Proof. unfold hex_value. rewrite fmap_app, undigits_app. unfold len. by rewrite length_fmap. Qed.
Lemma hex_value_range g : Forall hex_digit g → 0 ≤ hex_value g < 16 ^ len g.
Proof.
  intros Hg. unfold hex_value. assert (len g = len (hex_digit_value <$> g)) as -> by (unfold len; by rewrite length_fmap).
  apply (undigits_range (b := 16)); [lia|]. apply Forall_fmap. eapply Forall_impl; [done|]. apply hex_digit_value_range.
Qed.
Lemma hex_value_prefix g h : Forall hex_digit (g ++ h) → hex_value g ≤ hex_value (g ++ h).
Proof.
  intros [Hg Hh]%Forall_app. rewrite hex_value_app. pose proof (hex_value_range g Hg). pose proof (hex_value_range h Hh).
  assert (1 ≤ 16 ^ len h) by (apply (Z.pow_le_mono_r 16 0); len_lia). nia.
Qed.

Lemma decimal_hex c : decimal_digit c → hex_digit c.
Proof. unfold decimal_digit, hex_digit. lia. Qed.
Lemma quad_number_len g v : quad_number g v → 1 ≤ len g ≤ 3.
Proof.
  intros ([Hne Hg] & Hz & Hv & Hm). destruct g as [|c g]; [done|]. rewrite len_cons. split; [len_lia|].
  destruct (decide (c = 48)) as [->|Hc]; [specialize (Hz eq_refl); injection Hz as ->; rewrite len_nil; lia|].
  apply Forall_cons in Hg as [Hcd Hg]. pose proof (dec_value_range g Hg). rewrite dec_value_cons in Hv.
  unfold decimal_digit in Hcd. assert (¬ 3 ≤ len g); [|lia]. intros Hl.
  assert (10 ^ 3 ≤ 10 ^ len g) by (apply Z.pow_le_mono_r; lia). nia.
Qed.
Lemma quad_number_no_dot g v : quad_number g v → chr "." ∉ g.
Proof. intros [Hg _]. apply decimal_no_char; [chars; lia|done]. Qed.
Lemma hex_group_no_dot g v : hex_group g v → chr "." ∉ g.
Proof. intros [[_ Hg] _]. eauto. Qed.
Lemma hex_group_no_colon g v : hex_group g v → chr ":" ∉ g.
Proof. intros [[_ Hg] _]. eauto. Qed.
Lemma quads_no_colon t vs : quads t vs → chr ":" ∉ t.
Proof.
  apply separated_chars; [by chars|]. intros g v [Hg _]. apply decimal_no_char; [chars; lia|done].
Qed.

(** A text is made of digits, colons and dots. *)
Definition text_char (c : Z) : Prop := hex_digit c ∨ c = chr ":" ∨ c = chr ".".
Lemma hex_text g : Forall hex_digit g → Forall text_char g.
Proof. intros Hg. eapply Forall_impl; [exact Hg|]. by left. Qed.
Lemma quads_text t vs : quads t vs → Forall text_char t.
Proof.
  assert (∀ g v, quad_number g v → Forall text_char g) as H.
  { intros g v [[_ Hg] _]. apply hex_text. eapply Forall_impl; [exact Hg|]. apply decimal_hex. }
  induction 1 as [g v Hg|g v s vs Hg _ IH]; [by eapply H|].
  apply Forall_app. split; [by eapply H|]. constructor; [by right; right|done].
Qed.
Lemma accepts_chars vs k start t f : accepts vs k start t f → Forall text_char t.
Proof.
  assert (∀ g v, hex_group g v → Forall text_char g) as H by (by intros g v [[_ Hg] _]; apply hex_text).
  assert (text_char (chr ":")) as Hc by (by right; left).
  induction 1; repeat first [apply Forall_app; split | apply Forall_cons; split]; eauto using quads_text.
Qed.

(** The digits read so far are the beginning of a group. *)
Lemma accepts_value vs k start g s f : Forall hex_digit g → accepts vs k start (g ++ s) f → hex_value g ≤ 65535.
Proof.
  intros Hg Ha. assert (∀ h h' v, hex_group h v → h = g ++ h' → hex_value g ≤ 65535) as Hgroup.
  { intros h h' v ([_ Hh] & Hv & Hm) ->. pose proof (hex_value_prefix _ _ Hh). lia. }
  assert (∀ h h' v, quad_number h v → h = g ++ h' → hex_value g ≤ 65535) as Hquad.
  { intros h h' v Hh ->. pose proof (quad_number_len _ _ Hh) as Hl. rewrite len_app in Hl.
    pose proof (hex_value_range g Hg). assert (16 ^ len g ≤ 16 ^ 3) by (apply Z.pow_le_mono_r; len_lia). lia. }
  remember (g ++ s) as t0 eqn:E.
  destruct Ha as [vs k st h v f Hh Hf|vs k st t a b c d f Ht Hf|vs k st f Hk Hf|vs k st h v r f Hh Hs Hr
    |vs st h v r f Hh Hl Hr|r f Hr].
  - by eapply Hgroup.
  - destruct Ht as [h v Hh|h v r vs' Hh Hs]; [by eapply Hquad|].
    symmetry in E. apply prefix_until in E as (h' & -> & _); eauto.
  - symmetry in E. apply app_eq_nil in E as [-> ->]. cbn. lia.
  - symmetry in E. apply prefix_until in E as (h' & -> & _); eauto.
  - symmetry in E. apply prefix_until in E as (h' & -> & _); eauto.
  - destruct g as [|c g]; [cbn; lia|]. injection E as <- _. apply Forall_cons in Hg as [Hc _]. by apply not_hex_colon in Hc.
Qed.

(** At a dot. *)
Lemma accepts_dot vs k start g s f : Forall hex_digit g →
  accepts vs k start (g ++ chr "." :: s) f ↔
    ∃ a b c d, quads (g ++ chr "." :: s) [a; b; c; d] ∧ finish k (vs ++ [256 * a + b; 256 * c + d]) f.
Proof.
  intros Hg. split; [|intros (a & b & c & d & Ht & Hf); by eapply acc_quads].
  assert (∀ h v r, hex_group h v → h ++ chr ":" :: r = g ++ chr "." :: s → False) as Hno.
  { intros h v r Hh E. change (chr "." :: s) with ([chr "."] ++ s) in E. rewrite app_assoc in E.
    symmetry in E. apply prefix_until in E as (h' & -> & _).
    - apply hex_group_no_dot in Hh as []. rewrite !elem_of_app. left. right. by left.
    - rewrite not_elem_of_app, list_elem_of_singleton. split; [eauto|by chars]. }
  intros Ha. remember (g ++ chr "." :: s) as t0 eqn:E.
  destruct Ha as [vs k st h v f Hh Hf|vs k st t a b c d f Ht Hf|vs k st f Hk Hf|vs k st h v r f Hh Hs Hr
    |vs st h v r f Hh Hl Hr|r f Hr].
  - apply hex_group_no_dot in Hh as []. rewrite E, elem_of_app. right. by left.
  - by eexists _, _, _, _.
  - by destruct g.
  - by edestruct Hno.
  - by edestruct Hno.
  - destruct g as [|c g]; [by injection E|]. injection E as <- _. apply Forall_cons in Hg as [Hc _]. by apply not_hex_colon in Hc.
Qed.

(** At the end. *)
Lemma accepts_end vs k start g f : Forall hex_digit g →
  accepts vs k start g f ↔
    (g ≠ [] ∧ hex_value g ≤ 65535 ∧ finish k (vs ++ [hex_value g]) f) ∨ (g = [] ∧ len vs = k ∧ finish k vs f).
Proof.
  intros Hg. assert (∀ h r, Forall hex_digit (h ++ chr ":" :: r) → False) as Hno.
  { intros h r [_ [Hc _]%Forall_cons]%Forall_app. by apply not_hex_colon in Hc. }
  split.
  - intros Ha. destruct Ha as [vs k st h v f [[Hne _] [<- Hm]] Hf|vs k st t a b c d f Ht Hf|vs k st f Hk Hf|vs k st h v r f Hh Hs Hr
      |vs st h v r f Hh Hl Hr|r f Hr].
    + left. by split_and!.
    + exfalso. inversion Ht; subst. apply Forall_app in Hg as [_ [Hc _]%Forall_cons]. by apply not_hex_dot in Hc.
    + right. by split_and!.
    + by apply Hno in Hg.
    + by apply Hno in Hg.
    + by apply (Hno []) in Hg.
  - intros [(Hne & Hm & Hf)|(-> & Hk & Hf)]; [|by apply acc_end].
    eapply acc_last; [|exact Hf]. by split_and!.
Qed.

(** At a colon. *)
Lemma accepts_room vs k start t f : accepts vs k start t f → t ≠ [] → len vs ≤ 7.
Proof.
  assert (∀ k vs ws f, finish k (vs ++ ws) f → 1 ≤ len ws → len vs ≤ 7) as H.
  { intros k' ws' ws g Hf Hl. unfold finish in Hf. rewrite len_app in Hf. case_match; destruct Hf; lia. }
  induction 1 as [vs k start g v f Hg Hf|vs k start t a b c d f Ht Hf|vs k start f Hk Hf
    |vs k start g v s f Hg Hs Ha IH|vs start g v s f Hg Hl Ha IH|s f Ha IH]; intros Hne.
  - by eapply H.
  - by eapply H.
  - done.
  - apply IH in Hs. rewrite len_app in Hs. change (len [v]) with 1 in Hs. lia.
  - lia.
  - rewrite len_nil. lia.
Qed.
Lemma accepts_colon vs k start g s f : Forall hex_digit g → g ≠ [] → hex_value g ≤ 65535 →
  accepts vs k start (g ++ chr ":" :: s) f ↔
    (s ≠ [] ∧ accepts (vs ++ [hex_value g]) k false s f) ∨
    (∃ s', s = chr ":" :: s' ∧ k = -1 ∧ len vs ≤ 6 ∧ accepts (vs ++ [hex_value g]) (len vs + 1) false s' f).
Proof.
  intros Hg Hne Hm. assert (hex_group g (hex_value g)) as Hgg by (by split_and!). split.
  - intros Ha. remember (g ++ chr ":" :: s) as t0 eqn:E.
    destruct Ha as [vs k st h v f Hh Hf|vs k st t a b c d f Ht Hf|vs k st f Hk Hf|vs k st h v r f Hh Hs Hr
      |vs st h v r f Hh Hl Hr|r f Hr].
    + apply hex_group_no_colon in Hh as []. rewrite E, elem_of_app. right. by left.
    + apply quads_no_colon in Ht as []. rewrite E, elem_of_app. right. by left.
    + by destruct g.
    + apply split_at in E as [-> ->]; [|by eapply hex_group_no_colon|eauto].
      destruct Hh as (_ & <- & _). by left.
    + apply split_at in E as [-> <-]; [|by eapply hex_group_no_colon|eauto].
      destruct Hh as (_ & <- & _). right. eauto.
    + destruct g as [|c g]; [done|]. injection E as <- _. apply Forall_cons in Hg as [Hc _]. by apply not_hex_colon in Hc.
  - intros [[Hs Ha]|(s' & -> & -> & Hl & Ha)]; [by eapply acc_colon|by eapply acc_double].
Qed.
Lemma accepts_leading vs k start s f :
  accepts vs k start (chr ":" :: s) f ↔
    start = true ∧ vs = [] ∧ k = -1 ∧ ∃ s', s = chr ":" :: s' ∧ accepts [] 0 false s' f.
Proof.
  assert (∀ h v r t, hex_group h v → h ++ r = chr ":" :: t → False) as Hno.
  { intros h v r t Hh E. pose proof (hex_group_nonempty _ _ Hh). pose proof (hex_group_no_colon _ _ Hh) as Hc.
    destruct h as [|c h]; [done|]. injection E as -> _. destruct Hc. by left. }
  split.
  - intros Ha. remember (chr ":" :: s) as t0 eqn:E.
    destruct Ha as [vs k st h v f Hh Hf|vs k st t a b c d f Ht Hf|vs k st f Hk Hf|vs k st h v r f Hh Hs Hr
      |vs st h v r f Hh Hl Hr|r f Hr].
    + rewrite <- (app_nil_r h) in E. by edestruct Hno.
    + apply quads_no_colon in Ht as []. rewrite E. by left.
    + done.
    + by edestruct Hno.
    + by edestruct Hno.
    + injection E as <-. eauto 10.
  - intros (-> & -> & -> & s' & -> & Ha). by apply acc_start.
Qed.
(** In front of a second colon, nothing but "::" is possible. *)
Lemma accepts_second vs k s f : accepts vs k false (chr ":" :: s) f → False.
Proof. by intros (? & _)%accepts_leading. Qed.
End Ipv6Reading.

(** * The parser follows the grammar *)
Module Ipv6Parser.
Export Ipv6Reading IpAddr6.

(** ** The memory of the address *)

Lemma len_blocks_mem vs : len (blocks_mem vs) = 2 * len vs.
Proof.
  induction vs as [|v vs IH]; [done|]. change (blocks_mem (v :: vs)) with ([v / 256; v mod 256] ++ blocks_mem vs).
  rewrite len_app, IH, (len_cons v vs). change (len [v / 256; v mod 256]) with 2. lia.
Qed.
Lemma blocks_mem_app vs ws : blocks_mem (vs ++ ws) = blocks_mem vs ++ blocks_mem ws.
Proof. apply bind_app. Qed.
Lemma blocks_mem_zeros n : blocks_mem (replicate n 0) = replicate (n + n) 0.
Proof.
  induction n as [|n IH]; [done|]. change (blocks_mem (replicate (S n) 0)) with (0 :: 0 :: blocks_mem (replicate n 0)).
  rewrite IH. by rewrite Nat.add_succ_r.
Qed.

(** The first blocks of the address are [vs]. *)
Definition holds (out : bytes) (vs : list Z) : Prop := ∃ rest, out = blocks_mem vs ++ rest ∧ len out = 16.

Lemma store_next pre m rest c i : i = len pre → store i c (pre ++ m :: rest) = Some (pre ++ c :: rest).
Proof. intros ->. apply store_at. Qed.

Lemma put_block_ok p vs v : num_blocks p = len vs → len vs ≤ 7 → holds (out p) vs → block p = v → 0 ≤ v →
  ∃ o, put_block p = Some (p <| out := o |> <| num_blocks := len (vs ++ [v]) |>) ∧ holds o (vs ++ [v]).
Proof.
  intros Hn Hl (rest & Ho & H16) <- Hv. unfold put_block. rewrite Hn, Ho in *.
  pose proof (len_blocks_mem vs) as Hb. rewrite len_app in H16.
  destruct rest as [|m1 [|m2 rest]]; rewrite ?len_cons, ?len_nil in H16; [lia|lia|].
  rewrite store_next by lia. cbn [mbind option_bind].
  rewrite (cons_middle (Z.shiftr (block p) 8)), app_assoc, store_next; cycle 1.
  { rewrite len_app. change (len [Z.shiftr (block p) 8]) with 1. lia. }
  cbn [mbind option_bind]. eexists. split; [by rewrite len_app|].
  exists rest. rewrite blocks_mem_app, !len_app, Hb.
  change (blocks_mem [block p]) with [block p / 256; block p mod 256].
  rewrite <- !app_assoc. cbn [app]. split; [|rewrite !len_cons, len_nil; lia]. do 2 f_equal.
  - change 256 with (2 ^ 8). apply Z.shiftr_div_pow2. lia.
  - f_equal. change 255 with (Z.ones 8). apply Z.land_ones. lia.
Qed.

(** A result of the parser: it accepts exactly for the blocks that [acc] allows. *)
Definition result_ok (acc : list Z → Prop) (r : option (bool * bytes)) : Prop :=
  ∃ ret o, r = Some (ret, o) ∧ len o = 16 ∧
    (ret = true → ∃ f, acc f ∧ o = blocks_mem f) ∧ (∀ f, acc f → ret = true ∧ o = blocks_mem f).

Lemma result_rejected acc o : len o = 16 → (∀ f, acc f → False) → result_ok acc (Some (false, o)).
Proof. intros Ho H. exists false, o. split_and!; [done..|]. intros f Hf. by destruct (H f). Qed.
Lemma result_iff acc acc' r : (∀ f, acc f ↔ acc' f) → result_ok acc' r → result_ok acc r.
Proof.
  intros H (ret & o & -> & Ho & H1 & H2). exists ret, o. split_and!; [done..| |]; [|intros f; rewrite H; apply H2].
  intros Hr. destruct (H1 Hr) as (f & ? & ?). exists f. by rewrite H.
Qed.
Lemma holds_len o vs : holds o vs → len o = 16.
Proof. by intros (? & _ & ?). Qed.

(** The blocks after the compressed part move to the end, zeros take their place. *)
Lemma spread_ok vs k o : 0 ≤ k ≤ len vs → len vs ≤ 8 → holds o vs → let num_rear := len vs - k in
  (out1 ← memmove (2 * (8 - num_rear)) (2 * k) (2 * num_rear) o;
   out2 ← memset (2 * k) 0 (2 * (8 - num_rear - k)) out1; Some (true, out2)) =
  Some (true, blocks_mem (ztake k vs ++ replicate (Z.to_nat (8 - len vs)) 0 ++ zdrop k vs)).
Proof.
  intros Hk Hl (rest & Ho & H16) rear. assert (rear = len vs - k) as Hrear by done. pose proof (len_blocks_mem vs) as Hb.
  assert (blocks_mem vs = blocks_mem (ztake k vs) ++ blocks_mem (zdrop k vs)) as Esplit
    by (by rewrite <- blocks_mem_app, ztake_zdrop).
  pose proof (len_blocks_mem (ztake k vs)) as Hb1. rewrite len_ztake in Hb1 by lia.
  pose proof (len_blocks_mem (zdrop k vs)) as Hb2. rewrite len_zdrop in Hb2 by lia.
  assert (o = blocks_mem (ztake k vs) ++ blocks_mem (zdrop k vs) ++ rest) as Ho' by (by rewrite app_assoc, <- Esplit).
  rewrite memmove_ok by lia. cbn [mbind option_bind].
  assert (zslice (2 * k) (2 * rear) o = blocks_mem (zdrop k vs)) as ->.
  { unfold zslice. rewrite Ho'. replace (2 * k) with (len (blocks_mem (ztake k vs))) by lia.
    rewrite zdrop_app. replace (2 * rear) with (len (blocks_mem (zdrop k vs))) by lia. apply ztake_app. }
  set (rear_mem := blocks_mem (zdrop k vs)) in *. set (o1 := zwrite (2 * (8 - rear)) rear_mem o).
  assert (len o1 = 16) as Ho1 by (unfold o1; rewrite len_zwrite; lia).
  rewrite memset_ok by lia. cbn [mbind option_bind]. do 2 f_equal.
  set (zeros := replicate (Z.to_nat (2 * (8 - rear - k))) 0).
  assert (len zeros = 2 * (8 - rear - k)) as Hz by (unfold zeros, len; rewrite length_replicate; lia).
  unfold zwrite. rewrite Hz, !blocks_mem_app, blocks_mem_zeros. f_equal; [|f_equal].
  - rewrite <- (zdrop_0 o1). change (zslice 0 (2 * k) o1 = blocks_mem (ztake k vs)). unfold o1.
    rewrite zslice_zwrite_before by lia. unfold zslice. rewrite zdrop_0, Ho'.
    replace (2 * k) with (len (blocks_mem (ztake k vs))) by lia. apply ztake_app.
  - unfold zeros. f_equal. lia.
  - replace (2 * k + 2 * (8 - rear - k)) with (2 * (8 - rear)) by lia.
    rewrite <- (ztake_all (len rear_mem) (zdrop _ o1)) by (rewrite len_zdrop; lia).
    apply zslice_zwrite_same; fold rear_mem; lia.
Qed.

Lemma ipv4_done_ok p vs k : num_blocks p = len vs → compress_pos p = k → k = -1 ∨ 0 ≤ k ≤ len vs → len vs ≤ 8 →
  holds (out p) vs → result_ok (finish k vs) (ipv4_done p).
Proof.
  intros Hn Hk Hk' Hl Ho. unfold ipv4_done, finish. rewrite Hn, Hk.
  assert (∀ f, len f = 8 → len (blocks_mem f) = 16) as H16 by (intros f Hf; rewrite len_blocks_mem; lia).
  destruct (Z.eqb_spec k (-1)) as [->|Hk1]; cbn [andb].
  - destruct (Z.eqb_spec (len vs) 8) as [E|E]; cbn [negb].
    2:{ apply result_rejected; [by eapply holds_len|]. intros f [? _]. done. }
    pose proof (spread_ok vs 0 (out p) ltac:(lia) Hl Ho) as Hs. cbv zeta in Hs. rewrite Hs, zdrop_0, E. cbn [Z.sub].
    eexists true, _. split_and!; [done|by apply H16|by eexists|by intros f [_ ->]].
  - destruct Hk' as [?|Hk']; [done|]. pose proof (spread_ok vs k (out p) Hk' Hl Ho) as Hs. cbv zeta in Hs. rewrite Hs.
    eexists true, _. split_and!; [done| |by intros _; eexists|by intros f [_ ->]].
    apply H16. rewrite !len_app, len_ztake, len_zdrop by lia.
    unfold len at 1. rewrite length_replicate. unfold len in *. lia.
Qed.

(** ** The IPv4 ending *)

Lemma quad_prefix g s ws : Forall decimal_digit g → separated (chr ".") quad_number (g ++ s) ws →
  ∃ h v, quad_number (g ++ h) v.
Proof.
  intros Hg Hs. remember (g ++ s) as t eqn:E.
  destruct Hs as [h v Hh|h v r ws Hh Hs]; [exists s, v; by rewrite <- E|].
  symmetry in E. apply prefix_until in E as (h' & -> & _); [by exists h', v|].
  apply hex_no_char; [|apply not_hex_dot]. eapply Forall_impl; [exact Hg|]. apply decimal_hex.
Qed.
Lemma dec_value_prefix g h : Forall decimal_digit (g ++ h) → dec_value g ≤ dec_value (g ++ h).
Proof.
  intros [Hg Hh]%Forall_app. unfold dec_value. rewrite fmap_app, undigits_app.
  pose proof (dec_value_range g Hg). pose proof (dec_value_range h Hh). unfold dec_value in *.
  set (P := 10 ^ len _). assert (1 ≤ P) by (apply (Z.pow_le_mono_r 10 0); len_lia). nia.
Qed.

(** The state of the loop when [ds] have been read, and [g] of the next number. *)
Definition quad_state (ds : list Z) (g : bytes) (q : ipv4_parser) : Prop :=
  cur_byte q = len ds ∧ byte q = dec_value g ∧ byte_empty q = bool_decide (g = []) ∧
  len (quad q) = 4 ∧ (∃ rest, quad q = ds ++ rest) ∧
  Forall decimal_digit g ∧ dec_value g ≤ 255 ∧ (head g = Some 48 → g = [48]).
(** What the code takes from the loop at its end. *)
Definition quad_done (r : option ipv4_parser) (qs : list Z) : Prop :=
  ∃ q, r = Some q ∧ cur_byte q = 3 ∧ byte_empty q = false ∧ store (cur_byte q) (byte q) (quad q) = Some qs.
Definition quad_result (acc : list Z → Prop) (r : option ipv4_parser) : Prop :=
  (∀ qs, acc qs → quad_done r qs) ∧
  (∀ q, r = Some q → cur_byte q = 3 → byte_empty q = false → ∃ qs, acc qs ∧ quad_done r qs).

Lemma quad_rejected acc : (∀ qs, acc qs → False) → quad_result acc None.
Proof. intros H. split; [|done]. intros qs Hq. by destruct (H qs). Qed.

(** The numbers that may follow. *)
Definition rest_quads (ds : list Z) (t : bytes) (qs : list Z) : Prop :=
  ∃ ws, separated (chr ".") quad_number t ws ∧ len ds + len ws = 4 ∧ qs = ds ++ ws.

Lemma quad_end ds g q : quad_state ds g q → len ds ≤ 3 → quad_result (rest_quads ds g) (Some q).
Proof.
  intros (Hc & Hb & He & H4 & (rest & Hr) & Hg & Hm & Hz) Hl.
  assert (len ds = 3 → store (cur_byte q) (byte q) (quad q) = Some (ds ++ [dec_value g])) as Hst.
  { intros E. rewrite Hc, Hb. rewrite Hr, len_app in *. destruct rest as [|m [|??]]; rewrite ?len_cons, ?len_nil in H4;
      [lia| |len_lia]. by apply store_next. }
  assert (chr "." ∉ g) as Hdot.
  { destruct g as [|c g]; [by apply not_elem_of_nil|]. apply decimal_no_char; [chars; lia|by split]. }
  split.
  - intros qs (ws & Hs & Hlw & ->). apply separated_one in Hs as (v & -> & Hv); [|done].
    change (len [v]) with 1 in Hlw. exists q. rewrite He. destruct Hv as ([Hne _] & _ & <- & _).
    rewrite bool_decide_false by done. split_and!; [done|lia|done|apply Hst; lia].
  - intros ? [= <-] H3 Hne. rewrite He in Hne. bool_to_prop. exists (ds ++ [dec_value g]). split.
    + exists [dec_value g]. change (len [_]) with 1. split_and!; [|lia|done]. apply separated_last. by split_and!.
    + exists q. rewrite He, bool_decide_false by done. split_and!; [done..|apply Hst; lia].
Qed.

Lemma quad_round_dot ds g s q : quad_state ds g q → len ds ≤ 3 →
  (quad_round (chr ".") q = Some None ∧ ∀ qs, rest_quads ds (g ++ chr "." :: s) qs → False) ∨
  (∃ q', quad_round (chr ".") q = Some (Some q') ∧ quad_state (ds ++ [dec_value g]) [] q' ∧
    len (ds ++ [dec_value g]) ≤ 3 ∧
    ∀ qs, rest_quads ds (g ++ chr "." :: s) qs ↔ rest_quads (ds ++ [dec_value g]) s qs).
Proof.
  intros (Hc & Hb & He & H4 & (rest & Hr) & Hg & Hm & Hz) Hl. unfold quad_round. rewrite Z.eqb_refl, He, Hc.
  assert (chr "." ∉ g) as Hdot.
  { destruct g as [|c g]; [by apply not_elem_of_nil|]. apply decimal_no_char; [chars; lia|by split]. }
  assert (∀ ws, separated (chr ".") quad_number (g ++ chr "." :: s) ws →
    ∃ ws', ws = dec_value g :: ws' ∧ quad_number g (dec_value g) ∧ separated (chr ".") quad_number s ws') as Hcut.
  { intros ws (v & ws' & -> & Hv & Hs)%separated_head; [|exact quad_number_no_dot|done].
    pose proof Hv as (_ & _ & <- & _). eauto. }
  destruct (bool_decide_reflect (g = [])) as [->|Hne]; cbn [orb].
  { left. split; [done|]. intros qs (ws & (ws' & -> & ([? _] & _) & _)%Hcut & _). done. }
  destruct (Z.eqb_spec (len ds) 3) as [E3|E3].
  { left. split; [done|]. intros qs (ws & (ws' & -> & _ & Hs)%Hcut & Hl4 & _). rewrite len_cons in Hl4.
    apply separated_nonempty in Hs. destruct ws'; [done|]. rewrite len_cons in Hl4. len_lia. }
  right. rewrite Hr, len_app in *. destruct rest as [|m rest]; [rewrite len_nil in H4; lia|].
  rewrite store_next by done. cbn [mbind option_bind]. eexists. split; [done|].
  change (len [dec_value g]) with 1. split_and!.
  - unfold quad_state. cbn. rewrite len_app, Hb. split_and!; try done.
    + rewrite len_app, len_cons in *. lia.
    + exists rest. by rewrite <- app_assoc.
  - lia.
  - intros qs. split.
    + intros (ws & (ws' & -> & _ & Hs)%Hcut & Hl4 & ->). exists ws'. rewrite len_cons in Hl4. rewrite len_app.
      change (len [dec_value g]) with 1. split_and!; [done|lia|by rewrite <- app_assoc].
    + intros (ws & Hs & Hl4 & ->). exists (dec_value g :: ws). rewrite len_cons. rewrite len_app in Hl4.
      change (len [dec_value g]) with 1 in Hl4. split_and!; [|lia|by rewrite <- app_assoc].
      apply separated_cons; [|done]. by split_and!.
Qed.

Lemma quad_round_digit ds g c s q : quad_state ds g q → c ≠ chr "." →
  (quad_round c q = Some None ∧ ∀ qs, rest_quads ds (g ++ c :: s) qs → False) ∨
  (∃ q', quad_round c q = Some (Some q') ∧ quad_state ds (g ++ [c]) q').
Proof.
  intros (Hc & Hb & He & H4 & Hr & Hg & Hm & Hz) Hcd. unfold quad_round.
  rewrite (proj2 (Z.eqb_neq c (chr "."))), He, Hb by done.
  assert (∀ qs, rest_quads ds (g ++ c :: s) qs → decimal_digit c) as Hdig.
  { intros qs (ws & Hs & _). assert (Forall text_char (g ++ c :: s)) as Ht by (by eapply quads_text).
    destruct (decide (decimal_digit c)) as [|Hn]; [done|]. exfalso.
    assert (c ∉ g ++ c :: s) as Hni; [|destruct Hni; apply elem_of_app; right; by left].
    eapply separated_chars; [exact Hcd| |exact Hs]. intros h v ([_ Hh] & _) Hi. rewrite Forall_forall in Hh. auto. }
  assert (∀ qs, rest_quads ds (g ++ c :: s) qs →
    ∃ h v, quad_number ((g ++ [c]) ++ h) v) as Hpre.
  { intros qs Hq. pose proof (Hdig _ Hq) as Hcc. destruct Hq as (ws & Hs & _).
    rewrite (cons_middle c), app_assoc in Hs. apply quad_prefix in Hs; [done|].
    apply Forall_app. split; [done|by apply Forall_singleton]. }
  destruct (negb (bool_decide (g = [])) && (dec_value g =? 0)) eqn:E0.
  { left. split; [done|]. intros qs Hq. destruct (Hpre _ Hq) as (h & v & (Hd & Hz' & Hv & _)). bool_to_prop.
    destruct g as [|d g]; [done|]. apply Forall_cons in Hg as [Hd' Hg].
    pose proof (dec_value_range g Hg). rewrite dec_value_cons in *. unfold decimal_digit in Hd'.
    assert (0 < 10 ^ len g) by (apply Z.pow_pos_nonneg; len_lia). assert (d = 48) as -> by nia.
    specialize (Hz' eq_refl). cbn in Hz'. injection Hz' as Hz'. by apply app_eq_nil in Hz' as [[_ ?]%app_eq_nil _]. }
  rewrite decode_decimal_digit_spec. case_decide as Hd; cycle 1.
  { left. split; [done|]. intros qs Hq. by destruct Hd, (Hdig _ Hq). }
  unfold decimal_digit in Hd. destruct (Z.ltb_spec (c - 48) 0); [lia|]. change (UINT8_MAX / 10) with 25.
  pose proof (dec_value_range g Hg) as Hgr.
  assert (∀ qs, rest_quads ds (g ++ c :: s) qs → 10 * dec_value g + (c - 48) ≤ 255) as Hmax.
  { intros qs Hq. destruct (Hpre _ Hq) as (h & v & ([_ Hh] & _ & Hv & ?)).
    pose proof (dec_value_prefix (g ++ [c]) h Hh). rewrite dec_value_snoc in *. lia. }
  destruct (Z.ltb_spec 25 (dec_value g)); [left; split; [done|]; intros qs ?%Hmax; lia|].
  unfold u8, UINT8_MAX. rewrite (Z.mod_small (dec_value g * 10)) by lia.
  destruct (Z.ltb_spec (255 - dec_value g * 10) (c - 48)); [left; split; [done|]; intros qs ?%Hmax; lia|].
  right. rewrite Z.mod_small by lia. eexists. split; [done|]. unfold quad_state. cbn.
  rewrite dec_value_snoc. split_and!; try done; [lia|by destruct g| |lia|].
  - apply Forall_app. split; [done|by apply Forall_singleton].
  - destruct g as [|d g]; [by intros [= ->]|]. intros Hd0. apply Hz in Hd0. injection Hd0 as -> ->.
    bool_to_prop. cbn in E0. destruct E0; done.
Qed.

Lemma quad_loop_ok rounds name pre ds g s q : name = pre ++ g ++ s → (length s < rounds)%nat → quad_state ds g q → len ds ≤ 3 →
  ∃ r, quad_loop rounds name (len (pre ++ g)) q = Some r ∧ quad_result (rest_quads ds (g ++ s)) r.
Proof.
  revert pre ds g s q. induction rounds as [|rounds IH]; intros pre ds g s q Hname Hr Hq Hl; [lia|].
  cbn [quad_loop]. rewrite app_assoc in Hname. subst name. destruct s as [|c s].
  { rewrite app_nil_r, Z.ltb_irrefl, app_nil_r. eexists. split; [done|]. by apply quad_end. }
  destruct (Z.ltb_spec (len (pre ++ g)) (len ((pre ++ g) ++ c :: s))) as [_|H].
  2:{ rewrite (len_app _ (c :: s)), len_cons in H. len_lia. }
  rewrite load_at by done. cbn [mbind option_bind]. cbn [length] in Hr. destruct (decide (c = chr ".")) as [->|Hc].
  - destruct (quad_round_dot ds g s q Hq Hl) as [[-> Hno]|(q' & -> & Hq' & Hl' & Heq)]; cbn [mbind option_bind].
    { eexists. split; [done|]. by apply quad_rejected. }
    replace (len (pre ++ g) + 1) with (len ((pre ++ g ++ [chr "."]) ++ [])).
    2:{ rewrite app_nil_r, !len_app. change (len [chr "."]) with 1. lia. }
    destruct (IH (pre ++ g ++ [chr "."]) (ds ++ [dec_value g]) [] s q') as (r & E & [H1 H2]);
      [by rewrite <- !app_assoc|lia|done|done|]. cbn [app] in *.
    eexists. split; [rewrite <- E; do 2 f_equal; by rewrite <- !app_assoc|]. split.
    + intros qs ?%Heq. auto.
    + intros q'' E' H3 He. destruct (H2 q'' E' H3 He) as (qs & ?%Heq & ?). eauto.
  - destruct (quad_round_digit ds g c s q Hq Hc) as [[-> Hno]|(q' & -> & Hq')]; cbn [mbind option_bind].
    { eexists. split; [done|]. by apply quad_rejected. }
    replace (len (pre ++ g) + 1) with (len (pre ++ g ++ [c])) by (rewrite !len_app; change (len [c]) with 1; lia).
    destruct (IH pre ds (g ++ [c]) s q') as (r & E & H12); [by rewrite <- !app_assoc|lia|done|done|].
    rewrite <- app_assoc in H12. cbn [app] in H12. eexists. split; [rewrite <- E; do 2 f_equal; by rewrite <- !app_assoc|done].
Qed.

(** ** The whole parser *)

(** The variables when the blocks [vs] have been read, and [g] of the next one. *)
Record parser_state (vs : list Z) (k : Z) (g : bytes) (p : parser) : Prop := {
  ps_num : num_blocks p = len vs;
  ps_compress : compress_pos p = k;
  ps_block : block p = hex_value g;
  ps_empty : empty p = bool_decide (g = []);
  ps_out : holds (out p) vs;
  ps_digits : Forall hex_digit g;
  ps_value : hex_value g ≤ 65535;
  ps_k : k = -1 ∨ 0 ≤ k ≤ len vs;
  ps_max : len vs ≤ 7;
}.
(** What is before the group: nothing yet, or a colon. *)
Definition before (pre : bytes) (vs : list Z) (k : Z) (start : bool) : Prop :=
  if start then pre = [] ∧ vs = [] ∧ k = -1 else ∃ pre', pre = pre' ++ [chr ":"].

Lemma back_loop_ok rounds pre g s : chr ":" ∉ g → (length g < rounds)%nat →
  back_loop rounds ((pre ++ [chr ":"]) ++ g ++ s) (len ((pre ++ [chr ":"]) ++ g)) = Some (len (pre ++ [chr ":"])).
Proof.
  revert g s. induction rounds as [|rounds IH]; intros g s Hg Hr; [lia|]. cbn [back_loop].
  destruct g as [|c g _] using rev_ind.
  - rewrite app_nil_r. replace (len (pre ++ [chr ":"]) - 1) with (len pre).
    2:{ rewrite len_app. change (len [chr ":"]) with 1. lia. }
    rewrite <- app_assoc. cbn [app]. by rewrite load_at.
  - rewrite not_elem_of_app, list_elem_of_singleton in Hg. destruct Hg as [Hg Hc]. rewrite length_app in Hr. cbn in Hr.
    replace (len ((pre ++ [chr ":"]) ++ g ++ [c]) - 1) with (len ((pre ++ [chr ":"]) ++ g)).
    2:{ rewrite !len_app. change (len [c]) with 1. lia. }
    assert ((pre ++ [chr ":"]) ++ (g ++ [c]) ++ s = ((pre ++ [chr ":"]) ++ g) ++ c :: s) as E by (by rewrite <- !app_assoc).
    rewrite E, load_at by done. cbn [mbind option_bind]. rewrite (proj2 (Z.eqb_neq c _)) by congruence.
    rewrite <- (app_assoc _ g (c :: s)). apply IH; [done|lia].
Qed.

Lemma quad_number_byte g v : quad_number g v → is_u8 v.
Proof. intros ([_ H%dec_value_range] & _ & <- & ?). unfold is_u8. lia. Qed.
Lemma holds_quads o vs a b c d : holds o vs → len vs ≤ 6 → bytes_ok [a; b; c; d] →
  holds (zwrite (2 * len vs) [a; b; c; d] o) (vs ++ [256 * a + b; 256 * c + d]).
Proof.
  intros (rest & -> & H16) Hl Hok. pose proof (len_blocks_mem vs) as Hb. rewrite len_app in H16.
  exists (zdrop 4 rest). split.
  - unfold zwrite. change (len [a; b; c; d]) with 4. rewrite <- Hb, ztake_app, <- zdrop_zdrop, zdrop_app by len_lia.
    rewrite blocks_mem_app, <- app_assoc. do 2 f_equal. unfold blocks_mem. cbn [mbind list_bind app].
    inversion Hok as [|? ? Ha Hok1]; subst. inversion Hok1 as [|? ? Hbb Hok2]; subst.
    inversion Hok2 as [|? ? Hc Hok3]; subst. inversion Hok3 as [|? ? Hd _]; subst. unfold is_u8 in *.
    rewrite (Z.mul_comm 256 a), (Z.mul_comm 256 c), !Z.div_add_l, !(Z.div_small _ 256), !Z.add_0_r by lia.
    rewrite !(Z.add_comm (_ * 256)), !Z.mod_add, !Z.mod_small by lia. done.
  - rewrite len_zwrite; rewrite ?len_app; change (len [a; b; c; d]) with 4; len_lia.
Qed.

Lemma finish_full vs f : finish (-1) vs f ↔ len vs = 8 ∧ f = vs.
Proof. done. Qed.
Lemma finish_max k vs f : finish k vs f → len vs ≤ 8.
Proof. unfold finish. case_match; intros [? _]; lia. Qed.

Lemma ipv4_ending_ok init pre vs k start g s p : len init = 4 → parser_state vs k g p → before pre vs k start →
  result_ok (accepts vs k start (g ++ chr "." :: s)) (ipv4_ending init (pre ++ g ++ chr "." :: s) (len (pre ++ g)) p).
Proof.
  intros Hi H Hbefore. unfold ipv4_ending. destruct H as [Hn Hk Hb He Ho Hg Hv Hk' Hm].
  set (t := g ++ chr "." :: s). assert (len (out p) = 16) as H16 by (by eapply holds_len).
  assert (∀ f, accepts vs k start t f ↔
    ∃ a b c d, quads t [a; b; c; d] ∧ finish k (vs ++ [256 * a + b; 256 * c + d]) f) as Hacc by (by intros f; apply accepts_dot).
  assert (∀ a b, len (vs ++ [a; b]) = len vs + 2) as Hlen by (intros; by rewrite len_app).
  rewrite He, Hn, Hk. destruct (bool_decide (g = []) || ((len vs =? 0) && (k =? -1))) eqn:Ec.
  { apply result_rejected; [done|]. intros f (a & b & c & d & Ht & Hf)%Hacc. bool_to_prop. destruct Ec as [Ec|Ec]; bool_to_prop.
    - subst g. apply (separated_head quad_number_no_dot []) in Ht as (v & ws & _ & ([Hne _] & _) & _); [done|apply not_elem_of_nil].
    - match goal with H : k = -1 |- _ => rewrite H in Hf end. apply finish_full in Hf as [Hf _]. rewrite Hlen in Hf. lia. }
  unfold before in Hbefore. destruct start.
  { destruct Hbefore as (_ & Hvs & Hk1). rewrite Hvs, Hk1, orb_true_r in Ec. done. }
  clear Ec. destruct Hbefore as (pre' & ->).
  pose proof (back_loop_ok (S (length ((pre' ++ [chr ":"]) ++ t))) pre' g (chr "." :: s)) as Eback. fold t in Eback.
  rewrite Eback; [|apply hex_no_char; [done|apply not_hex_colon]|unfold t; rewrite !length_app; lia]. clear Eback.
  cbn [mbind option_bind].
  destruct (quad_loop_ok (S (length ((pre' ++ [chr ":"]) ++ t))) ((pre' ++ [chr ":"]) ++ t) (pre' ++ [chr ":"]) [] [] t
    (MkIpv4Parser init 0 0 true)) as (r & Er & [Hr1 Hr2]); [done|rewrite !length_app; lia| |done|].
  { unfold quad_state. split_and!; try done. by exists init. }
  cbn [app] in Hr1, Hr2. rewrite app_nil_r in Er. rewrite Er. cbn [mbind option_bind].
  assert (∀ a b c d, quads t [a; b; c; d] → quad_done r [a; b; c; d]) as Hdone.
  { intros a b c d Ht. apply Hr1. exists [a; b; c; d]. by split_and!. }
  destruct r as [q|]; cycle 1.
  { apply result_rejected; [done|]. intros f (a & b & c & d & (q & [=] & _)%Hdone & _)%Hacc. }
  destruct (negb (cur_byte q =? 3) || byte_empty q) eqn:Eq.
  { apply result_rejected; [done|]. intros f (a & b & c & d & (q' & [= <-] & E3 & E4 & _)%Hdone & _)%Hacc.
    rewrite E3, E4 in Eq. done. }
  bool_to_prop. destruct (Hr2 q) as (qs & (ws & Hws & Hl4 & ->) & (q' & [= <-] & _ & _ & Hst)); [done..|].
  cbn [app] in Hst. rewrite Hst. cbn [mbind option_bind].
  assert (∃ a b c d, ws = [a; b; c; d]) as (a & b & c & d & ->).
  { change (len []) with 0 in Hl4. unfold len in Hl4. destruct ws as [|a [|b [|c [|d [|??]]]]]; cbn in Hl4; try lia. eauto. }
  assert (∀ f, accepts vs k false t f ↔ finish k (vs ++ [256 * a + b; 256 * c + d]) f) as Hacc'.
  { intros f. rewrite Hacc. split; [|by eauto 10]. intros (a' & b' & c' & d' & Ht & Hf).
    destruct (Hdone _ _ _ _ Ht) as (q' & [= <-] & _ & _ & Hst'). rewrite Hst in Hst'. by simplify_eq. }
  destruct (Z.ltb_spec (8 - len vs) 2).
  { apply result_rejected; [done|]. intros f Hf%Hacc'%finish_max. rewrite Hlen in Hf. lia. }
  rewrite H16, (proj2 (Z.leb_le _ 16)) by lia. eapply result_iff; [exact Hacc'|].
  apply ipv4_done_ok; [cbn; by rewrite Hlen|done|rewrite Hlen; lia|rewrite Hlen; lia|].
  apply holds_quads; [done|lia|]. eapply separated_forall; [apply quad_number_byte|exact Hws].
Qed.

Lemma before_pos pre g vs k start : before pre vs k start →
  0 < len (pre ++ g) ∨ start = true ∧ pre = [] ∧ vs = [] ∧ k = -1 ∧ g = [].
Proof.
  unfold before. rewrite len_app. destruct start.
  - intros (-> & -> & ->). destruct g; [by right|]. left. rewrite len_cons. len_lia.
  - intros (pre' & ->). left. rewrite len_app. change (len [chr ":"]) with 1. len_lia.
Qed.

Lemma is_double_ok pre c s : let i := len pre in
  (if i + 1 <? len (pre ++ c :: s) then d ← load (i + 1) (pre ++ c :: s); Some (d =? ":"%char) else Some false) =
  Some (bool_decide (head s = Some (chr ":"))).
Proof.
  cbv zeta. rewrite len_app, len_cons. destruct s as [|d s].
  - rewrite len_nil. destruct (Z.ltb_spec (len pre + 1) (len pre + (1 + 0))); [lia|done].
  - rewrite len_cons, (proj2 (Z.ltb_lt _ _)) by len_lia.
    rewrite (cons_middle c pre (d :: s)), app_assoc. cbn [app]. rewrite load_at; cycle 1.
    { rewrite len_app. change (len [c]) with 1. lia. }
    cbn [mbind option_bind head]. f_equal. apply eq_true_iff_eq. rewrite Z.eqb_eq, bool_decide_eq_true. naive_solver.
Qed.

Lemma state_put vs k g p : parser_state vs k g p → g ≠ [] → len vs ≠ 7 →
  ∃ q, put_block p = Some q ∧ compress_pos q = k ∧ len vs ≤ 6 ∧
    ∀ k', k' = -1 ∨ 0 ≤ k' ≤ len vs + 1 →
      parser_state (vs ++ [hex_value g]) k' [] (q <| block := 0 |> <| empty := true |> <| compress_pos := k' |>).
Proof.
  intros [Hn Hk Hb He Ho Hg Hv Hk' Hm] Hne H7. pose proof (hex_value_range g Hg).
  destruct (put_block_ok p vs (hex_value g)) as (o & E & Ho'); [done..|lia|]. eexists. split_and!; [exact E|done|lia|].
  intros k' Hk''. assert (len (vs ++ [hex_value g]) = len vs + 1) as Hl by (by rewrite len_app).
  split; cbn; try done; rewrite ?Hl; try lia.
Qed.

(** A round of the loop at a colon. *)
Lemma round_colon pre vs k start g s p (i := len (pre ++ g)) (name := pre ++ g ++ chr ":" :: s) :
  parser_state vs k g p → before pre vs k start →
  (∃ o, addr_round name (chr ":") i p = Some (Rejected o) ∧ len o = 16 ∧
    ∀ f, accepts vs k start (g ++ chr ":" :: s) f → False) ∨
  (∃ s1 s2 vs' k' p', s = s1 ++ s2 ∧ (s1 = [] ∨ s1 = [chr ":"]) ∧
    addr_round name (chr ":") i p = Some (Continue (i + 1 + len s1, p')) ∧ parser_state vs' k' [] p' ∧
    ∀ f, accepts vs k start (g ++ chr ":" :: s) f ↔ accepts vs' k' false s2 f).
Proof.
  intros H Hbefore. pose proof (ps_digits _ _ _ _ H) as Hg. pose proof (ps_value _ _ _ _ H) as Hv.
  pose proof (ps_max _ _ _ _ H) as Hm. pose proof (ps_k _ _ _ _ H) as Hk'. pose proof (ps_compress _ _ _ _ H) as Hk.
  assert (len (out p) = 16) as H16 by (eapply holds_len, H).
  unfold addr_round. rewrite Z.eqb_refl. unfold name, i. rewrite app_assoc.
  pose proof (is_double_ok (pre ++ g) (chr ":") s) as Hd. cbv zeta in Hd. rewrite Hd. cbn [mbind option_bind]. clear Hd.
  rewrite (ps_empty _ _ _ _ H), (ps_num _ _ _ _ H).
  destruct (before_pos pre g vs k start Hbefore) as [Hpos|(-> & -> & -> & -> & ->)].
  - rewrite (proj2 (Z.ltb_lt 0 _)) by done. destruct (bool_decide_reflect (g = [])) as [->|Hne]; cbn [orb].
    { left. eexists. split_and!; [done..|]. cbn [app]. intros f (-> & Hvs & Hk1 & _)%accepts_leading.
      destruct Hbefore as (-> & _). by compute in Hpos. }
    assert (∀ f, accepts vs k start (g ++ chr ":" :: s) f ↔
      (s ≠ [] ∧ accepts (vs ++ [hex_value g]) k false s f) ∨
      (∃ s', s = chr ":" :: s' ∧ k = -1 ∧ len vs ≤ 6 ∧ accepts (vs ++ [hex_value g]) (len vs + 1) false s' f)) as Hacc
      by (intros f; by apply accepts_colon).
    assert (len (vs ++ [hex_value g]) = len vs + 1) as Hl by (by rewrite len_app).
    destruct (Z.eqb_spec (len vs) 7) as [E7|E7].
    { left. eexists. split_and!; [done..|]. intros f [[Hs Ha%accepts_room]|(s' & _ & _ & ? & _)]%Hacc; [|done|lia].
      rewrite Hl in Ha. lia. }
    destruct (state_put vs k g p H Hne E7) as (q & -> & Hqk & Hl6 & Hq). cbn [mbind option_bind].
    destruct (bool_decide_reflect (head s = Some (chr ":"))) as [Hs|Hs].
    + destruct s as [|c s]; [done|]. injection Hs as ->. cbn [compress_pos]. change (compress_pos (q <| block := 0 |> <| empty := true |>)) with (compress_pos q).
      rewrite Hqk. destruct (Z.eqb_spec k (-1)) as [->|Hk1]; cbn [negb].
      * right. exists [chr ":"], s, (vs ++ [hex_value g]), (len vs + 1). eexists.
        split_and!; [done|by right| | |].
        -- do 3 f_equal. change (len [chr ":"]) with 1. lia.
        -- assert (num_blocks (q <| block := 0 |> <| empty := true |>) = len vs + 1) as ->.
           { pose proof (ps_num _ _ _ _ (Hq (-1) ltac:(by left))) as E. rewrite Hl in E. exact E. }
           apply Hq. right. len_lia.
        -- intros f. rewrite Hacc. split; [|by eauto 10]. intros [[_ []%accepts_second]|(s' & [= <-] & _ & _ & ?)]. done.
      * left. eexists. split_and!; [done| |].
        -- eapply holds_len. apply (ps_out _ _ _ _ (Hq (-1) ltac:(by left))).
        -- intros f [[_ []%accepts_second]|(s' & _ & ? & _)]%Hacc. done.
    + right. exists [], s, (vs ++ [hex_value g]), k. eexists. split_and!; [done|by left| | |].
      * change (len []) with 0. by rewrite Z.add_0_r.
      * replace (q <| block := 0 |> <| empty := true |>) with (q <| block := 0 |> <| empty := true |> <| compress_pos := k |>)
          by (destruct q; cbn in *; by subst). apply Hq. lia.
      * intros f. rewrite Hacc. split.
        -- intros [[_ ?]|(s' & -> & _)]; [done|by destruct Hs].
        -- intros Ha. left. split; [|done]. intros ->. apply (accepts_end _ _ _ []) in Ha as [[? _]|(_ & E & _)]; [done| |done].
           rewrite Hl in E. len_lia.
  - cbn [app]. change (len []) with 0. cbn [Z.ltb Z.compare Z.add].
    destruct (bool_decide_reflect (head s = Some (chr ":"))) as [Hs|Hs]; cbn [negb].
    + destruct s as [|c s]; [done|]. injection Hs as ->. right. cbn [mbind option_bind]. rewrite Hk. cbn [negb Z.eqb Z.compare Pos.eqb].
      exists [chr ":"], s, [], 0. eexists. split_and!; [done|by right|done| |].
      * assert (num_blocks p = 0) as -> by apply H. destruct H. split; cbn; try done. right. change (len []) with 0. lia.
      * intros f. rewrite accepts_leading. split; [|by eauto 10]. by intros (_ & _ & _ & s' & [= <-] & ?).
    + left. eexists. split_and!; [done..|]. intros f (_ & _ & _ & s' & -> & _)%accepts_leading. by destruct Hs.
Qed.

(** A round of the loop at another character. *)
Lemma round_digit vs k start g c s p i name : parser_state vs k g p → c ≠ chr ":" → c ≠ chr "." →
  (addr_round name c i p = Some (Rejected (out p)) ∧ ∀ f, accepts vs k start (g ++ c :: s) f → False) ∨
  (∃ p', addr_round name c i p = Some (Continue (i + 1, p')) ∧ parser_state vs k (g ++ [c]) p').
Proof.
  intros H Hc Hd. unfold addr_round. rewrite (proj2 (Z.eqb_neq _ _)) by done.
  destruct H as [Hn Hk Hb He Ho Hg Hv Hk' Hm]. rewrite decode_hex_digit_spec, Hb. case_decide as Hh; cycle 1.
  { left. split; [done|]. intros f Ha%accepts_chars. apply Forall_app in Ha as [_ [[?|[?|?]] _]%Forall_cons]; done. }
  assert (Forall hex_digit (g ++ [c])) as Hgc by (apply Forall_app; split; [done|by apply Forall_singleton]).
  assert (∀ f, accepts vs k start (g ++ c :: s) f → 16 * hex_value g + hex_digit_value c ≤ 65535) as Hmax.
  { intros f Ha. rewrite (cons_middle c), app_assoc in Ha. apply accepts_value in Ha; [|done].
    by rewrite hex_value_snoc in Ha. }
  pose proof (hex_digit_value_range c Hh). pose proof (hex_value_range g Hg).
  destruct (Z.ltb_spec (hex_digit_value c) 0); [lia|]. change (UINT16_MAX / 16) with 4095. unfold UINT16_MAX, u16.
  destruct (Z.ltb_spec 4095 (hex_value g)); [left; split; [done|]; intros f ?%Hmax; lia|].
  rewrite (Z.mod_small (hex_value g * 16)) by lia.
  destruct (Z.ltb_spec (65535 - hex_value g * 16) (hex_digit_value c)); [left; split; [done|]; intros f ?%Hmax; lia|].
  right. rewrite Z.mod_small by lia. eexists. split; [done|].
  split; cbn; rewrite ?hex_value_snoc; try done; [lia|by destruct g|lia].
Qed.

(** The end of the text. *)
Lemma addr_end_ok init name vs k start g p : parser_state vs k g p →
  result_ok (accepts vs k start g) (addr_end init name (Continue (None, p))).
Proof.
  intros [Hn Hk Hb He Ho Hg Hv Hk' Hm]. pose proof (hex_value_range g Hg). cbn [addr_end]. rewrite He.
  assert (∀ f, accepts vs k start g f ↔ (g ≠ [] ∧ hex_value g ≤ 65535 ∧ finish k (vs ++ [hex_value g]) f) ∨
    (g = [] ∧ len vs = k ∧ finish k vs f)) as Hacc by (intros f; by apply accepts_end).
  assert (len (vs ++ [hex_value g]) = len vs + 1) as Hl by (by rewrite len_app).
  destruct (bool_decide_reflect (g = [])) as [Hne|Hne]; cbn [negb].
  - rewrite Hn, Hk. destruct (Z.eqb_spec (len vs) k) as [E|E]; cbn [negb].
    + eapply result_iff; [|eapply (ipv4_done_ok p vs k); [done..|lia|done]]. intros f. rewrite Hacc. naive_solver.
    + apply result_rejected; [by eapply holds_len|]. intros f. rewrite Hacc. naive_solver.
  - destruct (put_block_ok p vs (hex_value g)) as (o & -> & Ho'); [done..|lia|]. cbn [mbind option_bind].
    eapply result_iff; [|eapply (ipv4_done_ok _ (vs ++ [hex_value g]) k); [done|done| |lia|done]].
    + intros f. rewrite Hacc. naive_solver.
    + rewrite Hl. lia.
Qed.

Lemma addr_loop_ok init rounds name pre vs k start g s p : len init = 4 → name = pre ++ g ++ s → (length s < rounds)%nat →
  parser_state vs k g p → before pre vs k start →
  result_ok (accepts vs k start (g ++ s)) (r ← addr_loop rounds name (len (pre ++ g)) p; addr_end init name r).
Proof.
  intros Hi Hname. revert pre vs k start g s p Hname.
  induction rounds as [|rounds IH]; intros pre vs k start g s p Hname Hr Hp Hb; [lia|].
  cbn [addr_loop]. destruct s as [|c s].
  { rewrite app_nil_r in *. subst name. rewrite Z.ltb_irrefl. cbn [mbind option_bind]. by apply addr_end_ok. }
  cbn [length] in Hr. rewrite (proj2 (Z.ltb_lt _ (len name))).
  2:{ rewrite Hname, app_assoc, (len_app _ (c :: s)), len_cons. len_lia. }
  replace (load (len (pre ++ g)) name) with (Some c) by (by rewrite Hname, app_assoc, load_at).
  cbn [mbind option_bind]. destruct (Z.eqb_spec c (chr ".")) as [->|Hdot].
  { cbn [addr_end]. rewrite Hname. by apply ipv4_ending_ok. }
  destruct (decide (c = chr ":")) as [->|Hcolon].
  - rewrite Hname. destruct (round_colon pre vs k start g s p Hp Hb) as [(o & -> & Ho & Hno)|(s1 & s2 & vs' & k' & p' & Es & Hs1 & -> & Hp' & Heq)];
      cbn [mbind option_bind addr_end]; [by apply result_rejected|].
    rewrite <- Hname. eapply result_iff; [exact Heq|]. subst s.
    replace (len (pre ++ g) + 1 + len s1) with (len ((pre ++ g ++ chr ":" :: s1) ++ [])).
    2:{ rewrite app_nil_r, !len_app, len_cons. lia. }
    apply (IH _ vs' k' false [] s2 p'); [|rewrite length_app in Hr; lia|done|].
    + rewrite Hname, <- !app_assoc. done.
    + destruct Hs1 as [-> | ->]; [exists (pre ++ g)|exists (pre ++ g ++ [chr ":"])]; by rewrite <- !app_assoc.
  - destruct (round_digit vs k start g c s p (len (pre ++ g)) name Hp Hcolon Hdot) as [[-> Hno]|(p' & -> & Hp')];
      cbn [mbind option_bind addr_end].
    { apply result_rejected; [|done]. eapply holds_len, Hp. }
    replace (len (pre ++ g) + 1) with (len (pre ++ g ++ [c])) by (rewrite !len_app; change (len [c]) with 1; lia).
    replace (g ++ c :: s) with ((g ++ [c]) ++ s) by (by rewrite <- app_assoc).
    apply (IH pre vs k start (g ++ [c]) s p'); [by rewrite Hname, <- !app_assoc|lia|done..].
Qed.

(** The parser accepts exactly the texts of addresses. *)
Lemma ipv6_parse_spec init name old : len init = 4 → len old = 16 →
  ∃ ret a, ipaddr6_parse_ipv6_addr_bin init name old = Some (ret, a) ∧ len a = 16 ∧
    (ret = true → ∃ f, ipv6_text name f ∧ a = blocks_mem f) ∧
    (∀ f, ipv6_text name f → ret = true ∧ a = blocks_mem f).
Proof.
  intros Hi Ho. unfold ipaddr6_parse_ipv6_addr_bin.
  assert (result_ok (ipv6_text name) (r ← addr_loop (S (length name)) name (len ([] ++ [] : bytes)) (MkParser 0 (-1) 0 true old);
    addr_end init name r)) as H; [|exact H].
  eapply result_iff; [intros f; symmetry; apply accepts_text|]. change name with ([] ++ name) at 2.
  apply (addr_loop_ok init _ name [] [] (-1) true [] name); [done|done|lia| |done].
  split; cbn; try done; [by exists old|by left].
Qed.
End Ipv6Parser.

(** * The printer *)
Module Ipv6Printer.
Export Ipv6Parser.

(** Groups with colons between them. *)
Fixpoint colons (gs : list bytes) : bytes :=
  match gs with
  | [] => []
  | [g] => g
  | g :: gs => g ++ chr ":" :: colons gs
  end.

(** The canonical text of an address (RFC 5952): the first of the longest runs of
    zero blocks is left out, if it has more than one block. *)
Definition zero_run (vs : list Z) (s l : Z) : Prop :=
  0 ≤ s ∧ 0 ≤ l ∧ s + l ≤ len vs ∧ ∀ j, s ≤ j < s + l → vs !! Z.to_nat j = Some 0.
Definition longest_run (vs : list Z) (s l : Z) : Prop :=
  zero_run vs s l ∧ ∀ s' l', zero_run vs s' l' → 0 < l' → l' < l ∨ l' = l ∧ s ≤ s'.
Definition canonical (vs : list Z) (t : bytes) : Prop :=
  ∃ s l, longest_run vs s l ∧
    t = if 1 <? l then colons (print_hex <$> ztake s vs) ++ str "::" ++ colons (print_hex <$> zdrop (s + l) vs)
        else colons (print_hex <$> vs).

(** ** Blocks of an address *)

Fixpoint blocks_of (a : bytes) : list Z :=
  match a with
  | b0 :: b1 :: a => 256 * b0 + b1 :: blocks_of a
  | _ => []
  end.
Lemma blocks_of_spec n a : length a = (n + n)%nat → bytes_ok a →
  blocks_mem (blocks_of a) = a ∧ length (blocks_of a) = n ∧ Forall is_u16 (blocks_of a).
Proof.
  revert a. induction n as [|n IH]; intros a Ha Hok.
  { by destruct a. }
  destruct a as [|b0 [|b1 a]]; cbn in Ha; [lia|lia|]. apply Forall_cons in Hok as [H0 Hok]. apply Forall_cons in Hok as [H1 Hok].
  destruct (IH a) as (E & El & Hf); [lia|done|]. cbn [blocks_of length]. split_and!; [|by f_equal|].
  - change (blocks_mem (256 * b0 + b1 :: blocks_of a)) with
      ((256 * b0 + b1) / 256 :: (256 * b0 + b1) mod 256 :: blocks_mem (blocks_of a)). rewrite E. unfold is_u8 in *.
    rewrite (Z.mul_comm 256), Z.div_add_l, (Z.div_small b1), Z.add_0_r by lia.
    by rewrite Z.add_comm, Z.mod_add, Z.mod_small by lia.
  - constructor; [|done]. unfold is_u8, is_u16 in *. lia.
Qed.

Lemma load_bytes vs i v : 0 ≤ i → vs !! Z.to_nat i = Some v →
  load (2 * i) (blocks_mem vs) = Some (v / 256) ∧ load (2 * i + 1) (blocks_mem vs) = Some (v mod 256).
Proof.
  intros Hi Hv. rewrite <- (take_drop_middle vs (Z.to_nat i) v Hv).
  pose proof (len_blocks_mem (take (Z.to_nat i) vs)) as Hl. apply lookup_lt_Some in Hv.
  assert (len (take (Z.to_nat i) vs) = i) as El by (unfold len; rewrite length_take; lia).
  rewrite blocks_mem_app. set (pre := blocks_mem (take (Z.to_nat i) vs)) in *. set (post := drop _ vs).
  change (blocks_mem (v :: post)) with (v / 256 :: v mod 256 :: blocks_mem post). split.
  - apply load_at. lia.
  - rewrite (cons_middle (v / 256)), app_assoc. apply load_at. rewrite len_app. change (len [v / 256]) with 1. lia.
Qed.
Lemma load_block_ok vs i v : 0 ≤ i → is_u16 v → vs !! Z.to_nat i = Some v → load_block i (blocks_mem vs) = Some v.
Proof.
  intros Hi Hv Hl. destruct (load_bytes vs i v Hi Hl) as [E0 E1]. unfold load_block. rewrite E0, E1.
  cbn [mbind option_bind]. f_equal. pose proof (Z.mod_pos_bound v 256 ltac:(lia)).
  rewrite shiftl_lor by lia. change (2 ^ 8) with 256. rewrite (Z.div_mod v 256) at 3 by lia. lia.
Qed.

(** ** The longest run of zero blocks *)

Definition runs_inv (vs : list Z) (i : Z) (r : zero_runs) : Prop :=
  zero_run vs (largest_start r) (largest_len r) ∧ largest_start r + largest_len r ≤ i ∧
  zero_run vs (current_start r) (current_len r) ∧ current_start r + current_len r = i ∧
  (∀ s l, zero_run vs s l → 0 < l → s + l = i → current_start r ≤ s) ∧
  (∀ s l, zero_run vs s l → 0 < l → s + l ≤ i → l < largest_len r ∨ l = largest_len r ∧ largest_start r ≤ s).

Lemma runs_step vs i v r : runs_inv vs i r → vs !! Z.to_nat i = Some v →
  runs_inv vs (i + 1)
    (if v =? 0 then
       let r := r <| current_len := current_len r + 1 |> in
       if largest_len r <? current_len r then
         r <| largest_start := current_start r |> <| largest_len := current_len r |>
       else r
     else r <| current_start := i + 1 |> <| current_len := 0 |>).
Proof.
  destruct r as [ls ll cs cl]. unfold runs_inv. cbn. intros (Hl & Hli & Hc & Hci & Hcs & Hmax) Hv.
  assert (Z.to_nat i < length vs)%nat as Hi by by eapply lookup_lt_Some.
  pose proof Hc as (Hc0 & Hc1 & Hc2 & Hcz). pose proof Hl as (Hl0 & Hl1 & Hl2 & Hlz).
  assert (∀ s l, zero_run vs s l → 0 < l → s + l = i + 1 → v = 0 ∧ (l = 1 ∨ zero_run vs s (l - 1))) as Hlast.
  { intros s l (H0 & H1 & H2 & Hz) Hl' E. split.
    - specialize (Hz i ltac:(lia)). congruence.
    - destruct (decide (l = 1)); [by left|right]. split_and!; [lia..|]. intros j ?. apply Hz. lia. }
  destruct (Z.eqb_spec v 0) as [->|Hv0].
  - assert (zero_run vs cs (cl + 1)) as Hc'.
    { split_and!; [lia|lia|unfold len; lia|]. intros j Hj. destruct (decide (j = i)) as [->|]; [done|apply Hcz; lia]. }
    assert (∀ s l, zero_run vs s l → 0 < l → s + l = i + 1 → cs ≤ s) as Hcs'.
    { intros s l H1 H2 H3. destruct (Hlast s l H1 H2 H3) as [_ [->|Hs]]; [lia|].
      destruct (decide (l = 1)); [lia|]. apply (Hcs s (l - 1) Hs); lia. }
    destruct (Z.ltb_spec ll (cl + 1)); cbn; (split_and!; [done|lia|done|lia|done|]); intros s l H1 H2 H3;
      (destruct (decide (s + l = i + 1)) as [E|]; [pose proof (Hcs' s l H1 H2 E); lia|]);
      destruct (Hmax s l H1 H2 ltac:(lia)); lia.
  - cbn. split_and!; [done|lia| |lia| |].
    + split_and!; [lia|lia|unfold len; lia|intros; lia].
    + intros s l H1 H2 H3. by destruct (Hlast s l H1 H2 H3).
    + intros s l H1 H2 H3. destruct (decide (s + l = i + 1)) as [E|]; [by destruct (Hlast s l H1 H2 E)|].
      apply Hmax; [done|done|lia].
Qed.

Lemma runs_loop_ok vs n i r : Forall is_u16 vs → 0 ≤ i → i + Z.of_nat n = len vs → runs_inv vs i r →
  ∃ r', runs_loop n (blocks_mem vs) i r = Some r' ∧ runs_inv vs (len vs) r'.
Proof.
  intros Hu. revert i r. induction n as [|n IH]; intros i r Hi Hn Hr; cbn [runs_loop].
  { exists r. split; [done|]. by replace (len vs) with i by lia. }
  destruct (lookup_lt_is_Some_2 vs (Z.to_nat i)) as [v Hv]; [unfold len in Hn; lia|].
  destruct (load_bytes vs i v Hi Hv) as [-> ->]. cbn [mbind option_bind].
  assert (is_u16 v) as Huv by by eapply Forall_lookup_1. unfold is_u16 in Huv.
  replace ((v / 256 =? 0) && (v mod 256 =? 0)) with (v =? 0).
  - apply IH; [lia|lia|]. by apply runs_step.
  - pose proof (Z.div_mod v 256 ltac:(lia)). pose proof (Z.mod_pos_bound v 256 ltac:(lia)).
    destruct (Z.eqb_spec v 0) , (Z.eqb_spec (v / 256) 0), (Z.eqb_spec (v mod 256) 0); cbn; lia || done.
Qed.

Lemma runs_longest vs : Forall is_u16 vs → len vs = 8 →
  ∃ r, runs_loop 8 (blocks_mem vs) 0 (MkRuns 0 0 0 0) = Some r ∧ longest_run vs (largest_start r) (largest_len r).
Proof.
  intros Hu H8. assert (zero_run vs 0 0) as H0 by (split_and!; [lia..|intros; lia]).
  destruct (runs_loop_ok vs 8 0 (MkRuns 0 0 0 0)) as (r & E & (Hl & _ & _ & _ & _ & Hmax)); [done|lia|done| |].
  { unfold runs_inv. cbn. split_and!; [done|lia|done|lia| |].
    - intros s l (? & ? & ? & _) ? ?. lia.
    - intros s l (? & ? & ? & _) ? ?. lia. }
  exists r. split; [done|]. split; [done|]. intros s l Hz Hp. apply Hmax; [done..|apply Hz].
Qed.

(** ** The text in the buffer *)

(** The position is at the end of the text [t], in a buffer of size [n]. *)
Definition printed (t : bytes) (n : Z) (o : Z * bytes) : Prop :=
  ∃ rest, o = (len t, t ++ rest) ∧ len (t ++ rest) = n ∧ (t ≠ [] → head rest = Some 0).

Lemma put_ok t n o s : printed t n o → len (t ++ s) < n → s ≠ [] → ∃ o', put s o = Some o' ∧ printed (t ++ s) n o'.
Proof.
  intros (rest & -> & Hn & Ht) Hl Hs. unfold put. cbn [fst snd]. rewrite len_app in *.
  rewrite (sprintf_at _ t) by (done || lia). cbn [mbind option_bind]. eexists. split; [done|].
  exists (0 :: zdrop (len s + 1) rest). split_and!; [by rewrite len_app, <- app_assoc| |done].
  rewrite !len_app, len_cons, len_zdrop by len_lia. lia.
Qed.
Lemma printed_c_string t n o : printed t n o → t ≠ [] → 0 ∉ t → c_string o.2 t ∧ len o.2 = n.
Proof.
  intros (rest & -> & Hn & Ht) Hne H0. split; [|done]. specialize (Ht Hne). destruct rest as [|c rest]; [done|].
  injection Ht as ->. by exists rest.
Qed.

Lemma join_cons (x : bytes) l : mjoin (x :: l) = x ++ mjoin l.
Proof. done. Qed.
Lemma print_loop_ok vs format k i o t n : Forall is_u16 vs → (∀ h, format h ≠ []) → 0 ≤ i → i + Z.of_nat k ≤ len vs →
  printed t n o → len (t ++ mjoin ((λ v, format (print_hex v)) <$> zslice i (Z.of_nat k) vs)) < n →
  ∃ o', print_loop k (blocks_mem vs) format i o = Some o' ∧
    printed (t ++ mjoin ((λ v, format (print_hex v)) <$> zslice i (Z.of_nat k) vs)) n o'.
Proof.
  intros Hu Hf. revert i o t. induction k as [|k IH]; intros i o t Hi Hk Ho Hl; cbn [print_loop].
  { exists o. split; [done|]. change (zslice i (Z.of_nat 0) vs) with (@nil Z). cbn. by rewrite app_nil_r. }
  destruct (lookup_lt_is_Some_2 vs (Z.to_nat i)) as [v Hv]; [unfold len in Hk; lia|].
  assert (zslice i (Z.of_nat (S k)) vs = v :: zslice (i + 1) (Z.of_nat k) vs) as E.
  { unfold zslice, ztake, zdrop. rewrite (drop_S _ _ _ Hv), !Nat2Z.id. cbn [take]. do 3 f_equal. lia. }
  rewrite E, fmap_cons, join_cons, app_assoc in *. rewrite (load_block_ok vs i v) by (done || by eapply Forall_lookup_1).
  cbn [mbind option_bind]. destruct (put_ok t n o (format (print_hex v))) as (o1 & -> & Ho1); [done| |done|].
  { rewrite len_app in Hl. len_lia. }
  cbn [mbind option_bind]. apply IH; [lia|lia|done|done].
Qed.

Lemma fmap_format (format : bytes → bytes) (vs : list Z) : ((λ v, format (print_hex v)) <$> vs) = format <$> (print_hex <$> vs).
Proof. induction vs as [|v vs IH]; [done|]. by rewrite !fmap_cons, IH. Qed.

Definition sep_colons (sep : bytes) (gs : list bytes) : bytes :=
  match gs with [] => [] | _ => sep ++ colons gs end.
Lemma sep_colons_cons sep g gs : sep_colons sep (g :: gs) = (sep ++ g) ++ sep_colons (str ":") gs.
Proof. destruct gs; cbn; [by rewrite !app_nil_r|]. by rewrite <- !app_assoc. Qed.
Lemma colons_join gs : sep_colons (str ":") gs = mjoin ((λ g, str ":" ++ g) <$> gs).
Proof. induction gs as [|g gs IH]; [done|]. by rewrite sep_colons_cons, IH. Qed.
Lemma join_colons gs : mjoin ((λ g, g ++ str ":") <$> gs) = match gs with [] => [] | _ => colons gs ++ str ":" end.
Proof.
  induction gs as [|g gs IH]; [done|]. change (mjoin ((λ g, g ++ str ":") <$> g :: gs)) with
    ((g ++ str ":") ++ mjoin ((λ g, g ++ str ":") <$> gs)). rewrite IH.
  destruct gs as [|h gs]; cbn [colons]; [by rewrite app_nil_r|]. by rewrite <- !app_assoc.
Qed.

Lemma print_hex_nonempty v : is_u16 v → print_hex v ≠ [].
Proof. intros Hv. destruct (print_hex_spec v) as ([Hne _] & _); [unfold is_u16, is_u64 in *; lia|done]. Qed.

Lemma print_all_ok vs k sep i o t n : Forall is_u16 vs → 0 ≤ i → i + Z.of_nat k ≤ len vs →
  printed t n o → let text := t ++ sep_colons sep (print_hex <$> zslice i (Z.of_nat k) vs) in len text < n →
  ∃ o', print_all_loop k (blocks_mem vs) sep i o = Some o' ∧ printed text n o'.
Proof.
  intros Hu. revert sep i o t. induction k as [|k IH]; intros sep i o t Hi Hk Ho text Hl; cbn [print_all_loop].
  { exists o. split; [done|]. unfold text. change (zslice i (Z.of_nat 0) vs) with (@nil Z). cbn. by rewrite app_nil_r. }
  destruct (lookup_lt_is_Some_2 vs (Z.to_nat i)) as [v Hv]; [unfold len in Hk; lia|].
  assert (is_u16 v) as Huv by by eapply Forall_lookup_1.
  assert (zslice i (Z.of_nat (S k)) vs = v :: zslice (i + 1) (Z.of_nat k) vs) as E.
  { unfold zslice, ztake, zdrop. rewrite (drop_S _ _ _ Hv), !Nat2Z.id. cbn [take]. do 3 f_equal. lia. }
  unfold text in *. rewrite E, fmap_cons, sep_colons_cons, (app_assoc t) in *.
  rewrite (load_block_ok vs i v) by done. cbn [mbind option_bind].
  destruct (put_ok t n o (sep ++ print_hex v)) as (o1 & -> & Ho1); [done| | |].
  { rewrite len_app in Hl. len_lia. }
  { intros [_ ?]%app_eq_nil. by eapply print_hex_nonempty. }
  cbn [mbind option_bind]. apply IH; [lia|lia|done|done].
Qed.

(** ** Canonical texts *)

Lemma print_hex_group v : is_u16 v → hex_group (print_hex v) v ∧ len (print_hex v) ≤ 4.
Proof.
  intros Hv. unfold is_u16 in Hv. destruct (print_hex_spec v) as (Hh & Hx & Hl); [unfold is_u64; lia|].
  split; [split_and!; [done..|lia]|]. apply Hl; lia.
Qed.
Lemma colons_separated vs : Forall is_u16 vs → vs ≠ [] → separated (chr ":") hex_group (colons (print_hex <$> vs)) vs.
Proof.
  induction 1 as [|v vs Hv Hvs IH]; [done|]. intros _. apply print_hex_group in Hv as [Hv _].
  destruct vs as [|w vs]; [by apply separated_last|].
  change (colons (print_hex <$> v :: w :: vs)) with (print_hex v ++ chr ":" :: colons (print_hex <$> w :: vs)).
  apply separated_cons; [done|]. by apply IH.
Qed.
Lemma separated_groups s vs : separated (chr ":") hex_group s vs → groups s vs.
Proof. induction 1; by constructor. Qed.
Lemma colons_len vs : Forall is_u16 vs → len (colons (print_hex <$> vs)) ≤ Z.max 0 (5 * len vs - 1).
Proof.
  induction 1 as [|v vs Hv Hvs IH]; [done|]. apply print_hex_group in Hv as [_ Hv]. rewrite len_cons.
  destruct vs as [|w vs]; [change (len []) with 0; cbn [fmap list_fmap colons]; lia|].
  change (colons (print_hex <$> v :: w :: vs)) with (print_hex v ++ chr ":" :: colons (print_hex <$> w :: vs)).
  rewrite len_app, !len_cons in *. len_lia.
Qed.

Lemma zero_run_split vs s l : zero_run vs s l → vs = ztake s vs ++ replicate (Z.to_nat l) 0 ++ zdrop (s + l) vs.
Proof.
  intros (Hs & Hl & Hsl & Hz). rewrite <- (ztake_zdrop s vs) at 1. f_equal.
  rewrite <- (ztake_zdrop l (zdrop s vs)), zdrop_zdrop by lia. f_equal.
  apply list_eq. intros j. unfold ztake, zdrop. destruct (decide (j < Z.to_nat l)%nat) as [Hj|Hj].
  - rewrite lookup_take_lt, lookup_drop, lookup_replicate_2 by done.
    specialize (Hz (s + Z.of_nat j) ltac:(lia)). rewrite <- Hz. f_equal. lia.
  - rewrite lookup_take_ge by lia. symmetry. apply lookup_ge_None_2. rewrite length_replicate. lia.
Qed.

Lemma canonical_text vs t : Forall is_u16 vs → len vs = 8 → canonical vs t → ipv6_text t vs.
Proof.
  intros Hu H8 (s & l & [Hz _] & ->). pose proof (zero_run_split _ _ _ Hz) as E. destruct Hz as (Hs & Hl & Hsl & _).
  destruct (Z.ltb_spec 1 l) as [Hl1|_]; [|apply text_full; [|done]].
  - rewrite E at 3. rewrite H8 in Hsl. assert (len (ztake s vs) = s) as E1 by (rewrite len_ztake; lia).
    assert (len (zdrop (s + l) vs) = 8 - s - l) as E2 by (rewrite len_zdrop; lia).
    replace (Z.to_nat l) with (Z.to_nat (8 - len (ztake s vs) - len (zdrop (s + l) vs))) by lia. apply text_short; [| |lia|lia].
    + destruct (decide (ztake s vs = [])) as [->|Hne]; [by left|right]. apply colons_separated; [by apply Forall_take|done].
    + destruct (decide (zdrop (s + l) vs = [])) as [->|Hne]; [by left|right].
      apply separated_groups, colons_separated; [by apply Forall_drop|done].
  - apply separated_groups, colons_separated; [done|]. by intros ->.
Qed.
Lemma canonical_len vs t : Forall is_u16 vs → len vs = 8 → canonical vs t → len t ≤ 39.
Proof.
  intros Hu H8 (s & l & [(Hs & Hl & Hsl & _) _] & ->). destruct (Z.ltb_spec 1 l).
  - rewrite !len_app. change (len (str "::")) with 2.
    pose proof (colons_len (ztake s vs) ltac:(by apply Forall_take)) as H1. rewrite len_ztake in H1 by lia.
    pose proof (colons_len (zdrop (s + l) vs) ltac:(by apply Forall_drop)) as H2. rewrite len_zdrop in H2 by lia. lia.
  - pose proof (colons_len vs Hu). lia.
Qed.
Lemma ipv6_text_chars t vs : ipv6_text t vs → t ≠ [] ∧ Forall text_char t.
Proof.
  intros H%accepts_text. split; [|by eapply accepts_chars]. intros ->.
  apply (accepts_end _ _ _ []) in H as [[? _]|(_ & [=] & _)]; done.
Qed.
Lemma text_char_not_zero t : Forall text_char t → 0 ∉ t.
Proof.
  intros Ht Hi. rewrite Forall_forall in Ht. apply Ht in Hi. unfold text_char, hex_digit in Hi. chars. lia.
Qed.

(** The printer writes the canonical text, to a buffer of at least 40 bytes. *)
Lemma ipv6_print_spec vs buf : Forall is_u16 vs → len vs = 8 → 40 ≤ len buf →
  ∃ buf' t, ipaddr6_print_addr (blocks_mem vs) buf = Some buf' ∧ c_string buf' t ∧ canonical vs t ∧ len buf' = len buf.
Proof.
  intros Hu H8 Hb. destruct (runs_longest vs Hu H8) as (r & Er & Hlong). unfold ipaddr6_print_addr. rewrite Er.
  cbn [mbind option_bind]. set (s := largest_start r) in *. set (l := largest_len r) in *.
  set (t := if 1 <? l then colons (print_hex <$> ztake s vs) ++ str "::" ++ colons (print_hex <$> zdrop (s + l) vs)
            else colons (print_hex <$> vs)).
  assert (canonical vs t) as Hc by (by exists s, l). pose proof (canonical_len vs t Hu H8 Hc) as Hlen.
  assert (t ≠ [] ∧ Forall text_char t) as [Hne Hchars] by (by eapply ipv6_text_chars, canonical_text).
  assert (∀ m : option (Z * bytes), (∃ o, m = Some o ∧ printed t (len buf) o) →
    ∃ buf' t, (o ← m; Some o.2) = Some buf' ∧ c_string buf' t ∧ canonical vs t ∧ len buf' = len buf) as Hend.
  { intros m (o & -> & Ho). apply printed_c_string in Ho as [? ?]; [|done|by apply text_char_not_zero].
    exists o.2, t. by split_and!. }
  apply Hend. clear Hend. assert (printed [] (len buf) (0, buf)) as H0 by (by exists buf).
  destruct Hlong as [(Hs & Hl & Hsl & _) _]. destruct (Z.ltb_spec 1 l) as [Hl1|Hl1]; cycle 1.
  { destruct (print_all_ok vs 8 [] 0 (0, buf) [] (len buf)) as (o & -> & Ho); [done|lia|lia|done| |].
    - unfold zslice. rewrite zdrop_0, ztake_all by lia. fold t. destruct vs; [done|]. cbn [fmap list_fmap sep_colons app] in *. fold t. lia.
    - exists o. split; [done|]. unfold zslice in Ho. rewrite zdrop_0, ztake_all in Ho by lia. by destruct vs. }
  set (g1 := print_hex <$> ztake s vs) in *. set (g2 := print_hex <$> zdrop (s + l) vs) in *.
  assert (s = 0 ↔ g1 = []) as Hg1.
  { unfold g1. split; [by intros ->|]. intros E%fmap_nil_inv%(f_equal len). rewrite len_ztake in E by lia. done. }
  assert (s + l = 8 ↔ g2 = []) as Hg2.
  { unfold g2. split; [intros E; by rewrite zdrop_all by lia|]. intros E%fmap_nil_inv%(f_equal len).
    rewrite len_zdrop, len_nil in E by lia. lia. }
  assert (zslice 0 (Z.of_nat (Z.to_nat s)) vs = ztake s vs) as E1 by (unfold zslice; rewrite zdrop_0; f_equal; lia).
  assert (zslice (s + l) (Z.of_nat (Z.to_nat (8 - (s + l)))) vs = zdrop (s + l) vs) as E2.
  { unfold zslice. apply ztake_all. rewrite len_zdrop; lia. }
  set (f1 := mjoin ((λ g, g ++ str ":") <$> g1)). set (f2 := mjoin ((λ g, str ":" ++ g) <$> g2)).
  set (x1 := if s =? 0 then str ":" else []). set (x2 := if s + l =? 8 then str ":" else []).
  assert (f1 ++ x1 = colons g1 ++ str ":") as A1.
  { unfold f1, x1. rewrite join_colons. destruct (Z.eqb_spec s 0) as [->%Hg1|Hs0]; [done|].
    destruct g1; [by destruct Hs0; apply Hg1|]. by rewrite app_nil_r. }
  assert (f2 ++ x2 = str ":" ++ colons g2) as A2.
  { unfold f2, x2. rewrite <- colons_join. destruct (Z.eqb_spec (s + l) 8) as [->%Hg2|Hs0]; [done|].
    destruct g2; [by destruct Hs0; apply Hg2|]. by rewrite app_nil_r. }
  assert (t = f1 ++ x1 ++ f2 ++ x2) as Et.
  { rewrite A2, app_assoc, A1, <- app_assoc. done. }
  rewrite Et, !len_app in Hlen. pose proof (len_nonneg f1). pose proof (len_nonneg x1).
  pose proof (len_nonneg f2). pose proof (len_nonneg x2).
  destruct (print_loop_ok vs (λ h, h ++ str ":") (Z.to_nat s) 0 (0, buf) [] (len buf)) as (o1 & -> & Ho1);
    [done|by intros h [_ [=]]%app_eq_nil|lia|lia|done| |].
  { rewrite E1, (fmap_format (λ h, h ++ str ":")). change (len f1 < len buf). lia. }
  rewrite E1, (fmap_format (λ h, h ++ str ":")) in Ho1. change (printed f1 (len buf) o1) in Ho1. cbn [mbind option_bind].
  assert (∃ o2, (if s =? 0 then put (str ":") o1 else Some o1) = Some o2 ∧ printed (f1 ++ x1) (len buf) o2) as (o2 & -> & Ho2).
  { unfold x1 in *. destruct (s =? 0); [apply put_ok; [done|rewrite len_app; lia|done]|].
    rewrite app_nil_r. by exists o1. }
  cbn [mbind option_bind].
  destruct (print_loop_ok vs (λ h, str ":" ++ h) (Z.to_nat (8 - (s + l))) (s + l) o2 (f1 ++ x1) (len buf)) as (o3 & -> & Ho3);
    [done|done|lia|lia|done| |].
  { rewrite E2, (fmap_format (λ h, str ":" ++ h)), !len_app. change (len f1 + len x1 + len f2 < len buf). lia. }
  rewrite E2, (fmap_format (λ h, str ":" ++ h)) in Ho3. change (printed ((f1 ++ x1) ++ f2) (len buf) o3) in Ho3.
  cbn [mbind option_bind]. rewrite Et, !app_assoc.
  unfold x2 in *. destruct (s + l =? 8); [apply put_ok; [done|rewrite !len_app; lia|done]|].
  rewrite app_nil_r. by exists o3.
Qed.
End Ipv6Printer.
