(* ===== verification/IpAddr6Net.v ===== *)
(** Prefixes, interface addresses, masks and networks of misc/ipaddr6.h, and what
    the parser and the printer of IPv6 addresses do for each other. *)
From Stdlib Require Import Ascii String.
From S2P Require Import Prelude Misc TreeInterface BAddr ParseNumber IpAddr IpAddr6 IpAddr6Facts.

Module Ipv6Networks.
Export Ipv6Printer.

(** ** Interface addresses *)

Lemma ipv6_prefix_spec s p : ipaddr6_parse_ipv6_prefix_bin s = Some p ↔ is_decimal s ∧ dec_value s = p ∧ p ≤ 128.
Proof.
  unfold ipaddr6_parse_ipv6_prefix_bin. pose proof (parse_unsigned_spec s) as H. unfold UINT64_MAX in H.
  destruct (parse_unsigned_integer_bin s) as [d|].
  - destruct (proj1 (H d) eq_refl) as (Hs & Hv & _). destruct (Z.ltb_spec 128 d); naive_solver lia.
  - split; [done|]. intros (Hs & Hv & Hp). apply H. split_and!; [done..|lia].
Qed.

(** An address of the blocks [vs], a slash and the length of a prefix. *)
Definition ifaddr6_text (s : bytes) (vs : list Z) (p : Z) : Prop :=
  ∃ t q, s = t ++ chr "/" :: q ∧ ipv6_text t vs ∧ is_decimal q ∧ dec_value q = p ∧ p ≤ 128.

Lemma ipv6_ifaddr_spec init s old : len init = 4 → len (addr old) = 16 →
  ∃ ret i, ipaddr6_parse_ipv6_ifaddr_bin init s old = Some (ret, i) ∧ len (addr i) = 16 ∧
    (ret = true → ∃ vs, ifaddr6_text s vs (prefix i) ∧ addr i = blocks_mem vs) ∧
    (∀ vs p, ifaddr6_text s vs p → ret = true ∧ i = MkIpv6Ifaddr (blocks_mem vs) p).
Proof.
  intros Hi Ho. unfold ipaddr6_parse_ipv6_ifaddr_bin, b_find_char_bin. rewrite find_char_spec, Z.add_0_l.
  destruct (span_to_spec (chr "/") s) as (Hj & Hns & Hsplit). set (n := span_to (chr "/") s) in *.
  assert (∀ vs p, ifaddr6_text s vs p → n < len s ∧ ipv6_text (ztake n s) vs ∧
    ipaddr6_parse_ipv6_prefix_bin (zdrop (n + 1) s) = Some p) as Htext.
  { intros vs p (t & q & -> & Ht & Hp). assert (chr "/" ∉ t) as Hnt.
    { intros Hc. apply ipv6_text_chars in Ht as [_ Ht]. rewrite Forall_forall in Ht. apply Ht in Hc.
      unfold text_char, hex_digit in Hc. chars. lia. }
    assert (n = len t) as -> by (unfold n; rewrite span_to_app, span_to_cons by done; lia).
    rewrite len_app, len_cons, ztake_app, <- zdrop_zdrop, zdrop_app by len_lia. change (zdrop 1 (chr "/" :: q)) with q.
    split_and!; [len_lia|done|]. by apply ipv6_prefix_spec. }
  destruct (Z.ltb_spec n (len s)) as [Hlt|Hge]; cycle 1.
  { exists false, old. split_and!; [done..|]. intros vs p (? & _)%Htext. lia. }
  destruct (ipv6_parse_spec init (ztake n s) (addr old) Hi Ho) as (ret & a & E & Ha & H1 & H2). rewrite E.
  cbn [mbind option_bind]. destruct ret; cycle 1.
  { eexists _, _. split_and!; [done..|]. by intros vs p (_ & [? _]%H2 & _)%Htext. }
  destruct (ipaddr6_parse_ipv6_prefix_bin (zdrop (n + 1) s)) as [p|] eqn:Ep; cycle 1.
  { eexists _, _. split_and!; [done..|]. by intros vs p (_ & _ & ?)%Htext. }
  eexists _, _. split_and!; [done|done| |].
  - intros _. destruct (H1 eq_refl) as (vs & Ht & ->). exists vs. split; [|done]. specialize (Hsplit Hlt).
    exists (ztake n s), (zdrop (n + 1) s). apply ipv6_prefix_spec in Ep as (?&?&?). by split_and!.
  - intros vs q (_ & [_ ->]%H2 & [= ->])%Htext. done.
Qed.

Lemma print_ifaddr6_spec vs p buf : Forall is_u16 vs → len vs = 8 → 0 ≤ p ≤ 128 → IPADDR6_PRINT_MAX ≤ len buf →
  ∃ buf' s, ipaddr6_print_ifaddr (MkIpv6Ifaddr (blocks_mem vs) p) buf = Some buf' ∧ c_string buf' s ∧
    ifaddr6_text s vs p ∧ len buf' = len buf.
Proof.
  intros Hu H8 Hp Hb. unfold ipaddr6_print_ifaddr, IPADDR6_PRINT_MAX in *. cbn [prefix addr].
  rewrite !(proj2 (Z.leb_le _ _)) by lia.
  destruct (ipv6_print_spec vs buf Hu H8 ltac:(lia)) as (buf1 & t & -> & Hc & Hcan & Hl1). cbn [mbind option_bind].
  destruct (strlen_spec _ _ Hc) as [-> _]. destruct Hc as (rest & -> & H0). cbn [mbind option_bind].
  pose proof (canonical_len vs t Hu H8 Hcan). rewrite len_app in Hl1.
  destruct (print_decimal_spec p) as (Hd & Hv & Hdl & _); [unfold is_u64; lia|]. specialize (Hdl 3 ltac:(lia) ltac:(lia)).
  set (sfx := str "/" ++ print_decimal p). assert (len sfx ≤ 4) as Hsl by (unfold sfx; rewrite len_app; change (len (str "/")) with 1; lia).
  rewrite sprintf_at by (done || lia). eexists _, (t ++ sfx). split_and!; [done| | |].
  - rewrite app_assoc. eexists. split; [done|]. rewrite not_elem_of_app. split; [done|]. unfold sfx.
    rewrite not_elem_of_app. split; [intros [=]%list_elem_of_singleton|apply decimal_no_char; [lia|done]].
  - exists t, (print_decimal p). split_and!; [done|by apply canonical_text|done..|lia].
  - rewrite !len_app, len_cons, len_zdrop by len_lia. lia.
Qed.

(** ** Masks *)

(** The byte of a mask with [r] bits, and the mask of a prefix. *)
Definition top_bits (r : Z) : Z := Z.shiftl (Z.ones r) (8 - r).
Definition mask6 (p : Z) : bytes :=
  let q := p / 8 in
  if q =? 16 then replicate 16 255
  else replicate (Z.to_nat q) 255 ++ top_bits (p mod 8) :: replicate (Z.to_nat (15 - q)) 0.

Lemma mask6_from_prefix p out : 0 ≤ p ≤ 128 → len out = 16 → ipaddr6_ipv6_mask_from_prefix p out = Some (mask6 p).
Proof.
  intros Hp Ho. unfold ipaddr6_ipv6_mask_from_prefix. rewrite !(proj2 (Z.leb_le _ _)) by lia.
  assert (0 ≤ p / 8 ≤ 16) as Hq by (split; [apply Z.div_pos|apply Z.div_le_upper_bound]; lia).
  set (start := replicate (Z.to_nat (p / 8)) 255 ++ replicate (Z.to_nat (16 - p / 8)) 0).
  assert ((mask ← (if 0 <? p / 8 then memset 0 255 (p / 8) out else Some out);
    mask ← (if 0 <? 16 - p / 8 then memset (p / 8) 0 (16 - p / 8) mask else Some mask); Some mask) = Some start) as E.
  { assert (∀ (c n : Z), 0 ≤ n → len (replicate (Z.to_nat n) c) = n) as Hrep by (intros; unfold len; rewrite length_replicate; lia).
    assert (∀ m : bytes, len m = 16 → zdrop 16 m = []) as Hall by (intros; apply zdrop_all; lia).
    destruct (Z.ltb_spec 0 (p / 8)).
    - rewrite memset_ok by lia. cbn [mbind option_bind]. set (m := zwrite 0 _ out).
      assert (len m = 16) as Hm by (unfold m; rewrite len_zwrite; rewrite ?Hrep; lia).
      assert (ztake (p / 8) m = replicate (Z.to_nat (p / 8)) 255) as Ht.
      { unfold m, zwrite. rewrite ztake_0, app_nil_l. rewrite ztake_app_le by (rewrite Hrep; lia).
        apply ztake_all. rewrite Hrep; lia. }
      destruct (Z.ltb_spec 0 (16 - p / 8)).
      + rewrite memset_ok by lia. cbn [mbind option_bind]. f_equal. unfold start, zwrite.
        rewrite Ht, Hrep by lia. replace (p / 8 + (16 - p / 8)) with 16 by lia. by rewrite Hall, app_nil_r.
      + cbn [mbind option_bind]. f_equal. unfold start. rewrite <- Ht. replace (p / 8) with 16 by lia.
        rewrite ztake_all by lia. by rewrite app_nil_r.
    - cbn [mbind option_bind]. unfold start. replace (p / 8) with 0 by lia. change (16 - 0) with 16.
      rewrite memset_ok by lia. cbn [Z.ltb mbind option_bind Z.compare].
      f_equal. unfold zwrite. rewrite ztake_0, Hrep by lia. change (0 + 16) with 16. by rewrite Hall, app_nil_r. }
  assert (∀ k : bytes → option bytes, (mask ← (if 0 <? p / 8 then memset 0 255 (p / 8) out else Some out);
    mask ← (if 0 <? 16 - p / 8 then memset (p / 8) 0 (16 - p / 8) mask else Some mask); k mask) = k start) as E'.
  { intros k. destruct (if 0 <? p / 8 then _ else _) as [m|]; [|done]. cbn [mbind option_bind] in *.
    destruct (if 0 <? 16 - p / 8 then _ else _) as [m'|]; [|done]. cbn [mbind option_bind] in *. by injection E as ->. }
  rewrite E'. unfold start.
  apply (below_dec (λ p, mask6_loop (Z.to_nat (p mod 8)) (p / 8) 0
    (replicate (Z.to_nat (p / 8)) 255 ++ replicate (Z.to_nat (16 - p / 8)) 0) = Some (mask6 p)) 129); [|lia].
  by vm_compute.
Qed.

Lemma full_loop_spec rounds i s : len (replicate i 255 ++ s) = 16 → (length s < rounds)%nat →
  ∃ q s', full_loop rounds (replicate i 255 ++ s) (8 * Z.of_nat i) (Z.of_nat i) = Some (8 * Z.of_nat q, Z.of_nat q) ∧
    replicate i 255 ++ s = replicate q 255 ++ s' ∧ head s' ≠ Some 255.
Proof.
  revert i s. induction rounds as [|rounds IH]; intros i s H16 Hr; [lia|]. cbn [full_loop].
  assert (len (replicate i 255) = Z.of_nat i) as Hi by (unfold len; by rewrite length_replicate).
  rewrite len_app, Hi in H16. destruct s as [|b s].
  { rewrite len_nil in H16. destruct (Z.ltb_spec (Z.of_nat i) 16); [lia|]. by exists i, []. }
  rewrite len_cons in H16. cbn [length] in Hr. destruct (Z.ltb_spec (Z.of_nat i) 16); [|len_lia].
  rewrite load_at by done. cbn [mbind option_bind]. destruct (Z.eqb_spec b 255) as [->|Hb].
  - assert (replicate i 255 ++ 255 :: s = replicate (S i) 255 ++ s) as E.
    { rewrite replicate_S_end, <- app_assoc. done. }
    rewrite E. replace (8 * Z.of_nat i + 8) with (8 * Z.of_nat (S i)) by lia.
    replace (Z.of_nat i + 1) with (Z.of_nat (S i)) by lia. apply IH; [|lia]. rewrite <- E, len_app, len_cons. lia.
  - exists i, (b :: s). split_and!; [done..|]. cbn. congruence.
Qed.

Lemma zero_loop_spec rounds pre s : len (pre ++ s) = 16 → (length s < rounds)%nat →
  zero_loop rounds (pre ++ s) (len pre) = Some (bool_decide (s = replicate (length s) 0)).
Proof.
  revert pre s. induction rounds as [|rounds IH]; intros pre s H16 Hr; [lia|]. cbn [zero_loop].
  pose proof H16 as H16'. rewrite len_app in H16'. destruct s as [|b s].
  { rewrite len_nil in H16'. destruct (Z.ltb_spec (len pre) 16); [lia|done]. }
  rewrite len_cons in H16'. cbn [length] in Hr. destruct (Z.ltb_spec (len pre) 16); [|len_lia].
  rewrite load_at by done. cbn [mbind option_bind length replicate]. destruct (Z.eqb_spec b 0) as [->|Hb]; cbn [negb].
  - replace (len pre + 1) with (len (pre ++ [0])) by (by rewrite len_app).
    rewrite (cons_middle 0), app_assoc in *. rewrite IH by (done || lia). f_equal. apply bool_decide_ext.
    split; [by intros <-|by intros [= <-]].
  - f_equal. symmetry. apply bool_decide_eq_false. congruence.
Qed.

Lemma part_loop_spec b j : is_u8 b → part_loop 9 b 0 0 = Some j → 0 ≤ j ≤ 8 ∧ b = top_bits j.
Proof.
  intros Hb E.
  assert (match part_loop 9 b 0 0 with Some j => (0 <=? j) && (j <=? 8) && (b =? top_bits j) | None => true end = true) as H.
  { apply (below_dec (λ b, match part_loop 9 b 0 0 with
      Some j => (0 <=? j) && (j <=? 8) && (b =? top_bits j) | None => true end = true) 256); [by vm_compute|exact Hb]. }
  rewrite E in H. bool_to_prop. lia.
Qed.

Lemma prefix_from_mask6 mask : len mask = 16 → bytes_ok mask →
  ∃ r, ipaddr6_ipv6_prefix_from_mask mask = Some r ∧ ∀ p, r = Some p ↔ 0 ≤ p ≤ 128 ∧ mask = mask6 p.
Proof.
  intros H16 Hok. assert (∀ p, 0 ≤ p ≤ 128 → ipaddr6_ipv6_prefix_from_mask (mask6 p) = Some (Some p)) as Hback.
  { intros p Hp. apply (below_dec (λ p, ipaddr6_ipv6_prefix_from_mask (mask6 p) = Some (Some p)) 129); [|lia]. by vm_compute. }
  assert (∃ r, ipaddr6_ipv6_prefix_from_mask mask = Some r ∧ ∀ p, r = Some p → 0 ≤ p ≤ 128 ∧ mask = mask6 p) as (r & E & Hr).
  { unfold ipaddr6_ipv6_prefix_from_mask.
    destruct (full_loop_spec 17 0 mask H16) as (q & s & E & Em & Hh); [unfold len in H16; lia|].
    cbn [replicate app] in E, Em. change (8 * Z.of_nat 0) with 0 in E. change (Z.of_nat 0) with 0 in E. rewrite E.
    cbn [mbind option_bind]. clear E. subst mask.
    assert (len (replicate q 255) = Z.of_nat q) as Hq by (unfold len; by rewrite length_replicate).
    rewrite len_app, Hq in H16. destruct s as [|b s].
    { rewrite len_nil in H16. destruct (Z.ltb_spec (Z.of_nat q) 16); [lia|]. eexists. split; [done|].
      intros p [= <-]. assert (q = 16%nat) as -> by lia. done. }
    rewrite len_cons in H16. destruct (Z.ltb_spec (Z.of_nat q) 16) as [Hq16|]; [|len_lia].
    rewrite load_at by done. cbn [mbind option_bind].
    apply bytes_ok_app in Hok as [_ [Hb _]%Forall_cons]. destruct (part_loop 9 b 0 0) as [j|] eqn:Ej; [|by eexists].
    apply part_loop_spec in Ej as [Hj ->]; [|done].
    replace (Z.of_nat q + 1) with (len (replicate q 255 ++ [top_bits j])) by (rewrite len_app, Hq; done).
    rewrite (cons_middle (top_bits j)), app_assoc, zero_loop_spec; cycle 1.
    { rewrite !len_app, Hq. change (len [top_bits j]) with 1. lia. }
    { unfold len in H16. lia. }
    cbn [mbind option_bind]. eexists. split; [done|]. intros p Hp.
    destruct (bool_decide_reflect (s = replicate (length s) 0)) as [Es|]; [|done]. injection Hp as <-.
    assert (j ≠ 8) as Hj8 by (by intros ->). split; [lia|]. unfold mask6.
    replace (8 * Z.of_nat q + j) with (j + Z.of_nat q * 8) by lia.
    rewrite Z.div_add, (Z.div_small j), Z.add_0_l, Z.mod_add, (Z.mod_small j) by lia.
    destruct (Z.eqb_spec (Z.of_nat q) 16); [lia|]. rewrite Nat2Z.id, <- app_assoc. cbn [app]. do 2 f_equal.
    rewrite Es. f_equal. unfold len in H16. lia. }
  exists r. split; [done|]. intros p. split; [apply Hr|]. intros [Hp ->]. rewrite Hback in E by done. by injection E.
Qed.

(** ** Two addresses in a network *)

(** The number an address is, most significant byte first. *)
Definition addr_value (a : bytes) : Z := undigits 256 a.

Lemma bytes_digits a : bytes_ok a ↔ Forall (is_digit 256) a.
Proof. done. Qed.

Lemma set_bits_top r : 0 ≤ r < 8 → set_bits (Z.to_nat r) 0 0 = top_bits r.
Proof.
  intros Hr. apply (below_dec (λ r, set_bits (Z.to_nat r) 0 0 = top_bits r) 8); [|lia]. by vm_compute.
Qed.

(** The first bits of an address that is cut at byte [q]. *)
Lemma addr_value_cut pre x rest r : bytes_ok (pre ++ x :: rest) → 0 ≤ r < 8 →
  addr_value (pre ++ x :: rest) / 2 ^ (8 * len rest + (8 - r)) = undigits 256 pre * 2 ^ r + x / 2 ^ (8 - r).
Proof.
  intros [_ [Hx Hrest]%Forall_cons]%bytes_ok_app Hr. unfold addr_value.
  rewrite undigits_app, undigits_cons, len_cons, (Z.add_comm 1), Z.pow_add_r, Z.pow_1_r by len_lia.
  assert (2 ^ (8 * len rest + (8 - r)) = 256 ^ len rest * 2 ^ (8 - r)) as ->.
  { rewrite Z.pow_add_r, Z.pow_mul_r by len_lia. done. }
  assert (0 < 256 ^ len rest) by (apply Z.pow_pos_nonneg; len_lia).
  assert (0 ≤ undigits 256 rest < 256 ^ len rest) as Hr' by (apply (undigits_range (b := 256)); [lia|done]).
  replace (undigits 256 pre * (256 ^ len rest * 256) + (x * 256 ^ len rest + undigits 256 rest))
    with ((undigits 256 pre * 256 + x) * 256 ^ len rest + undigits 256 rest) by lia.
  rewrite <- Z.div_div, Z.div_add_l, (Z.div_small (undigits 256 rest)), Z.add_0_r by lia.
  replace (undigits 256 pre * 256) with (undigits 256 pre * 2 ^ r * 2 ^ (8 - r)).
  - by rewrite Z.div_add_l by lia.
  - rewrite <- Z.mul_assoc, <- Z.pow_add_r by lia. by replace (r + (8 - r)) with 8 by lia.
Qed.

Lemma undigits_inj a b : length a = length b → bytes_ok a → bytes_ok b → undigits 256 a = undigits 256 b → a = b.
Proof.
  intros Hl Ha Hb E. apply memcmp_eq; [done|]. rewrite (memcmp_undigits (b := 256)) by (done || lia).
  rewrite E. destruct (B_COMPARE_spec (undigits 256 b) (undigits 256 b)) as [?|[?|?]]; lia.
Qed.

(** Being in the same network: agreeing on the first [p] bits. *)
Lemma addrs_in_network6 a b p : len a = 16 → len b = 16 → bytes_ok a → bytes_ok b → 0 ≤ p ≤ 128 →
  ipaddr6_ipv6_addrs_in_network a b p = Some (bool_decide (addr_value a / 2 ^ (128 - p) = addr_value b / 2 ^ (128 - p))).
Proof.
  intros Ha Hb Hoka Hokb Hp. unfold ipaddr6_ipv6_addrs_in_network. rewrite !(proj2 (Z.leb_le _ _)) by lia.
  set (q := p / 8). set (r := p mod 8). assert (p = 8 * q + r) as Ep by (apply Z.div_mod; lia).
  assert (0 ≤ r < 8) as Hr by (by apply Z.mod_pos_bound). assert (0 ≤ q ≤ 16) as Hq by lia.
  assert (∀ x : bytes, len x = 16 → length (ztake q x) = Z.to_nat q) as Htake by (intros x Hx; unfold ztake, len in *; rewrite length_take; lia).
  assert (memcmp (ztake q a) (ztake q b) = 0 ↔ ztake q a = ztake q b) as Hcmp by (apply memcmp_eq; by rewrite !Htake).
  destruct (decide (q = 16)) as [Eq|Eq].
  { assert (r = 0) as -> by lia. replace p with 128 by lia. rewrite Z.eqb_refl. change (2 ^ (128 - 128)) with 1. rewrite !Z.div_1_r.
    rewrite !(ztake_all q) in * by lia. destruct (Z.eqb_spec (memcmp a b) 0) as [E|E]; cbn [negb]; f_equal; symmetry.
    - apply bool_decide_eq_true. by apply Hcmp in E as ->.
    - apply bool_decide_eq_false. intros E'. apply E, Hcmp. apply undigits_inj; [|done..]. unfold len in *. lia. }
  assert (∀ x : bytes, len x = 16 → ∃ y rest, x = ztake q x ++ y :: rest ∧ len rest = 15 - q) as Hcut.
  { intros x Hx. pose proof (len_zdrop q x ltac:(lia)) as Hd. destruct (zdrop q x) as [|y rest] eqn:E; [rewrite len_nil in Hd; lia|].
    exists y, rest. rewrite <- E, ztake_zdrop. rewrite len_cons in Hd. split; [done|lia]. }
  destruct (Hcut a Ha) as (x & ra & Ea & Hra). destruct (Hcut b Hb) as (y & rb & Eb & Hrb).
  assert (len (ztake q a) = q ∧ len (ztake q b) = q) as [Hla Hlb] by (rewrite !len_ztake by lia; done).
  set (pa := ztake q a) in *. set (pb := ztake q b) in *. rewrite Ea in Hoka. rewrite Eb in Hokb.
  assert (addr_value a / 2 ^ (128 - p) = undigits 256 pa * 2 ^ r + x / 2 ^ (8 - r)) as Va.
  { rewrite Ea. replace (128 - p) with (8 * len ra + (8 - r)) by lia. by apply addr_value_cut. }
  assert (addr_value b / 2 ^ (128 - p) = undigits 256 pb * 2 ^ r + y / 2 ^ (8 - r)) as Vb.
  { rewrite Eb. replace (128 - p) with (8 * len rb + (8 - r)) by lia. by apply addr_value_cut. }
  rewrite Va, Vb. clear Va Vb.
  apply bytes_ok_app in Hoka as [Hpa [Hx _]%Forall_cons]. apply bytes_ok_app in Hokb as [Hpb [Hy _]%Forall_cons].
  unfold is_u8 in Hx, Hy.
  assert (∀ z, 0 ≤ z < 2 ^ 8 → 0 ≤ z / 2 ^ (8 - r) < 2 ^ r) as Hdiv.
  { intros z Hz. split; [apply Z.div_pos; lia|]. apply Z.div_lt_upper_bound; [lia|].
    rewrite <- Z.pow_add_r by lia. replace (8 - r + r) with 8 by lia. apply Hz. }
  pose proof (Hdiv x Hx). pose proof (Hdiv y Hy).
  destruct (Z.eqb_spec (memcmp pa pb) 0) as [E|E]; cbn [negb]; cycle 1.
  { f_equal. symmetry. apply bool_decide_eq_false. intros E'. apply E, Hcmp.
    apply undigits_inj; [unfold len in *; lia|done|done|]. nia. }
  apply Hcmp in E. rewrite <- E in *. destruct (Z.eqb_spec r 0) as [->|Hr0].
  - f_equal. symmetry. apply bool_decide_eq_true. lia.
  - assert (load q a = Some x) as -> by (rewrite Ea; apply load_at; lia).
    assert (load q b = Some y) as -> by (rewrite Eb; apply load_at; lia).
    cbn [mbind option_bind]. f_equal. rewrite set_bits_top by done.
    unfold top_bits. replace r with (8 - (8 - r)) at 1 3 by lia. rewrite !land_high by lia.
    apply eq_true_iff_eq. rewrite Z.eqb_eq, bool_decide_eq_true. rewrite Z.mul_cancel_r by lia. lia.
Qed.
End Ipv6Networks.

(** * Results *)
Module IpAddr6Theorems.
Export Ipv6Networks.

(** C28: The parser of IPv6 addresses accepts exactly the texts of the grammar:
    eight groups of hexadecimal digits of at most 16 bits, the last two of them
    possibly as four decimal bytes without leading zeros, where one "::" may stand
    for missing groups. It then stores the address that the text denotes, whatever
    the memory held before, and it never reads outside of the text or accesses
    memory outside of the address. *)
Theorem ipv6_parsed_exactly init name old : len init = 4 → len old = 16 →
  ∃ ret a, ipaddr6_parse_ipv6_addr_bin init name old = Some (ret, a) ∧ len a = 16 ∧
    (ret = true → ∃ vs, ipv6_text name vs ∧ a = blocks_mem vs) ∧
    (∀ vs, ipv6_text name vs → ret = true ∧ a = blocks_mem vs).
Proof. apply ipv6_parse_spec. Qed.
Lemma ipv6_parsed_exactly_witness : len [7; 7; 7; 7] = 4 ∧
  ∃ ret a, ipaddr6_parse_ipv6_addr_bin [7; 7; 7; 7] (str "1::2:192.0.2.33") (replicate 16 9) = Some (ret, a) ∧ len a = 16 ∧
    (ret = true → ∃ vs, ipv6_text (str "1::2:192.0.2.33") vs ∧ a = blocks_mem vs) ∧
    (∀ vs, ipv6_text (str "1::2:192.0.2.33") vs → ret = true ∧ a = blocks_mem vs).
Proof. split; [done|]. by apply (ipv6_parsed_exactly [7; 7; 7; 7] (str "1::2:192.0.2.33") (replicate 16 9)). Defined.

(** C32: Every IPv6 address is printed in its canonical form, in which the first of
    the longest runs of two or more zero groups is left out, to 40 bytes at most;
    with a prefix, to the 44 bytes of [IPADDR6_PRINT_MAX]. The parsers read the
    same address and prefix back. *)
Theorem ipv6_print_parse a p init old buf :
  len a = 16 → bytes_ok a → 0 ≤ p ≤ 128 → len init = 4 → len (addr old) = 16 → IPADDR6_PRINT_MAX ≤ len buf →
  (∃ buf' t, ipaddr6_print_addr a buf = Some buf' ∧ len buf' = len buf ∧
    c_string buf' t ∧ len t < 40 ∧ canonical (blocks_of a) t ∧
    ipaddr6_parse_ipv6_addr init buf' (addr old) = Some (true, a)) ∧
  (∃ buf', ipaddr6_print_ifaddr (MkIpv6Ifaddr a p) buf = Some buf' ∧ len buf' = len buf ∧
    ipaddr6_parse_ipv6_ifaddr init buf' old = Some (true, MkIpv6Ifaddr a p)).
Proof.
  intros Ha Hok Hp Hi Ho Hb. destruct (blocks_of_spec 8 a) as (E & Hl & Hu); [unfold len in Ha; lia|done|].
  set (vs := blocks_of a) in *. assert (len vs = 8) as H8 by (unfold len; by rewrite Hl). rewrite <- E. split.
  - destruct (ipv6_print_spec vs buf Hu H8) as (buf' & t & -> & Hc & Hcan & Hlen); [unfold IPADDR6_PRINT_MAX in Hb; lia|].
    exists buf', t. pose proof (canonical_len vs t Hu H8 Hcan). split_and!; [done..|lia|done|].
    unfold ipaddr6_parse_ipv6_addr. destruct (strlen_spec _ _ Hc) as [-> Ez]. cbn [mbind option_bind]. rewrite Ez.
    destruct (ipv6_parse_spec init t (addr old) Hi Ho) as (ret & b & -> & _ & _ & Hb').
    by destruct (Hb' vs (canonical_text vs t Hu H8 Hcan)) as [-> ->].
  - destruct (print_ifaddr6_spec vs p buf Hu H8 Hp Hb) as (buf' & s & -> & Hc & Ht & Hlen). exists buf'. split_and!; [done..|].
    unfold ipaddr6_parse_ipv6_ifaddr. destruct (strlen_spec _ _ Hc) as [-> Ez]. cbn [mbind option_bind]. rewrite Ez.
    destruct (ipv6_ifaddr_spec init s old Hi Ho) as (ret & j & -> & _ & _ & Hj).
    by destruct (Hj vs p Ht) as [-> ->].
Qed.
Lemma ipv6_print_parse_witness :
  (∃ buf' t, ipaddr6_print_addr (replicate 15 0 ++ [1]) (replicate 44 7) = Some buf' ∧ len buf' = len (replicate 44 7) ∧
    c_string buf' t ∧ len t < 40 ∧ canonical (blocks_of (replicate 15 0 ++ [1])) t ∧
    ipaddr6_parse_ipv6_addr [1; 2; 3; 4] buf' (replicate 16 9) = Some (true, replicate 15 0 ++ [1])) ∧
  (∃ buf', ipaddr6_print_ifaddr (MkIpv6Ifaddr (replicate 15 0 ++ [1]) 128) (replicate 44 7) = Some buf' ∧ len buf' = len (replicate 44 7) ∧
    ipaddr6_parse_ipv6_ifaddr [1; 2; 3; 4] buf' (MkIpv6Ifaddr (replicate 16 9) 0) = Some (true, MkIpv6Ifaddr (replicate 15 0 ++ [1]) 128)).
Proof.
  apply (ipv6_print_parse (replicate 15 0 ++ [1]) 128 [1; 2; 3; 4] (MkIpv6Ifaddr (replicate 16 9) 0) (replicate 44 7));
    try done. apply (bool_decide_unpack _). by vm_compute.
Defined.

(** C30: Masks and prefixes correspond: a mask is that of its prefix and no other
    word or address is one. Two addresses are in the same network of prefix [p]
    exactly if their first [p] bits agree, for IPv4 in network byte order and for
    IPv6 byte by byte. *)
Theorem networks_by_prefix :
  (∀ mask p, is_u32 mask →
    IpAddr.ipaddr_ipv4_prefix_from_mask mask = Some p ↔ IpAddr.ipaddr_ipv4_mask_from_prefix p = Some mask) ∧
  (∀ a b p, is_u32 a → is_u32 b → 0 ≤ p ≤ 32 →
    IpAddr.ipaddr_ipv4_addrs_in_network a b p = Some (bool_decide (ntoh32 a / 2 ^ (32 - p) = ntoh32 b / 2 ^ (32 - p)))) ∧
  (∀ mask, len mask = 16 → bytes_ok mask → ∃ r, ipaddr6_ipv6_prefix_from_mask mask = Some r ∧
    ∀ p out, len out = 16 → 0 ≤ p ≤ 128 → r = Some p ↔ ipaddr6_ipv6_mask_from_prefix p out = Some mask) ∧
  (∀ a b p, len a = 16 → len b = 16 → bytes_ok a → bytes_ok b → 0 ≤ p ≤ 128 →
    ipaddr6_ipv6_addrs_in_network a b p =
      Some (bool_decide (addr_value a / 2 ^ (128 - p) = addr_value b / 2 ^ (128 - p)))).
Proof.
  split_and!.
  - apply IpAddrFacts.prefix_from_mask_spec.
  - apply IpAddrFacts.addrs_in_network_spec.
  - intros mask Hm Hok. destruct (prefix_from_mask6 mask Hm Hok) as (r & E & Hr). exists r. split; [done|].
    intros p out Ho Hp. rewrite Hr, mask6_from_prefix by done. split; [by intros [_ ->]|by intros [= <-]].
  - apply addrs_in_network6.
Qed.
Lemma networks_by_prefix_witness :
  IpAddr.ipaddr_ipv4_prefix_from_mask (hton32 4294901760) = Some 16 ∧
  IpAddr.ipaddr_ipv4_addrs_in_network (hton32 3232235777) (hton32 3232236033) 16 = Some true ∧
  ipaddr6_ipv6_addrs_in_network (replicate 16 1) (replicate 15 1 ++ [2]) 127 = Some false.
Proof.
  destruct networks_by_prefix as (H1 & H2 & _ & H4). split_and!.
  - apply (H1 (hton32 4294901760) 16); [split; vm_compute; congruence|by vm_compute].
  - etrans; [apply (H2 (hton32 3232235777) (hton32 3232236033) 16); split; vm_compute; congruence|].
    by vm_compute.
  - etrans; [apply (H4 (replicate 16 1) (replicate 15 1 ++ [2]) 127); try done;
      apply (bool_decide_unpack _); by vm_compute|]. by vm_compute.
Defined.
End IpAddr6Theorems.
