(* ===== verification/BAddrText.v ===== *)
(** The rest of system/BAddr.h: IP addresses, the parts of socket addresses, and
    addresses as text: "a.b.c.d:port", "[address]:port". *)
From Stdlib Require Import Ascii String.
From S2P Require Import Prelude Misc TreeInterface BAddr ParseNumber IpAddr IpAddr6.

(** * system/BAddr.h *)
Module BAddrText.
Export ParseNumber.

Definition BADDR_MAX_ADDR_LEN : Z := 128.
Definition BIPADDR_MAX_PRINT_LEN : Z := 40.
Definition BADDR_MAX_PRINT_LEN : Z := 120.
Definition BADDR_PACKET_HEADER_TYPE_ETHERNET : Z := 1.

Inductive BIPAddr :=
  | BIPADDR_NONE
  | BIPADDR_IPV4 (ipv4 : Z)
  | BIPADDR_IPV6 (ipv6 : bytes).

Definition BIPAddr_InitInvalid : BIPAddr := BIPADDR_NONE.
Definition BIPAddr_InitIPv4 (ip : Z) : BIPAddr := BIPADDR_IPV4 ip.
Definition BIPAddr_InitIPv6 (ip : bytes) : BIPAddr := BIPADDR_IPV6 (take 16 ip).
Definition BIPAddr_IsInvalid (a : BIPAddr) : bool := match a with BIPADDR_NONE => true | _ => false end.
Definition BIPAddr_Compare (a1 a2 : BIPAddr) : bool :=
  match a1, a2 with
  | BIPADDR_IPV4 ip1, BIPADDR_IPV4 ip2 => ip1 =? ip2
  | BIPADDR_IPV6 ip1, BIPADDR_IPV6 ip2 => memcmp ip1 ip2 =? 0
  | _, _ => false
  end.

(** [None] where the address has no port and the code asserts. *)
Definition BAddr_GetPort (a : BAddr) : option Z :=
  match a with BADDR_IPV4 _ port | BADDR_IPV6 _ port => Some port | _ => None end.
Definition BAddr_GetIPAddr (a : BAddr) : BIPAddr :=
  match a with
  | BADDR_IPV4 ip _ => BIPAddr_InitIPv4 ip
  | BADDR_IPV6 ip _ => BIPAddr_InitIPv6 ip
  | _ => BIPAddr_InitInvalid
  end.
Definition BAddr_SetPort (a : BAddr) (port : Z) : option BAddr :=
  match a with
  | BADDR_IPV4 ip _ => Some (BADDR_IPV4 ip port)
  | BADDR_IPV6 ip _ => Some (BADDR_IPV6 ip port)
  | _ => None
  end.
Definition BAddr_MakeFromIpaddrAndPort (ipaddr : BIPAddr) (port : Z) : BAddr :=
  match ipaddr with
  | BIPADDR_NONE => BAddr_MakeNone
  | BIPADDR_IPV4 ip => BAddr_MakeIPv4 ip port
  | BIPADDR_IPV6 ip => BAddr_MakeIPv6 ip port
  end.
Definition BAddr_InitNone : BAddr := BAddr_MakeNone.
Definition BAddr_InitFromIpaddrAndPort (ipaddr : BIPAddr) (port : Z) : BAddr := BAddr_MakeFromIpaddrAndPort ipaddr port.

(** [old] are the eight bytes of [phys_addr], of which six are set. *)
Definition BAddr_InitPacket (old : bytes) (phys_proto interface_index header_type packet_type : Z) (phys_addr : bytes) : option BAddr :=
  ASSERT_ (header_type =? BADDR_PACKET_HEADER_TYPE_ETHERNET);
  ASSERT_ ((packet_type =? 1) || (packet_type =? 2) || (packet_type =? 3) || (packet_type =? 4) || (packet_type =? 5));
  Some (BADDR_PACKET phys_proto interface_index header_type packet_type (take 6 phys_addr ++ drop 6 old)).

(** ** Printing *)

(** ["%d"] and ["%02x"]; the format of an IPv4 address is that of misc/ipaddr.h. *)
Definition print_signed (x : Z) : bytes := if x <? 0 then chr "-" :: print_decimal (- x) else print_decimal x.
Definition print_hex2 (x : Z) : bytes := if len (print_hex x) <? 2 then chr "0" :: print_hex x else print_hex x.

Definition format_ipv6 (ip : bytes) : bytes :=
  let g i := print_hex (badvpn_read_be16 (drop i ip)) in
  g 0%nat ++ chr ":" :: g 2%nat ++ chr ":" :: g 4%nat ++ chr ":" :: g 6%nat ++ chr ":" ::
  g 8%nat ++ chr ":" :: g 10%nat ++ chr ":" :: g 12%nat ++ chr ":" :: g 14%nat.
Definition BIPAddr_Print (a : BIPAddr) (out : bytes) : option bytes :=
  match a with
  | BIPADDR_NONE => sprintf 0 (str "(none)") out
  | BIPADDR_IPV4 ip => sprintf 0 (IpAddr.format_ipv4 ip) out
  | BIPADDR_IPV6 ip => sprintf 0 (format_ipv6 ip) out
  end.
Definition BAddr_Print (a : BAddr) (out : bytes) : option bytes :=
  match a with
  | BADDR_NONE => sprintf 0 (str "(none)") out
  | BADDR_IPV4 ip port =>
      out ← BIPAddr_Print (BIPAddr_InitIPv4 ip) out;
      n ← strlen out;
      sprintf n (str ":" ++ print_decimal (ntoh16 port)) out
  | BADDR_IPV6 ip port =>
      out ← BIPAddr_Print (BIPAddr_InitIPv6 ip) out;
      n ← strlen out;
      sprintf n (str ":" ++ print_decimal (ntoh16 port)) out
  | BADDR_PACKET proto ifindex header_type packet_type addr =>
      ASSERT_ (header_type =? BADDR_PACKET_HEADER_TYPE_ETHERNET);
      let b i := print_hex2 (byte_at addr i) in
      sprintf 0 (str "proto=" ++ print_decimal proto ++ str ",ifindex=" ++ print_signed ifindex ++
        str ",htype=eth,ptype=" ++ print_signed packet_type ++ str ",addr=" ++ b 0%nat ++ chr ":" :: b 1%nat ++ chr ":" ::
        b 2%nat ++ chr ":" :: b 3%nat ++ chr ":" :: b 4%nat ++ chr ":" :: b 5%nat) out
  end.

(** ** [strtol] of the C library, base 10

    The value, and where the number ends: after spaces, a sign and the digits, or at
    the beginning if there are no digits. *)
Definition isspace (c : Z) : bool := (c =? 32) || ((9 <=? c) && (c <=? 13)).
Definition LONG_MAX : Z := 2 ^ 63 - 1.
Fixpoint skip_spaces (s : bytes) : bytes :=
  match s with c :: s' => if isspace c then skip_spaces s' else s | [] => [] end.
Fixpoint strtol_digits (s : bytes) (n : Z) : Z * bytes :=
  match s with
  | c :: s' => if (48 <=? c) && (c <=? 57) then strtol_digits s' (10 * n + (c - 48)) else (n, s)
  | [] => (n, [])
  end.
Definition strtol (s : bytes) : Z * bytes :=
  let t := skip_spaces s in
  let '(sign, t) :=
    match t with
    | c :: t' => if c =? "-"%char then (-1, t') else if c =? "+"%char then (1, t') else (1, t)
    | [] => (1, t)
    end in
  match t with
  | c :: _ =>
      if (48 <=? c) && (c <=? 57) then
        let '(n, r) := strtol_digits t 0 in (Z.max (- LONG_MAX - 1) (Z.min LONG_MAX (sign * n)), r)
      else (0, s)
  | [] => (0, s)
  end.

(** ** Parsing

    [getaddrinfo] is the system's: for a host, a family and [AI_NUMERICHOST], the
    memory of the address that it finds ([sin_addr] or [sin6_addr]). *)
Inductive family := AF_INET | AF_INET6.

Section resolve.
Variable getaddrinfo : bytes → family → bool → option bytes.

Definition set_ip (f : family) (mem : bytes) : BIPAddr :=
  match f with
  | AF_INET6 => BIPADDR_IPV6 (take 16 mem)
  | AF_INET => BIPADDR_IPV4 (le_val (take 4 mem))
  end.

(** [None]: an access outside of the text; [Some None]: 0, where the address is
    left without a meaning. *)
Definition BIPAddr_Resolve (s : bytes) (noresolve : bool) : option (option BIPAddr) :=
  let n := len s in
  bracket ← (if 1 <=? n then
      first ← load 0 s;
      last ← load (n - 1) s;
      Some ((first =? "["%char) && (last =? "]"%char))
    else Some false);
  let '(f, addr_start, addr_len) := if (bracket : bool) then (AF_INET6, 1, n - 2) else (AF_INET, 0, n) in
  if BADDR_MAX_ADDR_LEN <? addr_len then Some None else
  ASSERT_ ((0 <=? addr_len) && (addr_start + addr_len <=? n));
  match getaddrinfo (zslice addr_start addr_len s) f noresolve with
  | None => Some None
  | Some mem => Some (Some (set_ip f mem))
  end.

(** [name]: the buffer for the name, of [name_len] bytes, if it is not NULL. *)
Definition BAddr_Parse2 (s : bytes) (name : option bytes) (noresolve : bool) : option (option (BAddr * option bytes)) :=
  let n := len s in
  if (n <? 1) || (1000 <? n) then Some None else
  first ← load 0 s;
  r ← (if first =? "["%char then
      let i := 1 + span_to "]"%char (zdrop 1 s) in
      if n <=? i then Some None else
      colon ← (if n <=? i + 1 then Some false else c ← load (i + 1) s; Some (c =? ":"%char));
      if negb colon then Some None else Some (Some (AF_INET6, 1, i - 1, i + 2))
    else
      let i := span_to ":"%char s in
      if n <=? i then Some None else Some (Some (AF_INET, 0, i, i + 1)));
  match r with
  | None => Some None
  | Some (f, addr_start, addr_len, port_start) =>
      let port_len := n - port_start in
      if 128 <=? addr_len then Some None else
      ASSERT_ ((0 <=? addr_len) && (addr_start + addr_len <=? n));
      let addr_str := zslice addr_start addr_len s in
      if 6 <=? port_len then Some None else
      ASSERT_ (0 <=? port_len);
      let port_str := zslice port_start port_len s in
      let '(conv_res, err) := strtol port_str in
      if (len port_str =? 0) || negb (len err =? 0) then Some None else
      if (conv_res <? 0) || (65535 <? conv_res) then Some None else
      let port := hton16 (u16 conv_res) in
      match getaddrinfo addr_str f noresolve with
      | None => Some None
      | Some mem =>
          let addr := BAddr_MakeFromIpaddrAndPort (set_ip f mem) port in
          match name with
          | None => Some (Some (addr, None))
          | Some buf =>
              if len buf <=? len addr_str then Some None else
              Some (Some (addr, Some (zwrite 0 (addr_str ++ [0]) buf)))
          end
      end
  end.
Definition BAddr_Parse (s : bytes) (name : option bytes) : option (option (BAddr * option bytes)) :=
  BAddr_Parse2 s name false.
End resolve.
End BAddrText.

(** * What is parsed and printed *)
Module BAddrTextFacts.
Export BAddrText ParseNumberFacts.

(** ** Ports *)

(** What [strtol] takes for a number: spaces, a sign and digits. *)
Definition number_text (s : bytes) (v : Z) : Prop :=
  ∃ sp sg ds, s = sp ++ sg ++ ds ∧ Forall (λ c, isspace c = true) sp ∧ is_decimal ds ∧
    (sg = [] ∧ v = dec_value ds ∨ sg = str "+" ∧ v = dec_value ds ∨ sg = str "-" ∧ v = - dec_value ds).

Lemma strtol_digits_spec s n : 0 ≤ n → ∃ ds r, s = ds ++ r ∧ Forall decimal_digit ds ∧
  (∀ c r', r = c :: r' → ¬ decimal_digit c) ∧ strtol_digits s n = (n * 10 ^ len ds + dec_value ds, r).
Proof.
  revert n. induction s as [|c s IH]; intros n Hn; cbn [strtol_digits].
  { exists [], []. split_and!; [done..|]. f_equal. change (len []) with 0. change (dec_value []) with 0. lia. }
  destruct ((48 <=? c) && (c <=? 57)) eqn:E.
  - bool_to_prop. destruct (IH (10 * n + (c - 48))) as (ds & r & -> & Hd & Hr & ->); [lia|].
    exists (c :: ds), r. split_and!; [done|by constructor|done|].
    f_equal. rewrite dec_value_cons, len_cons, Z.pow_add_r by len_lia. lia.
  - exists [], (c :: s). split_and!; [done..| |].
    + intros ? ? [= <- <-] [??]. rewrite (proj2 (Z.leb_le _ _)), (proj2 (Z.leb_le _ _)) in E by done. done.
    + f_equal. change (len []) with 0. change (dec_value []) with 0. lia.
Qed.

Lemma skip_spaces_spec s : ∃ sp, s = sp ++ skip_spaces s ∧ Forall (λ c, isspace c = true) sp ∧
  (∀ c r, skip_spaces s = c :: r → isspace c = false).
Proof.
  induction s as [|c s (sp & E & Hsp & Hr)]; [by exists []|]. cbn [skip_spaces]. destruct (isspace c) eqn:Ec.
  - exists (c :: sp). split_and!; [by rewrite E at 1|by constructor|done].
  - exists []. split_and!; [done..|]. by intros ? ? [= <- <-].
Qed.
Lemma skip_spaces_app sp t : Forall (λ c, isspace c = true) sp → (∀ c r, t = c :: r → isspace c = false) →
  skip_spaces (sp ++ t) = t.
Proof.
  intros Hsp Ht. induction Hsp as [|c sp Hc _ IH]; cbn.
  - destruct t as [|c t]; [done|]. cbn. by rewrite (Ht c t).
  - by rewrite Hc.
Qed.

Lemma is_decimal_test c s : is_decimal (c :: s) → (48 <=? c) && (c <=? 57) = true.
Proof. intros [_ [[??] _]%Forall_cons]. by rewrite !(proj2 (Z.leb_le _ _)). Qed.
Lemma strtol_all ds sign : is_decimal ds → len ds ≤ 18 →
  strtol_digits ds 0 = (dec_value ds, []) ∧ 
  (sign = 1 ∨ sign = -1 → Z.max (- LONG_MAX - 1) (Z.min LONG_MAX (sign * dec_value ds)) = sign * dec_value ds).
Proof.
  intros [Hne Hd] Hl. split.
  - destruct (strtol_digits_spec ds 0) as (ds' & r & E & Hd' & Hr & ->); [lia|]. destruct r as [|c r].
    + rewrite app_nil_r in E. by rewrite E.
    + rewrite E in Hd. apply Forall_app in Hd as [_ [Hc _]%Forall_cons]. by destruct (Hr c r).
  - pose proof (dec_value_range ds Hd). assert (10 ^ len ds ≤ 10 ^ 18) by (apply Z.pow_le_mono_r; lia).
    unfold LONG_MAX. intros [-> | ->]; lia.
Qed.

Lemma strtol_spec s v : len s ≤ 18 → (strtol s).1 = v ∧ len (strtol s).2 = 0 ∧ s ≠ [] ↔ number_text s v.
Proof.
  intros Hl. split.
  - destruct (skip_spaces_spec s) as (sp & Es & Hsp & _). unfold strtol. set (t := skip_spaces s) in *. clearbody t.
    assert (∀ sg t', t = sg ++ t' → ∀ sign, sign = 1 ∨ sign = -1 →
      (let r := match t' with
        | c :: _ => if (48 <=? c) && (c <=? 57) then
            let '(n, r) := strtol_digits t' 0 in (Z.max (- LONG_MAX - 1) (Z.min LONG_MAX (sign * n)), r) else (0, s)
        | [] => (0, s) end in r.1 = v ∧ len r.2 = 0 ∧ s ≠ []) → is_decimal t' ∧ v = sign * dec_value t') as H.
    { intros sg t' Et sign Hs. assert (¬ (len s = 0 ∧ s ≠ [])) as Hns by (by intros [?%len_0_nil ?]).
      destruct t' as [|c t']; [cbn; intros (_ & ? & ?); by destruct Hns|].
      destruct ((48 <=? c) && (c <=? 57)) eqn:Ec; [|cbn; intros (_ & ? & ?); by destruct Hns].
      destruct (strtol_digits_spec (c :: t') 0) as (ds & r & E & Hd & Hr & ->); [lia|]. cbn [fst snd].
      intros (<- & ->%len_0_nil & _). rewrite app_nil_r in E. rewrite E.
      assert (is_decimal ds) as Hdd by (by split; [rewrite <- E|]). split; [done|].
      rewrite Z.mul_0_l, Z.add_0_l. apply strtol_all; [done| |done]. rewrite <- E. rewrite Es, Et, !len_app in Hl. len_lia. }
    destruct t as [|c t']; [intros Hx; apply (H [] [] eq_refl 1) in Hx as [[? _] _]; [done|by left]|]. chars.
    destruct (Z.eqb_spec c 45) as [->|]; [|destruct (Z.eqb_spec c 43) as [->|]]; intros Hx.
    + apply (H [45] t' eq_refl (-1)) in Hx as [Hd ->]; [|by right]. exists sp, [45], t'. split_and!; [done..|].
      right. right. split; [done|lia].
    + apply (H [43] t' eq_refl 1) in Hx as [Hd ->]; [|by left]. exists sp, [43], t'. split_and!; [done..|].
      right. left. split; [done|lia].
    + apply (H [] (c :: t') eq_refl 1) in Hx as [Hd ->]; [|by left]. exists sp, [], (c :: t'). split_and!; [done..|].
      left. split; [done|lia].
  - intros (sp & sg & ds & -> & Hsp & Hd & Hv). rewrite !len_app in Hl. pose proof (len_nonneg sp). pose proof (len_nonneg sg).
    pose proof (strtol_all ds) as Hall. destruct ds as [|c ds]; [by destruct Hd|].
    pose proof (is_decimal_test _ _ Hd) as Hc. assert (decimal_digit c) as Hcd by (bool_to_prop; done).
    unfold decimal_digit in Hcd. unfold strtol.
    rewrite skip_spaces_app; [|done|]; cycle 1.
    { unfold isspace. intros d r E. destruct Hv as [[-> _]|[[-> _]|[-> _]]]; injection E as <- _; chars;
        rewrite ?(proj2 (Z.eqb_neq _ _)), ?(proj2 (Z.leb_gt c 13)), ?andb_false_r by lia; done. }
    assert (sp ++ sg ++ c :: ds ≠ []) as Hne by (by intros [_ [_ [=]]%app_eq_nil]%app_eq_nil).
    destruct Hv as [[-> ->]|[[-> ->]|[-> ->]]]; cbn [app str list_ascii_of_string fmap list_fmap]; chars.
    + rewrite !(proj2 (Z.eqb_neq _ _)) by lia. rewrite Hc.
      destruct (Hall 1 Hd ltac:(lia)) as [-> Hm]. cbn [fst snd]. rewrite Hm by lia. split_and!; [lia|done|done].
    + cbn [Z.eqb Pos.eqb]. rewrite Hc. destruct (Hall 1 Hd ltac:(lia)) as [-> Hm]. cbn [fst snd]. rewrite Hm by lia.
      split_and!; [lia|done|done].
    + cbn [Z.eqb Pos.eqb]. rewrite Hc. destruct (Hall (-1) Hd ltac:(lia)) as [-> Hm]. cbn [fst snd]. rewrite Hm by lia.
      split_and!; [lia|done|done].
Qed.

(** ** Parsing *)

(** The parts of the text of an address: for IPv6 the host is in brackets. *)
Definition address_text (f : family) (host p s : bytes) : Prop :=
  match f with
  | AF_INET => s = host ++ chr ":" :: p ∧ (chr ":" ∉ host) ∧ head s ≠ Some (chr "[")
  | AF_INET6 => s = chr "[" :: host ++ chr "]" :: chr ":" :: p ∧ (chr "]" ∉ host)
  end.

Section parse.
Context (getaddrinfo : bytes → family → bool → option bytes).

(** What [BAddr_Parse2] accepts, and what it returns: the sizes are those of its
    buffers. *)
Definition parses (s : bytes) (name : option bytes) (noresolve : bool) (a : BAddr) (name' : option bytes) : Prop :=
  ∃ f host p v mem, address_text f host p s ∧ len s ≤ 1000 ∧ len host ≤ 127 ∧ len p ≤ 5 ∧
    number_text p v ∧ 0 ≤ v ≤ 65535 ∧ getaddrinfo host f noresolve = Some mem ∧
    a = BAddr_MakeFromIpaddrAndPort (set_ip f mem) (hton16 v) ∧
    match name with
    | None => name' = None
    | Some buf => len host < len buf ∧ name' = Some (zwrite 0 (host ++ [0]) buf)
    end.

(** A text has its parts in one way only. *)
Lemma address_text_unique f host p f' host' p' s : address_text f host p s → address_text f' host' p' s →
  f' = f ∧ host' = host ∧ p' = p.
Proof.
  destruct f, f'; cbn.
  - intros (E & Hh & _) (E' & Hh' & _). rewrite E in E'. by apply split_at in E' as [-> ->].
  - intros (_ & _ & Hs) (-> & _). by destruct Hs.
  - intros (-> & _) (_ & _ & Hs). by destruct Hs.
  - intros (E & Hh) (E' & Hh'). rewrite E in E'. injection E' as E'. apply split_at in E' as [-> [= ->]]; done.
Qed.

(** The part of the parser that comes after the search for the separators. *)
Definition parse_parts (n : Z) (s : bytes) (name : option bytes) (noresolve : bool)
    (f : family) (addr_start addr_len port_start : Z) : option (option (BAddr * option bytes)) :=
  let port_len := n - port_start in
  if 128 <=? addr_len then Some None else
  ASSERT_ ((0 <=? addr_len) && (addr_start + addr_len <=? n));
  let addr_str := zslice addr_start addr_len s in
  if 6 <=? port_len then Some None else
  ASSERT_ (0 <=? port_len);
  let port_str := zslice port_start port_len s in
  let '(conv_res, err) := strtol port_str in
  if (len port_str =? 0) || negb (len err =? 0) then Some None else
  if (conv_res <? 0) || (65535 <? conv_res) then Some None else
  let port := hton16 (u16 conv_res) in
  match getaddrinfo addr_str f noresolve with
  | None => Some None
  | Some mem =>
      let addr := BAddr_MakeFromIpaddrAndPort (set_ip f mem) port in
      match name with
      | None => Some (Some (addr, None))
      | Some buf =>
          if len buf <=? len addr_str then Some None else
          Some (Some (addr, Some (zwrite 0 (addr_str ++ [0]) buf)))
      end
  end.

Definition parse_ok (s : bytes) (name : option bytes) (noresolve : bool) (r : option (option (BAddr * option bytes))) : Prop :=
  ∃ r', r = Some r' ∧ ∀ a name', r' = Some (a, name') ↔ parses s name noresolve a name'.

Lemma parse_fails s name nr : (∀ a name', parses s name nr a name' → False) → parse_ok s name nr (Some None).
Proof. intros H. exists None. split; [done|]. intros a name'. split; [done|]. by intros []%H. Qed.

Lemma parse_parts_ok f host p pre mid s name nr : address_text f host p s → s = pre ++ host ++ mid ++ p → len s ≤ 1000 →
  parse_ok s name nr (parse_parts (len s) s name nr f (len pre) (len host) (len pre + len host + len mid)).
Proof.
  intros Ht Es Hl. unfold parse_parts.
  assert (len s = len pre + len host + len mid + len p) as Els by (rewrite Es, !len_app; lia).
  replace (len s - (len pre + len host + len mid)) with (len p) by lia.
  assert (zslice (len pre) (len host) s = host) as ->.
  { unfold zslice. rewrite Es, zdrop_app. apply ztake_app. }
  assert (zslice (len pre + len host + len mid) (len p) s = p) as ->.
  { unfold zslice. rewrite Es, !app_assoc. replace (len pre + len host + len mid) with (len ((pre ++ host) ++ mid)) by (rewrite !len_app; lia).
    rewrite zdrop_app. by apply ztake_all. }
  assert (∀ a name', parses s name nr a name' → len host ≤ 127 ∧ len p ≤ 5 ∧ ∃ v mem, number_text p v ∧ 0 ≤ v ≤ 65535 ∧
    getaddrinfo host f nr = Some mem ∧ a = BAddr_MakeFromIpaddrAndPort (set_ip f mem) (hton16 v) ∧
    match name with None => name' = None | Some buf => len host < len buf ∧ name' = Some (zwrite 0 (host ++ [0]) buf) end) as Hinv.
  { intros a name' (f' & host' & p' & v & mem & Ht' & _ & Hh & Hp & Hrest).
    destruct (address_text_unique _ _ _ _ _ _ _ Ht Ht') as (-> & -> & ->). eauto. }
  destruct (Z.leb_spec 128 (len host)); [apply parse_fails; intros a name' (? & _)%Hinv; lia|].
  pose proof (len_nonneg host). pose proof (len_nonneg p). pose proof (len_nonneg mid).
  rewrite (proj2 (Z.leb_le 0 (len host))), (proj2 (Z.leb_le _ (len s))), (proj2 (Z.leb_le 0 (len p))) by lia. cbn [andb].
  destruct (Z.leb_spec 6 (len p)); [apply parse_fails; intros a name' (_ & ? & _)%Hinv; lia|].
  pose proof (strtol_spec p) as Hst. destruct (strtol p) as [v err]. cbn [fst snd] in Hst.
  destruct ((len p =? 0) || negb (len err =? 0)) eqn:Ec.
  { apply parse_fails. intros a name' (_ & _ & v' & _ & (_ & He & Hne)%Hst & _)%Hinv; [|lia].
    bool_to_prop. destruct Ec as [->%Z.eqb_eq%len_0_nil|Ec]; [done|]. bool_to_prop. done. }
  bool_to_prop. assert (number_text p v) as Hv by (apply Hst; [lia|]; split_and!; [done..|by intros ->]).
  assert (∀ v', number_text p v' → v' = v) as Hv'.
  { intros v' Hn. apply Hst in Hn as [<- _]; [done|lia]. }
  destruct ((v <? 0) || (65535 <? v)) eqn:Er.
  { apply parse_fails. intros a name' (_ & _ & v' & _ & ->%Hv' & ? & _)%Hinv. bool_to_prop. destruct Er; bool_to_prop; lia. }
  bool_to_prop. unfold u16. rewrite Z.mod_small by lia.
  destruct (getaddrinfo host f nr) as [mem|] eqn:Eg.
  2:{ apply parse_fails. by intros a name' (_ & _ & v' & mem & _ & _ & ? & _)%Hinv. }
  destruct name as [buf|].
  - destruct (Z.leb_spec (len buf) (len host)).
    { apply parse_fails. intros a name' (_ & _ & v' & mem' & _ & _ & _ & _ & ? & _)%Hinv. lia. }
    eexists. split; [done|]. intros a name'. split.
    + intros [= <- <-]. exists f, host, p, v, mem. split_and!; done || lia.
    + intros (_ & _ & v' & mem' & ->%Hv' & _ & [= <-] & -> & _ & ->)%Hinv. done.
  - eexists. split; [done|]. intros a name'. split.
    + intros [= <- <-]. exists f, host, p, v, mem. split_and!; done || lia.
    + intros (_ & _ & v' & mem' & ->%Hv' & _ & [= <-] & -> & ->)%Hinv. done.
Qed.

Lemma baddr_parse_ok s name nr : parse_ok s name nr (BAddr_Parse2 getaddrinfo s name nr).
Proof.
  unfold BAddr_Parse2. destruct ((len s <? 1) || (1000 <? len s)) eqn:El.
  { apply parse_fails. intros a name' (f & host & p & v & mem & Ht & Hl & _). bool_to_prop. destruct El; bool_to_prop; [|lia].
    destruct f; cbn in Ht; destruct Ht as [E _]; rewrite E, ?len_app, ?len_cons in *; len_lia. }
  bool_to_prop. destruct s as [|c s]; [rewrite len_nil in *; lia|]. assert (load 0 (c :: s) = Some c) as -> by exact (load_at [] c s 0 eq_refl).
  cbn [mbind option_bind].
  destruct (Z.eqb_spec c (chr "[")) as [->|Hc].
  - change (zdrop 1 (chr "[" :: s)) with s. destruct (span_to_spec (chr "]") s) as (Hj & Hnj & Hsplit).
    set (j := span_to (chr "]") s) in *. rewrite len_cons.
    assert (∀ a name', parses (chr "[" :: s) name nr a name' → ∃ host p, s = host ++ chr "]" :: chr ":" :: p ∧ (chr "]" ∉ host)) as Hin.
    { intros a name' ([] & host & p & v & mem & Ht & _); cbn in Ht; [by destruct Ht as (_ & _ & [])|].
      destruct Ht as [[= ->] ?]. eauto. }
    destruct (Z.leb_spec (1 + len s) (1 + j)) as [Hge|Hlt].
    { apply parse_fails. intros a name' (host & p & E & Hh)%Hin. subst s.
      rewrite ztake_all in Hnj by lia. apply Hnj, elem_of_app. right. by left. }
    specialize (Hsplit ltac:(lia)). set (host := ztake j s) in *. set (r := zdrop (j + 1) s) in *.
    assert (len host = j) as Hlh by (apply len_ztake; lia).
    assert (len s = j + 1 + len r) as Hlr by (rewrite Hsplit at 1; rewrite len_app, len_cons; lia).
    assert ((if 1 + len s <=? 1 + j + 1 then Some false
      else c ← load (1 + j + 1) (chr "[" :: s); Some (c =? ":"%char)) = Some (bool_decide (head r = Some (chr ":")))) as ->.
    { destruct r as [|d r'].
      - rewrite len_nil in Hlr. rewrite (proj2 (Z.leb_le _ _)) by lia. done.
      - rewrite len_cons in Hlr. rewrite (proj2 (Z.leb_gt _ _)) by len_lia. rewrite Hsplit.
        change (chr "[" :: host ++ chr "]" :: d :: r') with ((chr "[" :: host) ++ [chr "]"] ++ d :: r').
        rewrite app_assoc, load_at; cycle 1.
        { rewrite len_app, len_cons. change (len [chr "]"]) with 1. lia. }
        cbn [mbind option_bind head]. f_equal. apply eq_true_iff_eq. rewrite Z.eqb_eq, bool_decide_eq_true. naive_solver. }
    cbn [mbind option_bind]. destruct (bool_decide_reflect (head r = Some (chr ":"))) as [Hr|Hr]; cbn [negb].
    + destruct r as [|d p]; [done|]. injection Hr as ->.
      pose proof (parse_parts_ok AF_INET6 host p [chr "["] (str "]:") (chr "[" :: s) name nr) as H'.
      unfold parse_parts in H'. change (len [chr "["]) with 1 in H'. change (len (str "]:")) with 2 in H'.
      rewrite len_cons, Hlh in H'. replace (1 + j + 2) with (1 + j + 2) in H' by lia.
      replace (1 + j - 1) with j by lia. apply H'; [|by rewrite Hsplit at 1|rewrite len_cons in *; lia].
      cbn. split; [by rewrite Hsplit at 1|done].
    + apply parse_fails. intros a name' (host' & p & E & Hh)%Hin. rewrite Hsplit in E. apply split_at in E as [_ ->]; [|done..].
      by destruct Hr.
  - destruct (span_to_spec (chr ":") (c :: s)) as (Hj & Hnj & Hsplit).
    set (j := span_to (chr ":") (c :: s)) in *.
    assert (∀ a name', parses (c :: s) name nr a name' → ∃ host p, c :: s = host ++ chr ":" :: p) as Hin.
    { intros a name' ([] & host & p & v & mem & Ht & _); cbn in Ht; [destruct Ht as (-> & _); eauto|].
      destruct Ht as [[= -> _] _]. done. }
    destruct (Z.leb_spec (len (c :: s)) j) as [Hge|Hlt].
    { apply parse_fails. intros a name' (host & p & E)%Hin. rewrite ztake_all in Hnj by lia.
      apply Hnj. rewrite E. apply elem_of_app. right. by left. }
    cbn [mbind option_bind]. specialize (Hsplit Hlt).
    pose proof (parse_parts_ok AF_INET (ztake j (c :: s)) (zdrop (j + 1) (c :: s)) [] (str ":") (c :: s) name nr) as H'.
    unfold parse_parts in H'. change (len []) with 0 in H'. change (len (str ":")) with 1 in H'.
    rewrite len_ztake in H' by lia. apply H'; [|exact Hsplit|done]. cbn. split_and!; [exact Hsplit|done|congruence].
Qed.
End parse.
End BAddrTextFacts.

(** * Results *)
Module BAddrTextTheorems.
Export BAddrTextFacts.
Import IpAddrFacts.

Lemma format_ipv4_no_colon ip : is_u32 ip → (chr ":" ∉ format_ipv4 ip) ∧ head (format_ipv4 ip) ≠ Some (chr "[") ∧ len (format_ipv4 ip) ≤ 15 ∧ 0 ∉ format_ipv4 ip.
Proof.
  intros Hip%format_ipv4_text. pose proof (ipv4_text_len _ _ Hip). destruct Hip as [Ht _].
  split_and!; [eapply octets_chars, Ht; chars; lia| |done|eapply octets_chars, Ht; lia].
  intros Hh. assert (chr "[" ∉ format_ipv4 ip) as Hn by (eapply octets_chars, Ht; chars; lia).
  destruct (format_ipv4 ip) as [|c r]; [done|]. injection Hh as ->. destruct Hn. by left.
Qed.

(** The parts of an address make the address. *)
Lemma baddr_parts a : BAddr_ok a → ∃ port, BAddr_GetPort a = Some port ∧
  BAddr_MakeFromIpaddrAndPort (BAddr_GetIPAddr a) port = a ∧ BAddr_SetPort a port = Some a.
Proof.
  destruct a as [|ip port|ip port|]; cbn; try done; [by eexists|]. intros [[Hl _] _]. exists port. split_and!; try done.
  unfold BAddr_MakeIPv6. by rewrite !take_ge by (rewrite ?length_take; lia).
Qed.

Lemma print_port port : is_u16 port → is_decimal (print_decimal (ntoh16 port)) ∧
  len (print_decimal (ntoh16 port)) ≤ 5 ∧ dec_value (print_decimal (ntoh16 port)) = ntoh16 port ∧ 0 ≤ ntoh16 port ≤ 65535.
Proof.
  intros Hp. pose proof (ntoh16_u16 port) as Hn. unfold is_u16 in Hn.
  destruct (print_decimal_spec (ntoh16 port)) as (Hd & Hv & Hl & _); [unfold is_u64; lia|].
  split_and!; [done|apply Hl; lia|done|lia|lia].
Qed.
Lemma print_with_port t port out : (0 ∉ t) → len t + 6 < len out → is_u16 port →
  ∃ out', (out ← sprintf 0 t out; n ← strlen out; sprintf n (str ":" ++ print_decimal (ntoh16 port)) out) = Some out' ∧
    c_string out' (t ++ chr ":" :: print_decimal (ntoh16 port)) ∧ len out' = len out.
Proof.
  intros Ht Hl Hp. destruct (print_port port Hp) as (Hd & Hdl & _). set (d := print_decimal (ntoh16 port)) in *.
  destruct (sprintf_fits t out Ht) as (out1 & -> & Hc & Hlen); [lia|]. cbn [mbind option_bind].
  destruct (strlen_spec _ _ Hc) as [-> _]. destruct Hc as (rest & -> & _). cbn [mbind option_bind]. rewrite len_app in Hlen.
  assert (len (str ":" ++ d) = 1 + len d) as Hs by (by rewrite len_app).
  rewrite sprintf_at by (done || lia). eexists. split_and!; [done| |].
  - exists (zdrop (len (str ":" ++ d) + 1) (0 :: rest)). split; [rewrite <- (app_assoc t (chr ":" :: d)); reflexivity|].
    rewrite not_elem_of_app, not_elem_of_cons. split_and!; [done|by chars|]. apply decimal_no_char; [lia|done].
  - rewrite len_app, (len_app (str ":" ++ d)), Hs, len_cons, len_zdrop by len_lia. lia.
Qed.

Lemma print_hex_chars v : is_u16 v → print_hex v ≠ [] ∧ len (print_hex v) ≤ 4 ∧ Forall hex_digit (print_hex v).
Proof.
  intros Hv. unfold is_u16 in Hv. destruct (print_hex_spec v) as ([Hne Hh] & _ & Hl); [unfold is_u64; lia|].
  split_and!; [done|apply Hl; lia|done].
Qed.
Lemma hex_char_not c g : ¬ hex_digit c → Forall hex_digit g → c ∉ g.
Proof. intros Hc Hg Hi. rewrite Forall_forall in Hg. auto. Qed.

(** The first group of a printed IPv6 address, and what is after it. *)
Lemma format_ipv6_parts ip : length ip = 16%nat → bytes_ok ip → ∃ g r, format_ipv6 ip = g ++ chr ":" :: r ∧
  g ≠ [] ∧ Forall hex_digit g ∧ 13 ≤ len r ≤ 34 ∧ len g ≤ 4 ∧ 0 ∉ format_ipv6 ip.
Proof.
  intros Hl Hok. assert (∀ i, (i < 15)%nat → is_u16 (badvpn_read_be16 (drop i ip))) as Hu.
  { intros i Hi. destruct (drop i ip) as [|b0 [|b1 k]] eqn:E; [apply (f_equal length) in E; rewrite length_drop in E; cbn in E; lia..|].
    assert (bytes_ok (b0 :: b1 :: k)) as H by (rewrite <- E; by apply Forall_drop).
    apply Forall_cons in H as [H0 [H1 _]%Forall_cons]. rewrite read_be16_val by done. unfold is_u8, is_u16 in *. cbn [le_val]. lia. }
  unfold format_ipv6. cbv zeta.
  assert (∀ i, (i < 15)%nat → 1 ≤ len (print_hex (badvpn_read_be16 (drop i ip))) ≤ 4 ∧
    (0 ∉ print_hex (badvpn_read_be16 (drop i ip)))) as Hg.
  { intros i Hi. destruct (print_hex_chars _ (Hu i Hi)) as (Hne & H4 & Hh). split_and!; [|done|].
    - destruct (print_hex _); [done|]. rewrite len_cons. len_lia.
    - apply hex_char_not; [unfold hex_digit; lia|done]. }
  destruct (print_hex_chars _ (Hu 0%nat ltac:(lia))) as (Hne0 & H40 & Hh0).
  eexists _, _. split_and!; [reflexivity|exact Hne0|exact Hh0| | |exact H40|].
  1,2: rewrite !len_app, !len_cons, !len_app, !len_cons, !len_app, !len_cons, !len_app, !len_cons, !len_app, !len_cons,
    !len_app, !len_cons;
    pose proof (Hg 2%nat ltac:(lia)); pose proof (Hg 4%nat ltac:(lia)); pose proof (Hg 6%nat ltac:(lia));
    pose proof (Hg 8%nat ltac:(lia)); pose proof (Hg 10%nat ltac:(lia)); pose proof (Hg 12%nat ltac:(lia));
    pose proof (Hg 14%nat ltac:(lia)); lia.
  repeat first [apply not_elem_of_app; split | apply not_elem_of_cons; split]; try (by chars); apply Hg; lia.
Qed.

(** C29: The parser of socket addresses accepts exactly the texts "host:port" and
    "[host]:port" with a port from 0 to 65535 that [strtol] reads from at most five
    characters and a host of at most 127 that the system resolves for the family;
    it returns the address found, with the port in network byte order, and copies
    the host where a buffer for it is given and large enough. It does not access
    anything outside of the text. A host on its own is resolved as IPv6 if it is in
    brackets and as IPv4 otherwise. *)
Theorem baddr_parsed_exactly getaddrinfo s name noresolve :
  (∃ r, BAddr_Parse2 getaddrinfo s name noresolve = Some r ∧
    ∀ a name', r = Some (a, name') ↔ parses getaddrinfo s name noresolve a name') ∧
  (∀ h, s = chr "[" :: h ++ [chr "]"] → BIPAddr_Resolve getaddrinfo s noresolve =
    Some (if 128 <? len h then None else set_ip AF_INET6 <$> getaddrinfo h AF_INET6 noresolve)) ∧
  ((∀ h, s ≠ chr "[" :: h ++ [chr "]"]) → BIPAddr_Resolve getaddrinfo s noresolve =
    Some (if 128 <? len s then None else set_ip AF_INET <$> getaddrinfo s AF_INET noresolve)).
Proof.
  split; [apply baddr_parse_ok|].
  split.
  - intros h ->. unfold BIPAddr_Resolve. rewrite len_cons, len_app. change (len [chr "]"]) with 1.
    rewrite (proj2 (Z.leb_le 1 _)) by len_lia.
    assert (load 0 (chr "[" :: h ++ [chr "]"]) = Some (chr "[")) as -> by exact (load_at [] _ _ 0 eq_refl).
    rewrite (app_comm_cons h [chr "]"]), load_at by (rewrite len_cons; lia). cbn [mbind option_bind]. rewrite !Z.eqb_refl. cbn [andb].
    replace (1 + (len h + 1) - 2) with (len h) by lia. unfold BADDR_MAX_ADDR_LEN. destruct (128 <? len h); [done|].
    rewrite (proj2 (Z.leb_le 0 (len h))), (proj2 (Z.leb_le (1 + len h) _)) by len_lia. cbn [andb].
    assert (zslice 1 (len h) ((chr "[" :: h) ++ [chr "]"]) = h) as ->.
    { unfold zslice. change (zdrop 1 ((chr "[" :: h) ++ [chr "]"])) with (h ++ [chr "]"]). apply ztake_app. }
    by destruct (getaddrinfo h AF_INET6 noresolve).
  - intros Hno. unfold BIPAddr_Resolve.
    assert ((if 1 <=? len s then first ← load 0 s; last ← load (len s - 1) s; Some ((first =? "["%char) && (last =? "]"%char))
      else Some false) = Some false) as ->.
    { destruct s as [|c s] using rev_ind; [done|]. clear IHs. rewrite len_app. change (len [c]) with 1.
      rewrite (proj2 (Z.leb_le 1 _)), load_at by len_lia. destruct s as [|d s].
      - assert (load 0 ([] ++ [c]) = Some c) as -> by exact (load_at [] c [] 0 eq_refl). cbn [mbind option_bind]. chars.
        f_equal. destruct (Z.eqb_spec c 91), (Z.eqb_spec c 93); done || lia.
      - assert (load 0 ((d :: s) ++ [c]) = Some d) as -> by exact (load_at [] d _ 0 eq_refl). cbn [mbind option_bind].
        f_equal. destruct (Z.eqb_spec d (chr "[")) as [->|]; [|done]. destruct (Z.eqb_spec c (chr "]")) as [->|]; [|done].
        by destruct (Hno s). }
    cbn [mbind option_bind]. unfold BADDR_MAX_ADDR_LEN. destruct (128 <? len s); [done|].
    rewrite (proj2 (Z.leb_le 0 (len s))), (proj2 (Z.leb_le (0 + len s) _)) by len_lia. cbn [andb].
    assert (zslice 0 (len s) s = s) as -> by (unfold zslice; rewrite zdrop_0; by apply ztake_all).
    by destruct (getaddrinfo s AF_INET noresolve).
Qed.

(** Numeric IPv4 addresses are resolved as what they are. *)
Definition resolves_numbers (getaddrinfo : bytes → family → bool → option bytes) : Prop :=
  ∀ ip numeric, is_u32 ip → getaddrinfo (format_ipv4 ip) AF_INET numeric = Some (mem32 ip).

Lemma decimal_number_text ds : is_decimal ds → number_text ds (dec_value ds).
Proof. intros Hd. exists [], [], ds. split_and!; [done..|]. by left. Qed.

(** C34: Every IPv4 or IPv6 socket address is printed to a buffer of
    [BADDR_MAX_PRINT_LEN] bytes. An IPv4 address is read back from its text as the
    same address and port. The text of an IPv6 address, which has no brackets, is
    rejected by the parser, and not taken for another address. *)
Theorem baddr_print_parse getaddrinfo a out noresolve :
  resolves_numbers getaddrinfo → BAddr_ok a → BADDR_MAX_PRINT_LEN ≤ len out →
  ∃ out' t, BAddr_Print a out = Some out' ∧ c_string out' t ∧ len out' = len out ∧
    BAddr_Parse2 getaddrinfo t None noresolve =
      Some (if BAddr_type a =? 1 then Some (a, None) else None).
Proof.
  intros Hga Ha Hl. unfold BADDR_MAX_PRINT_LEN in Hl. destruct a as [|ip port|ip port|]; try done.
  - destruct Ha as [Hip Hport]. destruct (format_ipv4_no_colon ip Hip) as (Hnc & Hnb & H15 & H0).
    destruct (print_with_port (format_ipv4 ip) port out H0) as (out' & E & Hc & Hlen); [lia|done|].
    exists out'. eexists. split_and!; [exact E|exact Hc|done|]. cbn [BAddr_type Z.eqb Pos.eqb].
    destruct (print_port port Hport) as (Hd & Hdl & Hv & Hr).
    set (d := print_decimal (ntoh16 port)) in *. clearbody d.
    destruct (baddr_parse_ok getaddrinfo (format_ipv4 ip ++ chr ":" :: d) None noresolve) as (r & -> & Hr').
    f_equal. apply Hr'. exists AF_INET, (format_ipv4 ip), d, (ntoh16 port), (mem32 ip).
    rewrite len_app, len_cons. split_and!; try done; try lia.
    + destruct (format_ipv4 ip) as [|c t]; [|done]. by cbn.
    + rewrite <- Hv. by apply decimal_number_text.
    + by apply Hga.
    + unfold set_ip. cbn [BAddr_MakeFromIpaddrAndPort]. unfold BAddr_MakeIPv4. f_equal.
      * unfold mem32. rewrite take_ge by (by rewrite le_bytes_length). rewrite le_val_bytes.
        symmetry. apply Z.mod_small, Hip.
      * symmetry. by apply ntoh16_hton16.
  - destruct Ha as [[H16 Hok] Hport]. destruct (format_ipv6_parts ip H16 Hok) as (g & r & E & Hne & Hg & Hr & Hg4 & H0).
    assert (take 16 ip = ip) as Htake by (apply take_ge; lia).
    destruct (print_with_port (format_ipv6 ip) port out H0) as (out' & E' & Hc & Hlen); [|done|].
    { rewrite E, len_app, len_cons. lia. }
    exists out'. eexists. split_and!; [|exact Hc|done|].
    { cbn [BAddr_Print]. unfold BIPAddr_InitIPv6. rewrite Htake. exact E'. }
    cbn [BAddr_type Z.eqb Pos.eqb]. clear Hc E'. generalize (print_decimal (ntoh16 port)). intros d.
    destruct (baddr_parse_ok getaddrinfo (format_ipv6 ip ++ chr ":" :: d) None noresolve) as ([[a name']|] & -> & Hr'); [|done].
    exfalso. destruct (proj1 (Hr' a name') eq_refl) as (f & host & p & v & mem & Ht & _ & _ & Hp & _).
    rewrite E, <- app_assoc in Ht. cbn [app] in Ht. destruct f; cbn in Ht.
    + destruct Ht as (Ht & Hnh & _). apply split_at in Ht as [-> <-]; [|by apply hex_char_not; [unfold hex_digit; chars; lia|]|done].
      rewrite len_app in Hp. len_lia.
    + destruct Ht as [Ht _]. destruct g as [|c g]; [by destruct Hne|]. apply (f_equal head) in Ht.
      change (Some c = Some (chr "[")) in Ht. apply Forall_cons in Hg as [Hg _]. clear -Hg Ht. injection Ht as ->.
      unfold hex_digit in Hg. chars. lia.
Qed.

(** A resolver that knows numeric IPv4 addresses only. *)
Definition demo_getaddrinfo (host : bytes) (f : family) (numeric : bool) : option bytes :=
  match f, ipaddr_parse_ipv4_addr_bin host 0 with
  | AF_INET, Some (true, a) => Some (mem32 a)
  | _, _ => None
  end.
Lemma demo_resolves : resolves_numbers demo_getaddrinfo.
Proof.
  intros ip numeric Hip. unfold demo_getaddrinfo. destruct (ipv4_parse_spec (format_ipv4 ip) 0) as (ret & a & -> & Ha).
  by destruct (proj1 (Ha ip) (format_ipv4_text ip Hip)) as [-> ->].
Qed.
Lemma baddr_print_parse_witness :
  ∃ out' t, BAddr_Print (BADDR_IPV4 16777343 20480) (replicate 120 7) = Some out' ∧ c_string out' t ∧ len out' = 120 ∧
    BAddr_Parse2 demo_getaddrinfo t None true = Some (Some (BADDR_IPV4 16777343 20480, None)).
Proof.
  apply (baddr_print_parse demo_getaddrinfo (BADDR_IPV4 16777343 20480) (replicate 120 7) true demo_resolves);
    [split; split; by vm_compute|by vm_compute].
Defined.
Lemma baddr_parsed_exactly_witness :
  (∃ r, BAddr_Parse2 demo_getaddrinfo (str "127.0.0.1: +80") (Some (replicate 10 7)) true = Some r ∧
    ∀ a name', r = Some (a, name') ↔ parses demo_getaddrinfo (str "127.0.0.1: +80") (Some (replicate 10 7)) true a name') ∧
  BAddr_Parse2 demo_getaddrinfo (str "127.0.0.1: +80") (Some (replicate 10 7)) true =
    Some (Some (BADDR_IPV4 16777343 20480, Some (str "127.0.0.1" ++ [0]))).
Proof.
  split; [apply (baddr_parsed_exactly demo_getaddrinfo (str "127.0.0.1: +80") (Some (replicate 10 7)) true)|by vm_compute].
Defined.
End BAddrTextTheorems.
