(* ===== verification/BAVL.v ===== *)
(** The intrusive AVL tree of structure/BAVL.h.

    The nodes are records in a memory indexed by their addresses; the code is
    translated pointer by pointer. It is related to inductive trees, on which
    the balance and order arguments are made. *)
From S2P Require Import Prelude.

(** * The code *)
Module BAVLCode.

Abbreviation ptr := positive.

Record BAVLNode := MkNode {
  parent : option ptr;
  link0 : option ptr;
  link1 : option ptr;
  balance : Z
}.
#[global] Instance eta_BAVLNode : Eta BAVLNode := λ x,
  MkNode (parent x) (link0 x) (link1 x) (balance x).

(** [memory] holds the nodes the tree's pointers lead to. *)
Record BAVL := MkBAVL {
  root : option ptr;
  memory : gmap ptr BAVLNode
}.
#[global] Instance eta_BAVL : Eta BAVL := λ x, MkBAVL (root x) (memory x).

Abbreviation op := (prog BAVL Empty_set).

(** Access through a pointer; following a null or dangling pointer has no
    result. *)
Definition load (p : ptr) : op BAVLNode :=
  λ o, match memory o !! p with Some n => Some (n, o, []) | None => None end.
Definition deref {St} (q : option ptr) : prog St Empty_set ptr :=
  λ o, match q with Some p => Some (p, o, []) | None => None end.
Definition store (p : ptr) (n : BAVLNode) : op unit :=
  modify (λ o, o <| memory := <[p := n]> (memory o) |>).

(** [link[side]], with [false] for 0 and [true] for 1. *)
Definition link (n : BAVLNode) (side : bool) : option ptr := if side then link1 n else link0 n.
Definition with_link (n : BAVLNode) (side : bool) (q : option ptr) : BAVLNode :=
  if side then n <| link1 := q |> else n <| link0 := q |>.

Definition set_parent (p : ptr) (q : option ptr) : op unit :=
  n ← load p; store p (n <| parent := q |>).
Definition set_link (p : ptr) (side : bool) (q : option ptr) : op unit :=
  n ← load p; store p (with_link n side q).
Definition set_balance (p : ptr) (b : Z) : op unit :=
  n ← load p; store p (n <| balance := b |>).
Definition set_root (q : option ptr) : op unit := modify (λ o, o <| root := q |>).

(** [if (q) { q->parent = p; }] *)
Definition set_parent_if (q : option ptr) (p : option ptr) : op unit :=
  match q with Some c => set_parent c p | None => mret tt end.

(** [if (q) { q->link[old == q->link[1]] = new; } else { tree->root = new; }] *)
Definition relink (q : option ptr) (old : ptr) (new : option ptr) : op unit :=
  match q with
  | Some pp => n ← load pp; set_link pp (bool_decide (Some old = link1 n)) new
  | None => set_root new
  end.

Definition BAVL_MAX (a b : Z) : Z := if b <? a then a else b.
Definition BAVL_OPTNEG (a : Z) (neg : bool) : Z := if neg then - a else a.

Definition _BAVL_rotate (r : ptr) (dir : bool) : op unit :=
  rn ← load r;
  nr ← deref (link rn (negb dir));
  nrn ← load nr;
  set_link r (negb dir) (link nrn dir);;
  set_parent_if (link nrn dir) (Some r);;
  set_link nr dir (Some r);;
  rn ← load r;
  set_parent nr (parent rn);;
  relink (parent rn) r (Some nr);;
  set_parent r (Some nr).

Fixpoint subtree_max (fuel : nat) (n : ptr) : op ptr :=
  match fuel with
  | O => λ _, None
  | S fuel =>
      nn ← load n;
      match link1 nn with
      | Some m => subtree_max fuel m
      | None => mret n
      end
  end.

(** A path in the tree has at most as many nodes as the memory. *)
Definition _BAVL_subtree_max (n : ptr) : op ptr :=
  o ← get_st;
  subtree_max (size (memory o)) n.

Definition _BAVL_replace_subtree (dest : ptr) (n : option ptr) : op unit :=
  dn ← load dest;
  relink (parent dn) dest n;;
  dn ← load dest;
  set_parent_if n (parent dn).

(** The case of two nodes directly connected, [n1] above [n2]. *)
Definition swap_connected (n1 n2 : ptr) : op unit :=
  n1n ← load n1;
  n2n ← load n2;
  let side := bool_decide (Some n2 = link1 n1n) in
  let c := link n1n (negb side) in
  set_link n1 false (link0 n2n);;
  set_parent_if (link0 n2n) (Some n1);;
  n2n ← load n2;
  set_link n1 true (link1 n2n);;
  set_parent_if (link1 n2n) (Some n1);;
  n1n ← load n1;
  set_parent n2 (parent n1n);;
  relink (parent n1n) n1 (Some n2);;
  set_link n2 side (Some n1);;
  set_parent n1 (Some n2);;
  set_link n2 (negb side) c;;
  set_parent_if c (Some n2).

Definition swap_apart (n1 n2 : ptr) : op unit :=
  (* swap parents *)
  n1n ← load n1;
  n2n ← load n2;
  let temp := parent n1n in
  set_parent n1 (parent n2n);;
  relink (parent n2n) n2 (Some n1);;
  set_parent n2 temp;;
  relink temp n1 (Some n2);;
  (* swap left children *)
  n1n ← load n1;
  n2n ← load n2;
  let temp := link0 n1n in
  set_link n1 false (link0 n2n);;
  set_parent_if (link0 n2n) (Some n1);;
  set_link n2 false temp;;
  set_parent_if temp (Some n2);;
  (* swap right children *)
  n1n ← load n1;
  n2n ← load n2;
  let temp := link1 n1n in
  set_link n1 true (link1 n2n);;
  set_parent_if (link1 n2n) (Some n1);;
  set_link n2 true temp;;
  set_parent_if temp (Some n2).

Definition _BAVL_swap_nodes (n1 n2 : ptr) : op unit :=
  n1n ← load n1;
  n2n ← load n2;
  (if bool_decide (parent n2n = Some n1) || bool_decide (parent n1n = Some n2) then
     if bool_decide (parent n1n = Some n2) then swap_connected n2 n1 else swap_connected n1 n2
   else swap_apart n1 n2);;
  (* swap balance factors *)
  n1n ← load n1;
  n2n ← load n2;
  set_balance n1 (balance n2n);;
  set_balance n2 (balance n1n).

(** The transformation of a node whose balance factor is 2 or -2, at
    [delta]: the node now at the top of the subtree and the new [delta]. *)
Definition rebalance_transform (node : ptr) (bal : Z) (delta : Z) : op (ptr * Z) :=
  let bside := (bal =? 2) in
  let bsidef := if bside then 1 else -1 in
  nn ← load node;
  child ← deref (link nn bside);
  cn ← load child;
  if balance cn * bsidef =? 1 then
    _BAVL_rotate node (negb bside);;
    set_balance node 0;;
    set_balance child 0;;
    mret (child, delta - 1)
  else if balance cn * bsidef =? 0 then
    _BAVL_rotate node (negb bside);;
    set_balance node (1 * bsidef);;
    set_balance child (-1 * bsidef);;
    mret (child, delta)
  else
    ASSERT (balance cn * bsidef =? -1);;
    gchild ← deref (link cn (negb bside));
    _BAVL_rotate child bside;;
    _BAVL_rotate node (negb bside);;
    gn ← load gchild;
    set_balance node (- BAVL_MAX 0 (balance gn * bsidef) * bsidef);;
    set_balance child (BAVL_MAX 0 (- balance gn * bsidef) * bsidef);;
    set_balance gchild 0;;
    mret (gchild, delta - 1).

Fixpoint rebalance (fuel : nat) (node : ptr) (side : bool) (deltac : Z) : op unit :=
  match fuel with
  | O => λ _, None
  | S fuel =>
      nn ← load node;
      ASSERT ((-1 <=? deltac) && (deltac <=? 1));;
      ASSERT ((-1 <=? balance nn) && (balance nn <=? 1));;
      if deltac =? 0 then mret tt else
      let delta := BAVL_MAX deltac (BAVL_OPTNEG (balance nn) side)
                   - BAVL_MAX 0 (BAVL_OPTNEG (balance nn) side) in
      ASSERT ((-1 <=? delta) && (delta <=? 1));;
      let bal := balance nn - BAVL_OPTNEG deltac side in
      set_balance node bal;;
      '(node, delta) ←
        (if (bal =? 2) || (bal =? -2) then rebalance_transform node bal delta
         else mret (node, delta));
      ASSERT ((-1 <=? delta) && (delta <=? 1));;
      nn ← load node;
      match parent nn with
      | Some p =>
          pn ← load p;
          rebalance fuel p (bool_decide (Some node = link1 pn)) delta
      | None => mret tt
      end
  end.

Definition _BAVL_rebalance (node : ptr) (side : bool) (deltac : Z) : op unit :=
  o ← get_st;
  rebalance (size (memory o)) node side deltac.

Definition BAVL_Init (mem : gmap ptr BAVLNode) : BAVL := {| root := None; memory := mem |}.

(** [value p] is the value of the node at [p], at its offset from the node. *)
Section with_comparator.
Context {K : Type} (comparator : K → K → Z) (value : ptr → K).

Definition _BAVL_compare_values (v1 v2 : K) : op Z :=
  let res := comparator v1 v2 in
  ASSERT ((res =? -1) || (res =? 0) || (res =? 1));;
  mret res.
Definition _BAVL_compare_nodes (n1 n2 : ptr) : op Z :=
  _BAVL_compare_values (value n1) (value n2).

(** The loop of [BAVL_Insert], [BAVL_Lookup] and [BAVL_LookupExact]: the node
    where the descent for the value [val] ends, with [Some side] where a leaf
    was reached and [None] for a node that compares equal. *)
Fixpoint descend (fuel : nat) (val : K) (c : ptr) : op (ptr * option bool) :=
  match fuel with
  | O => λ _, None
  | S fuel =>
      comp ← _BAVL_compare_values val (value c);
      if comp =? 0 then mret (c, None) else
      let side := (comp =? 1) in
      cn ← load c;
      match link cn side with
      | None => mret (c, Some side)
      | Some c' => descend fuel val c'
      end
  end.

(** Returns the result and [*ref]. *)
Definition BAVL_Insert (node : ptr) : op (Z * option ptr) :=
  o ← get_st;
  match root o with
  | None =>
      set_root (Some node);;
      store node (MkNode None None None 0);;
      mret (1, None)
  | Some c =>
      '(c, at_leaf) ← descend (size (memory o)) (value node) c;
      match at_leaf with
      | None => mret (0, Some c)
      | Some side =>
          set_link c side (Some node);;
          store node (MkNode (Some c) None None 0);;
          _BAVL_rebalance c side 1;;
          mret (1, Some c)
      end
  end.

Definition BAVL_Remove (node : ptr) : op unit :=
  nn ← load node;
  (match link0 nn, link1 nn with
   | Some l, Some _ => max ← _BAVL_subtree_max l; _BAVL_swap_nodes node max
   | _, _ => mret tt
   end);;
  nn ← load node;
  ASSERT (negb (bool_decide (is_Some (link0 nn)) && bool_decide (is_Some (link1 nn))));;
  let child := match link0 nn with Some l => Some l | None => link1 nn end in
  match parent nn with
  | Some p =>
      pn ← load p;
      let side := bool_decide (Some node = link1 pn) in
      _BAVL_replace_subtree node child;;
      _BAVL_rebalance p side (-1)
  | None => _BAVL_replace_subtree node child
  end.

Definition BAVL_IsEmpty : op bool := gets (λ o, bool_decide (root o = None)).

Definition BAVL_Lookup (val : K) : op (option ptr) :=
  o ← get_st;
  match root o with
  | None => mret None
  | Some c => '(c, _) ← descend (size (memory o)) val c; mret (Some c)
  end.
Definition BAVL_LookupExact (val : K) : op (option ptr) :=
  o ← get_st;
  match root o with
  | None => mret None
  | Some c =>
      '(c, at_leaf) ← descend (size (memory o)) val c;
      match at_leaf with Some _ => mret None | None => mret (Some c) end
  end.

(** The last node from [n] along the links of one side. *)
Fixpoint last_link (fuel : nat) (side : bool) (n : ptr) : op ptr :=
  match fuel with
  | O => λ _, None
  | S fuel =>
      nn ← load n;
      match link nn side with
      | Some m => last_link fuel side m
      | None => mret n
      end
  end.
Definition get_end (side : bool) : op (option ptr) :=
  o ← get_st;
  match root o with
  | None => mret None
  | Some n => n ← last_link (size (memory o)) side n; mret (Some n)
  end.
Definition BAVL_GetFirst : op (option ptr) := get_end false.
Definition BAVL_GetLast : op (option ptr) := get_end true.

(** The ascent of [GetNext] and [GetPrev]: up while coming from [side]. *)
Fixpoint ascend (fuel : nat) (side : bool) (n : ptr) : op (option ptr) :=
  match fuel with
  | O => λ _, None
  | S fuel =>
      nn ← load n;
      match parent nn with
      | None => mret None
      | Some p =>
          pn ← load p;
          if bool_decide (Some n = link pn side) then ascend fuel side p else mret (Some p)
      end
  end.
Definition neighbour (side : bool) (n : ptr) : op (option ptr) :=
  o ← get_st;
  nn ← load n;
  match link nn side with
  | Some m => m ← last_link (size (memory o)) (negb side) m; mret (Some m)
  | None => ascend (size (memory o)) side n
  end.
Definition BAVL_GetNext (n : ptr) : op (option ptr) := neighbour true n.
Definition BAVL_GetPrev (n : ptr) : op (option ptr) := neighbour false n.

(** The height of the subtree at [n], with the checks of the recursion. *)
Fixpoint _BAVL_assert_recurser (fuel : nat) (n : ptr) : op Z :=
  match fuel with
  | O => λ _, None
  | S fuel =>
      nn ← load n;
      ASSERT (-1 <=? balance nn);;
      ASSERT (balance nn <=? 1);;
      height_left ←
        match link0 nn with
        | Some l => ln ← load l;
                    ASSERT (bool_decide (parent ln = Some n));;
                    comp ← _BAVL_compare_nodes l n;
                    ASSERT (comp =? -1);;
                    _BAVL_assert_recurser fuel l
        | None => mret 0
        end;
      height_right ←
        match link1 nn with
        | Some r => rn ← load r;
                    ASSERT (bool_decide (parent rn = Some n));;
                    comp ← _BAVL_compare_nodes r n;
                    ASSERT (comp =? 1);;
                    _BAVL_assert_recurser fuel r
        | None => mret 0
        end;
      ASSERT (balance nn =? height_right - height_left);;
      mret (BAVL_MAX height_left height_right + 1)
  end.
Definition BAVL_Verify : op unit :=
  o ← get_st;
  match root o with
  | None => mret tt
  | Some r =>
      rn ← load r;
      ASSERT (bool_decide (parent rn = None));;
      _BAVL_assert_recurser (size (memory o)) r;;
      mret tt
  end.
End with_comparator.
End BAVLCode.

(** * Trees and their layout in memory *)
Module BAVLTree.
Import BAVLCode.

(** A tree with the addresses of its nodes and the balance factors stored in
    them. *)
Inductive tree := Leaf | Node (b : Z) (l : tree) (p : ptr) (r : tree).
(** A tree with a hole, as the way up from it: the hole is on side [d] of the
    node [p], whose other subtree is [sib]. *)
Inductive frame := Frame (d : bool) (b : Z) (p : ptr) (sib : tree).

Definition bnode (d : bool) (b : Z) (t : tree) (p : ptr) (u : tree) : tree :=
  if d then Node b u p t else Node b t p u.
Definition bmk (d : bool) (par q1 q2 : option ptr) (b : Z) : BAVLNode :=
  if d then MkNode par q2 q1 b else MkNode par q1 q2 b.

Definition tptr (t : tree) : option ptr :=
  match t with Leaf => None | Node _ _ p _ => Some p end.
Definition cpar (par : option ptr) (c : list frame) : option ptr :=
  match c with [] => par | Frame _ _ p _ :: _ => Some p end.
Fixpoint ctop (c : list frame) (q : option ptr) : option ptr :=
  match c with [] => q | Frame _ _ p _ :: c => ctop c (Some p) end.
Fixpoint plug (t : tree) (c : list frame) : tree :=
  match c with [] => t | Frame d b p sib :: c => plug (bnode d b t p sib) c end.

(** The contents of the nodes, below the parent [par]. *)
Fixpoint nodes (par : option ptr) (t : tree) : list (ptr * BAVLNode) :=
  match t with
  | Leaf => []
  | Node b l p r => (p, MkNode par (tptr l) (tptr r) b) :: nodes (Some p) l ++ nodes (Some p) r
  end.
Fixpoint cnodes (par hole : option ptr) (c : list frame) : list (ptr * BAVLNode) :=
  match c with
  | [] => []
  | Frame d b p sib :: c =>
      (p, bmk d (cpar par c) hole (tptr sib) b) :: nodes (Some p) sib ++ cnodes par (Some p) c
  end.

(** The addresses, in order. *)
Fixpoint elems (t : tree) : list ptr :=
  match t with Leaf => [] | Node _ l p r => elems l ++ p :: elems r end.

Fixpoint celems (c : list frame) : list ptr :=
  match c with [] => [] | Frame _ _ p sib :: c => p :: elems sib ++ celems c end.

Definition znodes (c : list frame) (t : tree) : list (ptr * BAVLNode) :=
  nodes (cpar None c) t ++ cnodes None (tptr t) c.

Definition holds (h : gmap ptr BAVLNode) (l : list (ptr * BAVLNode)) : Prop :=
  Forall (λ x, h !! x.1 = Some x.2) l.

Definition distinct (c : list frame) (t : tree) : Prop := NoDup (elems t ++ celems c).

(** The memory of [o] holds the tree [t] in the context [c]. *)
Record zrep (o : BAVL) (c : list frame) (t : tree) : Prop := {
  z_root : root o = ctop c (tptr t);
  z_nodup : distinct c t;
  z_mem : holds (memory o) (znodes c t)
}.

(** ** Access *)

Lemma wp_load p n o Q :
  memory o !! p = Some n → Q n o [] → wp (load p) o Q.
Proof. intros E HQ. unfold wp, load. by rewrite E. Qed.
Lemma wp_deref {St} p (o : St) Q :
  Q p o [] → wp (deref (Some p)) o Q.
Proof. done. Qed.
Lemma wp_store p n o Q :
  Q tt (MkBAVL (root o) (<[p := n]> (memory o))) [] → wp (store p n) o Q.
Proof. done. Qed.
Lemma wp_set_root q o Q :
  Q tt (MkBAVL q (memory o)) [] → wp (set_root q) o Q.
Proof. done. Qed.
Lemma wp_set_parent p n q o Q :
  memory o !! p = Some n →
  Q tt (MkBAVL (root o) (<[p := MkNode q (link0 n) (link1 n) (balance n)]> (memory o))) [] →
  wp (set_parent p q) o Q.
Proof. intros E HQ. unfold set_parent. apply wp_bind. by eapply wp_load, wp_store. Qed.
Lemma wp_set_link p n side q o Q :
  memory o !! p = Some n → Q tt (MkBAVL (root o) (<[p := with_link n side q]> (memory o))) [] →
  wp (set_link p side q) o Q.
Proof. intros E HQ. unfold set_link. apply wp_bind. by eapply wp_load, wp_store. Qed.
Lemma wp_set_balance p n b o Q :
  memory o !! p = Some n →
  Q tt (MkBAVL (root o) (<[p := MkNode (parent n) (link0 n) (link1 n) b]> (memory o))) [] →
  wp (set_balance p b) o Q.
Proof. intros E HQ. unfold set_balance. apply wp_bind. by eapply wp_load, wp_store. Qed.

(** ** Distinct addresses *)

Definition disj (l k : list ptr) : Prop := ∀ x, x ∈ l → x ∉ k.
Lemma NoDup_app_disj (l k : list ptr) : NoDup (l ++ k) ↔ NoDup l ∧ disj l k ∧ NoDup k.
Proof. apply NoDup_app. Qed.
Lemma disj_nil_l k : disj [] k ↔ True.
Proof. split; [done|]. by intros _ x ?%elem_of_nil. Qed.
Lemma disj_nil_r l : disj l [] ↔ True.
Proof. split; [done|]. by intros _ x _ ?%elem_of_nil. Qed.
Lemma disj_cons_l x l k : disj (x :: l) k ↔ (x ∉ k) ∧ disj l k.
Proof. unfold disj. setoid_rewrite elem_of_cons. naive_solver. Qed.
Lemma disj_cons_r x l k : disj l (x :: k) ↔ (x ∉ l) ∧ disj l k.
Proof. unfold disj. setoid_rewrite elem_of_cons. naive_solver. Qed.
Lemma disj_app_l l1 l2 k : disj (l1 ++ l2) k ↔ disj l1 k ∧ disj l2 k.
Proof. unfold disj. setoid_rewrite elem_of_app. naive_solver. Qed.
Lemma disj_app_r l k1 k2 : disj l (k1 ++ k2) ↔ disj l k1 ∧ disj l k2.
Proof. unfold disj. setoid_rewrite elem_of_app. naive_solver. Qed.
Lemma not_elem_app (x : ptr) l k : x ∉ l ++ k ↔ (x ∉ l) ∧ (x ∉ k).
Proof. apply not_elem_of_app. Qed.
Lemma not_elem_cons (x y : ptr) k : x ∉ y :: k ↔ x ≠ y ∧ (x ∉ k).
Proof. apply not_elem_of_cons. Qed.
Lemma not_elem_nil (x : ptr) : (x ∉ []) ↔ True.
Proof. split; [done|]. intros _. apply not_elem_of_nil. Qed.
Lemma NoDup_cons_not (x : ptr) l : NoDup (x :: l) ↔ (x ∉ l) ∧ NoDup l.
Proof. apply NoDup_cons. Qed.

(** The addresses are those of the nodes. *)
Lemma nodes_elems par t p n : (p, n) ∈ nodes par t → p ∈ elems t.
Proof.
  revert par. induction t as [|b l IHl q r IHr]; intros par; cbn; [by intros ?%elem_of_nil|].
  rewrite elem_of_cons, !elem_of_app, elem_of_cons. naive_solver.
Qed.
Lemma cnodes_celems par h c p n : (p, n) ∈ cnodes par h c → p ∈ celems c.
Proof.
  revert h. induction c as [|[d b q sib] c IH]; intros h; cbn; [by intros ?%elem_of_nil|].
  rewrite !elem_of_cons, !elem_of_app. intros [[= -> _]|[H|H]]; [by left| |]; right.
  - left. by eapply nodes_elems.
  - right. by eapply IH.
Qed.

(** ** Memory that holds nodes *)

Lemma holds_cons h p n l : holds h ((p, n) :: l) ↔ h !! p = Some n ∧ holds h l.
Proof. unfold holds. by rewrite Forall_cons. Qed.
Lemma holds_app h l k : holds h (l ++ k) ↔ holds h l ∧ holds h k.
Proof. unfold holds. by rewrite Forall_app. Qed.
Lemma holds_nil h : holds h [] ↔ True.
Proof. split; [done|]. constructor. Qed.
Lemma holds_nodes_insert h a x par t : a ∉ elems t → holds h (nodes par t) →
  holds (<[a := x]> h) (nodes par t).
Proof.
  unfold holds. rewrite !Forall_forall. intros Ha H [p n] Hp. specialize (H _ Hp). cbn in *.
  rewrite lookup_insert_ne; [done|]. intros ->. by apply Ha, (nodes_elems par t _ n).
Qed.
Lemma holds_cnodes_insert h a x par q c : a ∉ celems c → holds h (cnodes par q c) →
  holds (<[a := x]> h) (cnodes par q c).
Proof.
  unfold holds. rewrite !Forall_forall. intros Ha H [p n] Hp. specialize (H _ Hp). cbn in *.
  rewrite lookup_insert_ne; [done|]. intros ->. by apply Ha, (cnodes_celems par q c _ n).
Qed.

(** The layout of an explicit tree as facts about its addresses. *)
Ltac split_layout :=
  repeat match goal with
  | H : NoDup (_ ++ _) |- _ => apply NoDup_app_disj in H as (? & ? & ?)
  | H : NoDup (_ :: _) |- _ => apply NoDup_cons_not in H as [? ?]
  | H : disj (_ ++ _) _ |- _ => apply disj_app_l in H as [? ?]
  | H : disj (_ :: _) _ |- _ => apply disj_cons_l in H as [? ?]
  | H : disj _ (_ ++ _) |- _ => apply disj_app_r in H as [? ?]
  | H : disj _ (_ :: _) |- _ => apply disj_cons_r in H as [? ?]
  | H : disj [] _ |- _ => clear H
  | H : disj _ [] |- _ => clear H
  | H : NoDup [] |- _ => clear H
  | H : _ ∉ _ ++ _ |- _ => apply not_elem_app in H as [? ?]
  | H : _ ∉ _ :: _ |- _ => apply not_elem_cons in H as [? ?]
  | H : _ ∉ [] |- _ => clear H
  | H : holds _ (_ ++ _) |- _ => apply holds_app in H as [? ?]
  | H : holds _ (_ :: _) |- _ => apply holds_cons in H as [? ?]
  | H : holds _ [] |- _ => clear H
  end.
Ltac layout Hn Hm :=
  unfold znodes in Hm; unfold distinct in Hn;
  cbn [nodes cnodes cpar ctop tptr elems celems bnode bmk app root memory] in Hn, Hm |- *;
  split_layout.

Lemma tptr_ne p t : p ∉ elems t → Some p ≠ tptr t.
Proof. destruct t as [|b l q r]; [done|]. cbn. rewrite not_elem_app, not_elem_cons. naive_solver. Qed.
Lemma Some_ne (p q : ptr) : p ≠ q → Some p ≠ Some q.
Proof. congruence. Qed.

Ltac neq := first [assumption | apply not_eq_sym; assumption].
Ltac look :=
  cbn [root memory parent link0 link1 balance link with_link bmk negb upd];
  repeat first [rewrite lookup_insert_eq | rewrite lookup_insert_ne by neq].

Ltac mem_step :=
  lazymatch goal with
  | |- wp (_ ≫= _) _ _ => apply wp_bind
  | |- wp (mret _) _ _ => apply wp_ret
  | |- wp (set_root _) _ _ => apply wp_set_root
  | |- wp (store _ _) _ _ => apply wp_store
  | |- wp (deref (Some _)) _ _ => apply wp_deref
  | |- wp (load _) _ _ => eapply wp_load; [look; first [reflexivity | eassumption]|]
  | |- wp (set_parent _ _) _ _ => eapply wp_set_parent; [look; first [reflexivity | eassumption]|]
  | |- wp (set_link _ _ _) _ _ => eapply wp_set_link; [look; first [reflexivity | eassumption]|]
  | |- wp (set_balance _ _) _ _ => eapply wp_set_balance; [look; first [reflexivity | eassumption]|]
  | |- wp (relink (Some _) _ _) _ _ => unfold relink
  | |- wp (relink None _ _) _ _ => unfold relink
  | |- wp (set_parent_if (Some _) _) _ _ => unfold set_parent_if
  | |- wp (set_parent_if None _) _ _ => unfold set_parent_if
  end; cbn beta; cbn [root memory parent link0 link1 balance link with_link bmk negb upd];
  try (rewrite bool_decide_eq_true_2 by reflexivity);
  try (rewrite bool_decide_eq_false_2 by first [apply Some_ne; neq | apply tptr_ne; assumption | discriminate]);
  cbn [root memory parent link0 link1 balance link with_link bmk negb orb upd].

(** What is stored at the addresses of the new layout. *)
Ltac mem_goal :=
  unfold znodes; cbn [nodes cnodes cpar ctop tptr bnode bmk app root memory];
  repeat match goal with
  | |- holds _ (_ ++ _) => apply holds_app; split
  | |- holds _ (_ :: _) => apply holds_cons; split
  | |- holds _ [] => apply holds_nil; exact I
  end;
  repeat first [ apply holds_nodes_insert; [assumption|] | apply holds_cnodes_insert; [assumption|] ];
  try assumption; look; try first [reflexivity|assumption].

Ltac flat_app := repeat (rewrite <- app_assoc; cbn [app]); first [done | tauto].

Lemma rotate_ok d o c A r b1 B nr b2 C :
  zrep o c (bnode d b1 A r (bnode d b2 B nr C)) →
  wp (_BAVL_rotate r d) o (λ _ o' _, zrep o' c (bnode d b2 (bnode d b1 A r B) nr C)).
Proof.
  intros [Hr Hn Hm]. destruct o as [ro h]. cbn [root memory] in *.
  assert (distinct c (bnode d b2 (bnode d b1 A r B) nr C)) as Hn'.
  { unfold distinct in *. revert Hn. destruct d; cbn; flat_app. }
  destruct d, B as [|bb Bl q Br], c as [|[[] b' pp sib] c]; layout Hn Hm;
   unfold _BAVL_rotate; repeat mem_step; (constructor; [done|exact Hn'|mem_goal]).
Qed.

(** ** Moving the focus *)

Lemma elems_bnode d b t p u : elems (bnode d b t p u) ≡ₚ p :: elems t ++ elems u.
Proof. destruct d; cbn; rewrite <- Permutation_middle; [|done]. by rewrite (Permutation_app_comm (elems u)). Qed.
Lemma nodes_bnode d b t p u par : nodes par (bnode d b t p u) ≡ₚ
  (p, bmk d par (tptr t) (tptr u) b) :: nodes (Some p) t ++ nodes (Some p) u.
Proof. destruct d; cbn; [|done]. by rewrite (Permutation_app_comm (nodes (Some p) u)). Qed.
Lemma tptr_bnode d b t p u : tptr (bnode d b t p u) = Some p.
Proof. by destruct d. Qed.

Lemma distinct_focus c d b t p u : distinct c (bnode d b t p u) ↔ distinct (Frame d b p u :: c) t.
Proof.
  unfold distinct. rewrite elems_bnode. cbn. rewrite <- Permutation_middle. cbn. by rewrite <- app_assoc.
Qed.
Lemma znodes_focus c d b t p u : znodes c (bnode d b t p u) ≡ₚ znodes (Frame d b p u :: c) t.
Proof.
  unfold znodes. rewrite nodes_bnode, tptr_bnode. cbn. rewrite <- Permutation_middle, <- app_assoc. done.
Qed.
Lemma holds_perm h l k : l ≡ₚ k → holds h l ↔ holds h k.
Proof. intros E. unfold holds. by rewrite E. Qed.

Lemma zrep_focus o c d b t p u : zrep o c (bnode d b t p u) ↔ zrep o (Frame d b p u :: c) t.
Proof.
  split; intros [Hr Hn Hm]; constructor; cbn [ctop] in *; rewrite ?tptr_bnode in *; try done;
    first [by apply distinct_focus|by eapply holds_perm; [|exact Hm]; rewrite znodes_focus].
Qed.

Lemma zrep_load o c d b t p u : zrep o c (bnode d b t p u) →
  memory o !! p = Some (bmk d (cpar None c) (tptr t) (tptr u) b).
Proof.
  intros [_ _ Hm]. unfold znodes in Hm. apply holds_app in Hm as [Hm _].
  rewrite (holds_perm _ _ _ (nodes_bnode d b t p u _)) in Hm. by apply holds_cons in Hm as [E _].
Qed.

Lemma set_balance_ok o c d b b' t p u : zrep o c (bnode d b t p u) →
  wp (set_balance p b') o (λ _ o' _, zrep o' c (bnode d b' t p u)).
Proof.
  intros Hz. pose proof (zrep_load _ _ _ _ _ _ _ Hz) as E. destruct Hz as [Hr Hn Hm].
  eapply wp_set_balance; [done|]. constructor; cbn [root memory].
  - by rewrite tptr_bnode in *.
  - by rewrite distinct_focus in *.
  - rewrite (holds_perm _ _ _ (znodes_focus _ _ _ _ _ _)) in *. rewrite distinct_focus in Hn.
    destruct d; layout Hn Hm; mem_goal.
Qed.

(** A new leaf in place of an empty subtree. *)
Lemma attach_ok o c d b p sib node : zrep o (Frame d b p sib :: c) Leaf →
  node ∉ p :: elems sib ++ celems c →
  wp (set_link p d (Some node)) o (λ _ o1 _,
    wp (store node (MkNode (Some p) None None 0)) o1
      (λ _ o' _, zrep o' (Frame d b p sib :: c) (Node 0 Leaf node Leaf))).
Proof.
  intros [Hr Hn Hm] Hnode.
  assert (distinct (Frame d b p sib :: c) (Node 0 Leaf node Leaf)) as Hn' by (by apply NoDup_cons).
  destruct o as [ro h]. cbn [root memory] in *.
  destruct d; layout Hn Hm; repeat mem_step; (constructor; [done|exact Hn'|mem_goal]).
Qed.

(** A node with one subtree is replaced by that subtree. *)
Lemma replace_subtree_ok o c d b t p : zrep o c (bnode d b t p Leaf) →
  wp (_BAVL_replace_subtree p (tptr t)) o (λ _ o' _, zrep o' c t).
Proof.
  intros Hz. assert (distinct c t) as Hn'.
  { destruct Hz as [_ Hn _]. apply distinct_focus in Hn. unfold distinct in *.
    revert Hn. cbn. rewrite <- Permutation_middle. by intros [_ ?]%NoDup_cons. }
  destruct Hz as [Hr Hn Hm]. destruct o as [ro h]. cbn [root memory] in *.
  destruct d, t as [|bt tl q tr], c as [|[[] b' pp sib] c]; layout Hn Hm;
    unfold _BAVL_replace_subtree; repeat mem_step; (constructor; [done|exact Hn'|mem_goal]).
Qed.

(** ** Swapping a node with the greatest below it *)

Lemma cpar_app par c1 c2 : cpar par (c1 ++ c2) = cpar (cpar par c2) c1.
Proof. by destruct c1 as [|[]]. Qed.
Lemma ctop_app c1 c2 q : ctop (c1 ++ c2) q = ctop c2 (ctop c1 q).
Proof. revert q. by induction c1 as [|[] c1 IH]; intros q; cbn. Qed.
Lemma celems_app c1 c2 : celems (c1 ++ c2) = celems c1 ++ celems c2.
Proof. induction c1 as [|[] c1 IH]; cbn; [done|]. by rewrite IH, <- app_assoc. Qed.
Lemma cnodes_app par h c1 c2 :
  cnodes par h (c1 ++ c2) = cnodes (cpar par c2) h c1 ++ cnodes par (ctop c1 h) c2.
Proof.
  revert h. induction c1 as [|[] c1 IH]; intros h; cbn; [done|].
  by rewrite IH, cpar_app, <- app_assoc.
Qed.

(** The way down from the left child along the right links. *)
Definition spine (c : list frame) : Prop := Forall (λ f, match f with Frame d _ _ _ => d = true end) c.

Lemma swap_distinct c2 b1 n1 n2 r c b2 l2 :
  distinct (c2 ++ Frame false b1 n1 r :: c) (Node b2 l2 n2 Leaf) →
  distinct (c2 ++ Frame false b1 n2 r :: c) (Node b2 l2 n1 Leaf).
Proof.
  unfold distinct. rewrite !celems_app. cbn. rewrite <- !app_assoc. cbn.
  assert (∀ a b : ptr, elems l2 ++ a :: celems c2 ++ b :: elems r ++ celems c ≡ₚ
    a :: b :: elems l2 ++ celems c2 ++ elems r ++ celems c) as E.
  { intros a b. rewrite <- Permutation_middle. f_equiv. rewrite (app_assoc (elems l2)), <- Permutation_middle.
    by rewrite <- app_assoc. }
  rewrite !E. by rewrite Permutation_swap.
Qed.

Ltac swap_solve Hr Hn Hm Hn' :=
  rewrite <- ?app_assoc in Hr, Hn, Hm, Hn' |- *; cbn [app] in Hr, Hn, Hm, Hn' |- *;
  unfold znodes, distinct in Hn, Hm; cbn [nodes cnodes cpar ctop tptr elems celems bmk] in Hr, Hn, Hm;
  rewrite ?cnodes_app, ?cpar_app, ?ctop_app in Hm; rewrite ?celems_app in Hn; rewrite ?ctop_app in Hr;
  cbn [nodes cnodes cpar ctop tptr elems celems bmk app] in Hr, Hn, Hm; split_layout;
  unfold _BAVL_swap_nodes, swap_connected, swap_apart; repeat mem_step;
  (constructor; [cbn [root ctop tptr]; rewrite ?ctop_app; done|exact Hn'|];
   unfold znodes; cbn [nodes cnodes cpar ctop tptr memory]; rewrite ?cnodes_app, ?cpar_app, ?ctop_app; mem_goal).

Lemma swap_ok o c2 b1 n1 n2 br rl rp rr c b2 l2 : spine c2 →
  zrep o (c2 ++ Frame false b1 n1 (Node br rl rp rr) :: c) (Node b2 l2 n2 Leaf) →
  wp (_BAVL_swap_nodes n1 n2) o (λ _ o' _,
    zrep o' (c2 ++ Frame false b1 n2 (Node br rl rp rr) :: c) (Node b2 l2 n1 Leaf)).
Proof.
  intros Hs [Hr Hn Hm]. pose proof (swap_distinct _ _ _ _ _ _ _ _ Hn) as Hn'.
  destruct o as [ro h]. cbn [root memory] in *.
  destruct c2 as [|[d2 bf f sf] c2]; [|apply Forall_cons in Hs as [-> Hs]].
  - destruct l2 as [|bl ll lp lr], c as [|[[] b' pp sib] c]; swap_solve Hr Hn Hm Hn'.
  - destruct c2 as [|[dt bt top st] mid _] using rev_ind.
    + destruct l2 as [|bl ll lp lr], c as [|[[] b' pp sib] c]; swap_solve Hr Hn Hm Hn'.
    + apply Forall_app in Hs as [_ [-> _]%Forall_cons].
      destruct l2 as [|bl ll lp lr], c as [|[[] b' pp sib] c]; swap_solve Hr Hn Hm Hn'.
Qed.
End BAVLTree.
