(* ===== verification/BAVLFacts.v ===== *)
(** The AVL tree of structure/BAVL.h keeps its balance and order: every
    operation refines the one on an ordered list of nodes. *)
From Stdlib Require Import Sorting.Sorted.
From S2P Require Import Prelude TreeInterface BAVL.
Import BAVLCode BAVLTree.

Module BAVLFacts.

(** ** Balance *)

Fixpoint height (t : tree) : Z :=
  match t with Leaf => 0 | Node _ l _ r => 1 + Z.max (height l) (height r) end.
Definition sgn (d : bool) : Z := if d then -1 else 1.

(** Every stored balance factor is the difference of the heights, at most
    one. *)
Fixpoint avl (t : tree) : Prop :=
  match t with
  | Leaf => True
  | Node b l _ r => b = height r - height l ∧ -1 ≤ b ≤ 1 ∧ avl l ∧ avl r
  end.
(** The same of the nodes above a hole of height [h]. *)
Fixpoint cavl (h : Z) (c : list frame) : Prop :=
  match c with
  | [] => True
  | Frame d b _ sib :: c => b = sgn d * (height sib - h) ∧ -1 ≤ b ≤ 1 ∧ avl sib ∧
      cavl (1 + Z.max h (height sib)) c
  end.

Lemma height_nonneg t : 0 ≤ height t.
Proof. induction t; cbn; lia. Qed.
Lemma height_bnode d b t p u : height (bnode d b t p u) = 1 + Z.max (height t) (height u).
Proof. destruct d; cbn; lia. Qed.
Lemma avl_bnode d b t p u : avl (bnode d b t p u) ↔
  b = sgn d * (height u - height t) ∧ -1 ≤ b ≤ 1 ∧ avl t ∧ avl u.
Proof. destruct d; cbn; intuition lia. Qed.
Lemma bnode_flip d b t p u : bnode d b t p u = bnode (negb d) b u p t.
Proof. by destruct d. Qed.
Lemma tree_bnode d t : t = Leaf ∨ ∃ b u p v, t = bnode d b u p v.
Proof. destruct t as [|b l p r]; [by left|right]. destruct d; [by exists b, r, p, l|by exists b, l, p, r]. Qed.

Lemma avl_plug t c : avl t → cavl (height t) c → avl (plug t c).
Proof.
  revert t. induction c as [|[d b p sib] c IH]; intros t Ht Hc; [done|]. destruct Hc as (Hb & Hr & Hs & Hc).
  cbn. apply IH; [by apply avl_bnode|]. by rewrite height_bnode.
Qed.
Lemma zrep_plug o c t : zrep o c t ↔ zrep o [] (plug t c).
Proof.
  revert t. induction c as [|[d b p sib] c IH]; intros t; [done|]. cbn. by rewrite <- IH, zrep_focus.
Qed.
Lemma elems_plug t t' c : elems t = elems t' → elems (plug t c) = elems (plug t' c).
Proof.
  revert t t'. induction c as [|[d b p sib] c IH]; intros t t' E; [done|]. cbn. apply IH.
  destruct d; cbn; by rewrite E.
Qed.

Lemma rotation_elems d b1 b2 b3 b4 A p B q C :
  elems (bnode d b1 (bnode d b2 A p B) q C) = elems (bnode d b3 A p (bnode d b4 B q C)).
Proof. destruct d; cbn; by rewrite <- app_assoc. Qed.

Lemma BAVL_MAX_max a b : BAVL_MAX a b = Z.max a b.
Proof. unfold BAVL_MAX. destruct (Z.ltb_spec b a); lia. Qed.

(** The node at the hole's side, with the balance factor after the change. *)
Lemma unbalanced d H δ t sib : height t = H + δ → -1 ≤ δ ≤ 1 → -1 ≤ height sib - H ≤ 1 →
  let b := sgn d * (height sib - H) in
  BAVL_MAX δ (BAVL_OPTNEG b d) - BAVL_MAX 0 (BAVL_OPTNEG b d)
    = Z.max (height t) (height sib) - Z.max H (height sib) ∧
  b - BAVL_OPTNEG δ d = sgn d * (height sib - height t).
Proof. intros Ht Hd Hs b. rewrite !BAVL_MAX_max. subst b. unfold BAVL_OPTNEG. destruct d; cbn in *; lia. Qed.

Lemma balance_bmk d par q1 q2 b : balance (bmk d par q1 q2 b) = b.
Proof. by destruct d. Qed.
Lemma parent_bmk d par q1 q2 b : parent (bmk d par q1 q2 b) = par.
Proof. by destruct d. Qed.
Lemma link_bmk d par q1 q2 b : link (bmk d par q1 q2 b) d = q1.
Proof. by destruct d. Qed.

Lemma side_true d : Bool.eqb d true = d.
Proof. by destruct d. Qed.

(** The side on which a node hangs below its parent. *)
Lemma side_of o c t p d b pp sib : zrep o (Frame d b pp sib :: c) t → tptr t = Some p →
  ∃ n, memory o !! pp = Some n ∧ ∀ side, bool_decide (Some p = link n side) = Bool.eqb d side.
Proof.
  intros Hz Et. pose proof Hz as Hz'%zrep_focus. eexists. split; [by eapply zrep_load|]. rewrite Et.
  assert (Some p ≠ tptr sib) as Hne.
  { apply tptr_ne. destruct t as [|bt l q r]; [done|]. injection Et as ->. destruct Hz as [_ Hn _].
    unfold distinct in Hn. cbn in Hn. apply NoDup_app_disj in Hn as (_ & Hd & _).
    apply disj_app_l in Hd as [_ Hd]. apply disj_cons_l in Hd as [Hd _].
    by apply not_elem_cons in Hd as [_ [Hd _]%not_elem_app]. }
  intros side. destruct d, side; cbn;
    first [by apply bool_decide_eq_true_2|by apply bool_decide_eq_false_2].
Qed.

(** *** Rebalancing

    The code of BAVL.h and that of CAvl_impl.h rebalance in the same way. What
    they rely on: the state has the tree's links in it, [rep] says which tree it
    holds, and setting a balance factor and rotating, at the top of a subtree and
    one level below it, do to that tree what their names say. *)
Section rebalancing.
Context {St : Type} (links : St → BAVL) (rep : St → list frame → tree → Prop).
Context (g_set_balance : ptr → Z → prog St Empty_set unit)
  (g_rotate : ptr → bool → prog St Empty_set unit)
  (g_rotate_child : ptr → bool → ptr → prog St Empty_set unit).
Hypothesis rep_zrep : ∀ o c t, rep o c t → zrep (links o) c t.
Hypothesis rep_focus : ∀ o c d b t p u, rep o c (bnode d b t p u) ↔ rep o (Frame d b p u :: c) t.
Hypothesis g_set_balance_ok : ∀ o c d b b' t p u, rep o c (bnode d b t p u) →
  wp (g_set_balance p b') o (λ _ o' _, rep o' c (bnode d b' t p u)).
Hypothesis g_rotate_ok : ∀ d o c A r b1 B nr b2 C, rep o c (bnode d b1 A r (bnode d b2 B nr C)) →
  wp (g_rotate r d) o (λ _ o' _, rep o' c (bnode d b2 (bnode d b1 A r B) nr C)).
Hypothesis g_rotate_child_ok : ∀ d o c f bf p sib A r b1 B nr b2 C,
  rep o (Frame f bf p sib :: c) (bnode d b1 A r (bnode d b2 B nr C)) →
  wp (g_rotate_child r d p) o (λ _ o' _, rep o' (Frame f bf p sib :: c) (bnode d b2 (bnode d b1 A r B) nr C)).

Definition g_load (p : ptr) : prog St Empty_set BAVLNode :=
  λ o, match memory (links o) !! p with Some n => Some (n, o, []) | None => None end.

Definition g_transform (node : ptr) (bal : Z) (delta : Z) : prog St Empty_set (ptr * Z) :=
  let bside := (bal =? 2) in
  let bsidef := if bside then 1 else -1 in
  nn ← g_load node;
  child ← deref (link nn bside);
  cn ← g_load child;
  if balance cn * bsidef =? 1 then
    g_rotate node (negb bside);;
    g_set_balance node 0;;
    g_set_balance child 0;;
    mret (child, delta - 1)
  else if balance cn * bsidef =? 0 then
    g_rotate node (negb bside);;
    g_set_balance node (1 * bsidef);;
    g_set_balance child (-1 * bsidef);;
    mret (child, delta)
  else
    ASSERT (balance cn * bsidef =? -1);;
    gchild ← deref (link cn (negb bside));
    g_rotate_child child bside node;;
    g_rotate node (negb bside);;
    gn ← g_load gchild;
    g_set_balance node (- BAVL_MAX 0 (balance gn * bsidef) * bsidef);;
    g_set_balance child (BAVL_MAX 0 (- balance gn * bsidef) * bsidef);;
    g_set_balance gchild 0;;
    mret (gchild, delta - 1).

Fixpoint g_rebalance (fuel : nat) (node : ptr) (side : bool) (deltac : Z) : prog St Empty_set unit :=
  match fuel with
  | O => λ _, None
  | S fuel =>
      nn ← g_load node;
      ASSERT ((-1 <=? deltac) && (deltac <=? 1));;
      ASSERT ((-1 <=? balance nn) && (balance nn <=? 1));;
      if deltac =? 0 then mret tt else
      let delta := BAVL_MAX deltac (BAVL_OPTNEG (balance nn) side)
                   - BAVL_MAX 0 (BAVL_OPTNEG (balance nn) side) in
      ASSERT ((-1 <=? delta) && (delta <=? 1));;
      let bal := balance nn - BAVL_OPTNEG deltac side in
      g_set_balance node bal;;
      '(node, delta) ←
        (if (bal =? 2) || (bal =? -2) then g_transform node bal delta
         else mret (node, delta));
      ASSERT ((-1 <=? delta) && (delta <=? 1));;
      nn ← g_load node;
      match parent nn with
      | Some p =>
          pn ← g_load p;
          g_rebalance fuel p (bool_decide (Some node = link1 pn)) delta
      | None => mret tt
      end
  end.

Lemma wp_g_load p n o Q : memory (links o) !! p = Some n → Q n o [] → wp (g_load p) o Q.
Proof. intros E HQ. unfold wp, g_load. by rewrite E. Qed.
Lemma rep_load o c d b t p u : rep o c (bnode d b t p u) →
  memory (links o) !! p = Some (bmk d (cpar None c) (tptr t) (tptr u) b).
Proof. intros H%rep_zrep. by apply zrep_load in H. Qed.
Lemma rep_plug o c t : rep o c t ↔ rep o [] (plug t c).
Proof.
  revert t. induction c as [|[d b p sib] c IH]; intros t; [done|]. cbn. by rewrite <- IH, rep_focus.
Qed.

(** Setting balance factors at the top and one level down. *)
Lemma set_balance_below o c d e b b' bt A p B q C : rep o c (bnode d bt (bnode e b A p B) q C) →
  wp (g_set_balance p b') o (λ _ o' _, rep o' c (bnode d bt (bnode e b' A p B) q C)).
Proof.
  intros Hz%rep_focus. eapply wp_mono; [by eapply g_set_balance_ok|]. intros [] o' _ H. by apply rep_focus.
Qed.

(** A subtree whose side away from [e] is two higher is rebuilt. *)
Lemma transform_ok o c e Y p X delta : rep o c (bnode e (2 * sgn e) Y p X) → avl X → avl Y →
  height X = height Y + 2 →
  wp (g_transform p (2 * sgn e) delta) o (λ '(top, delta') o' _, ∃ t,
    rep o' c t ∧ avl t ∧ tptr t = Some top ∧ elems t = elems (bnode e (2 * sgn e) Y p X) ∧
    height t - delta' = 1 + height X - delta ∧ height X ≤ height t ≤ 1 + height X).
Proof.
  intros Hz HX HY Hh. pose proof (height_nonneg Y) as HY0.
  destruct (tree_bnode e X) as [->|(bx & B & child & C & ->)]; [cbn in Hh; lia|].
  rewrite height_bnode in *. apply avl_bnode in HX as (Ebx & Hbx & HB & HC).
  unfold g_transform. replace (2 * sgn e =? 2) with (negb e) by by destruct e.
  assert ((if negb e then 1 else -1) = sgn e) as -> by by destruct e.
  apply wp_bind. eapply wp_g_load; [by eapply rep_load|].
  assert (∀ d par q1 q2 b, link (bmk d par q1 q2 b) (negb d) = q2) as Elink by by intros [].
  rewrite Elink, tptr_bnode. apply wp_bind, wp_deref.
  pose proof Hz as Hz1. rewrite bnode_flip in Hz1. apply rep_focus in Hz1.
  apply wp_bind. eapply wp_g_load; [by eapply rep_load|].
  assert (∀ d par q1 q2 b, balance (bmk d par q1 q2 b) = b) as Ebal by by intros [].
  rewrite Ebal. assert (bx * sgn e = height C - height B) as Es by (destruct e; cbn in *; lia).
  rewrite Es.
  destruct (Z.eqb_spec (height C - height B) 1) as [E1|E1]; [|destruct (Z.eqb_spec (height C - height B) 0) as [E0|E0]].
  - rewrite negb_involutive. apply wp_bind. eapply wp_mono; [by apply g_rotate_ok|]. intros [] o1 ? H1.
    apply wp_bind. eapply wp_mono; [by eapply (set_balance_below _ _ _ _ _ 0)|]. intros [] o2 ? H2.
    apply wp_bind. eapply wp_mono; [by eapply (g_set_balance_ok _ _ _ _ 0)|]. intros [] o3 ? H3.
    apply wp_ret. eexists. split; [exact H3|].
    rewrite !avl_bnode, !height_bnode, tptr_bnode. split_and!; try done; try (destruct e; cbn in *; lia).
    apply rotation_elems.
  - rewrite negb_involutive. apply wp_bind. eapply wp_mono; [by apply g_rotate_ok|]. intros [] o1 ? H1.
    apply wp_bind. eapply wp_mono; [by eapply (set_balance_below _ _ _ _ _ (1 * sgn e))|]. intros [] o2 ? H2.
    apply wp_bind. eapply wp_mono; [by eapply (g_set_balance_ok _ _ _ _ (-1 * sgn e))|]. intros [] o3 ? H3.
    apply wp_ret. eexists. split; [exact H3|].
    rewrite !avl_bnode, !height_bnode, tptr_bnode. split_and!; try done; try (destruct e; cbn in *; lia).
    apply rotation_elems.
  - assert (height C - height B = -1) as Em by (destruct e; cbn in *; lia).
    apply wp_bind, wp_assert; [apply Z.eqb_eq; lia|]. pose proof (height_nonneg C) as HC0.
    destruct (tree_bnode e B) as [->|(bg & B1 & g & B2 & ->)]; [cbn in *; lia|].
    rewrite height_bnode in *. apply avl_bnode in HB as (Ebg & Hbg & HB1 & HB2).
    assert (∀ d par q1 q2 b, link (bmk d par q1 q2 b) d = q1) as Elink' by by intros [].
    rewrite !negb_involutive, Elink', tptr_bnode. apply wp_bind, wp_deref.
    apply wp_bind. rewrite (bnode_flip _ bx), (bnode_flip _ bg) in Hz1.
    eapply wp_mono; [by apply g_rotate_child_ok|]. intros [] o1 ? H1. apply rep_focus in H1.
    rewrite (bnode_flip _ (2 * sgn e)), (bnode_flip _ bg), (bnode_flip _ bx), negb_involutive in H1.
    apply wp_bind. eapply wp_mono; [by apply g_rotate_ok|]. intros [] o2 ? H2.
    apply wp_bind. eapply wp_g_load; [by eapply rep_load|]. rewrite Ebal, !BAVL_MAX_max.
    apply wp_bind. eapply wp_mono; [by eapply set_balance_below|]. intros [] o3 ? H3.
    apply wp_bind. rewrite bnode_flip in H3.
    eapply wp_mono; [by eapply set_balance_below|]. intros [] o4 ? H4.
    rewrite bnode_flip, negb_involutive in H4.
    apply wp_bind. eapply wp_mono; [by eapply (g_set_balance_ok _ _ _ _ 0)|]. intros [] o5 ? H5.
    apply wp_ret. eexists. split; [exact H5|].
    rewrite !avl_bnode, !height_bnode, tptr_bnode. split_and!; try done; try (destruct e; cbn in *; lia).
    destruct e; cbn; rewrite <- ?app_assoc; cbn; by rewrite <- ?app_assoc.
Qed.

(** One level of rebalancing. *)
Lemma rebalance_level o c d H δ p sib t : rep o c (bnode d (sgn d * (height sib - height t)) t p sib) →
  avl t → avl sib → height t = H + δ → δ = 1 ∨ δ = -1 → -1 ≤ height sib - H ≤ 1 →
  let bal := sgn d * (height sib - height t) in
  let delta := Z.max (height t) (height sib) - Z.max H (height sib) in
  wp (if (bal =? 2) || (bal =? -2) then g_transform p bal delta else mret (p, delta)) o
    (λ '(top, delta') o' _, ∃ u, rep o' c u ∧ avl u ∧ tptr u = Some top ∧
      elems u = elems (bnode d bal t p sib) ∧ height u = 1 + Z.max H (height sib) + delta' ∧
      -1 ≤ delta' ≤ 1).
Proof.
  intros Hz Ht Hs Hh Hδ Hb bal delta.
  assert (∀ e Y X, bnode d bal t p sib = bnode e (2 * sgn e) Y p X → avl X → avl Y → bal = 2 * sgn e →
    height X = height Y + 2 → Z.max (height t) (height sib) = height X → 0 ≤ delta ≤ 1 →
    wp (g_transform p bal delta) o
    (λ '(top, delta') o' _, ∃ u, rep o' c u ∧ avl u ∧ tptr u = Some top ∧
      elems u = elems (bnode d bal t p sib) ∧ height u = 1 + Z.max H (height sib) + delta' ∧
      -1 ≤ delta' ≤ 1)) as Hgen.
  { intros e Y X E HX HY Eb EX Em Hdl. fold bal in Hz. rewrite E in *. rewrite Eb.
    eapply wp_mono; [by apply transform_ok|].
    intros [top delta'] o' _ (u & Hz' & Hu & Htop & Hel & Hht & Hhu).
    exists u. unfold delta in *. split_and!; try done; lia. }
  destruct (Z.eq_dec (height sib - height t) 2) as [E2|E2];
    [|destruct (Z.eq_dec (height sib - height t) (-2)) as [E2'|E2']].
  - replace ((bal =? 2) || (bal =? -2)) with true by (unfold bal; rewrite E2; by destruct d).
    apply (Hgen d t sib); try done; unfold bal, delta; rewrite ?E2; lia || (f_equal; lia).
  - replace ((bal =? 2) || (bal =? -2)) with true by (unfold bal; rewrite E2'; by destruct d).
    apply (Hgen (negb d) sib t); try done; unfold bal, delta; rewrite ?E2'; try lia; try by destruct d.
  - replace ((bal =? 2) || (bal =? -2)) with false
      by (symmetry; apply orb_false_iff; split; apply Z.eqb_neq; unfold bal; destruct d; cbn; lia).
    apply wp_ret. exists (bnode d bal t p sib). fold bal in Hz. rewrite tptr_bnode, avl_bnode, height_bnode.
    unfold delta, bal in *. split_and!; try done; try lia; destruct d; cbn in *; lia.
Qed.

Lemma g_rebalance_ok fuel : ∀ o c d b p sib t H δ, (length c < fuel)%nat →
  rep o (Frame d b p sib :: c) t → avl t → cavl H (Frame d b p sib :: c) →
  height t = H + δ → -1 ≤ δ ≤ 1 →
  wp (g_rebalance fuel p d δ) o (λ _ o' _, ∃ t', rep o' [] t' ∧ avl t' ∧
    elems t' = elems (plug t (Frame d b p sib :: c))).
Proof.
  induction fuel as [|fuel IH]; intros o c d b p sib t H δ Hf Hz Ht Hc Hh Hδ; [lia|].
  pose proof Hz as Hz1%rep_focus. pose proof (rep_load _ _ _ _ _ _ _ Hz1) as El.
  destruct Hc as (-> & Hb & Hs & Hc). assert (-1 ≤ height sib - H ≤ 1) as Hb' by (destruct d; cbn in Hb; lia).
  cbn [g_rebalance]. apply wp_bind. eapply wp_g_load; [done|]. rewrite balance_bmk.
  apply wp_bind, wp_assert; [apply andb_true_iff; rewrite !Z.leb_le; lia|].
  apply wp_bind, wp_assert; [apply andb_true_iff; rewrite !Z.leb_le; lia|].
  destruct (Z.eqb_spec δ 0) as [->|Hnz].
  { apply wp_ret. eexists. split_and!; [by apply rep_plug in Hz|apply avl_plug; [done|]|done].
    rewrite Hh, Z.add_0_r. exact (conj eq_refl (conj Hb (conj Hs Hc))). }
  destruct (unbalanced d H δ t sib) as [Ed Eb]; [done..|]. cbv zeta in Ed, Eb. rewrite Ed, Eb.
  apply wp_bind, wp_assert; [apply andb_true_iff; rewrite !Z.leb_le; lia|].
  apply wp_bind. eapply wp_mono; [by eapply g_set_balance_ok|]. intros [] o1 ? Hz2.
  apply wp_bind. eapply wp_mono; [eapply (rebalance_level o1 c d H δ); try done; lia|].
  intros [top delta'] o2 ? (u & Hz3 & Hu & Htop & Hel & Hhu & Hd'). cbn beta iota.
  apply wp_bind, wp_assert; [apply andb_true_iff; rewrite !Z.leb_le; lia|].
  assert (elems (plug u c) = elems (plug t (Frame d (sgn d * (height sib - H)) p sib :: c))) as Hep.
  { cbn. apply elems_plug. rewrite Hel. by destruct d. }
  destruct u as [|bu ul up ur]; [done|]. injection Htop as ->.
  apply wp_bind. eapply wp_g_load; [by apply (rep_load _ _ false) in Hz3|]. rewrite parent_bmk.
  destruct c as [|[d' b' pp sib'] c]; cbn [cpar].
  - apply wp_ret. by exists (Node bu ul top ur).
  - destruct (side_of _ _ _ top _ _ _ _ (rep_zrep _ _ _ Hz3)) as (n & En & Es); [done|]. specialize (Es true).
    apply wp_bind. eapply wp_g_load; [done|]. cbn [link] in Es. rewrite Es, side_true.
    eapply wp_mono; [apply (IH o2 c d' b' pp sib' (Node bu ul top ur) (1 + Z.max H (height sib))); try done; cbn in Hf; lia|].
    intros [] o3 ? (t' & ? & ? & E). exists t'. by rewrite E, Hep.
Qed.
End rebalancing.

(** The code of BAVL.h is an instance. *)
Lemma rebalance_ok fuel : ∀ o c d b p sib t H δ, (length c < fuel)%nat →
  zrep o (Frame d b p sib :: c) t → avl t → cavl H (Frame d b p sib :: c) →
  height t = H + δ → -1 ≤ δ ≤ 1 →
  wp (rebalance fuel p d δ) o (λ _ o' _, ∃ t', zrep o' [] t' ∧ avl t' ∧
    elems t' = elems (plug t (Frame d b p sib :: c))).
Proof.
  apply (g_rebalance_ok id zrep set_balance _BAVL_rotate (λ r d _, _BAVL_rotate r d)); try done.
  - intros *. apply zrep_focus.
  - intros *. apply set_balance_ok.
  - intros *. apply rotate_ok.
  - intros *. apply rotate_ok.
Qed.

(** ** Order *)

(** The nodes left and right of a hole, in order. *)
Fixpoint lefts (c : list frame) : list ptr :=
  match c with [] => [] | Frame d _ p sib :: c => if d then lefts c ++ elems sib ++ [p] else lefts c end.
Fixpoint rights (c : list frame) : list ptr :=
  match c with [] => [] | Frame d _ p sib :: c => if d then rights c else p :: elems sib ++ rights c end.

Lemma elems_plug_split t c : elems (plug t c) = lefts c ++ elems t ++ rights c.
Proof.
  revert t. induction c as [|[d b p sib] c IH]; intros t; cbn; [by rewrite app_nil_r|].
  rewrite IH. destruct d; cbn; rewrite <- !app_assoc; cbn; by rewrite <- ?app_assoc.
Qed.

Lemma celems_sides c : celems c ≡ₚ lefts c ++ rights c.
Proof.
  induction c as [|[d b p sib] c IH]; cbn; [done|]. rewrite IH. destruct d; cbn.
  - rewrite <- !app_assoc, (app_assoc (elems sib)), (Permutation_app_comm (elems sib)). cbn.
    rewrite <- !app_assoc, <- !Permutation_middle. cbn. done.
  - rewrite <- !Permutation_middle. f_equiv. rewrite !app_assoc. f_equiv. apply Permutation_app_comm.
Qed.

Lemma avl_plug_inv t c : avl (plug t c) → avl t ∧ cavl (height t) c.
Proof.
  revert t. induction c as [|[d b p sib] c IH]; intros t; cbn; [done|].
  intros [Hb Hc]%IH. apply avl_bnode in Hb as (-> & Hb & Ht & Hs). rewrite height_bnode in Hc. done.
Qed.

(** *** Fuel *)

Lemma height_length t : height t ≤ Z.of_nat (length (elems t)).
Proof. induction t as [|b l IHl p r IHr]; cbn; [done|]. rewrite length_app. cbn. lia. Qed.

Lemma elems_nodes par t p : p ∈ elems t → ∃ n, (p, n) ∈ nodes par t.
Proof.
  revert par. induction t as [|b l IHl q r IHr]; intros par; cbn; [by intros ?%elem_of_nil|].
  setoid_rewrite elem_of_cons. setoid_rewrite elem_of_app. rewrite elem_of_cons.
  intros [H|[->|H]]; [|by eauto|]; [destruct (IHl (Some q) H)|destruct (IHr (Some q) H)]; eauto.
Qed.

Lemma size_elems o t : zrep o [] t → (length (elems t) ≤ size (memory o))%nat.
Proof.
  intros [_ Hn Hm]. unfold distinct, znodes in *. cbn in Hn, Hm. rewrite app_nil_r in Hn, Hm.
  rewrite <- size_dom, <- (size_list_to_set (C := gset ptr)) by done. apply subseteq_size.
  intros p Hp%elem_of_list_to_set. destruct (elems_nodes None t p Hp) as [n Hpn].
  apply elem_of_dom. exists n. unfold holds in Hm. rewrite Forall_forall in Hm. by apply (Hm (p, n)).
Qed.

(** No path is longer than the memory. *)
Lemma path_fuel o c t : zrep o c t → Z.of_nat (length c) + height t ≤ Z.of_nat (size (memory o)).
Proof.
  intros Hz%zrep_plug. pose proof (size_elems _ _ Hz) as Hs. rewrite elems_plug_split in Hs.
  rewrite !length_app in Hs. pose proof (height_length t) as Ht.
  assert (length c ≤ length (lefts c) + length (rights c))%nat.
  { clear. induction c as [|[d b p sib] c IH]; cbn; [lia|]. destruct d; cbn; rewrite ?length_app; cbn; lia. }
  lia.
Qed.

Lemma nodup_middle (l1 l2 k1 k2 : list ptr) n : NoDup (l1 ++ n :: l2) → l1 ++ n :: l2 = k1 ++ n :: k2 →
  l1 = k1 ∧ l2 = k2.
Proof.
  revert k1. induction l1 as [|x l1 IH]; intros [|y k1] Hn E; cbn in *.
  - by injection E.
  - injection E as <- ->. apply NoDup_cons in Hn as [Hn _]. set_solver.
  - injection E as -> <-. apply NoDup_cons in Hn as [Hn _]. set_solver.
  - injection E as <- E. apply NoDup_cons in Hn as [_ Hn]. by destruct (IH k1 Hn E) as [-> ->].
Qed.

Section ordered.
Context {K : Type} (P : K → Prop) (cmp : K → K → Z) `{!Comparator P cmp} (value : ptr → K).

Definition lt (p q : ptr) : Prop := cmp (value p) (value q) = -1.

(** [v] belongs into the hole. *)
Definition between (v : K) (c : list frame) : Prop :=
  Forall (λ q, cmp v (value q) = 1) (lefts c) ∧ Forall (λ q, cmp v (value q) = -1) (rights c).

Lemma sorted_app_inv l k : StronglySorted lt (l ++ k) →
  StronglySorted lt l ∧ StronglySorted lt k ∧ ∀ p q, p ∈ l → q ∈ k → lt p q.
Proof.
  induction l as [|x l IH]; cbn; [intros H; split_and!; [constructor|done|by intros ?? ?%elem_of_nil]|].
  inversion_clear 1 as [|? ? Hs Hf]. destruct (IH Hs) as (Hl & Hk & Hlk). apply Forall_app in Hf as [Hf1 Hf2].
  split_and!; [by constructor|done|]. intros p q [->|Hp]%elem_of_cons Hq; [|by apply Hlk].
  rewrite Forall_forall in Hf2. by apply Hf2.
Qed.
Lemma sorted_app l k : StronglySorted lt l → StronglySorted lt k → (∀ p q, p ∈ l → q ∈ k → lt p q) →
  StronglySorted lt (l ++ k).
Proof.
  induction 1 as [|x l Hs IH Hf]; intros Hk Hlk; [done|]. cbn. constructor.
  - apply IH; [done|]. intros p q Hp. apply Hlk. by right.
  - apply Forall_app. split; [done|]. rewrite Forall_forall. intros q Hq. apply Hlk; [by left|done].
Qed.

Lemma between_step v c d b u p w : StronglySorted lt (elems (bnode d b u p w)) → between v c →
  P v → Forall (P ∘ value) (elems (bnode d b u p w)) →
  cmp v (value p) = (if d then 1 else -1) → between v (Frame d b p w :: c).
Proof.
  intros Hs [Hl Hr] Hv Hp Hc. rewrite Forall_forall in Hp. cbn in Hp. destruct d; cbn in Hs, Hp; apply sorted_app_inv in Hs as (_ & Hpr & Hlt);
    unfold between; cbn.
  - split; [|done]. apply Forall_app. split; [done|]. apply Forall_app. split; [|by repeat constructor].
    rewrite Forall_forall. intros q Hq. assert (lt q p) as H by (apply Hlt; [done|by left]).
    pose proof (cmp_opp (P := P) v (value q)) as E. pose proof (cmp_opp (P := P) v (value p)) as E'.
    unfold lt in H. assert (cmp (value q) v = -1) by (apply (cmp_lt_trans (P := P) _ (value p)); [apply Hp; set_solver|apply Hp; set_solver|done|done|lia]). lia.
  - split; [done|]. constructor; [done|]. apply Forall_app. split; [|done].
    inversion_clear Hpr as [|? ? _ Hf]. rewrite Forall_forall in Hf |- *. intros q Hq.
    apply (cmp_lt_trans (P := P) _ (value p)); [done|apply Hp; set_solver|apply Hp; set_solver|done|]. by apply Hf.
Qed.

Lemma wp_compare v1 v2 o Q : Q (cmp v1 v2) o [] → wp (_BAVL_compare_values cmp v1 v2) o Q.
Proof.
  intros HQ. unfold _BAVL_compare_values. apply wp_bind, wp_assert; [|by apply wp_ret].
  by destruct (cmp_range (P := P) v1 v2) as [-> | [-> | ->]].
Qed.

Lemma descend_ok v fuel : ∀ o c t p, zrep o c t → tptr t = Some p → height t ≤ Z.of_nat fuel →
  StronglySorted lt (elems t) → P v → Forall (P ∘ value) (elems t) → between v c →
  wp (descend cmp value fuel v p) o (λ '(q, at_leaf) o' _, o' = o ∧
    match at_leaf with
    | None => cmp v (value q) = 0 ∧ q ∈ elems (plug t c)
    | Some d => ∃ b sib c', let c1 := Frame d b q sib :: c' in
        zrep o c1 Leaf ∧ plug Leaf c1 = plug t c ∧ between v c1
    end).
Proof.
  induction fuel as [|fuel IH]; intros o c t p Hz Et Hf Hs Hv HP Hb.
  { destruct t as [|b l q r]; [done|]. cbn in Hf. pose proof (height_nonneg l). lia. }
  cbn [descend]. apply wp_bind, wp_compare.
  destruct (Z.eqb_spec (cmp v (value p)) 0) as [E0|E0].
  { apply wp_ret. split_and!; [done|done|]. rewrite elems_plug_split, !elem_of_app. right; left.
    destruct t as [|b l q r]; [done|]. injection Et as ->. cbn. rewrite elem_of_app, elem_of_cons. tauto. }
  set (d := cmp v (value p) =? 1). assert (cmp v (value p) = if d then 1 else -1) as Ec.
  { unfold d. by destruct (cmp_range (P := P) v (value p)) as [E|[E|E]]; rewrite E in *. }
  destruct (tree_bnode d t) as [->|(b & u & p' & w & ->)]; [done|].
  rewrite tptr_bnode in Et. injection Et as ->.
  pose proof (zrep_load _ _ _ _ _ _ _ Hz) as El. pose proof (between_step _ _ _ _ _ _ _ Hs Hb Hv HP Ec) as Hb1.
  apply zrep_focus in Hz. apply wp_bind. eapply wp_load; [done|]. rewrite link_bmk.
  destruct u as [|bu ul q ur]; cbn [tptr].
  - apply wp_ret. split; [done|]. by exists b, w, c.
  - eapply wp_mono; [eapply (IH o (Frame d b p w :: c)); try done|by intros [q' [d'|]] o' es H].
    + rewrite height_bnode in Hf. lia.
    + clearbody d. destruct d; apply sorted_app_inv in Hs as (Hs1 & Hs2 & _); [by inversion Hs2|done].
    + rewrite elems_bnode in HP. by apply Forall_cons in HP as [_ [HP _]%Forall_app].
Qed.

(** *** The tree as an ordered list of nodes *)

Definition tree_of (o : BAVL) (l : list ptr) : Prop :=
  ∃ t, zrep o [] t ∧ avl t ∧ elems t = l ∧ StronglySorted lt l ∧ Forall (P ∘ value) l.

Lemma root_tptr o t : zrep o [] t → root o = tptr t.
Proof. by intros [? _ _]. Qed.
Lemma between_nil v : between v [].
Proof. by split; constructor. Qed.
Lemma tree_nodup o l : tree_of o l → NoDup l.
Proof. intros (t & [_ Hn _] & _ & <- & _ & _). unfold distinct in Hn. cbn in Hn. by rewrite app_nil_r in Hn. Qed.

(** The search from the root. *)
Lemma search_ok v o t p : zrep o [] t → StronglySorted lt (elems t) → P v →
  Forall (P ∘ value) (elems t) → root o = Some p →
  wp (descend cmp value (size (memory o)) v p) o (λ '(q, at_leaf) o' _, o' = o ∧
    match at_leaf with
    | None => cmp v (value q) = 0 ∧ q ∈ elems t
    | Some d => ∃ b sib c', let c1 := Frame d b q sib :: c' in
        zrep o c1 Leaf ∧ plug Leaf c1 = t ∧ between v c1
    end).
Proof.
  intros Hz Hs Hv HP Hr. rewrite (root_tptr _ _ Hz) in Hr. pose proof (path_fuel _ _ _ Hz) as Hf. cbn in Hf.
  eapply wp_mono; [eapply (descend_ok v _ o [] t p Hz Hr); [lia|done|done|done|apply between_nil]|].
  by intros [q [d|]] o' es.
Qed.

(** The list around a hole [v] belongs into: [v] is equal to no element, and
    the node above the hole is next to it. *)
Lemma between_list v d b q sib c : let c1 := Frame d b q sib :: c in between v c1 →
  (∀ r, r ∈ lefts c1 ++ rights c1 → cmp v (value r) ≠ 0) ∧
  (Some q = last (lefts c1) ∨ Some q = head (rights c1)).
Proof.
  intros c1 [Hl Hr]. rewrite !Forall_forall in Hl, Hr. split.
  - intros r [H|H]%elem_of_app; [rewrite Hl by done|rewrite Hr by done]; lia.
  - destruct d; cbn; [left|by right]. by rewrite app_assoc, last_snoc.
Qed.

Lemma sorted_insert node c : between (value node) c → StronglySorted lt (lefts c ++ rights c) →
  StronglySorted lt (lefts c ++ node :: rights c).
Proof.
  intros [Hl Hr] (S1 & S2 & S3)%sorted_app_inv. rewrite !Forall_forall in Hl, Hr. apply sorted_app; [done| |].
  - constructor; [done|]. rewrite Forall_forall. intros q Hq. by apply Hr.
  - intros p q Hp [->|Hq]%elem_of_cons; [|by apply S3]. unfold lt. rewrite (cmp_opp (P := P) (value node)), Hl; done.
Qed.

Lemma elems_hole c : elems (plug Leaf c) = lefts c ++ rights c.
Proof. by rewrite elems_plug_split. Qed.

Definition insert_post (o : BAVL) (l : list ptr) (node : ptr) (r : Z) (ref : option ptr) (o' : BAVL) : Prop :=
  (∃ q, q ∈ l ∧ cmp (value node) (value q) = 0 ∧ r = 0 ∧ ref = Some q ∧ o' = o) ∨
  (∃ l1 l2, l = l1 ++ l2 ∧ (∀ q, q ∈ l → cmp (value node) (value q) ≠ 0) ∧ r = 1 ∧
    (ref = last l1 ∨ ref = head l2) ∧ tree_of o' (l1 ++ node :: l2)).

Lemma insert_ok o l node : tree_of o l → node ∉ l → P (value node) →
  wp (BAVL_Insert cmp value node) o (λ '(r, ref) o' _, insert_post o l node r ref o').
Proof.
  intros (t & Hz & Ht & <- & Hs & HP) Hnode HPn. pose proof (root_tptr _ _ Hz) as Hr.
  unfold BAVL_Insert. apply wp_bind, wp_get. destruct (root o) as [p|] eqn:Ero.
  - apply wp_bind. eapply wp_mono; [by apply (search_ok (value node) o t p)|].
    intros [q [d|]] o1 ? [-> H]; cbn beta iota.
    + destruct H as (b & sib & c & Hz1 & Ep & Hb). set (c1 := Frame d b q sib :: c) in *.
      rewrite <- Ep in *. clear Ep t. rewrite elems_hole in *.
      assert (node ∉ q :: elems sib ++ celems c) as Hn2.
      { change (node ∉ celems c1). by rewrite celems_sides. }
      apply wp_bind. eapply wp_mono; [by apply (attach_ok _ _ _ _ _ _ node Hz1)|]. intros [] o1 ? H1.
      apply wp_bind. eapply wp_mono; [exact H1|]. intros [] o2 ? H2.
      apply avl_plug_inv in Ht as [_ Ht]. pose proof (path_fuel _ _ _ H2) as Hf. cbn [length height] in Hf.
      apply wp_bind. unfold _BAVL_rebalance. apply wp_bind, wp_get.
      eapply wp_mono; [eapply (rebalance_ok _ o2 c d b q sib _ 0 1); try done; lia|].
      intros [] o3 ? (t' & Hz' & Ht' & Hel). apply wp_ret. rewrite elems_plug_split in Hel. right.
      destruct (between_list _ _ _ _ _ _ Hb) as [Hne Href].
      exists (lefts c1), (rights c1). split_and!; [done|done|done| |].
      { by destruct Href; [left|right]. }
      exists t'. split_and!; [done|done|done|by apply sorted_insert|].
      apply Forall_app in HP as [HP1 HP2]. apply Forall_app. split; [done|]. by constructor.
    + destruct H as [E Hq]. apply wp_ret. left. by exists q.
  - destruct t; [|done]. apply wp_bind, wp_set_root, wp_bind, wp_store, wp_ret. right. exists [], [].
    split_and!; try done; [by intros q ?%elem_of_nil|by left|].
    exists (Node 0 Leaf node Leaf). split_and!; try done.
    + constructor; [done|by repeat constructor; apply not_elem_of_nil|]. repeat constructor. cbn. by rewrite lookup_insert_eq.
    + by repeat constructor.
    + by repeat constructor.
Qed.

(** *** Removal *)

Lemma find_node t p : p ∈ elems t → ∃ c b l r, t = plug (Node b l p r) c.
Proof.
  assert (∀ c0, p ∈ elems t → ∃ c b l r, plug t c0 = plug (Node b l p r) c) as H; [|by apply (H [])].
  induction t as [|b l IHl q r IHr]; intros c0; cbn; [by intros ?%elem_of_nil|].
  rewrite elem_of_app, elem_of_cons. intros [Hp|[->|Hp]].
  - apply (IHl (Frame false b q r :: c0) Hp).
  - by exists c0, b, l, r.
  - apply (IHr (Frame true b q l :: c0) Hp).
Qed.

(** The greatest node of a subtree. *)
Lemma max_split t : t ≠ Leaf → ∃ c b l p, t = plug (Node b l p Leaf) c ∧ spine c.
Proof.
  intros Ht. assert (∀ c0, spine c0 → ∃ c b l p, plug t c0 = plug (Node b l p Leaf) c ∧ spine c) as H;
    [|by apply (H []); constructor].
  induction t as [|b l _ q r IHr]; intros c0 Hc; [done|]. destruct r as [|br rl rp rr].
  - by exists c0, b, l, q.
  - apply (IHr ltac:(done) (Frame true b q l :: c0)). by constructor.
Qed.
Lemma spine_rights c : spine c → rights c = [].
Proof. induction 1 as [|[d b p sib] c -> _ IH]; done. Qed.
Lemma plug_app t c1 c2 : plug t (c1 ++ c2) = plug (plug t c1) c2.
Proof. revert t. by induction c1 as [|[] c1 IH]; intros t; cbn. Qed.

Lemma spine_tree t c : t ≠ Leaf → plug t c ≠ Leaf.
Proof. revert t. induction c as [|[d b p sib] c IH]; intros t Ht; [done|]. cbn. apply IH. by destruct d. Qed.

(** Balance does not depend on the addresses. *)
Lemma cavl_rename h c1 d b p q sib c : cavl h (c1 ++ Frame d b p sib :: c) → cavl h (c1 ++ Frame d b q sib :: c).
Proof. revert h. induction c1 as [|[] c1 IH]; intros h; cbn; [done|]. naive_solver. Qed.

Lemma subtree_max_ok fuel : ∀ o c0 t p c b l q, zrep o c0 t → tptr t = Some p →
  t = plug (Node b l q Leaf) c → spine c → height t ≤ Z.of_nat fuel →
  wp (subtree_max fuel p) o (λ m o' _, m = q ∧ o' = o).
Proof.
  induction fuel as [|fuel IH]; intros o c0 t p c b l q Hz Ht Et Hc Hf.
  { destruct t as [|bt tl tp tr]; [done|]. cbn in Hf. pose proof (height_nonneg tl). lia. }
  destruct t as [|bt tl tp tr]; [done|]. injection Ht as ->. cbn [subtree_max].
  apply wp_bind. eapply wp_load; [by apply (zrep_load _ _ false) in Hz|]. cbn [bmk link1].
  destruct c as [|[d bf f sf] c _] using rev_ind; [injection Et as -> -> -> ->; by apply wp_ret|].
  apply Forall_app in Hc as [Hc [-> _]%Forall_cons]. rewrite plug_app in Et. injection Et as -> -> -> ->.
  pose proof (proj1 (zrep_focus _ _ true _ _ _ _) Hz) as Hz'.
  destruct (plug (Node b l q Leaf) c) as [|bu ul up ur] eqn:Eu; [by apply spine_tree in Eu|].
  eapply (IH _ _ _ up); [exact Hz'|done|symmetry; exact Eu|done|]. cbn [height] in *. lia.
Qed.

(** The end of the removal: the node has at most one subtree. *)
Lemma detach_ok o c d b t node : zrep o c (bnode d b t node Leaf) → avl (plug (bnode d b t node Leaf) c) →
  wp (nn ← load node;
      ASSERT (negb (bool_decide (is_Some (link0 nn)) && bool_decide (is_Some (link1 nn))));;
      let child := match link0 nn with Some l => Some l | None => link1 nn end in
      match parent nn with
      | Some p =>
          pn ← load p;
          let side := bool_decide (Some node = link1 pn) in
          _BAVL_replace_subtree node child;;
          _BAVL_rebalance p side (-1)
      | None => _BAVL_replace_subtree node child
      end) o (λ _ o' _, ∃ t', zrep o' [] t' ∧ avl t' ∧ elems t' = elems (plug t c)).
Proof.
  intros Hz Ha. apply avl_plug_inv in Ha as [Ha Hc]. apply avl_bnode in Ha as (_ & _ & Ha & _).
  rewrite height_bnode in Hc. cbn [height] in Hc. rewrite Z.max_l in Hc by apply height_nonneg.
  pose proof (replace_subtree_ok _ _ _ _ _ _ Hz) as Hrep.
  apply wp_bind. eapply wp_load; [by eapply zrep_load|]. cbn [tptr].
  apply wp_bind, wp_assert; [by destruct d; cbn; rewrite ?andb_false_r|].
  assert ((match link0 (bmk d (cpar None c) (tptr t) None b) with Some l => Some l
    | None => link1 (bmk d (cpar None c) (tptr t) None b) end) = tptr t) as -> by by destruct d, t.
  rewrite parent_bmk. cbv zeta. destruct c as [|[d' b' pp sib] c]; cbn [cpar].
  - eapply wp_mono; [exact Hrep|]. intros [] o' ? H. exists t. by split_and!.
  - destruct (side_of _ _ _ node _ _ _ _ Hz) as (n & En & Es); [apply tptr_bnode|]. specialize (Es true).
    apply wp_bind. eapply wp_load; [done|]. cbn [link] in Es. rewrite Es, side_true. apply wp_bind.
    eapply wp_mono; [exact Hrep|]. intros [] o1 ? H1. pose proof (path_fuel _ _ _ H1) as Hf.
    pose proof (height_nonneg t). cbn [length] in Hf.
    unfold _BAVL_rebalance. apply wp_bind, wp_get.
    eapply rebalance_ok; [lia|exact H1|done|exact Hc|lia|lia].
Qed.

Lemma remove_ok o l node : tree_of o l → node ∈ l →
  wp (BAVL_Remove node) o (λ _ o' _, ∃ l1 l2, l = l1 ++ node :: l2 ∧ tree_of o' (l1 ++ l2)).
Proof.
  intros (t & Hz & Ht & <- & Hs & HP) Hnode. destruct (find_node _ _ Hnode) as (c & b & L & R & ->). clear Hnode.
  rewrite elems_plug_split in *. cbn in *. rewrite <- app_assoc in *. cbn in *.
  assert (∀ o', (∃ t', zrep o' [] t' ∧ avl t' ∧ elems t' = (lefts c ++ elems L) ++ (elems R ++ rights c)) →
    ∃ l1 l2, lefts c ++ elems L ++ node :: elems R ++ rights c = l1 ++ node :: l2 ∧ tree_of o' (l1 ++ l2)) as Hfin.
  { intros o' (t' & Hz' & Ha' & E). exists (lefts c ++ elems L), (elems R ++ rights c).
    split; [by rewrite <- !app_assoc|]. exists t'. split_and!; [done..| |].
    2:{ revert HP. rewrite !Forall_app, Forall_cons, !Forall_app. tauto. }
    rewrite app_assoc in Hs. apply sorted_app_inv in Hs as (S1 & S2 & S3). inversion S2; subst.
    apply sorted_app; [done|done|]. intros. apply S3; [done|by right]. }
  apply zrep_plug in Hz. unfold BAVL_Remove. apply wp_bind.
  eapply wp_load; [by apply (zrep_load _ _ false) in Hz|]. cbn [bmk link0 link1].
  destruct L as [|bl ll lp lr] eqn:EL; [|destruct R as [|br rl rp rr] eqn:ER].
  - cbn [tptr]. apply wp_bind, wp_ret. eapply wp_mono; [apply (detach_ok o c true b R); [done|exact Ht]|].
    intros [] o' ? (t' & Hz' & Ha' & E). apply Hfin. exists t'. split_and!; [done|done|].
    rewrite E, elems_plug_split. cbn. by rewrite app_nil_r.
  - cbn [tptr]. apply wp_bind, wp_ret. eapply wp_mono; [apply (detach_ok o c false b (Node bl ll lp lr)); [done|exact Ht]|].
    intros [] o' ? (t' & Hz' & Ha' & E). apply Hfin. exists t'. split_and!; [done|done|].
    rewrite E, elems_plug_split. by rewrite app_assoc.
  - cbn [tptr]. rewrite <- EL in *. 
    destruct (max_split L) as (c2 & b2 & l2 & m & Em & Hsp); [by subst|].
    apply wp_bind, wp_bind. unfold _BAVL_subtree_max. apply wp_bind, wp_get.
    pose proof (proj1 (zrep_focus _ _ false _ _ _ _) Hz) as HzL. pose proof (path_fuel _ _ _ HzL) as Hf.
    eapply wp_mono; [eapply (subtree_max_ok _ o _ L lp c2); [exact HzL|by rewrite EL|exact Em|done|lia]|].
    intros m' o' ? [-> ->]. rewrite Em in HzL. apply zrep_plug in HzL.
    rewrite <- plug_app in HzL. apply zrep_plug in HzL.
    eapply wp_mono; [by apply swap_ok|]. intros [] o1 ? H1.
    eapply wp_mono; [apply (detach_ok o1 (c2 ++ Frame false b m (Node br rl rp rr) :: c) false b2 l2); [exact H1|]|].
    + rewrite Em in Ht. change (avl (plug (plug (Node b2 l2 m Leaf) c2) (Frame false b node (Node br rl rp rr) :: c))) in Ht.
      rewrite <- plug_app in Ht. apply avl_plug_inv in Ht as [Ht1 Ht2].
      apply avl_plug; [exact Ht1|]. by eapply cavl_rename.
    + intros [] o2 ? (t' & Hz' & Ha' & E). apply Hfin. exists t'. split_and!; [done|done|].
      rewrite E, Em, plug_app. cbn. rewrite !elems_plug_split. cbn. rewrite !elems_plug_split.
      rewrite (spine_rights _ Hsp). cbn. rewrite <- !app_assoc. cbn. by rewrite <- !app_assoc.
Qed.

(** *** Queries *)

Definition lookup_post (l : list ptr) (v : K) (r : option ptr) : Prop :=
  match r with
  | Some q => q ∈ l ∧ cmp v (value q) = 0
  | None => ∀ q, q ∈ l → cmp v (value q) ≠ 0
  end.

Lemma lookup_exact_ok o l v : tree_of o l → P v →
  wp (BAVL_LookupExact cmp value v) o (λ r o' _, o' = o ∧ lookup_post l v r).
Proof.
  intros (t & Hz & Ht & <- & Hs & HP) Hv. pose proof (root_tptr _ _ Hz) as Hr.
  unfold BAVL_LookupExact. apply wp_bind, wp_get. destruct (root o) as [p|] eqn:Ero.
  - apply wp_bind. eapply wp_mono; [by apply (search_ok v o t p)|].
    intros [q [d|]] o1 ? [-> H]; cbn beta iota; apply wp_ret; split; try done; [|by destruct H].
    destruct H as (b & sib & c & _ & <- & Hb). destruct (between_list _ _ _ _ _ _ Hb) as [Hne _].
    rewrite elems_hole. intros r. apply Hne.
  - destruct t; [|done]. apply wp_ret. split; [done|]. by intros q ?%elem_of_nil.
Qed.

(** Without an equal node, one next to where the value belongs. *)
Lemma lookup_ok o l v : tree_of o l → P v → wp (BAVL_Lookup cmp value v) o (λ r o' _, o' = o ∧
  ((∃ q, r = Some q ∧ q ∈ l ∧ cmp v (value q) = 0) ∨
   (∃ l1 l2, l = l1 ++ l2 ∧ (∀ q, q ∈ l1 → cmp v (value q) = 1) ∧
     (∀ q, q ∈ l2 → cmp v (value q) = -1) ∧ (r = last l1 ∨ r = head l2) ∧ (r = None → l = [])))).
Proof.
  intros (t & Hz & Ht & <- & Hs & HP) Hv. pose proof (root_tptr _ _ Hz) as Hr.
  unfold BAVL_Lookup. apply wp_bind, wp_get. destruct (root o) as [p|] eqn:Ero.
  - apply wp_bind. eapply wp_mono; [by apply (search_ok v o t p)|].
    intros [q [d|]] o1 ? [-> H]; cbn beta iota; apply wp_ret; split; try done.
    + destruct H as (b & sib & c & _ & <- & Hb). destruct (between_list _ _ _ _ _ _ Hb) as [_ Href].
      destruct Hb as [Hl Hr']. rewrite Forall_forall in Hl, Hr'. right. rewrite elems_hole.
      eexists _, _. by split_and!.
    + left. exists q. by destruct H.
  - destruct t; [|done]. apply wp_ret. split; [done|]. right. exists [], [].
    split_and!; try done; [by intros q ?%elem_of_nil|by intros q ?%elem_of_nil|by left].
Qed.

(** The end of a subtree on one side. *)
Definition end_of (side : bool) (l : list ptr) : option ptr := if side then last l else head l.

Lemma last_link_ok side fuel : ∀ o c t p, zrep o c t → tptr t = Some p → height t ≤ Z.of_nat fuel →
  wp (last_link fuel side p) o (λ m o' _, Some m = end_of side (elems t) ∧ o' = o).
Proof.
  induction fuel as [|fuel IH]; intros o c t p Hz Ht Hf.
  { destruct t as [|bt tl tp tr]; [done|]. cbn in Hf. pose proof (height_nonneg tl). lia. }
  destruct (tree_bnode side t) as [->|(b & u & q & w & ->)]; [done|]. rewrite tptr_bnode in Ht. injection Ht as ->.
  cbn [last_link]. apply wp_bind. eapply wp_load; [by eapply zrep_load|]. rewrite link_bmk.
  rewrite height_bnode in Hf. apply zrep_focus in Hz. destruct u as [|bu ul up ur]; cbn [tptr].
  - apply wp_ret. split; [|done]. destruct side; cbn; [by rewrite last_snoc|done].
  - eapply wp_mono; [eapply (IH o _ (Node bu ul up ur)); [done|done|lia]|]. intros m o' es [Em ->]. split; [|done].
    destruct side; cbn [bnode elems end_of] in *.
    + by rewrite last_app, last_cons, <- Em.
    + rewrite head_app. by rewrite <- Em.
Qed.

Lemma end_ok side o t : zrep o [] t → wp (get_end side) o (λ r o' _, r = end_of side (elems t) ∧ o' = o).
Proof.
  intros Hz. pose proof (root_tptr _ _ Hz) as Hr. pose proof (path_fuel _ _ _ Hz) as Hf.
  unfold get_end. apply wp_bind, wp_get. destruct (root o) as [p|] eqn:Ero.
  - apply wp_bind. eapply wp_mono; [eapply (last_link_ok side _ o [] t p); [done|done|cbn in Hf; lia]|].
    intros m o' es [Em ->]. by apply wp_ret.
  - destruct t; [|done]. apply wp_ret. by destruct side.
Qed.
Lemma get_end_ok side o l : tree_of o l → wp (get_end side) o (λ r o' _, r = end_of side l ∧ o' = o).
Proof. intros (t & Hz & _ & <- & _). by apply end_ok. Qed.

(** The nodes beyond a hole on one side, nearest first. *)
Definition beyond (side : bool) (c : list frame) : list ptr :=
  if side then rights c else reverse (lefts c).

Lemma ascend_ok side fuel : ∀ o c t p, zrep o c t → tptr t = Some p → (length c < fuel)%nat →
  wp (ascend fuel side p) o (λ r o' _, r = head (beyond side c) ∧ o' = o).
Proof.
  induction fuel as [|fuel IH]; intros o c t p Hz Ht Hf; [lia|].
  destruct t as [|bt tl tp tr]; [done|]. injection Ht as ->. cbn [ascend].
  apply wp_bind. eapply wp_load; [by apply (zrep_load _ _ false) in Hz|]. rewrite parent_bmk.
  destruct c as [|[d b pp sib] c]; cbn [cpar]; [apply wp_ret; by destruct side|].
  destruct (side_of _ _ _ p _ _ _ _ Hz) as (n & En & Es); [done|].
  apply wp_bind. eapply wp_load; [done|]. rewrite Es.
  destruct d, side; cbn [Bool.eqb].
  - apply zrep_focus in Hz. eapply wp_mono; [eapply (IH _ _ _ pp Hz); [apply tptr_bnode|cbn in Hf; lia]|]. done.
  - apply wp_ret. unfold beyond. cbn [lefts]. by rewrite !reverse_app.
  - apply wp_ret. done.
  - apply zrep_focus in Hz. eapply wp_mono; [eapply (IH _ _ _ pp Hz); [apply tptr_bnode|cbn in Hf; lia]|]. done.
Qed.

Lemma beside_ok side o t l1 n l2 : zrep o [] t → elems t = l1 ++ n :: l2 →
  wp (neighbour side n) o (λ r o' _, r = (if side then head l2 else last l1) ∧ o' = o).
Proof using Type.
  intros Hz El. pose proof (z_nodup _ _ _ Hz) as Hnd. unfold distinct in Hnd. cbn in Hnd. rewrite app_nil_r, El in Hnd.
  destruct (find_node t n) as (c & b & L & R & ->); [rewrite El, elem_of_app, elem_of_cons; right; by left|].
  rewrite elems_plug_split in El. cbn in El. rewrite <- app_assoc, app_assoc in El. cbn in El.
  rewrite <- El in Hnd. destruct (nodup_middle _ _ _ _ _ Hnd El) as [<- <-]. clear El Hnd.
  apply zrep_plug in Hz. pose proof (path_fuel _ _ _ Hz) as Hf. pose proof (height_nonneg (Node b L n R)) as Hh.
  assert (∀ d, wp (neighbour d n) o (λ r o' _, r = head ((if d then elems R else reverse (elems L)) ++ beyond d c)
    ∧ o' = o)) as H.
  { intros d. assert (∃ u w, Node b L n R = bnode d b u n w ∧ u = (if d then R else L)) as (u & w & E & Eu)
      by (by destruct d; eexists _, _).
    rewrite E in *. unfold neighbour. apply wp_bind, wp_get, wp_bind.
    eapply wp_load; [by eapply zrep_load|]. rewrite link_bmk. destruct (tptr u) as [m|] eqn:Em.
    - apply zrep_focus in Hz. apply wp_bind.
      rewrite height_bnode in Hf. 
      eapply wp_mono; [eapply (last_link_ok (negb d) _ o _ u m); [done|done|lia]|].
      intros m' o' es [Hm ->]. apply wp_ret. split; [|done]. rewrite head_app.
      destruct d; subst u; cbn [negb end_of] in Hm; [by rewrite <- Hm|].
      by rewrite head_reverse, <- Hm.
    - destruct u; [|done].
      eapply wp_mono; [eapply (ascend_ok d _ o c _ n Hz); [apply tptr_bnode|]|].
      + rewrite height_bnode in Hf, Hh. pose proof (height_nonneg w). cbn [height] in *. lia.
      + intros r o' es [-> ->]. split; [|done]. by destruct d; rewrite <- Eu. }
  eapply wp_mono; [apply (H side)|]. intros r o' es [-> ->]. split; [|done]. destruct side; [done|].
  by rewrite <- head_reverse, reverse_app.
Qed.
Lemma neighbour_ok side o l1 n l2 : tree_of o (l1 ++ n :: l2) →
  wp (neighbour side n) o (λ r o' _, r = (if side then head l2 else last l1) ∧ o' = o).
Proof. intros (t & Hz & _ & El & _). by apply (beside_ok side o t). Qed.

(** *** The tree's own check *)

Lemma recurser_ok fuel : ∀ o c t p, zrep o c t → tptr t = Some p → height t ≤ Z.of_nat fuel → avl t →
  StronglySorted lt (elems t) →
  wp (_BAVL_assert_recurser cmp value fuel p) o (λ h o' _, h = height t ∧ o' = o).
Proof.
  induction fuel as [|fuel IH]; intros o c t p Hz Ht Hf Ha Hs.
  { destruct t as [|bt tl tp tr]; [done|]. cbn in Hf. pose proof (height_nonneg tl). lia. }
  destruct t as [|b L q R]; [done|]. injection Ht as ->. destruct Ha as (Eb & Hb & HaL & HaR).
  cbn in Hs. apply sorted_app_inv in Hs as (SL & SR & SLR). inversion_clear SR as [|? ? SR' SRf].
  rewrite Forall_forall in SRf. cbn [height] in Hf.
  pose proof (proj1 (zrep_focus _ _ false _ _ _ _) Hz) as HzL. pose proof (proj1 (zrep_focus _ _ true _ _ _ _) Hz) as HzR.
  cbn [_BAVL_assert_recurser]. apply wp_bind. eapply wp_load; [by apply (zrep_load _ _ false) in Hz|].
  cbn [bmk balance link0 link1].
  apply wp_bind, wp_assert; [apply Z.leb_le; lia|]. apply wp_bind, wp_assert; [apply Z.leb_le; lia|].
  (* a subtree *)
  assert (∀ d c' (u : tree) Q, zrep o (Frame d b p c' :: c) u → avl u → StronglySorted lt (elems u) →
    height u ≤ Z.of_nat fuel →
    (∀ x, x ∈ elems u → cmp (value x) (value p) = if d then 1 else -1) →
    (Q (height u) o ([] : list Empty_set)) →
    wp match tptr u with
       | Some l => ln ← load l;
                   ASSERT (bool_decide (parent ln = Some p));;
                   comp ← _BAVL_compare_nodes cmp value l p;
                   ASSERT (comp =? if d then 1 else -1);;
                   _BAVL_assert_recurser cmp value fuel l
       | None => mret 0
       end o Q) as Hsub.
  { intros d c' u Q Hzu Hau Hsu Hhu Hcu HP. destruct u as [|bu ul up ur]; cbn [tptr]; [by apply wp_ret|].
    apply wp_bind. eapply wp_load; [by apply (zrep_load _ _ false) in Hzu|]. rewrite parent_bmk.
    apply wp_bind, wp_assert; [by apply bool_decide_eq_true_2|].
    apply wp_bind. apply wp_compare. apply wp_bind, wp_assert.
    { apply Z.eqb_eq, Hcu. cbn. set_solver. }
    eapply wp_mono; [by eapply IH|]. intros h o' es [-> ->]. by destruct es as [|[]]. }
  apply wp_bind. apply (Hsub false R); [done|done|done|lia| |].
  { intros x Hx. apply SLR; [done|by left]. }
  apply wp_bind. apply (Hsub true L); [done|done|done|lia| |].
  { intros x Hx. rewrite (cmp_opp (P := P) (value p)). by rewrite SRf. }
  apply wp_bind, wp_assert; [by apply Z.eqb_eq|]. apply wp_ret. rewrite BAVL_MAX_max. cbn. split; [lia|done].
Qed.

Lemma verify_ok o l : tree_of o l → wp (BAVL_Verify cmp value) o (λ _ o' _, o' = o).
Proof.
  intros (t & Hz & Ha & <- & Hs & _). pose proof (root_tptr _ _ Hz) as Hr. pose proof (path_fuel _ _ _ Hz) as Hf.
  unfold BAVL_Verify. apply wp_bind, wp_get. destruct t as [|b L p R]; rewrite Hr; cbn [tptr]; [by apply wp_ret|].
  apply wp_bind. eapply wp_load; [by apply (zrep_load _ _ false) in Hz|]. rewrite parent_bmk.
  apply wp_bind, wp_assert; [done|]. apply wp_bind.
  eapply wp_mono; [eapply (recurser_ok _ o [] (Node b L p R)); try done; cbn [length] in Hf; lia|].
  intros h o' es [_ ->]. by apply wp_ret.
Qed.

(** *** Depth *)

Lemma avl_log t : avl t → 2 ^ height t ≤ (len (elems t) + 1) * (len (elems t) + 1).
Proof.
  induction t as [|b L IHL p R IHR]; [done|]. intros (Eb & Hb & HL & HR). specialize (IHL HL). specialize (IHR HR).
  cbn [height elems]. rewrite len_app, len_cons.
  set (x := len (elems L)) in *. set (y := len (elems R)) in *.
  assert (0 ≤ x ∧ 0 ≤ y) as [Hx Hy] by (unfold x, y, len; lia).
  pose proof (height_nonneg L) as HhL. pose proof (height_nonneg R) as HhR.
  assert (∀ a b m : Z, 0 ≤ a → 0 ≤ b → 0 ≤ m → 2 * m ≤ (a + 1) * (a + 1) → m ≤ (b + 1) * (b + 1) →
    4 * m ≤ (a + (1 + b) + 1) * (a + (1 + b) + 1)) as Hsq by (clear; intros; nia).
  destruct (Z.le_gt_cases (height L) (height R)) as [Hc|Hc].
  - rewrite Z.max_r by done. assert (height L = height R ∨ height L = height R - 1) as [E|E] by lia.
    + rewrite Z.pow_add_r by done. change (2 ^ 1) with 2. rewrite E in IHL. nia.
    + destruct (Z.eq_dec (height R) 0); [lia|].
      replace (1 + height R) with (2 + height L) by lia. replace (height R) with (1 + height L) in IHR by lia.
      rewrite Z.pow_add_r in IHR |- * by lia. change (2 ^ 1) with 2 in IHR. change (2 ^ 2) with 4.
      replace (x + (1 + y) + 1) with (y + (1 + x) + 1) by lia. apply Hsq; lia.
  - rewrite Z.max_l by lia. assert (height L = 1 + height R) as E by lia. rewrite E in *.
    replace (1 + (1 + height R)) with (2 + height R) by lia.
    rewrite Z.pow_add_r in IHL |- * by lia. change (2 ^ 1) with 2 in IHL. change (2 ^ 2) with 4.
    apply Hsq; lia.
Qed.

Lemma height_log t : avl t → height t ≤ 2 * Z.log2 (len (elems t) + 1) + 1.
Proof.
  intros Ha%avl_log. set (m := len (elems t) + 1) in *. assert (0 < m) as Hm by (unfold m, len; lia).
  pose proof (height_nonneg t) as Hh. destruct (Z.log2_spec m Hm) as [_ Hlog].
  assert (2 ^ height t < 2 ^ (2 * Z.log2 m + 2)) as Hlt.
  { replace (2 * Z.log2 m + 2) with (Z.succ (Z.log2 m) + Z.succ (Z.log2 m)) by lia.
    pose proof (Z.log2_nonneg m). rewrite Z.pow_add_r by lia. nia. }
  apply Z.pow_lt_mono_r_iff in Hlt; [lia|lia|]. pose proof (Z.log2_nonneg m). lia.
Qed.
End ordered.

(** ** Results *)

Lemma init_tree {K} (P : K → Prop) (cmp : K → K → Z) value mem : tree_of P cmp value (BAVL_Init mem) [].
Proof.
  exists Leaf. split_and!; try done; try by constructor. constructor; [done|constructor|constructor].
Qed.

Lemma tree_value_ext {K} (P : K → Prop) (cmp : K → K → Z) value value' o l : (∀ p, p ∈ l → value p = value' p) →
  tree_of P cmp value o l → tree_of P cmp value' o l.
Proof.
  intros E (t & Hz & Ha & El & Hs & HP). exists t. split_and!; try done; clear Hz Ha El t.
  2:{ rewrite Forall_forall in HP |- *. intros p Hp. cbn. rewrite <- E by done. by apply HP. }
  clear HP. induction Hs as [|x l Hs IH Hf]; [constructor|]. constructor; [apply IH; set_solver|].
  rewrite Forall_forall in Hf |- *. intros y Hy. unfold lt. rewrite <- !E by set_solver. by apply Hf.
Qed.

(** The values may change as long as their order does not. *)
Lemma tree_value_mono {K} (P : K → Prop) (cmp : K → K → Z) value value' o l : (∀ p, p ∈ l → P (value' p)) →
  (∀ p q, p ∈ l → q ∈ l → cmp (value p) (value q) = -1 → cmp (value' p) (value' q) = -1) →
  tree_of P cmp value o l → tree_of P cmp value' o l.
Proof.
  intros HP' Hlt (t & Hz & Ha & El & Hs & _). exists t. split_and!; try done; clear Hz Ha El t.
  2:{ rewrite Forall_forall. exact HP'. }
  clear HP'. induction Hs as [|x l Hs IH Hf]; [constructor|]. constructor; [apply IH; set_solver|].
  rewrite Forall_forall in Hf |- *. intros y Hy. apply Hlt; [set_solver..|by apply Hf].
Qed.

(** C4: The AVL tree refines an ordered list of nodes. An initialised tree
    holds no node. Inserting a node whose value compares equal to that of a
    node in the tree returns 0 and that node and changes nothing; otherwise the
    node enters at its place in the order, the result is 1 and the reference is
    a neighbour. Removing a node takes exactly it out of the list. The memory
    is again a balanced search tree with consistent parent links, and no
    operation follows a null pointer, fails an assertion or runs without
    end. *)
Theorem bavl_refines_ordered_list {K} (P : K → Prop) (cmp : K → K → Z) (value : ptr → K) o l node mem :
  Comparator P cmp → tree_of P cmp value o l →
  tree_of P cmp value (BAVL_Init mem) [] ∧
  (node ∉ l → P (value node) → ∃ r ref o', BAVL_Insert cmp value node o = Some ((r, ref), o', []) ∧
     insert_post P cmp value o l node r ref o') ∧
  (node ∈ l → ∃ o' l1 l2, BAVL_Remove node o = Some (tt, o', []) ∧
     l = l1 ++ node :: l2 ∧ tree_of P cmp value o' (l1 ++ l2)).
Proof.
  intros Hc Ht. split_and!; [apply init_tree| |].
  - intros Hn HP. destruct (proj1 (wp_some _ _ _) (insert_ok P cmp value o l node Ht Hn HP)) as ([r ref] & o' & [|[]] & E & H).
    by exists r, ref, o'.
  - intros Hn. destruct (proj1 (wp_some _ _ _) (remove_ok P cmp value o l node Ht Hn)) as ([] & o' & [|[]] & E & l1 & l2 & H).
    by exists o', l1, l2.
Qed.

(** The queries of the AVL tree answer from the ordered list it holds and
    leave it unchanged: LookupExact finds a node of equal value exactly when
    there is one, GetFirst and GetLast return the ends, GetNext and GetPrev the
    neighbours of a node, IsEmpty whether the list is empty. *)
Theorem bavl_queries {K} (P : K → Prop) (cmp : K → K → Z) (value : ptr → K) o l v :
  Comparator P cmp → tree_of P cmp value o l → P v →
  (∃ r, BAVL_LookupExact cmp value v o = Some (r, o, []) ∧ lookup_post cmp value l v r) ∧
  BAVL_GetFirst o = Some (head l, o, []) ∧
  BAVL_GetLast o = Some (last l, o, []) ∧
  BAVL_IsEmpty o = Some (bool_decide (l = []), o, []) ∧
  (∀ l1 n l2, l = l1 ++ n :: l2 →
     BAVL_GetNext n o = Some (head l2, o, []) ∧ BAVL_GetPrev n o = Some (last l1, o, [])).
Proof.
  intros Hc Ht Hv.
  assert (∀ {A} (m : op A) x, wp m o (λ r o' _, r = x ∧ o' = o) → m o = Some (x, o, [])) as Hread.
  { intros A m x (r & o' & [|[]] & E & -> & ->)%wp_some. done. }
  split_and!.
  - destruct (proj1 (wp_some _ _ _) (lookup_exact_ok P cmp value o l v Ht Hv)) as (r & o' & [|[]] & E & -> & H). by exists r.
  - by apply Hread, (get_end_ok P cmp value false).
  - by apply Hread, (get_end_ok P cmp value true).
  - destruct Ht as (t & Hz & _ & <- & _). unfold BAVL_IsEmpty, gets. rewrite (root_tptr _ _ Hz).
    destruct t as [|b L p R]; [done|]. cbn. repeat f_equal. symmetry. apply bool_decide_eq_false_2.
    by destruct (elems L).
  - intros l1 n l2 ->. split; [by apply Hread, (neighbour_ok P cmp value true _ l1)|by apply Hread, (neighbour_ok P cmp value false _ l1 n l2)].
Qed.

(** A tree of n nodes is at most 2 log2 (n + 1) + 1 deep: that many rounds
    are enough for the search loop of insertion and lookup. BAVL_Verify, the
    tree's own consistency check, accepts it. *)
Theorem bavl_depth {K} (P : K → Prop) (cmp : K → K → Z) (value : ptr → K) o l v rounds :
  Comparator P cmp → tree_of P cmp value o l → P v → 2 * Z.log2 (len l + 1) + 1 ≤ Z.of_nat rounds →
  BAVL_Verify cmp value o = Some (tt, o, []) ∧
  (∀ p, root o = Some p → is_Some (descend cmp value rounds v p o)).
Proof.
  intros Hc Ht Hv Hr. split.
  - by destruct (proj1 (wp_some _ _ _) (verify_ok P cmp value o l Ht)) as ([] & o' & [|[]] & E & ->).
  - destruct Ht as (t & Hz & Ha & <- & Hs & HP). intros p Hp. rewrite (root_tptr _ _ Hz) in Hp.
    pose proof (height_log t Ha) as Hh.
    destruct (proj1 (wp_some _ _ _) (descend_ok P cmp value v rounds o [] t p Hz Hp ltac:(lia) Hs Hv HP (between_nil _ _ _)))
      as (r & o' & es & E & _). rewrite E. done.
Qed.

(** The tree provides what its clients expect. *)
#[export] Program Instance bavl_ordered_tree : OrderedTree BAVL := {|
  ot_init := BAVL_Init ∅;
  ot_insert K cmp value node o :=
    match BAVL_Insert cmp value node o with Some ((r, _), o', _) => Some (r, o') | None => None end;
  ot_remove node o := match BAVL_Remove node o with Some (_, o', _) => Some o' | None => None end;
  ot_lookup K cmp value v o :=
    match BAVL_LookupExact cmp value v o with Some (r, _, _) => Some r | None => None end;
  ot_first o := match BAVL_GetFirst o with Some (r, _, _) => Some r | None => None end;
  ot_holds K P cmp value o l := tree_of P cmp value o l
|}.
Next Obligation. intros. apply init_tree. Qed.
Next Obligation. by intros K P cmp value t l (? & _ & _ & _ & ? & _). Qed.
Next Obligation. intros. by eapply tree_nodup. Qed.
Next Obligation. intros. by eapply tree_value_ext. Qed.
Next Obligation. intros K P cmp value value' t l HP Hlt Ht. by apply (tree_value_mono P cmp value). Qed.
Next Obligation.
  intros K P cmp value t l node Hc Ht Hn HP Hne.
  destruct (proj1 (wp_some _ _ _) (insert_ok P cmp value t l node Ht Hn HP)) as ([r ref] & o' & es & E & H).
  destruct H as [(q & Hq & Eq & _)|(l1 & l2 & -> & _ & -> & _ & H)]; [by destruct (Hne q Hq)|].
  rewrite E. by exists o', l1, l2.
Qed.
Next Obligation.
  intros K P cmp value t l node Ht Hn.
  destruct (proj1 (wp_some _ _ _) (remove_ok P cmp value t l node Ht Hn)) as ([] & o' & es & E & l1 & l2 & H).
  rewrite E. by exists o', l1, l2.
Qed.
Next Obligation.
  intros K P cmp value t l v Hc Ht Hv.
  destruct (proj1 (wp_some _ _ _) (lookup_exact_ok P cmp value t l v Ht Hv)) as (r & o' & es & E & -> & H).
  rewrite E. by exists r.
Qed.
Next Obligation.
  intros K P cmp value t l Ht.
  destruct (proj1 (wp_some _ _ _) (get_end_ok P cmp value false t l Ht)) as (r & o' & es & E & -> & ->).
  unfold BAVL_GetFirst. by rewrite E.
Qed.

(** ** A concrete tree *)

(** Seven nodes whose values are their addresses, inserted in order. *)
Definition ex_value (p : ptr) : Z := Z.pos p.
Definition ex_insert (p : ptr) (o : BAVL) : BAVL :=
  match BAVL_Insert B_COMPARE ex_value p o with Some (_, o', _) => o' | None => o end.
Definition ex_nodes : list ptr := [1; 2; 3; 4; 5; 6; 7]%positive.
Definition ex_tree : BAVL := foldl (λ o p, ex_insert p o) (BAVL_Init ∅) ex_nodes.

Lemma ex_tree_of : tree_of (λ _, True) B_COMPARE ex_value ex_tree ex_nodes.
Proof.
  exists (Node 0 (Node 0 (Node 0 Leaf 1 Leaf) 2 (Node 0 Leaf 3 Leaf)) 4
           (Node 0 (Node 0 Leaf 5 Leaf) 6 (Node 0 Leaf 7 Leaf)))%positive.
  split_and!; [|cbn; lia|done|by repeat constructor|by repeat constructor].
  constructor; [by vm_compute| |by repeat constructor].
  by apply (bool_decide_unpack _).
Qed.

(** Removing the root of it, which has two subtrees. *)
Lemma bavl_refines_ordered_list_witness : ∃ o',
  BAVL_Remove 4 ex_tree = Some (tt, o', []) ∧ tree_of (λ _, True) B_COMPARE ex_value o' [1; 2; 3; 5; 6; 7]%positive.
Proof.
  destruct (bavl_refines_ordered_list (λ _, True) B_COMPARE ex_value ex_tree ex_nodes 4 ∅ _ ex_tree_of)
    as (_ & _ & (o' & l1 & l2 & E & El & H)); [apply (bool_decide_unpack _); by vm_compute|].
  exists o'. split; [exact E|].
  destruct (nodup_middle [1; 2; 3]%positive [5; 6; 7]%positive l1 l2 4) as [<- <-];
    [by apply (bool_decide_unpack _)|exact El|exact H].
Defined.

Lemma bavl_queries_witness :
  BAVL_GetFirst ex_tree = Some (Some 1%positive, ex_tree, []) ∧
  BAVL_GetNext 4 ex_tree = Some (Some 5%positive, ex_tree, []) ∧
  BAVL_GetPrev 4 ex_tree = Some (Some 3%positive, ex_tree, []).
Proof.
  destruct (bavl_queries (λ _, True) B_COMPARE ex_value ex_tree ex_nodes 0 _ ex_tree_of I) as (_ & Hf & _ & _ & Hn).
  split; [exact Hf|]. apply (Hn [1; 2; 3]%positive 4%positive [5; 6; 7]%positive). reflexivity.
Defined.

Lemma bavl_depth_witness :
  BAVL_Verify B_COMPARE ex_value ex_tree = Some (tt, ex_tree, []) ∧
  is_Some (descend B_COMPARE ex_value 7 6 4 ex_tree).
Proof.
  destruct (bavl_depth (λ _, True) B_COMPARE ex_value ex_tree ex_nodes 6 7 _ ex_tree_of I) as [Hv Hd]; [by vm_compute|].
  split; [exact Hv|]. apply Hd. by vm_compute.
Defined.
End BAVLFacts.
