(* ===== verification/CAvl.v ===== *)
(** The AVL tree of structure/CAvl_impl.h, which keeps its links, its order and
    optionally the sizes and sums of its subtrees in the entries themselves; the
    tree of the event loop's timers, and under structure/SAvl_impl.h that of the
    fair queue. *)
From S2P Require Import Prelude BAVL.
Import BAVLCode.

(** * The code

    A link is a pointer to an entry and dereferencing it is the identity, as in
    structure/SAvl_tree.h, structure/IndexedList_tree.h and
    system/BReactor_badvpn_timerstree.h; so a reference is represented by its
    link, [None] for the null reference, and [CAvlDeref] by nothing. *)
Module CAvlCode.

(** The members [child], [parent] and [balance] of the entries and the root are
    laid out as the nodes of BAVL.h; the members [count] and [assoc] are in maps of
    their own. *)
Record CAvl {A : Type} := MkCAvl {
  links : BAVL;
  counts : gmap ptr Z;
  assocs : gmap ptr A
}.
Arguments CAvl : clear implicits.
Arguments MkCAvl {A}.
#[global] Instance eta_CAvl {A} : Eta (CAvl A) := λ x, MkCAvl (links x) (counts x) (assocs x).

(** ** Operations on the links alone *)

Definition CAvl_check_parent (p : option ptr) (c : ptr) : BAVLCode.op bool :=
  cn ← load c;
  if bool_decide (p = parent cn) then
    match p with
    | None => mret true
    | Some p => pn ← load p;
                mret (bool_decide (Some c = link0 pn) || bool_decide (Some c = link1 pn))
    end
  else mret false.

(** The first part of [CAvl_rotate]; the result is [nr]. *)
Definition rotate_links (r : ptr) (dir : bool) (r_parent : option ptr) : BAVLCode.op ptr :=
  ok ← CAvl_check_parent r_parent r;
  ASSERT ok;;
  rn ← load r;
  nr ← deref (link rn (negb dir));
  nrn ← load nr;
  set_link r (negb dir) (link nrn dir);;
  set_parent_if (link nrn dir) (Some r);;
  set_link nr dir (Some r);;
  set_parent nr r_parent;;
  relink r_parent r (Some nr);;
  set_parent r (Some nr);;
  mret nr.

(** The first part of [CAvl_replace_subtree_fix_assoc]. *)
Definition replace_links (dest : ptr) (n : option ptr) (dest_parent : option ptr) : BAVLCode.op unit :=
  ok ← CAvl_check_parent dest_parent dest;
  ASSERT ok;;
  relink dest_parent dest n;;
  dn ← load dest;
  set_parent_if n (parent dn).

(** The case of [CAvl_swap_for_remove] for nodes directly connected. *)
Definition swap_links_connected (node enode : ptr) (node_parent : option ptr) : BAVLCode.op unit :=
  nn ← load node;
  let side := bool_decide (Some enode = link1 nn) in
  let c := link nn (negb side) in
  en ← load enode;
  set_link node false (link0 en);;
  set_parent_if (link0 en) (Some node);;
  en ← load enode;
  set_link node true (link1 en);;
  set_parent_if (link1 en) (Some node);;
  nn ← load node;
  set_parent enode (parent nn);;
  relink node_parent node (Some enode);;
  set_link enode side (Some node);;
  set_parent node (Some enode);;
  set_link enode (negb side) c;;
  set_parent_if c (Some enode).

Definition swap_links_apart (node enode : ptr) (node_parent enode_parent : option ptr) : BAVLCode.op unit :=
  (* swap parents *)
  let temp := node_parent in
  en ← load enode;
  set_parent node (parent en);;
  relink enode_parent enode (Some node);;
  set_parent enode temp;;
  relink temp node (Some enode);;
  (* swap left children *)
  nn ← load node;
  en ← load enode;
  let temp := link0 nn in
  set_link node false (link0 en);;
  set_parent_if (link0 en) (Some node);;
  set_link enode false temp;;
  set_parent_if temp (Some enode);;
  (* swap right children *)
  nn ← load node;
  en ← load enode;
  let temp := link1 nn in
  set_link node true (link1 en);;
  set_parent_if (link1 en) (Some node);;
  set_link enode true temp;;
  set_parent_if temp (Some enode).

(** [CAvl_swap_for_remove] without the counts. *)
Definition swap_links (node enode : ptr) (node_parent enode_parent : option ptr) : BAVLCode.op unit :=
  ok ← CAvl_check_parent node_parent node;
  ASSERT ok;;
  ok ← CAvl_check_parent enode_parent enode;
  ASSERT ok;;
  (if bool_decide (enode_parent = Some node) then swap_links_connected node enode node_parent
   else swap_links_apart node enode node_parent enode_parent);;
  (* swap balance factors *)
  nn ← load node;
  en ← load enode;
  set_balance node (balance en);;
  set_balance enode (balance nn).

(** ** With counts and associative sums

    The features are those of CAvl_header.h; [ASSOC_VALUE] is the value of an
    entry. A count is an unsigned integer of at most [COUNT_MAX]. *)
Section code.
Context (FEATURE_COUNTS FEATURE_ASSOC : bool) (COUNT_MAX : Z).
Context {A : Type} `{!EqDecision A} (ASSOC_ZERO : A) (ASSOC_VALUE : ptr → A) (ASSOC_OPER : A → A → A).

Abbreviation op := (prog (CAvl A) Empty_set).

Definition CAvlCount_cast (x : Z) : Z := x mod (COUNT_MAX + 1).

Definition on_links {X} (m : BAVLCode.op X) : op X :=
  λ o, match m (links o) with Some (x, l, es) => Some (x, o <| links := l |>, es) | None => None end.
Definition entry (p : ptr) : op BAVLNode :=
  λ o, match memory (links o) !! p with Some n => Some (n, o, []) | None => None end.
Definition CAvl_count (p : ptr) : op Z :=
  λ o, match counts o !! p with Some n => Some (n, o, []) | None => None end.
Definition set_count (p : ptr) (n : Z) : op unit :=
  modify (λ o, o <| counts := <[p := n]> (counts o) |>).
Definition CAvl_assoc (p : ptr) : op A :=
  λ o, match assocs o !! p with Some a => Some (a, o, []) | None => None end.
Definition set_assoc (p : ptr) (a : A) : op unit :=
  modify (λ o, o <| assocs := <[p := a]> (assocs o) |>).
(** No loop along a path of the tree has more rounds. *)
Definition rounds : op nat := gets (λ o, S (size (memory (links o)))).

Definition CAvl_compute_node_assoc (node : ptr) : op A :=
  let sum := ASSOC_VALUE node in
  nn ← entry node;
  sum ← match link0 nn with
        | Some l => a ← CAvl_assoc l; mret (ASSOC_OPER a sum)
        | None => mret sum
        end;
  match link1 nn with
  | Some r => a ← CAvl_assoc r; mret (ASSOC_OPER sum a)
  | None => mret sum
  end.
Definition update_assoc (n : ptr) : op unit :=
  a ← CAvl_compute_node_assoc n; set_assoc n a.

(** The count of the subtree at a link. *)
Definition count_below (q : option ptr) : op Z :=
  match q with Some c => CAvl_count c | None => mret 0 end.

Definition CAvl_update_count_from_children (n : ptr) : op unit :=
  nn ← entry n;
  left_count ← count_below (link0 nn);
  right_count ← count_below (link1 nn);
  set_count n (CAvlCount_cast (1 + left_count + right_count)).

Definition CAvl_rotate (r : ptr) (dir : bool) (r_parent : option ptr) : op unit :=
  nr ← on_links (rotate_links r dir r_parent);
  when FEATURE_COUNTS (
    CAvl_update_count_from_children r;;
    CAvl_update_count_from_children nr);;
  when FEATURE_ASSOC (
    update_assoc r;;
    update_assoc nr).

Definition CAvl_subtree_min (n : ptr) : op ptr := k ← rounds; on_links (last_link k false n).
Definition CAvl_subtree_max (n : ptr) : op ptr := k ← rounds; on_links (last_link k true n).

(** [for (c = ...; c != null; c = parent(c)) step(c)] *)
Fixpoint walk_up (fuel : nat) (step : ptr → op unit) (c : option ptr) : op unit :=
  match fuel with
  | O => λ _, None
  | S fuel =>
      match c with
      | None => mret tt
      | Some c => step c;; cn ← entry c; walk_up fuel step (parent cn)
      end
  end.

Definition replace_step (dest : ptr) (n : option ptr) (c : ptr) : op unit :=
  when FEATURE_COUNTS (
    count_c ← CAvl_count c;
    count_dest ← CAvl_count dest;
    ASSERT (count_dest <=? count_c);;
    set_count c (CAvlCount_cast (count_c - count_dest));;
    match n with
    | None => mret tt
    | Some n =>
        count_n ← CAvl_count n;
        count_c ← CAvl_count c;
        ASSERT (count_n <=? COUNT_MAX - count_c);;
        set_count c (CAvlCount_cast (count_c + count_n))
    end);;
  when FEATURE_ASSOC (update_assoc c).

Definition CAvl_replace_subtree_fix_assoc (dest : ptr) (n dest_parent : option ptr) : op unit :=
  on_links (replace_links dest n dest_parent);;
  when (FEATURE_COUNTS || FEATURE_ASSOC) (
    k ← rounds; walk_up k (replace_step dest n) dest_parent).

Definition CAvl_swap_for_remove (node enode : ptr) (node_parent enode_parent : option ptr) : op unit :=
  on_links (swap_links node enode node_parent enode_parent);;
  when FEATURE_COUNTS (
    c ← CAvl_count node;
    ce ← CAvl_count enode;
    set_count node ce;;
    set_count enode c).

Definition CAvl_MAX (a b : Z) : Z := if b <? a then a else b.
Definition CAvl_OPTNEG (a : Z) (neg : bool) : Z := if neg then - a else a.
Definition set_entry_balance (p : ptr) (b : Z) : op unit := on_links (set_balance p b).

(** A rotation with the parent read from the entry. *)
Definition rotate_entry (node : ptr) (dir : bool) : op unit :=
  nn ← entry node; CAvl_rotate node dir (parent nn).

(** The transformations of [CAvl_rebalance], as in BAVL.h. *)
Definition transform (node : ptr) (bal : Z) (delta : Z) : op (ptr * Z) :=
  let bside := (bal =? 2) in
  let bsidef := if bside then 1 else -1 in
  nn ← entry node;
  child ← deref (link nn bside);
  cn ← entry child;
  if balance cn * bsidef =? 1 then
    rotate_entry node (negb bside);;
    set_entry_balance node 0;;
    set_entry_balance child 0;;
    mret (child, delta - 1)
  else if balance cn * bsidef =? 0 then
    rotate_entry node (negb bside);;
    set_entry_balance node (1 * bsidef);;
    set_entry_balance child (-1 * bsidef);;
    mret (child, delta)
  else
    ASSERT (balance cn * bsidef =? -1);;
    gchild ← deref (link cn (negb bside));
    CAvl_rotate child bside (Some node);;
    rotate_entry node (negb bside);;
    gn ← entry gchild;
    set_entry_balance node (- CAvl_MAX 0 (balance gn * bsidef) * bsidef);;
    set_entry_balance child (CAvl_MAX 0 (- balance gn * bsidef) * bsidef);;
    set_entry_balance gchild 0;;
    mret (gchild, delta - 1).

Fixpoint rebalance_from (fuel : nat) (node : ptr) (side : bool) (deltac : Z) : op unit :=
  match fuel with
  | O => λ _, None
  | S fuel =>
      nn ← entry node;
      ASSERT ((-1 <=? deltac) && (deltac <=? 1));;
      ASSERT ((-1 <=? balance nn) && (balance nn <=? 1));;
      if deltac =? 0 then mret tt else
      let delta := CAvl_MAX deltac (CAvl_OPTNEG (balance nn) side)
                   - CAvl_MAX 0 (CAvl_OPTNEG (balance nn) side) in
      ASSERT ((-1 <=? delta) && (delta <=? 1));;
      let bal := balance nn - CAvl_OPTNEG deltac side in
      set_entry_balance node bal;;
      '(node, delta) ←
        (if (bal =? 2) || (bal =? -2) then transform node bal delta
         else mret (node, delta));
      ASSERT ((-1 <=? delta) && (delta <=? 1));;
      nn ← entry node;
      match parent nn with
      | Some p =>
          pn ← entry p;
          rebalance_from fuel p (bool_decide (Some node = link1 pn)) delta
      | None => mret tt
      end
  end.
Definition CAvl_rebalance (node : ptr) (side : bool) (deltac : Z) : op unit :=
  k ← rounds; rebalance_from k node side deltac.

Definition CAvl_Init (o : CAvl A) : CAvl A := o <| links := links o <| root := None |> |>.

Definition CAvl_IsEmpty : op bool := gets (λ o, bool_decide (root (links o) = None)).

Definition CAvl_Count : op Z := o ← get_st; count_below (root (links o)).

(** The ends of [CAvl_Insert] and [CAvl_InsertAt]: the first node, and a node
    below [c]. *)
Definition insert_root (node : ptr) : op unit :=
  on_links (set_root (Some node);; store node (MkNode None None None 0));;
  when FEATURE_COUNTS (set_count node 1);;
  when FEATURE_ASSOC (set_assoc node (ASSOC_VALUE node)).
Definition insert_step (p : ptr) : op unit :=
  when FEATURE_COUNTS (n ← CAvl_count p; set_count p (CAvlCount_cast (n + 1)));;
  when FEATURE_ASSOC (update_assoc p).
Definition insert_below (c : ptr) (side : bool) (node : ptr) : op unit :=
  on_links (set_link c side (Some node);; store node (MkNode (Some c) None None 0));;
  (when FEATURE_COUNTS (set_count node 1);;
   when FEATURE_ASSOC (set_assoc node (ASSOC_VALUE node)));;
  when (FEATURE_COUNTS || FEATURE_ASSOC) (k ← rounds; walk_up k insert_step (Some c));;
  CAvl_rebalance c side 1.

(** The loop of [CAvl_InsertAt]. *)
Fixpoint descend_at (fuel : nat) (index : Z) (c : ptr) (c_idx : Z) : op (ptr * bool) :=
  match fuel with
  | O => λ _, None
  | S fuel =>
      let side := (c_idx <? index) in
      cn ← entry c;
      match link cn side with
      | None => mret (c, side)
      | Some c =>
          cn ← entry c;
          k ← count_below (link cn (negb side));
          descend_at fuel index c
            (CAvlCount_cast (if side then c_idx + (1 + k) else c_idx - (1 + k)))
      end
  end.
Definition CAvl_InsertAt (node : ptr) (index : Z) : op unit :=
  n ← CAvl_Count;
  ASSERT (index <=? n);;
  ASSERT (n <? COUNT_MAX);;
  o ← get_st;
  match root (links o) with
  | None => insert_root node
  | Some c =>
      cn ← entry c;
      c_idx ← count_below (link0 cn);
      k ← rounds;
      '(c, side) ← descend_at k index c c_idx;
      insert_below c side node
  end.

Definition CAvl_Remove (node : ptr) : op unit :=
  o ← get_st;
  ASSERT (bool_decide (is_Some (root (links o))));;
  nn ← entry node;
  (match link0 nn, link1 nn with
   | Some l, Some _ =>
       max ← CAvl_subtree_max l;
       nn ← entry node;
       mn ← entry max;
       CAvl_swap_for_remove node max (parent nn) (parent mn)
   | _, _ => mret tt
   end);;
  nn ← entry node;
  ASSERT (bool_decide (link0 nn = None) || bool_decide (link1 nn = None));;
  let child := match link0 nn with Some l => Some l | None => link1 nn end in
  match parent nn with
  | Some p =>
      pn ← entry p;
      let side := bool_decide (Some node = link1 pn) in
      CAvl_replace_subtree_fix_assoc node child (Some p);;
      CAvl_rebalance p side (-1)
  | None => CAvl_replace_subtree_fix_assoc node child None
  end.

Definition CAvl_GetFirst : op (option ptr) :=
  o ← get_st;
  match root (links o) with None => mret None | Some r => n ← CAvl_subtree_min r; mret (Some n) end.
Definition CAvl_GetLast : op (option ptr) :=
  o ← get_st;
  match root (links o) with None => mret None | Some r => n ← CAvl_subtree_max r; mret (Some n) end.
(** The loops down and up are those of BAVL.h. *)
Definition CAvl_GetNext (node : ptr) : op (option ptr) :=
  o ← get_st;
  ASSERT (bool_decide (is_Some (root (links o))));;
  on_links (BAVL_GetNext node).
Definition CAvl_GetPrev (node : ptr) : op (option ptr) :=
  o ← get_st;
  ASSERT (bool_decide (is_Some (root (links o))));;
  on_links (BAVL_GetPrev node).

(** ** Counts *)

(** The loop of [CAvl_IndexOf], for the node [c] with the parent [paren]. *)
Fixpoint index_up (fuel : nat) (c : ptr) (paren : option ptr) (index : Z) : op Z :=
  match fuel with
  | O => λ _, None
  | S fuel =>
      match paren with
      | None => mret index
      | Some p =>
          pn ← entry p;
          index ← (if bool_decide (Some c = link1 pn) then
                     count_p ← CAvl_count p;
                     count_c ← CAvl_count c;
                     ASSERT (count_c <? count_p);;
                     ASSERT (count_p - count_c <=? COUNT_MAX - index);;
                     mret (CAvlCount_cast (index + (count_p - count_c)))
                   else mret index);
          index_up fuel p (parent pn) index
      end
  end.
Definition CAvl_IndexOf (node : ptr) : op Z :=
  o ← get_st;
  ASSERT (bool_decide (is_Some (root (links o))));;
  nn ← entry node;
  index ← count_below (link0 nn);
  k ← rounds;
  index_up k node (parent nn) index.

Fixpoint get_at (fuel : nat) (c : option ptr) (index : Z) : op (option ptr) :=
  match fuel, c with
  | S fuel, Some c =>
      count_c ← CAvl_count c;
      ASSERT (index <? count_c);;
      cn ← entry c;
      left_count ← count_below (link0 cn);
      if index =? left_count then mret (Some c)
      else if index <? left_count then get_at fuel (link0 cn) index
      else get_at fuel (link1 cn) (CAvlCount_cast (index - (left_count + 1)))
  | _, _ => λ _, None
  end.
Definition CAvl_GetAt (index : Z) : op (option ptr) :=
  n ← CAvl_Count;
  if n <=? index then mret None
  else o ← get_st; k ← rounds; get_at k (root (links o)) index.

(** ** Associative sums *)

(** The sum of the subtree at a link. *)
Definition sum_below (q : option ptr) : op A :=
  match q with Some c => CAvl_assoc c | None => mret ASSOC_ZERO end.

Definition CAvl_AssocSum : op A := o ← get_st; sum_below (root (links o)).

Fixpoint sum_up (fuel : nat) (c : ptr) (paren : option ptr) (sum : A) : op A :=
  match fuel with
  | O => λ _, None
  | S fuel =>
      match paren with
      | None => mret sum
      | Some p =>
          pn ← entry p;
          sum ← (if bool_decide (Some c = link1 pn) then
                   let sum := ASSOC_OPER (ASSOC_VALUE p) sum in
                   match link0 pn with
                   | Some l => a ← CAvl_assoc l; mret (ASSOC_OPER a sum)
                   | None => mret sum
                   end
                 else mret sum);
          sum_up fuel p (parent pn) sum
      end
  end.
Definition CAvl_ExclusiveAssocPrefixSum (node : ptr) : op A :=
  o ← get_st;
  ASSERT (bool_decide (is_Some (root (links o))));;
  nn ← entry node;
  sum ← sum_below (link0 nn);
  k ← rounds;
  sum_up k node (parent nn) sum.

Fixpoint find_last (fuel : nat) (sum_less : A → A → bool) (sum : A) (result c : option ptr)
    (sum_offset : A) : op (option ptr) :=
  match fuel with
  | O => λ _, None
  | S fuel =>
      match c with
      | None => mret result
      | Some c =>
          cn ← entry c;
          left_sum ← sum_below (link0 cn);
          let c_prefixsum := ASSOC_OPER sum_offset left_sum in
          if sum_less sum c_prefixsum then find_last fuel sum_less sum result (link0 cn) sum_offset
          else find_last fuel sum_less sum (Some c) (link1 cn) (ASSOC_OPER c_prefixsum (ASSOC_VALUE c))
      end
  end.
Definition CAvl_FindLastExclusiveAssocPrefixSumLesserEqual (sum_less : A → A → bool) (sum : A) : op (option ptr) :=
  o ← get_st; k ← rounds; find_last k sum_less sum None (root (links o)) ASSOC_ZERO.

(** ** Ordered trees

    Entries are compared by [comparator] on the values found in them, keys are
    such values. *)
Section with_comparator.
Context {K : Type} (comparator : K → K → Z) (value : ptr → K).

(** The result, and [*out_ref]. The search is the loop of BAVL.h. *)
Definition CAvl_Insert (node : ptr) : op (Z * option ptr) :=
  when FEATURE_COUNTS (n ← CAvl_Count; ASSERT (n <? COUNT_MAX));;
  o ← get_st;
  match root (links o) with
  | None => insert_root node;; mret (1, None)
  | Some c =>
      k ← rounds;
      '(c, at_leaf) ← on_links (descend comparator value k (value node) c);
      match at_leaf with
      | None => mret (0, Some c)
      | Some side => insert_below c side node;; mret (1, Some c)
      end
  end.

Definition CAvl_Lookup (key : K) : op (option ptr) :=
  o ← get_st;
  match root (links o) with
  | None => mret None
  | Some c => k ← rounds; '(c, _) ← on_links (descend comparator value k key c); mret (Some c)
  end.
Definition CAvl_LookupExact (key : K) : op (option ptr) :=
  o ← get_st;
  match root (links o) with
  | None => mret None
  | Some c =>
      k ← rounds;
      '(c, at_leaf) ← on_links (descend comparator value k key c);
      mret (match at_leaf with Some _ => None | None => Some c end)
  end.

Definition CAvl_compare_key_entry (key : K) (c : ptr) : op Z :=
  on_links (_BAVL_compare_values comparator key (value c)).

(** The four functions below: [skip] says at which results of the comparison
    the node found is not the one asked for and [step] goes on to the next; at
    the node returned the comparison satisfies the assertion. *)
Definition get_from (key : K) (skip : Z → bool) (step : ptr → op (option ptr)) : op (option ptr) :=
  c ← CAvl_Lookup key;
  match c with
  | None => mret None
  | Some c =>
      comp ← CAvl_compare_key_entry key c;
      c ← (if skip comp then step c else mret (Some c));
      match c with
      | None => mret None
      | Some c => comp ← CAvl_compare_key_entry key c; ASSERT (negb (skip comp));; mret (Some c)
      end
  end.
Definition CAvl_GetFirstGreater (key : K) : op (option ptr) := get_from key (λ c, 0 <=? c) CAvl_GetNext.
Definition CAvl_GetLastLesser (key : K) : op (option ptr) := get_from key (λ c, c <=? 0) CAvl_GetPrev.
Definition CAvl_GetFirstGreaterEqual (key : K) : op (option ptr) := get_from key (λ c, 0 <? c) CAvl_GetNext.
Definition CAvl_GetLastLesserEqual (key : K) : op (option ptr) := get_from key (λ c, c <? 0) CAvl_GetPrev.

Fixpoint CAvl_verify_recurser (fuel : nat) (n : ptr) : op Z :=
  match fuel with
  | O => λ _, None
  | S fuel =>
      nn ← entry n;
      ASSERT (-1 <=? balance nn);;
      ASSERT (balance nn <=? 1);;
      '(height_left, count_left) ←
        match link0 nn with
        | Some l => ln ← entry l;
                    ASSERT (bool_decide (parent ln = Some n));;
                    comp ← CAvl_compare_key_entry (value l) n;
                    ASSERT (comp =? -1);;
                    h ← CAvl_verify_recurser fuel l;
                    k ← (if FEATURE_COUNTS then CAvl_count l else mret 0);
                    mret (h, k)
        | None => mret (0, 0)
        end;
      '(height_right, count_right) ←
        match link1 nn with
        | Some r => rn ← entry r;
                    ASSERT (bool_decide (parent rn = Some n));;
                    comp ← CAvl_compare_key_entry (value r) n;
                    ASSERT (comp =? 1);;
                    h ← CAvl_verify_recurser fuel r;
                    k ← (if FEATURE_COUNTS then CAvl_count r else mret 0);
                    mret (h, k)
        | None => mret (0, 0)
        end;
      ASSERT (balance nn =? height_right - height_left);;
      when FEATURE_COUNTS (
        k ← CAvl_count n;
        ASSERT (k =? CAvlCount_cast (1 + count_left + count_right)));;
      when FEATURE_ASSOC (
        a ← CAvl_assoc n;
        b ← CAvl_compute_node_assoc n;
        ASSERT (bool_decide (a = b)));;
      mret (CAvl_MAX height_left height_right + 1)
  end.
Definition CAvl_Verify : op unit :=
  o ← get_st;
  match root (links o) with
  | None => mret tt
  | Some r =>
      rn ← entry r;
      ASSERT (bool_decide (parent rn = None));;
      k ← rounds;
      CAvl_verify_recurser k r;;
      mret tt
  end.
End with_comparator.
End code.
End CAvlCode.
