(* ===== verification/CAvlLinks.v ===== *)
(** Steps towards the correctness of structure/CAvl_impl.h: what its operations on
    the links do to the tree, and what it means that every entry carries the size
    or the sum of the subtree below it. *)
From S2P Require Import Prelude BAVL BAVLFacts CAvl.
Import BAVLCode BAVLTree BAVLFacts CAvlCode.

(** ** The links

    The same writes as in BAVL.h, with the parents passed in. *)
Module CAvlLinks.

Lemma check_parent_ok o c t p : zrep o c t → tptr t = Some p →
  wp (CAvl_check_parent (cpar None c) p) o (λ ok o' _, ok = true ∧ o' = o).
Proof.
  intros Hz Ht. destruct t as [|b l q r]; [done|]. injection Ht as ->. unfold CAvl_check_parent.
  apply wp_bind. eapply wp_load; [by apply (zrep_load _ _ false) in Hz|]. cbn [bmk parent].
  rewrite bool_decide_eq_true_2 by done. destruct c as [|[d bf pp sib] c]; cbn [cpar]; [by apply wp_ret|].
  destruct (side_of _ _ _ p _ _ _ _ Hz) as (n & En & Es); [done|].
  apply wp_bind. eapply wp_load; [done|]. apply wp_ret. split; [|done].
  pose proof (Es false) as E0. pose proof (Es true) as E1. cbn [link] in E0, E1. rewrite E0, E1. by destruct d.
Qed.

Ltac skip_check Hz :=
  apply wp_bind; eapply wp_mono; [eapply (check_parent_ok _ _ _ _ Hz); apply tptr_bnode|];
  intros ok o1 ? [-> ->]; apply wp_bind, wp_assert; [done|].

Lemma rotate_links_ok d o c A r b1 B nr b2 C :
  zrep o c (bnode d b1 A r (bnode d b2 B nr C)) →
  wp (rotate_links r d (cpar None c)) o (λ n o' _, n = nr ∧ zrep o' c (bnode d b2 (bnode d b1 A r B) nr C)).
Proof.
  intros Hz. unfold rotate_links. skip_check Hz. destruct Hz as [Hr Hn Hm]. destruct o as [ro h]. cbn [root memory] in *.
  assert (distinct c (bnode d b2 (bnode d b1 A r B) nr C)) as Hn'.
  { unfold distinct in *. revert Hn. destruct d; cbn; flat_app. }
  destruct d, B as [|bb Bl q Br], c as [|[[] b' pp sib] c]; layout Hn Hm;
   repeat mem_step; (split; [done|]; constructor; [done|exact Hn'|mem_goal]).
Qed.

Lemma replace_links_ok o c d b t p : zrep o c (bnode d b t p Leaf) →
  wp (replace_links p (tptr t) (cpar None c)) o (λ _ o' _, zrep o' c t).
Proof.
  intros Hz. assert (distinct c t) as Hn'.
  { destruct Hz as [_ Hn _]. apply distinct_focus in Hn. unfold distinct in *.
    revert Hn. cbn. rewrite <- Permutation_middle. by intros [_ ?]%NoDup_cons. }
  unfold replace_links. skip_check Hz. destruct Hz as [Hr Hn Hm]. destruct o as [ro h]. cbn [root memory] in *.
  destruct d, t as [|bt tl q tr], c as [|[[] b' pp sib] c]; layout Hn Hm;
    repeat mem_step; (constructor; [done|exact Hn'|mem_goal]).
Qed.

(** The node above the frames [c2] of the greatest node below it on the left. *)
Lemma zrep_above o c2 b1 n1 r c b2 l2 n2 : zrep o (c2 ++ Frame false b1 n1 r :: c) (Node b2 l2 n2 Leaf) →
  zrep o c (Node b1 (plug (Node b2 l2 n2 Leaf) c2) n1 r).
Proof.
  intros Hz%zrep_plug. rewrite plug_app in Hz. change (plug ?t (Frame false b1 n1 r :: c)) with (plug (Node b1 t n1 r) c) in Hz.
  by apply zrep_plug in Hz.
Qed.

Ltac swap_links_solve Hr Hn Hm Hn' :=
  rewrite <- ?app_assoc in Hr, Hn, Hm, Hn' |- *; cbn [app] in Hr, Hn, Hm, Hn' |- *;
  unfold znodes, distinct in Hn, Hm; cbn [nodes cnodes cpar ctop tptr elems celems bmk] in Hr, Hn, Hm;
  rewrite ?cnodes_app, ?cpar_app, ?ctop_app in Hm; rewrite ?celems_app in Hn; rewrite ?ctop_app in Hr;
  cbn [nodes cnodes cpar ctop tptr elems celems bmk app] in Hr, Hn, Hm |- *; split_layout;
  first [rewrite bool_decide_eq_true_2 by reflexivity | rewrite bool_decide_eq_false_2 by (apply Some_ne; neq)];
  unfold swap_links_connected, swap_links_apart; repeat mem_step;
  (constructor; [cbn [root ctop tptr]; rewrite ?ctop_app; done|exact Hn'|];
   unfold znodes; cbn [nodes cnodes cpar ctop tptr memory]; rewrite ?cnodes_app, ?cpar_app, ?ctop_app; mem_goal).

Lemma swap_links_ok o c2 b1 n1 n2 br rl rp rr c b2 l2 : spine c2 →
  zrep o (c2 ++ Frame false b1 n1 (Node br rl rp rr) :: c) (Node b2 l2 n2 Leaf) →
  wp (swap_links n1 n2 (cpar None c) (cpar None (c2 ++ Frame false b1 n1 (Node br rl rp rr) :: c))) o (λ _ o' _,
    zrep o' (c2 ++ Frame false b1 n2 (Node br rl rp rr) :: c) (Node b2 l2 n1 Leaf)).
Proof.
  intros Hs Hz. pose proof (zrep_above _ _ _ _ _ _ _ _ _ Hz) as Hz1. unfold swap_links.
  apply wp_bind. eapply wp_mono; [by eapply (check_parent_ok _ _ _ _ Hz1)|]. intros ok o1 ? [-> ->].
  apply wp_bind, wp_assert; [done|].
  apply wp_bind. eapply wp_mono; [by eapply (check_parent_ok _ _ _ _ Hz)|]. intros ok o1 ? [-> ->].
  apply wp_bind, wp_assert; [done|]. clear Hz1.
  destruct Hz as [Hr Hn Hm]. pose proof (swap_distinct _ _ _ _ _ _ _ _ Hn) as Hn'.
  destruct o as [ro h]. cbn [root memory] in *.
  destruct c2 as [|[d2 bf f sf] c2]; [|apply Forall_cons in Hs as [-> Hs]].
  - destruct l2 as [|bl ll lp lr], c as [|[[] b' pp sib] c]; swap_links_solve Hr Hn Hm Hn'.
  - destruct c2 as [|[dt bt top st] mid _] using rev_ind.
    + destruct l2 as [|bl ll lp lr], c as [|[[] b' pp sib] c]; swap_links_solve Hr Hn Hm Hn'.
    + apply Forall_app in Hs as [_ [-> _]%Forall_cons].
      destruct l2 as [|bl ll lp lr], c as [|[[] b' pp sib] c]; swap_links_solve Hr Hn Hm Hn'.
Qed.
End CAvlLinks.

(** ** Annotations

    A map that gives, for the top of every subtree, the value of [f] at the
    entries of that subtree. *)
Module CAvlAnnot.

Section annot.
Context {V : Type} (f : list ptr → V).
Implicit Types (m : gmap ptr V) (t : tree) (c : list frame).

Fixpoint annot m t : Prop :=
  match t with
  | Leaf => True
  | Node _ l p r => m !! p = Some (f (elems l ++ p :: elems r)) ∧ annot m l ∧ annot m r
  end.

(** The entries of a node with [l] on side [d] and the entries of [sib] on the
    other. *)
Definition around (d : bool) (l : list ptr) (p : ptr) (sib : tree) : list ptr :=
  if d then elems sib ++ p :: l else l ++ p :: elems sib.
(** The same of the nodes above a hole, with the entries [l] in it, and of the
    subtrees beside the way up only. *)
Fixpoint cannot m (l : list ptr) c : Prop :=
  match c with
  | [] => True
  | Frame d _ p sib :: c => m !! p = Some (f (around d l p sib)) ∧ annot m sib ∧ cannot m (around d l p sib) c
  end.
Fixpoint beside m c : Prop :=
  match c with [] => True | Frame _ _ _ sib :: c => annot m sib ∧ beside m c end.

Lemma elems_around d b t p u : elems (bnode d b t p u) = around d (elems t) p u.
Proof. by destruct d. Qed.
Lemma annot_bnode m d b t p u : annot m (bnode d b t p u) ↔
  m !! p = Some (f (around d (elems t) p u)) ∧ annot m t ∧ annot m u.
Proof. destruct d; cbn; tauto. Qed.
Lemma annot_plug m t c : annot m (plug t c) ↔ annot m t ∧ cannot m (elems t) c.
Proof.
  revert t. induction c as [|[d b p sib] c IH]; intros t; cbn; [tauto|].
  rewrite IH, annot_bnode, elems_around. tauto.
Qed.
Lemma cannot_beside m l c : cannot m l c → beside m c.
Proof. revert l. induction c as [|[d b p sib] c IH]; intros l; cbn; [done|]. naive_solver. Qed.

Lemma annot_insert m t p v : p ∉ elems t → annot m t → annot (<[p := v]> m) t.
Proof.
  induction t as [|b l IHl q r IHr]; cbn; [done|]. rewrite not_elem_app, not_elem_cons.
  intros (Hl & Hq & Hr) (E & Al & Ar). rewrite lookup_insert_ne by done. auto.
Qed.
Lemma cannot_insert m l c p v : p ∉ celems c → cannot m l c → cannot (<[p := v]> m) l c.
Proof.
  revert l. induction c as [|[d b q sib] c IH]; intros l; cbn; [done|]. rewrite not_elem_cons, not_elem_app.
  intros (Hq & Hs & Hc) (E & Hsib & Hrest). rewrite lookup_insert_ne by done. eauto using annot_insert.
Qed.
Lemma beside_insert m c p v : p ∉ celems c → beside m c → beside (<[p := v]> m) c.
Proof.
  induction c as [|[d b q sib] c IH]; cbn; [done|]. rewrite not_elem_cons, not_elem_app.
  intros (Hq & Hs & Hc) [Hsib Hrest]. eauto using annot_insert.
Qed.

Lemma annot_top m t : annot m t →
  match tptr t with Some p => m !! p = Some (f (elems t)) | None => elems t = [] end.
Proof. destruct t; [done|]. by intros [? _]. Qed.

(** Annotations do not depend on the balance factors. *)
Lemma annot_balance m c d b b' t p u : annot m (plug (bnode d b t p u) c) → annot m (plug (bnode d b' t p u) c).
Proof. by rewrite !annot_plug, !annot_bnode, !elems_around. Qed.
End annot.

(** Distinct addresses around a node, as separate facts. *)
Lemma distinct_node c d b t p u : distinct c (bnode d b t p u) →
  (p ∉ elems t) ∧ (p ∉ elems u) ∧ (p ∉ celems c) ∧ distinct c t ∧ distinct c u ∧
  distinct (Frame d b p u :: c) t.
Proof.
  intros Hn. pose proof (proj1 (distinct_focus _ _ _ _ _ _) Hn) as Hn1.
  pose proof Hn as Hn2. rewrite bnode_flip in Hn2. apply distinct_focus in Hn2.
  unfold distinct in *. cbn in *. rewrite <- Permutation_middle, NoDup_cons in Hn1, Hn2.
  rewrite !not_elem_app in Hn1, Hn2. destruct Hn1 as [(? & ? & ?) Ht]. destruct Hn2 as [_ Hu].
  split_and!; try done.
  - rewrite (app_assoc (elems t)), (Permutation_app_comm (elems t)), <- app_assoc in Ht.
    by apply NoDup_app in Ht as (_ & _ & ?).
  - rewrite (app_assoc (elems u)), (Permutation_app_comm (elems u)), <- app_assoc in Hu.
    by apply NoDup_app in Hu as (_ & _ & ?).
  - rewrite <- Permutation_middle, NoDup_cons, !not_elem_app. tauto.
Qed.

(** The annotations of [r] and then [nr] recomputed after a rotation. *)
Lemma rotate_annot_below {V} (f : list ptr → V) m c d b1 A r b2 B nr C :
  distinct c (bnode d b2 (bnode d b1 A r B) nr C) →
  annot f m (plug (bnode d b1 A r (bnode d b2 B nr C)) c) →
  annot f (<[r := f (around d (elems A) r B)]> m) (bnode d b1 A r B) ∧
  annot f (<[r := f (around d (elems A) r B)]> m) C ∧
  annot f m A ∧ annot f m B.
Proof.
  intros Hn Ha. apply annot_plug in Ha as [Ha _]. apply annot_bnode in Ha as (_ & HA & Ha).
  apply annot_bnode in Ha as (_ & HB & HC).
  apply distinct_node in Hn as (_ & _ & _ & Hn & _ & Hn'). apply distinct_node in Hn as (HrA & HrB & _).
  assert (r ∉ elems C) as HrC.
  { apply distinct_node in Hn' as (_ & _ & Hr & _). cbn in Hr. by apply not_elem_cons in Hr as [_ [Hr _]%not_elem_app]. }
  split_and!; [|by apply annot_insert|done|done]. apply annot_bnode. rewrite lookup_insert_eq.
  split_and!; [done|by apply annot_insert..].
Qed.
Lemma rotate_annot {V} (f : list ptr → V) m c d b1 A r b2 B nr C :
  distinct c (bnode d b2 (bnode d b1 A r B) nr C) →
  annot f m (plug (bnode d b1 A r (bnode d b2 B nr C)) c) →
  annot f (<[nr := f (around d (elems (bnode d b1 A r B)) nr C)]> (<[r := f (around d (elems A) r B)]> m))
    (plug (bnode d b2 (bnode d b1 A r B) nr C) c).
Proof.
  intros Hn Ha. pose proof (rotate_annot_below f m c d b1 A r b2 B nr C Hn Ha) as (Hr & HC & _).
  apply annot_plug in Ha as [_ Hc]. pose proof Hn as Hn1. apply distinct_node in Hn1 as (Hn1 & Hn2 & Hn3 & Hn4 & _).
  apply distinct_node in Hn4 as (_ & _ & Hrc & _).
  apply annot_plug. split.
  - apply annot_bnode. rewrite lookup_insert_eq. split_and!; [done|by apply annot_insert..].
  - apply cannot_insert; [done|]. apply cannot_insert; [done|]. by rewrite (rotation_elems d b2 b1 b1 b2).
Qed.
End CAvlAnnot.
