(* ===== verification/CAvlFacts.v ===== *)
(** The tree of structure/CAvl_impl.h keeps its balance, its order and the sizes
    and sums of its subtrees: its operations refine those on a list of entries. *)
From Stdlib Require Import Sorting.Sorted.
From S2P Require Import Prelude TreeInterface BAVL BAVLFacts CAvl CAvlLinks.
Import BAVLCode BAVLTree BAVLFacts CAvlCode CAvlLinks CAvlAnnot.

Module CAvlFacts.

(** What CAvl_header.h asks of the associative operation. *)
Record assoc_laws {A} (zero : A) (oper : A → A → A) : Prop := {
  oper_assoc : ∀ x y z, oper x (oper y z) = oper (oper x y) z;
  oper_zero_l : ∀ x, oper zero x = x;
  oper_zero_r : ∀ x, oper x zero = x
}.

Section facts.
Context (FEATURE_COUNTS FEATURE_ASSOC : bool) (COUNT_MAX : Z).
Context {A : Type} `{!EqDecision A} (ASSOC_ZERO : A) (ASSOC_VALUE : ptr → A) (ASSOC_OPER : A → A → A).
Context (Hlaws : FEATURE_ASSOC = true → assoc_laws ASSOC_ZERO ASSOC_OPER).
Implicit Types (o : CAvl A) (c : list frame) (t : tree).

Local Abbreviation op := (prog (CAvl A) Empty_set).
Local Abbreviation rotate := (CAvl_rotate FEATURE_COUNTS FEATURE_ASSOC COUNT_MAX ASSOC_VALUE ASSOC_OPER).
Local Abbreviation update_count := (CAvl_update_count_from_children COUNT_MAX).
Local Abbreviation update_sum := (update_assoc ASSOC_VALUE ASSOC_OPER).

(** The sum over a list of entries. *)
Definition asum (l : list ptr) : A := foldr (λ p s, ASSOC_OPER (ASSOC_VALUE p) s) ASSOC_ZERO l.

Lemma asum_app l k : assoc_laws ASSOC_ZERO ASSOC_OPER → asum (l ++ k) = ASSOC_OPER (asum l) (asum k).
Proof.
  intros [Ha Hl _]. induction l as [|p l IH]; cbn; [by rewrite Hl|]. unfold asum in IH. by rewrite IH, Ha.
Qed.

(** Every entry has the size and the sum of its subtree, where they are kept. *)
Definition annots o t : Prop :=
  (FEATURE_COUNTS = true → annot len (counts o) t ∧ len (elems t) ≤ COUNT_MAX) ∧
  (FEATURE_ASSOC = true → annot asum (assocs o) t).
Definition crep o c t : Prop := zrep (links o) c t ∧ annots o (plug t c).

Lemma crep_zrep o c t : crep o c t → zrep (links o) c t.
Proof. by intros [? _]. Qed.
Lemma crep_focus o c d b t p u : crep o c (bnode d b t p u) ↔ crep o (Frame d b p u :: c) t.
Proof. unfold crep. by rewrite zrep_focus. Qed.
Lemma crep_plug o c t : crep o c t ↔ crep o [] (plug t c).
Proof. unfold crep. by rewrite zrep_plug. Qed.

Lemma wp_on_links {X} (m : BAVLCode.op X) o Q :
  wp m (links o) (λ x l es, Q x (o <| links := l |>) es) → wp (on_links m) o Q.
Proof. unfold wp, on_links. by destruct (m (links o)) as [[[x l] es]|]. Qed.
Lemma wp_entry p n o Q : memory (links o) !! p = Some n → Q n o [] → wp (entry p) o Q.
Proof. intros E HQ. unfold wp, entry. by rewrite E. Qed.
Lemma wp_rounds o Q : Q (S (size (memory (links o)))) o [] → wp rounds o Q.
Proof. done. Qed.
Lemma with_links o : o <| links := links o |> = o.
Proof. by destruct o. Qed.

(** A program that only reads the links. *)
Lemma wp_reads {X} (m : BAVLCode.op X) o (R : X → Prop) (Q : X → CAvl A → list Empty_set → Prop) :
  wp m (links o) (λ x l _, R x ∧ l = links o) → (∀ x, R x → Q x o []) → wp (on_links m) o Q.
Proof.
  intros H HQ. apply wp_on_links. eapply wp_mono; [exact H|]. intros x l [|[]] [HR ->].
  rewrite with_links. auto.
Qed.

(** ** One node *)

Lemma count_below_ok o t : annot len (counts o) t →
  wp (count_below (tptr t)) o (λ n o' _, n = len (elems t) ∧ o' = o).
Proof.
  intros Ha%annot_top. destruct t as [|b l p r]; [by apply wp_ret|]. unfold count_below, CAvl_count, wp.
  cbn [tptr] in *. by rewrite Ha.
Qed.
Lemma sum_below_ok o t : annot asum (assocs o) t →
  wp (sum_below ASSOC_ZERO (tptr t)) o (λ a o' _, a = asum (elems t) ∧ o' = o).
Proof.
  intros Ha%annot_top. destruct t as [|b l p r]; [by apply wp_ret|]. unfold sum_below, CAvl_assoc, wp.
  cbn [tptr] in *. by rewrite Ha.
Qed.

Lemma cast_ok n : 0 ≤ n ≤ COUNT_MAX → CAvlCount_cast COUNT_MAX n = n.
Proof. intros. unfold CAvlCount_cast. apply Z.mod_small. lia. Qed.

Lemma len_around d (l : list ptr) p sib : len (around d l p sib) = 1 + len l + len (elems sib).
Proof. destruct d; cbn; rewrite len_app, len_cons; lia. Qed.

Lemma update_count_ok o c d b t p u : zrep (links o) c (bnode d b t p u) →
  annot len (counts o) t → annot len (counts o) u → len (around d (elems t) p u) ≤ COUNT_MAX →
  wp (update_count p) o (λ _ o' _, o' = o <| counts := <[p := len (around d (elems t) p u)]> (counts o) |>).
Proof.
  intros Hz Ht Hu Hmax. unfold CAvl_update_count_from_children. apply wp_bind.
  eapply wp_entry; [by eapply zrep_load|].
  pose proof (len_nonneg (elems t)). pose proof (len_nonneg (elems u)). rewrite len_around in *.
  destruct d; cbn [bmk link0 link1].
  - apply wp_bind. eapply wp_mono; [by apply (count_below_ok o u)|]. intros n o' ? [-> ->].
    apply wp_bind. eapply wp_mono; [by apply (count_below_ok o t)|]. intros n o' ? [-> ->].
    apply wp_modify. rewrite cast_ok by lia. by rewrite Z.add_shuffle0.
  - apply wp_bind. eapply wp_mono; [by apply (count_below_ok o t)|]. intros n o' ? [-> ->].
    apply wp_bind. eapply wp_mono; [by apply (count_below_ok o u)|]. intros n o' ? [-> ->].
    apply wp_modify. by rewrite cast_ok by lia.
Qed.

Lemma compute_sum_ok o c l b p r : FEATURE_ASSOC = true → zrep (links o) c (Node b l p r) →
  annot asum (assocs o) l → annot asum (assocs o) r →
  wp (CAvl_compute_node_assoc ASSOC_VALUE ASSOC_OPER p) o (λ a o' _, a = asum (elems l ++ p :: elems r) ∧ o' = o).
Proof.
  intros E Hz Hl%annot_top Hr%annot_top. pose proof (Hlaws E) as L.
  unfold CAvl_compute_node_assoc. apply wp_bind. eapply wp_entry; [by apply (zrep_load _ _ false) in Hz|].
  cbn [bmk link0 link1]. apply wp_bind.
  apply (wp_mono _ _ (λ a o' _, a = asum (elems l ++ [p]) ∧ o' = o)).
  - destruct l as [|bl ll lp lr]; cbn [tptr] in *.
    + apply wp_ret. cbn. by rewrite (oper_zero_r _ _ L).
    + apply wp_bind. unfold CAvl_assoc, wp at 1. rewrite Hl. apply wp_ret. rewrite asum_app by done.
      cbn. by rewrite (oper_zero_r _ _ L).
  - intros a o' ? [-> ->].
    assert (asum (elems l ++ p :: elems r) = ASSOC_OPER (asum (elems l ++ [p])) (asum (elems r))) as ->
      by (by rewrite <- asum_app, <- app_assoc by done).
    destruct r as [|br rl rp rr]; cbn [tptr] in *.
    + apply wp_ret. cbn. by rewrite (oper_zero_r _ _ L).
    + apply wp_bind. unfold CAvl_assoc, wp at 1. rewrite Hr. by apply wp_ret.
Qed.
Lemma update_sum_ok o c d b t p u : FEATURE_ASSOC = true → zrep (links o) c (bnode d b t p u) →
  annot asum (assocs o) t → annot asum (assocs o) u →
  wp (update_sum p) o (λ _ o' _, o' = o <| assocs := <[p := asum (around d (elems t) p u)]> (assocs o) |>).
Proof.
  intros E Hz Ht Hu. unfold update_assoc. apply wp_bind.
  destruct d; (eapply wp_mono; [by eapply (compute_sum_ok o c)|]; intros a o' ? [-> ->]; by apply wp_modify).
Qed.

(** ** Rotation *)

Lemma rotation_annots d c b1 A0 r b2 B nr C : 
  len (elems (plug (bnode d b1 A0 r (bnode d b2 B nr C)) c)) ≤ COUNT_MAX →
  len (around d (elems A0) r B) ≤ COUNT_MAX ∧
  len (around d (elems (bnode d b1 A0 r B)) nr C) ≤ COUNT_MAX.
Proof.
  rewrite elems_plug_split, elems_around, !len_app, !len_around, !elems_around, !len_around.
  pose proof (len_nonneg (lefts c)). pose proof (len_nonneg (rights c)). pose proof (len_nonneg (elems C)). lia.
Qed.

Lemma rotate_counts_ok o c d b1 A0 r b2 B nr C : zrep (links o) c (bnode d b2 (bnode d b1 A0 r B) nr C) →
  (FEATURE_COUNTS = true → annot len (counts o) (plug (bnode d b1 A0 r (bnode d b2 B nr C)) c) ∧
    len (elems (plug (bnode d b1 A0 r (bnode d b2 B nr C)) c)) ≤ COUNT_MAX) →
  wp (when FEATURE_COUNTS (update_count r;; update_count nr)) o (λ _ o' _,
    links o' = links o ∧ assocs o' = assocs o ∧
    (FEATURE_COUNTS = true → annot len (counts o') (plug (bnode d b2 (bnode d b1 A0 r B) nr C) c))).
Proof.
  intros Hz Hc. apply wp_when; intros E; [|by rewrite E]. destruct (Hc E) as [Ha Hmax]. pose proof (z_nodup _ _ _ Hz) as Hn.
  destruct (rotate_annot_below len _ _ _ _ _ _ _ _ _ _ Hn Ha) as (Hr & HC & HA & HB).
  destruct (rotation_annots _ _ _ _ _ _ _ _ _ Hmax) as [M1 M2].
  pose proof (proj1 (zrep_focus _ _ _ _ _ _ _) Hz) as Hz1.
  apply wp_bind. eapply wp_mono; [by eapply (update_count_ok o)|]. intros [] o1 ? ->.
  eapply wp_mono; [by eapply (update_count_ok (o <| counts := _ |>) c d b2 (bnode d b1 A0 r B))|]. intros [] o2 ? ->.
  split; [done|]. split; [done|]. intros _. by apply rotate_annot.
Qed.
Lemma rotate_sums_ok o c d b1 A0 r b2 B nr C : zrep (links o) c (bnode d b2 (bnode d b1 A0 r B) nr C) →
  (FEATURE_ASSOC = true → annot asum (assocs o) (plug (bnode d b1 A0 r (bnode d b2 B nr C)) c)) →
  wp (when FEATURE_ASSOC (update_sum r;; update_sum nr)) o (λ _ o' _,
    links o' = links o ∧ counts o' = counts o ∧
    (FEATURE_ASSOC = true → annot asum (assocs o') (plug (bnode d b2 (bnode d b1 A0 r B) nr C) c))).
Proof.
  intros Hz Hc. apply wp_when; intros E; [|by rewrite E]. pose proof (Hc E) as Ha. pose proof (z_nodup _ _ _ Hz) as Hn.
  destruct (rotate_annot_below asum _ _ _ _ _ _ _ _ _ _ Hn Ha) as (Hr & HC & HA & HB).
  pose proof (proj1 (zrep_focus _ _ _ _ _ _ _) Hz) as Hz1.
  apply wp_bind. eapply wp_mono; [by eapply (update_sum_ok o)|]. intros [] o1 ? ->.
  eapply wp_mono; [by eapply (update_sum_ok (o <| assocs := _ |>) c d b2 (bnode d b1 A0 r B))|]. intros [] o2 ? ->.
  split; [done|]. split; [done|]. intros _. by apply rotate_annot.
Qed.

Lemma crotate_ok d o c A0 r b1 B nr b2 C : crep o c (bnode d b1 A0 r (bnode d b2 B nr C)) →
  wp (rotate r d (cpar None c)) o (λ _ o' _, crep o' c (bnode d b2 (bnode d b1 A0 r B) nr C)).
Proof.
  intros [Hz [Hcnt Hsum]]. unfold CAvl_rotate. apply wp_bind, wp_on_links.
  eapply wp_mono; [by apply rotate_links_ok|]. intros n l ? [-> Hz1]. set (o1 := o <| links := l |>).
  apply wp_bind. eapply wp_mono; [by apply (rotate_counts_ok o1 c d b1 A0 r b2 B nr C)|].
  intros [] o2 ? (El & Ea & Hcnt2). eapply wp_mono; [apply (rotate_sums_ok o2 c d b1 A0 r b2 B nr C)|].
  - by rewrite El.
  - by rewrite Ea.
  - intros [] o3 ? (El3 & Ec3 & Hsum3). split; [by rewrite El3, El|]. split; [|done].
    intros E. rewrite Ec3. split; [by apply Hcnt2|]. destruct (Hcnt E) as [_ Hmax].
    by rewrite (elems_plug _ _ c (rotation_elems d b2 b1 b1 b2 A0 r B nr C)).
Qed.

Local Abbreviation rotate_at := (rotate_entry FEATURE_COUNTS FEATURE_ASSOC COUNT_MAX ASSOC_VALUE ASSOC_OPER).
Lemma rotate_entry_ok d o c A0 r b1 B nr b2 C : crep o c (bnode d b1 A0 r (bnode d b2 B nr C)) →
  wp (rotate_at r d) o (λ _ o' _, crep o' c (bnode d b2 (bnode d b1 A0 r B) nr C)).
Proof.
  intros H. unfold rotate_entry. apply wp_bind. eapply wp_entry; [by eapply zrep_load, crep_zrep|].
  rewrite parent_bmk. eapply wp_mono; [by apply crotate_ok|]. done.
Qed.
Lemma set_entry_balance_ok o c d b b' t p u : crep o c (bnode d b t p u) →
  wp (set_entry_balance p b') o (λ _ o' _, crep o' c (bnode d b' t p u)).
Proof.
  intros [Hz [Hc Hs]]. apply wp_on_links. eapply wp_mono; [by eapply set_balance_ok|]. intros [] l ? Hl.
  split; [done|]. split.
  - intros E. destruct (Hc E) as [Ha Hmax]. split; [by eapply annot_balance|].
    by rewrite (elems_plug _ (bnode d b t p u)) by by destruct d.
  - intros E. eapply annot_balance, (Hs E).
Qed.

Local Abbreviation rebalance_at := (rebalance_from FEATURE_COUNTS FEATURE_ASSOC COUNT_MAX ASSOC_VALUE ASSOC_OPER).
Lemma rebalance_from_ok fuel : ∀ o c d b p sib t H δ, (length c < fuel)%nat →
  crep o (Frame d b p sib :: c) t → avl t → cavl H (Frame d b p sib :: c) →
  height t = H + δ → -1 ≤ δ ≤ 1 →
  wp (rebalance_at fuel p d δ) o (λ _ o' _, ∃ t', crep o' [] t' ∧ avl t' ∧
    elems t' = elems (plug t (Frame d b p sib :: c))).
Proof.
  apply (g_rebalance_ok links crep set_entry_balance rotate_at (λ r d n, rotate r d (Some n))).
  - exact crep_zrep.
  - intros *. apply crep_focus.
  - intros *. apply set_entry_balance_ok.
  - intros *. apply rotate_entry_ok.
  - intros *. apply crotate_ok.
Qed.

Lemma rounds_ok o c t : zrep (links o) c t → (length c < S (size (memory (links o))))%nat ∧
  height t ≤ Z.of_nat (S (size (memory (links o)))) ∧ Z.of_nat (length c) + height t ≤ Z.of_nat (size (memory (links o))).
Proof. intros Hz. pose proof (path_fuel _ _ _ Hz). pose proof (height_nonneg t). lia. Qed.

(** ** Walking up

    [I o c t] holds before the step at the node above the subtree [t]. *)
Lemma walk_up_ok (step : ptr → op unit) (I : CAvl A → list frame → tree → Prop) :
  (∀ o c t, I o c t → zrep (links o) c t) →
  (∀ o d b p sib c t, I o (Frame d b p sib :: c) t →
    wp (step p) o (λ _ o' _, links o' = links o ∧ I o' c (bnode d b t p sib))) →
  ∀ fuel o c t, (length c < fuel)%nat → I o c t →
  wp (walk_up fuel step (cpar None c)) o (λ _ o' _, links o' = links o ∧ I o' [] (plug t c)).
Proof.
  intros HI Hstep. induction fuel as [|fuel IH]; intros o c t Hf H; [lia|].
  destruct c as [|[d b p sib] c]; cbn [walk_up cpar]; [by apply wp_ret|].
  apply wp_bind. eapply wp_mono; [by eapply Hstep|]. intros [] o1 ? [El H1].
  apply wp_bind. eapply wp_entry; [by eapply zrep_load, HI|]. rewrite parent_bmk.
  eapply wp_mono; [apply (IH o1 c (bnode d b t p sib)); [cbn in Hf; lia|done]|].
  intros [] o2 ? [El2 H2]. split; [by rewrite El2|done].
Qed.

(** The state of both walks: the subtree [t] carries its annotations, the counts
    above are still those for the entries [l0] in its place, the sums above are
    outdated. *)
Definition walking (l0 : list ptr) o c t : Prop :=
  zrep (links o) c t ∧
  (FEATURE_COUNTS = true → annot len (counts o) t ∧ cannot len (counts o) l0 c ∧
    len (elems (plug t c)) ≤ COUNT_MAX) ∧
  (FEATURE_ASSOC = true → annot asum (assocs o) t ∧ beside asum (assocs o) c).

Lemma walked l0 o t : walking l0 o [] t → crep o [] t.
Proof. intros (Hz & Hc & Hs). split; [done|]. split; [intros E; by destruct (Hc E) as (? & _ & ?)|intros E; by destruct (Hs E)]. Qed.

(** A step sets the count to that of the new entries and recomputes the sum. *)
Definition step_counts (n : Z) (p : ptr) o o' : Prop :=
  links o' = links o ∧ assocs o' = assocs o ∧ (FEATURE_COUNTS = true → counts o' = <[p := n]> (counts o)).

Lemma step_ok (count_step : op unit) l0 o d b p sib c t : walking l0 o (Frame d b p sib :: c) t →
  (FEATURE_COUNTS = true → counts o !! p = Some (len (around d l0 p sib)) →
    0 ≤ len (around d (elems t) p sib) ≤ COUNT_MAX →
    wp count_step o (λ _ o' _, step_counts (len (around d (elems t) p sib)) p o o')) →
  wp (when FEATURE_COUNTS count_step;; when FEATURE_ASSOC (update_sum p)) o (λ _ o' _,
    links o' = links o ∧ walking (around d l0 p sib) o' c (bnode d b t p sib) ∧
    (FEATURE_COUNTS = true → counts o' = <[p := len (around d (elems t) p sib)]> (counts o))).
Proof.
  intros (Hz & Hc & Hs) Hstep. pose proof Hz as Hz1%zrep_focus. pose proof (z_nodup _ _ _ Hz1) as Hn.
  apply distinct_node in Hn as (Npt & Nps & Npc & _). apply wp_bind.
  apply (wp_mono _ _ (λ _ o' _, step_counts (len (around d (elems t) p sib)) p o o')).
  { apply wp_when; intros E; [|by split_and!; [..|rewrite E]]. destruct (Hc E) as (Ht & Hcs & Hmax).
    apply Hstep; [done|by destruct Hcs|]. cbn [plug] in Hmax.
    rewrite elems_plug_split, elems_around, !len_app in Hmax.
    pose proof (len_nonneg (lefts c)). pose proof (len_nonneg (rights c)).
    pose proof (len_nonneg (around d (elems t) p sib)). lia. }
  intros [] o1 ? (El & Ea & Ec). 
  assert (FEATURE_COUNTS = true → annot len (counts o1) (bnode d b t p sib) ∧
    cannot len (counts o1) (around d l0 p sib) c ∧ len (elems (plug (bnode d b t p sib) c)) ≤ COUNT_MAX) as Hcnt.
  { intros E. destruct (Hc E) as (Ht & (_ & Hsib & Hcs) & Hmax). rewrite (Ec E). split_and!; [|by apply cannot_insert|done].
    apply annot_bnode. rewrite lookup_insert_eq. split_and!; [done|by apply annot_insert..]. }
  apply wp_when; intros E.
  - destruct (Hs E) as (Ht & Hsib & Hb). eapply wp_mono; [eapply (update_sum_ok o1 c d b t); rewrite ?El, ?Ea; done|].
    intros [] o2 ? ->. split; [done|]. split; [|exact Ec]. split; [by rewrite <- El in Hz1|]. split; [exact Hcnt|].
    intros _. cbn. rewrite Ea. split; [|by apply beside_insert]. apply annot_bnode. rewrite lookup_insert_eq.
    split_and!; [done|by apply annot_insert..].
  - split; [done|]. split; [|exact Ec]. split; [by rewrite El|]. split; [done|]. by rewrite E.
Qed.

(** ** Insertion *)

Local Abbreviation step_insert := (insert_step FEATURE_COUNTS FEATURE_ASSOC COUNT_MAX ASSOC_VALUE ASSOC_OPER).
Lemma insert_step_ok l0 o d b p sib c t : walking l0 o (Frame d b p sib :: c) t → len (elems t) = len l0 + 1 →
  wp (step_insert p) o (λ _ o' _, links o' = links o ∧ walking (around d l0 p sib) o' c (bnode d b t p sib)).
Proof.
  intros Hw Hl. eapply wp_mono; [apply (step_ok _ l0); [done|]|by intros [] ?? (? & ? & _)]. intros _ Ep Hmax. apply wp_bind. unfold CAvl_count, wp at 1. rewrite Ep.
  apply wp_modify. rewrite !len_around in *. rewrite cast_ok by lia. split; [done|]. split; [done|]. intros _. cbn.
  f_equal; lia.
Qed.

Lemma walk_insert_ok fuel o c t l0 : (length c < fuel)%nat → walking l0 o c t → len (elems t) = len l0 + 1 →
  wp (walk_up fuel step_insert (cpar None c)) o (λ _ o' _, crep o' [] (plug t c)).
Proof.
  intros Hf Hw Hl.
  eapply wp_mono; [apply (walk_up_ok _ (λ o c t, ∃ l0, walking l0 o c t ∧ len (elems t) = len l0 + 1)); try done|].
  - by intros ??? (? & (? & _) & _).
  - intros o1 d b p sib c1 t1 (l1 & Hw1 & Hl1). eapply wp_mono; [by apply (insert_step_ok l1)|].
    intros [] o2 ? [El H]. split; [done|]. eexists. split; [done|]. rewrite elems_around, !len_around. lia.
  - by exists l0.
  - intros [] o1 ? [_ (l1 & H & _)]. by eapply walked.
Qed.

(** Without counts and sums nothing is left to do. *)
Lemma walk_when (m : op unit) l0 o c t : walking l0 o c t →
  (FEATURE_COUNTS || FEATURE_ASSOC = true → wp m o (λ _ o' _, crep o' [] (plug t c))) →
  wp (when (FEATURE_COUNTS || FEATURE_ASSOC) m) o (λ _ o' _, crep o' [] (plug t c)).
Proof.
  intros (Hz & _ & _) Hm. apply wp_when; [done|]. intros [E1 E2]%orb_false_iff. split; [by apply zrep_plug in Hz|].
  split; [by rewrite E1|by rewrite E2].
Qed.

(** A new leaf [node]: the writes to its count and sum. *)
Lemma leaf_annots_ok l o c node : zrep (links o) c (Node 0 Leaf node Leaf) →
  (FEATURE_COUNTS = true → cannot len (counts o) l c ∧ len (celems c) + 1 ≤ COUNT_MAX) →
  (FEATURE_ASSOC = true → beside asum (assocs o) c) →
  wp (when FEATURE_COUNTS (set_count node 1);; when FEATURE_ASSOC (set_assoc node (ASSOC_VALUE node))) o
    (λ _ o' _, links o' = links o ∧ walking l o' c (Node 0 Leaf node Leaf)).
Proof.
  intros Hz Hc Hs. pose proof (z_nodup _ _ _ Hz) as Hn.
  apply (distinct_node _ false 0 Leaf node Leaf) in Hn as (_ & _ & Hn & _).
  apply wp_bind. apply (wp_mono _ _ (λ _ o' _, links o' = links o ∧ assocs o' = assocs o ∧
    (FEATURE_COUNTS = true → counts o' = <[node := 1]> (counts o)))).
  { apply wp_when; intros E; [by apply wp_modify|by rewrite E]. }
  intros [] o1 ? (El & Ea & Ec).
  assert (FEATURE_COUNTS = true → annot len (counts o1) (Node 0 Leaf node Leaf) ∧ cannot len (counts o1) l c ∧
    len (elems (plug (Node 0 Leaf node Leaf) c)) ≤ COUNT_MAX) as Hcnt.
  { intros E. rewrite (Ec E). destruct (Hc E) as [H1 H2]. split_and!.
    - cbn. by rewrite lookup_insert_eq.
    - by apply cannot_insert.
    - rewrite elems_plug_split. unfold len in *. rewrite celems_sides, length_app in H2. rewrite !length_app. cbn. lia. }
  apply wp_when; intros E.
  - apply wp_modify. split; [done|]. split; [by rewrite <- El in Hz|]. split; [exact Hcnt|]. intros _. cbn.
    rewrite lookup_insert_eq, Ea. split; [|by apply beside_insert; auto].
    split; [|done]. cbn. by rewrite (oper_zero_r _ _ (Hlaws E)).
  - split; [done|]. split; [by rewrite El|]. split; [done|]. by rewrite E.
Qed.

Local Abbreviation do_insert_below := (insert_below FEATURE_COUNTS FEATURE_ASSOC COUNT_MAX ASSOC_VALUE ASSOC_OPER).
Lemma insert_below_ok o d b p sib c node : let c1 := Frame d b p sib :: c in
  crep o c1 Leaf → avl (plug Leaf c1) → node ∉ celems c1 →
  (FEATURE_COUNTS = true → len (elems (plug Leaf c1)) < COUNT_MAX) →
  wp (do_insert_below p d node) o (λ _ o' _, ∃ t, crep o' [] t ∧ avl t ∧ elems t = lefts c1 ++ node :: rights c1).
Proof.
  intros c1 [Hz [Hc Hs]] [_ Ha]%avl_plug_inv Hnode Hmax. unfold insert_below.
  apply wp_bind, wp_on_links, wp_bind. eapply wp_mono; [by apply (attach_ok _ _ _ _ _ _ node Hz)|]. intros [] l1 ? H1.
  eapply wp_mono; [exact H1|]. intros [] l2 ? H2. clear H1 l1. set (o1 := o <| links := l2 |>).
  apply wp_bind. eapply wp_mono; [apply (leaf_annots_ok [] o1 c1 node H2)|].
  - intros E. destruct (Hc E) as [Hca _]. apply annot_plug in Hca as [_ Hca]. split; [exact Hca|].
    specialize (Hmax E). unfold len in *. rewrite elems_hole in Hmax. by rewrite celems_sides; lia.
  - intros E. specialize (Hs E). apply annot_plug in Hs as [_ Hs]. by eapply cannot_beside.
  - intros [] o2 ? [El Hw]. apply wp_bind.
    eapply wp_mono; [apply (walk_when _ [] o2 c1 (Node 0 Leaf node Leaf) Hw); intros _|].
    + apply wp_bind, wp_rounds. destruct Hw as (Hz2 & Hw). destruct (rounds_ok _ _ _ Hz2) as [Hf _].
      by apply (walk_insert_ok _ _ c1 (Node 0 Leaf node Leaf) []).
    + intros [] o3 ? H3%crep_plug. unfold CAvl_rebalance. apply wp_bind, wp_rounds.
      destruct (rounds_ok _ _ _ (crep_zrep _ _ _ H3)) as [Hf _].
      eapply wp_mono; [eapply (rebalance_from_ok _ o3 c d b p sib _ 0 1); try done; cbn in Hf; lia|].
      intros [] o4 ? (t & Ht & Hat & Et). exists t. split_and!; [done..|]. by rewrite Et, elems_plug_split.
Qed.

Local Abbreviation do_insert_root := (insert_root FEATURE_COUNTS FEATURE_ASSOC ASSOC_VALUE).
Lemma insert_root_ok o node : 1 ≤ COUNT_MAX ∨ FEATURE_COUNTS = false →
  wp (do_insert_root node) o (λ _ o' _, crep o' [] (Node 0 Leaf node Leaf)).
Proof.
  intros Hmax. unfold insert_root. apply wp_bind, wp_on_links, wp_bind, wp_set_root, wp_store.
  eapply wp_mono; [apply (leaf_annots_ok [] _ [] node)|].
  - constructor; [done|by repeat constructor; apply not_elem_of_nil|]. repeat constructor. cbn. by rewrite lookup_insert_eq.
  - intros E. cbn. destruct Hmax as [H|H]; [|congruence]. done.
  - done.
  - intros [] o1 ? [_ H]. by eapply walked.
Qed.

(** ** Removal *)

(** The counts above do not depend on which entries are below. *)
Lemma cannot_len m l l' c : len l = len l' → cannot len m l c → cannot len m l' c.
Proof.
  revert l l'. induction c as [|[d b p sib] c IH]; intros l l' E; [done|]. cbn.
  assert (len (around d l p sib) = len (around d l' p sib)) as E1 by (rewrite !len_around; lia).
  rewrite E1. intros (? & ? & ?). split_and!; [done..|]. by apply (IH (around d l p sib)).
Qed.
Lemma beside_rename {V} (f : list ptr → V) m c1 d b p q sib c :
  beside f m (c1 ++ Frame d b p sib :: c) → beside f m (c1 ++ Frame d b q sib :: c).
Proof. induction c1 as [|[] c1 IH]; cbn; [done|]. naive_solver. Qed.

(** A node [node] with at most one subtree [t], about to be replaced by it. *)
Definition detaching o c d b t node : Prop :=
  zrep (links o) c (bnode d b t node Leaf) ∧
  (FEATURE_COUNTS = true → annot len (counts o) t ∧ counts o !! node = Some (len (elems t) + 1) ∧
    cannot len (counts o) (node :: elems t) c ∧ len (elems (plug (bnode d b t node Leaf) c)) ≤ COUNT_MAX) ∧
  (FEATURE_ASSOC = true → annot asum (assocs o) t ∧ beside asum (assocs o) c).

Lemma crep_detaching o c d b t node : crep o c (bnode d b t node Leaf) → detaching o c d b t node.
Proof.
  intros [Hz [Hc Hs]]. split; [done|]. split.
  - intros E. destruct (Hc E) as [Ha Hmax]. apply annot_plug in Ha as [Ha Hca].
    apply annot_bnode in Ha as (Hp & Ht & _). rewrite len_around in Hp. split_and!; [done| | |done].
    + rewrite Hp. f_equal. change (len (elems Leaf)) with 0. lia.
    + eapply cannot_len; [|exact Hca]. rewrite elems_around, len_around, len_cons. change (len (elems Leaf)) with 0. lia.
  - intros E. specialize (Hs E). apply annot_plug in Hs as [Ha Hca]. apply annot_bnode in Ha as (_ & ? & _).
    split; [done|]. by eapply cannot_beside.
Qed.

Local Abbreviation step_replace := (replace_step FEATURE_COUNTS FEATURE_ASSOC COUNT_MAX ASSOC_VALUE ASSOC_OPER).
(** The counts the steps subtract and add, [k + 1] and [k]. *)
Definition replacing (dest : ptr) (n : option ptr) (k : Z) o c : Prop :=
  FEATURE_COUNTS = true → counts o !! dest = Some (k + 1) ∧ (dest ∉ celems c) ∧ 0 ≤ k ∧
    match n with Some q => counts o !! q = Some k ∧ q ∉ celems c | None => k = 0 end.

Lemma replace_step_ok dest n k l0 o d b p sib c t : walking l0 o (Frame d b p sib :: c) t → len l0 = len (elems t) + 1 →
  k ≤ len (elems t) → replacing dest n k o (Frame d b p sib :: c) →
  wp (step_replace dest n p) o (λ _ o' _, links o' = links o ∧ walking (around d l0 p sib) o' c (bnode d b t p sib) ∧
    (FEATURE_COUNTS = true → counts o' = <[p := len (around d (elems t) p sib)]> (counts o))).
Proof.
  intros Hw Hl Hk Hr. apply (step_ok _ l0); [done|]. intros E Ep Hmax. destruct (Hr E) as (Ed & Nd & Hk0 & Hn).
  cbn in Nd. apply not_elem_cons in Nd as [Nd _]. rewrite !len_around in *. pose proof (len_nonneg (elems sib)).
  apply wp_bind. unfold CAvl_count at 1, wp at 1. rewrite Ep. apply wp_bind. unfold CAvl_count at 1, wp at 1. rewrite Ed.
  apply wp_bind, wp_assert; [apply Z.leb_le; lia|]. rewrite cast_ok by lia. apply wp_bind, wp_modify.
  destruct n as [q|].
  - destruct Hn as [Eq Nq]. cbn in Nq. apply not_elem_cons in Nq as [Nq _]. apply wp_bind. unfold CAvl_count at 1, wp at 1.
    cbn [counts upd]. rewrite lookup_insert_ne, Eq by done.
    apply wp_bind. unfold CAvl_count at 1, wp at 1. cbn [counts upd]. rewrite lookup_insert_eq.
    apply wp_bind, wp_assert; [apply Z.leb_le; lia|]. rewrite cast_ok by lia. apply wp_modify.
    split; [done|]. split; [done|]. intros _. cbn. rewrite insert_insert_eq. f_equal; lia.
  - apply wp_ret. split; [done|]. split; [done|]. intros _. cbn. f_equal; lia.
Qed.
Lemma replacing_step dest n k o o' d b p sib c v : replacing dest n k o (Frame d b p sib :: c) →
  (FEATURE_COUNTS = true → counts o' = <[p := v]> (counts o)) → replacing dest n k o' c.
Proof.
  intros Hr Ec E. destruct (Hr E) as (Ed & Nd & Hk & Hn). rewrite (Ec E). cbn in Nd.
  apply not_elem_cons in Nd as [? [_ ?]%not_elem_app]. rewrite lookup_insert_ne by done. split_and!; try done.
  destruct n as [q|]; [|done]. destruct Hn as [Eq Nq]. cbn in Nq. apply not_elem_cons in Nq as [? [_ ?]%not_elem_app].
  by rewrite lookup_insert_ne.
Qed.

Local Abbreviation replace_subtree := (CAvl_replace_subtree_fix_assoc FEATURE_COUNTS FEATURE_ASSOC COUNT_MAX ASSOC_VALUE ASSOC_OPER).
Lemma replace_subtree_fix_ok o c d b t node : detaching o c d b t node →
  wp (replace_subtree node (tptr t) (cpar None c)) o (λ _ o' _, crep o' c t).
Proof.
  intros (Hz & Hc & Hs). pose proof (z_nodup _ _ _ Hz) as Hn. apply distinct_node in Hn as (_ & _ & Nc & Hn & _).
  unfold CAvl_replace_subtree_fix_assoc. apply wp_bind, wp_on_links.
  eapply wp_mono; [by eapply replace_links_ok|]. intros [] l ? Hl. set (o1 := o <| links := l |>).
  assert (walking (node :: elems t) o1 c t) as Hw.
  { split; [done|]. split; [|exact Hs]. intros E. destruct (Hc E) as (Ht & _ & Hca & Hmax). split; [done|].
    split; [done|]. revert Hmax. rewrite !elems_plug_split, elems_around, !len_app, len_around.
    change (len (elems Leaf)) with 0. lia. }
  assert (replacing node (tptr t) (len (elems t)) o1 c) as Hr.
  { intros E. destruct (Hc E) as (Ht & Enode & _). split_and!; [done|done|apply len_nonneg|].
    apply annot_top in Ht. destruct t as [|bt tl q tr]; cbn [tptr] in *; [done|]. split; [done|].
    apply (distinct_node _ false) in Hn as (_ & _ & ? & _). done. }
  eapply wp_mono; [apply (walk_when _ (node :: elems t)); [exact Hw|intros _]|by intros [] o2 ? H%crep_plug].
  apply wp_bind, wp_rounds. destruct (rounds_ok o1 _ _ Hl) as [Hf _].
  eapply wp_mono; [eapply (walk_up_ok _ (λ o' c' t', ∃ l0, walking l0 o' c' t' ∧ len l0 = len (elems t') + 1 ∧
    len (elems t) ≤ len (elems t') ∧ replacing node (tptr t) (len (elems t)) o' c')); [| |exact Hf|]|].
  - by intros ??? (? & (? & _) & _).
  - intros o2 d2 b2 p sib c2 t2 (l0 & Hw2 & El & Hk & Hr2).
    eapply wp_mono; [by apply (replace_step_ok _ _ (len (elems t)) l0)|]. intros [] o3 ? (El3 & Hw3 & Ec3).
    split; [done|]. eexists. split; [exact Hw3|]. rewrite elems_around, !len_around.
    pose proof (len_nonneg (elems sib)). split_and!; [lia..|]. by eapply replacing_step.
  - exists (node :: elems t). rewrite len_cons. split_and!; [done|lia..|done].
  - intros [] o2 ? [_ (l0 & H & _)]. by eapply walked.
Qed.

(** After the swap with the greatest entry on the left. *)
Local Abbreviation swap_entries := (CAvl_swap_for_remove FEATURE_COUNTS).
Lemma cannot_swap m (l : list ptr) c1 b n1 n2 r c k : n1 ≠ n2 →
  (n1 ∉ celems c1) ∧ (n2 ∉ celems c1) → (n1 ∉ elems r ++ celems c) → (n2 ∉ elems r ++ celems c) →
  cannot len m l (c1 ++ Frame false b n1 r :: c) → ∃ v, m !! n1 = Some v ∧
  cannot len (<[n2 := v]> (<[n1 := k]> m)) l (c1 ++ Frame false b n2 r :: c).
Proof.
  intros Hne. revert l. induction c1 as [|[d' b' p sib] c1 IH]; intros l [N1 N2] N3 N4; cbn [app cannot].
  - apply not_elem_app in N3 as [? ?], N4 as [? ?]. intros (E & Hr & Hc). eexists. split; [done|].
    rewrite lookup_insert_eq. split_and!; [by rewrite !len_around| |].
    + by apply annot_insert; [|apply annot_insert].
    + apply cannot_insert; [done|]. apply cannot_insert; [done|]. eapply cannot_len; [|exact Hc]. by rewrite !len_around.
  - cbn in N1, N2. apply not_elem_cons in N1 as [? [? ?]%not_elem_app], N2 as [? [? ?]%not_elem_app].
    intros (E & Hr & Hc). destruct (IH _ (conj H1 H4) N3 N4 Hc) as (v & Ev & Hc'). exists v. split; [done|].
    rewrite !lookup_insert_ne by done. split_and!; [done| |done].
    by apply annot_insert; [|apply annot_insert].
Qed.

Lemma swap_for_remove_ok o c2 b1 n1 n2 br rl rp rr c b2 l2 : spine c2 →
  let R := Node br rl rp rr in let c1 := c2 ++ Frame false b1 n1 R :: c in
  crep o c1 (Node b2 l2 n2 Leaf) →
  wp (swap_entries n1 n2 (cpar None c) (cpar None c1)) o
    (λ _ o' _, detaching o' (c2 ++ Frame false b1 n2 R :: c) false b2 l2 n1).
Proof.
  intros Hsp R c1 [Hz [Hc Hs]]. unfold CAvl_swap_for_remove. apply wp_bind, wp_on_links.
  eapply wp_mono; [by apply swap_links_ok|]. intros [] l ? Hl. set (o1 := o <| links := l |>).
  assert (FEATURE_ASSOC = true → annot asum (assocs o1) l2 ∧ beside asum (assocs o1) (c2 ++ Frame false b1 n2 R :: c)) as Hs1.
  { intros E. specialize (Hs E). apply annot_plug in Hs as [Ha Hca]. split; [by destruct Ha as (_ & ? & _)|].
    by eapply beside_rename, cannot_beside. }
  apply wp_when; intros E; [|by split; [done|]; split; [by rewrite E|]].
  destruct (Hc E) as [Ha Hmax]. apply annot_plug in Ha as [(E2 & Ha2 & _) Hca].
  pose proof (z_nodup _ _ _ Hz) as Hn. apply (distinct_node _ false) in Hn as (N1 & _ & N2 & _).
  pose proof (z_nodup _ _ _ Hl) as Hn'. apply (distinct_node _ false) in Hn' as (N3 & _ & N4 & _).
  unfold c1 in N2. rewrite celems_app, not_elem_app in N2, N4. cbn in N2, N4. rewrite !not_elem_cons in N2, N4.
  destruct N2 as (? & ? & ?), N4 as (? & ? & ?).
  destruct (cannot_swap (counts o) (elems (Node b2 l2 n2 Leaf)) c2 b1 n1 n2 R c (len (elems l2) + 1))
    as (v & Ev & Hca'); [done|done|done|done|exact Hca|].
  assert (counts o !! n2 = Some (len (elems l2) + 1)) as E2'.
  { rewrite E2. f_equal. cbn. by rewrite len_app. }
  apply wp_bind. unfold CAvl_count at 1, wp at 1. change (counts o1) with (counts o). rewrite Ev.
  apply wp_bind. unfold CAvl_count at 1, wp at 1. change (counts o1) with (counts o). rewrite E2'.
  apply wp_bind, wp_modify, wp_modify. split; [exact Hl|]. split; [|exact Hs1]. intros _.
  change (counts _) with (<[n2 := v]> (<[n1 := len (elems l2) + 1]> (counts o))). split_and!.
  - by apply annot_insert; [|apply annot_insert].
  - by rewrite lookup_insert_ne, lookup_insert_eq.
  - eapply cannot_len; [|exact Hca']. cbn. rewrite len_app, !len_cons. change (len (@nil ptr)) with 0. lia.
  - revert Hmax. unfold c1. rewrite !plug_app, !elems_plug_split. cbn [bnode lefts rights elems].
    repeat (rewrite len_app || rewrite len_cons). lia.
Qed.

Local Abbreviation rebalance_entry := (CAvl_rebalance FEATURE_COUNTS FEATURE_ASSOC COUNT_MAX ASSOC_VALUE ASSOC_OPER).
(** The end of the removal: the node has at most one subtree. *)
Lemma cdetach_ok o c d b t node : detaching o c d b t node → avl (plug (bnode d b t node Leaf) c) →
  wp (nn ← entry node;
      ASSERT (bool_decide (link0 nn = None) || bool_decide (link1 nn = None));;
      let child := match link0 nn with Some l => Some l | None => link1 nn end in
      match parent nn with
      | Some p =>
          pn ← entry p;
          let side := bool_decide (Some node = link1 pn) in
          replace_subtree node child (Some p);;
          rebalance_entry p side (-1)
      | None => replace_subtree node child None
      end) o (λ _ o' _, ∃ t', crep o' [] t' ∧ avl t' ∧ elems t' = elems (plug t c)).
Proof.
  intros Hd Ha. pose proof (proj1 Hd) as Hz. apply avl_plug_inv in Ha as [Ha Hc]. apply avl_bnode in Ha as (_ & _ & Ha & _).
  rewrite height_bnode in Hc. cbn [height] in Hc. rewrite Z.max_l in Hc by apply height_nonneg.
  pose proof (replace_subtree_fix_ok _ _ _ _ _ _ Hd) as Hrep.
  apply wp_bind. eapply wp_entry; [by eapply zrep_load|]. cbn [tptr].
  apply wp_bind, wp_assert; [by destruct d; cbn; rewrite ?orb_true_r|].
  assert ((match link0 (bmk d (cpar None c) (tptr t) None b) with Some l => Some l
    | None => link1 (bmk d (cpar None c) (tptr t) None b) end) = tptr t) as -> by by destruct d, t.
  rewrite parent_bmk. cbv zeta. destruct c as [|[d' b' pp sib] c]; cbn [cpar] in *.
  - eapply wp_mono; [exact Hrep|]. intros [] o' ? H. exists t. by split_and!.
  - destruct (side_of _ _ _ node _ _ _ _ Hz) as (n & En & Es); [apply tptr_bnode|]. specialize (Es true).
    apply wp_bind. eapply wp_entry; [done|]. cbn [link] in Es. rewrite Es, side_true. apply wp_bind.
    eapply wp_mono; [exact Hrep|]. intros [] o1 ? H1. destruct (rounds_ok _ _ _ (crep_zrep _ _ _ H1)) as [Hf _].
    unfold CAvl_rebalance. apply wp_bind, wp_rounds.
    eapply rebalance_from_ok; [cbn in Hf; lia|exact H1|done|exact Hc|lia|lia].
Qed.

Local Abbreviation remove := (CAvl_Remove FEATURE_COUNTS FEATURE_ASSOC COUNT_MAX ASSOC_VALUE ASSOC_OPER).
Lemma remove_entry_ok o c b L node R : crep o c (Node b L node R) → avl (plug (Node b L node R) c) →
  wp (remove node) o (λ _ o' _, ∃ t', crep o' [] t' ∧ avl t' ∧
    elems t' = (lefts c ++ elems L) ++ (elems R ++ rights c)).
Proof.
  intros Hr Ht. pose proof (crep_zrep _ _ _ Hr) as Hz. unfold CAvl_Remove. apply wp_bind, wp_get.
  apply wp_bind, wp_assert.
  { apply bool_decide_eq_true_2. rewrite (z_root _ _ _ Hz). cbn [tptr]. clear. generalize node.
    induction c as [|[] c IH]; intros n; cbn; [by eexists|apply IH]. }
  apply wp_bind. eapply wp_entry; [by apply (zrep_load _ _ false) in Hz|]. cbn [bmk link0 link1].
  destruct L as [|bl ll lp lr] eqn:EL; [|destruct R as [|br rl rp rr] eqn:ER].
  - cbn [tptr]. apply wp_bind, wp_ret.
    eapply wp_mono; [apply (cdetach_ok o c true b R); [by apply crep_detaching|exact Ht]|].
    intros [] o' ? (t' & Hz' & Ha' & E). exists t'. split_and!; [done..|].
    rewrite E, elems_plug_split. cbn. by rewrite app_nil_r.
  - cbn [tptr]. apply wp_bind, wp_ret.
    eapply wp_mono; [apply (cdetach_ok o c false b (Node bl ll lp lr)); [by apply crep_detaching|exact Ht]|].
    intros [] o' ? (t' & Hz' & Ha' & E). exists t'. split_and!; [done..|].
    rewrite E, elems_plug_split. by rewrite app_assoc.
  - cbn [tptr]. rewrite <- EL in *. destruct (max_split L) as (c2 & b2 & l2 & m & Em & Hsp); [by subst|].
    pose proof (proj1 (zrep_focus _ _ false _ _ _ _) Hz) as HzL. destruct (rounds_ok _ _ _ HzL) as (_ & Hf & _).
    apply wp_bind, wp_bind. unfold CAvl_subtree_max. apply wp_bind, wp_rounds.
    apply (wp_reads _ _ (λ x, x = m)).
    { eapply wp_mono; [eapply (last_link_ok true _ (links o) _ L lp); [exact HzL|by rewrite EL|exact Hf]|].
      intros x l' ? [Ex ->]. split; [|done]. rewrite Em, elems_plug_split, (spine_rights _ Hsp) in Ex. cbn in Ex.
      rewrite app_nil_r, app_assoc, last_snoc in Ex. congruence. }
    intros x ->. pose proof (proj1 (crep_focus _ _ false _ _ _ _) Hr) as HrL. rewrite Em in HrL.
    apply crep_plug in HrL. rewrite <- plug_app in HrL. apply crep_plug in HrL.
    apply wp_bind. eapply wp_entry; [by apply (zrep_load _ _ false) in Hz|].
    apply wp_bind. eapply wp_entry; [by apply crep_zrep, (zrep_load _ _ false) in HrL|]. rewrite !parent_bmk.
    eapply wp_mono; [by apply swap_for_remove_ok|]. intros [] o1 ? H1.
    eapply wp_mono; [apply (cdetach_ok o1 (c2 ++ Frame false b m (Node br rl rp rr) :: c) false b2 l2); [exact H1|]|].
    + rewrite Em in Ht. change (avl (plug (plug (Node b2 l2 m Leaf) c2) (Frame false b node (Node br rl rp rr) :: c))) in Ht.
      rewrite <- plug_app in Ht. apply avl_plug_inv in Ht as [Ht1 Ht2].
      apply avl_plug; [exact Ht1|]. by eapply cavl_rename.
    + intros [] o2 ? (t' & Hz' & Ha' & E). exists t'. split_and!; [done|done|].
      rewrite E, Em, plug_app. cbn. rewrite !elems_plug_split. cbn. rewrite ?elems_plug_split.
      rewrite (spine_rights _ Hsp). cbn. rewrite <- !app_assoc. cbn. by rewrite <- ?app_assoc.
Qed.
End facts.
End CAvlFacts.
