(* ===== verification/CAvlList.v ===== *)
(** The tree of structure/CAvl_impl.h as a list of its entries: by position, where
    sizes are kept, and by order, with the functions that search in it. *)
From Stdlib Require Import Sorting.Sorted.
From S2P Require Import Prelude TreeInterface BAVL BAVLFacts CAvl CAvlLinks CAvlFacts.
Import BAVLCode BAVLTree BAVLFacts CAvlCode CAvlLinks CAvlAnnot CAvlFacts.

Module CAvlList.

Section facts.
Context (FEATURE_COUNTS FEATURE_ASSOC : bool) (COUNT_MAX : Z).
Context {A : Type} `{!EqDecision A} (ASSOC_ZERO : A) (ASSOC_VALUE : ptr → A) (ASSOC_OPER : A → A → A).
Context (Hlaws : FEATURE_ASSOC = true → assoc_laws ASSOC_ZERO ASSOC_OPER).
Implicit Types (o : CAvl A) (c : list frame) (t : tree).

Local Abbreviation op := (prog (CAvl A) Empty_set).
Local Abbreviation crep := (crep FEATURE_COUNTS FEATURE_ASSOC COUNT_MAX ASSOC_ZERO ASSOC_VALUE ASSOC_OPER).
Local Abbreviation asum := (asum ASSOC_ZERO ASSOC_VALUE ASSOC_OPER).

(** The tree has the entries [l], from left to right. *)
Definition clist o (l : list ptr) : Prop := ∃ t, crep o [] t ∧ avl t ∧ elems t = l.

Lemma clist_nodup o l : clist o l → NoDup l.
Proof.
  intros (t & [[_ Hn _] _] & _ & <-). unfold distinct in Hn. cbn in Hn. by rewrite app_nil_r in Hn.
Qed.
Lemma clist_root o l : clist o l → l ≠ [] → is_Some (root (links o)).
Proof. intros (t & [Hz _] & _ & <-) Hl. rewrite (root_tptr _ _ Hz). destruct t; [done|by eexists]. Qed.

(** Where an entry is. *)
Lemma clist_at o l1 n l2 : clist o (l1 ++ n :: l2) → ∃ c b L R, crep o c (Node b L n R) ∧
  avl (plug (Node b L n R) c) ∧ l1 = lefts c ++ elems L ∧ l2 = elems R ++ rights c.
Proof.
  intros Hl. pose proof (clist_nodup _ _ Hl) as Hnd. destruct Hl as (t & Hr & Ha & El).
  destruct (find_node t n) as (c & b & L & R & ->); [rewrite El; set_solver|].
  rewrite elems_plug_split in El. cbn in El. rewrite <- app_assoc, app_assoc in El. cbn in El.
  rewrite <- El in Hnd. destruct (nodup_middle _ _ _ _ _ Hnd El) as [<- <-].
  exists c, b, L, R. split_and!; try done. by apply crep_plug.
Qed.

(** The context of a hole has its sizes and sums. *)
Lemma crep_counts o c t : FEATURE_COUNTS = true → crep o c t →
  annot len (counts o) t ∧ cannot len (counts o) (elems t) c ∧
  len (lefts c) + len (elems t) + len (rights c) ≤ COUNT_MAX.
Proof.
  intros E [_ [Hc _]]. destruct (Hc E) as [Ha Hmax]. apply annot_plug in Ha as [? ?]. split_and!; [done..|].
  rewrite elems_plug_split, !len_app in Hmax. lia.
Qed.
Lemma crep_sums o c t : FEATURE_ASSOC = true → crep o c t →
  annot asum (assocs o) t ∧ cannot asum (assocs o) (elems t) c.
Proof. intros E [_ [_ Hs]]. by specialize (Hs E); apply annot_plug in Hs. Qed.

Lemma wp_node o c b L p R Q : crep o c (Node b L p R) → Q (MkNode (cpar None c) (tptr L) (tptr R) b) o [] →
  wp (entry p) o Q.
Proof. intros [Hz _]. apply wp_entry. by apply (zrep_load _ _ false) in Hz. Qed.
Lemma crep_down o c b L p R : crep o c (Node b L p R) →
  crep o (Frame false b p R :: c) L ∧ crep o (Frame true b p L :: c) R.
Proof.
  intros Hr. split; [by apply (crep_focus _ _ _ _ _ _ _ _ false)|by apply (crep_focus _ _ _ _ _ _ _ _ true)].
Qed.
Lemma wp_CAvl_count p n o Q : counts o !! p = Some n → Q n o [] → wp (CAvl_count p) o Q.
Proof. intros E HQ. unfold wp, CAvl_count. by rewrite E. Qed.
Lemma wp_CAvl_assoc p a o Q : assocs o !! p = Some a → Q a o [] → wp (CAvl_assoc p) o Q.
Proof. intros E HQ. unfold wp, CAvl_assoc. by rewrite E. Qed.

Lemma root_crep o l : clist o l → ∃ t, crep o [] t ∧ avl t ∧ elems t = l ∧ root (links o) = tptr t.
Proof. intros (t & Hr & Ha & El). exists t. split_and!; try done. apply root_tptr, Hr. Qed.

(** ** Removal and the ends *)

Lemma list_remove_ok o l1 n l2 : clist o (l1 ++ n :: l2) →
  wp (CAvl_Remove FEATURE_COUNTS FEATURE_ASSOC COUNT_MAX ASSOC_VALUE ASSOC_OPER n) o
    (λ _ o' _, clist o' (l1 ++ l2)).
Proof.
  intros (c & b & L & R & Hr & Ha & -> & ->)%clist_at.
  eapply wp_mono; [by eapply remove_entry_ok|]. intros [] o' ? (t' & ? & ? & ?). by exists t'.
Qed.

Lemma list_first_ok o l : clist o l → wp CAvl_GetFirst o (λ r o' _, r = head l ∧ o' = o).
Proof.
  intros (t & Hr & _ & <- & Er)%root_crep. unfold CAvl_GetFirst. apply wp_bind, wp_get. rewrite Er.
  destruct (tptr t) as [p|] eqn:Ep; [|destruct t; [by apply wp_ret|done]].
  apply wp_bind. unfold CAvl_subtree_min. apply wp_bind, wp_rounds.
  destruct (rounds_ok _ _ _ (proj1 Hr)) as (_ & Hf & _).
  eapply (wp_reads _ _ (λ m, Some m = head (elems t))); [by eapply (last_link_ok false), Hf; [apply Hr|]|].
  intros m <-. by apply wp_ret.
Qed.
Lemma list_last_ok o l : clist o l → wp CAvl_GetLast o (λ r o' _, r = last l ∧ o' = o).
Proof.
  intros (t & Hr & _ & <- & Er)%root_crep. unfold CAvl_GetLast. apply wp_bind, wp_get. rewrite Er.
  destruct (tptr t) as [p|] eqn:Ep; [|destruct t; [by apply wp_ret|done]].
  apply wp_bind. unfold CAvl_subtree_max. apply wp_bind, wp_rounds.
  destruct (rounds_ok _ _ _ (proj1 Hr)) as (_ & Hf & _).
  eapply (wp_reads _ _ (λ m, Some m = last (elems t))); [by eapply (last_link_ok true), Hf; [apply Hr|]|].
  intros m <-. by apply wp_ret.
Qed.

Lemma list_next_ok o l1 n l2 : clist o (l1 ++ n :: l2) →
  wp (CAvl_GetNext n) o (λ r o' _, r = head l2 ∧ o' = o) ∧
  wp (CAvl_GetPrev n) o (λ r o' _, r = last l1 ∧ o' = o).
Proof.
  intros Hl. destruct (clist_root _ _ Hl) as [p Hp]; [by destruct l1|]. destruct Hl as (t & Hr & _ & El).
  split; (apply wp_bind, wp_get, wp_bind, wp_assert; [by rewrite Hp|]).
  - apply (wp_reads _ _ (λ r, r = head l2)); [|by intros r ->]. apply (beside_ok true _ t l1); [apply Hr|done].
  - apply (wp_reads _ _ (λ r, r = last l1)); [|by intros r ->]. apply (beside_ok false _ t l1 n l2); [apply Hr|done].
Qed.
Lemma list_empty_ok o l : clist o l → CAvl_IsEmpty o = Some (bool_decide (l = []), o, []).
Proof.
  intros (t & _ & _ & <- & Er)%root_crep. unfold CAvl_IsEmpty, gets. rewrite Er.
  destruct t as [|b L p R]; [done|]. cbn. repeat f_equal. symmetry. apply bool_decide_eq_false_2. by destruct (elems L).
Qed.

(** ** Positions *)
Section positions.
Context (Hcounts : FEATURE_COUNTS = true).

Lemma list_count_ok o l : clist o l → wp CAvl_Count o (λ n o' _, n = len l ∧ o' = o).
Proof.
  intros (t & Hr & _ & <- & Er)%root_crep. unfold CAvl_Count. apply wp_bind, wp_get. rewrite Er.
  destruct (crep_counts _ _ _ Hcounts Hr) as [Ha _]. by apply count_below_ok.
Qed.

Lemma get_at_ok fuel : ∀ o c t p i, crep o c t → tptr t = Some p → height t ≤ Z.of_nat fuel →
  0 ≤ i < len (elems t) → wp (get_at COUNT_MAX fuel (Some p) i) o (λ r o' _, r = elems t !! Z.to_nat i ∧ o' = o).
Proof.
  induction fuel as [|fuel IH]; intros o c t p i Hr Ht Hf Hi.
  { destruct t as [|b l q r]; [done|]. cbn in Hf. pose proof (height_nonneg l). lia. }
  destruct t as [|b L q R]; [done|]. injection Ht as ->. cbn [get_at].
  destruct (crep_counts _ _ _ Hcounts Hr) as ((Ep & HL & HR) & _ & Hmax).
  apply wp_bind. eapply wp_CAvl_count; [done|]. apply wp_bind, wp_assert; [apply Z.ltb_lt, Hi|].
  apply wp_bind. eapply (wp_node o c); [done|]. cbn [link0 link1].
  destruct (crep_down _ _ _ _ _ _ Hr) as [HrL HrR].
  apply wp_bind. eapply wp_mono; [by apply (count_below_ok o L)|]. intros n o' ? [-> ->].
  cbn [elems height] in *. rewrite len_app, len_cons in *.
  pose proof (len_nonneg (elems L)). pose proof (len_nonneg (elems R)). unfold len in *.
  destruct (Z.eqb_spec i (Z.of_nat (length (elems L)))) as [->|Hne].
  { apply wp_ret. split; [|done]. rewrite Nat2Z.id, lookup_app_r, Nat.sub_diag by done. done. }
  destruct (Z.ltb_spec i (Z.of_nat (length (elems L)))).
  - destruct L as [|bl ll lp lr]; [cbn in *; lia|]. cbn [tptr].
    eapply wp_mono; [apply (IH o (Frame false b p R :: c) (Node bl ll lp lr)); [done|done|lia|unfold len; lia]|].
    intros r o' ? [-> ->]. split; [|done]. rewrite lookup_app_l; [done|lia].
  - destruct R as [|br rl rp rr]; [cbn in *; lia|]. cbn [tptr]. pose proof (len_nonneg (lefts c)).
    pose proof (len_nonneg (rights c)). unfold len in *. rewrite cast_ok by lia.
    eapply wp_mono; [apply (IH o (Frame true b p L :: c) (Node br rl rp rr)); [done|done|lia|unfold len; lia]|].
    intros r o' ? [-> ->]. split; [|done]. rewrite lookup_app_r by lia.
    replace (Z.to_nat i - length (elems L))%nat with (S (Z.to_nat (i - (Z.of_nat (length (elems L)) + 1)))) by lia. done.
Qed.
Lemma list_get_at_ok o l i : clist o l → 0 ≤ i →
  wp (CAvl_GetAt COUNT_MAX i) o (λ r o' _, r = l !! Z.to_nat i ∧ o' = o).
Proof.
  intros Hl Hi. unfold CAvl_GetAt. apply wp_bind. eapply wp_mono; [by apply (list_count_ok o l)|].
  intros n o' ? [-> ->]. destruct (Z.leb_spec (len l) i).
  { apply wp_ret. split; [|done]. symmetry. apply lookup_ge_None. unfold len in *. lia. }
  apply root_crep in Hl as (t & Hr & _ & <- & Er). apply wp_bind, wp_get, wp_bind, wp_rounds. rewrite Er.
  destruct (rounds_ok _ _ _ (proj1 Hr)) as (_ & Hf & _).
  destruct (tptr t) as [p|] eqn:Ep; [|destruct t; [unfold len in *; cbn in *; lia|done]].
  eapply wp_mono; [by eapply (get_at_ok _ o [] t)|]. done.
Qed.

Lemma index_up_ok fuel : ∀ o c t p index, crep o c t → tptr t = Some p → (length c < fuel)%nat →
  0 ≤ index < len (elems t) →
  wp (index_up COUNT_MAX fuel p (cpar None c) index) o (λ r o' _, r = len (lefts c) + index ∧ o' = o).
Proof.
  induction fuel as [|fuel IH]; intros o c t p index Hr Ht Hf Hi; [lia|].
  destruct c as [|[d b pp sib] c]; cbn [index_up cpar]; [by apply wp_ret|].
  pose proof (proj1 Hr) as Hz. destruct (side_of _ _ _ p _ _ _ _ Hz) as (n & En & Es); [done|]. specialize (Es true).
  pose proof Hr as Hr1%crep_focus. destruct (crep_counts _ _ _ Hcounts Hr) as (Ha & (Epp & _ & _) & Hmax).
  apply annot_top in Ha. rewrite Ht in Ha.
  apply wp_bind. eapply wp_entry; [done|]. cbn [link] in Es. rewrite Es, side_true.
  assert (parent n = cpar None c) as ->.
  { rewrite (zrep_load _ _ _ _ _ _ _ (proj1 Hr1)) in En. injection En as <-. apply parent_bmk. }
  pose proof (len_nonneg (lefts c)). pose proof (len_nonneg (rights c)). pose proof (len_nonneg (elems sib)).
  pose proof (len_around d (elems t) pp sib) as Hlen. pose proof (elems_around d b t pp sib) as Eel.
  assert (∀ i, 0 ≤ i < len (elems (bnode d b t pp sib)) → wp (index_up COUNT_MAX fuel pp (cpar None c) i) o
    (λ r o' _, r = len (lefts c) + i ∧ o' = o)) as Hrec.
  { intros i Hi'. apply (IH o c (bnode d b t pp sib)); [done|apply tptr_bnode|cbn in Hf; lia|done]. }
  rewrite Eel, Hlen in Hrec. destruct d; cbn [lefts rights] in *.
  - rewrite !len_app in Hmax. rewrite !len_app. change (len [pp]) with 1 in *.
    apply wp_bind, wp_bind. eapply wp_CAvl_count; [done|]. apply wp_bind. eapply wp_CAvl_count; [done|]. rewrite Hlen.
    apply wp_bind, wp_assert; [apply Z.ltb_lt; lia|]. apply wp_bind, wp_assert; [apply Z.leb_le; lia|].
    rewrite cast_ok by lia. apply wp_ret. eapply wp_mono; [apply Hrec; lia|]. intros r o' ? [-> ->]. split; [lia|done].
  - apply wp_bind, wp_ret. eapply wp_mono; [apply Hrec; lia|]. intros r o' ? [-> ->]. done.
Qed.

Lemma list_index_ok o l1 n l2 : clist o (l1 ++ n :: l2) →
  wp (CAvl_IndexOf COUNT_MAX n) o (λ r o' _, r = len l1 ∧ o' = o).
Proof.
  intros Hl. destruct (clist_root _ _ Hl) as [p Hp]; [by destruct l1|].
  apply clist_at in Hl as (c & b & L & R & Hr & _ & -> & _). unfold CAvl_IndexOf.
  apply wp_bind, wp_get, wp_bind, wp_assert; [by rewrite Hp|]. apply wp_bind. eapply (wp_node o c); [done|]. cbn [link0 parent].
  destruct (crep_counts _ _ _ Hcounts Hr) as ((_ & HL & _) & _ & _).
  apply wp_bind. eapply wp_mono; [by apply (count_below_ok o L)|]. intros k o' ? [-> ->].
  apply wp_bind, wp_rounds. destruct (rounds_ok _ _ _ (proj1 Hr)) as (Hf & _).
  eapply wp_mono; [eapply (index_up_ok _ o c (Node b L n R)); try done|].
  - cbn. rewrite len_app, len_cons. pose proof (len_nonneg (elems L)). pose proof (len_nonneg (elems R)). lia.
  - intros r o' ? [-> ->]. by rewrite len_app.
Qed.

Lemma descend_at_ok fuel : ∀ o c b L p R index, crep o c (Node b L p R) → height (Node b L p R) ≤ Z.of_nat fuel →
  len (lefts c) ≤ index ≤ len (lefts c) + len (elems (Node b L p R)) →
  wp (descend_at COUNT_MAX fuel index p (len (lefts c) + len (elems L))) o (λ '(q, d) o' _, o' = o ∧
    ∃ b' sib c', let c1 := Frame d b' q sib :: c' in
      crep o c1 Leaf ∧ plug Leaf c1 = plug (Node b L p R) c ∧ len (lefts c1) = index).
Proof.
  induction fuel as [|fuel IH]; intros o c b L p R index Hr Hf Hi.
  { cbn in Hf. pose proof (height_nonneg L). lia. }
  cbn [descend_at]. apply wp_bind. eapply (wp_node o c); [done|]. destruct (crep_down _ _ _ _ _ _ Hr) as [HrL HrR].
  cbn [elems height] in Hi, Hf. rewrite len_app, len_cons in Hi. pose proof (len_nonneg (lefts c)). pose proof (len_nonneg (rights c)).
  destruct (crep_counts _ _ _ Hcounts Hr) as ((_ & HL & HR) & _ & Hmax). cbn [elems] in Hmax. rewrite len_app, len_cons in Hmax.
  pose proof (len_nonneg (elems L)). pose proof (len_nonneg (elems R)).
  destruct (Z.ltb_spec (len (lefts c) + len (elems L)) index); cbn [link link0 link1 negb].
  - assert (len (lefts (Frame true b p L :: c)) = len (lefts c) + len (elems L) + 1) as El
      by (cbn; rewrite !len_app; change (len [p]) with 1; lia).
    destruct R as [|br rl rp rr]; cbn [tptr].
    + apply wp_ret. split; [done|]. exists b, L, c. split_and!; [done..|]. change (len (elems Leaf)) with 0 in *. lia.
    + apply wp_bind. eapply wp_node; [exact HrR|]. destruct HR as (_ & HRl & _). cbn [link0].
      apply wp_bind. eapply wp_mono; [by apply (count_below_ok o rl)|]. intros k o' ? [-> ->].
      cbn [elems] in *. rewrite len_app, len_cons in *. pose proof (len_nonneg (elems rl)). pose proof (len_nonneg (elems rr)).
      rewrite cast_ok by lia. replace (len (lefts c) + len (elems L) + (1 + len (elems rl)))
        with (len (lefts (Frame true b p L :: c)) + len (elems rl)) by lia.
      eapply wp_mono; [apply (IH o _ br rl rp rr index HrR); cbn [elems]; rewrite ?len_app, ?len_cons; lia|]. by intros [] ??.
  - destruct L as [|bl ll lp lr]; cbn [tptr].
    + apply wp_ret. split; [done|]. exists b, R, c. split_and!; [done..|]. change (len (elems Leaf)) with 0 in *. cbn [lefts]. lia.
    + apply wp_bind. eapply wp_node; [exact HrL|]. destruct HL as (_ & _ & HLr). cbn [link1].
      apply wp_bind. eapply wp_mono; [by apply (count_below_ok o lr)|]. intros k o' ? [-> ->].
      cbn [elems] in *. rewrite len_app, len_cons in *. pose proof (len_nonneg (elems ll)). pose proof (len_nonneg (elems lr)).
      rewrite cast_ok by lia. replace (len (lefts c) + (len (elems ll) + (1 + len (elems lr))) - (1 + len (elems lr)))
        with (len (lefts (Frame false b p R :: c)) + len (elems ll)) by (cbn [lefts]; lia).
      eapply wp_mono; [apply (IH o _ bl ll lp lr index HrL); cbn [elems lefts]; rewrite ?len_app, ?len_cons; lia|]. by intros [] ??.
Qed.

Lemma list_insert_at_ok o l node index : clist o l → node ∉ l → 0 ≤ index ≤ len l → len l < COUNT_MAX →
  wp (CAvl_InsertAt FEATURE_COUNTS FEATURE_ASSOC COUNT_MAX ASSOC_VALUE ASSOC_OPER node index) o
    (λ _ o' _, clist o' (ztake index l ++ node :: zdrop index l)).
Proof.
  intros Hl Hnode Hi Hmax. unfold CAvl_InsertAt. apply wp_bind. eapply wp_mono; [by apply (list_count_ok o l)|].
  intros n o' ? [-> ->]. apply wp_bind, wp_assert; [apply Z.leb_le; lia|]. apply wp_bind, wp_assert; [by apply Z.ltb_lt|].
  apply root_crep in Hl as (t & Hr & Ha & <- & Er). apply wp_bind, wp_get. rewrite Er.
  destruct t as [|b L p R]; cbn [tptr].
  { eapply wp_mono; [apply (insert_root_ok _ _ COUNT_MAX _ _ _ Hlaws); left; unfold len in Hmax; cbn in Hmax; lia|].
    intros [] o' ? H. exists (Node 0 Leaf node Leaf). split_and!; [done|cbn; lia|].
    cbn. unfold ztake, zdrop. by rewrite take_nil, drop_nil. }
  apply wp_bind. eapply (wp_node o []); [done|]. cbn [link0]. destruct (crep_counts _ _ _ Hcounts Hr) as ((_ & HL & _) & _ & _).
  apply wp_bind. eapply wp_mono; [by apply (count_below_ok o L)|]. intros k o' ? [-> ->].
  apply wp_bind, wp_rounds. destruct (rounds_ok _ _ _ (proj1 Hr)) as (_ & Hf & _).
  apply wp_bind. change (len (elems L)) with (len (lefts []) + len (elems L)).
  eapply wp_mono; [apply (descend_at_ok _ o [] b L p R index Hr Hf); cbn [lefts]; change (len (@nil ptr)) with 0; lia|].
  intros [q d] o' ? (-> & b' & sib & c' & Hr1 & Ep & Eidx). cbn [plug] in Ep. set (c1 := Frame d b' q sib :: c') in *.
  assert (elems (Node b L p R) = lefts c1 ++ rights c1) as Eel.
  { rewrite <- Ep. exact (elems_hole c1). }
  rewrite Eel in *. rewrite <- Eidx. unfold ztake, zdrop, len. rewrite !Nat2Z.id, take_app_length, drop_app_length.
  eapply wp_mono; [apply (insert_below_ok _ _ COUNT_MAX _ _ _ Hlaws o d b' q sib c' node); [exact Hr1|cbn [plug]; by rewrite Ep| |]|].
  - change (node ∉ celems c1). by rewrite celems_sides.
  - intros _. cbn [plug]. by rewrite Ep, Eel.
  - intros [] o' ? (t' & ? & ? & ?). by exists t'.
Qed.
End positions.

(** ** Sums *)
Section sums.
Context (Hassoc : FEATURE_ASSOC = true).

Lemma asum_cat l k : asum (l ++ k) = ASSOC_OPER (asum l) (asum k).
Proof. apply asum_app, Hlaws, Hassoc. Qed.
Lemma asum_one p : asum [p] = ASSOC_VALUE p.
Proof. exact (oper_zero_r _ _ (Hlaws Hassoc) _). Qed.

Lemma list_sum_ok o l : clist o l → wp (CAvl_AssocSum ASSOC_ZERO) o (λ a o' _, a = asum l ∧ o' = o).
Proof.
  intros (t & Hr & _ & <- & Er)%root_crep. unfold CAvl_AssocSum. apply wp_bind, wp_get. rewrite Er.
  destruct (crep_sums _ _ _ Hassoc Hr) as [Ha _]. by apply sum_below_ok.
Qed.

Lemma sum_up_ok fuel : ∀ o c t p sum, crep o c t → tptr t = Some p → (length c < fuel)%nat →
  wp (sum_up ASSOC_VALUE ASSOC_OPER fuel p (cpar None c) sum) o
    (λ r o' _, r = ASSOC_OPER (asum (lefts c)) sum ∧ o' = o).
Proof.
  induction fuel as [|fuel IH]; intros o c t p sum Hr Ht Hf; [lia|]. destruct (Hlaws Hassoc) as [La Ll _].
  destruct c as [|[d b pp sib] c]; cbn [sum_up cpar]; [apply wp_ret; split; [cbn; by rewrite Ll|done]|].
  pose proof (proj1 Hr) as Hz. destruct (side_of _ _ _ p _ _ _ _ Hz) as (n & En & Es); [done|]. specialize (Es true).
  pose proof Hr as Hr1%crep_focus. destruct (crep_sums _ _ _ Hassoc Hr) as (_ & (_ & Hsib & _)).
  apply wp_bind. eapply wp_entry; [done|]. cbn [link] in Es. rewrite Es, side_true.
  rewrite (zrep_load _ _ _ _ _ _ _ (proj1 Hr1)) in En. injection En as <-. rewrite parent_bmk.
  assert (∀ s, wp (sum_up ASSOC_VALUE ASSOC_OPER fuel pp (cpar None c) s) o
    (λ r o' _, r = ASSOC_OPER (asum (lefts c)) s ∧ o' = o)) as Hrec.
  { intros s. apply (IH o c (bnode d b t pp sib)); [done|apply tptr_bnode|cbn in Hf; lia]. }
  destruct d; cbn [bmk link0 lefts].
  - apply wp_bind. apply (wp_mono _ _ (λ a o' _, a = ASSOC_OPER (asum (elems sib ++ [pp])) sum ∧ o' = o)).
    + apply annot_top in Hsib. destruct sib as [|bs sl sp sr]; cbn [tptr] in *.
      { apply wp_ret. split; [|done]. change (elems Leaf ++ [pp]) with [pp]. by rewrite asum_one. }
      apply wp_bind. eapply wp_CAvl_assoc; [done|]. apply wp_ret. by rewrite asum_cat, asum_one, La.
    + intros a o' ? [-> ->]. eapply wp_mono; [apply Hrec|]. intros r o' ? [-> ->].
      split; [|done]. by rewrite (asum_cat (lefts c)), <- La.
  - apply wp_bind, wp_ret. eapply wp_mono; [apply Hrec|]. done.
Qed.

Lemma list_prefix_sum_ok o l1 n l2 : clist o (l1 ++ n :: l2) →
  wp (CAvl_ExclusiveAssocPrefixSum ASSOC_ZERO ASSOC_VALUE ASSOC_OPER n) o (λ r o' _, r = asum l1 ∧ o' = o).
Proof.
  intros Hl. destruct (clist_root _ _ Hl) as [p Hp]; [by destruct l1|].
  apply clist_at in Hl as (c & b & L & R & Hr & _ & -> & _). unfold CAvl_ExclusiveAssocPrefixSum.
  apply wp_bind, wp_get, wp_bind, wp_assert; [by rewrite Hp|]. apply wp_bind. eapply (wp_node o c); [done|]. cbn [link0 parent].
  destruct (crep_sums _ _ _ Hassoc Hr) as ((_ & HL & _) & _).
  apply wp_bind. eapply wp_mono; [by eapply (sum_below_ok _ _ _ o L)|]. intros k o' ? [-> ->].
  apply wp_bind, wp_rounds. destruct (rounds_ok _ _ _ (proj1 Hr)) as (Hf & _).
  eapply wp_mono; [by eapply (sum_up_ok _ o c (Node b L n R))|]. intros r o' ? [-> ->]. by rewrite asum_cat.
Qed.

(** The last entry before which the sum is not more than [sum]. *)
Definition last_below (sum_less : A → A → bool) (sum : A) (l : list ptr) (r : option ptr) : Prop :=
  match r with
  | Some p => ∃ l1 l2, l = l1 ++ p :: l2 ∧ sum_less sum (asum l1) = false ∧
      ∀ k1 q k2, l2 = k1 ++ q :: k2 → sum_less sum (asum (l1 ++ p :: k1)) = true
  | None => ∀ l1 q l2, l = l1 ++ q :: l2 → sum_less sum (asum l1) = true
  end.
(** Sums of longer prefixes are not less. *)
Definition growing (sum_less : A → A → bool) (sum : A) (l : list ptr) : Prop :=
  ∀ k1 k2 k3, l = k1 ++ k2 ++ k3 → sum_less sum (asum k1) = true → sum_less sum (asum (k1 ++ k2)) = true.

(** The result so far is the last entry on the left of the subtree. *)
Definition found_left (sum_less : A → A → bool) (sum : A) (l : list ptr) (r : option ptr) : Prop :=
  match r with Some q => ∃ k, l = k ++ [q] ∧ sum_less sum (asum k) = false | None => l = [] end.

Lemma found_last sum_less sum l k r : growing sum_less sum (l ++ k) → found_left sum_less sum l r →
  (k ≠ [] → sum_less sum (asum l) = true) → last_below sum_less sum (l ++ k) r.
Proof.
  intros Hg Hl Hk. destruct r as [q|]; cbn in *.
  - destruct Hl as (l1 & -> & Hq). exists l1, k. split; [by rewrite <- app_assoc|]. split; [done|].
    intros k1 p k2 ->. change (l1 ++ q :: k1) with (l1 ++ [q] ++ k1). rewrite app_assoc.
    apply (Hg _ _ (p :: k2)); [done|]. apply Hk. by destruct k1.
  - subst l. intros l1 q l2 E. cbn in E. subst k. apply (Hg [] l1 (q :: l2)); [done|]. apply Hk. by destruct l1.
Qed.

Lemma find_last_ok sum_less sum fuel : ∀ o c t result, crep o c t → height t < Z.of_nat fuel →
  growing sum_less sum (elems (plug t c)) → found_left sum_less sum (lefts c) result →
  (rights c ≠ [] → sum_less sum (asum (lefts c ++ elems t)) = true) →
  wp (find_last ASSOC_ZERO ASSOC_VALUE ASSOC_OPER fuel sum_less sum result (tptr t) (asum (lefts c))) o
    (λ r o' _, last_below sum_less sum (elems (plug t c)) r ∧ o' = o).
Proof.
  induction fuel as [|fuel IH]; intros o c t result Hr Hf Hg Hl Hrt; [pose proof (height_nonneg t); lia|].
  destruct t as [|b L p R]; cbn [find_last tptr].
  { apply wp_ret. split; [|done]. rewrite elems_hole in *. apply found_last; [done|done|].
    intros H. specialize (Hrt H). cbn in Hrt. by rewrite app_nil_r in Hrt. }
  destruct (crep_down _ _ _ _ _ _ Hr) as [HrL HrR]. destruct (crep_sums _ _ _ Hassoc Hr) as ((_ & HL & _) & _).
  apply wp_bind. eapply (wp_node o c); [done|]. cbn [link0 link1 height] in *.
  apply wp_bind. eapply wp_mono; [by eapply (sum_below_ok _ _ _ o L)|]. intros k o' ? [-> ->].
  rewrite <- asum_cat. destruct (sum_less sum (asum (lefts c ++ elems L))) eqn:Es.
  - eapply wp_mono; [apply (IH o (Frame false b p R :: c) L result HrL); [lia|done|done|by intros _]|]. done.
  - assert (asum (lefts (Frame true b p L :: c)) = ASSOC_OPER (asum (lefts c ++ elems L)) (ASSOC_VALUE p)) as <-.
    { cbn [lefts]. by rewrite app_assoc, (asum_cat _ [p]), asum_one. }
    eapply wp_mono; [apply (IH o (Frame true b p L :: c) R (Some p) HrR); [lia|done| |]|done].
    + exists (lefts c ++ elems L). split; [cbn; by rewrite <- app_assoc|done].
    + intros H. specialize (Hrt H). cbn in *. by rewrite <- !app_assoc.
Qed.

Lemma list_find_last_ok sum_less sum o l : clist o l → growing sum_less sum l →
  wp (CAvl_FindLastExclusiveAssocPrefixSumLesserEqual ASSOC_ZERO ASSOC_VALUE ASSOC_OPER sum_less sum) o
    (λ r o' _, last_below sum_less sum l r ∧ o' = o).
Proof.
  intros (t & Hr & _ & <- & Er)%root_crep Hg. unfold CAvl_FindLastExclusiveAssocPrefixSumLesserEqual.
  apply wp_bind, wp_get, wp_bind, wp_rounds. rewrite Er. destruct (rounds_ok _ _ _ (proj1 Hr)) as (_ & _ & Hf).
  eapply wp_mono; [apply (find_last_ok sum_less sum _ o [] t None); cbn [length] in *; try done; lia|]. done.
Qed.
End sums.
End facts.
End CAvlList.
