(* ===== verification/CAvlOrder.v ===== *)
(** The tree of structure/CAvl_impl.h with its entries in order: insertion, the
    searches, the tree's own check, and what it provides to its users. *)
From Stdlib Require Import Sorting.Sorted.
From S2P Require Import Prelude TreeInterface BAVL BAVLFacts CAvl CAvlLinks CAvlFacts CAvlList.
Import BAVLCode BAVLTree BAVLFacts CAvlCode CAvlLinks CAvlAnnot CAvlFacts CAvlList.

Module CAvlOrder.

Section ordered.
Context (FEATURE_COUNTS FEATURE_ASSOC : bool) (COUNT_MAX : Z).
Context {A : Type} `{!EqDecision A} (ASSOC_ZERO : A) (ASSOC_VALUE : ptr → A) (ASSOC_OPER : A → A → A).
Context (Hlaws : FEATURE_ASSOC = true → assoc_laws ASSOC_ZERO ASSOC_OPER).
Context {K : Type} (P : K → Prop) (cmp : K → K → Z) (value : ptr → K).
Implicit Types (o : CAvl A) (c : list frame) (t : tree).

Local Abbreviation crep := (crep FEATURE_COUNTS FEATURE_ASSOC COUNT_MAX ASSOC_ZERO ASSOC_VALUE ASSOC_OPER).
Local Abbreviation clist := (clist FEATURE_COUNTS FEATURE_ASSOC COUNT_MAX ASSOC_ZERO ASSOC_VALUE ASSOC_OPER).
Local Abbreviation lt := (lt cmp value).
Local Abbreviation between := (between cmp value).

(** The tree has the entries [l], in the order of their values. *)
Definition ctree o (l : list ptr) : Prop := clist o l ∧ StronglySorted lt l ∧ Forall (P ∘ value) l.

Context `{!Comparator P cmp}.

(** The search from the root. *)
Lemma csearch_ok v o t p : crep o [] t → StronglySorted lt (elems t) → P v → Forall (P ∘ value) (elems t) →
  tptr t = Some p →
  wp (k ← rounds; on_links (descend cmp value k v p)) o (λ '(q, at_leaf) o' _, o' = o ∧
    match at_leaf with
    | None => cmp v (value q) = 0 ∧ q ∈ elems t
    | Some d => ∃ b sib c', let c1 := Frame d b q sib :: c' in
        crep o c1 Leaf ∧ plug Leaf c1 = t ∧ between v c1
    end).
Proof.
  intros Hr Hs Hv HP Hp. apply wp_bind, wp_rounds. destruct (rounds_ok _ _ _ (proj1 Hr)) as (_ & Hf & _).
  apply (wp_reads _ _ (λ '(q, at_leaf), match at_leaf with
    | None => cmp v (value q) = 0 ∧ q ∈ elems t
    | Some d => ∃ b sib c', let c1 := Frame d b q sib :: c' in plug Leaf c1 = t ∧ between v c1 end)).
  - eapply wp_mono; [eapply (descend_ok P cmp value v _ _ [] t p (proj1 Hr) Hp Hf Hs Hv HP (between_nil _ _ _))|].
    intros [q [d|]] l ? [-> H]; [|by destruct H]. destruct H as (b & sib & c' & _ & E & Hb). split; [|done].
    by exists b, sib, c'.
  - intros [q [d|]] H; [|done]. destruct H as (b & sib & c' & E & Hb). split; [done|]. exists b, sib, c'.
    split_and!; [|done..]. cbv zeta in E. apply crep_plug. by rewrite E.
Qed.

Lemma wp_assoc {X Y Z'} (m : prog (CAvl A) Empty_set X) (f : X → prog (CAvl A) Empty_set Y)
    (g : Y → prog (CAvl A) Empty_set Z') o Q : wp (m ≫= f) o (λ y o1 e1, wp (g y) o1 (λ z o2 e2, Q z o2 (e1 ++ e2))) →
  wp (m ≫= λ x, f x ≫= g) o Q.
Proof.
  unfold wp, mbind, prog_bind. destruct (m o) as [[[x o1] e1]|]; [|done].
  destruct (f x o1) as [[[y o2] e2]|]; [|done]. destruct (g y o2) as [[[z o3] e3]|]; [|done]. by rewrite app_assoc.
Qed.

Definition cinsert_post o (l : list ptr) (node : ptr) (r : Z) (ref : option ptr) (o' : CAvl A) : Prop :=
  (∃ q, q ∈ l ∧ cmp (value node) (value q) = 0 ∧ r = 0 ∧ ref = Some q ∧ o' = o) ∨
  (∃ l1 l2, l = l1 ++ l2 ∧ (∀ q, q ∈ l → cmp (value node) (value q) ≠ 0) ∧ r = 1 ∧
    (ref = last l1 ∨ ref = head l2) ∧ ctree o' (l1 ++ node :: l2)).

Lemma cinsert_ok o l node : ctree o l → node ∉ l → P (value node) → (FEATURE_COUNTS = true → len l < COUNT_MAX) →
  wp (CAvl_Insert FEATURE_COUNTS FEATURE_ASSOC COUNT_MAX ASSOC_VALUE ASSOC_OPER cmp value node) o
    (λ '(r, ref) o' _, cinsert_post o l node r ref o').
Proof.
  intros (Hl & Hs & HP) Hnode HPn Hmax. unfold CAvl_Insert. apply wp_bind.
  apply (wp_mono _ _ (λ _ o' _, o' = o)).
  { apply wp_when; intros E; [|done]. apply wp_bind. eapply wp_mono; [by eapply list_count_ok|]. intros n o' ? [-> ->].
    apply wp_assert; [|done]. by apply Z.ltb_lt, Hmax. }
  intros [] o' ? ->. apply wp_bind, wp_get. apply root_crep in Hl as (t & Hr & Ha & <- & Er). rewrite Er.
  destruct (tptr t) as [p|] eqn:Ep.
  - apply wp_assoc. eapply wp_mono; [by apply (csearch_ok (value node) o t p)|].
    intros [q [d|]] o' ? [-> H]; cbn beta iota.
    + destruct H as (b & sib & c & Hr1 & E & Hb). set (c1 := Frame d b q sib :: c) in *.
      rewrite <- E in *. rewrite elems_hole in *. apply wp_bind.
      eapply wp_mono; [apply (insert_below_ok _ _ COUNT_MAX _ _ _ Hlaws o d b q sib c node Hr1 Ha)|].
      * change (node ∉ celems c1). by rewrite celems_sides.
      * intros Ec. rewrite elems_hole. by apply Hmax.
      * intros [] o' ? (t' & Hr' & Ha' & El). apply wp_ret. right. destruct (between_list _ _ _ _ _ _ _ _ Hb) as [Hne Href].
        exists (lefts c1), (rights c1). split_and!; [done|done|done|by destruct Href; [left|right]|].
        split_and!; [by exists t'|by eapply sorted_insert|].
        apply Forall_app in HP as [HP1 HP2]. apply Forall_app. split; [done|]. by constructor.
    + destruct H as [E Hq]. apply wp_ret. left. by exists q.
  - destruct t; [|done]. apply wp_bind. eapply wp_mono; [apply (insert_root_ok _ _ COUNT_MAX _ _ _ Hlaws)|].
    { destruct FEATURE_COUNTS; [|by right]. left. specialize (Hmax eq_refl). unfold len in Hmax. cbn in Hmax. lia. }
    intros [] o' ? Hr'. apply wp_ret. right. exists [], []. split_and!; try done; [by intros q ?%elem_of_nil|by left|].
    split_and!; [|by repeat constructor|by repeat constructor]. exists (Node 0 Leaf node Leaf). split_and!; [done|cbn; lia|done].
Qed.

Lemma cremove_ok o l1 n l2 : ctree o (l1 ++ n :: l2) →
  wp (CAvl_Remove FEATURE_COUNTS FEATURE_ASSOC COUNT_MAX ASSOC_VALUE ASSOC_OPER n) o
    (λ _ o' _, ctree o' (l1 ++ l2)).
Proof using Hlaws.
  intros (Hl & Hs & HP). eapply wp_mono; [by eapply list_remove_ok|]. intros [] o' ? Hl'. split; [done|].
  apply sorted_app_inv in Hs as (S1 & S2 & S3). inversion S2; subst. split.
  - apply sorted_app; [done|done|]. intros. apply S3; [done|by right].
  - revert HP. rewrite !Forall_app, Forall_cons. tauto.
Qed.

(** ** Searches *)

(** A sorted list around a value. *)
Definition split_at (v : K) (l1 : list ptr) (eq : option ptr) (l2 : list ptr) : Prop :=
  (∀ q, q ∈ l1 → cmp v (value q) = 1) ∧ (∀ q, q ∈ l2 → cmp v (value q) = -1) ∧
  match eq with Some q => cmp v (value q) = 0 | None => True end.

Lemma split_equal v l1 q l2 : StronglySorted lt (l1 ++ q :: l2) → Forall (P ∘ value) (l1 ++ q :: l2) → P v →
  cmp v (value q) = 0 → split_at v l1 (Some q) l2.
Proof.
  intros (S1 & S2 & S3)%sorted_app_inv HP Hv E. rewrite Forall_app, Forall_cons in HP. destruct HP as (_ & Hq & _).
  apply (cmp_eq (P := P)) in E; [|done..]. subst v. inversion_clear S2 as [|? ? _ Hf]. rewrite Forall_forall in Hf.
  split_and!.
  - intros p Hp. rewrite (cmp_opp (P := P) (value p)). by rewrite (S3 p q Hp ltac:(left)).
  - intros p Hp. by apply Hf.
  - by apply (cmp_eq (P := P)).
Qed.

Lemma clookup_ok o l v : ctree o l → P v → wp (CAvl_Lookup cmp value v) o (λ r o' _, o' = o ∧
  ((∃ l1 q l2, r = Some q ∧ l = l1 ++ q :: l2 ∧ split_at v l1 (Some q) l2) ∨
   (∃ l1 l2, l = l1 ++ l2 ∧ split_at v l1 None l2 ∧ (r = last l1 ∨ r = head l2) ∧ (r = None → l = [])))).
Proof.
  intros (Hl & Hs & HP) Hv. apply root_crep in Hl as (t & Hr & Ha & <- & Er).
  unfold CAvl_Lookup. apply wp_bind, wp_get. rewrite Er. destruct (tptr t) as [p|] eqn:Ep.
  - apply wp_assoc. eapply wp_mono; [by apply (csearch_ok v o t p)|].
    intros [q [d|]] o1 ? [-> H]; cbn beta iota; apply wp_ret; split; try done.
    + destruct H as (b & sib & c & _ & <- & Hb). destruct (between_list _ _ _ _ _ _ _ _ Hb) as [_ Href].
      destruct Hb as [Hl Hr']. rewrite Forall_forall in Hl, Hr'. right. rewrite elems_hole.
      eexists _, _. split_and!; [done| |done|done]. by split_and!.
    + destruct H as [E (l1 & l2 & El)%list_elem_of_split]. left. exists l1, q, l2. split_and!; [done..|].
      rewrite El in *. by apply split_equal.
  - destruct t; [|done]. apply wp_ret. split; [done|]. right. exists [], [].
    split_and!; try done; [|by left]. split_and!; [by intros q ?%elem_of_nil|by intros q ?%elem_of_nil|done].
Qed.
Lemma clookup_exact_ok o l v : ctree o l → P v →
  wp (CAvl_LookupExact cmp value v) o (λ r o' _, o' = o ∧ lookup_post cmp value l v r).
Proof.
  intros (Hl & Hs & HP) Hv. apply root_crep in Hl as (t & Hr & Ha & <- & Er).
  unfold CAvl_LookupExact. apply wp_bind, wp_get. rewrite Er. destruct (tptr t) as [p|] eqn:Ep.
  - apply wp_assoc. eapply wp_mono; [by apply (csearch_ok v o t p)|].
    intros [q [d|]] o1 ? [-> H]; cbn beta iota; apply wp_ret; split; try done; [|by destruct H].
    destruct H as (b & sib & c & _ & <- & Hb). destruct (between_list _ _ _ _ _ _ _ _ Hb) as [Hne _].
    rewrite elems_hole. intros r. apply Hne.
  - destruct t; [|done]. apply wp_ret. split; [done|]. by intros q ?%elem_of_nil.
Qed.

Lemma wp_compare_key v p o Q : Q (cmp v (value p)) o [] → wp (CAvl_compare_key_entry cmp value v p) o Q.
Proof.
  intros HQ. unfold CAvl_compare_key_entry. apply (wp_reads _ _ (λ x, x = cmp v (value p))); [|by intros ? ->].
  by apply (wp_compare P cmp).
Qed.

(** The entries whose comparison with [v] gives a result in [sel]. *)
Definition matching (v : K) (sel : Z → bool) (l : list ptr) : list ptr := filter (λ q, sel (cmp v (value q)) = true) l.

Lemma matching_all v sel l x : (∀ q, q ∈ l → cmp v (value q) = x) → matching v sel l = if sel x then l else [].
Proof.
  unfold matching. induction l as [|p l IH]; intros H; [by destruct (sel x)|]. rewrite filter_cons.
  rewrite (H p ltac:(left)). rewrite IH by (intros q Hq; apply H; by right). by destruct (sel x); case_decide.
Qed.
Lemma matching_app v sel l k : matching v sel (l ++ k) = matching v sel l ++ matching v sel k.
Proof. apply filter_app. Qed.

(** The end of [get_from]: the assertion holds at an entry that is selected. *)
Lemma get_from_end v skip r o : match r with Some q => skip (cmp v (value q)) = false | None => True end →
  wp (match r with
      | None => mret None
      | Some c => comp ← CAvl_compare_key_entry cmp value v c; ASSERT (negb (skip comp));; mret (Some c)
      end : prog (CAvl A) Empty_set (option ptr)) o (λ r' o' _, r' = r ∧ o' = o).
Proof.
  intros Hq. destruct r as [q|]; [|by apply wp_ret]. apply wp_bind, wp_compare_key. rewrite Hq.
  apply wp_bind, wp_assert; [done|]. by apply wp_ret.
Qed.

(** [side]: whether the search goes forward; [skip] gives [true] for the entries
    before the wanted ones in that direction. *)
Definition step_of (side : bool) : ptr → prog (CAvl A) Empty_set (option ptr) :=
  if side then CAvl_GetNext else CAvl_GetPrev.
Lemma step_of_ok side o l1 n l2 : ctree o (l1 ++ n :: l2) →
  wp (step_of side n) o (λ r o' _, r = (if side then head l2 else last l1) ∧ o' = o).
Proof using.
  intros (Hl & _ & _). destruct (list_next_ok _ _ _ _ _ _ _ _ _ _ Hl). by destruct side.
Qed.

Lemma get_from_ok (side : bool) (skip : Z → bool) o l v : ctree o l → P v →
  skip (if side then 1 else -1) = true → skip (if side then -1 else 1) = false →
  wp (get_from cmp value v skip (step_of side)) o (λ r o' _,
    r = end_of (negb side) (matching v (negb ∘ skip) l) ∧ o' = o).
Proof using Comparator0.
  clear Hlaws. intros Ht Hv Hskip Hkeep. unfold get_from. apply wp_bind. eapply wp_mono; [by apply (clookup_ok o l v)|].
  intros r o' ? [-> H].
  assert (∀ l1 l2, split_at v l1 None l2 → matching v (negb ∘ skip) (l1 ++ l2) = if side then l2 else l1) as Hm.
  { intros l1 l2 (H1 & H2 & _). rewrite matching_app, (matching_all _ _ l1 1 H1), (matching_all _ _ l2 (-1) H2). unfold compose.
    destruct side; rewrite Hskip, Hkeep; cbn [negb]; [done|]. by rewrite app_nil_r. }
  destruct H as [(l1 & q & l2 & -> & -> & (H1 & H2 & H0))|(l1 & l2 & -> & Hsp & Href & Hnil)].
  - assert (matching v (negb ∘ skip) (l1 ++ q :: l2) =
      (if side then [] else l1) ++ (if skip 0 then [] else [q]) ++ if side then l2 else []) as ->.
    { change (q :: l2) with ([q] ++ l2). rewrite !matching_app, (matching_all _ _ l1 1 H1), (matching_all _ _ l2 (-1) H2).
      rewrite (matching_all _ _ [q] 0) by (by intros p ->%list_elem_of_singleton). unfold compose.
      destruct side; rewrite Hskip, Hkeep; by destruct (skip 0). }
    apply wp_bind, wp_compare_key. rewrite H0. destruct (skip 0) eqn:E0.
    + apply wp_bind. eapply wp_mono; [by apply (step_of_ok side o l1 q l2)|]. intros r o' ? [-> ->].
      eapply wp_mono; [apply get_from_end|].
      * destruct side; [destruct l2|destruct l1 as [|? ? _] using rev_ind]; try done; cbn; rewrite ?last_snoc;
          [rewrite H2 by left|rewrite H1 by set_solver]; done.
      * intros r o' ? [-> ->]. split; [|done]. destruct side; cbn; [done|]. by rewrite app_nil_r.
    + apply wp_bind, wp_ret. eapply wp_mono; [apply (get_from_end v skip (Some q)); by rewrite H0|]. intros r o' ? [-> ->].
      split; [|done]. destruct side; cbn; [done|]. by rewrite last_snoc.
  - rewrite (Hm l1 l2 Hsp). destruct Hsp as (H1 & H2 & _). destruct r as [q|]; cycle 1.
    { apply wp_ret. split; [|done]. destruct (app_nil l1 l2) as [[-> ->] _]; [by apply Hnil|]. by destruct side. }
    apply wp_bind, wp_compare_key. destruct Href as [Hq|Hq]; symmetry in Hq.
    + apply last_Some in Hq as (k & ->). rewrite H1 by set_solver. destruct side; rewrite ?Hskip, ?Hkeep.
      * apply wp_bind. rewrite <- app_assoc in Ht. eapply wp_mono; [by apply (step_of_ok true o k q l2)|].
        intros r o' ? [-> ->]. eapply wp_mono; [apply get_from_end|by intros r o' ? [-> ->]].
        destruct l2; [done|]. cbn. by rewrite H2 by left.
      * apply wp_bind, wp_ret. eapply wp_mono; [apply (get_from_end v skip (Some q)); by rewrite H1 by set_solver|].
        intros r o' ? [-> ->]. split; [|done]. cbn. by rewrite last_snoc.
    + destruct l2 as [|p l2]; [done|]. injection Hq as ->. rewrite H2 by left. destruct side; rewrite ?Hskip, ?Hkeep.
      * apply wp_bind, wp_ret. eapply wp_mono; [apply (get_from_end v skip (Some q)); by rewrite H2 by left|]. done.
      * apply wp_bind. eapply wp_mono; [by apply (step_of_ok false o l1 q l2)|].
        intros r o' ? [-> ->]. eapply wp_mono; [apply get_from_end|by intros r o' ? [-> ->]].
        destruct l1 as [|? ? _] using rev_ind; [done|]. rewrite last_snoc. by rewrite H1 by set_solver.
Qed.

(** ** The tree's own check *)

Local Abbreviation recurser := (CAvl_verify_recurser FEATURE_COUNTS FEATURE_ASSOC COUNT_MAX ASSOC_VALUE ASSOC_OPER cmp value).





Lemma cinit_ok o : (FEATURE_COUNTS = true → 0 ≤ COUNT_MAX) → ctree (CAvl_Init o) [].
Proof using.
  intros Hmax. split_and!; [|constructor|constructor]. exists Leaf. split_and!; [|done|done].
  split; [by constructor; constructor|]. split; [|done]. intros E. by split; [|apply Hmax].
Qed.

(** The values may change as long as their order does not. *)
Lemma ctree_mono value' o l : (∀ p, p ∈ l → P (value' p)) →
  (∀ p q, p ∈ l → q ∈ l → lt p q → cmp (value' p) (value' q) = -1) →
  ctree o l → clist o l ∧ StronglySorted (BAVLFacts.lt cmp value') l ∧ Forall (P ∘ value') l.
Proof using.
  clear Hlaws Comparator0. intros HP' Hlt (Hl & Hs & _). split_and!; [done| |by rewrite Forall_forall]. clear Hl HP'.
  induction Hs as [|x l Hs IH Hf]; [constructor|]. constructor; [apply IH; set_solver|].
  rewrite Forall_forall in Hf |- *. intros y Hy. apply Hlt; [set_solver..|by apply Hf].
Qed.

Lemma run_unit {X} (m : prog (CAvl A) Empty_set X) o (R : X → CAvl A → Prop) :
  wp m o (λ x o' _, R x o') → ∃ x o', m o = Some (x, o', []) ∧ R x o'.
Proof using. intros (x & o' & [|[]] & E & H)%wp_some. by exists x, o'. Qed.
Lemma run_read {X} (m : prog (CAvl A) Empty_set X) o x : wp m o (λ y o' _, y = x ∧ o' = o) → m o = Some (x, o, []).
Proof using. by intros (y & o' & E & -> & ->)%(run_unit m o (λ y o', y = x ∧ o' = o)). Qed.


(** The searches of CAvl_impl.h answer from the ordered list and change
    nothing: an exact lookup finds the entry equal to the key if there is one,
    the four range functions the first entry greater (or equal) and the last
    one less (or equal), and the walk from an entry its neighbours. *)
Theorem cavl_searches o l v : ctree o l → P v →
  (∃ r, CAvl_LookupExact cmp value v o = Some (r, o, []) ∧ lookup_post cmp value l v r) ∧
  CAvl_GetFirstGreater cmp value v o = Some (head (matching v (λ x, x <? 0) l), o, []) ∧
  CAvl_GetFirstGreaterEqual cmp value v o = Some (head (matching v (λ x, x <=? 0) l), o, []) ∧
  CAvl_GetLastLesser cmp value v o = Some (last (matching v (λ x, 0 <? x) l), o, []) ∧
  CAvl_GetLastLesserEqual cmp value v o = Some (last (matching v (λ x, 0 <=? x) l), o, []) ∧
  CAvl_GetFirst o = Some (head l, o, []) ∧ CAvl_GetLast o = Some (last l, o, []) ∧
  CAvl_IsEmpty o = Some (bool_decide (l = []), o, []) ∧
  (∀ l1 n l2, l = l1 ++ n :: l2 →
    CAvl_GetNext n o = Some (head l2, o, []) ∧ CAvl_GetPrev n o = Some (last l1, o, [])).
Proof.
  intros Ht Hv.
  assert (∀ (side : bool) (skip sel : Z → bool), skip (if side then 1 else -1) = true →
    skip (if side then -1 else 1) = false → (∀ x, sel x = negb (skip x)) →
    get_from cmp value v skip (step_of side) o = Some (end_of (negb side) (matching v sel l), o, [])) as Hfrom.
  { intros side skip sel H1 H2 Hsel. apply run_read. eapply wp_mono; [by apply get_from_ok|]. intros r o' _ [-> ->].
    split; [|done]. f_equal. apply list_filter_iff. intros q. unfold compose. by rewrite Hsel. }
  pose proof Ht as (Hl & _ & _). split_and!.
  - destruct (run_unit _ _ (λ r o', o' = o ∧ lookup_post cmp value l v r) (clookup_exact_ok o l v Ht Hv)) as (r & o' & E & -> & H).
    by exists r.
  - apply (Hfrom true); [done|done|]. intros x. by rewrite Z.leb_antisym, negb_involutive.
  - apply (Hfrom true); [done|done|]. intros x. apply Z.leb_antisym.
  - apply (Hfrom false); [done|done|]. intros x. by rewrite Z.leb_antisym, negb_involutive.
  - apply (Hfrom false); [done|done|]. intros x. apply Z.leb_antisym.
  - by eapply run_read, list_first_ok.
  - by eapply run_read, list_last_ok.
  - by eapply list_empty_ok.
  - intros l1 n l2 ->. destruct (list_next_ok _ _ _ _ _ _ _ _ _ _ Hl). split; by apply run_read.
Qed.
End ordered.

(** With the feature of sums on, CAvl_AssocSum gives the sum over all
    entries, CAvl_ExclusiveAssocPrefixSum that over the entries before a given
    one, and the search by prefix sum the last entry whose prefix sum does not
    exceed the bound, where prefix sums do not decrease. *)
Theorem cavl_sums (FEATURE_COUNTS : bool) (COUNT_MAX : Z) {A} (zero : A) (val : ptr → A) (oper : A → A → A)
    (o : CAvl A) l sum_less bound : assoc_laws zero oper → clist FEATURE_COUNTS true COUNT_MAX zero val oper o l →
  CAvl_AssocSum zero o = Some (asum zero val oper l, o, []) ∧
  (∀ l1 n l2, l = l1 ++ n :: l2 →
    CAvl_ExclusiveAssocPrefixSum zero val oper n o = Some (asum zero val oper l1, o, [])) ∧
  (growing zero val oper sum_less bound l → ∃ r,
    CAvl_FindLastExclusiveAssocPrefixSumLesserEqual zero val oper sum_less bound o = Some (r, o, []) ∧
    last_below zero val oper sum_less bound l r).
Proof.
  intros Hlaws Hl. split_and!.
  - by eapply run_read, list_sum_ok.
  - intros l1 n l2 ->. by eapply run_read, list_prefix_sum_ok.
  - intros Hg. destruct (run_unit _ o (λ r o', last_below zero val oper sum_less bound l r ∧ o' = o)
      (list_find_last_ok FEATURE_COUNTS true COUNT_MAX zero val oper (λ _, Hlaws) eq_refl sum_less bound o l Hl Hg)) as (r & o' & E & H & ->).
    by exists r.
Qed.

(** ** What the tree provides to its users

    The instance of the event loop: neither counts nor sums. *)
Definition plain_tree {K} (P : K → Prop) (cmp : K → K → Z) (value : ptr → K) (o : CAvl unit) (l : list ptr) : Prop :=
  ctree false false 0 tt (λ _, tt) (λ _ _, tt) P cmp value o l.

(** The results without the reference to a neighbour. *)
Definition plain_insert {K} (cmp : K → K → Z) (value : ptr → K) (node : ptr) (o : CAvl unit) : option (Z * CAvl unit) :=
  match CAvl_Insert false false 0 (λ _, tt) (λ _ _, tt) cmp value node o with
  | Some ((r, _), o', _) => Some (r, o') | None => None end.
Definition plain_remove (node : ptr) (o : CAvl unit) : option (CAvl unit) :=
  match CAvl_Remove false false 0 (λ _, tt) (λ _ _, tt) node o with Some (_, o', _) => Some o' | None => None end.
Definition plain_lookup {K} (cmp : K → K → Z) (value : ptr → K) (v : K) (o : CAvl unit) : option (option ptr) :=
  match CAvl_LookupExact cmp value v o with Some (r, _, _) => Some r | None => None end.
Definition plain_first (o : CAvl unit) : option (option ptr) :=
  match CAvl_GetFirst o with Some (r, _, _) => Some r | None => None end.

#[export] Program Instance cavl_ordered_tree : OrderedTree (CAvl unit) := {|
  ot_init := MkCAvl (BAVL_Init ∅) ∅ ∅;
  ot_insert K cmp value node o := plain_insert cmp value node o;
  ot_remove node o := plain_remove node o;
  ot_lookup K cmp value v o := plain_lookup cmp value v o;
  ot_first o := plain_first o;
  ot_holds K P cmp value o l := plain_tree P cmp value o l
|}.
Next Obligation. intros K P cmp value. apply (cinit_ok false false 0 tt (λ _, tt) (λ _ _, tt) P cmp value (MkCAvl (BAVL_Init ∅) ∅ ∅)). done. Qed.
Next Obligation. by intros K P cmp value t l (_ & ? & _). Qed.
Next Obligation. intros K P cmp value t l (Hl & _). by eapply clist_nodup. Qed.
Next Obligation.
  intros K P cmp value value' t l E Ht. apply (ctree_mono _ _ _ _ _ _ P cmp value); [| |done].
  - intros p Hp. destruct Ht as (_ & _ & HP). rewrite Forall_forall in HP. rewrite <- E by done. by apply HP.
  - intros p q Hp Hq. unfold lt. by rewrite <- !E.
Qed.
Next Obligation. intros K P cmp value value' t l HP Hlt Ht. by apply (ctree_mono _ _ _ _ _ _ P cmp value). Qed.
Next Obligation.
  intros K P cmp value t l node Hc Ht Hn HP Hne.
  destruct (proj1 (wp_some _ _ _) (cinsert_ok false false 0 tt (λ _, tt) (λ _ _, tt) ltac:(done) P cmp value t l node Ht Hn HP ltac:(done)))
    as ([r ref] & o' & es & E & H).
  destruct H as [(q & Hq & Eq & _)|(l1 & l2 & -> & _ & -> & _ & H)]; [by destruct (Hne q Hq)|].
  unfold plain_insert. rewrite E. by exists o', l1, l2.
Qed.
Next Obligation.
  intros K P cmp value t l node Ht (l1 & l2 & ->)%list_elem_of_split.
  destruct (run_unit _ _ _ (cremove_ok false false 0 tt (λ _, tt) (λ _ _, tt) ltac:(done) P cmp value t l1 node l2 Ht)) as ([] & o' & E & H).
  unfold plain_remove. rewrite E. by exists o', l1, l2.
Qed.
Next Obligation.
  intros K P cmp value t l v Hc Ht Hv.
  destruct (run_unit _ _ _ (clookup_exact_ok false false 0 tt (λ _, tt) (λ _ _, tt) P cmp value t l v Ht Hv)) as (r & o' & E & -> & H).
  unfold plain_lookup. rewrite E. by exists r.
Qed.
Next Obligation. intros K P cmp value t l (Hl & _). unfold plain_first. by rewrite (run_read _ _ _ (list_first_ok _ _ _ _ _ _ _ _ Hl)). Qed.

(** ** A concrete tree

    Seven entries with counts and sums, whose values are their addresses. *)
Definition ex_insert (p : ptr) (o : CAvl Z) : CAvl Z :=
  match CAvl_Insert true true 100 Z.pos Z.add B_COMPARE Z.pos p o with Some (_, o', _) => o' | None => o end.
Definition ex_entries : list ptr := [1; 2; 3; 4; 5; 6; 7]%positive.
Definition ex_ctree : CAvl Z := foldl (λ o p, ex_insert p o) (CAvl_Init (MkCAvl (BAVL_Init ∅) ∅ ∅)) ex_entries.

Lemma ex_ctree_of : ctree true true 100 0 Z.pos Z.add (λ _, True) B_COMPARE Z.pos ex_ctree ex_entries.
Proof.
  split_and!; [|by repeat constructor|by repeat constructor].
  exists (Node 0 (Node 0 (Node 0 Leaf 1 Leaf) 2 (Node 0 Leaf 3 Leaf)) 4
           (Node 0 (Node 0 Leaf 5 Leaf) 6 (Node 0 Leaf 7 Leaf)))%positive.
  split_and!; [|cbn; lia|done]. split.
  - constructor; [by vm_compute| |by repeat constructor]. by apply (bool_decide_unpack _).
  - split; [intros _; split; [|done]|intros _]; by vm_compute.
Qed.
Lemma Z_assoc_laws : assoc_laws 0 Z.add.
Proof. constructor; lia. Qed.


Lemma cavl_searches_witness :
  CAvl_GetFirstGreater B_COMPARE Z.pos 4 ex_ctree = Some (Some 5%positive, ex_ctree, []) ∧
  CAvl_GetLastLesserEqual B_COMPARE Z.pos 4 ex_ctree = Some (Some 4%positive, ex_ctree, []).
Proof.
  destruct (cavl_searches true true 100 0 Z.pos Z.add (λ _, True) B_COMPARE Z.pos ex_ctree ex_entries 4 ex_ctree_of I)
    as (_ & H1 & _ & _ & H2 & _).
  split; [exact H1|exact H2].
Defined.

Lemma cavl_sums_witness :
  CAvl_AssocSum 0 ex_ctree = Some (28, ex_ctree, []) ∧
  CAvl_ExclusiveAssocPrefixSum 0 Z.pos Z.add 5 ex_ctree = Some (10, ex_ctree, []) ∧
  ∃ r, CAvl_FindLastExclusiveAssocPrefixSumLesserEqual 0 Z.pos Z.add Z.ltb 12 ex_ctree = Some (r, ex_ctree, []) ∧
    last_below 0 Z.pos Z.add Z.ltb 12 ex_entries r.
Proof.
  destruct (cavl_sums true 100 0 Z.pos Z.add ex_ctree ex_entries Z.ltb 12 Z_assoc_laws (proj1 ex_ctree_of)) as (H1 & H2 & H3).
  split; [exact H1|]. split; [exact (H2 [1; 2; 3; 4]%positive 5%positive [6; 7]%positive eq_refl)|]. apply H3.
  intros k1 k2 k3 _. rewrite (asum_app _ _ _ _ _ Z_assoc_laws), !Z.ltb_lt.
  assert (∀ k, 0 ≤ asum 0 Z.pos Z.add k) as Hk 
    by (intros k; unfold asum; induction k; cbn; lia). specialize (Hk k2). lia.
Defined.
End CAvlOrder.
