(* ===== verification/IndexedList.v ===== *)
(** The two users of structure/CAvl_impl.h below structure/: SAvl_impl.h, a tree of
    pointers to structures, and IndexedList.h, a list with access by position. *)
From S2P Require Import Prelude TreeInterface BAVL BAVLFacts CAvl CAvlLinks CAvlFacts CAvlList CAvlOrder.
Import BAVLCode CAvlCode CAvlFacts CAvlList CAvlOrder.

(** * structure/SAvl_impl.h

    With counts or without, as [COUNTS] says; never with sums. *)
Module SAvlCode.
Section code.
Context (COUNTS : bool) (COUNT_MAX : Z).

Record SAvl := MkSAvl { tree : CAvl unit }.

Abbreviation op := (prog SAvl Empty_set).
Definition on_tree {X} (m : prog (CAvl unit) Empty_set X) : op X :=
  λ o, match m (tree o) with Some (x, t, es) => Some (x, MkSAvl t, es) | None => None end.

Abbreviation Tree_Insert := (CAvl_Insert COUNTS false COUNT_MAX (λ _, tt) (λ _ _, tt)).
Abbreviation Tree_Remove := (CAvl_Remove COUNTS false COUNT_MAX (λ _, tt) (λ _ _, tt)).
Abbreviation Tree_Verify := (CAvl_Verify COUNTS false COUNT_MAX (λ _, tt) (λ _ _, tt)).

Definition SAvl_Init (o : SAvl) : SAvl := MkSAvl (CAvl_Init (tree o)).
Definition SAvl_Remove (entry : ptr) : op unit := on_tree (Tree_Remove entry).
Definition SAvl_GetFirst : op (option ptr) := on_tree CAvl_GetFirst.
Definition SAvl_GetLast : op (option ptr) := on_tree CAvl_GetLast.
Definition SAvl_GetNext (entry : ptr) : op (option ptr) := on_tree (CAvl_GetNext entry).
Definition SAvl_GetPrev (entry : ptr) : op (option ptr) := on_tree (CAvl_GetPrev entry).
Definition SAvl_IsEmpty : op bool := on_tree CAvl_IsEmpty.
Definition SAvl_Count : op Z := on_tree CAvl_Count.
Definition SAvl_IndexOf (entry : ptr) : op Z := on_tree (CAvl_IndexOf COUNT_MAX entry).
Definition SAvl_GetAt (index : Z) : op (option ptr) := on_tree (CAvl_GetAt COUNT_MAX index).

Section with_comparator.
Context {K : Type} (comparator : K → K → Z) (value : ptr → K).

(** The result, and [*out_existing]. *)
Definition SAvl_Insert (entry : ptr) : op (Z * option ptr) :=
  when COUNTS (n ← SAvl_Count; ASSERT (n <? COUNT_MAX));;
  on_tree (Tree_Insert comparator value entry).
Definition SAvl_Lookup (key : K) : op (option ptr) := on_tree (CAvl_Lookup comparator value key).
Definition SAvl_LookupExact (key : K) : op (option ptr) := on_tree (CAvl_LookupExact comparator value key).
Definition SAvl_GetFirstGreater (key : K) : op (option ptr) := on_tree (CAvl_GetFirstGreater comparator value key).
Definition SAvl_GetLastLesser (key : K) : op (option ptr) := on_tree (CAvl_GetLastLesser comparator value key).
Definition SAvl_GetFirstGreaterEqual (key : K) : op (option ptr) :=
  on_tree (CAvl_GetFirstGreaterEqual comparator value key).
Definition SAvl_GetLastLesserEqual (key : K) : op (option ptr) :=
  on_tree (CAvl_GetLastLesserEqual comparator value key).
Definition SAvl_Verify : op unit := on_tree (Tree_Verify comparator value).
End with_comparator.
End code.
End SAvlCode.

(** * structure/IndexedList.h *)
Module IndexedListCode.

(** The tree of IndexedList_tree.h: with counts, keys are positions. *)
Abbreviation Tree := (CAvl unit).
Abbreviation op := (prog Tree Empty_set).
Abbreviation Tree_InsertAt := (CAvl_InsertAt true false UINT64_MAX (λ _, tt) (λ _ _, tt)).
Abbreviation Tree_Remove := (CAvl_Remove true false UINT64_MAX (λ _, tt) (λ _ _, tt)).

Definition IndexedList_Init (o : Tree) : Tree := CAvl_Init o.
Definition IndexedList_InsertAt (node : ptr) (index : Z) : op unit :=
  n ← CAvl_Count;
  ASSERT (index <=? n);;
  ASSERT (n <? UINT64_MAX - 1);;
  orig_count ← CAvl_Count;
  Tree_InsertAt node index;;
  i ← CAvl_IndexOf UINT64_MAX node;
  ASSERT (i =? index);;
  n ← CAvl_Count;
  ASSERT (n =? u64 (orig_count + 1)).
Definition IndexedList_Remove (node : ptr) : op unit := Tree_Remove node.
Definition IndexedList_Count : op Z := CAvl_Count.
Definition IndexedList_IndexOf (node : ptr) : op Z := CAvl_IndexOf UINT64_MAX node.
Definition IndexedList_GetAt (index : Z) : op ptr :=
  n ← CAvl_Count;
  ASSERT (index <? n);;
  ref ← CAvl_GetAt UINT64_MAX index;
  deref ref.
Definition IndexedList_GetFirst : op (option ptr) := CAvl_GetFirst.
Definition IndexedList_GetLast : op (option ptr) := CAvl_GetLast.
Definition IndexedList_GetNext (node : ptr) : op (option ptr) := CAvl_GetNext node.
Definition IndexedList_GetPrev (node : ptr) : op (option ptr) := CAvl_GetPrev node.
End IndexedListCode.

Module IndexedListFacts.
Import SAvlCode IndexedListCode.

(** The tree of the flows in a fair queue: without counts. *)
Lemma on_tree_run {X} (m : prog (CAvl unit) Empty_set X) t x t' es : m t = Some (x, t', es) →
  on_tree m (MkSAvl t) = Some (x, MkSAvl t', es).
Proof. unfold on_tree. cbn. by intros ->. Qed.

Definition flow_insert {K} (cmp : K → K → Z) (value : ptr → K) (node : ptr) (o : SAvl) : option (Z * SAvl) :=
  match SAvl_Insert false 0 cmp value node o with Some ((r, _), o', _) => Some (r, o') | None => None end.
Definition flow_remove (node : ptr) (o : SAvl) : option SAvl :=
  match SAvl_Remove false 0 node o with Some (_, o', _) => Some o' | None => None end.
Definition flow_lookup {K} (cmp : K → K → Z) (value : ptr → K) (v : K) (o : SAvl) : option (option ptr) :=
  match SAvl_LookupExact cmp value v o with Some (r, _, _) => Some r | None => None end.
Definition flow_first (o : SAvl) : option (option ptr) :=
  match SAvl_GetFirst o with Some (r, _, _) => Some r | None => None end.

#[export] Program Instance savl_ordered_tree : OrderedTree SAvl := {|
  ot_init := SAvl_Init (MkSAvl (MkCAvl (BAVL_Init ∅) ∅ ∅));
  ot_insert K cmp value node o := flow_insert cmp value node o;
  ot_remove node o := flow_remove node o;
  ot_lookup K cmp value v o := flow_lookup cmp value v o;
  ot_first o := flow_first o;
  ot_holds K P cmp value o l := plain_tree P cmp value (tree o) l
|}.
Next Obligation. intros K P cmp value. exact (ot_init_holds (T := CAvl unit) P cmp value). Qed.
Next Obligation. intros K P cmp value [t]. exact (ot_sorted (T := CAvl unit) P cmp value t). Qed.
Next Obligation. intros K P cmp value [t]. exact (ot_nodup (T := CAvl unit) P cmp value t). Qed.
Next Obligation. intros K P cmp value value' [t]. exact (ot_value_ext (T := CAvl unit) P cmp value value' t). Qed.
Next Obligation. intros K P cmp value value' [t]. exact (ot_value_mono (T := CAvl unit) P cmp value value' t). Qed.
Next Obligation.
  intros K P cmp value [t] l node Hc Ht Hn HP Hne.
  destruct (@ot_insert_spec _ cavl_ordered_tree K P cmp value t l node Hc Ht Hn HP Hne) as (t' & l1 & l2 & E & -> & Ht').
  cbn in E. unfold plain_insert in E. destruct (CAvl_Insert _ _ _ _ _ _ _ node t) as [[[[r ref] t1] es]|] eqn:E1; [|done]. injection E as -> ->.
  exists (MkSAvl t'), l1, l2. split; [|done]. cbn. unfold flow_insert, SAvl_Insert, when, mbind, prog_bind, mret, prog_ret.
  by rewrite (on_tree_run _ _ _ _ _ E1).
Qed.
Next Obligation.
  intros K P cmp value [t] l node Ht Hn.
  destruct (@ot_remove_spec _ cavl_ordered_tree K P cmp value t l node Ht Hn) as (t' & l1 & l2 & E & -> & Ht').
  cbn in E. unfold plain_remove in E. destruct (CAvl_Remove _ _ _ _ _ node t) as [[[[] t1] es]|] eqn:E1; [|done]. injection E as ->.
  exists (MkSAvl t'), l1, l2. split; [|done]. cbn. unfold flow_remove, SAvl_Remove. by rewrite (on_tree_run _ _ _ _ _ E1).
Qed.
Next Obligation.
  intros K P cmp value [t] l v Hc Ht Hv.
  destruct (@ot_lookup_spec _ cavl_ordered_tree K P cmp value t l v Hc Ht Hv) as (r & E & H).
  cbn in E. unfold plain_lookup in E. destruct (CAvl_LookupExact _ _ v t) as [[[r1 t1] es]|] eqn:E1; [|done]. injection E as ->.
  exists r. split; [|done]. cbn. unfold flow_lookup, SAvl_LookupExact. by rewrite (on_tree_run _ _ _ _ _ E1).
Qed.
Next Obligation.
  intros K P cmp value [t] l Ht. pose proof (@ot_first_spec _ cavl_ordered_tree K P cmp value t l Ht) as E.
  cbn in E. unfold plain_first in E. destruct (CAvl_GetFirst t) as [[[r1 t1] es]|] eqn:E1; [|done].
  cbn. unfold flow_first, SAvl_GetFirst. by rewrite (on_tree_run _ _ _ _ _ E1).
Qed.

(** The list that the tree of an indexed list holds. *)
Definition indexed (o : Tree) (l : list ptr) : Prop := clist true false UINT64_MAX tt (λ _, tt) (λ _ _, tt) o l.

Lemma no_sums : false = true → assoc_laws tt (λ _ _, tt).
Proof. done. Qed.

Lemma ztake_zdrop_insert (l : list ptr) node index : 0 ≤ index ≤ len l →
  len (ztake index l) = index ∧ len (ztake index l ++ node :: zdrop index l) = len l + 1.
Proof.
  intros Hi. split; [apply len_ztake; lia|]. rewrite len_app, len_cons.
  rewrite len_ztake, len_zdrop by lia. lia.
Qed.

Lemma indexed_insert_ok o l node index : indexed o l → node ∉ l → 0 ≤ index ≤ len l → len l < UINT64_MAX - 1 →
  wp (IndexedList_InsertAt node index) o (λ _ o' _, indexed o' (ztake index l ++ node :: zdrop index l)).
Proof.
  unfold indexed. intros Hl Hn Hi Hmax. destruct (ztake_zdrop_insert l node index Hi) as [E1 E2]. unfold IndexedList_InsertAt.
  apply wp_bind. eapply wp_mono; [by eapply list_count_ok|]. intros n o' ? [-> ->].
  apply wp_bind, wp_assert; [apply Z.leb_le; lia|]. apply wp_bind, wp_assert; [by apply Z.ltb_lt|].
  apply wp_bind. eapply wp_mono; [by eapply list_count_ok|]. intros n o' ? [-> ->].
  apply wp_bind. eapply wp_mono; [apply (list_insert_at_ok true false UINT64_MAX tt _ _ no_sums eq_refl o l node index); [done..|lia]|].
  intros [] o1 ? H1. apply wp_bind. eapply wp_mono; [apply (list_index_ok true false UINT64_MAX tt (λ _, tt) (λ _ _, tt) no_sums eq_refl _ _ _ _ H1)|]. intros n o' ? [-> ->].
  apply wp_bind, wp_assert; [by apply Z.eqb_eq|]. apply wp_bind. eapply wp_mono; [by eapply list_count_ok|].
  intros n o' ? [-> ->]. apply wp_assert; [|done]. apply Z.eqb_eq. rewrite E2. unfold u64.
  rewrite Z.mod_small; [done|]. unfold UINT64_MAX in *. lia.
Qed.

(** C23: An indexed list refines a list: insertion at an index shifts what is at
    it and behind it by one, removal takes exactly the node out, the count, the
    index of a node and the node at an index are those of the list, and so are
    the ends and the neighbours; no assertion fails and no count wraps around. *)
Theorem indexedlist_refines_list (o : Tree) (l : list ptr) : indexed o l →
  indexed (IndexedList_Init o) [] ∧
  (∀ node index, node ∉ l → 0 ≤ index ≤ len l → len l < UINT64_MAX - 1 → ∃ o',
    IndexedList_InsertAt node index o = Some (tt, o', []) ∧ indexed o' (ztake index l ++ node :: zdrop index l)) ∧
  IndexedList_Count o = Some (len l, o, []) ∧
  (∀ index p, 0 ≤ index → l !! Z.to_nat index = Some p → IndexedList_GetAt index o = Some (p, o, [])) ∧
  (∀ l1 node l2, l = l1 ++ node :: l2 →
    (∃ o', IndexedList_Remove node o = Some (tt, o', []) ∧ indexed o' (l1 ++ l2)) ∧
    IndexedList_IndexOf node o = Some (len l1, o, []) ∧
    IndexedList_GetNext node o = Some (head l2, o, []) ∧ IndexedList_GetPrev node o = Some (last l1, o, [])) ∧
  IndexedList_GetFirst o = Some (head l, o, []) ∧ IndexedList_GetLast o = Some (last l, o, []).
Proof.
  unfold indexed. intros Hl. split_and!.
  - exact (proj1 (cinit_ok true false UINT64_MAX tt (λ _, tt) (λ _ _, tt) (λ _ : Z, True) B_COMPARE Z.pos o ltac:(done))).
  - intros node index Hn Hi Hmax.
    destruct (run_unit _ _ _ (indexed_insert_ok o l node index Hl Hn Hi Hmax)) as ([] & o' & E & H). by exists o'.
  - by eapply run_read, list_count_ok.
  - intros index p Hi Hp. apply run_read. unfold IndexedList_GetAt. apply wp_bind.
    eapply wp_mono; [by eapply list_count_ok|]. intros n o' ? [-> ->].
    apply wp_bind, wp_assert; [apply lookup_lt_Some in Hp; apply Z.ltb_lt; unfold len; lia|].
    apply wp_bind. eapply wp_mono; [by eapply list_get_at_ok|]. intros r o' ? [-> ->]. by rewrite Hp.
  - intros l1 node l2 ->. destruct (list_next_ok _ _ _ _ _ _ _ _ _ _ Hl). split_and!; [|eapply run_read..]; try done.
    + destruct (run_unit _ _ _ (list_remove_ok true false UINT64_MAX tt _ _ no_sums o l1 node l2 Hl)) as ([] & o' & E & Hr).
      by exists o'.
    + by apply (list_index_ok true false UINT64_MAX tt (λ _, tt) (λ _ _, tt) no_sums eq_refl o l1 node l2).
  - by eapply run_read, list_first_ok.
  - by eapply run_read, list_last_ok.
Qed.

(** Five nodes inserted at the front and in the middle. *)
Definition ex_insert_at (o : Tree) (x : ptr * Z) : Tree :=
  match IndexedList_InsertAt x.1 x.2 o with Some (_, o', _) => o' | None => o end.
Definition ex_indexed : Tree :=
  foldl ex_insert_at (IndexedList_Init (MkCAvl (BAVL_Init ∅) ∅ ∅)) [(1%positive, 0); (2%positive, 0); (3%positive, 1); (4%positive, 3)].
Import BAVLTree.
Lemma ex_indexed_of : indexed ex_indexed [2; 3; 1; 4]%positive.
Proof.
  exists (Node 1 (Node 0 Leaf 2 Leaf) 3 (Node 1 Leaf 1 (Node 0 Leaf 4 Leaf)))%positive.
  split_and!; [|cbn; lia|done]. split.
  - constructor; [by vm_compute| |by repeat constructor]. by apply (bool_decide_unpack _).
  - split; [intros _; split; [by vm_compute|done]|done].
Qed.
Lemma indexedlist_refines_list_witness :
  IndexedList_GetAt 2 ex_indexed = Some (1%positive, ex_indexed, []) ∧
  IndexedList_IndexOf 4 ex_indexed = Some (3, ex_indexed, []) ∧
  ∃ o', IndexedList_InsertAt 9 1 ex_indexed = Some (tt, o', []) ∧ indexed o' [2; 9; 3; 1; 4]%positive.
Proof.
  destruct (indexedlist_refines_list ex_indexed _ ex_indexed_of) as (_ & Hins & _ & Hat & Hnode & _).
  split; [by apply (Hat 2)|]. split; [by apply (Hnode [2; 3; 1]%positive 4%positive [])|].
  apply (Hins 9%positive 1); [by apply (bool_decide_unpack _)|done|done].
Defined.
End IndexedListFacts.
