(* ===== verification/Device.v ===== *)
(** The TUN device side of tun2socks (tun2socks/tun2socks.c): packets read from
    the device are either UDP datagrams, handed to the udpgw client, or passed
    to lwIP; packets from lwIP and datagrams from udpgw are written to the
    device.

    The lwIP entry points ([pbuf_alloc], [ip_input], ...) are not modelled: the
    handlers emit the calls they make, and take the outcome of a call the code
    branches on as an argument. *)
From S2P Require Import Prelude Misc InetProto BAddr.

(** * State the handlers read *)
Module DeviceTypes.

(** The command-line options and globals of tun2socks.c used here; an optional
    [char *] option is whether it was given. *)
Record tun_config := TunConfig {
  opt_udpgw_remote_server_addr : bool;
  opt_udpgw_transparent_dns : bool;
  opt_netif_ip6addr : bool;
  netif_ipaddr_ipv4 : Z;
  udp_mtu : Z;
  device_mtu : Z
}.

(** Calls made by the device handlers. *)
Inductive dev_call :=
  | PacketPassInterface_Done
  | SocksUdpGwClient_SubmitPacket (local remote : BAddr) (is_dns : bool) (data : bytes)
  | pbuf_take (data : bytes)
  | netif_input (data : bytes)
  | ip_input (data : bytes)
  | ip6_input (data : bytes)
  | pbuf_free
  | BTap_Send (data : bytes).

End DeviceTypes.
Export DeviceTypes.

(** * Device to tunnel *)
Module DeviceRead.
Import Udp.

(** The IPv4 branch of [process_device_udp_packet]: the addresses, the DNS
    test and the UDP payload. *)
Definition process_device_udp4 (cfg : tun_config) (data : bytes)
    : option (BAddr * BAddr * bool * bytes) :=
  if (len data <? Ipv4.sizeof_ipv4_header) ||
     negb (byte_at data 9 =? Ipv4.IPV4_PROTOCOL_UDP) then None else
  match Ipv4.ipv4_check data with
  | None => None
  | Some (ipv4_header, data) =>
    match udp_check data with
    | None => None
    | Some (udp_header, data) =>
      let checksum_in_packet := checksum udp_header in
      let udp_header := udp_header <| checksum := 0 |> in
      let checksum_computed :=
        udp_checksum udp_header data (len data)
          (Ipv4.source_address ipv4_header) (Ipv4.destination_address ipv4_header) in
      if negb (checksum_in_packet =? checksum_computed) then None else
      let local_addr := BAddr_InitIPv4 (Ipv4.source_address ipv4_header) (source_port udp_header) in
      let remote_addr := BAddr_InitIPv4 (Ipv4.destination_address ipv4_header) (dest_port udp_header) in
      let is_dns := opt_udpgw_transparent_dns cfg
        && (Ipv4.destination_address ipv4_header =? netif_ipaddr_ipv4 cfg)
        && (dest_port udp_header =? hton16 53) in
      Some (local_addr, remote_addr, is_dns, data)
    end
  end.

(** The IPv6 branch. *)
Definition process_device_udp6 (cfg : tun_config) (data : bytes)
    : option (BAddr * BAddr * bool * bytes) :=
  if negb (opt_netif_ip6addr cfg) then None else
  if (len data <? Ipv6.sizeof_ipv6_header) ||
     negb (byte_at data 6 =? Ipv6.IPV6_NEXT_UDP) then None else
  match Ipv6.ipv6_check data with
  | None => None
  | Some (ipv6_header, data) =>
    match udp_check data with
    | None => None
    | Some (udp_header, data) =>
      let checksum_in_packet := checksum udp_header in
      let udp_header := udp_header <| checksum := 0 |> in
      let checksum_computed :=
        udp_ip6_checksum udp_header data (len data)
          (Ipv6.source_address ipv6_header) (Ipv6.destination_address ipv6_header) in
      if negb (checksum_in_packet =? checksum_computed) then None else
      let local_addr := BAddr_InitIPv6 (Ipv6.source_address ipv6_header) (source_port udp_header) in
      let remote_addr := BAddr_InitIPv6 (Ipv6.destination_address ipv6_header) (dest_port udp_header) in
      Some (local_addr, remote_addr, false, data)
    end
  end.

(** [None] is the return value 0 (the packet is not for udpgw); otherwise the
    packet submitted to the udpgw client. *)
Definition process_device_udp_packet (cfg : tun_config) (data : bytes)
    : option (BAddr * BAddr * bool * bytes) :=
  if negb (opt_udpgw_remote_server_addr cfg) then None else
  let ip_version := if 0 <? len data then Z.shiftr (byte_at data 0) 4 else 0 in
  let parsed :=
    if ip_version =? 4 then process_device_udp4 cfg data
    else if ip_version =? 6 then process_device_udp6 cfg data
    else None in
  match parsed with
  | None => None
  | Some (local_addr, remote_addr, is_dns, data) =>
      if udp_mtu cfg <? len data then None
      else Some (local_addr, remote_addr, is_dns, data)
  end.

(** [pbuf_ok] and [input_ok]: whether [pbuf_alloc] and [netif.input] succeed. *)
Definition device_read_handler_send (cfg : tun_config) (data : bytes)
    (pbuf_ok input_ok : bool) : list dev_call :=
  PacketPassInterface_Done ::
  match process_device_udp_packet cfg data with
  | Some (local_addr, remote_addr, is_dns, data) =>
      [SocksUdpGwClient_SubmitPacket local_addr remote_addr is_dns data]
  | None =>
      if UINT16_MAX <? len data then [] else
      if negb pbuf_ok then [] else
      pbuf_take data :: netif_input data :: (if negb input_ok then [pbuf_free] else [])
  end.

(** lwIP's input callback: dispatch on the IP version, free what is neither. *)
Definition netif_input_func (cfg : tun_config) (p : bytes) : list dev_call :=
  let ip_version := if 0 <? len p then Z.shiftr (byte_at p 0) 4 else 0 in
  if ip_version =? 4 then [ip_input p]
  else if (ip_version =? 6) && opt_netif_ip6addr cfg then [ip6_input p]
  else [pbuf_free].

End DeviceRead.

(** * Tunnel to device *)
Module DeviceWrite.
Import Udp.

(** The copy loop of [common_netif_output]: [written] is what [device_write_buf]
    holds, [None] the jump to [out] when the next chunk does not fit. *)
Fixpoint copy_chunks (mtu : Z) (written : bytes) (chain : list bytes) : option bytes :=
  match chain with
  | [] => Some written
  | payload :: next =>
      if mtu - len written <? len payload then None
      else copy_chunks mtu (written ++ payload) next
  end.

(** [chain] are the payloads of the pbuf chain, first chunk first. *)
Definition common_netif_output (cfg : tun_config) (quitting : bool) (chain : list bytes)
    : list dev_call :=
  if quitting then [] else
  match chain with
  | [] => []
  | [payload] =>
      if device_mtu cfg <? len payload then [] else [BTap_Send payload]
  | _ =>
      match copy_chunks (device_mtu cfg) [] chain with
      | Some packet => [BTap_Send packet]
      | None => []
      end
  end.

Definition udpgw_received_ipv4 (cfg : tun_config) (lip lport rip rport : Z) (data : bytes)
    : list dev_call :=
  let hdrs := Ipv4.sizeof_ipv4_header + sizeof_udp_header in
  if (UINT16_MAX - hdrs <? len data) || (device_mtu cfg - hdrs <? len data) then [] else
  let iph := {|
    Ipv4.version4_ihl4 := Ipv4.IPV4_MAKE_VERSION_IHL Ipv4.sizeof_ipv4_header;
    Ipv4.ds := hton8 0;
    Ipv4.total_length := hton16 (u16 (hdrs + len data));
    Ipv4.identification := hton16 0;
    Ipv4.flags3_fragmentoffset13 := hton16 0;
    Ipv4.ttl := hton8 64;
    Ipv4.protocol := hton8 Ipv4.IPV4_PROTOCOL_UDP;
    Ipv4.checksum := hton16 0;
    Ipv4.source_address := rip;
    Ipv4.destination_address := lip |} in
  let iph := iph <| Ipv4.checksum := Ipv4.ipv4_checksum iph [] 0 |> in
  let udph := UdpHeader rport lport (hton16 (u16 (sizeof_udp_header + len data))) (hton16 0) in
  let udph := udph <| checksum := udp_checksum udph data (len data) rip lip |> in
  [BTap_Send (Ipv4.ipv4_header_mem iph ++ udp_header_mem udph ++ data)].

Definition udpgw_received_ipv6 (cfg : tun_config) (lip : bytes) (lport : Z) (rip : bytes)
    (rport : Z) (data : bytes) : list dev_call :=
  if negb (opt_netif_ip6addr cfg) then [] else
  if (UINT16_MAX - sizeof_udp_header <? len data) ||
     (device_mtu cfg - (Ipv6.sizeof_ipv6_header + sizeof_udp_header) <? len data) then [] else
  let iph := {|
    Ipv6.version4_tc4 := hton8 (Z.shiftl 6 4);
    Ipv6.tc4_fl4 := hton8 0;
    Ipv6.fl := hton16 0;
    Ipv6.payload_length := hton16 (u16 (sizeof_udp_header + len data));
    Ipv6.next_header := hton8 Ipv6.IPV6_NEXT_UDP;
    Ipv6.hop_limit := hton8 64;
    Ipv6.source_address := take 16 rip;
    Ipv6.destination_address := take 16 lip |} in
  let udph := UdpHeader rport lport (hton16 (u16 (sizeof_udp_header + len data))) (hton16 0) in
  let udph := udph <| checksum := udp_ip6_checksum udph data (len data)
    (Ipv6.source_address iph) (Ipv6.destination_address iph) |> in
  [BTap_Send (Ipv6.ipv6_header_mem iph ++ udp_header_mem udph ++ data)].

(** The asserts demand an IPv4 or IPv6 pair of addresses of the same type. *)
Definition udpgw_client_handler_received (cfg : tun_config) (local_addr remote_addr : BAddr)
    (data : bytes) : option (list dev_call) :=
  match local_addr, remote_addr with
  | BADDR_IPV4 lip lport, BADDR_IPV4 rip rport =>
      Some (udpgw_received_ipv4 cfg lip lport rip rport data)
  | BADDR_IPV6 lip lport, BADDR_IPV6 rip rport =>
      Some (udpgw_received_ipv6 cfg lip lport rip rport data)
  | _, _ => None
  end.

End DeviceWrite.

(** * Properties *)
Module DeviceFacts.
Import Udp DeviceRead DeviceWrite.

(** ** Output *)

Lemma copy_chunks_spec mtu chain : ∀ written, len written ≤ mtu →
  copy_chunks mtu written chain =
    if len (written ++ concat chain) <=? mtu then Some (written ++ concat chain) else None.
Proof.
  induction chain as [|c chain IH]; intros written Hw; cbn [copy_chunks concat].
  - rewrite app_nil_r. by rewrite (proj2 (Z.leb_le _ _) Hw).
  - destruct (Z.ltb_spec (mtu - len written) (len c)) as [Hc|Hc].
    + rewrite (proj2 (Z.leb_gt _ _)); [done|]. rewrite !len_app.
      pose proof (len_nonneg (concat chain)). lia.
    + rewrite IH by (rewrite len_app; lia). by rewrite <- app_assoc.
Qed.

(** [common_netif_output] writes an lwIP packet to the device whole or not
    at all: for every non-empty pbuf chain it sends exactly the concatenation
    of the chunks when that fits the device MTU (so the copy never runs past
    [device_write_buf], which is MTU bytes long), and sends nothing when it
    does not fit or when the program is quitting. *)
Theorem common_netif_output_spec (cfg : tun_config) (quitting : bool) (chain : list bytes)
    (Hmtu : 0 ≤ device_mtu cfg) (Hchain : chain ≠ []) :
  common_netif_output cfg quitting chain =
    if negb quitting && (len (concat chain) <=? device_mtu cfg)
    then [BTap_Send (concat chain)] else [].
Proof.
  unfold common_netif_output. destruct quitting; [done|]. cbn [negb andb].
  destruct chain as [|c [|c' chain]]; [done| |].
  - cbn [concat]. rewrite app_nil_r, Z.leb_antisym. by destruct (device_mtu cfg <? len c).
  - rewrite copy_chunks_spec by done. cbn [app].
    by destruct (len (concat (c :: c' :: chain)) <=? device_mtu cfg).
Qed.

Definition sample_config : tun_config := {|
  opt_udpgw_remote_server_addr := true; opt_udpgw_transparent_dns := true;
  opt_netif_ip6addr := true; netif_ipaddr_ipv4 := 16777226; udp_mtu := 1400;
  device_mtu := 1500 |}.

Lemma common_netif_output_spec_witness :
  common_netif_output sample_config false [[1; 2]; []; [3]] = [BTap_Send [1; 2; 3]].
Proof.
  apply (common_netif_output_spec sample_config false [[1; 2]; []; [3]]);
    [vm_compute; discriminate|discriminate].
Defined.

(** ** Input *)

(** What a submission to udpgw must be: a UDP datagram in a well-formed IP
    packet, with a matching checksum and addresses read from the headers. *)
Definition udp4_submission (cfg : tun_config) (data : bytes) (l r : BAddr) (dns : bool)
    (payload : bytes) : Prop :=
  ∃ iph ip_payload udph,
    Ipv4.ipv4_packet data iph ip_payload ∧ Ipv4.protocol iph = Ipv4.IPV4_PROTOCOL_UDP ∧
    udp_datagram ip_payload udph payload ∧
    checksum udph = udp_checksum (udph <| checksum := 0 |>) payload (len payload)
      (Ipv4.source_address iph) (Ipv4.destination_address iph) ∧
    l = BADDR_IPV4 (Ipv4.source_address iph) (source_port udph) ∧
    r = BADDR_IPV4 (Ipv4.destination_address iph) (dest_port udph) ∧
    dns = opt_udpgw_transparent_dns cfg
      && (Ipv4.destination_address iph =? netif_ipaddr_ipv4 cfg) && (dest_port udph =? hton16 53).

Definition udp6_submission (data : bytes) (l r : BAddr) (dns : bool) (payload : bytes) : Prop :=
  ∃ iph ip_payload udph,
    Ipv6.ipv6_packet data iph ip_payload ∧ Ipv6.next_header iph = Ipv6.IPV6_NEXT_UDP ∧
    udp_datagram ip_payload udph payload ∧
    checksum udph = udp_ip6_checksum (udph <| checksum := 0 |>) payload (len payload)
      (Ipv6.source_address iph) (Ipv6.destination_address iph) ∧
    l = BADDR_IPV6 (Ipv6.source_address iph) (source_port udph) ∧
    r = BADDR_IPV6 (Ipv6.destination_address iph) (dest_port udph) ∧ dns = false.


Lemma version_nibble h : is_u8 (Ipv4.version4_ihl4 h) →
  Ipv4.IPV4_GET_VERSION h = Z.shiftr (Ipv4.version4_ihl4 h) 4.
Proof.
  intros Hv. unfold Ipv4.IPV4_GET_VERSION. rewrite Z.shiftr_land.
  change (Z.shiftr 240 4) with (Z.ones 4). rewrite Z.land_ones by lia.
  apply Z.mod_small. rewrite Z.shiftr_div_pow2 by lia. unfold is_u8 in Hv.
  split; [apply Z.div_pos; lia|apply Z.div_lt_upper_bound; lia].
Qed.

Lemma ipv4_packet_head data h p : Ipv4.ipv4_packet data h p →
  20 ≤ len data ∧ byte_at data 9 = Ipv4.protocol h ∧ Z.shiftr (byte_at data 0) 4 = 4.
Proof.
  intros (o & t & -> & Hok & Hv & _). rewrite !len_app.
  change (len (Ipv4.ipv4_header_mem h)) with 20.
  split_and!; [len_lia|done|]. refine (eq_trans _ Hv). symmetry. apply version_nibble, Hok.
Qed.
Lemma ipv6_packet_head data h p : Ipv6.ipv6_packet data h p →
  40 ≤ len data ∧ byte_at data 6 = Ipv6.next_header h ∧ Z.shiftr (byte_at data 0) 4 = 6
  ∧ ip6_addr_ok (Ipv6.source_address h) ∧ ip6_addr_ok (Ipv6.destination_address h).
Proof.
  intros (t & -> & Hok & Hv & _). rewrite !len_app.
  assert (len (Ipv6.ipv6_header_mem h) = 40) by (unfold len; by rewrite Ipv6.ipv6_header_mem_length).
  split_and!; [len_lia|done|done|apply Hok..].
Qed.
Lemma ip_payload_ok data : bytes_ok data →
  (∀ h p, Ipv4.ipv4_packet data h p → bytes_ok p) ∧
  (∀ h p, Ipv6.ipv6_packet data h p → bytes_ok p).
Proof.
  intros Hd. split.
  - intros h p (o & t & -> & _). rewrite !bytes_ok_app in Hd. tauto.
  - intros h p (t & -> & _). rewrite !bytes_ok_app in Hd. tauto.
Qed.

Lemma process_udp4_spec cfg data l r dns p : bytes_ok data →
  process_device_udp4 cfg data = Some (l, r, dns, p) ↔ udp4_submission cfg data l r dns p.
Proof.
  intros Hd. unfold process_device_udp4, Ipv4.sizeof_ipv4_header. split.
  - case_match; [done|]. bool_to_prop.
    destruct (Ipv4.ipv4_check data) as [[iph ipp]|] eqn:Hi; [|done].
    destruct (udp_check ipp) as [[udph pl]|] eqn:Hu; [|done].
    apply Ipv4.ipv4_check_sound in Hi; [|done].
    apply udp_check_sound in Hu; [|by eapply (proj1 (ip_payload_ok data Hd))].
    pose proof (ipv4_packet_head _ _ _ Hi) as (_ & Hproto & _).
    case_match; [done|]; bool_to_prop.
    intros [= <- <- <- <-]. exists iph, ipp, udph. split_and!; auto; congruence.
  - intros (iph & ipp & udph & Hi & Hproto & Hu & Hc & -> & -> & ->).
    pose proof (ipv4_packet_head _ _ _ Hi) as (H20 & H9 & _).
    rewrite (proj2 (Z.ltb_ge _ _) H20), H9, Hproto, Z.eqb_refl. cbn [negb orb].
    rewrite (Ipv4.ipv4_check_complete _ _ _ Hd Hi), (udp_check_complete _ _ _ Hu).
    by rewrite Hc at 1; rewrite Z.eqb_refl.
Qed.

Lemma process_udp6_spec cfg data l r dns p : bytes_ok data →
  process_device_udp6 cfg data = Some (l, r, dns, p) ↔
  opt_netif_ip6addr cfg = true ∧ udp6_submission data l r dns p.
Proof.
  intros Hd. unfold process_device_udp6, Ipv6.sizeof_ipv6_header.
  destruct (opt_netif_ip6addr cfg); [cbn [negb]|by split; [|intros []]]. split.
  - case_match; [done|]. bool_to_prop.
    destruct (Ipv6.ipv6_check data) as [[iph ipp]|] eqn:Hi; [|done].
    destruct (udp_check ipp) as [[udph pl]|] eqn:Hu; [|done].
    apply Ipv6.ipv6_check_sound in Hi; [|done].
    apply udp_check_sound in Hu; [|by eapply (proj2 (ip_payload_ok data Hd))].
    pose proof (ipv6_packet_head _ _ _ Hi) as (_ & Hproto & _ & Hs & Hd').
    case_match; [done|]; bool_to_prop. unfold BAddr_InitIPv6, BAddr_MakeIPv6.
    rewrite !take_ge by (rewrite (proj1 Hs) || rewrite (proj1 Hd'); done).
    intros [= <- <- <- <-]. split; [done|].
    exists iph, ipp, udph. split_and!; auto; congruence.
  - intros (_ & iph & ipp & udph & Hi & Hproto & Hu & Hc & -> & -> & ->).
    pose proof (ipv6_packet_head _ _ _ Hi) as (H20 & H9 & _ & [Hs _] & [Hd' _]).
    rewrite (proj2 (Z.ltb_ge _ _) H20), H9, Hproto, Z.eqb_refl. cbn [negb orb].
    rewrite (Ipv6.ipv6_check_complete _ _ _ Hi), (udp_check_complete _ _ _ Hu).
    rewrite Hc at 1. rewrite Z.eqb_refl. unfold BAddr_InitIPv6, BAddr_MakeIPv6. cbn [negb].
    by rewrite !take_ge by (rewrite ?Hs, ?Hd'; done).
Qed.

Lemma submission_version cfg data l r dns p :
  (udp4_submission cfg data l r dns p → 0 < len data ∧ Z.shiftr (byte_at data 0) 4 = 4) ∧
  (udp6_submission data l r dns p → 0 < len data ∧ Z.shiftr (byte_at data 0) 4 = 6).
Proof.
  split.
  - intros (iph & ipp & udph & Hi & _). apply ipv4_packet_head in Hi as (? & _ & ?).
    split; [lia|done].
  - intros (iph & ipp & udph & Hi & _). apply ipv6_packet_head in Hi as (? & _ & ? & _).
    split; [lia|done].
Qed.

Lemma process_udp_sound cfg data l r dns p : bytes_ok data →
  process_device_udp_packet cfg data = Some (l, r, dns, p) →
  opt_udpgw_remote_server_addr cfg = true ∧ len p ≤ udp_mtu cfg ∧
  (udp4_submission cfg data l r dns p ∨
   opt_netif_ip6addr cfg = true ∧ udp6_submission data l r dns p).
Proof.
  intros Hd. unfold process_device_udp_packet.
  destruct (opt_udpgw_remote_server_addr cfg); [cbn [negb]|done].
  set (v := if 0 <? len data then _ else _). destruct (v =? 4).
  - destruct (process_device_udp4 cfg data) as [[[[l' r'] d'] p']|] eqn:Hp; [|done].
    case_match; [done|]. intros [= -> -> -> ->]. bool_to_prop.
    apply process_udp4_spec in Hp; auto.
  - destruct (v =? 6); [|done].
    destruct (process_device_udp6 cfg data) as [[[[l' r'] d'] p']|] eqn:Hp; [|done].
    case_match; [done|]. intros [= -> -> -> ->]. bool_to_prop.
    apply process_udp6_spec in Hp; auto.
Qed.

Lemma process_udp_complete cfg data l r dns p : bytes_ok data →
  opt_udpgw_remote_server_addr cfg = true → len p ≤ udp_mtu cfg →
  udp4_submission cfg data l r dns p ∨
    opt_netif_ip6addr cfg = true ∧ udp6_submission data l r dns p →
  process_device_udp_packet cfg data = Some (l, r, dns, p).
Proof.
  intros Hd Hu Hm Hs. unfold process_device_udp_packet. rewrite Hu. cbn [negb].
  pose proof (submission_version cfg data l r dns p) as [H4 H6]. destruct Hs as [H|[Ho H]].
  - destruct (H4 H) as [Hl ->]. rewrite (proj2 (Z.ltb_lt _ _) Hl). cbn [Z.eqb Pos.eqb].
    apply process_udp4_spec in H as ->; [|done]. by rewrite (proj2 (Z.ltb_ge _ _) Hm).
  - destruct (H6 H) as [Hl ->]. rewrite (proj2 (Z.ltb_lt _ _) Hl). cbn [Z.eqb Pos.eqb].
    rewrite (proj2 (process_udp6_spec cfg data l r dns p Hd)) by done.
    by rewrite (proj2 (Z.ltb_ge _ _) Hm).
Qed.

(** C13: a packet from the device is taken for udpgw exactly when udpgw is
    configured and the packet is a UDP datagram in a well-formed IPv4 packet
    (or IPv6 packet, when IPv6 is enabled) with a matching checksum and a
    payload within the udpgw MTU; what is submitted is that payload with the
    addresses of the headers, marked DNS only for IPv4 datagrams to port 53 of
    the network interface's own address with transparent DNS on. *)
Theorem process_device_udp_packet_spec (cfg : tun_config) (data : bytes) (l r : BAddr)
    (dns : bool) (p : bytes) (Hd : bytes_ok data) :
  process_device_udp_packet cfg data = Some (l, r, dns, p) ↔
  opt_udpgw_remote_server_addr cfg = true ∧ len p ≤ udp_mtu cfg ∧
  (udp4_submission cfg data l r dns p ∨
   opt_netif_ip6addr cfg = true ∧ udp6_submission data l r dns p).
Proof.
  split; [by apply process_udp_sound|].
  intros (? & ? & ?). by apply process_udp_complete.
Qed.

Definition sample_device_packet : bytes :=
  [69; 0; 0; 31; 0; 0; 0; 0; 64; 17; 102; 204; 10; 0; 0; 2; 10; 0; 0; 1;
   19; 136; 0; 53; 0; 11; 212; 22; 1; 2; 3].

Lemma process_device_udp_packet_spec_witness :
  udp4_submission sample_config sample_device_packet
    (BADDR_IPV4 33554442 (hton16 5000)) (BADDR_IPV4 16777226 (hton16 53)) true [1; 2; 3].
Proof.
  destruct (proj1 (process_device_udp_packet_spec sample_config sample_device_packet
    (BADDR_IPV4 33554442 (hton16 5000)) (BADDR_IPV4 16777226 (hton16 53)) true [1; 2; 3]
    (InetFacts.bytes_dec sample_device_packet eq_refl))) as (_ & _ & [H|[_ H]]).
  - vm_compute. reflexivity.
  - exact H.
  - exfalso. destruct H as (? & ? & ? & _ & _ & _ & _ & E & _). discriminate E.
Defined.

(** ** Round trip *)

Lemma ipv4_checksum_header_u16 h : Ipv4.ipv4_header_ok h → is_u16 (Ipv4.ipv4_checksum h [] 0).
Proof.
  intros Hh. change 0 with (2 * 0) at 1.
  rewrite (Ipv4.ipv4_checksum_val h [] 0 Hh); [apply hton16_u16|bytes_solve|done..].
Qed.

(** A header without options that carries its computed checksum makes a
    packet. *)
Lemma ipv4_packet_built h payload : Ipv4.ipv4_header_ok h → bytes_ok payload →
  Ipv4.version4_ihl4 h = 69 → Ipv4.checksum h = hton16 0 →
  ntoh16 (Ipv4.total_length h) = 20 + len payload →
  Ipv4.ipv4_packet
    (Ipv4.ipv4_header_mem (h <| Ipv4.checksum := Ipv4.ipv4_checksum h [] 0 |>) ++ payload)
    (h <| Ipv4.checksum := Ipv4.ipv4_checksum h [] 0 |>) payload.
Proof.
  intros Hh Hp Hv Hc Htl. pose proof (ipv4_checksum_header_u16 h Hh) as Hu.
  set (c := Ipv4.ipv4_checksum h [] 0) in *. set (h' := h <| Ipv4.checksum := c |>).
  assert (Ipv4.ipv4_header_ok h') as Hh'.
  { unfold Ipv4.ipv4_header_ok in *. subst h'. cbn. destruct_and! Hh. by split_and!. }
  assert (Ipv4.IPV4_GET_VERSION h' = 4 ∧ Ipv4.IPV4_GET_IHL h' = 5) as [Hver Hihl].
  { unfold Ipv4.IPV4_GET_VERSION, Ipv4.IPV4_GET_IHL. subst h'. cbn. by rewrite Hv. }
  assert (h' <| Ipv4.checksum := hton16 0 |> = h) as Hback.
  { rewrite <- Hc. by destruct h. }
  exists [], []. rewrite app_nil_r. cbn [app].
  destruct (proj1 (Ipv4.ipv4_checksum_test h' [] [] Hh' (Forall_nil_2 _) Hver
    ltac:(exists 0; by split))) as [H1 H2]; [by rewrite Hback|].
  by split_and!; rewrite ?Hihl.
Qed.

Lemma udp_datagram_built h payload : udp_header_ok h → ntoh16 (length16 h) = 8 + len payload →
  udp_datagram (udp_header_mem h ++ payload) h payload.
Proof. intros. exists []. rewrite app_nil_r. by split_and!. Qed.

Lemma udpgw_received_ipv4_submission cfg lip lport rip rport data :
  is_u32 lip → is_u32 rip → is_u16 lport → is_u16 rport → bytes_ok data →
  len data ≤ UINT16_MAX - 28 → len data ≤ device_mtu cfg - 28 →
  ∃ pkt, udpgw_received_ipv4 cfg lip lport rip rport data = [BTap_Send pkt] ∧
    len pkt = 28 + len data ∧ bytes_ok pkt ∧
    udp4_submission cfg pkt (BADDR_IPV4 rip rport) (BADDR_IPV4 lip lport)
      (opt_udpgw_transparent_dns cfg && (lip =? netif_ipaddr_ipv4 cfg) && (lport =? hton16 53))
      data.
Proof.
  intros Hl Hr Hlp Hrp Hd H16 Hm. unfold udpgw_received_ipv4.
  change (Ipv4.sizeof_ipv4_header + sizeof_udp_header) with 28.
  rewrite (proj2 (Z.ltb_ge _ _) H16), (proj2 (Z.ltb_ge _ _) Hm). cbn [orb].
  set (iph0 := {| Ipv4.version4_ihl4 := _ |}).
  set (udph0 := UdpHeader _ _ _ _).
  unfold UINT16_MAX in H16. pose proof (len_nonneg data) as Hnn.
  assert (u16 (28 + len data) = 28 + len data) as E1 by (apply Z.mod_small; lia).
  assert (u16 (sizeof_udp_header + len data) = 8 + len data) as E2
    by (apply Z.mod_small; unfold sizeof_udp_header; lia).
  assert (Ipv4.ipv4_header_ok iph0) as Hh.
  { unfold Ipv4.ipv4_header_ok; cbn [Ipv4.version4_ihl4 Ipv4.ds Ipv4.total_length
      Ipv4.identification Ipv4.flags3_fragmentoffset13 Ipv4.ttl Ipv4.protocol Ipv4.checksum
      Ipv4.source_address Ipv4.destination_address iph0].
    split_and!; first [done | apply hton16_u16 | by vm_compute]. }
  set (c := udp_checksum udph0 data (len data) rip lip).
  assert (udp_header_ok (udph0 <| checksum := c |>)) as Hu.
  { unfold udp_header_ok. cbn. split_and!; [done|done|apply hton16_u16|].
    apply udp_checksum_u16; [done|lia]. }
  assert (ntoh16 (length16 udph0) = 8 + len data) as Hul.
  { unfold udph0. cbn [length16]. rewrite E2. apply ntoh16_hton16. unfold is_u16. lia. }
  assert (bytes_ok (udp_header_mem (udph0 <| checksum := c |>) ++ data)) as Hub.
  { apply bytes_ok_app. split; [apply udp_header_mem_ok|done]. }
  pose proof (ipv4_packet_built iph0 _ Hh Hub eq_refl eq_refl) as Hip.
  ospecialize (Hip _).
  { unfold iph0.
    cbn [Ipv4.total_length]. rewrite E1, ntoh16_hton16 by (unfold is_u16; lia).
    rewrite len_app. change (len (udp_header_mem _)) with 8. lia. }
  eexists. split; [done|]. split_and!.
  - rewrite !len_app. change (len (Ipv4.ipv4_header_mem _)) with 20.
    change (len (udp_header_mem _)) with 8. lia.
  - apply bytes_ok_app. split; [|done]. apply Ipv4.ipv4_header_mem_ok.
    by destruct Hip as (? & ? & _ & ? & _).
  - eexists _, _, (udph0 <| checksum := c |>).
    split_and!; [exact Hip|done|by apply udp_datagram_built|done..].
Qed.
Lemma udpgw_received_ipv6_submission cfg lip lport rip rport data :
  ip6_addr_ok lip → ip6_addr_ok rip → is_u16 lport → is_u16 rport → bytes_ok data →
  opt_netif_ip6addr cfg = true →
  len data ≤ UINT16_MAX - 8 → len data ≤ device_mtu cfg - 48 →
  ∃ pkt, udpgw_received_ipv6 cfg lip lport rip rport data = [BTap_Send pkt] ∧
    len pkt = 48 + len data ∧ bytes_ok pkt ∧
    udp6_submission pkt (BADDR_IPV6 rip rport) (BADDR_IPV6 lip lport) false data.
Proof.
  intros Hl Hr Hlp Hrp Hd Ho H16 Hm. unfold udpgw_received_ipv6. rewrite Ho. cbn [negb].
  change (Ipv6.sizeof_ipv6_header + sizeof_udp_header) with 48.
  change (UINT16_MAX - sizeof_udp_header) with (UINT16_MAX - 8).
  rewrite (proj2 (Z.ltb_ge _ _) H16), (proj2 (Z.ltb_ge _ _) Hm). cbn [orb].
  rewrite (take_ge rip), (take_ge lip) by (rewrite ?(proj1 Hl), ?(proj1 Hr); done).
  set (iph := {| Ipv6.version4_tc4 := _ |}). set (udph0 := UdpHeader _ _ _ _).
  unfold UINT16_MAX in H16. pose proof (len_nonneg data) as Hnn.
  assert (u16 (sizeof_udp_header + len data) = 8 + len data) as E2
    by (apply Z.mod_small; unfold sizeof_udp_header; lia).
  assert (Ipv6.ipv6_header_ok iph) as Hh.
  { unfold Ipv6.ipv6_header_ok; cbn [Ipv6.version4_tc4 Ipv6.tc4_fl4 Ipv6.fl
      Ipv6.payload_length Ipv6.next_header Ipv6.hop_limit Ipv6.source_address
      Ipv6.destination_address iph].
    split_and!; first [apply Hl | apply Hr | apply hton16_u16 | by vm_compute]. }
  change (Ipv6.source_address iph) with rip. change (Ipv6.destination_address iph) with lip.
  set (c := udp_ip6_checksum udph0 data (len data) rip lip).
  assert (udp_header_ok (udph0 <| checksum := c |>)) as Hu.
  { unfold udp_header_ok. cbn. split_and!; [done|done|apply hton16_u16|].
    apply udp_ip6_checksum_u16; [done|lia|done|done]. }
  assert (ntoh16 (length16 udph0) = 8 + len data) as Hul.
  { unfold udph0. cbn [length16]. rewrite E2. apply ntoh16_hton16. unfold is_u16. lia. }
  assert (len (Ipv6.ipv6_header_mem iph) = 40) as Hlen
    by (unfold len; by rewrite Ipv6.ipv6_header_mem_length).
  eexists. split; [done|]. split_and!.
  - rewrite !len_app, Hlen. change (len (udp_header_mem _)) with 8. lia.
  - rewrite !bytes_ok_app. split_and!; [|apply udp_header_mem_ok|done].
    by apply Ipv6.ipv6_header_mem_ok.
  - eexists iph, _, (udph0 <| checksum := c |>).
    split_and!; [|done|by apply udp_datagram_built|done..].
    exists []. rewrite app_nil_r. split_and!; [done|done|done|].
    cbn [Ipv6.payload_length iph]. rewrite E2, ntoh16_hton16 by (unfold is_u16; lia).
    rewrite len_app. by change (len (udp_header_mem _)) with 8.
Qed.

(** The largest datagram that can be delivered to the device. *)
Definition deliverable (cfg : tun_config) (a : BAddr) (data : bytes) : Prop :=
  match a with
  | BADDR_IPV4 _ _ => len data ≤ Z.min UINT16_MAX (device_mtu cfg) - 28
  | _ => opt_netif_ip6addr cfg = true ∧
         len data ≤ Z.min (UINT16_MAX - 8) (device_mtu cfg - 48)
  end.

Definition same_family (a b : BAddr) : Prop := BAddr_type a = BAddr_type b.

(** C26: a datagram received from udpgw is written to the device as one IP packet
    within the device MTU, and it is a well-formed one: read back from the
    device it is recognised as a UDP datagram with the same payload, from the
    remote to the local address. *)
Theorem udpgw_received_roundtrip (cfg : tun_config) (l r : BAddr) (data : bytes)
    (Hl : BAddr_ok l) (Hr : BAddr_ok r) (Hf : same_family l r) (Hd : bytes_ok data)
    (Hudpgw : opt_udpgw_remote_server_addr cfg = true) (Hmtu : len data ≤ udp_mtu cfg)
    (Hfit : deliverable cfg l data) :
  ∃ pkt dns, udpgw_client_handler_received cfg l r data = Some [BTap_Send pkt] ∧
    len pkt ≤ device_mtu cfg ∧ process_device_udp_packet cfg pkt = Some (r, l, dns, data).
Proof.
  destruct l as [|lip lp|lip lp|], r as [|rip rp|rip rp|]; try done.
  - cbn [deliverable] in Hfit.
    edestruct (udpgw_received_ipv4_submission cfg lip lp rip rp data) as (pkt & E & Hlen & Hok & Hs);
      [apply Hl|apply Hr|apply Hl|apply Hr|done|lia|lia|].
    exists pkt. eexists. cbn [udpgw_client_handler_received]. rewrite E.
    split_and!; [done|lia|]. apply process_udp_complete; eauto.
  - destruct Hfit as [Ho Hfit].
    edestruct (udpgw_received_ipv6_submission cfg lip lp rip rp data) as (pkt & E & Hlen & Hok & Hs);
      [apply Hl|apply Hr|apply Hl|apply Hr|done|done|lia|lia|].
    exists pkt. eexists. cbn [udpgw_client_handler_received]. rewrite E.
    split_and!; [done|lia|]. apply process_udp_complete; eauto.
Qed.

Lemma udpgw_received_roundtrip_witness :
  ∃ pkt dns, udpgw_client_handler_received sample_config
    (BADDR_IPV4 33554442 (hton16 5000)) (BADDR_IPV4 16777226 (hton16 53)) [1; 2; 3]
    = Some [BTap_Send pkt] ∧ len pkt ≤ 1500 ∧
    process_device_udp_packet sample_config pkt
    = Some (BADDR_IPV4 16777226 (hton16 53), BADDR_IPV4 33554442 (hton16 5000), dns, [1; 2; 3]).
Proof.
  apply (udpgw_received_roundtrip sample_config); [split; vm_compute; split; congruence..| | | | |].
  - reflexivity.
  - apply InetFacts.bytes_dec. reflexivity.
  - reflexivity.
  - vm_compute. discriminate.
  - vm_compute. discriminate.
Defined.
End DeviceFacts.
