(* ===== verification/ChunkBuffer2.v ===== *)
(** The circular packet buffer structure/ChunkBuffer2.h.

    The array of blocks is its memory, four bytes per block; a packet is a
    header block that holds its length followed by whole blocks of data.
    [input_dest] and [output_dest] are byte offsets into that memory, [None]
    being the null pointer. *)
From S2P Require Import Prelude Misc.

(** * The code *)
Module ChunkBuffer2Code.

Definition sizeof_block : Z := 4.

Record ChunkBuffer2 := MkChunkBuffer2 {
  buffer : bytes;
  size : Z;
  wrap : Z;
  start : Z;
  used : Z;
  mtu : Z;
  input_dest : option Z;
  input_avail : Z;
  output_dest : option Z;
  output_avail : Z
}.
#[global] Instance eta_ChunkBuffer2 : Eta ChunkBuffer2 := λ x,
  MkChunkBuffer2 (buffer x) (size x) (wrap x) (start x) (used x) (mtu x)
    (input_dest x) (input_avail x) (output_dest x) (output_avail x).

(** [buf->buffer[i].len], read and assigned. *)
Definition block_len (mem : bytes) (i : Z) : Z :=
  s32 (badvpn_read_le32 (zdrop (sizeof_block * i) mem)).
Definition set_block_len (i l : Z) (mem : bytes) : bytes :=
  zwrite (sizeof_block * i) (mem32 l) mem.

Definition data_wrapped (buf : ChunkBuffer2) : bool := wrap buf - start buf <=? used buf.

Definition _ChunkBuffer2_end (buf : ChunkBuffer2) : Z :=
  if data_wrapped buf then used buf - (wrap buf - start buf) else start buf + used buf.

Definition _ChunkBuffer2_assert_buffer (buf : ChunkBuffer2) : bool :=
  (0 <? size buf) && (0 <? wrap buf) && (wrap buf <=? size buf) &&
  (0 <=? start buf) && (start buf <? wrap buf) &&
  (0 <=? used buf) && (used buf <=? wrap buf) &&
  ((wrap buf =? size buf) || (wrap buf - start buf <=? used buf)) &&
  (0 <=? mtu buf).

(** The number of free blocks, computed alike in both functions below. *)
Definition free_blocks (buf : ChunkBuffer2) : Z :=
  let e := _ChunkBuffer2_end buf in
  if data_wrapped buf then start buf - e else size buf - e.

Definition _ChunkBuffer2_assert_io (buf : ChunkBuffer2) : bool :=
  let e := _ChunkBuffer2_end buf in
  (if size buf - e - 1 <? mtu buf then
     bool_decide (input_dest buf = None) && (input_avail buf =? -1)
   else if 0 <? free_blocks buf then
     bool_decide (input_dest buf = Some (sizeof_block * (e + 1))) &&
     (input_avail buf =? s32 ((free_blocks buf - 1) * sizeof_block))
   else bool_decide (input_dest buf = None) && (input_avail buf =? -1)) &&
  (if 0 <? used buf then
     let datalen := block_len (buffer buf) (start buf) in
     (0 <=? datalen) &&
     (let blocklen := bdivide_up datalen sizeof_block in
      (blocklen <=? used buf - 1) && (blocklen <=? wrap buf - start buf - 1) &&
      bool_decide (output_dest buf = Some (sizeof_block * (start buf + 1))) &&
      (output_avail buf =? datalen))
   else bool_decide (output_dest buf = None) && (output_avail buf =? -1)).

Definition _ChunkBuffer2_update_input (buf : ChunkBuffer2) : ChunkBuffer2 :=
  let e := _ChunkBuffer2_end buf in
  if size buf - e - 1 <? mtu buf then
    buf <| input_dest := None |> <| input_avail := -1 |>
  else if 0 <? free_blocks buf then
    buf <| input_dest := Some (sizeof_block * (e + 1)) |>
        <| input_avail := s32 ((free_blocks buf - 1) * sizeof_block) |>
  else
    buf <| input_dest := None |> <| input_avail := -1 |>.

Definition _ChunkBuffer2_update_output (buf : ChunkBuffer2) : option ChunkBuffer2 :=
  if 0 <? used buf then
    let datalen := block_len (buffer buf) (start buf) in
    ASSERT_ (0 <=? datalen);
    let blocklen := bdivide_up datalen sizeof_block in
    ASSERT_ (blocklen <=? used buf - 1);
    ASSERT_ (blocklen <=? wrap buf - start buf - 1);
    Some (buf <| output_dest := Some (sizeof_block * (start buf + 1)) |>
              <| output_avail := datalen |>)
  else Some (buf <| output_dest := None |> <| output_avail := -1 |>).

Definition ChunkBuffer2_calc_blocks (chunk_len num : Z) : Z :=
  let chunk_data_blocks := bdivide_up chunk_len sizeof_block in
  if INT_MAX - 1 <? chunk_data_blocks then -1 else
  let chunk_blocks := 1 + chunk_data_blocks in
  if INT_MAX - 1 <? num then -1 else
  let num_chunks := num + 1 in
  if INT_MAX / num_chunks <? chunk_blocks then -1 else
  chunk_blocks * num_chunks.

Definition ChunkBuffer2_Init (mem : bytes) (blocks m : Z) : option ChunkBuffer2 :=
  ASSERT_ (0 <? blocks);
  ASSERT_ (0 <=? m);
  let buf := {| buffer := mem; size := blocks; wrap := blocks; start := 0; used := 0;
                mtu := bdivide_up m sizeof_block; input_dest := None; input_avail := -1;
                output_dest := None; output_avail := -1 |} in
  ASSERT_ (_ChunkBuffer2_assert_buffer buf);
  match _ChunkBuffer2_update_output (_ChunkBuffer2_update_input buf) with
  | Some buf => ASSERT_ (_ChunkBuffer2_assert_io buf); Some buf
  | None => None
  end.

Definition ChunkBuffer2_SubmitPacket (buf : ChunkBuffer2) (l : Z) : option ChunkBuffer2 :=
  ASSERT_ (bool_decide (is_Some (input_dest buf)));
  ASSERT_ (0 <=? l);
  ASSERT_ (l <=? input_avail buf);
  ASSERT_ (_ChunkBuffer2_assert_buffer buf);
  ASSERT_ (_ChunkBuffer2_assert_io buf);
  let e := _ChunkBuffer2_end buf in
  let blocklen := bdivide_up l sizeof_block in
  ASSERT_ (blocklen <=? size buf - e - 1);
  ASSERT_ ((used buf <? wrap buf - start buf) || (blocklen <=? start buf - e - 1));
  let buf := buf <| buffer := set_block_len e l (buffer buf) |> in
  let buf := buf <| used := used buf + (1 + blocklen) |> in
  let buf :=
    if (used buf <=? wrap buf - start buf) && (size buf - (e + 1 + blocklen) - 1 <? mtu buf)
    then buf <| wrap := e + 1 + blocklen |> else buf in
  ASSERT_ (_ChunkBuffer2_assert_buffer buf);
  let buf := _ChunkBuffer2_update_input buf in
  match (if used buf =? 1 + blocklen then _ChunkBuffer2_update_output buf else Some buf) with
  | Some buf => ASSERT_ (_ChunkBuffer2_assert_io buf); Some buf
  | None => None
  end.

Definition ChunkBuffer2_ConsumePacket (buf : ChunkBuffer2) : option ChunkBuffer2 :=
  ASSERT_ (bool_decide (is_Some (output_dest buf)));
  ASSERT_ (_ChunkBuffer2_assert_buffer buf);
  ASSERT_ (_ChunkBuffer2_assert_io buf);
  ASSERT_ (1 <=? wrap buf - start buf);
  ASSERT_ (1 <=? used buf);
  let blocklen := bdivide_up (block_len (buffer buf) (start buf)) sizeof_block in
  ASSERT_ (blocklen <=? wrap buf - start buf - 1);
  ASSERT_ (blocklen <=? used buf - 1);
  let wrapped := data_wrapped buf in
  let buf := buf <| start := start buf + (1 + blocklen) |> in
  let buf := buf <| used := used buf - (1 + blocklen) |> in
  let buf := if start buf =? wrap buf
             then buf <| start := 0 |> <| wrap := size buf |> else buf in
  ASSERT_ (_ChunkBuffer2_assert_buffer buf);
  let buf := if wrapped then _ChunkBuffer2_update_input buf else buf in
  match _ChunkBuffer2_update_output buf with
  | Some buf => ASSERT_ (_ChunkBuffer2_assert_io buf); Some buf
  | None => None
  end.

(** The user of the buffer writes a packet to [input_dest] before submitting
    it, and reads it at [output_dest]. *)
Definition write_input (buf : ChunkBuffer2) (data : bytes) : ChunkBuffer2 :=
  match input_dest buf with
  | Some d => buf <| buffer := zwrite d data (buffer buf) |>
  | None => buf
  end.
Definition output_packet (buf : ChunkBuffer2) : option bytes :=
  d ← output_dest buf; Some (zslice d (output_avail buf) (buffer buf)).

End ChunkBuffer2Code.

(** * The buffer as a queue of packets *)
Module ChunkBuffer2Facts.
Import ChunkBuffer2Code.

(** Blocks a packet occupies, its header included. *)
Definition blocks (p : bytes) : Z := 1 + bdivide_up (len p) sizeof_block.
Definition total (pkts : list bytes) : Z := foldr (λ p n, blocks p + n) 0 pkts.

Lemma blocks_spec p : 1 ≤ blocks p ∧ 4 * (blocks p - 2) < len p ≤ 4 * (blocks p - 1).
Proof.
  unfold blocks, sizeof_block. pose proof (len_nonneg p).
  pose proof (bdivide_up_spec (len p) 4). pose proof (bdivide_up_nonneg (len p) 4). lia.
Qed.
Lemma total_nonneg ps : 0 ≤ total ps.
Proof. induction ps as [|p ps IH]; cbn [total foldr]; [done|]. pose proof (blocks_spec p). unfold total in IH. lia. Qed.
Lemma total_cons p ps : total (p :: ps) = blocks p + total ps.
Proof. done. Qed.
Lemma total_app ps qs : total (ps ++ qs) = total ps + total qs.
Proof. induction ps as [|p ps IH]; [done|]. cbn [app]. rewrite !total_cons, IH. lia. Qed.
Lemma total_pos ps : ps ≠ [] ↔ 0 < total ps.
Proof.
  destruct ps as [|p ps]; [done|]. rewrite total_cons.
  pose proof (blocks_spec p). pose proof (total_nonneg ps). split; [lia|done].
Qed.

(** The packets [pkts] lie in memory one after the other from block [off] on,
    each starting at block [lim] or before. *)
Fixpoint layout (lim : Z) (mem : bytes) (off : Z) (pkts : list bytes) : Prop :=
  match pkts with
  | [] => True
  | p :: ps =>
      off ≤ lim ∧ block_len mem off = len p ∧
      zslice (sizeof_block * (off + 1)) (len p) mem = p ∧
      layout lim mem (off + blocks p) ps
  end.

Lemma layout_app lim mem ps : ∀ off qs,
  layout lim mem off (ps ++ qs) ↔ layout lim mem off ps ∧ layout lim mem (off + total ps) qs.
Proof.
  induction ps as [|p ps IH]; intros off qs; cbn [app layout].
  - rewrite Z.add_0_r. tauto.
  - rewrite IH, total_cons, Z.add_assoc. tauto.
Qed.

Lemma block_len_slice mem i : block_len mem i = s32 (badvpn_read_le32 (zslice (4 * i) 4 mem)).
Proof.
  unfold block_len, zslice, sizeof_block. f_equal. unfold badvpn_read_le32, byte_at, ztake.
  by destruct (zdrop (4 * i) mem) as [|? [|? [|? [|??]]]].
Qed.

(** Only the memory the packets occupy matters. *)
Lemma layout_frame lim mem mem' ps : ∀ off, 0 ≤ off →
  (∀ o n, 4 * off ≤ o → 0 ≤ n → o + n ≤ 4 * (off + total ps) → zslice o n mem' = zslice o n mem) →
  layout lim mem off ps → layout lim mem' off ps.
Proof.
  induction ps as [|p ps IH]; intros off Hoff Hm; [done|].
  cbn [layout]. rewrite !block_len_slice. rewrite total_cons in Hm. unfold sizeof_block.
  pose proof (blocks_spec p). pose proof (total_nonneg ps).
  intros (? & Hl & Hp & Hr). split_and!; [done| | |].
  - rewrite Hm; [done|lia..].
  - rewrite Hm; [done|lia|len_lia|lia].
  - apply IH; [lia| |done]. intros. apply Hm; lia.
Qed.

(** ** Invariant *)

Definition lim (b : ChunkBuffer2) : Z := size b - mtu b - 1.

(** Where the packets are: from [start] up to [wrap] and then from the
    beginning when the data is wrapped, from [start] on otherwise. *)
Definition placed (b : ChunkBuffer2) (pkts : list bytes) : Prop :=
  ∃ ps qs, pkts = ps ++ qs ∧
    layout (lim b) (buffer b) (start b) ps ∧ layout (lim b) (buffer b) 0 qs ∧
    if data_wrapped b
    then total ps = wrap b - start b ∧ total qs = used b - (wrap b - start b) ∧
         size b - mtu b ≤ wrap b
    else qs = [] ∧ total ps = used b ∧ start b + used b ≤ lim b.

Record core (b : ChunkBuffer2) (pkts : list bytes) : Prop := {
  core_assert : _ChunkBuffer2_assert_buffer b = true;
  core_mem : len (buffer b) = 4 * size b;
  core_small : 4 * size b ≤ INT_MAX;
  core_mtu : 0 ≤ lim b;
  core_placed : placed b pkts
}.

(** The pointers handed to the user. *)
Definition in_ok (b : ChunkBuffer2) : Prop :=
  let e := _ChunkBuffer2_end b in
  if (e <=? lim b) && (0 <? free_blocks b)
  then input_dest b = Some (4 * (e + 1)) ∧ input_avail b = 4 * (free_blocks b - 1)
  else input_dest b = None ∧ input_avail b = -1.
Definition out_ok (b : ChunkBuffer2) (pkts : list bytes) : Prop :=
  match pkts with
  | [] => output_dest b = None ∧ output_avail b = -1
  | p :: _ => output_dest b = Some (4 * (start b + 1)) ∧ output_avail b = len p
  end.

(** [holds b pkts]: the buffer is well-formed and contains [pkts], oldest
    first. *)
Definition holds (b : ChunkBuffer2) (pkts : list bytes) : Prop :=
  core b pkts ∧ in_ok b ∧ out_ok b pkts.

Lemma assert_buffer_iff b : _ChunkBuffer2_assert_buffer b = true ↔
  0 < size b ∧ 0 < wrap b ≤ size b ∧ 0 ≤ start b < wrap b ∧ 0 ≤ used b ≤ wrap b ∧
  (wrap b = size b ∨ wrap b - start b ≤ used b) ∧ 0 ≤ mtu b.
Proof.
  unfold _ChunkBuffer2_assert_buffer.
  rewrite !andb_true_iff, orb_true_iff, !Z.ltb_lt, !Z.leb_le, Z.eqb_eq. lia.
Qed.

Lemma placed_head b p pkts : _ChunkBuffer2_assert_buffer b = true → placed b (p :: pkts) →
  0 < used b ∧ block_len (buffer b) (start b) = len p ∧
  zslice (4 * (start b + 1)) (len p) (buffer b) = p ∧ start b ≤ lim b ∧
  blocks p ≤ used b ∧ blocks p ≤ wrap b - start b.
Proof.
  intros Ha ([|p' ps] & qs & E & Hps & Hqs & H); apply assert_buffer_iff in Ha.
  - unfold data_wrapped in H.
    destruct (Z.leb_spec (wrap b - start b) (used b)); cbn [total foldr] in H; [lia|].
    by destruct H as [-> _].
  - injection E as <- ->. destruct Hps as (Hl & Hb & Hd & _).
    pose proof (blocks_spec p). pose proof (total_nonneg ps). pose proof (total_nonneg qs).
    split_and!; try done; unfold data_wrapped in H;
      destruct (Z.leb_spec (wrap b - start b) (used b)); rewrite total_cons in H; lia.
Qed.

Lemma placed_nil b : _ChunkBuffer2_assert_buffer b = true → placed b [] → used b = 0.
Proof.
  intros Ha (ps & qs & E & _ & _ & H). apply assert_buffer_iff in Ha.
  symmetry in E. apply app_nil in E as [-> ->]. unfold data_wrapped in H.
  destruct (Z.leb_spec (wrap b - start b) (used b)); cbn [total foldr] in H; lia.
Qed.

Lemma end_bounds b pkts : core b pkts →
  0 ≤ _ChunkBuffer2_end b ∧ _ChunkBuffer2_end b + free_blocks b ≤ size b ∧
  _ChunkBuffer2_end b ≤ lim b ∧ (free_blocks b ≤ 0 → _ChunkBuffer2_end b = start b).
Proof.
  intros [Ha%assert_buffer_iff Hm Hs Hl (ps & qs & E & Hps & Hqs & H)].
  unfold _ChunkBuffer2_end, free_blocks, _ChunkBuffer2_end, data_wrapped in *.
  destruct (Z.leb_spec (wrap b - start b) (used b)).
  - assert (start b ≤ lim b); [|lia].
    destruct ps as [|p ps]; [cbn [total foldr] in H; lia|]. by destruct Hps.
  - unfold lim in *. lia.
Qed.

Lemma update_input_spec b pkts : core b pkts →
  in_ok (_ChunkBuffer2_update_input b) ∧ core (_ChunkBuffer2_update_input b) pkts.
Proof.
  intros Hc. pose proof (end_bounds b pkts Hc) as (H1 & H2 & H3 & _).
  assert (∀ x y, core (b <| input_dest := x |> <| input_avail := y |>) pkts) as Hcore.
  { intros. destruct Hc; by constructor. }
  unfold _ChunkBuffer2_update_input.
  destruct (Z.ltb_spec (size b - _ChunkBuffer2_end b - 1) (mtu b)); [unfold lim in H3; lia|].
  pose proof (core_small _ _ Hc).
  destruct (0 <? free_blocks b) eqn:Hf; (split; [|apply Hcore]); unfold in_ok; cbv zeta;
    set (b' := _ <| input_avail := _ |>);
    change (_ChunkBuffer2_end b') with (_ChunkBuffer2_end b);
    change (free_blocks b') with (free_blocks b); change (lim b') with (lim b);
    rewrite Hf, (proj2 (Z.leb_le _ _) H3); cbn [andb]; [|done].
  bool_to_prop. split; [done|]. cbn. rewrite s32_small; unfold sizeof_block, INT_MAX in *; lia.
Qed.

(** The output update is determined by the oldest packet. *)
Definition set_out (b : ChunkBuffer2) (pkts : list bytes) : ChunkBuffer2 :=
  match pkts with
  | [] => b <| output_dest := None |> <| output_avail := -1 |>
  | p :: _ => b <| output_dest := Some (4 * (start b + 1)) |> <| output_avail := len p |>
  end.

Lemma update_output_spec b pkts : core b pkts → in_ok b →
  _ChunkBuffer2_update_output b = Some (set_out b pkts) ∧ holds (set_out b pkts) pkts.
Proof.
  intros Hc Hi. assert (holds (set_out b pkts) pkts) as Hh.
  { destruct Hc. by destruct pkts; split_and!. }
  split; [|done]. unfold _ChunkBuffer2_update_output. destruct pkts as [|p pkts].
  - by rewrite (placed_nil b (core_assert _ _ Hc) (core_placed _ _ Hc)).
  - destruct (placed_head b p pkts (core_assert _ _ Hc) (core_placed _ _ Hc))
      as (Hu & Hl & _ & _ & H1 & H2).
    rewrite (proj2 (Z.ltb_lt _ _) Hu), Hl. cbv zeta. pose proof (len_nonneg p).
    unfold blocks in *. by rewrite !(proj2 (Z.leb_le _ _)) by lia.
Qed.

Lemma holds_assert_io b pkts : holds b pkts → _ChunkBuffer2_assert_io b = true.
Proof.
  intros (Hc & Hi & Ho). pose proof (end_bounds b pkts Hc) as (H1 & H2 & H3 & _).
  pose proof (core_small _ _ Hc). unfold _ChunkBuffer2_assert_io. cbv zeta.
  unfold in_ok in Hi. cbv zeta in Hi. rewrite (proj2 (Z.leb_le _ _) H3) in Hi. cbn [andb] in Hi.
  destruct (Z.ltb_spec (size b - _ChunkBuffer2_end b - 1) (mtu b)); [unfold lim in H3; lia|].
  apply andb_true_iff. split.
  - destruct (Z.ltb_spec 0 (free_blocks b)); destruct Hi as [-> ->]; [|done].
    rewrite bool_decide_eq_true_2 by done. apply Z.eqb_eq.
    rewrite s32_small; unfold sizeof_block, INT_MAX in *; lia.
  - destruct pkts as [|p pkts].
    + rewrite (placed_nil b (core_assert _ _ Hc) (core_placed _ _ Hc)). by destruct Ho as [-> ->].
    + destruct (placed_head b p pkts (core_assert _ _ Hc) (core_placed _ _ Hc))
        as (Hu & Hl & _ & _ & Hb1 & Hb2).
      rewrite (proj2 (Z.ltb_lt _ _) Hu), Hl. destruct Ho as [-> ->].
      pose proof (len_nonneg p). unfold blocks in *.
      rewrite !(proj2 (Z.leb_le _ _)), bool_decide_eq_true_2, Z.eqb_refl by (lia || done). done.
Qed.

(** ** Consuming *)

Definition advance (b : ChunkBuffer2) (n : Z) : ChunkBuffer2 :=
  let b := b <| start := start b + n |> <| used := used b - n |> in
  if start b =? wrap b then b <| start := 0 |> <| wrap := size b |> else b.

Lemma advance_core b p pkts : core b (p :: pkts) → core (advance b (blocks p)) pkts.
Proof.
  intros Hc. pose proof (end_bounds _ _ Hc) as (He0 & _ & Helim & _).
  destruct Hc as [Ha Hm Hs Hl Hpl].
  pose proof (placed_head b p pkts Ha Hpl) as (Hu & _ & _ & Hlim & Hb1 & Hb2).
  apply assert_buffer_iff in Ha. pose proof (blocks_spec p) as Hbl.
  destruct Hpl as ([|p' ps] & qs & E & Hps & Hqs & H).
  { unfold data_wrapped in H. cbn [total foldr] in H. case_match; bool_to_prop; [lia|].
    by destruct H as [-> _]. }
  injection E as <- ->. destruct Hps as (_ & _ & _ & Hps). rewrite total_cons in H.
  pose proof (total_nonneg ps). unfold advance. cbn [start used wrap size upd].
  unfold _ChunkBuffer2_end, data_wrapped, lim in *.
  destruct (Z.leb_spec (wrap b - start b) (used b)) as [Hw|Hw].
  - destruct H as (H1 & H2 & H3).
    destruct (Z.eqb_spec (start b + blocks p) (wrap b)) as [Heq|Hne].
    + assert (ps = []) as -> by (destruct (decide (ps = [])) as [|Hn]; [done|apply total_pos in Hn; lia]).
      constructor; [apply assert_buffer_iff|..]; cbn; try done; try lia.
      exists qs, []. unfold lim. cbn. rewrite app_nil_r. split_and!; try done.
      unfold data_wrapped. cbn. case_match; bool_to_prop; [|split; [done|]]; lia.
    + constructor; [apply assert_buffer_iff|..]; cbn; try done; try lia.
      exists ps, qs. unfold lim. cbn. split_and!; try done.
      unfold data_wrapped. cbn. case_match; bool_to_prop; lia.
  - destruct H as (-> & H2 & H3).
    destruct (Z.eqb_spec (start b + blocks p) (wrap b)) as [Heq|Hne]; [lia|].
    constructor; [apply assert_buffer_iff|..]; cbn; try done; try lia.
    exists ps, []. unfold lim. cbn. split_and!; try done.
    unfold data_wrapped. cbn. case_match; bool_to_prop; [|split; [done|]]; lia.
Qed.

Lemma advance_in_ok b p pkts : core b (p :: pkts) → data_wrapped b = false → in_ok b →
  in_ok (advance b (blocks p)).
Proof.
  intros Hc Hw Hi. destruct Hc as [Ha _ _ Hl Hpl].
  pose proof (placed_head b p pkts Ha Hpl) as (Hu & _ & _ & Hlim & Hb1 & Hb2).
  apply assert_buffer_iff in Ha. destruct Hpl as (ps & qs & _ & _ & _ & H).
  rewrite Hw in H. unfold in_ok, free_blocks, advance, _ChunkBuffer2_end in *. cbn.
  rewrite Hw in Hi. unfold data_wrapped, lim in *. bool_to_prop.
  destruct (Z.eqb_spec (start b + blocks p) (wrap b)) as [Heq|Hne]; [lia|]. cbn.
  destruct (Z.leb_spec (wrap b - (start b + blocks p)) (used b - blocks p)); [lia|].
  replace (start b + blocks p + (used b - blocks p)) with (start b + used b) by lia. done.
Qed.

(** Consuming never takes room away. *)
Lemma advance_free b p pkts : core b (p :: pkts) →
  _ChunkBuffer2_end (advance b (blocks p)) = _ChunkBuffer2_end b ∧
  free_blocks b ≤ free_blocks (advance b (blocks p)).
Proof.
  intros Hc. pose proof (advance_core _ _ _ Hc) as [Ha' _ _ _ _].
  destruct Hc as [Ha _ _ _ Hpl]. pose proof (blocks_spec p).
  pose proof (placed_head b p pkts Ha Hpl) as (Hu & _ & _ & Hlim & Hb1 & Hb2).
  apply assert_buffer_iff in Ha, Ha'. unfold advance in *. cbn in *.
  unfold free_blocks, _ChunkBuffer2_end, data_wrapped.
  destruct (Z.eqb_spec (start b + blocks p) (wrap b)); cbn in *;
    repeat (case_match; bool_to_prop); lia.
Qed.

Lemma avail_mono b b' : in_ok b → in_ok b' → _ChunkBuffer2_end b' = _ChunkBuffer2_end b →
  lim b' = lim b → free_blocks b ≤ free_blocks b' → input_avail b ≤ input_avail b'.
Proof.
  unfold in_ok. cbv zeta. intros H1 H2 E1 E2 Hf. rewrite E1, E2 in H2.
  destruct (Z.leb_spec (_ChunkBuffer2_end b) (lim b)), (Z.ltb_spec 0 (free_blocks b)),
    (Z.ltb_spec 0 (free_blocks b')); cbn [andb] in *; lia.
Qed.

Lemma consume_holds b p pkts : holds b (p :: pkts) →
  output_packet b = Some p ∧
  ∃ b', ChunkBuffer2_ConsumePacket b = Some b' ∧ holds b' pkts ∧ size b' = size b ∧
    mtu b' = mtu b ∧ input_avail b ≤ input_avail b'.
Proof.
  intros Hh. pose proof (holds_assert_io _ _ Hh) as Hio. destruct Hh as (Hc & Hi & Ho1 & Ho2).
  pose proof (core_assert _ _ Hc) as Ha.
  destruct (placed_head b p pkts Ha (core_placed _ _ Hc)) as (Hu & Hl & Hd & Hlim & Hb1 & Hb2).
  split. { unfold output_packet. rewrite Ho1, Ho2. cbn. by rewrite Hd. }
  unfold ChunkBuffer2_ConsumePacket. rewrite Ho1, Ha, Hio, Hl. cbv zeta.
  rewrite bool_decide_eq_true_2 by done. pose proof (blocks_spec p) as Hbl.
  unfold blocks in Hb1, Hb2, Hbl. rewrite !(proj2 (Z.leb_le _ _)) by lia.
  change (1 + bdivide_up (len p) sizeof_block) with (blocks p).
  lazymatch goal with |- context [_ChunkBuffer2_assert_buffer ?x] =>
    change x with (advance b (blocks p)) end.
  pose proof (advance_core _ _ _ Hc) as Hc'. rewrite (core_assert _ _ Hc').
  set (b1 := if data_wrapped b then _ else _).
  assert (in_ok b1 ∧ core b1 pkts) as [Hi1 Hc1].
  { unfold b1. destruct (data_wrapped b) eqn:Hw; [by apply update_input_spec|].
    split; [by eapply advance_in_ok|done]. }
  destruct (update_output_spec b1 pkts Hc1 Hi1) as [-> Hh1].
  rewrite (holds_assert_io _ _ Hh1). eexists. split; [done|]. split; [done|].
  assert (size (set_out b1 pkts) = size b1 ∧ mtu (set_out b1 pkts) = mtu b1 ∧
    input_avail (set_out b1 pkts) = input_avail b1) as (-> & -> & ->) by by destruct pkts.
  destruct (advance_free _ _ _ Hc) as [He Hf].
  assert (size b1 = size b ∧ mtu b1 = mtu b ∧ _ChunkBuffer2_end b1 = _ChunkBuffer2_end (advance b (blocks p))
    ∧ free_blocks b1 = free_blocks (advance b (blocks p))) as (E1 & E2 & E3 & E4).
  { assert (size (advance b (blocks p)) = size b ∧ mtu (advance b (blocks p)) = mtu b) as [<- <-]
      by (unfold advance; by case_match).
    unfold b1, _ChunkBuffer2_update_input. by repeat case_match. }
  split_and!; [done|done|]. apply avail_mono; [done|done|congruence|unfold lim; lia|lia].
Qed.

(** ** Submitting *)

Lemma core_frame b pkts mem : core b pkts → len mem = len (buffer b) →
  (∀ o n, 0 ≤ o → 0 ≤ n →
    o + n ≤ 4 * _ChunkBuffer2_end b ∨ 4 * (_ChunkBuffer2_end b + free_blocks b) ≤ o →
    zslice o n mem = zslice o n (buffer b)) →
  core (b <| buffer := mem |>) pkts.
Proof.
  intros [Ha Hm Hs Hl (ps & qs & -> & Hps & Hqs & H)] Hlen Hf.
  constructor; try done; [by cbn; rewrite Hlen|]. exists ps, qs. split; [done|].
  change (data_wrapped (b <| buffer := mem |>)) with (data_wrapped b).
  apply assert_buffer_iff in Ha. pose proof (total_nonneg ps). pose proof (total_nonneg qs).
  split_and!; [| |done];
    (eapply layout_frame; [cbn; lia| |eassumption]); cbn; intros o n ???; apply Hf; try lia;
    unfold _ChunkBuffer2_end, free_blocks, _ChunkBuffer2_end, data_wrapped, lim in *;
    destruct (Z.leb_spec (wrap b - start b) (used b)); try lia;
    destruct H as [-> _]; cbn [total foldr] in *; lia.
Qed.

(** The memory after a packet of [n] blocks was written and its header set. *)
Definition submitted (mem : bytes) (e : Z) (data : bytes) : bytes :=
  set_block_len e (len data) (zwrite (sizeof_block * (e + 1)) data mem).

Lemma mem32_len x : len (mem32 x) = 4.
Proof. done. Qed.

Lemma submitted_spec mem e data : 0 ≤ e → 4 * (e + blocks data) ≤ len mem →
  len mem ≤ INT_MAX →
  len (submitted mem e data) = len mem ∧
  (∀ l, e ≤ l → layout l (submitted mem e data) e [data]) ∧
  (∀ o n, 0 ≤ o → 0 ≤ n → o + n ≤ 4 * e ∨ 4 * (e + blocks data) ≤ o →
    zslice o n (submitted mem e data) = zslice o n mem).
Proof.
  intros He Hb Hm. pose proof (blocks_spec data) as (Hb1 & _ & Hb2). pose proof (len_nonneg data).
  unfold submitted, set_block_len, sizeof_block. set (mem1 := zwrite (4 * (e + 1)) data mem).
  assert (len mem1 = len mem) as H1 by (apply len_zwrite; lia).
  assert (∀ o, o = 4 * e → zslice o 4 (zwrite o (mem32 (len data)) mem1) = mem32 (len data)) as Hhd.
  { intros o ->. apply (zslice_zwrite_same (4 * e) (mem32 (len data))); rewrite ?mem32_len; lia. }
  split_and!.
  - rewrite len_zwrite; rewrite ?mem32_len; lia.
  - intros l Hl. cbn [layout]. split_and!; [done| | |done].
    + rewrite block_len_slice, Hhd by done. unfold INT_MAX in *.
      rewrite <- (app_nil_r (mem32 _)), read_le32_mem32 by (unfold is_u32; lia).
      apply s32_small. lia.
    + unfold sizeof_block. rewrite zslice_zwrite_after by (rewrite ?mem32_len; lia).
      apply zslice_zwrite_same; lia.
  - intros o n Ho Hn [Hbef|Haft].
    + rewrite zslice_zwrite_before by lia. apply zslice_zwrite_before; lia.
    + rewrite zslice_zwrite_after by (rewrite ?mem32_len; lia). apply zslice_zwrite_after; lia.
Qed.

(** The indices after a packet of [n] blocks is added. *)
Definition append (b : ChunkBuffer2) (e n : Z) : ChunkBuffer2 :=
  let b := b <| used := used b + n |> in
  if (used b <=? wrap b - start b) && (size b - (e + n) - 1 <? mtu b)
  then b <| wrap := e + n |> else b.

Lemma append_core b pkts data : core b pkts → blocks data ≤ free_blocks b →
  layout (lim b) (buffer b) (_ChunkBuffer2_end b) [data] →
  core (append b (_ChunkBuffer2_end b) (blocks data)) (pkts ++ [data]).
Proof.
  intros Hc Hf Hd. pose proof (end_bounds _ _ Hc) as (He0 & He1 & Helim & _).
  destruct Hc as [Ha Hm Hs Hl (ps & qs & -> & Hps & Hqs & H)].
  apply assert_buffer_iff in Ha. pose proof (blocks_spec data) as (Hbl & _).
  pose proof (total_nonneg ps). pose proof (total_nonneg qs).
  unfold append. cbn [start used wrap size mtu upd].
  unfold free_blocks, _ChunkBuffer2_end, data_wrapped, lim in *.
  destruct (Z.leb_spec (wrap b - start b) (used b)) as [Hw|Hw].
  - destruct (Z.leb_spec (used b + blocks data) (wrap b - start b)); [lia|]. cbn [andb].
    constructor; [apply assert_buffer_iff|..]; cbn; try done; try lia.
    exists ps, (qs ++ [data]). unfold lim. cbn. split_and!; [by rewrite app_assoc|done| |].
    + apply layout_app. split; [done|]. destruct H as (_ & -> & _). done.
    + rewrite total_app, total_cons. unfold data_wrapped. cbn. case_match; bool_to_prop; lia.
  - destruct H as (-> & H2 & H3). rewrite app_nil_r.
    destruct (Z.leb_spec (used b + blocks data) (wrap b - start b)); [|lia]. cbn [andb].
    rewrite <- H2 in Hd.
    destruct (Z.ltb_spec (size b - (start b + used b + blocks data) - 1) (mtu b));
      (constructor; [apply assert_buffer_iff|..]; cbn; try done; try lia);
      exists (ps ++ [data]), []; unfold lim; cbn; rewrite app_nil_r, layout_app, total_app, total_cons;
      (split_and!; try done); unfold data_wrapped; cbn;
      case_match; bool_to_prop; cbn [total foldr]; try lia. split; [done|lia].
Qed.

Lemma append_frame b e n : start (append b e n) = start b ∧ size (append b e n) = size b ∧
  mtu (append b e n) = mtu b ∧ used (append b e n) = used b + n ∧
  output_dest (append b e n) = output_dest b ∧ output_avail (append b e n) = output_avail b.
Proof. unfold append. by case_match. Qed.
Lemma update_input_frame b : let b' := _ChunkBuffer2_update_input b in
  start b' = start b ∧ size b' = size b ∧ mtu b' = mtu b ∧ used b' = used b ∧
  output_dest b' = output_dest b ∧ output_avail b' = output_avail b.
Proof. unfold _ChunkBuffer2_update_input. by repeat case_match. Qed.

(** Writing the packet data leaves what the buffer holds. *)
Lemma write_holds b pkts data : holds b pkts → is_Some (input_dest b) →
  len data ≤ input_avail b →
  let e := _ChunkBuffer2_end b in
  write_input b data = b <| buffer := zwrite (sizeof_block * (e + 1)) data (buffer b) |> ∧
  holds (write_input b data) pkts ∧
  core (b <| buffer := submitted (buffer b) e data |>) pkts ∧
  layout (lim b) (submitted (buffer b) e data) e [data] ∧
  0 < free_blocks b ∧ blocks data ≤ free_blocks b.
Proof.
  intros (Hc & Hi & Ho) [d Hd] Hl e. pose proof (end_bounds _ _ Hc) as (He0 & He1 & Helim & _).
  pose proof (blocks_spec data) as Hbl. pose proof (core_mem _ _ Hc). pose proof (core_small _ _ Hc).
  pose proof Hi as Hi'. unfold in_ok in Hi'. cbv zeta in Hi'.
  case_match; [|destruct Hi' as [Hi' _]; congruence]. bool_to_prop. destruct Hi' as [Hi1 Hi2].
  assert (write_input b data = b <| buffer := zwrite (sizeof_block * (e + 1)) data (buffer b) |>) as Ew
    by (unfold write_input; by rewrite Hi1).
  destruct (submitted_spec (buffer b) e data) as (Hs1 & Hs2 & Hs3); [done|lia|lia|].
  split_and!; [done| | |by apply Hs2|done|lia].
  - rewrite Ew. split_and!; [|done|by destruct pkts]. apply core_frame; [done| |].
    + apply len_zwrite; unfold sizeof_block; lia.
    + unfold sizeof_block. fold e. intros o n ?? [|].
      * apply zslice_zwrite_before; lia.
      * apply zslice_zwrite_after; lia.
  - apply core_frame; [done|done|]. intros. apply Hs3; unfold e in *; lia.
Qed.

Lemma submit_holds b pkts data : holds b pkts → is_Some (input_dest b) →
  len data ≤ input_avail b →
  ∃ b', ChunkBuffer2_SubmitPacket (write_input b data) (len data) = Some b' ∧
    holds b' (pkts ++ [data]) ∧ size b' = size b ∧ mtu b' = mtu b.
Proof.
  intros Hh Hd Hl. destruct (write_holds _ _ _ Hh Hd Hl) as (Ew & Hhw & Hc & Hlay & Hf & Hfb).
  pose proof (end_bounds _ _ (proj1 Hh)) as (He0 & He1 & Helim & _).
  cbv zeta in *. set (e := _ChunkBuffer2_end b) in *. pose proof (len_nonneg data).
  pose proof (append_core _ _ data Hc Hfb Hlay) as Hca.
  change (_ChunkBuffer2_end (b <| buffer := _ |>)) with e in Hca.
  unfold ChunkBuffer2_SubmitPacket. set (bw := write_input b data) in *.
  assert (bool_decide (is_Some (input_dest bw)) = true) as ->
    by (rewrite bool_decide_eq_true; by rewrite Ew).
  assert ((len data <=? input_avail bw) = true) as -> by (rewrite Ew; by apply Z.leb_le).
  assert (_ChunkBuffer2_end bw = e) as -> by by rewrite Ew.
  rewrite (proj2 (Z.leb_le 0 (len data))), (core_assert _ _ (proj1 Hhw)), (holds_assert_io _ _ Hhw)
    by done.
  assert ((bdivide_up (len data) sizeof_block <=? size bw - e - 1) = true) as ->.
  { rewrite Ew. apply Z.leb_le. cbn. unfold blocks in *. lia. }
  assert ((used bw <? wrap bw - start bw)
    || (bdivide_up (len data) sizeof_block <=? start bw - e - 1) = true) as ->.
  { rewrite Ew. cbn. unfold free_blocks, data_wrapped in *. fold e in Hf, Hfb.
    destruct (Z.leb_spec (wrap b - start b) (used b)).
    - apply orb_true_iff. right. apply Z.leb_le. unfold blocks in *. lia.
    - apply orb_true_iff. left. by apply Z.ltb_lt. }
  cbv zeta. rewrite <- (Z.add_assoc e 1).
  change (1 + bdivide_up (len data) sizeof_block) with (blocks data). rewrite Ew.
  lazymatch goal with |- context [_ChunkBuffer2_assert_buffer ?x] =>
    change x with (append (b <| buffer := submitted (buffer b) e data |>) e (blocks data)) end.
  set (b1 := append _ e _) in *. rewrite (core_assert _ _ Hca).
  destruct (update_input_spec _ _ Hca) as [Hi2 Hc2].
  pose proof (update_input_frame b1) as (F1 & F2 & F3 & F4 & F5 & F6).
  pose proof (append_frame (b <| buffer := submitted (buffer b) e data |>) e (blocks data))
    as (G1 & G2 & G3 & G4 & G5 & G6). fold b1 in G1, G2, G3, G4, G5, G6.
  set (b2 := _ChunkBuffer2_update_input b1) in *.
  assert (size b2 = size b ∧ mtu b2 = mtu b) as [Es Em] by (rewrite F2, F3, G2, G3; done).
  destruct (Z.eqb_spec (used b2) (blocks data)) as [Eu|Eu].
  - destruct (update_output_spec _ _ Hc2 Hi2) as [-> Hh2].
    rewrite (holds_assert_io _ _ Hh2). eexists. split_and!; [done|done|..];
    by destruct (pkts ++ [data]).
  - assert (holds b2 (pkts ++ [data])) as Hh2.
    { split_and!; [done|done|]. destruct Hh as (Hc0 & _ & Ho). destruct pkts as [|p pkts].
      - exfalso. apply Eu. rewrite F4, G4. cbn.
        rewrite (placed_nil b (core_assert _ _ Hc0) (core_placed _ _ Hc0)). lia.
      - cbn [app out_ok] in *. by rewrite F1, F5, F6, G1, G5, G6. }
    rewrite (holds_assert_io _ _ Hh2). by eexists.
Qed.

(** ** Initialising *)

Lemma init_holds mem blocks m : 0 ≤ m → 0 < blocks → len mem = 4 * blocks →
  4 * blocks ≤ INT_MAX → bdivide_up m sizeof_block < blocks →
  ∃ b, ChunkBuffer2_Init mem blocks m = Some b ∧ holds b [] ∧
    size b = blocks ∧ mtu b = bdivide_up m sizeof_block.
Proof.
  intros Hm Hb Hl Hs Hsz. unfold ChunkBuffer2_Init.
  rewrite (proj2 (Z.ltb_lt _ _) Hb), (proj2 (Z.leb_le _ _) Hm). cbv zeta. set (b := MkChunkBuffer2 _ _ _ _ _ _ _ _ _ _).
  assert (0 ≤ bdivide_up m sizeof_block) by (by apply bdivide_up_nonneg).
  assert (core b []) as Hc.
  { constructor; [apply assert_buffer_iff|..]; unfold lim; cbn; try done; try lia.
    exists [], []. split_and!; [done..|]. unfold data_wrapped, lim. cbn.
    case_match; bool_to_prop; [lia|]. split_and!; [done|done|lia]. }
  rewrite (core_assert _ _ Hc). destruct (update_input_spec _ _ Hc) as [Hi2 Hc2].
  pose proof (update_input_frame b) as (_ & F2 & F3 & _).
  destruct (update_output_spec _ _ Hc2 Hi2) as [-> Hh2].
  rewrite (holds_assert_io _ _ Hh2). by eexists.
Qed.

(** ** Capacity *)

Lemma calc_blocks_spec chunk_len num : 0 ≤ chunk_len → 0 ≤ num →
  0 ≤ ChunkBuffer2_calc_blocks chunk_len num →
  ChunkBuffer2_calc_blocks chunk_len num = (1 + bdivide_up chunk_len sizeof_block) * (num + 1) ∧
  ChunkBuffer2_calc_blocks chunk_len num ≤ INT_MAX.
Proof.
  intros Hc Hn. unfold ChunkBuffer2_calc_blocks.
  pose proof (bdivide_up_nonneg chunk_len sizeof_block Hc ltac:(done)).
  repeat (case_match; [done|]). bool_to_prop. intros _. split; [done|].
  pose proof (Z.mul_div_le INT_MAX (num + 1)). nia.
Qed.

Lemma total_max ps c : Forall (λ p, blocks p ≤ c) ps → total ps ≤ c * len ps.
Proof.
  induction 1 as [|p ps Hp Hps IH]; [change (0 ≤ c * 0); lia|].
  rewrite total_cons, len_cons. lia.
Qed.

Lemma free_capacity b pkts num : core b pkts → size b = (1 + mtu b) * (num + 1) →
  Forall (λ p, blocks p ≤ 1 + mtu b) pkts → len pkts < num →
  1 + mtu b ≤ free_blocks b.
Proof.
  intros [Ha _ _ Hl (ps & qs & -> & Hps & Hqs & H)] Hsz Hall Hn.
  apply assert_buffer_iff in Ha. apply Forall_app in Hall as [H1%total_max H2%total_max].
  rewrite len_app in Hn. unfold free_blocks, _ChunkBuffer2_end, lim in *.
  destruct (data_wrapped b).
  - destruct H as (E1 & E2 & Hw).
    assert ((1 + mtu b) * len ps + (1 + mtu b) * len qs ≤ (1 + mtu b) * (num - 1)) by nia.
    nia.
  - lia.
Qed.

Lemma capacity b pkts num : holds b pkts → size b = (1 + mtu b) * (num + 1) →
  Forall (λ p, blocks p ≤ 1 + mtu b) pkts → len pkts < num →
  is_Some (input_dest b) ∧ 4 * mtu b ≤ input_avail b.
Proof.
  intros (Hc & Hi & _) Hsz Hall Hn. pose proof (free_capacity _ _ _ Hc Hsz Hall Hn).
  pose proof (end_bounds _ _ Hc) as (_ & _ & He & _).
  pose proof (core_assert _ _ Hc) as Ha. apply assert_buffer_iff in Ha.
  unfold in_ok in Hi. cbv zeta in Hi.
  rewrite (proj2 (Z.leb_le _ _) He), (proj2 (Z.ltb_lt 0 _)) in Hi by lia.
  destruct Hi as [-> ->]. split; [done|lia].
Qed.

(** The input area lies within the memory. *)
Lemma input_area b q d : holds b q → input_dest b = Some d →
  0 ≤ d ∧ d + input_avail b ≤ len (buffer b).
Proof.
  intros (Hc & Hi & _) Hd. pose proof (end_bounds _ _ Hc) as (H1 & H2 & _).
  pose proof (core_mem _ _ Hc). unfold in_ok in Hi. cbv zeta in Hi.
  case_match; destruct Hi as [Hi1 Hi2]; [|congruence]. assert (d = 4 * (_ChunkBuffer2_end b + 1)) by congruence.
  lia.
Qed.

(** ** Claims *)

(** C12: the circular buffer is a first-in first-out queue of packets. Whenever it
    holds the packets [q]: a packet written at [input_dest] and submitted
    within [input_avail] is appended to [q]; the packet offered at
    [output_dest] is the oldest one, byte for byte, and consuming it removes
    it; an empty buffer offers none. No assertion of the code fails, no packet
    is split or overwritten where the buffer wraps around, and the pointers
    are again the right ones afterwards. *)
Theorem chunkbuffer_refines_queue (b : ChunkBuffer2) (q : list bytes) (H : holds b q) :
  (∀ data, is_Some (input_dest b) → len data ≤ input_avail b →
    ∃ b', ChunkBuffer2_SubmitPacket (write_input b data) (len data) = Some b' ∧
      holds b' (q ++ [data])) ∧
  match q with
  | [] => output_packet b = None ∧ output_avail b = -1
  | p :: q' => output_packet b = Some p ∧ output_avail b = len p ∧
      ∃ b', ChunkBuffer2_ConsumePacket b = Some b' ∧ holds b' q'
  end.
Proof.
  split.
  - intros data Hd Hl. destruct (submit_holds b q data H Hd Hl) as (b' & ? & ? & _). eauto.
  - destruct q as [|p q].
    + destruct H as (_ & _ & Ho & Ha). unfold output_packet. by rewrite Ho.
    + destruct (consume_holds b p q H) as (? & b' & ? & ? & _).
      destruct H as (_ & _ & _ & Ha). eauto.
Qed.

Definition sample_mem : bytes := replicate 48 0.

Lemma chunkbuffer_refines_queue_witness :
  ∃ b b', ChunkBuffer2_Init sample_mem 12 8 = Some b ∧
    ChunkBuffer2_SubmitPacket (write_input b [1; 2; 3; 4; 5]) 5 = Some b' ∧
    holds b' [[1; 2; 3; 4; 5]].
Proof.
  destruct (init_holds sample_mem 12 8) as (b & Hb & Hh & _);
    [lia|lia|reflexivity|unfold INT_MAX; lia|reflexivity|].
  destruct (proj1 (chunkbuffer_refines_queue b [] Hh) [1; 2; 3; 4; 5]) as (b' & Hs & Hh').
  - vm_compute in Hb. injection Hb as <-. by eexists.
  - vm_compute in Hb. injection Hb as <-. vm_compute. discriminate.
  - exists b, b'. split; [exact Hb|]. split; [exact Hs|exact Hh'].
Defined.

(** A buffer sized by [ChunkBuffer2_calc_blocks] for [num] packets of
    [chunk_len] bytes keeps that promise: as long as it holds fewer than [num]
    packets, each at most [chunk_len] bytes long, a packet of [chunk_len] bytes
    can be submitted at once, wherever the data lies in the buffer. *)
Theorem chunkbuffer_capacity (chunk_len num : Z) (b : ChunkBuffer2) (q : list bytes)
    (Hlen : 0 ≤ chunk_len) (Hnum : 0 ≤ num)
    (Hblocks : ChunkBuffer2_calc_blocks chunk_len num = size b)
    (Hmtu : mtu b = bdivide_up chunk_len sizeof_block)
    (Hq : holds b q) (Hshort : Forall (λ p, len p ≤ chunk_len) q) (Hfew : len q < num) :
  is_Some (input_dest b) ∧ chunk_len ≤ input_avail b.
Proof.
  pose proof (core_assert _ _ (proj1 Hq)) as Ha. apply assert_buffer_iff in Ha.
  destruct (calc_blocks_spec chunk_len num) as [E _]; [done|done|lia|].
  pose proof (bdivide_up_spec chunk_len sizeof_block Hlen ltac:(done)) as Hd.
  unfold sizeof_block in Hd.
  destruct (capacity b q num Hq) as [Hs Hc]; [rewrite <- Hblocks, E, Hmtu; done| |done|].
  - eapply Forall_impl; [exact Hshort|]. cbn. intros p Hp.
    pose proof (blocks_spec p). unfold sizeof_block in *. lia.
  - split; [done|]. unfold sizeof_block in *. lia.
Qed.

Lemma chunkbuffer_capacity_witness :
  ∃ b, ChunkBuffer2_Init sample_mem 12 8 = Some b ∧ 8 ≤ input_avail b.
Proof.
  destruct (init_holds sample_mem 12 8) as (b & Hb & Hh & Hsz & Hm);
    [lia|lia|reflexivity|unfold INT_MAX; lia|reflexivity|].
  exists b. split; [exact Hb|].
  apply (chunkbuffer_capacity 8 3 b []);
    [lia|lia|rewrite Hsz; reflexivity|exact Hm|exact Hh|constructor|reflexivity].
Defined.

End ChunkBuffer2Facts.
