(* ===== verification/BPending.v ===== *)
(** The job queue base/BPending.c: jobs are executed last-set first. *)
From S2P Require Import Prelude.

(** * The code *)
Module BPendingCode.

(** A job object is identified by a number (its address). [list_removed] is
    the marker kept in its list node, [pending] the debug flag. *)
Record BSmallPending := MkBSmallPending {
  list_removed : bool;
  pending : bool
}.
#[global] Instance eta_BSmallPending : Eta BSmallPending := λ x,
  MkBSmallPending (list_removed x) (pending x).

(** The group: its job list, first job first, the pending counter, and the
    job objects initialised with it. *)
Record BPendingGroup := MkBPendingGroup {
  jobs : list nat;
  pending_ctr : Z;
  objects : gmap nat BSmallPending
}.
#[global] Instance eta_BPendingGroup : Eta BPendingGroup := λ x,
  MkBPendingGroup (jobs x) (pending_ctr x) (objects x).

Definition list_remove_job (o : nat) (l : list nat) : list nat := filter (λ x, x ≠ o) l.

Definition set_object (o : nat) (p : BSmallPending) (g : BPendingGroup) : BPendingGroup :=
  g <| objects := <[o := p]> (objects g) |>.

Definition BPendingGroup_Init : BPendingGroup := MkBPendingGroup [] 0 ∅.

(** Whether freeing the group passes its assertions. *)
Definition BPendingGroup_Free (g : BPendingGroup) : bool :=
  (pending_ctr g =? 0) && bool_decide (jobs g = []).

Definition BPendingGroup_HasJobs (g : BPendingGroup) : bool := negb (bool_decide (jobs g = [])).

(** Takes the first job off the list; the result names the job whose handler
    is then called. *)
Definition BPendingGroup_ExecuteJob (g : BPendingGroup) : option (nat * BPendingGroup) :=
  match jobs g with
  | [] => None
  | p :: rest =>
      match objects g !! p with
      | None => None
      | Some x =>
          ASSERT_ (negb (list_removed x));
          ASSERT_ (pending x);
          let g := g <| jobs := rest |> in
          let g := set_object p (x <| list_removed := true |> <| pending := false |>) g in
          Some (p, g)
      end
  end.

Definition BPendingGroup_PeekJob (g : BPendingGroup) : option nat := head (jobs g).

Definition BSmallPending_Init (o : nat) (g : BPendingGroup) : BPendingGroup :=
  let g := set_object o (MkBSmallPending true false) g in
  g <| pending_ctr := pending_ctr g + 1 |>.

Definition BSmallPending_Free (o : nat) (g : BPendingGroup) : option BPendingGroup :=
  match objects g !! o with
  | None => None
  | Some x =>
      let g := g <| pending_ctr := pending_ctr g - 1 |> <| objects := delete o (objects g) |> in
      ASSERT_ (eqb (pending x) (negb (list_removed x)));
      Some (if negb (list_removed x) then g <| jobs := list_remove_job o (jobs g) |> else g)
  end.

Definition BSmallPending_Set (o : nat) (g : BPendingGroup) : option BPendingGroup :=
  match objects g !! o with
  | None => None
  | Some x =>
      ASSERT_ (eqb (pending x) (negb (list_removed x)));
      let g := if negb (list_removed x) then g <| jobs := list_remove_job o (jobs g) |> else g in
      let g := g <| jobs := o :: jobs g |> in
      Some (set_object o (MkBSmallPending false true) g)
  end.

Definition BSmallPending_Unset (o : nat) (g : BPendingGroup) : option BPendingGroup :=
  match objects g !! o with
  | None => None
  | Some x =>
      ASSERT_ (eqb (pending x) (negb (list_removed x)));
      Some (if negb (list_removed x) then
              set_object o (x <| list_removed := true |> <| pending := false |>)
                (g <| jobs := list_remove_job o (jobs g) |>)
            else g)
  end.

Definition BSmallPending_IsSet (o : nat) (g : BPendingGroup) : option bool :=
  match objects g !! o with
  | None => None
  | Some x =>
      ASSERT_ (eqb (pending x) (negb (list_removed x)));
      Some (negb (list_removed x))
  end.

End BPendingCode.

(** * The group as a stack of distinct jobs *)
Module BPendingFacts.
Import BPendingCode.

(** The marker of every object says whether it is on the list, and the list
    has no duplicates. *)
Record group_inv (g : BPendingGroup) : Prop := {
  gi_nodup : NoDup (jobs g);
  gi_ctr : pending_ctr g = Z.of_nat (size (dom (objects g)));
  gi_live : ∀ o, o ∈ jobs g → is_Some (objects g !! o);
  gi_marker : ∀ o x, objects g !! o = Some x →
    list_removed x = negb (bool_decide (o ∈ jobs g)) ∧ pending x = bool_decide (o ∈ jobs g)
}.

Lemma elem_of_remove o x l : x ∈ list_remove_job o l ↔ x ∈ l ∧ x ≠ o.
Proof. unfold list_remove_job. rewrite list_elem_of_filter. tauto. Qed.
Lemma remove_absent o l : o ∉ l → list_remove_job o l = l.
Proof. apply filter_absent. Qed.

Lemma marker_assert g o x : group_inv g → objects g !! o = Some x →
  eqb (pending x) (negb (list_removed x)) = true ∧ list_removed x = negb (bool_decide (o ∈ jobs g)).
Proof.
  intros Hg Hx. destruct (gi_marker g Hg o x Hx) as [-> ->]. split; [|done].
  by destruct (bool_decide (o ∈ jobs g)).
Qed.

(** Replacing the list and one object's marker accordingly. *)
Lemma inv_update g o x l : group_inv g → is_Some (objects g !! o) → NoDup l →
  (∀ y, y ≠ o → y ∈ l ↔ y ∈ jobs g) →
  list_removed x = negb (bool_decide (o ∈ l)) → pending x = bool_decide (o ∈ l) →
  group_inv (set_object o x (g <| jobs := l |>)).
Proof.
  intros [Hn Hc Hl Hm] Ho Hnl Hy Hr Hp. constructor; cbn.
  - done.
  - rewrite Hc, dom_insert_lookup_L; done.
  - intros y Hyl. destruct (decide (y = o)) as [->|Hne]; [by rewrite lookup_insert_eq|].
    rewrite lookup_insert_ne by done. apply Hl. by apply Hy.
  - intros y z. destruct (decide (y = o)) as [->|Hne].
    + rewrite lookup_insert_eq. by intros [= <-].
    + rewrite lookup_insert_ne by done. intros Hz%Hm.
      rewrite (bool_decide_ext (y ∈ l) (y ∈ jobs g)); [done|by apply Hy].
Qed.

Lemma remove_not_in o l : o ∉ list_remove_job o l.
Proof. rewrite elem_of_remove. tauto. Qed.

Lemma set_spec g o : group_inv g → is_Some (objects g !! o) →
  ∃ g', BSmallPending_Set o g = Some g' ∧ group_inv g' ∧
    jobs g' = o :: list_remove_job o (jobs g) ∧ dom (objects g') = dom (objects g).
Proof.
  intros Hg [x Hx]. destruct (marker_assert g o x Hg Hx) as [Ha Hr].
  unfold BSmallPending_Set. rewrite Hx, Ha. eexists. split; [done|].
  assert ((if negb (list_removed x) then g <| jobs := list_remove_job o (jobs g) |> else g)
    = g <| jobs := list_remove_job o (jobs g) |>) as ->.
  { rewrite Hr. case_bool_decide; [done|]. cbn. rewrite remove_absent by done. by destruct g. }
  split_and!; [|done|cbn; apply dom_insert_lookup_L; by eexists].
  change (?g <| jobs := ?l |> <| jobs := ?l' |>) with (g <| jobs := l' |>).
  apply inv_update; try done.
  - apply NoDup_cons. split; [apply remove_not_in|]. apply NoDup_filter, Hg.
  - intros y Hy. cbn. rewrite elem_of_cons, elem_of_remove. naive_solver.
  - cbn. rewrite bool_decide_eq_true_2; [done|]. apply elem_of_cons. by left.
  - cbn. rewrite bool_decide_eq_true_2; [done|]. apply elem_of_cons. by left.
Qed.

Lemma unset_spec g o : group_inv g → is_Some (objects g !! o) →
  ∃ g', BSmallPending_Unset o g = Some g' ∧ group_inv g' ∧
    jobs g' = list_remove_job o (jobs g) ∧ dom (objects g') = dom (objects g).
Proof.
  intros Hg [x Hx]. destruct (marker_assert g o x Hg Hx) as [Ha Hr].
  unfold BSmallPending_Unset. rewrite Hx, Ha. eexists. split; [done|]. rewrite Hr.
  case_bool_decide as Hin; cbn [negb].
  - split_and!; [|done|cbn; apply dom_insert_lookup_L; by eexists].
    apply inv_update; [done|by eexists|apply NoDup_filter, Hg| | |].
    + intros y Hy. rewrite elem_of_remove. tauto.
    + cbn. rewrite bool_decide_eq_false_2; [done|apply remove_not_in].
    + cbn. rewrite bool_decide_eq_false_2; [done|apply remove_not_in].
  - by rewrite remove_absent.
Qed.

Lemma free_spec g o : group_inv g → is_Some (objects g !! o) →
  ∃ g', BSmallPending_Free o g = Some g' ∧ group_inv g' ∧
    jobs g' = list_remove_job o (jobs g) ∧ dom (objects g') = dom (objects g) ∖ {[o]}.
Proof.
  intros Hg [x Hx]. destruct (marker_assert g o x Hg Hx) as [Ha Hr].
  unfold BSmallPending_Free. rewrite Hx. cbv zeta. rewrite Ha. eexists. split; [done|].
  set (g0 := g <| pending_ctr := _ |> <| objects := _ |>).
  assert ((if negb (list_removed x) then g0 <| jobs := list_remove_job o (jobs g0) |> else g0)
    = g0 <| jobs := list_remove_job o (jobs g) |>) as ->.
  { rewrite Hr. case_bool_decide; [done|]. cbn. rewrite remove_absent by done. by destruct g. }
  split_and!; [|done|cbn; apply dom_delete_L].
  destruct Hg as [Hn Hc Hl Hm]. constructor; cbn.
  - by apply NoDup_filter.
  - assert (o ∈ dom (objects g)) by (apply elem_of_dom; by eexists).
    rewrite Hc, dom_delete_L, size_difference, size_singleton by set_solver.
    assert (size {[o]} ≤ size (dom (objects g)))%nat by (apply subseteq_size; set_solver).
    rewrite size_singleton in *. lia.
  - intros y [Hy Hne]%elem_of_remove. rewrite lookup_delete_ne by done. by apply Hl.
  - intros y z. destruct (decide (y = o)) as [->|Hne]; [by rewrite lookup_delete_eq|].
    rewrite lookup_delete_ne by done. intros Hz%Hm.
    rewrite (bool_decide_ext (y ∈ list_remove_job o (jobs g)) (y ∈ jobs g)); [done|].
    rewrite elem_of_remove. tauto.
Qed.

Lemma execute_spec g p rest : group_inv g → jobs g = p :: rest →
  ∃ g', BPendingGroup_ExecuteJob g = Some (p, g') ∧ group_inv g' ∧ jobs g' = rest ∧
    dom (objects g') = dom (objects g).
Proof.
  intros Hg Hj. destruct (gi_live g Hg p) as [x Hx]; [rewrite Hj; by left|].
  pose proof (gi_marker g Hg p x Hx) as [Hr Hp]. rewrite Hj in Hr, Hp.
  rewrite bool_decide_eq_true_2 in Hr, Hp by by left.
  unfold BPendingGroup_ExecuteJob. rewrite Hj, Hx, Hr, Hp. eexists. split; [done|].
  pose proof (gi_nodup g Hg) as Hn. rewrite Hj in Hn. apply NoDup_cons in Hn as [Hnp Hnr].
  split_and!; [|done|cbn; apply dom_insert_lookup_L; by eexists].
  apply inv_update; [done|by eexists|done| | |].
  - intros y Hy. rewrite Hj, elem_of_cons. naive_solver.
  - cbn. by rewrite bool_decide_eq_false_2.
  - cbn. by rewrite bool_decide_eq_false_2.
Qed.

Lemma init_spec g o : group_inv g → objects g !! o = None →
  group_inv (BSmallPending_Init o g) ∧ jobs (BSmallPending_Init o g) = jobs g.
Proof.
  intros [Hn Hc Hl Hm] Ho. split; [|done]. constructor; cbn.
  - done.
  - rewrite Hc, dom_insert_L, size_union, size_singleton; [lia|].
    apply disjoint_singleton_l, not_elem_of_dom. done.
  - intros y Hy. destruct (decide (y = o)) as [->|]; [by rewrite lookup_insert_eq|].
    rewrite lookup_insert_ne by done. by apply Hl.
  - intros y z. destruct (decide (y = o)) as [->|].
    + rewrite lookup_insert_eq. intros [= <-]. cbn.
      rewrite bool_decide_eq_false_2; [done|]. intros Hin%Hl. rewrite Ho in Hin. by destruct Hin.
    + rewrite lookup_insert_ne by done. apply Hm.
Qed.

(** ** Operations on a group in any order *)

Inductive job_op := OInit (o : nat) | OSet (o : nat) | OUnset (o : nat) | OFree (o : nat) | OExec.

(** An operation is allowed on initialised objects, as the debug checks of the
    library demand; the result of [OExec] is the executed job. *)
Definition run_op (op : job_op) (g : BPendingGroup) : option (option nat * BPendingGroup) :=
  match op with
  | OInit o => Some (None, BSmallPending_Init o g)
  | OSet o => g' ← BSmallPending_Set o g; Some (None, g')
  | OUnset o => g' ← BSmallPending_Unset o g; Some (None, g')
  | OFree o => g' ← BSmallPending_Free o g; Some (None, g')
  | OExec => '(p, g') ← BPendingGroup_ExecuteJob g; Some (Some p, g')
  end.
Definition op_allowed (op : job_op) (g : BPendingGroup) : Prop :=
  match op with
  | OInit o => objects g !! o = None
  | OSet o | OUnset o | OFree o => is_Some (objects g !! o)
  | OExec => BPendingGroup_HasJobs g = true
  end.

(** The specification: a stack of distinct jobs. *)
Definition spec_op (op : job_op) (stack : list nat) : option nat * list nat :=
  match op with
  | OInit _ => (None, stack)
  | OSet o => (None, o :: list_remove_job o stack)
  | OUnset o | OFree o => (None, list_remove_job o stack)
  | OExec => (head stack, tail stack)
  end.

Lemma run_op_ok (g : BPendingGroup) (op : job_op) : group_inv g → op_allowed op g →
  ∃ g', run_op op g = Some (fst (spec_op op (jobs g)), g') ∧
    jobs g' = snd (spec_op op (jobs g)) ∧ group_inv g'.
Proof.
  intros Hg Hop.
  destruct op as [o|o|o|o|]; cbn [run_op spec_op op_allowed fst snd] in *.
  - destruct (init_spec g o Hg Hop). eauto.
  - destruct (set_spec g o Hg Hop) as (g' & -> & ? & ? & _). cbn. eauto.
  - destruct (unset_spec g o Hg Hop) as (g' & -> & ? & ? & _). cbn. eauto.
  - destruct (free_spec g o Hg Hop) as (g' & -> & ? & ? & _). cbn. eauto.
  - unfold BPendingGroup_HasJobs in Hop. destruct (jobs g) as [|p rest] eqn:Hj; [done|].
    destruct (execute_spec g p rest Hg Hj) as (g' & -> & ? & ? & _). cbn. eauto.
Qed.

(** C36: a job group behaves as a stack of distinct jobs. In every state the
    operations can reach, setting a job puts it on top (moving it there if it
    was already set), unsetting or freeing it removes it and nothing else, and
    the job executed is the one on top, which is then no longer set; the
    markers kept in the job objects and the pending counter stay consistent
    and no assertion fails. *)
Theorem bpending_refines_stack (g : BPendingGroup) (op : job_op)
    (Hg : group_inv g) (Hop : op_allowed op g) :
  ∃ g', run_op op g = Some (fst (spec_op op (jobs g)), g') ∧
    jobs g' = snd (spec_op op (jobs g)) ∧ group_inv g'.
Proof. by apply run_op_ok. Qed.

Lemma group_inv_init : group_inv BPendingGroup_Init.
Proof.
  constructor; cbn; [constructor|done| |].
  - intros o Ho. by apply not_elem_of_nil in Ho.
  - intros o x. by rewrite lookup_empty.
Qed.

Lemma bpending_refines_stack_witness :
  ∃ g', run_op (OInit 7) BPendingGroup_Init = Some (None, g') ∧ jobs g' = [] ∧ group_inv g'.
Proof.
  apply (bpending_refines_stack BPendingGroup_Init (OInit 7)); [apply group_inv_init|reflexivity].
Defined.

End BPendingFacts.
