(* ===== verification/Interfaces.v ===== *)
(** The four flow interfaces (flow/PacketPassInterface, PacketRecvInterface,
    StreamPassInterface, StreamRecvInterface): the asynchronous handshake that
    carries one packet, or one piece of a stream, at a time between a user and
    a provider. The jobs of an interface are kept as whether they are set; a
    handler is called when its job runs. Buffers passed by pointer are byte
    lists. *)
From S2P Require Import Prelude.

(** * flow/PacketPassInterface *)
Module PacketPass.

Definition PPI_STATE_NONE : Z := 1.
Definition PPI_STATE_OPERATION_PENDING : Z := 2.
Definition PPI_STATE_BUSY : Z := 3.
Definition PPI_STATE_DONE_PENDING : Z := 4.

Record PacketPassInterface := MkPacketPassInterface {
  mtu : Z;
  handler_requestcancel : bool;
  handler_done : bool;
  job_operation : bool;
  job_operation_data : bytes;
  job_requestcancel : bool;
  job_done : bool;
  state : Z;
  cancel_requested : bool
}.
#[global] Instance eta_PacketPassInterface : Eta PacketPassInterface := λ x,
  MkPacketPassInterface (mtu x) (handler_requestcancel x) (handler_done x) (job_operation x)
    (job_operation_data x) (job_requestcancel x) (job_done x) (state x) (cancel_requested x).

(** Calls of the handlers. *)
Inductive call := CallOperation (data : bytes) | CallRequestCancel | CallDone.

Abbreviation op := (prog PacketPassInterface call).

Definition PacketPassInterface_Init (m : Z) : option PacketPassInterface :=
  ASSERT_ (0 <=? m);
  Some (MkPacketPassInterface m false false false [] false false PPI_STATE_NONE false).

Definition PacketPassInterface_EnableCancel : op unit :=
  i ← get_st;
  ASSERT (negb (handler_requestcancel i));;
  ASSERT (negb (handler_done i));;
  modify (λ i, i <| handler_requestcancel := true |>).

Definition PacketPassInterface_Done : op unit :=
  i ← get_st;
  ASSERT (state i =? PPI_STATE_BUSY);;
  modify (λ i, i <| job_requestcancel := false |>);;
  modify (λ i, i <| job_done := true |>);;
  modify (λ i, i <| state := PPI_STATE_DONE_PENDING |>).

Definition PacketPassInterface_GetMTU (i : PacketPassInterface) : Z := mtu i.
Definition PacketPassInterface_HasCancel (i : PacketPassInterface) : bool :=
  handler_requestcancel i.

Definition PacketPassInterface_Sender_Init : op unit :=
  i ← get_st;
  ASSERT (negb (handler_done i));;
  modify (λ i, i <| handler_done := true |>).

Definition PacketPassInterface_Sender_Send (data : bytes) : op unit :=
  i ← get_st;
  ASSERT (len data <=? mtu i);;
  ASSERT (state i =? PPI_STATE_NONE);;
  ASSERT (handler_done i);;
  modify (λ i, i <| job_operation_data := data |>);;
  modify (λ i, i <| job_operation := true |>);;
  modify (λ i, i <| state := PPI_STATE_OPERATION_PENDING |>);;
  modify (λ i, i <| cancel_requested := false |>).

Definition PacketPassInterface_Sender_RequestCancel : op unit :=
  i ← get_st;
  ASSERT ((state i =? PPI_STATE_OPERATION_PENDING) || (state i =? PPI_STATE_BUSY)
          || (state i =? PPI_STATE_DONE_PENDING));;
  ASSERT (handler_requestcancel i);;
  if cancel_requested i then mret tt else
  modify (λ i, i <| cancel_requested := true |>);;
  if state i =? PPI_STATE_OPERATION_PENDING then
    modify (λ i, i <| job_operation := false |>);;
    modify (λ i, i <| job_done := true |>);;
    modify (λ i, i <| state := PPI_STATE_DONE_PENDING |>)
  else when (state i =? PPI_STATE_BUSY) (modify (λ i, i <| job_requestcancel := true |>)).

(** The job handlers; executing a job unsets it first (BPending.c). *)
Definition _PacketPassInterface_job_operation : op unit :=
  modify (λ i, i <| job_operation := false |>);;
  i ← get_st;
  ASSERT (state i =? PPI_STATE_OPERATION_PENDING);;
  modify (λ i, i <| state := PPI_STATE_BUSY |>);;
  emit (CallOperation (job_operation_data i)).

Definition _PacketPassInterface_job_requestcancel : op unit :=
  modify (λ i, i <| job_requestcancel := false |>);;
  i ← get_st;
  ASSERT (state i =? PPI_STATE_BUSY);;
  ASSERT (cancel_requested i);;
  ASSERT (handler_requestcancel i);;
  emit CallRequestCancel.

Definition _PacketPassInterface_job_done : op unit :=
  modify (λ i, i <| job_done := false |>);;
  i ← get_st;
  ASSERT (state i =? PPI_STATE_DONE_PENDING);;
  modify (λ i, i <| state := PPI_STATE_NONE |>);;
  emit CallDone.

End PacketPass.

(** * flow/PacketRecvInterface *)
Module PacketRecv.

Definition PRI_STATE_NONE : Z := 1.
Definition PRI_STATE_OPERATION_PENDING : Z := 2.
Definition PRI_STATE_BUSY : Z := 3.
Definition PRI_STATE_DONE_PENDING : Z := 4.

Record PacketRecvInterface := MkPacketRecvInterface {
  mtu : Z;
  handler_done : bool;
  job_operation : bool;
  job_done : bool;
  job_done_len : Z;
  state : Z
}.
#[global] Instance eta_PacketRecvInterface : Eta PacketRecvInterface := λ x,
  MkPacketRecvInterface (mtu x) (handler_done x) (job_operation x) (job_done x)
    (job_done_len x) (state x).

Inductive call := CallOperation | CallDone (data_len : Z).
Abbreviation op := (prog PacketRecvInterface call).

Definition PacketRecvInterface_Init (m : Z) : option PacketRecvInterface :=
  ASSERT_ (0 <=? m);
  Some (MkPacketRecvInterface m false false false 0 PRI_STATE_NONE).

Definition PacketRecvInterface_Done (data_len : Z) : op unit :=
  i ← get_st;
  ASSERT (0 <=? data_len);;
  ASSERT (data_len <=? mtu i);;
  ASSERT (state i =? PRI_STATE_BUSY);;
  modify (λ i, i <| job_done_len := data_len |>);;
  modify (λ i, i <| job_done := true |>);;
  modify (λ i, i <| state := PRI_STATE_DONE_PENDING |>).

Definition PacketRecvInterface_GetMTU (i : PacketRecvInterface) : Z := mtu i.

Definition PacketRecvInterface_Receiver_Init : op unit :=
  i ← get_st;
  ASSERT (negb (handler_done i));;
  modify (λ i, i <| handler_done := true |>).

Definition PacketRecvInterface_Receiver_Recv : op unit :=
  i ← get_st;
  ASSERT (state i =? PRI_STATE_NONE);;
  ASSERT (handler_done i);;
  modify (λ i, i <| job_operation := true |>);;
  modify (λ i, i <| state := PRI_STATE_OPERATION_PENDING |>).

Definition _PacketRecvInterface_job_operation : op unit :=
  modify (λ i, i <| job_operation := false |>);;
  i ← get_st;
  ASSERT (state i =? PRI_STATE_OPERATION_PENDING);;
  modify (λ i, i <| state := PRI_STATE_BUSY |>);;
  emit CallOperation.

Definition _PacketRecvInterface_job_done : op unit :=
  modify (λ i, i <| job_done := false |>);;
  i ← get_st;
  ASSERT (state i =? PRI_STATE_DONE_PENDING);;
  modify (λ i, i <| state := PRI_STATE_NONE |>);;
  emit (CallDone (job_done_len i)).

End PacketRecv.

(** * flow/StreamPassInterface and flow/StreamRecvInterface

    The two are the same code under different names: a piece of the stream is
    offered (or room for one), and the provider reports how much of it was
    used. *)
Module StreamIf.

Definition SPI_STATE_NONE : Z := 1.
Definition SPI_STATE_OPERATION_PENDING : Z := 2.
Definition SPI_STATE_BUSY : Z := 3.
Definition SPI_STATE_DONE_PENDING : Z := 4.

Record StreamInterface := MkStreamInterface {
  handler_done : bool;
  job_operation : bool;
  job_operation_len : Z;
  job_done : bool;
  job_done_len : Z;
  state : Z
}.
#[global] Instance eta_StreamInterface : Eta StreamInterface := λ x,
  MkStreamInterface (handler_done x) (job_operation x) (job_operation_len x) (job_done x)
    (job_done_len x) (state x).

Inductive call := CallOperation (data_len : Z) | CallDone (data_len : Z).
Abbreviation op := (prog StreamInterface call).

Definition StreamInterface_Init : StreamInterface :=
  MkStreamInterface false false 0 false 0 SPI_STATE_NONE.

Definition StreamInterface_Done (data_len : Z) : op unit :=
  i ← get_st;
  ASSERT (state i =? SPI_STATE_BUSY);;
  ASSERT (0 <? data_len);;
  ASSERT (data_len <=? job_operation_len i);;
  modify (λ i, i <| job_done_len := data_len |>);;
  modify (λ i, i <| job_done := true |>);;
  modify (λ i, i <| state := SPI_STATE_DONE_PENDING |>).

Definition StreamInterface_User_Init : op unit :=
  i ← get_st;
  ASSERT (negb (handler_done i));;
  modify (λ i, i <| handler_done := true |>).

(** [StreamPassInterface_Sender_Send] and [StreamRecvInterface_Receiver_Recv]. *)
Definition StreamInterface_Start (data_len : Z) : op unit :=
  i ← get_st;
  ASSERT (0 <? data_len);;
  ASSERT (state i =? SPI_STATE_NONE);;
  ASSERT (handler_done i);;
  modify (λ i, i <| job_operation_len := data_len |>);;
  modify (λ i, i <| job_operation := true |>);;
  modify (λ i, i <| state := SPI_STATE_OPERATION_PENDING |>).

Definition _StreamInterface_job_operation : op unit :=
  modify (λ i, i <| job_operation := false |>);;
  i ← get_st;
  ASSERT (state i =? SPI_STATE_OPERATION_PENDING);;
  modify (λ i, i <| state := SPI_STATE_BUSY |>);;
  emit (CallOperation (job_operation_len i)).

Definition _StreamInterface_job_done : op unit :=
  modify (λ i, i <| job_done := false |>);;
  i ← get_st;
  ASSERT (state i =? SPI_STATE_DONE_PENDING);;
  modify (λ i, i <| state := SPI_STATE_NONE |>);;
  emit (CallDone (job_done_len i)).

End StreamIf.

(** * The handshake *)
Module InterfaceFacts.

(** ** Packets, with cancellation *)
Section PacketPassHandshake.
Import PacketPass.

(** What the user (send, cancel), the provider (done) and the job queue do. *)
Inductive act :=
  | ASend (data : bytes) | ACancel | ADone | JOperation | JRequestCancel | JDone.

Definition run_act (a : act) : op unit :=
  match a with
  | ASend data => PacketPassInterface_Sender_Send data
  | ACancel => PacketPassInterface_Sender_RequestCancel
  | ADone => PacketPassInterface_Done
  | JOperation => _PacketPassInterface_job_operation
  | JRequestCancel => _PacketPassInterface_job_requestcancel
  | JDone => _PacketPassInterface_job_done
  end.

(** The rules for users and providers; a job runs when it is set. *)
Definition enabled (a : act) (i : PacketPassInterface) : Prop :=
  match a with
  | ASend data => state i = PPI_STATE_NONE ∧ len data ≤ mtu i
  | ACancel => state i ≠ PPI_STATE_NONE ∧ handler_requestcancel i = true
  | ADone => state i = PPI_STATE_BUSY
  | JOperation => job_operation i = true
  | JRequestCancel => job_requestcancel i = true
  | JDone => job_done i = true
  end.

Record pass_inv (i : PacketPassInterface) : Prop := {
  pi_user : handler_done i = true;
  pi_state : 1 ≤ state i ≤ 4;
  pi_operation : job_operation i = true ↔ state i = PPI_STATE_OPERATION_PENDING;
  pi_done : job_done i = true ↔ state i = PPI_STATE_DONE_PENDING;
  pi_cancel : job_requestcancel i = true →
    state i = PPI_STATE_BUSY ∧ cancel_requested i = true ∧ handler_requestcancel i = true
}.

(** An execution: the packets sent, the handler calls made, and whether a
    cancel was requested. *)
Inductive exec : PacketPassInterface → list bytes → list call → bool → Prop :=
  | exec_init m i (c : bool) :
      PacketPassInterface_Init m = Some i →
      exec (i <| handler_requestcancel := c |> <| handler_done := true |>) [] [] false
  | exec_act i sent calls canc a i' es :
      exec i sent calls canc → enabled a i → run_act a i = Some (tt, i', es) →
      exec i' (match a with ASend d => sent ++ [d] | _ => sent end) (calls ++ es)
        (canc || match a with ACancel => true | _ => false end).

Definition delivered (calls : list call) : list bytes :=
  omap (λ c, match c with CallOperation d => Some d | _ => None end) calls.
Definition done_count (calls : list call) : nat :=
  length (omap (λ c, match c with CallDone => Some tt | _ => None end) calls).

Ltac unfold_states :=
  unfold PPI_STATE_NONE, PPI_STATE_OPERATION_PENDING, PPI_STATE_BUSY, PPI_STATE_DONE_PENDING in *.

(** What an action does to the interface. *)
Definition act_effect (a : act) (i i' : PacketPassInterface) (es : list call) : Prop :=
  match a with
  | ASend d => state i = 1 ∧ state i' = 2 ∧ job_operation_data i' = d ∧ es = []
  | ACancel => es = [] ∧ job_operation_data i' = job_operation_data i ∧
      state i ≠ 1 ∧ (state i' = state i ∨ state i = 2 ∧ state i' = 4)
  | ADone => state i = 3 ∧ state i' = 4 ∧ es = []
  | JOperation => state i = 2 ∧ state i' = 3 ∧ es = [CallOperation (job_operation_data i)]
  | JRequestCancel => state i = 3 ∧ state i' = 3 ∧ es = [CallRequestCancel]
  | JDone => state i = 4 ∧ state i' = 1 ∧ es = [CallDone]
  end.

Lemma pass_act_ok a i : pass_inv i → enabled a i →
  wp (run_act a) i (λ _ i' es, pass_inv i' ∧ act_effect a i i' es).
Proof.
  intros [Hu Hs Ho Hd Hc] He. destruct a; cbn [run_act enabled act_effect] in *.
  - unfold PacketPassInterface_Sender_Send. unfold_states. wp_run.
    split; [|cbn; intuition (lia || done)]. constructor; cbn; unfold_states; try done; try lia.
    + destruct (job_done i); intuition lia.
    + intros Hj%Hc. lia.
  - unfold PacketPassInterface_Sender_RequestCancel. unfold_states. wp_run.
    destruct (cancel_requested i) eqn:Hcr; [by wp_run; split; [constructor|]; intuition lia|].
    wp_run. destruct (Z.eqb_spec (state i) 2) as [E|E]; wp_run.
    + split; [|cbn; intuition lia]. constructor; cbn; unfold_states; try done; try lia.
      intros Hj%Hc. lia.
    + apply wp_when; intros Hb; bool_to_prop; wp_run;
        (split; [|cbn; intuition lia]); constructor; cbn; unfold_states; try done.
      * intros _. intuition lia.
      * intros Hj%Hc. lia.
  - unfold PacketPassInterface_Done. unfold_states. wp_run.
    split; [|cbn; intuition (lia || done)]. constructor; cbn; unfold_states; try done; try lia.
    destruct (job_operation i); intuition lia.
  - unfold _PacketPassInterface_job_operation. unfold_states. apply Ho in He. wp_run.
    split; [|cbn; intuition (lia || done)]. constructor; cbn; unfold_states; try done; try lia.
    + destruct (job_done i); intuition lia.
    + intros Hj%Hc. lia.
  - unfold _PacketPassInterface_job_requestcancel. unfold_states.
    destruct (Hc He) as (E & E1 & E2). wp_run.
    split; [|cbn; intuition (lia || done)]. constructor; cbn; unfold_states; try done.
  - unfold _PacketPassInterface_job_done. unfold_states. apply Hd in He. wp_run.
    split; [|cbn; intuition (lia || done)]. constructor; cbn; unfold_states; try done; try lia.
    + destruct (job_operation i); intuition lia.
    + intros Hj%Hc. lia.
Qed.

Definition in_flight (i : PacketPassInterface) : nat := if state i =? 1 then 0 else 1.
Definition undelivered (i : PacketPassInterface) : list bytes :=
  if state i =? 2 then [job_operation_data i] else [].

Lemma delivered_app c d : delivered (c ++ d) = delivered c ++ delivered d.
Proof. apply omap_app. Qed.
Lemma done_count_app c d : done_count (c ++ d) = (done_count c + done_count d)%nat.
Proof. unfold done_count. by rewrite omap_app, length_app. Qed.

(** The packet passing handshake. In every execution in which users send
    only when idle and cancel only an operation in progress, no assertion
    fails; every packet sent is reported done exactly once, the one in
    progress excepted; the provider is handed packets in the order they were
    sent, none twice; without a cancel none is skipped; and an operation that
    waits for a job has that job set. *)
Theorem packetpass_handshake (i : PacketPassInterface) (sent : list bytes)
    (calls : list call) (canc : bool) (Hexec : exec i sent calls canc) :
  pass_inv i ∧ length sent = (done_count calls + in_flight i)%nat ∧
  sublist (delivered calls ++ undelivered i) sent ∧
  (canc = false → delivered calls ++ undelivered i = sent) ∧
  (∀ a, enabled a i → is_Some (run_act a i)).
Proof.
  assert (pass_inv i ∧ length sent = (done_count calls + in_flight i)%nat ∧
    sublist (delivered calls ++ undelivered i) sent ∧
    (canc = false → delivered calls ++ undelivered i = sent)) as (H & H1 & H2 & H3).
  2: { split_and!; [done..|]. intros a Ha.
       apply (pass_act_ok a i H), wp_some in Ha as (? & ? & ? & -> & _). by eexists. }
  induction Hexec as [m i c Hi|i sent calls canc a i' es Hx (IH1 & IH2 & IH3 & IH4) He Hr].
  - unfold PacketPassInterface_Init in Hi. case_match; [|done]. injection Hi as <-.
    split_and!; [by constructor|done..].
  - pose proof (pass_act_ok a i IH1 He) as Hw. unfold wp in Hw. rewrite Hr in Hw.
    destruct Hw as [Hinv Hef]. split; [done|].
    unfold in_flight, undelivered in *. rewrite delivered_app, done_count_app.
    destruct a as [d| | | | |]; cbn [act_effect] in Hef; rewrite ?orb_false_r.
    + destruct Hef as (E1 & E2 & E3 & ->). rewrite E1 in IH2, IH3, IH4. rewrite E2, E3. cbn in *.
      rewrite !app_nil_r in *. rewrite length_app. cbn. split_and!; [lia| |].
      * by apply sublist_app.
      * by intros ->%IH4.
    + destruct Hef as (-> & E3 & E1 & E2). cbn. rewrite app_nil_r, orb_true_r, E3.
      split_and!; [| |done].
      * destruct E2 as [-> | [_ ->]]; [lia|]. rewrite IH2. destruct (Z.eqb_spec (state i) 1); [done|].
        cbn. lia.
      * destruct E2 as [-> | [E2 ->]]; [done|]. rewrite E2 in IH3. cbn in *. rewrite app_nil_r.
        etrans; [|exact IH3]. by apply sublist_inserts_r.
    + destruct Hef as (E1 & E2 & ->). rewrite E1 in IH2, IH3, IH4. rewrite E2. cbn in *.
      by rewrite !app_nil_r in *; split_and!; [lia|..].
    + destruct Hef as (E1 & E2 & ->). rewrite E1 in IH2, IH3, IH4. rewrite E2. cbn in *.
      by rewrite !app_nil_r in *; split_and!; [lia|..].
    + destruct Hef as (E1 & E2 & ->). rewrite E1 in IH2, IH3, IH4. rewrite E2. cbn in *.
      by rewrite !app_nil_r in *; split_and!; [lia|..].
    + destruct Hef as (E1 & E2 & ->). rewrite E1 in IH2, IH3, IH4. rewrite E2. cbn in *.
      by rewrite !app_nil_r in *; split_and!; [lia|..].
Qed.

Definition sample_interface : PacketPassInterface :=
  MkPacketPassInterface 10 false true false [] false false PPI_STATE_NONE false.

Lemma packetpass_handshake_witness :
  ∃ i, run_act (ASend [1; 2]) sample_interface = Some (tt, i, []) ∧ pass_inv i ∧
    delivered [] ++ undelivered i = [[1; 2]].
Proof.
  eexists. split; [reflexivity|].
  refine (let H := packetpass_handshake _ ([] ++ [[1; 2]]) ([] ++ []) (false || false) _ in
    conj (proj1 H) (proj1 (proj2 (proj2 (proj2 H))) eq_refl)).
  refine (exec_act sample_interface [] [] false (ASend [1; 2]) _ [] _ _ eq_refl).
  - exact (exec_init 10 (MkPacketPassInterface 10 false false false [] false false
      PPI_STATE_NONE false) false eq_refl).
  - split; [reflexivity|vm_compute; discriminate].
Defined.
End PacketPassHandshake.

(** ** Streams *)
Section StreamHandshake.
Import StreamIf.

Inductive stream_act := SStart (n : Z) | SDone (n : Z) | SJOperation | SJDone.

Definition run_stream_act (a : stream_act) : op unit :=
  match a with
  | SStart n => StreamInterface_Start n
  | SDone n => StreamInterface_Done n
  | SJOperation => _StreamInterface_job_operation
  | SJDone => _StreamInterface_job_done
  end.

(** A user starts when idle with a non-empty piece; a provider that is busy
    reports between one byte and the whole piece. *)
Definition stream_enabled (a : stream_act) (i : StreamInterface) : Prop :=
  match a with
  | SStart n => state i = SPI_STATE_NONE ∧ 0 < n
  | SDone n => state i = SPI_STATE_BUSY ∧ 0 < n ≤ job_operation_len i
  | SJOperation => job_operation i = true
  | SJDone => job_done i = true
  end.

Record stream_inv (i : StreamInterface) : Prop := {
  si_user : handler_done i = true;
  si_state : 1 ≤ state i ≤ 4;
  si_operation : job_operation i = true ↔ state i = SPI_STATE_OPERATION_PENDING;
  si_done : job_done i = true ↔ state i = SPI_STATE_DONE_PENDING
}.

Inductive stream_exec : StreamInterface → list call → Prop :=
  | stream_exec_init : stream_exec (StreamInterface_Init <| handler_done := true |>) []
  | stream_exec_act i calls a i' es :
      stream_exec i calls → stream_enabled a i → run_stream_act a i = Some (tt, i', es) →
      stream_exec i' (calls ++ es).

Definition stream_effect (a : stream_act) (i i' : StreamInterface) (es : list call) : Prop :=
  match a with
  | SStart n => state i = 1 ∧ state i' = 2 ∧ job_operation_len i' = n ∧ es = []
  | SDone n => state i = 3 ∧ state i' = 4 ∧ job_operation_len i' = job_operation_len i ∧
      job_done_len i' = n ∧ es = []
  | SJOperation => state i = 2 ∧ state i' = 3 ∧ job_operation_len i' = job_operation_len i ∧
      es = [CallOperation (job_operation_len i)]
  | SJDone => state i = 4 ∧ state i' = 1 ∧ es = [CallDone (job_done_len i)]
  end.

Ltac unfold_stream :=
  unfold StreamInterface_Start, StreamInterface_Done, _StreamInterface_job_operation,
    _StreamInterface_job_done, SPI_STATE_NONE, SPI_STATE_OPERATION_PENDING, SPI_STATE_BUSY,
    SPI_STATE_DONE_PENDING in *.

Lemma stream_act_ok a i : stream_inv i → stream_enabled a i →
  wp (run_stream_act a) i (λ _ i' es, stream_inv i' ∧ stream_effect a i i' es).
Proof.
  intros [Hu Hs Ho Hd] He. destruct a; cbn [run_stream_act stream_enabled stream_effect] in *;
    unfold_stream.
  - wp_run. split; [|cbn; intuition]. constructor; cbn; unfold_stream; try done; try lia.
    destruct (job_done i); intuition lia.
  - wp_run. split; [|cbn; intuition]. constructor; cbn; unfold_stream; try done; try lia.
    destruct (job_operation i); intuition lia.
  - apply Ho in He. wp_run. split; [|cbn; intuition].
    constructor; cbn; unfold_stream; try done; try lia. destruct (job_done i); intuition lia.
  - apply Hd in He. wp_run. split; [|cbn; intuition].
    constructor; cbn; unfold_stream; try done; try lia. destruct (job_operation i); intuition lia.
Qed.

(** [alternating p calls q]: operation and done calls alternate, a done call
    reporting between one byte and what the operation before it was given;
    [p] and [q] are the operations in progress before and after. *)
Inductive alternating : list call → option Z → Prop :=
  | alt_nil : alternating [] None
  | alt_operation calls n : alternating calls None → alternating (calls ++ [CallOperation n]) (Some n)
  | alt_done calls n k : alternating calls (Some n) → 0 < k ≤ n →
      alternating (calls ++ [CallDone k]) None.

Lemma stream_exec_ok i calls : stream_exec i calls → stream_inv i ∧
  alternating calls (if (state i =? 3) || (state i =? 4) then Some (job_operation_len i) else None) ∧
  (state i = 4 → 0 < job_done_len i ≤ job_operation_len i).
Proof.
  induction 1 as [|i calls a i' es Hx (IH1 & IH2 & IH3) He Hr].
  - split_and!; [by constructor|constructor|done].
  - pose proof (stream_act_ok a i IH1 He) as Hw. unfold wp in Hw. rewrite Hr in Hw.
    destruct Hw as [Hinv Hef]. split; [done|].
    destruct a; cbn [stream_effect stream_enabled] in *.
    + destruct Hef as (E1 & E2 & _ & ->). rewrite E1 in IH2. rewrite E2, app_nil_r. by cbn in *.
    + destruct Hef as (E1 & E2 & E3 & E4 & ->). rewrite E1 in IH2.
      rewrite E2, E3, E4, app_nil_r. cbn in *. split; [done|]. intros _. apply He.
    + destruct Hef as (E1 & E2 & E3 & ->). rewrite E1 in IH2. rewrite E2, E3. cbn in *.
      split; [by constructor|done].
    + destruct Hef as (E1 & E2 & ->). rewrite E1 in IH2. rewrite E2. cbn in *.
      split; [|done]. by eapply alt_done; [|apply IH3].
Qed.

(** The stream handshake (both interfaces). In every execution that follows
    the rules no assertion fails, the provider's operation handler and the
    user's done handler are called in strict alternation, and every done call
    reports at least one byte and at most what was offered. *)
Theorem stream_handshake (i : StreamInterface) (calls : list call)
    (Hexec : stream_exec i calls) :
  (∃ p, alternating calls p) ∧ (∀ a, stream_enabled a i → is_Some (run_stream_act a i)).
Proof.
  destruct (stream_exec_ok i calls Hexec) as (Hinv & Halt & _). split; [eauto|].
  intros a Ha. apply (stream_act_ok a i Hinv), wp_some in Ha as (? & ? & ? & -> & _). by eexists.
Qed.

Lemma stream_handshake_witness :
  is_Some (run_stream_act (SStart 5) (StreamInterface_Init <| handler_done := true |>)).
Proof.
  apply (proj2 (stream_handshake (StreamInterface_Init <| handler_done := true |>) []
    stream_exec_init)). split; [reflexivity|lia].
Defined.
End StreamHandshake.
End InterfaceFacts.
