(* ===== verification/PacketProto.v ===== *)
(** PacketProto, packets over a byte stream: protocol/packetproto.h, the
    encoder, and the decoder with its receive buffer. *)
From S2P Require Import Prelude Misc.

(** * protocol/packetproto.h *)
Module Proto.
Definition sizeof_packetproto_header : Z := 2.
Definition PACKETPROTO_ENCLEN (l : Z) : Z := sizeof_packetproto_header + l.
Definition PACKETPROTO_MAXPAYLOAD : Z := UINT16_MAX.
End Proto.
Export Proto.

(** * flow/PacketProtoEncoder.c *)
Module PacketProtoEncoder.

(** The memory of the packet being written is [output_packet], the pointer
    held being whether there is one. *)
Record PacketProtoEncoder := MkPacketProtoEncoder {
  input_mtu : Z;
  output_mtu : Z;
  output_packet : option bytes
}.
#[global] Instance eta_PacketProtoEncoder : Eta PacketProtoEncoder := λ x,
  MkPacketProtoEncoder (input_mtu x) (output_mtu x) (output_packet x).

(** [EncRecv] asks the input for a packet, written after the header;
    [EncDone] hands the finished memory to the output with its length. *)
Inductive enc_call := EncRecv | EncDone (packet : bytes) (packet_len : Z).

Definition PacketProtoEncoder_Init (mtu : Z) : option PacketProtoEncoder :=
  ASSERT_ (mtu <=? PACKETPROTO_MAXPAYLOAD);
  Some (MkPacketProtoEncoder mtu (PACKETPROTO_ENCLEN mtu) None).

Definition output_handler_recv (data : bytes) : prog PacketProtoEncoder enc_call unit :=
  enc ← get_st;
  ASSERT (bool_decide (output_packet enc = None));;
  modify (λ e, e <| output_packet := Some data |>);;
  emit EncRecv.

(** [payload] is what the input wrote behind the header, [len payload] is
    [in_len]. *)
Definition input_handler_done (payload : bytes) : prog PacketProtoEncoder enc_call unit :=
  enc ← get_st;
  match output_packet enc with
  | None => ASSERT false
  | Some mem =>
      let mem := zwrite sizeof_packetproto_header payload mem in
      let mem := zwrite 0 (mem16 (htol16 (u16 (len payload)))) mem in
      modify (λ e, e <| output_packet := None |>);;
      emit (EncDone mem (PACKETPROTO_ENCLEN (len payload)))
  end.

(** The encoding of a packet. *)
Definition encode1 (p : bytes) : bytes := badvpn_write_le16 (len p) ++ p.
Definition encode (ps : list bytes) : bytes := concat (encode1 <$> ps).

Lemma encode1_len p : len (encode1 p) = PACKETPROTO_ENCLEN (len p).
Proof. unfold encode1. by rewrite len_app. Qed.

(** The encoder turns a packet into its encoding, within the memory the output
    provided. *)
Lemma encoder_done_ok enc mem payload : output_packet enc = Some mem →
  len payload ≤ PACKETPROTO_MAXPAYLOAD → PACKETPROTO_ENCLEN (len payload) ≤ len mem →
  ∃ mem', input_handler_done payload enc = Some (tt, enc <| output_packet := None |>,
      [EncDone mem' (PACKETPROTO_ENCLEN (len payload))]) ∧
    len mem' = len mem ∧ ztake (PACKETPROTO_ENCLEN (len payload)) mem' = encode1 payload.
Proof.
  intros Ho Hp Hm. unfold input_handler_done. eexists.
  split; [unfold mbind, prog_bind, get_st; rewrite Ho; reflexivity|].
  unfold PACKETPROTO_MAXPAYLOAD, UINT16_MAX in Hp. pose proof (len_nonneg payload).
  unfold PACKETPROTO_ENCLEN, sizeof_packetproto_header in *.
  assert (len (mem16 (htol16 (u16 (len payload)))) = 2) as H2 by done.
  assert (len (zwrite 2 payload mem) = len mem) as H1 by (apply len_zwrite; lia).
  split; [rewrite len_zwrite; rewrite ?H2; lia|].
  assert (mem16 (htol16 (u16 (len payload))) = badvpn_write_le16 (len payload)) as ->.
  { rewrite write_le16_val. unfold htol16, u16. rewrite Z.mod_small; [done|lia]. }
  unfold zwrite at 1. rewrite ztake_0. change (len (badvpn_write_le16 _)) with 2.
  cbn [app]. unfold zwrite. assert (len (ztake 2 mem) = 2) as H3 by (apply len_ztake; lia).
  rewrite Z.add_0_l. rewrite <- H3 at 2. rewrite zdrop_app, app_assoc.
  change (badvpn_write_le16 (len payload) ++ payload) with (encode1 payload).
  change (2 + len payload) with (PACKETPROTO_ENCLEN (len payload)).
  rewrite <- encode1_len. apply ztake_app.
Qed.

End PacketProtoEncoder.

(** * flow/PacketProtoDecoder.c *)
Module PacketProtoDecoder.

Record PacketProtoDecoder := MkPacketProtoDecoder {
  output_mtu : Z;
  buf_size : Z;
  buf_start : Z;
  buf_used : Z;
  buf : bytes
}.
#[global] Instance eta_PacketProtoDecoder : Eta PacketProtoDecoder := λ x,
  MkPacketProtoDecoder (output_mtu x) (buf_size x) (buf_start x) (buf_used x) (buf x).

(** A packet passed to the output, a receive of up to [n] bytes at offset
    [off] of the buffer, the call of the error handler. *)
Inductive dec_call :=
  | Sender_Send (data : bytes)
  | Receiver_Recv (off n : Z)
  | HandlerError.

Abbreviation op := (prog PacketProtoDecoder dec_call).

(** How the [do ... while (0)] block of [process_data] is left: by its first
    or third [break], by its second, or by submitting a packet. *)
Inductive scan := Incomplete | TooLarge | Complete (data_len : Z).

Definition scan_buffer (enc : PacketProtoDecoder) : scan :=
  let data := zdrop (buf_start enc) (buf enc) in
  let left := buf_used enc in
  if left <? sizeof_packetproto_header then Incomplete else
  let header := badvpn_read_le16 data in
  let left := left - sizeof_packetproto_header in
  let data_len := ltoh16 header in
  if output_mtu enc <? data_len then TooLarge else
  if left <? data_len then Incomplete else
  Complete data_len.

(** [memmove (enc->buf, enc->buf + enc->buf_start, enc->buf_used)]. *)
Definition move_front (enc : PacketProtoDecoder) : PacketProtoDecoder :=
  enc <| buf := zwrite 0 (zslice (buf_start enc) (buf_used enc) (buf enc)) (buf enc) |>
      <| buf_start := 0 |>.

Definition receive : op unit :=
  enc ← get_st;
  let e := buf_start enc + buf_used enc in
  emit (Receiver_Recv e (buf_size enc - e)).

Definition process_data : op unit :=
  enc ← get_st;
  match scan_buffer enc with
  | Complete data_len =>
      modify (λ e, e <| buf_start := buf_start e + (sizeof_packetproto_header + data_len) |>);;
      modify (λ e, e <| buf_used := buf_used e - (sizeof_packetproto_header + data_len) |>);;
      emit (Sender_Send (zslice (buf_start enc + sizeof_packetproto_header) data_len (buf enc)))
  | TooLarge =>
      modify (λ e, e <| buf_start := 0 |> <| buf_used := 0 |>);;
      receive;;
      emit HandlerError
  | Incomplete =>
      when (buf_start enc + buf_used enc =? buf_size enc) (modify move_front);;
      receive
  end.

Definition input_handler_done (data_len : Z) : op unit :=
  enc ← get_st;
  ASSERT (0 <? data_len);;
  ASSERT (data_len <=? buf_size enc - (buf_start enc + buf_used enc));;
  modify (λ e, e <| buf_used := buf_used e + data_len |>);;
  process_data.

Definition output_handler_done : op unit := process_data.

(** [mem] is the allocated buffer, [output_interface_mtu] the MTU of the
    output. *)
Definition PacketProtoDecoder_Init (output_interface_mtu : Z) (mem : bytes)
    : PacketProtoDecoder * list dec_call :=
  let m := bmin_int output_interface_mtu PACKETPROTO_MAXPAYLOAD in
  let enc := MkPacketProtoDecoder m (PACKETPROTO_ENCLEN m) 0 0 mem in
  (enc, [Receiver_Recv 0 (buf_size enc)]).

Definition PacketProtoDecoder_Reset : op unit :=
  modify (λ e, e <| buf_start := buf_start e + buf_used e |>);;
  modify (λ e, e <| buf_used := 0 |>).

(** ** The decoder between its input and its output

    A run of the decoder: the output takes every packet it is sent, the input
    delivers the stream [input] in pieces, of any size [choose] picks between
    one byte and the room offered. The result lists the packets and the error
    reports in order. *)
Inductive output := OPacket (p : bytes) | OError.

Definition piece (choose : nat → Z) (fuel : nat) (n : Z) (input : bytes) : Z :=
  Z.max 1 (Z.min (choose fuel) (Z.min n (len input))).

Definition report (es : list dec_call) : list output :=
  omap (λ e, match e with
             | Sender_Send p => Some (OPacket p)
             | HandlerError => Some OError
             | Receiver_Recv _ _ => None end) es.

Fixpoint drive (fuel : nat) (choose : nat → Z) (input : bytes) (enc : PacketProtoDecoder)
    (es : list dec_call) : option (list output) :=
  match fuel with
  | O => None
  | S fuel =>
      match es with
      | Sender_Send _ :: _ =>
          '(_, enc, es') ← output_handler_done enc;
          out ← drive fuel choose input enc es';
          Some (report es ++ out)
      | Receiver_Recv off n :: _ =>
          if bool_decide (input = []) then Some (report es) else
          let k := piece choose fuel n input in
          let enc := enc <| buf := zwrite off (ztake k input) (buf enc) |> in
          '(_, enc, es') ← input_handler_done k enc;
          out ← drive fuel choose (zdrop k input) enc es';
          Some (report es ++ out)
      | _ => None
      end
  end.

Definition decode (choose : nat → Z) (mtu : Z) (mem input : bytes) : option (list output) :=
  let '(enc, es) := PacketProtoDecoder_Init mtu mem in
  drive (2 * length input + 1) choose input enc es.

End PacketProtoDecoder.

(** * Decoding what was encoded *)
Module PacketProtoFacts.
Import PacketProtoEncoder PacketProtoDecoder.

(** The decision of the decoder as a function of the bytes received and not
    yet passed on. *)
Definition scan_bytes (mtu : Z) (l : bytes) : scan :=
  if len l <? 2 then Incomplete else
  let n := badvpn_read_le16 l in
  if mtu <? n then TooLarge else
  if len l - 2 <? n then Incomplete else Complete n.

(** The buffer holds the pending bytes [pend]. *)
Record dec_ok (enc : PacketProtoDecoder) (pend : bytes) : Prop := {
  do_mtu : 0 ≤ output_mtu enc ≤ 65535;
  do_size : buf_size enc = 2 + output_mtu enc;
  do_mem : len (buf enc) = buf_size enc;
  do_range : 0 ≤ buf_start enc ∧ buf_used enc = len pend ∧
    buf_start enc + buf_used enc ≤ buf_size enc;
  do_data : zslice (buf_start enc) (buf_used enc) (buf enc) = pend
}.

Lemma read_le16_app l k : 2 ≤ len l → badvpn_read_le16 (l ++ k) = badvpn_read_le16 l.
Proof. destruct l as [|a [|b l]]; unfold len; cbn [length]; try lia. done. Qed.
Lemma read_le16_ztake n l : 2 ≤ n → badvpn_read_le16 (ztake n l) = badvpn_read_le16 l.
Proof.
  intros. unfold ztake. destruct (Z.to_nat n) as [|[|m]] eqn:E; [lia|lia|].
  by destruct l as [|a [|b l]].
Qed.

Lemma scan_buffer_bytes enc pend : dec_ok enc pend →
  scan_buffer enc = scan_bytes (output_mtu enc) pend.
Proof.
  intros [_ _ Hm (Hs & Hu & Hr) Hd]. unfold scan_buffer, scan_bytes, ltoh16, htol16.
  unfold sizeof_packetproto_header. rewrite Hu. destruct (Z.ltb_spec (len pend) 2); [done|].
  assert (badvpn_read_le16 (zdrop (buf_start enc) (buf enc)) = badvpn_read_le16 pend) as ->; [|done].
  rewrite <- Hd. unfold zslice. rewrite Hu, read_le16_ztake; done.
Qed.

(** More input never changes a decision once made. *)
Lemma scan_app mtu l k : scan_bytes mtu l ≠ Incomplete → scan_bytes mtu (l ++ k) = scan_bytes mtu l.
Proof.
  unfold scan_bytes. rewrite len_app. pose proof (len_nonneg k).
  destruct (Z.ltb_spec (len l) 2); [done|]. destruct (Z.ltb_spec (len l + len k) 2); [lia|].
  rewrite read_le16_app by done. destruct (Z.ltb_spec mtu (badvpn_read_le16 l)); [done|].
  destruct (Z.ltb_spec (len l - 2) (badvpn_read_le16 l)); [done|].
  intros _. destruct (Z.ltb_spec (len l + len k - 2) (badvpn_read_le16 l)); [lia|done].
Qed.
Lemma scan_complete mtu l n : bytes_ok l → scan_bytes mtu l = Complete n →
  0 ≤ n ∧ 2 + n ≤ len l ∧ n ≤ mtu.
Proof.
  unfold scan_bytes. intros Hl. repeat case_match; try done. intros [= <-]. bool_to_prop.
  destruct l as [|a [|b l]]; [done|done|]. apply Forall_cons in Hl as [Ha Hl].
  apply Forall_cons in Hl as [Hb _]. pose proof (read_le16_u16 a b l Ha Hb) as Hx.
  unfold is_u16 in Hx. lia.
Qed.
Lemma scan_incomplete mtu l : 0 ≤ mtu → scan_bytes mtu l = Incomplete → len l < 2 + mtu.
Proof. unfold scan_bytes. intros Hm. repeat case_match; try done; bool_to_prop; lia. Qed.
Lemma scan_encode1 mtu p k : len p ≤ mtu → mtu ≤ 65535 →
  scan_bytes mtu (encode1 p ++ k) = Complete (len p) ∧
  zslice 2 (len p) (encode1 p ++ k) = p ∧ zdrop (2 + len p) (encode1 p ++ k) = k.
Proof.
  intros Hp Hm. pose proof (len_nonneg p). pose proof (len_nonneg k).
  assert (badvpn_read_le16 (encode1 p ++ k) = len p) as E.
  { unfold encode1. rewrite <- app_assoc. apply read_write_le16. unfold is_u16. lia. }
  assert (len (encode1 p) = 2 + len p) as El by by rewrite encode1_len.
  split_and!.
  - unfold scan_bytes. rewrite E, len_app, El.
    by rewrite !(proj2 (Z.ltb_ge _ _)) by lia.
  - rewrite zslice_app_le by lia. unfold zslice, encode1.
    change 2 with (len (badvpn_write_le16 (len p))). rewrite zdrop_app. by apply ztake_all.
  - rewrite <- El. apply zdrop_app.
Qed.

Definition process_post (enc : PacketProtoDecoder) (pend : bytes)
    (enc' : PacketProtoDecoder) (es : list dec_call) : Prop :=
  output_mtu enc' = output_mtu enc ∧
  match scan_bytes (output_mtu enc) pend with
  | Complete n => es = [Sender_Send (zslice 2 n pend)] ∧ dec_ok enc' (zdrop (2 + n) pend)
  | TooLarge => es = [Receiver_Recv 0 (buf_size enc'); HandlerError] ∧ dec_ok enc' [] ∧
      buf_start enc' = 0 ∧ 0 < buf_size enc'
  | Incomplete => dec_ok enc' pend ∧ buf_start enc' + buf_used enc' < buf_size enc' ∧
      es = [Receiver_Recv (buf_start enc' + buf_used enc')
              (buf_size enc' - (buf_start enc' + buf_used enc'))]
  end.

Lemma move_front_ok enc pend : dec_ok enc pend → dec_ok (move_front enc) pend.
Proof.
  intros [Hmt Hsz Hm (Hs & Hu & Hr) Hd]. pose proof (len_nonneg pend).
  assert (len (zslice (buf_start enc) (buf_used enc) (buf enc)) = buf_used enc) as Hl
    by (apply len_zslice; lia).
  constructor; cbn; try done; try lia.
  - rewrite len_zwrite; lia.
  - rewrite <- Hl at 1. rewrite zslice_zwrite_same by lia. done.
Qed.

Lemma process_data_ok enc pend : bytes_ok pend → dec_ok enc pend →
  wp process_data enc (λ _ enc' es, process_post enc pend enc' es).
Proof.
  intros Hb Hok. unfold process_data, process_post. wp_run. rewrite (scan_buffer_bytes _ _ Hok).
  pose proof Hok as [Hmt Hsz Hm (Hs & Hu & Hr) Hd].
  destruct (scan_bytes (output_mtu enc) pend) as [| |n] eqn:Hsc.
  - apply wp_bind, wp_when; intros Hw; wp_run; unfold receive; wp_run; bool_to_prop;
      pose proof (scan_incomplete _ _ (proj1 Hmt) Hsc).
    + split; [done|]. split_and!; [by apply move_front_ok|cbn; lia|done].
    + split; [done|]. split_and!; [done|lia|done].
  - unfold receive. wp_run. split; [done|]. split_and!; [| |done|cbn; lia];
      [|constructor; cbn; try done; split_and!; [done|done|lia]].
    cbn. by rewrite Z.sub_0_r.
  - wp_run. destruct (scan_complete _ _ _ Hb Hsc) as (? & ? & ?).
    unfold sizeof_packetproto_header. split; [done|]. split.
    + cbn. do 2 f_equal. rewrite <- Hd, zslice_zslice by lia. done.
    + constructor; cbn; try done.
      * rewrite len_zdrop by lia. lia.
      * rewrite <- Hd, zdrop_zslice by lia. done.
Qed.

(** A piece written behind the pending bytes is appended to them. *)
Lemma receive_ok enc pend chunk : dec_ok enc pend →
  len chunk ≤ buf_size enc - (buf_start enc + buf_used enc) →
  dec_ok (enc <| buf := zwrite (buf_start enc + buf_used enc) chunk (buf enc) |>
              <| buf_used := buf_used enc + len chunk |>) (pend ++ chunk).
Proof.
  intros [Hmt Hsz Hm (Hs & Hu & Hr) Hd] Hc. pose proof (len_nonneg pend). pose proof (len_nonneg chunk).
  assert (len (zwrite (buf_start enc + buf_used enc) chunk (buf enc)) = len (buf enc)) as Hl
    by (apply len_zwrite; lia).
  constructor; cbn; try done.
  - by rewrite Hl.
  - rewrite len_app. lia.
  - rewrite zslice_split by lia. f_equal.
    + rewrite zslice_zwrite_before by lia. done.
    + apply zslice_zwrite_same; lia.
Qed.

(** ** Runs *)

(** What the decoder waits for: the output, to take a packet, or the input, to
    deliver more of an incomplete one into a non-empty room. *)
Definition ready (enc : PacketProtoDecoder) (pend : bytes) (es : list dec_call) : Prop :=
  bytes_ok pend ∧ dec_ok enc pend ∧
  ((∃ p, es = [Sender_Send p]) ∨
   let e := buf_start enc + buf_used enc in
   scan_bytes (output_mtu enc) pend = Incomplete ∧ e < buf_size enc ∧
   (es = [Receiver_Recv e (buf_size enc - e)] ∨
    es = [Receiver_Recv e (buf_size enc - e); HandlerError])).

Definition sending (es : list dec_call) : Z :=
  match es with Sender_Send _ :: _ => 1 | _ => 0 end.

Lemma sending_nonneg es : 0 ≤ sending es.
Proof. by destruct es as [|[] ?]. Qed.

Definition pend_after (mtu : Z) (pend : bytes) : bytes :=
  match scan_bytes mtu pend with
  | Complete n => zdrop (2 + n) pend | TooLarge => [] | Incomplete => pend
  end.

Lemma post_ready enc pend enc' es : bytes_ok pend → process_post enc pend enc' es →
  ready enc' (pend_after (output_mtu enc) pend) es ∧ output_mtu enc' = output_mtu enc ∧
  len (pend_after (output_mtu enc) pend) + sending es ≤ len pend ∧
  report es = match scan_bytes (output_mtu enc) pend with
    | Complete n => [OPacket (zslice 2 n pend)] | TooLarge => [OError] | Incomplete => [] end.
Proof.
  intros Hb [Hmt Hp]. unfold pend_after, ready. pose proof (len_nonneg pend).
  destruct (scan_bytes (output_mtu enc) pend) as [| |n] eqn:Hs.
  - destruct Hp as (Hok & Hlt & ->). rewrite Hmt, Hs.
    split_and!; try done; try (cbn [sending]; lia). right. auto.
  - destruct Hp as (-> & Hok & Hst & Hsz). pose proof (do_range _ _ Hok) as (_ & Hu & _).
    change (len []) with 0 in Hu. rewrite Hst, Hu, Z.add_0_r, Z.sub_0_r.
    split_and!; try done; try (change (0 + 0 ≤ len pend); lia); [by apply Forall_nil_2|].
    right. split_and!; [done|done|by right].
  - destruct Hp as (-> & Hok). destruct (scan_complete _ _ _ Hb Hs) as (? & ? & ?).
    split_and!; try done; [by apply bytes_ok_zdrop|by left; eexists|].
    cbn [sending]. rewrite len_zdrop by lia. lia.
Qed.

(** One step of the driver runs [process_data] once, on the pending bytes or on
    them and the piece received. *)
Lemma drive_step fuel choose input enc pend es : ready enc pend es → bytes_ok input →
  (sending es = 1 ∨ input ≠ []) →
  ∃ chunk input' enc' es', input = chunk ++ input' ∧ process_post enc (pend ++ chunk) enc' es' ∧
    2 * len input' + len (pend ++ chunk) < 2 * len input + len pend + sending es ∧
    drive (S fuel) choose input enc es
      = (out ← drive fuel choose input' enc' es'; Some (report es ++ out)).
Proof.
  intros (Hb & Hok & Hes) Hi Hgo. destruct Hes as [[p ->]|(Hs & Hlt & Hes)].
  - pose proof (process_data_ok enc pend Hb Hok) as Hw.
    apply wp_some in Hw as ([] & enc' & es' & E & Hp).
    exists [], input, enc', es'. rewrite app_nil_r. split_and!; [done|done|cbn [sending]; lia|].
    cbn [drive]. unfold output_handler_done. by rewrite E.
  - assert (sending es = 0) as Hz by by destruct Hes as [-> | ->].
    destruct Hgo as [|Hne]; [lia|]. assert (0 < len input) as Hl.
    { destruct input; [done|]. rewrite len_cons. len_lia. }
    set (e := buf_start enc + buf_used enc) in *. set (room := buf_size enc - e) in *.
    set (k := piece choose fuel room input). assert (1 ≤ k ≤ Z.min room (len input)) as Hk.
    { unfold k, piece. lia. }
    assert (len (ztake k input) = k) as Hlk by (apply len_ztake; lia).
    pose proof (receive_ok enc pend (ztake k input) Hok) as Hok'. rewrite Hlk in Hok'.
    specialize (Hok' ltac:(lia)).
    set (enc1 := enc <| buf := zwrite e (ztake k input) (buf enc) |>).
    assert (wp (input_handler_done k) enc1 (λ _ enc' es', process_post enc (pend ++ ztake k input) enc' es'))
      as Hw.
    { unfold input_handler_done. wp_run.
      eapply wp_mono;
        [apply (process_data_ok (enc1 <| buf_used := buf_used enc1 + k |>) (pend ++ ztake k input))
        |by intros [] ?? H]; [|done].
      apply bytes_ok_app. split; [done|by apply bytes_ok_ztake]. }
    apply wp_some in Hw as ([] & enc' & es' & E & Hp).
    exists (ztake k input), (zdrop k input), enc', es'.
    split_and!; [by rewrite ztake_zdrop|done| |].
    + rewrite Hz, len_app, Hlk, len_zdrop by lia. lia.
    + destruct Hes as [-> | ->]; cbn [drive]; rewrite bool_decide_eq_false_2 by done;
        fold k enc1; by rewrite E.
Qed.

Lemma drive_report fuel choose input enc es o : drive fuel choose input enc es = Some o →
  ∃ o', o = report es ++ o'.
Proof.
  destruct fuel as [|fuel]; [done|]. cbn [drive].
  destruct es as [|[p|off n|] es]; try done.
  - destruct (output_handler_done enc) as [[[[] ?] ?]|]; [|done]. cbn.
    destruct (drive _ _ _ _ _); [|done]. cbn. intros [= <-]. eauto.
  - case_bool_decide; [intros [= <-]; exists []; by rewrite app_nil_r|].
    destruct (input_handler_done _ _) as [[[[] ?] ?]|]; [|done]. cbn.
    destruct (drive _ _ _ _ _); [|done]. cbn. intros [= <-]. eauto.
Qed.

(** The run ends, whatever the input: the fuel is enough. *)
Lemma drive_total fuel choose : ∀ input enc pend es, ready enc pend es → bytes_ok input →
  2 * len input + len pend + sending es < Z.of_nat fuel →
  is_Some (drive fuel choose input enc es).
Proof.
  induction fuel as [|fuel IH]; intros input enc pend es Hr Hi Hf;
    [pose proof (sending_nonneg es); len_lia|].
  destruct (decide (sending es = 1 ∨ input ≠ [])) as [Hgo|Hstop].
  - destruct (drive_step fuel choose input enc pend es Hr Hi Hgo)
      as (chunk & input' & enc' & es' & -> & Hp & Hm & ->).
    apply bytes_ok_app in Hi as [Hc Hi].
    assert (bytes_ok (pend ++ chunk)) as Hb by (apply bytes_ok_app; split; [apply Hr|done]).
    destruct (post_ready _ _ _ _ Hb Hp) as (Hr' & _ & Hl & _).
    destruct (IH input' enc' _ es' Hr' Hi) as [o ->]; [lia|]. by eexists.
  - destruct Hr as (_ & _ & [[p ->]|(_ & _ & Hes)]); [exfalso; by apply Hstop; left|].
    assert (input = []) as -> by (destruct (decide (input = [])); [done|tauto]).
    by destruct Hes as [-> | ->]; eexists.
Qed.

(** The outcome of a run on [encode ps ++ rest]. *)
Definition outcome (mtu : Z) (ps : list bytes) (rest : bytes) (o : list output) : Prop :=
  match scan_bytes mtu rest with
  | Incomplete => o = OPacket <$> ps
  | TooLarge => ∃ o', o = (OPacket <$> ps) ++ OError :: o'
  | Complete _ => True
  end.

Lemma outcome_cons mtu p ps rest o : outcome mtu ps rest o →
  outcome mtu (p :: ps) rest (OPacket p :: o).
Proof. unfold outcome. case_match; cbn; [by intros ->|by intros [o' ->]; eexists|done]. Qed.

Lemma drive_ok fuel choose : ∀ input enc pend es ps rest, ready enc pend es → bytes_ok input →
  pend ++ input = encode ps ++ rest → Forall (λ p, len p ≤ output_mtu enc) ps →
  2 * len input + len pend + sending es < Z.of_nat fuel →
  ∃ o, drive fuel choose input enc es = Some (report es ++ o) ∧ outcome (output_mtu enc) ps rest o.
Proof.
  induction fuel as [|fuel IH]; intros input enc pend es ps rest Hr Hi Hin Hps Hf;
    [pose proof (sending_nonneg es); len_lia|].
  pose proof (do_mtu _ _ (proj1 (proj2 Hr))) as Hmt.
  destruct (decide (sending es = 1 ∨ input ≠ [])) as [Hgo|Hstop].
  - destruct (drive_step fuel choose input enc pend es Hr Hi Hgo)
      as (chunk & input' & enc' & es' & -> & Hp & Hm & ->).
    apply bytes_ok_app in Hi as [Hc Hi]. rewrite app_assoc in Hin.
    assert (bytes_ok (pend ++ chunk)) as Hb by (apply bytes_ok_app; split; [apply Hr|done]).
    set (q := pend ++ chunk) in *.
    destruct (post_ready _ _ _ _ Hb Hp) as (Hr' & Hmt' & Hl & Hrep).
    destruct (scan_bytes (output_mtu enc) q) as [| |n] eqn:Hs; unfold pend_after in *;
      rewrite Hs in *.
    + destruct (IH input' enc' q es' ps rest) as (o & -> & Ho); [done|done|done|by rewrite Hmt'|lia|].
      rewrite Hrep, Hmt' in *. eauto.
    + destruct (drive_total fuel choose input' enc' [] es') as [o Ho]; [done|done|lia|].
      rewrite Ho. destruct (drive_report _ _ _ _ _ _ Ho) as [o' ->]. rewrite Hrep.
      cbn. eexists. split; [done|].
      pose proof (scan_app (output_mtu enc) q input') as Hsa. rewrite Hs, Hin in Hsa.
      specialize (Hsa ltac:(done)). destruct ps as [|p ps].
      * unfold outcome. change (encode [] ++ rest) with rest in Hsa. rewrite Hsa. by eexists.
      * apply Forall_cons in Hps as [Hp1 _]. exfalso.
        change (encode (p :: ps)) with (encode1 p ++ encode ps) in Hsa. rewrite <- app_assoc in Hsa.
        rewrite (proj1 (scan_encode1 (output_mtu enc) p _ Hp1 (proj2 Hmt))) in Hsa. done.
    + pose proof (scan_app (output_mtu enc) q input') as Hsa. rewrite Hs, Hin in Hsa.
      specialize (Hsa ltac:(done)). destruct (scan_complete _ _ _ Hb Hs) as (Hn0 & Hn1 & Hn2).
      destruct ps as [|p ps].
      * destruct (drive_total fuel choose input' enc' (zdrop (2 + n) q) es') as [o Ho]; [done|done|lia|].
        rewrite Ho. destruct (drive_report _ _ _ _ _ _ Ho) as [o' ->]. eexists. split; [done|].
        unfold outcome. change (encode [] ++ rest) with rest in Hsa. by rewrite Hsa.
      * apply Forall_cons in Hps as [Hp1 Hps].
        change (encode (p :: ps)) with (encode1 p ++ encode ps) in *. rewrite <- app_assoc in *.
        destruct (scan_encode1 (output_mtu enc) p (encode ps ++ rest) Hp1 (proj2 Hmt)) as (E1 & E2 & E3).
        rewrite E1 in Hsa. injection Hsa as <-.
        destruct (IH input' enc' (zdrop (2 + len p) q) es' ps rest) as (o & -> & Ho);
          [done|done| |by rewrite Hmt'|lia|].
        { rewrite <- zdrop_app_le by lia. by rewrite Hin. }
        rewrite Hrep, Hmt' in *. cbn. eexists. split; [done|].
        rewrite <- (zslice_app_le 2 (len p) q input') by lia. rewrite Hin, E2. by apply outcome_cons.
  - destruct Hr as (_ & Hok & [[p ->]|(Hs & _ & Hes)]); [exfalso; by apply Hstop; left|].
    assert (input = []) as -> by (destruct (decide (input = [])); [done|tauto]).
    rewrite app_nil_r in Hin. subst pend. exists []. rewrite app_nil_r.
    split; [by destruct Hes as [-> | ->]|]. destruct ps as [|p ps].
    + unfold outcome. change (encode [] ++ rest) with rest in Hs. by rewrite Hs.
    + apply Forall_cons in Hps as [Hp1 _]. exfalso.
      change (encode (p :: ps)) with (encode1 p ++ encode ps) in Hs. rewrite <- app_assoc in Hs.
      by rewrite (proj1 (scan_encode1 (output_mtu enc) p _ Hp1 (proj2 Hmt))) in Hs.
Qed.

Lemma init_ready mtu mem : 0 ≤ mtu → len mem = PACKETPROTO_ENCLEN (bmin_int mtu PACKETPROTO_MAXPAYLOAD) →
  let '(enc, es) := PacketProtoDecoder_Init mtu mem in
  ready enc [] es ∧ report es = [] ∧ output_mtu enc = Z.min mtu 65535.
Proof.
  intros Hm Hl. cbn [PacketProtoDecoder_Init]. rewrite bmin_int_min in *.
  unfold PACKETPROTO_ENCLEN, PACKETPROTO_MAXPAYLOAD, UINT16_MAX, sizeof_packetproto_header in *.
  split_and!; [|done|done]. split; [by apply Forall_nil_2|]. split.
  - constructor; cbn; try done; try lia. split_and!; [done|done|lia].
  - right. split_and!; [done|cbn; lia|left]. cbn. by rewrite Z.sub_0_r.
Qed.

Lemma decode_outcome choose mtu mem ps rest : 0 ≤ mtu →
  len mem = PACKETPROTO_ENCLEN (bmin_int mtu PACKETPROTO_MAXPAYLOAD) →
  Forall (λ p, len p ≤ Z.min mtu 65535) ps → bytes_ok (encode ps ++ rest) →
  ∃ o, decode choose mtu mem (encode ps ++ rest) = Some o ∧ outcome (Z.min mtu 65535) ps rest o.
Proof.
  intros Hm Hl Hps Hb. unfold decode. pose proof (init_ready mtu mem Hm Hl) as Hi.
  destruct (PacketProtoDecoder_Init mtu mem) as [enc es] eqn:E. destruct Hi as (Hr & Hrep & Hmt).
  assert (sending es = 0) as Hs by (injection E as <- <-; done).
  edestruct (drive_ok (2 * length (encode ps ++ rest) + 1) choose (encode ps ++ rest) enc [] es ps rest)
    as (o & -> & Ho); [done|done|done|by rewrite Hmt|rewrite Hs; unfold len; cbn [length]; lia|].
  rewrite Hrep, Hmt in *. eauto.
Qed.

(** C7: decoding inverts encoding, however the stream is cut into pieces: fed
    the encodings of packets no longer than the MTU, followed by an incomplete
    packet or nothing, the decoder passes on exactly those packets, in order,
    and reports no error. The run never asks for an empty piece, never
    overruns its buffer and consumes the whole stream. *)
Theorem packetproto_roundtrip (choose : nat → Z) (mtu : Z) (mem : bytes) (ps : list bytes)
    (rest : bytes) (Hmtu : 0 ≤ mtu)
    (Hmem : len mem = PACKETPROTO_ENCLEN (bmin_int mtu PACKETPROTO_MAXPAYLOAD))
    (Hps : Forall (λ p, len p ≤ Z.min mtu 65535) ps) (Hb : bytes_ok (encode ps ++ rest))
    (Hrest : scan_bytes (Z.min mtu 65535) rest = Incomplete) :
  decode choose mtu mem (encode ps ++ rest) = Some (OPacket <$> ps).
Proof.
  destruct (decode_outcome choose mtu mem ps rest) as (o & -> & Ho); [done..|].
  unfold outcome in Ho. rewrite Hrest in Ho. by subst o.
Qed.

Lemma packetproto_roundtrip_witness :
  decode (λ _, 3) 4 (replicate 6 0) (encode [[1; 2]; []; [3; 4; 5; 6]] ++ [2])
  = Some (OPacket <$> [[1; 2]; []; [3; 4; 5; 6]]).
Proof.
  apply (packetproto_roundtrip (λ _, 3) 4 (replicate 6 0) [[1; 2]; []; [3; 4; 5; 6]] [2]).
  - lia.
  - reflexivity.
  - repeat constructor; vm_compute; discriminate.
  - repeat constructor; vm_compute; discriminate.
  - reflexivity.
Defined.

(** an oversized packet is reported, and not before the packets in front of
    it were passed on: when the stream continues with a header that announces
    more than the MTU, the error handler is called after exactly those packets,
    whatever the pieces. *)
Theorem packetproto_oversize (choose : nat → Z) (mtu : Z) (mem : bytes) (ps : list bytes)
    (n : Z) (more : bytes) (Hmtu : 0 ≤ mtu)
    (Hmem : len mem = PACKETPROTO_ENCLEN (bmin_int mtu PACKETPROTO_MAXPAYLOAD))
    (Hps : Forall (λ p, len p ≤ Z.min mtu 65535) ps)
    (Hb : bytes_ok (encode ps ++ badvpn_write_le16 n ++ more)) (Hn : mtu < n ≤ 65535) :
  ∃ o, decode choose mtu mem (encode ps ++ badvpn_write_le16 n ++ more)
    = Some ((OPacket <$> ps) ++ OError :: o).
Proof.
  destruct (decode_outcome choose mtu mem ps (badvpn_write_le16 n ++ more)) as (o & -> & Ho); [done..|].
  unfold outcome, scan_bytes in Ho. rewrite len_app in Ho.
  change (len (badvpn_write_le16 n)) with 2 in Ho.
  rewrite (proj2 (Z.ltb_ge _ _)) in Ho by len_lia.
  rewrite read_write_le16 in Ho by (unfold is_u16; lia).
  rewrite (proj2 (Z.ltb_lt _ _)) in Ho by lia. destruct Ho as [o' ->]. eauto.
Qed.

Lemma packetproto_oversize_witness :
  ∃ o, decode (λ _, 2) 4 (replicate 6 0) (encode [[7]] ++ badvpn_write_le16 5 ++ [1])
    = Some ((OPacket <$> [[7]]) ++ OError :: o).
Proof.
  apply (packetproto_oversize (λ _, 2) 4 (replicate 6 0) [[7]] 5 [1]).
  - lia.
  - reflexivity.
  - repeat constructor; vm_compute; discriminate.
  - repeat constructor; vm_compute; discriminate.
  - lia.
Defined.

(** Resetting drops the pending bytes and leaves the receive in progress where
    it is. *)
Lemma reset_ok enc pend : dec_ok enc pend →
  wp PacketProtoDecoder_Reset enc (λ _ enc' es, es = [] ∧ dec_ok enc' [] ∧
    buf_start enc' + buf_used enc' = buf_start enc + buf_used enc).
Proof.
  intros [Hmt Hsz Hm (Hs & Hu & Hr) Hd]. pose proof (len_nonneg pend).
  unfold PacketProtoDecoder_Reset. wp_run. split_and!; [done| |cbn; lia].
  constructor; cbn; try done. split_and!; [lia|done|lia].
Qed.
End PacketProtoFacts.
