(* ===== verification/Flow.v ===== *)
(** Flow components between the interfaces: the packet buffer, the buffer
    writer and their composition with the encoder, the packet to stream sender,
    the connector, the single packet buffer and the inactivity monitor. *)
From S2P Require Import Prelude Misc ChunkBuffer2 PacketProto.

(** * flow/PacketBuffer.c *)
Module PacketBuffer.
Import ChunkBuffer2Code.

Record PacketBuffer := MkPacketBuffer {
  input_mtu : Z;
  buf : ChunkBuffer2
}.
#[global] Instance eta_PacketBuffer : Eta PacketBuffer := λ x,
  MkPacketBuffer (input_mtu x) (buf x).

(** [Receiver_Recv] asks the input for a packet at [input_dest]; [Sender_Send]
    passes the packet at [output_dest] to the output. *)
Inductive pb_call := Receiver_Recv | Sender_Send (data : bytes).
Abbreviation op := (prog PacketBuffer pb_call).

Definition on_buf (f : ChunkBuffer2 → option ChunkBuffer2) (p : PacketBuffer) : option PacketBuffer :=
  b ← f (buf p); Some (p <| buf := b |>).

Definition send_output : op unit :=
  p ← get_st;
  match output_packet (buf p) with
  | Some data => emit (Sender_Send data)
  | None => ASSERT false
  end.

(** [data] is the packet the input wrote at [input_dest]; [in_len] is its
    length. *)
Definition input_handler_done (data : bytes) : op unit :=
  p ← get_st;
  ASSERT (len data <=? input_mtu p);;
  let was_empty := output_avail (buf p) <? 0 in
  update (on_buf (λ b, ChunkBuffer2_SubmitPacket (write_input b data) (len data)));;
  p ← get_st;
  when (input_mtu p <=? input_avail (buf p)) (emit Receiver_Recv);;
  when was_empty send_output.

Definition output_handler_done : op unit :=
  p ← get_st;
  let was_full := input_avail (buf p) <? input_mtu p in
  update (on_buf ChunkBuffer2_ConsumePacket);;
  p ← get_st;
  when (was_full && (input_mtu p <=? input_avail (buf p))) (emit Receiver_Recv);;
  when (0 <=? output_avail (buf p)) send_output.

(** [alloc] is the memory the allocator returns for a number of blocks. *)
Definition PacketBuffer_Init (in_mtu out_mtu num_packets : Z) (alloc : Z → option bytes)
    : option (option (PacketBuffer * list pb_call)) :=
  ASSERT_ (in_mtu <=? out_mtu);
  ASSERT_ (0 <? num_packets);
  let num_blocks := ChunkBuffer2_calc_blocks in_mtu num_packets in
  if num_blocks <? 0 then Some None else
  match alloc num_blocks with
  | None => Some None
  | Some mem =>
      match ChunkBuffer2_Init mem num_blocks in_mtu with
      | None => None
      | Some b => Some (Some (MkPacketBuffer in_mtu b, [Receiver_Recv]))
      end
  end.

End PacketBuffer.

(** * flow/BufferWriter.c *)
Module BufferWriter.

Record BufferWriter := MkBufferWriter {
  out_have : bool;
  d_mtu : Z;
  d_writing : bool
}.
#[global] Instance eta_BufferWriter : Eta BufferWriter := λ x,
  MkBufferWriter (out_have x) (d_mtu x) (d_writing x).

(** [Recv_Done l]: the packet, [l] bytes long, is handed to the receiver. *)
Inductive bw_call := Recv_Done (l : Z).
Abbreviation op := (prog BufferWriter bw_call).

Definition BufferWriter_Init (mtu : Z) : option BufferWriter :=
  ASSERT_ (0 <=? mtu);
  Some (MkBufferWriter false mtu false).

Definition output_handler_recv : op unit :=
  o ← get_st;
  ASSERT (negb (out_have o));;
  modify (λ o, o <| out_have := true |>).

Definition BufferWriter_StartPacket : op bool :=
  o ← get_st;
  ASSERT (negb (d_writing o));;
  if negb (out_have o) then mret false else
  modify (λ o, o <| d_writing := true |>);;
  mret true.

Definition BufferWriter_EndPacket (l : Z) : op unit :=
  o ← get_st;
  ASSERT (0 <=? l);;
  ASSERT (l <=? d_mtu o);;
  ASSERT (out_have o);;
  ASSERT (d_writing o);;
  modify (λ o, o <| out_have := false |>);;
  emit (Recv_Done l);;
  modify (λ o, o <| d_writing := false |>).

End BufferWriter.

(** * flow/PacketStreamSender.c *)
Module PacketStreamSender.

(** [in_len] is -1 without an input packet. *)
Record PacketStreamSender := MkPacketStreamSender {
  in_len : Z;
  in_data : bytes;
  in_used : Z
}.
#[global] Instance eta_PacketStreamSender : Eta PacketStreamSender := λ x,
  MkPacketStreamSender (in_len x) (in_data x) (in_used x).

Inductive pss_call := Stream_Send (data : bytes) | Input_Done.
Abbreviation op := (prog PacketStreamSender pss_call).

Definition PacketStreamSender_Init : PacketStreamSender := MkPacketStreamSender (-1) [] 0.

Definition send_data : op unit :=
  s ← get_st;
  ASSERT (0 <=? in_len s);;
  if in_used s <? in_len s then
    emit (Stream_Send (zslice (in_used s) (in_len s - in_used s) (in_data s)))
  else
    modify (λ s, s <| in_len := -1 |>);;
    emit Input_Done.

Definition input_handler_send (data : bytes) : op unit :=
  s ← get_st;
  ASSERT (in_len s =? -1);;
  modify (λ s, s <| in_len := len data |>);;
  modify (λ s, s <| in_data := data |>);;
  modify (λ s, s <| in_used := 0 |>);;
  send_data.

Definition output_handler_done (data_len : Z) : op unit :=
  s ← get_st;
  ASSERT (0 <=? in_len s);;
  ASSERT (0 <? data_len);;
  ASSERT (data_len <=? in_len s - in_used s);;
  modify (λ s, s <| in_used := in_used s + data_len |>);;
  send_data.

End PacketStreamSender.

(** * flow/PacketPassConnector.c *)
Module PacketPassConnector.

Record PacketPassConnector := MkPacketPassConnector {
  input_mtu : Z;
  in_len : Z;
  in_data : bytes;
  output : option Z     (* the MTU of the connected output *)
}.
#[global] Instance eta_PacketPassConnector : Eta PacketPassConnector := λ x,
  MkPacketPassConnector (input_mtu x) (in_len x) (in_data x) (output x).

Inductive ppc_call := Output_SenderInit | Output_Send (data : bytes) | Input_Done.
Abbreviation op := (prog PacketPassConnector ppc_call).

Definition PacketPassConnector_Init (mtu : Z) : option PacketPassConnector :=
  ASSERT_ (0 <=? mtu);
  Some (MkPacketPassConnector mtu (-1) [] None).

Definition input_handler_send (data : bytes) : op unit :=
  o ← get_st;
  ASSERT (len data <=? input_mtu o);;
  ASSERT (in_len o =? -1);;
  modify (λ o, o <| in_len := len data |>);;
  modify (λ o, o <| in_data := data |>);;
  when (bool_decide (is_Some (output o))) (emit (Output_Send data)).

Definition output_handler_done : op unit :=
  o ← get_st;
  ASSERT (0 <=? in_len o);;
  ASSERT (bool_decide (is_Some (output o)));;
  modify (λ o, o <| in_len := -1 |>);;
  emit Input_Done.

Definition PacketPassConnector_ConnectOutput (output_mtu : Z) : op unit :=
  o ← get_st;
  ASSERT (bool_decide (output o = None));;
  ASSERT (input_mtu o <=? output_mtu);;
  modify (λ o, o <| output := Some output_mtu |>);;
  emit Output_SenderInit;;
  when (0 <=? in_len o) (emit (Output_Send (in_data o))).

Definition PacketPassConnector_DisconnectOutput : op unit :=
  o ← get_st;
  ASSERT (bool_decide (is_Some (output o)));;
  modify (λ o, o <| output := None |>).

End PacketPassConnector.

(** * flow/SinglePacketBuffer.c *)
Module SinglePacketBuffer.

(** The state is the packet memory. *)
Inductive spb_call := Receiver_Recv | Sender_Send (data : bytes).
Abbreviation op := (prog bytes spb_call).

(** [data] is what the input wrote to the memory. *)
Definition input_handler_done (data : bytes) : op unit :=
  modify (zwrite 0 data);;
  mem ← get_st;
  emit (Sender_Send (ztake (len data) mem)).

Definition output_handler_done : op unit := emit Receiver_Recv.

Definition SinglePacketBuffer_Init (in_mtu out_mtu : Z) (alloc : Z → option bytes)
    : option (option (bytes * list spb_call)) :=
  ASSERT_ (in_mtu <=? out_mtu);
  match alloc in_mtu with
  | None => Some None
  | Some mem => Some (Some (mem, [Receiver_Recv]))
  end.

End SinglePacketBuffer.

(** * flowextra/PacketPassInactivityMonitor.c *)
Module PacketPassInactivityMonitor.

(** [timer]: whether the timer runs. *)
Record PacketPassInactivityMonitor := MkPacketPassInactivityMonitor {
  handler : bool;
  timer : bool;
  output_cancel : bool
}.
#[global] Instance eta_PacketPassInactivityMonitor : Eta PacketPassInactivityMonitor := λ x,
  MkPacketPassInactivityMonitor (handler x) (timer x) (output_cancel x).

Inductive ppim_call :=
  | Output_Send (data : bytes) | Output_RequestCancel | Input_Done
  | SetTimer (after : option Z) | RemoveTimer | CallHandler.
Abbreviation op := (prog PacketPassInactivityMonitor ppim_call).

Definition BReactor_SetTimer : op unit :=
  modify (λ o, o <| timer := true |>);; emit (SetTimer None).
Definition BReactor_RemoveTimer : op unit :=
  modify (λ o, o <| timer := false |>);; emit RemoveTimer.

Definition input_handler_send (data : bytes) : op unit :=
  emit (Output_Send data);;
  BReactor_RemoveTimer.

Definition input_handler_requestcancel : op unit := emit Output_RequestCancel.

Definition output_handler_done : op unit :=
  BReactor_SetTimer;;
  emit Input_Done.

(** The reactor stops a timer before it calls the handler. *)
Definition timer_handler : op unit :=
  modify (λ o, o <| timer := false |>);;
  BReactor_SetTimer;;
  o ← get_st;
  when (handler o) (emit CallHandler).

Definition PacketPassInactivityMonitor_Init (has_cancel has_handler : bool)
    : PacketPassInactivityMonitor * list ppim_call :=
  (MkPacketPassInactivityMonitor has_handler true has_cancel, [SetTimer None]).

Definition PacketPassInactivityMonitor_SetHandler (has_handler : bool) : op unit :=
  modify (λ o, o <| handler := has_handler |>).

Definition PacketPassInactivityMonitor_Force : op unit :=
  modify (λ o, o <| timer := true |>);; emit (SetTimer (Some 0)).

End PacketPassInactivityMonitor.

(** * The packet buffer as a queue *)
Module PacketBufferFacts.
Import ChunkBuffer2Code ChunkBuffer2Facts PacketBuffer.

Section with_params.
Context (in_mtu num : Z) (Hmtu : 0 ≤ in_mtu) (Hnum : 0 < num).

(** The buffer holds [q], packets within the MTU, and was sized for [num] of
    them. *)
Record pb_inv (p : PacketBuffer) (q : list bytes) : Prop := {
  pb_mtu : input_mtu p = in_mtu;
  pb_holds : holds (buf p) q;
  pb_short : Forall (λ d, len d ≤ in_mtu) q;
  pb_size : size (buf p) = (1 + mtu (buf p)) * (num + 1);
  pb_cmtu : mtu (buf p) = bdivide_up in_mtu sizeof_block
}.

Lemma pb_room p q : pb_inv p q → len q < num →
  is_Some (input_dest (buf p)) ∧ in_mtu ≤ input_avail (buf p).
Proof.
  intros [Hm Hh Hs Hsz Hc] Hq. pose proof (bdivide_up_spec in_mtu sizeof_block Hmtu ltac:(done)) as Hd.
  destruct (capacity (buf p) q num Hh Hsz) as [Hd1 Hd2]; [|done|].
  - eapply Forall_impl; [exact Hs|]. cbn. intros d Hl. pose proof (blocks_spec d).
    unfold sizeof_block in *. lia.
  - split; [done|]. unfold sizeof_block in *. lia.
Qed.

Lemma avail_dest p q : pb_inv p q → in_mtu ≤ input_avail (buf p) → is_Some (input_dest (buf p)).
Proof.
  intros [_ (_ & Hi & _) _ _ _] Ha. unfold in_ok in Hi. cbv zeta in Hi.
  case_match; destruct Hi as [-> Hi]; [done|lia].
Qed.

Lemma output_of p d q : pb_inv p (d :: q) → output_packet (buf p) = Some d ∧ 0 ≤ output_avail (buf p).
Proof.
  intros [_ Hh _ _ _]. split; [apply (consume_holds _ _ _ Hh)|].
  destruct Hh as (_ & _ & _ & ->). apply len_nonneg.
Qed.
Lemma output_empty p : pb_inv p [] → output_avail (buf p) = -1.
Proof. by intros [_ (_ & _ & _ & H) _ _ _]. Qed.

Lemma send_output_ok p d q (Q : unit → PacketBuffer → list pb_call → Prop) : pb_inv p (d :: q) →
  Q tt p [Sender_Send d] → wp send_output p Q.
Proof. intros Hp HQ. unfold send_output. wp_run. by rewrite (proj1 (output_of _ _ _ Hp)). Qed.

(** A packet from the input is queued; the input is asked for more when there
    is room, the output is given the packet when it was idle. *)
Lemma pb_input_ok p q data : pb_inv p q → in_mtu ≤ input_avail (buf p) → len data ≤ in_mtu →
  wp (input_handler_done data) p (λ _ p' es, pb_inv p' (q ++ [data]) ∧
    es = (if in_mtu <=? input_avail (buf p') then [Receiver_Recv] else [])
         ++ (if bool_decide (q = []) then [Sender_Send data] else [])).
Proof.
  intros Hp Ha Hl. pose proof Hp as [Hm Hh Hs Hsz Hc].
  destruct (submit_holds (buf p) q data Hh (avail_dest _ _ Hp Ha)) as (b' & E & Hh' & E1 & E2); [lia|].
  assert (pb_inv (p <| buf := b' |>) (q ++ [data])) as Hp'.
  { constructor; cbn; try done; [|by rewrite E1, E2|by rewrite E2].
    apply Forall_app. by repeat constructor. }
  unfold input_handler_done. wp_step. wp_step. wp_step. apply wp_assert.
  { rewrite Hm. by apply Z.leb_le. }
  wp_step. eapply wp_update; [unfold on_buf; by rewrite E|]. wp_run.
  assert ((output_avail (buf p) <? 0) = bool_decide (q = [])) as ->.
  { destruct q as [|d q]; [by rewrite (output_empty _ Hp)|].
    rewrite bool_decide_eq_false_2 by done. apply Z.ltb_ge, (output_of _ _ _ Hp). }
  assert (∀ pre, wp (when (bool_decide (q = [])) send_output) (p <| buf := b' |>)
    (λ _ p' es, pb_inv p' (q ++ [data]) ∧ pre ++ es = pre ++
      (if bool_decide (q = []) then [Sender_Send data] else []) ∧ p' = p <| buf := b' |>)) as Hsend.
  { intros pre. case_bool_decide; [|by apply wp_ret]. subst q. by eapply send_output_ok. }
  change (input_mtu (p <| buf := b' |>)) with (input_mtu p). rewrite Hm.
  apply wp_when; intros Hw; wp_run; (eapply wp_mono; [apply (Hsend [])|]);
    intros [] p' es (? & E3 & ->); cbn [app] in *; cbn [buf upd] in *; rewrite Hw; by subst es.
Qed.

(** When the output is done with the oldest packet it is removed; the input is
    asked for a packet if that made room, the output is given the next one. *)
Lemma pb_output_ok p d q : pb_inv p (d :: q) →
  wp output_handler_done p (λ _ p' es, pb_inv p' q ∧ input_avail (buf p) ≤ input_avail (buf p') ∧
    es = (if (input_avail (buf p) <? in_mtu) && (in_mtu <=? input_avail (buf p'))
          then [Receiver_Recv] else [])
         ++ match q with [] => [] | d' :: _ => [Sender_Send d'] end).
Proof.
  intros Hp. pose proof Hp as [Hm Hh Hs Hsz Hc].
  destruct (consume_holds _ _ _ Hh) as (_ & b' & E & Hh' & E1 & E2 & E3).
  assert (pb_inv (p <| buf := b' |>) q) as Hp'.
  { constructor; cbn; try done; [|by rewrite E1, E2|by rewrite E2]. by apply Forall_cons in Hs as [_ ?]. }
  unfold output_handler_done. wp_step. wp_step. wp_step.
  eapply wp_update; [unfold on_buf; by rewrite E|]. wp_run.
  assert (wp (when (0 <=? output_avail b') send_output) (p <| buf := b' |>)
    (λ _ p' es, es = match q with [] => [] | d' :: _ => [Sender_Send d'] end ∧
       p' = p <| buf := b' |>)) as Hsend.
  { destruct q as [|d' q].
    - pose proof (output_empty _ Hp') as Ho. cbn in Ho. rewrite Ho. by apply wp_ret.
    - destruct (output_of _ _ _ Hp') as [_ Ho]. cbn in Ho. rewrite (proj2 (Z.leb_le _ _) Ho).
      by eapply send_output_ok. }
  change (input_mtu (p <| buf := b' |>)) with (input_mtu p). rewrite Hm. cbn [buf upd].
  apply wp_when; intros Hw; wp_run; (eapply wp_mono; [apply Hsend|]);
    intros [] p' es (-> & ->); cbn [app buf upd] in *; by rewrite Hw.
Qed.

(** ** Executions *)

Definition recvs (es : list pb_call) : nat :=
  length (omap (λ e, match e with Receiver_Recv => Some tt | _ => None end) es).
Definition sends (es : list pb_call) : list bytes :=
  omap (λ e, match e with Sender_Send d => Some d | _ => None end) es.

(** [r] and [s] count the receives and sends in progress, [rcv] and [snt] list
    the packets received from the input and passed to the output. *)
Inductive pb_exec : PacketBuffer → nat → nat → list bytes → list bytes → Prop :=
  | pbe_init p : pb_inv p [] → pb_exec p 1 0 [] []
  | pbe_input p r s rcv snt data p' es :
      pb_exec p (S r) s rcv snt → len data ≤ in_mtu →
      input_handler_done data p = Some (tt, p', es) →
      pb_exec p' (r + recvs es) (s + length (sends es)) (rcv ++ [data]) (snt ++ sends es)
  | pbe_output p r s rcv snt p' es :
      pb_exec p r (S s) rcv snt → output_handler_done p = Some (tt, p', es) →
      pb_exec p' (r + recvs es) (s + length (sends es)) rcv (snt ++ sends es).

Definition recv_open (p : PacketBuffer) : nat := if in_mtu <=? input_avail (buf p) then 1 else 0.

Lemma pb_exec_ok p r s rcv snt : pb_exec p r s rcv snt →
  ∃ gone q, pb_inv p q ∧ rcv = gone ++ q ∧ snt = gone ++ take 1 q ∧
    r = recv_open p ∧ s = length (take 1 q).
Proof.
  induction 1 as [p Hp|p r s rcv snt data p' es Hx IH Hl Hr|p r s rcv snt p' es Hx IH Hr].
  - exists [], []. split_and!; try done. destruct (pb_room p [] Hp) as [_ Ha]; [done|].
    unfold recv_open. by rewrite (proj2 (Z.leb_le _ _) Ha).
  - destruct IH as (gone & q & Hp & -> & -> & Er & ->). unfold recv_open in Er.
    destruct (Z.leb_spec in_mtu (input_avail (buf p))) as [Ha|]; [|done]. injection Er as ->.
    pose proof (pb_input_ok p q data Hp Ha Hl) as Hw. unfold wp in Hw. rewrite Hr in Hw.
    destruct Hw as [Hp' ->]. exists gone, (q ++ [data]). unfold recv_open, recvs, sends.
    rewrite omap_app, omap_app.
    destruct q as [|d q]; (split_and!; [done|by rewrite app_assoc|..]);
      destruct (in_mtu <=? input_avail (buf p')); cbn; by rewrite ?app_nil_r.
  - destruct IH as (gone & [|d q] & Hp & -> & -> & -> & Es); [done|]. injection Es as ->.
    pose proof (pb_output_ok p d q Hp) as Hw. unfold wp in Hw. rewrite Hr in Hw.
    destruct Hw as (Hp' & Hmono & ->). exists (gone ++ [d]), q. unfold recv_open, recvs, sends.
    rewrite omap_app, omap_app.
    destruct (Z.leb_spec in_mtu (input_avail (buf p'))), (Z.ltb_spec (input_avail (buf p)) in_mtu),
      (Z.leb_spec in_mtu (input_avail (buf p))); try lia; destruct q as [|d' q]; cbn [andb app omap list_omap length take];
      split_and!; try done; by rewrite <- ?app_assoc.
Qed.
End with_params.

(** [PacketBuffer] is a first-in first-out queue between its input and its
    output: in every execution the packets received are those passed to the
    output, in order, followed by those still in the buffer, the first of
    which is the one being sent; at most one receive and one send are ever in
    progress, a send whenever the buffer is not empty, and a receive whenever
    it holds fewer than [num] packets; and no handler fails. *)
Theorem packetbuffer_fifo (in_mtu num : Z) (p : PacketBuffer) (r s : nat) (rcv snt : list bytes)
    (Hmtu : 0 ≤ in_mtu) (Hnum : 0 < num) (Hexec : pb_exec in_mtu num p r s rcv snt) :
  (∃ gone q, rcv = gone ++ q ∧ snt = gone ++ take 1 q ∧ (r ≤ 1)%nat ∧ s = length (take 1 q) ∧
    (len q < num → r = 1%nat)) ∧
  (r = 1%nat → ∀ data, len data ≤ in_mtu → is_Some (input_handler_done data p)) ∧
  (s = 1%nat → is_Some (output_handler_done p)).
Proof.
  destruct (pb_exec_ok in_mtu num Hmtu Hnum p r s rcv snt Hexec) as (gone & q & Hp & -> & -> & -> & ->).
  unfold recv_open. split_and!.
  - exists gone, q. split_and!; try done; [case_match; lia|].
    intros Hq. destruct (pb_room in_mtu num Hmtu p q Hp Hq) as [_ Ha].
    by rewrite (proj2 (Z.leb_le _ _) Ha).
  - intros Hr data Hl. destruct (Z.leb_spec in_mtu (input_avail (buf p))) as [Ha|]; [|done].
    pose proof (pb_input_ok in_mtu num Hmtu p q data Hp Ha Hl) as Hw.
    apply wp_some in Hw as (? & ? & ? & -> & _). by eexists.
  - intros Hs. destruct q as [|d q]; [done|].
    pose proof (pb_output_ok in_mtu num p d q Hp) as Hw.
    apply wp_some in Hw as (? & ? & ? & -> & _). by eexists.
Qed.

(** Initialisation establishes the invariant when the memory is allocated. *)
Lemma packetbuffer_init_ok in_mtu out_mtu num alloc p es : 0 ≤ in_mtu →
  (∀ n mem, alloc n = Some mem → len mem = 4 * n ∧ 4 * n ≤ INT_MAX) →
  PacketBuffer_Init in_mtu out_mtu num alloc = Some (Some (p, es)) →
  pb_inv in_mtu num p [] ∧ es = [Receiver_Recv].
Proof.
  intros Hm Halloc. unfold PacketBuffer_Init. repeat (case_match; [|done]). bool_to_prop.
  case_match; [done|]. bool_to_prop.
  destruct (alloc (ChunkBuffer2_calc_blocks in_mtu num)) as [mem|] eqn:Ea; [|done].
  destruct (Halloc _ _ Ea) as [Hl Hs].
  destruct (calc_blocks_spec in_mtu num) as [E _]; [lia|lia|lia|].
  pose proof (bdivide_up_nonneg in_mtu sizeof_block Hm ltac:(done)).
  destruct (init_holds mem (ChunkBuffer2_calc_blocks in_mtu num) in_mtu) as (b & Eb & Hb & E1 & E2);
    [done|nia|done|done|nia|].
  rewrite Eb. intros [= <- <-]. split; [|done].
  constructor; cbn; [done|done|by apply Forall_nil_2|rewrite E1, E2; done|done].
Qed.

Definition sample_alloc (n : Z) : option bytes :=
  if n =? 12 then Some (replicate 48 0) else None.

Lemma packetbuffer_fifo_witness :
  ∃ p, PacketBuffer_Init 8 8 3 sample_alloc = Some (Some (p, [Receiver_Recv])) ∧
    is_Some (input_handler_done [1; 2; 3] p).
Proof.
  destruct (PacketBuffer_Init 8 8 3 sample_alloc) as [[[p es]|]|] eqn:E;
    [|vm_compute in E; discriminate E..].
  destruct (packetbuffer_init_ok 8 8 3 sample_alloc p es) as [Hp ->]; [lia| |exact E|].
  - intros n mem. unfold sample_alloc. destruct (Z.eqb_spec n 12) as [->|]; [|discriminate].
    intros [= <-]. split; [reflexivity|unfold INT_MAX; lia].
  - exists p. split; [reflexivity|].
    apply (proj1 (proj2 (packetbuffer_fifo 8 3 p 1 0 [] [] ltac:(lia) ltac:(lia) (pbe_init 8 3 p Hp))));
      [reflexivity|vm_compute; discriminate].
Defined.
End PacketBufferFacts.

(** * flow/PacketProtoFlow.c

    A buffer writer, the encoder and a packet buffer in a row. The interfaces
    between the three parts carry one call at a time, so a call of one part is
    run in the next one directly. *)
Module PacketProtoFlow.
Import ChunkBuffer2Code PacketProtoEncoder BufferWriter.

Record PacketProtoFlow := MkPacketProtoFlow {
  ainput : BufferWriter;
  encoder : PacketProtoEncoder;
  buffer : PacketBuffer.PacketBuffer
}.
#[global] Instance eta_PacketProtoFlow : Eta PacketProtoFlow := λ x,
  MkPacketProtoFlow (ainput x) (encoder x) (buffer x).

(** [PacketBuffer] asks for a packet: the encoder takes the memory at
    [input_dest] and asks the writer. *)
Definition flow_recv (o : PacketProtoFlow) : option PacketProtoFlow :=
  let b := PacketBuffer.buf (buffer o) in
  d ← input_dest b;
  '(_, e, _) ← PacketProtoEncoder.output_handler_recv
                 (zslice d (PacketBuffer.input_mtu (buffer o)) (ChunkBuffer2Code.buffer b)) (encoder o);
  '(_, w, _) ← BufferWriter.output_handler_recv (ainput o);
  Some (o <| encoder := e |> <| ainput := w |>).

(** Runs the calls of the buffer; what is sent to the output is collected. *)
Fixpoint flow_calls (es : list PacketBuffer.pb_call) (o : PacketProtoFlow)
    : option (PacketProtoFlow * list bytes) :=
  match es with
  | [] => Some (o, [])
  | PacketBuffer.Receiver_Recv :: es => o ← flow_recv o; flow_calls es o
  | PacketBuffer.Sender_Send d :: es => '(o, ds) ← flow_calls es o; Some (o, d :: ds)
  end.

(** [output_mtu] is the MTU of the output; the inner [None] is failure to
    allocate. *)
Definition PacketProtoFlow_Init (input_mtu num_packets output_mtu : Z) (alloc : Z → option bytes)
    : option (option PacketProtoFlow) :=
  ASSERT_ (0 <=? input_mtu);
  ASSERT_ (input_mtu <=? PACKETPROTO_MAXPAYLOAD);
  ASSERT_ (0 <? num_packets);
  ASSERT_ (PACKETPROTO_ENCLEN input_mtu <=? output_mtu);
  w ← BufferWriter_Init input_mtu;
  e ← PacketProtoEncoder_Init input_mtu;
  r ← PacketBuffer.PacketBuffer_Init (PacketProtoEncoder.output_mtu e) output_mtu num_packets alloc;
  match r with
  | None => Some None
  | Some (b, es) => '(o, _) ← flow_calls es (MkPacketProtoFlow w e b); Some (Some o)
  end.

(** A user writes the packet [p]: whether it was accepted, and what was sent. *)
Definition flow_write (p : bytes) (o : PacketProtoFlow) : option (bool * PacketProtoFlow * list bytes) :=
  '(ok, w, _) ← BufferWriter_StartPacket (ainput o);
  if negb ok then Some (false, o <| ainput := w |>, []) else
  '(_, w, es) ← BufferWriter_EndPacket (len p) w;
  match es with
  | [Recv_Done n] =>
      '(_, e, es) ← PacketProtoEncoder.input_handler_done (ztake n p) (encoder o);
      match es with
      | [EncDone mem l] =>
          '(_, b, es) ← PacketBuffer.input_handler_done (ztake l mem) (buffer o);
          '(o, ds) ← flow_calls es (MkPacketProtoFlow w e b);
          Some (true, o, ds)
      | _ => None
      end
  | _ => None
  end.

(** The output is done with the packet it was sent. *)
Definition flow_output_done (o : PacketProtoFlow) : option (PacketProtoFlow * list bytes) :=
  '(_, b, es) ← PacketBuffer.output_handler_done (buffer o);
  flow_calls es (o <| buffer := b |>).

End PacketProtoFlow.

Module PacketProtoFlowFacts.
Import ChunkBuffer2Code ChunkBuffer2Facts PacketProtoEncoder BufferWriter PacketBufferFacts PacketProtoFlow.

Section with_params.
Context (in_mtu num : Z) (Hmtu : 0 ≤ in_mtu ≤ 65535) (Hnum : 0 < num).

(** The parts agree on whether a packet may be written, and the buffer holds
    the encoded packets [q]. *)
Record flow_inv (o : PacketProtoFlow) (q : list bytes) : Prop := {
  fi_pb : pb_inv (PACKETPROTO_ENCLEN in_mtu) num (buffer o) q;
  fi_writer : ainput o = MkBufferWriter
    (PACKETPROTO_ENCLEN in_mtu <=? input_avail (PacketBuffer.buf (buffer o))) in_mtu false;
  fi_encoder : ∃ m, encoder o = MkPacketProtoEncoder in_mtu (PACKETPROTO_ENCLEN in_mtu) m ∧
    if PACKETPROTO_ENCLEN in_mtu <=? input_avail (PacketBuffer.buf (buffer o))
    then ∃ mem, m = Some mem ∧ len mem = PACKETPROTO_ENCLEN in_mtu else m = None
}.

Lemma flow_recv_ok b q : pb_inv (PACKETPROTO_ENCLEN in_mtu) num b q →
  PACKETPROTO_ENCLEN in_mtu ≤ input_avail (PacketBuffer.buf b) →
  ∃ o, flow_recv (MkPacketProtoFlow (MkBufferWriter false in_mtu false)
    (MkPacketProtoEncoder in_mtu (PACKETPROTO_ENCLEN in_mtu) None) b) = Some o ∧
    flow_inv o q ∧ buffer o = b.
Proof.
  intros Hb Ha. assert (0 ≤ PACKETPROTO_ENCLEN in_mtu) as He
    by (unfold PACKETPROTO_ENCLEN, sizeof_packetproto_header; lia).
  destruct (avail_dest (PACKETPROTO_ENCLEN in_mtu) num He b q Hb Ha) as [d Hd].
  destruct (input_area _ _ _ (pb_holds _ _ _ _ Hb) Hd) as [Hd1 Hd2].
  unfold flow_recv. cbn [buffer encoder ainput]. rewrite Hd. cbn. eexists. split; [done|].
  split; [|done]. constructor; cbn; [done|by rewrite (proj2 (Z.leb_le _ _) Ha)|].
  rewrite (proj2 (Z.leb_le _ _) Ha). eexists. split; [done|]. eexists. split; [done|].
  rewrite (pb_mtu _ _ _ _ Hb). apply len_zslice; lia.
Qed.

(** Running the calls of the buffer restores the invariant: it asks for a
    packet exactly when nobody holds its memory and there is room. *)
Lemma flow_calls_ok o b q (asks : bool) (ds : list bytes) :
  pb_inv (PACKETPROTO_ENCLEN in_mtu) num b q →
  (if asks then PACKETPROTO_ENCLEN in_mtu ≤ input_avail (PacketBuffer.buf b) ∧
     o = MkPacketProtoFlow (MkBufferWriter false in_mtu false)
       (MkPacketProtoEncoder in_mtu (PACKETPROTO_ENCLEN in_mtu) None) b
   else flow_inv o q) →
  ∃ o', flow_calls ((if asks then [PacketBuffer.Receiver_Recv] else [])
                    ++ (PacketBuffer.Sender_Send <$> ds)) o = Some (o', ds) ∧ flow_inv o' q.
Proof.
  intros Hb Ho.
  assert (∀ o, flow_calls (PacketBuffer.Sender_Send <$> ds) o = Some (o, ds)) as Hs.
  { clear Ho. induction ds as [|d ds IH]; intros o'; [done|]. cbn. by rewrite IH. }
  destruct asks; cbn [app].
  - destruct Ho as [Ha ->]. destruct (flow_recv_ok b q Hb Ha) as (o' & Hr & Hi & _).
    cbn [flow_calls]. rewrite Hr. cbn. rewrite Hs. eauto.
  - rewrite Hs. eauto.
Qed.

Lemma flow_write_ok o q p : flow_inv o q → len p ≤ in_mtu →
  if PACKETPROTO_ENCLEN in_mtu <=? input_avail (PacketBuffer.buf (buffer o)) then
    ∃ o', flow_write p o = Some (true, o', if bool_decide (q = []) then [encode1 p] else []) ∧
      flow_inv o' (q ++ [encode1 p])
  else flow_write p o = Some (false, o, []).
Proof.
  intros [Hb Hw (m & He & Hm)] Hp. pose proof (len_nonneg p) as Hp0.
  assert (0 ≤ PACKETPROTO_ENCLEN in_mtu) as He0
    by (unfold PACKETPROTO_ENCLEN, sizeof_packetproto_header; lia).
  unfold flow_write. rewrite Hw, He. destruct o as [w e b]; cbn [ainput encoder buffer] in *. subst w e.
  destruct (Z.leb_spec (PACKETPROTO_ENCLEN in_mtu) (input_avail (PacketBuffer.buf b))) as [Ha|Ha];
    [|done].
  destruct Hm as (mem & -> & Hlm).
  assert (BufferWriter_EndPacket (len p) (MkBufferWriter true in_mtu true)
    = Some (tt, MkBufferWriter false in_mtu false, [Recv_Done (len p)])) as E1.
  { unfold BufferWriter_EndPacket, mbind, prog_bind, get_st, ASSERT, modify, emit. cbn -[Z.leb len].
    by rewrite (proj2 (Z.leb_le _ _) Hp0), (proj2 (Z.leb_le _ _) Hp). }
  assert (BufferWriter_StartPacket (MkBufferWriter true in_mtu false)
    = Some (true, MkBufferWriter true in_mtu true, [])) as -> by done.
  cbn [mbind option_bind negb]. rewrite E1. cbn [mbind option_bind].
  rewrite ztake_all by done.
  destruct (encoder_done_ok (MkPacketProtoEncoder in_mtu (PACKETPROTO_ENCLEN in_mtu) (Some mem)) mem p)
    as (mem' & -> & Hl' & Ht); [done|unfold PACKETPROTO_MAXPAYLOAD, UINT16_MAX; lia| |].
  { unfold PACKETPROTO_ENCLEN in *. lia. }
  cbn [mbind option_bind]. rewrite Ht.
  pose proof (pb_input_ok (PACKETPROTO_ENCLEN in_mtu) num He0 b q (encode1 p) Hb Ha) as Hpb.
  rewrite encode1_len in Hpb. unfold PACKETPROTO_ENCLEN in Hpb. specialize (Hpb ltac:(lia)).
  fold (PACKETPROTO_ENCLEN in_mtu) in Hpb.
  apply wp_some in Hpb as ([] & b' & es & -> & Hb' & ->).
  cbn [mbind option_bind upd output_packet PacketProtoEncoder.input_mtu output_mtu].
  set (asks := PACKETPROTO_ENCLEN in_mtu <=? input_avail (PacketBuffer.buf b')).
  set (ds := if bool_decide (q = []) then [encode1 p] else []).
  assert ((if bool_decide (q = []) then [PacketBuffer.Sender_Send (encode1 p)] else [])
    = PacketBuffer.Sender_Send <$> ds) as -> by (unfold ds; by case_bool_decide).
  destruct (flow_calls_ok (MkPacketProtoFlow (MkBufferWriter false in_mtu false)
    (MkPacketProtoEncoder in_mtu (PACKETPROTO_ENCLEN in_mtu) None) b') b' (q ++ [encode1 p]) asks ds)
    as (o' & -> & Ho'); [done| |by eexists].
  unfold asks. destruct (Z.leb_spec (PACKETPROTO_ENCLEN in_mtu) (input_avail (PacketBuffer.buf b')));
    [done|]. constructor; cbn; [done|by rewrite (proj2 (Z.leb_gt _ _))|].
  eexists. split; [done|]. by rewrite (proj2 (Z.leb_gt _ _)).
Qed.

Lemma flow_output_ok o d q : flow_inv o (d :: q) →
  ∃ o', flow_output_done o = Some (o', take 1 q) ∧ flow_inv o' q.
Proof.
  intros [Hb Hw (m & He & Hm)]. unfold flow_output_done.
  destruct o as [w e b]; cbn [ainput encoder buffer] in *. subst w e.
  pose proof (pb_output_ok (PACKETPROTO_ENCLEN in_mtu) num b d q Hb) as Hpb.
  apply wp_some in Hpb as ([] & b' & es & -> & Hb' & Hmono & ->).
  cbn -[flow_calls]. set (m1 := PACKETPROTO_ENCLEN in_mtu) in *.
  assert (match q with [] => [] | d' :: _ => [PacketBuffer.Sender_Send d'] end
    = PacketBuffer.Sender_Send <$> take 1 q) as -> by by destruct q.
  apply (flow_calls_ok _ b'); [done|].
  destruct (Z.leb_spec m1 (input_avail (PacketBuffer.buf b))),
    (Z.ltb_spec (input_avail (PacketBuffer.buf b)) m1),
    (Z.leb_spec m1 (input_avail (PacketBuffer.buf b'))); try lia; cbn [andb].
  - constructor; cbn; fold m1; [done|by rewrite (proj2 (Z.leb_le _ _))|].
    eexists. split; [done|]. by rewrite (proj2 (Z.leb_le _ _)).
  - by subst m.
  - constructor; cbn; fold m1; [done|by rewrite (proj2 (Z.leb_gt _ _))|].
    eexists. split; [done|]. by rewrite (proj2 (Z.leb_gt _ _)).
Qed.

Lemma flow_init_ok out_mtu alloc o :
  (∀ n mem, alloc n = Some mem → len mem = 4 * n ∧ 4 * n ≤ INT_MAX) →
  PacketProtoFlow_Init in_mtu num out_mtu alloc = Some (Some o) → flow_inv o [].
Proof.
  intros Halloc. unfold PacketProtoFlow_Init, BufferWriter_Init, PacketProtoEncoder_Init.
  repeat (case_match; [|done]). cbn -[flow_calls].
  destruct (PacketBuffer.PacketBuffer_Init _ _ _ _) as [[[b es]|]|] eqn:E; [|done..].
  assert (0 ≤ PACKETPROTO_ENCLEN in_mtu) as He0
    by (unfold PACKETPROTO_ENCLEN, sizeof_packetproto_header; lia).
  destruct (packetbuffer_init_ok _ _ _ _ _ _ He0 Halloc E) as [Hb ->].
  destruct (pb_room _ num He0 b [] Hb) as [_ Ha]; [done|].
  destruct (flow_recv_ok b [] Hb Ha) as (o' & Hr & Hi & _).
  cbn [flow_calls mbind option_bind]. rewrite Hr. cbn. by intros [= <-].
Qed.
End with_params.

(** [PacketProtoFlow] is a queue of encoded packets. Whenever it holds the
    encodings [q], a packet within the MTU is either accepted, and its
    encoding appended to [q], or refused without any effect, the latter only
    when [num] or more packets are queued; the output is sent the oldest
    encoding, one at a time, in order; and writer, encoder and buffer never
    disagree about who holds the memory (no assertion of theirs fails). *)
Theorem packetprotoflow_queue (in_mtu num : Z) (o : PacketProtoFlow) (q : list bytes)
    (Hmtu : 0 ≤ in_mtu ≤ 65535) (Ho : flow_inv in_mtu num o q) :
  (∀ p, len p ≤ in_mtu →
    (∃ o', flow_write p o = Some (true, o', if bool_decide (q = []) then [encode1 p] else []) ∧
       flow_inv in_mtu num o' (q ++ [encode1 p])) ∨
    (flow_write p o = Some (false, o, []) ∧ num ≤ len q)) ∧
  (∀ d q', q = d :: q' →
    ∃ o', flow_output_done o = Some (o', take 1 q') ∧ flow_inv in_mtu num o' q').
Proof.
  split.
  - intros p Hp. pose proof (flow_write_ok in_mtu num Hmtu o q p Ho Hp) as Hw.
    destruct (Z.leb_spec (PACKETPROTO_ENCLEN in_mtu) (input_avail (PacketBuffer.buf (buffer o))));
      [by left|right; split; [done|]].
    destruct (Z.le_gt_cases num (len q)) as [|Hlt]; [done|exfalso].
    assert (0 ≤ PACKETPROTO_ENCLEN in_mtu) as He0
      by (unfold PACKETPROTO_ENCLEN, sizeof_packetproto_header; lia).
    destruct (pb_room _ num He0 _ _ (fi_pb _ _ _ _ Ho) Hlt). lia.
  - intros d q' ->. by apply (flow_output_ok in_mtu num Hmtu o d).
Qed.

Definition sample_alloc6 (n : Z) : option bytes :=
  if n =? 6 then Some (replicate 24 0) else None.

Lemma packetprotoflow_queue_witness :
  ∃ o, PacketProtoFlow_Init 6 1 8 sample_alloc6 = Some (Some o) ∧
    ((∃ o', flow_write [1; 2; 3] o = Some (true, o', [encode1 [1; 2; 3]]) ∧
       flow_inv 6 1 o' [encode1 [1; 2; 3]]) ∨
     flow_write [1; 2; 3] o = Some (false, o, []) ∧ 1 ≤ len (@nil bytes)).
Proof.
  destruct (PacketProtoFlow_Init 6 1 8 sample_alloc6) as [[o|]|] eqn:E;
    [|vm_compute in E; discriminate E..].
  exists o. split; [reflexivity|].
  apply (proj1 (packetprotoflow_queue 6 1 o [] ltac:(lia)
    (flow_init_ok 6 1 ltac:(lia) ltac:(lia) 8 sample_alloc6 o ltac:(
      intros n mem; unfold sample_alloc6; destruct (Z.eqb_spec n 6) as [->|]; [|discriminate];
      intros [= <-]; split; [reflexivity|unfold INT_MAX; lia]) E)) [1; 2; 3]).
  vm_compute. discriminate.
Defined.
End PacketProtoFlowFacts.

(** * Packets onto a stream *)
Module PacketStreamSenderFacts.
Import PacketStreamSender.

(** A run for one packet: the stream output takes any part of what it is
    offered, between one byte and all of it, until the input is told the
    packet is done; the result is what went onto the stream. *)
Fixpoint drain (fuel : nat) (choose : nat → Z) (s : PacketStreamSender) (es : list pss_call)
    : option (bytes * PacketStreamSender) :=
  match fuel, es with
  | S fuel, [Stream_Send data] =>
      let k := Z.max 1 (Z.min (choose fuel) (len data)) in
      '(_, s, es) ← output_handler_done k s;
      '(out, s) ← drain fuel choose s es;
      Some (ztake k data ++ out, s)
  | _, [Input_Done] => Some ([], s)
  | _, _ => None
  end.

Definition send_packet (choose : nat → Z) (p : bytes) (s : PacketStreamSender)
    : option (bytes * PacketStreamSender) :=
  '(_, s, es) ← input_handler_send p s;
  drain (length p) choose s es.

(** [data] is still to be sent of the packet [p]. *)
Definition sending (s : PacketStreamSender) (p data : bytes) : Prop :=
  in_len s = len p ∧ in_data s = p ∧ 0 ≤ in_used s ≤ len p ∧ data = zdrop (in_used s) p.

Lemma send_data_ok s p data : sending s p data →
  wp send_data s (λ _ s' es,
    if bool_decide (data = []) then es = [Input_Done] ∧ in_len s' = -1
    else es = [Stream_Send data] ∧ s' = s).
Proof.
  intros (Hl & Hd & Hu & ->). pose proof (len_nonneg p). unfold send_data. wp_run.
  rewrite Hl, Hd. destruct (Z.ltb_spec (in_used s) (len p)) as [Hlt|Hge]; wp_run.
  - rewrite bool_decide_eq_false_2.
    + split; [|done]. cbn. do 2 f_equal. unfold zslice. apply ztake_all. rewrite len_zdrop; lia.
    + intros E. pose proof (len_zdrop (in_used s) p ltac:(lia)) as El. rewrite E in El.
      change (len []) with 0 in El. lia.
  - by rewrite bool_decide_eq_true_2 by (apply zdrop_all; lia).
Qed.

Lemma output_done_ok s p data k : sending s p data → 1 ≤ k ≤ len data →
  wp (output_handler_done k) s (λ _ s' es,
    if bool_decide (zdrop k data = []) then es = [Input_Done] ∧ in_len s' = -1
    else es = [Stream_Send (zdrop k data)] ∧ sending s' p (zdrop k data)).
Proof.
  intros (Hl & Hd & Hu & ->) Hk. rewrite len_zdrop in Hk by lia.
  unfold output_handler_done. wp_run.
  assert (sending (s <| in_used := in_used s + k |>) p (zdrop k (zdrop (in_used s) p))) as Hs.
  { unfold sending. cbn. rewrite zdrop_zdrop by lia. split_and!; done || lia. }
  eapply wp_mono; [by apply (send_data_ok _ p)|]. intros [] s' es. cbn [app].
  case_bool_decide; [done|]. by intros [-> ->].
Qed.

Lemma drain_ok choose : ∀ fuel s p data, sending s p data → data ≠ [] → (length data ≤ fuel)%nat →
  ∃ s', drain fuel choose s [Stream_Send data] = Some (data, s') ∧ in_len s' = -1.
Proof.
  induction fuel as [|fuel IH]; intros s p data Hs Hne Hf; [destruct data; [done|cbn in Hf; lia]|].
  cbn [drain]. set (k := Z.max 1 (Z.min (choose fuel) (len data))).
  assert (0 < len data) as Hpos by (destruct data; [done|rewrite len_cons; len_lia]).
  assert (1 ≤ k ≤ len data) as Hk by (unfold k; lia).
  pose proof (output_done_ok s p data k Hs Hk) as Hw.
  apply wp_some in Hw as ([] & s' & es & -> & Hes). cbn [mbind option_bind].
  case_bool_decide as Hz.
  - destruct Hes as [-> Hd].
    assert (drain fuel choose s' [Input_Done] = Some ([], s')) as -> by by destruct fuel.
    cbn. exists s'. split; [|done]. rewrite app_nil_r. do 2 f_equal.
    by rewrite <- (ztake_zdrop k data) at 2; rewrite Hz, app_nil_r.
  - destruct Hes as [-> Hs']. destruct (IH s' p (zdrop k data)) as (s'' & -> & Hd); [done|done| |].
    + unfold zdrop. rewrite length_drop. unfold len in *. lia.
    + cbn. exists s''. split; [|done]. by rewrite ztake_zdrop.
Qed.

(** A packet handed to [PacketStreamSender] appears on the stream exactly
    once and whole, however little the stream takes at a time; the stream is
    never offered nothing; the input is told the packet is done after its last
    byte was taken, and the sender is then ready for the next one. *)
Theorem streamsender_sends_packet (choose : nat → Z) (p : bytes) (s : PacketStreamSender)
    (Hidle : in_len s = -1) :
  ∃ s', send_packet choose p s = Some (p, s') ∧ in_len s' = -1.
Proof.
  pose proof (len_nonneg p).
  assert (wp (input_handler_send p) s (λ _ s' es,
    if bool_decide (p = []) then es = [Input_Done] ∧ in_len s' = -1
    else es = [Stream_Send p] ∧ sending s' p p)) as Hw.
  { unfold input_handler_send. wp_run.
    set (s1 := s <| in_len := len p |> <| in_data := p |> <| in_used := 0 |>).
    assert (sending s1 p p) as Hs by (unfold sending; cbn; split_and!; done || lia).
    eapply wp_mono; [by apply (send_data_ok _ p)|]. intros [] s' es. cbn [app].
    case_bool_decide; [done|]. by intros [-> ->]. }
  apply wp_some in Hw as ([] & s' & es & E & Hes). unfold send_packet. rewrite E.
  cbn [mbind option_bind]. case_bool_decide.
  - subst p. destruct Hes as [-> Hd]. by exists s'.
  - destruct Hes as [-> Hs]. by apply (drain_ok choose _ s' p).
Qed.

Lemma streamsender_sends_packet_witness :
  ∃ s', send_packet (λ _, 2) [1; 2; 3; 4; 5] PacketStreamSender_Init = Some ([1; 2; 3; 4; 5], s')
    ∧ in_len s' = -1.
Proof. apply (streamsender_sends_packet (λ _, 2)). reflexivity. Defined.
End PacketStreamSenderFacts.

(** * Reconnecting an output *)
Module PacketPassConnectorFacts.
Import PacketPassConnector.

(** What the user of the input, the output, and the owner of the connector do. *)
Inductive act := AInput (data : bytes) | AOutputDone | AConnect (m : Z) | ADisconnect.

Definition run_act (a : act) : op unit :=
  match a with
  | AInput data => input_handler_send data
  | AOutputDone => output_handler_done
  | AConnect m => PacketPassConnector_ConnectOutput m
  | ADisconnect => PacketPassConnector_DisconnectOutput
  end.

(** The connector between input and outputs: [accepted] the packets from the
    input, [done] how many of them were reported done, [cur] the packet the
    connected output works on. *)
Record world := World {
  conn : PacketPassConnector; accepted : list bytes; ndone : nat; cur : option bytes
}.

Definition cur_after (c : option bytes) (es : list ppc_call) : option bytes :=
  foldl (λ c e, match e with
                | Output_Send d => Some d | Output_SenderInit => None | Input_Done => c end) c es.
Definition dones (es : list ppc_call) : nat :=
  length (omap (λ e, match e with Input_Done => Some tt | _ => None end) es).

(** Allowed actions: the input sends when its last packet is done, an output
    reports done when it works on a packet. *)
Definition enabled (a : act) (w : world) : Prop :=
  match a with
  | AInput data => length (accepted w) = ndone w ∧ len data ≤ input_mtu (conn w)
  | AOutputDone => is_Some (cur w)
  | AConnect m => output (conn w) = None ∧ input_mtu (conn w) ≤ m
  | ADisconnect => is_Some (output (conn w))
  end.

Inductive step : world → world → Prop :=
  | step_act w a o es :
      enabled a w → run_act a (conn w) = Some (tt, o, es) →
      step w (World o (match a with AInput d => accepted w ++ [d] | _ => accepted w end)
        (ndone w + dones es)
        (cur_after (match a with AOutputDone | ADisconnect => None | _ => cur w end) es)).

Inductive reach (mtu : Z) : world → Prop :=
  | reach_init o : PacketPassConnector_Init mtu = Some o → reach mtu (World o [] 0 None)
  | reach_step w w' : reach mtu w → step w w' → reach mtu w'.

Definition inv (w : world) : Prop :=
  (in_len (conn w) = -1 ∧ length (accepted w) = ndone w ∧ cur w = None) ∨
  (∃ l, accepted w = l ++ [in_data (conn w)] ∧ ndone w = length l ∧
     in_len (conn w) = len (in_data (conn w)) ∧
     cur w = match output (conn w) with Some _ => Some (in_data (conn w)) | None => None end).

Lemma conn_act_ok a w : inv w → enabled a w →
  wp (run_act a) (conn w) (λ _ o es, inv (World o
    (match a with AInput d => accepted w ++ [d] | _ => accepted w end) (ndone w + dones es)
    (cur_after (match a with AOutputDone | ADisconnect => None | _ => cur w end) es))).
Proof.
  intros Hi He. destruct w as [o acc nd cu]. unfold inv in Hi. cbn [conn accepted ndone cur] in *.
  destruct a as [d| |m|]; cbn [enabled run_act conn accepted ndone cur] in *.
  - destruct Hi as [(Hl & Hn & ->)|(l & -> & -> & _)];
      cbn [conn accepted ndone cur] in *; [|destruct He as [He _]; rewrite length_app in He; cbn in He; lia].
    unfold input_handler_send. wp_run. apply wp_when; intros Ho; bool_to_prop; wp_run; right;
      exists acc; cbn; rewrite Nat.add_0_r; (split_and!; [done|done|done|]).
    + by destruct Ho as [m ->].
    + destruct (output o); [|done]. exfalso. apply Ho. by eexists.
  - destruct Hi as [(Hl & Hn & ->)|(l & -> & -> & Hl & ->)]; cbn [conn cur] in *;
      [by destruct He|].
    unfold output_handler_done. pose proof (len_nonneg (in_data o)).
    destruct (output o) as [m|] eqn:Ho; [|by destruct He].
    wp_step. wp_step. wp_step. apply wp_assert; [apply Z.leb_le; lia|].
    wp_step. apply wp_assert; [by rewrite Ho|]. wp_run. left. cbn. rewrite length_app. cbn. done.
  - unfold PacketPassConnector_ConnectOutput. destruct He as [Ho Hm].
    wp_step. wp_step. wp_step. apply wp_assert; [by rewrite Ho|]. wp_step.
    apply wp_assert; [by apply Z.leb_le|]. wp_run.
    destruct Hi as [(Hl & Hn & ->)|(l & -> & -> & Hl & ->)]; cbn [conn accepted ndone cur] in *;
      rewrite Hl.
    + left. cbn. split_and!; [done|lia|done].
    + pose proof (len_nonneg (in_data o)). rewrite (proj2 (Z.leb_le _ _)) by done.
      wp_run. right. exists l. cbn. split_and!; [done|lia|done|done].
  - unfold PacketPassConnector_DisconnectOutput. wp_step. wp_step. wp_step.
    apply wp_assert; [by apply bool_decide_eq_true|]. wp_run.
    destruct Hi as [(Hl & Hn & ->)|(l & -> & -> & Hl & ->)]; cbn [conn accepted ndone cur] in *.
    + left. cbn. split_and!; [done|lia|done].
    + right. exists l. cbn. split_and!; [done|lia|done|done].
Qed.

(** [PacketPassConnector] loses no packet when its output is replaced: in
    every reachable state either every accepted packet was reported done, or
    all but the last were and the last one is held; while it is held, the
    connected output, however many times it was replaced, works on exactly
    that packet. No allowed action fails. *)
Theorem connector_no_loss (mtu : Z) (w : world) (Hw : reach mtu w) :
  ((length (accepted w) = ndone w ∧ cur w = None) ∨
   ∃ l d, accepted w = l ++ [d] ∧ ndone w = length l ∧
     (is_Some (output (conn w)) → cur w = Some d)) ∧
  (∀ a, enabled a w → is_Some (run_act a (conn w))).
Proof.
  assert (inv w) as Hi.
  { induction Hw as [o Ho|w w' Hw IH Hs].
    - unfold PacketPassConnector_Init in Ho. case_match; [|done]. injection Ho as <-. by left.
    - destruct Hs as [w a o es He Hr]. pose proof (conn_act_ok a w IH He) as H.
      unfold wp in H. by rewrite Hr in H. }
  split.
  - destruct Hi as [(_ & ? & ?)|(l & ? & ? & _ & Hc)]; [by left|right].
    exists l, (in_data (conn w)). split_and!; [done|done|]. intros [m Hm]. by rewrite Hc, Hm.
  - intros a He. pose proof (conn_act_ok a w Hi He) as H.
    apply wp_some in H as (? & ? & ? & -> & _). by eexists.
Qed.

Lemma connector_no_loss_witness :
  is_Some (run_act (AInput [1; 2]) (MkPacketPassConnector 10 (-1) [] None)).
Proof.
  apply (proj2 (connector_no_loss 10 (World (MkPacketPassConnector 10 (-1) [] None) [] 0 None)
    (reach_init 10 _ eq_refl))). split; [reflexivity|vm_compute; discriminate].
Defined.
End PacketPassConnectorFacts.

(** * The inactivity timer *)
Module InactivityMonitorFacts.
Import PacketPassInactivityMonitor.

(** [busy]: the output works on a packet. *)
Inductive mon_exec : PacketPassInactivityMonitor → bool → Prop :=
  | me_init c h : mon_exec (fst (PacketPassInactivityMonitor_Init c h)) false
  | me_send o d o' es : mon_exec o false → input_handler_send d o = Some (tt, o', es) → mon_exec o' true
  | me_cancel o b o' es : mon_exec o b → input_handler_requestcancel o = Some (tt, o', es) → mon_exec o' b
  | me_done o o' es : mon_exec o true → output_handler_done o = Some (tt, o', es) → mon_exec o' false
  | me_timer o b o' es : mon_exec o b → timer o = true →
      timer_handler o = Some (tt, o', es) → mon_exec o' b
  | me_handler o b h o' es : mon_exec o b →
      PacketPassInactivityMonitor_SetHandler h o = Some (tt, o', es) → mon_exec o' b.

Lemma timer_handler_run o : timer_handler o
  = Some (tt, o <| timer := true |>, SetTimer None :: if handler o then [CallHandler] else []).
Proof. by destruct o as [[] t c]. Qed.

(** The inactivity timer of the monitor runs exactly while the output is
    idle, so the handler is never called for a connection that is busy
    sending; when the timer expires it is started again and the handler, if
    set, is called once. *)
Theorem inactivity_timer_idle (o : PacketPassInactivityMonitor) (busy : bool)
    (Hexec : mon_exec o busy) :
  timer o = negb busy ∧
  (timer o = true → ∃ o', timer_handler o
     = Some (tt, o', SetTimer None :: if handler o then [CallHandler] else []) ∧
     timer o' = true ∧ handler o' = handler o).
Proof.
  split.
  - induction Hexec as [c h|o d o' es _ IH Hr|o b o' es _ IH Hr|o o' es _ IH Hr
      |o b o' es _ IH Ht Hr|o b h o' es _ IH Hr].
    + done.
    + by injection Hr as <- _.
    + by injection Hr as <- _.
    + by injection Hr as <- _.
    + rewrite <- IH, Ht. rewrite timer_handler_run in Hr. by injection Hr as <- _.
    + by injection Hr as <- _.
  - intros _. rewrite timer_handler_run. by eexists.
Qed.

Lemma inactivity_timer_idle_witness :
  timer (fst (PacketPassInactivityMonitor_Init false true)) = true.
Proof.
  apply (inactivity_timer_idle (fst (PacketPassInactivityMonitor_Init false true)) false).
  apply me_init.
Defined.
End InactivityMonitorFacts.
