(* ===== verification/FairQueue.v ===== *)
(** The fair queue (flow/PacketPassFairQueue.c): flows share one output; each
    flow has a 64-bit time that grows with the bytes it sent, and the queued
    flow with the least time sends next. When a time would overflow, time is
    subtracted from all flows. *)
From Stdlib Require Import Sorting.Sorted.
From S2P Require Import Prelude Misc BAddr TreeInterface BAVL CAvl CAvlOrder IndexedList.

(** * The code *)
Module FairQueueCode.

Definition FAIRQUEUE_MAX_TIME : Z := UINT64_MAX.

(** [handler_busy]: whether a handler is set. [queued_data]: the packet
    waiting, while [is_queued]. *)
Record PacketPassFairQueueFlow := MkFlow {
  handler_busy : bool;
  time : Z;
  is_queued : bool;
  queued_data : bytes
}.
#[global] Instance eta_flow : Eta PacketPassFairQueueFlow := λ x,
  MkFlow (handler_busy x) (time x) (is_queued x) (queued_data x).

(** The time and address of a flow, which the tree is ordered by. *)
Definition compare_flows (f1 f2 : Z * Z) : Z :=
  let cmp := B_COMPARE (fst f1) (fst f2) in
  if negb (cmp =? 0) then cmp else B_COMPARE (snd f1) (snd f2).
Definition flow_key (m : gmap positive PacketPassFairQueueFlow) (p : positive) : Z * Z :=
  (match m !! p with Some f => time f | None => 0 end, Z.pos p).

Section code.
Context {T : Type} `{!OrderedTree T}.

(** [output_mtu]: the MTU of the output interface. [flows]: the flow objects by
    address. [schedule_job]: whether it is set. *)
Record PacketPassFairQueue := MkFairQueue {
  output_mtu : Z;
  use_cancel : bool;
  packet_weight : Z;
  sending_flow : option positive;
  sending_len : Z;
  previous_flow : option positive;
  queued_tree : T;
  flows : gmap positive PacketPassFairQueueFlow;
  flows_list : list positive;
  freeing : bool;
  schedule_job : bool
}.
#[global] Instance eta_FairQueue : Eta PacketPassFairQueue := λ x,
  MkFairQueue (output_mtu x) (use_cancel x) (packet_weight x) (sending_flow x) (sending_len x)
    (previous_flow x) (queued_tree x) (flows x) (flows_list x) (freeing x) (schedule_job x).

Inductive call :=
  | Sender_Send (data : bytes)
  | Sender_RequestCancel
  | Input_Done (flow : positive)
  | call_handler_busy (flow : positive).
Abbreviation op := (prog PacketPassFairQueue call).
Definition stuck {A} : op A := λ _, None.

(** Access to a flow that exists. *)
Definition get_flow (p : positive) : op PacketPassFairQueueFlow :=
  λ m, match flows m !! p with Some f => Some (f, m, []) | None => None end.
Definition set_flow (p : positive) (g : PacketPassFairQueueFlow → PacketPassFairQueueFlow) : op unit :=
  f ← get_flow p; modify (λ m, m <| flows := <[p := g f]> (flows m) |>).

Definition Tree_GetFirst : op (option positive) :=
  λ m, match ot_first (queued_tree m) with Some r => Some (r, m, []) | None => None end.
Definition Tree_IsEmpty : op bool := r ← Tree_GetFirst; mret (bool_decide (r = None)).
Definition Tree_Insert (p : positive) : op Z :=
  λ m, match ot_insert compare_flows (flow_key (flows m)) p (queued_tree m) with
       | Some (r, t) => Some (r, m <| queued_tree := t |>, [])
       | None => None
       end.
Definition Tree_Remove (p : positive) : op unit :=
  update (λ m, match ot_remove p (queued_tree m) with
               | Some t => Some (m <| queued_tree := t |>)
               | None => None
               end).

Definition get_current_time : op Z :=
  m ← get_st;
  match sending_flow m with
  | Some p => f ← get_flow p; mret (time f)
  | None =>
      first_flow ← Tree_GetFirst;
      have ← match first_flow with
             | Some p => f ← get_flow p; ASSERT (is_queued f);; mret (Some (time f))
             | None => mret None
             end;
      have ← match previous_flow m with
             | Some p =>
                 f ← get_flow p;
                 mret (match have with
                       | Some t => if time f <? t then Some (time f) else Some t
                       | None => Some (time f)
                       end)
             | None => mret have
             end;
      mret (match have with Some t => t | None => 0 end)
  end.

(** The loop over the list of flows in [increment_sent_flow]. *)
Fixpoint subtract_time (subtract : Z) (flow : positive) (l : list positive) : op unit :=
  match l with
  | [] => mret tt
  | someflow :: l =>
      f ← get_flow someflow;
      (if (time f <? subtract) && negb (bool_decide (someflow = flow)) then
         ASSERT (negb (is_queued f));;
         set_flow someflow (λ f, f <| time := 0 |>)
       else set_flow someflow (λ f, f <| time := u64 (time f - subtract) |>));;
      subtract_time subtract flow l
  end.

Definition increment_sent_flow (flow : positive) (amount : Z) : op unit :=
  m ← get_st;
  f ← get_flow flow;
  ASSERT (amount <=? FAIRQUEUE_MAX_TIME);;
  ASSERT (negb (is_queued f));;
  ASSERT (bool_decide (sending_flow m = None));;
  when (FAIRQUEUE_MAX_TIME - time f <? amount) (
    first_flow ← Tree_GetFirst;
    subtract ← match first_flow with
               | None => mret (time f)
               | Some p => g ← get_flow p; ASSERT (is_queued g);; mret (time g)
               end;
    subtract_time subtract flow (flows_list m));;
  set_flow flow (λ f, f <| time := u64 (time f + amount) |>).

Definition schedule : op unit :=
  m ← get_st;
  ASSERT (bool_decide (sending_flow m = None));;
  ASSERT (bool_decide (previous_flow m = None));;
  ASSERT (negb (freeing m));;
  empty ← Tree_IsEmpty;
  ASSERT (negb empty);;
  qflow ← Tree_GetFirst;
  match qflow with
  | None => stuck
  | Some q =>
      f ← get_flow q;
      ASSERT (is_queued f);;
      Tree_Remove q;;
      set_flow q (λ f, f <| is_queued := false |>);;
      emit (Sender_Send (queued_data f));;
      modify (λ m, m <| sending_flow := Some q |>);;
      modify (λ m, m <| sending_len := len (queued_data f) |>)
  end.

(** Running the job unsets it. *)
Definition schedule_job_handler : op unit :=
  modify (λ m, m <| schedule_job := false |>);;
  m ← get_st;
  ASSERT (bool_decide (sending_flow m = None));;
  ASSERT (negb (freeing m));;
  modify (λ m, m <| previous_flow := None |>);;
  empty ← Tree_IsEmpty;
  when (negb empty) schedule.

Definition input_handler_send (flow : positive) (data : bytes) : op unit :=
  m ← get_st;
  f ← get_flow flow;
  ASSERT (negb (bool_decide (sending_flow m = Some flow)));;
  ASSERT (negb (is_queued f));;
  ASSERT (negb (freeing m));;
  (if bool_decide (previous_flow m = Some flow) then
     modify (λ m, m <| previous_flow := None |>)
   else
     t ← get_current_time;
     set_flow flow (λ f, f <| time := bmax_uint64 (time f) t |>));;
  set_flow flow (λ f, f <| queued_data := data |>);;
  res ← Tree_Insert flow;
  ASSERT (negb (res =? 0));;
  set_flow flow (λ f, f <| is_queued := true |>);;
  m ← get_st;
  when (bool_decide (sending_flow m = None) && negb (schedule_job m)) schedule.

(** The accounting of a sent packet is an argument, so that the handler can
    also be run with another one. *)
Definition output_handler_done_with (increment : positive → Z → op unit) : op unit :=
  m ← get_st;
  match sending_flow m with
  | None => ASSERT false
  | Some flow =>
      f ← get_flow flow;
      ASSERT (bool_decide (previous_flow m = None));;
      ASSERT (negb (schedule_job m));;
      ASSERT (negb (freeing m));;
      ASSERT (negb (is_queued f));;
      modify (λ m, m <| sending_flow := None |>);;
      modify (λ m, m <| previous_flow := Some flow |>);;
      increment flow (packet_weight m + sending_len m);;
      modify (λ m, m <| schedule_job := true |>);;
      emit (Input_Done flow);;
      when (handler_busy f) (
        set_flow flow (λ f, f <| handler_busy := false |>);;
        emit (call_handler_busy flow))
  end.

Definition output_handler_done : op unit := output_handler_done_with increment_sent_flow.

Definition PacketPassFairQueue_Init (mtu : Z) (has_cancel use_cancel : bool) (weight : Z)
    : option (option PacketPassFairQueue) :=
  ASSERT_ (0 <? weight);
  ASSERT_ (negb use_cancel || has_cancel);
  Some (if negb ((mtu <=? FAIRQUEUE_MAX_TIME) && (weight <=? FAIRQUEUE_MAX_TIME - mtu)) then None
  else Some (MkFairQueue mtu use_cancel weight None 0 None ot_init ∅ [] false false)).

Definition PacketPassFairQueue_Free : op unit :=
  m ← get_st;
  ASSERT (bool_decide (flows_list m = []));;
  empty ← Tree_IsEmpty;
  ASSERT empty;;
  ASSERT (bool_decide (previous_flow m = None));;
  ASSERT (bool_decide (sending_flow m = None));;
  modify (λ m, m <| schedule_job := false |>).

Definition PacketPassFairQueue_PrepareFree : op unit := modify (λ m, m <| freeing := true |>).
Definition PacketPassFairQueue_GetMTU : op Z := gets output_mtu.

Definition PacketPassFairQueueFlow_Init (flow : positive) : op unit :=
  m ← get_st;
  ASSERT (negb (freeing m));;
  modify (λ m, m <| flows := <[flow := MkFlow false 0 false []]> (flows m) |>);;
  modify (λ m, m <| flows_list := flows_list m ++ [flow] |>).

Definition PacketPassFairQueueFlow_Free (flow : positive) : op unit :=
  m ← get_st;
  f ← get_flow flow;
  ASSERT (freeing m || negb (bool_decide (sending_flow m = Some flow)));;
  when (bool_decide (sending_flow m = Some flow)) (modify (λ m, m <| sending_flow := None |>));;
  when (bool_decide (previous_flow m = Some flow)) (modify (λ m, m <| previous_flow := None |>));;
  when (is_queued f) (Tree_Remove flow);;
  modify (λ m, m <| flows_list := filter (λ p, p ≠ flow) (flows_list m) |>);;
  modify (λ m, m <| flows := delete flow (flows m) |>).

Definition PacketPassFairQueueFlow_IsBusy (flow : positive) : op bool :=
  m ← get_st;
  ASSERT (negb (freeing m));;
  mret (bool_decide (sending_flow m = Some flow)).

Definition PacketPassFairQueueFlow_RequestCancel (flow : positive) : op unit :=
  m ← get_st;
  ASSERT (bool_decide (sending_flow m = Some flow));;
  ASSERT (use_cancel m);;
  ASSERT (negb (freeing m));;
  ASSERT (negb (schedule_job m));;
  emit Sender_RequestCancel.

Definition PacketPassFairQueueFlow_SetBusyHandler (flow : positive) (handler : bool) : op unit :=
  m ← get_st;
  ASSERT (bool_decide (sending_flow m = Some flow));;
  ASSERT (negb (freeing m));;
  set_flow flow (λ f, f <| handler_busy := handler |>).
End code.
Arguments PacketPassFairQueue : clear implicits.
End FairQueueCode.

(** * Facts *)
Module FairQueueFacts.
Import FairQueueCode.

#[export] Instance compare_flows_ok : Comparator (λ _, True) compare_flows := compare_pairs_comparator.

Lemma compare_flows_lt f1 f2 : compare_flows f1 f2 = -1 ↔ f1.1 < f2.1 ∨ (f1.1 = f2.1 ∧ f1.2 < f2.2).
Proof. apply compare_pairs_lt. Qed.

Section facts.
Context {T : Type} `{!OrderedTree T}.
Implicit Types m : PacketPassFairQueue T.
Implicit Types fl : gmap positive PacketPassFairQueueFlow.

(** The flow [p] is [f] and has a packet waiting. *)
Definition queued fl (p : positive) (f : PacketPassFairQueueFlow) : Prop := fl !! p = Some f ∧ is_queued f = true.
Definition before (f : PacketPassFairQueueFlow) (p : positive) (g : PacketPassFairQueueFlow) (q : positive) : Prop :=
  time f < time g ∨ (time f = time g ∧ (p ≤ q)%positive).
(** ... and is the next to send. *)
Definition least fl (p : positive) (f : PacketPassFairQueueFlow) : Prop :=
  queued fl p f ∧ ∀ q g, queued fl q g → before f p g q.

Lemma least_unique fl p f q g : least fl p f → least fl q g → p = q.
Proof. intros [Hp Hp'] [Hq Hq']. pose proof (Hp' _ _ Hq). pose proof (Hq' _ _ Hp). unfold before in *. lia. Qed.

(** ** The tree holds the queued flows *)

Definition tree_ok fl (t : T) : Prop :=
  ot_set (λ _, True) compare_flows (flow_key fl) t (λ p, ∃ f, queued fl p f).

Lemma flow_key_eq fl p f : fl !! p = Some f → flow_key fl p = (time f, Z.pos p).
Proof. unfold flow_key. by intros ->. Qed.

Lemma tree_first fl t : tree_ok fl t →
  ∃ r, ot_first t = Some r ∧
    match r with Some p => ∃ f, least fl p f | None => ∀ p f, ¬ queued fl p f end.
Proof.
  intros (l & Hl & Hin). rewrite (ot_first_spec _ _ _ _ _ Hl). exists (head l). split; [done|].
  pose proof (ot_sorted _ _ _ _ _ Hl) as Hs. destruct l as [|p l]; cbn [head].
  - intros p f Hq. assert (p ∈ []) as Hp by (apply Hin; eauto). by apply elem_of_nil in Hp.
  - destruct (proj1 (Hin p)) as (f & Hf); [left|]. exists f. split; [done|]. intros q g Hg.
    apply StronglySorted_inv in Hs as [_ Hs]. assert (q ∈ p :: l) as Hq by (apply Hin; eauto).
    apply elem_of_cons in Hq as [-> | Hq].
    + destruct Hf as [Ef _], Hg as [Eg _]. simplify_eq. right. lia.
    + rewrite Forall_forall in Hs. specialize (Hs q Hq). rewrite compare_flows_lt in Hs.
      rewrite (flow_key_eq _ _ _ (proj1 Hf)), (flow_key_eq _ _ _ (proj1 Hg)) in Hs. cbn in Hs. unfold before. lia.
Qed.

(** All times of queued flows may be shifted together. *)
Lemma tree_shift s fl fl' t : tree_ok fl t →
  (∀ p f, queued fl p f → ∃ f', queued fl' p f' ∧ time f' = time f - s) →
  (∀ p f, queued fl' p f → ∃ f, queued fl p f) →
  tree_ok fl' t.
Proof.
  intros (l & Hl & Hin) H1 H2. exists l. split.
  - eapply ot_value_mono; [done| |exact Hl]. intros p q Hp Hq.
    destruct (proj1 (Hin p) Hp) as (f & Hf), (proj1 (Hin q) Hq) as (g & Hg).
    destruct (H1 _ _ Hf) as (f' & Hf' & Ef), (H1 _ _ Hg) as (g' & Hg' & Eg).
    rewrite !compare_flows_lt, (flow_key_eq _ _ _ (proj1 Hf)), (flow_key_eq _ _ _ (proj1 Hg)),
      (flow_key_eq _ _ _ (proj1 Hf')), (flow_key_eq _ _ _ (proj1 Hg')). cbn. lia.
  - intros p. rewrite Hin. split; [intros (f & Hf)|intros (f & Hf)].
    + destruct (H1 _ _ Hf) as (f' & ? & _). eauto.
    + by apply (H2 _ f).
Qed.

Lemma queued_insert fl p f q g : queued (<[p := f]> fl) q g ↔
  (q = p ∧ g = f ∧ is_queued f = true) ∨ (q ≠ p ∧ queued fl q g).
Proof.
  unfold queued. destruct (decide (q = p)) as [->|Hne].
  - rewrite lookup_insert_eq. split; [intros [[= ->] ?]; by left|]. intros [(_ & -> & ?)|[? _]]; done.
  - rewrite lookup_insert_ne by done. split; [by right|]. by intros [(? & _)|[_ ?]].
Qed.

(** An idle flow may change as it likes. *)
Lemma tree_idle fl t p f f' : tree_ok fl t → fl !! p = Some f → is_queued f = false → is_queued f' = false →
  tree_ok (<[p := f']> fl) t.
Proof.
  intros H Hp Hf Hf'. apply (tree_shift 0 fl); [done|..]; intros q g Hg.
  - exists g. split; [|lia]. apply queued_insert. right. split; [|done]. intros ->. destruct Hg. congruence.
  - apply queued_insert in Hg as [(_ & _ & ?)|[_ Hg]]; [congruence|eauto].
Qed.

(** A flow may change anything but its time and its being queued. *)
Lemma tree_same fl t p f f' : tree_ok fl t → fl !! p = Some f → is_queued f' = is_queued f → time f' = time f →
  tree_ok (<[p := f']> fl) t.
Proof.
  intros H Hp Hf Ht. apply (tree_shift 0 fl); [done|..]; intros q g Hg.
  - destruct (decide (q = p)) as [->|].
    + destruct Hg as [Eg Hg]. simplify_eq. exists f'. split; [|lia]. apply queued_insert. left. by rewrite Hf.
    + exists g. split; [|lia]. apply queued_insert. by right.
  - apply queued_insert in Hg as [(-> & -> & Hq)|[_ Hg]]; [exists f; split; congruence|eauto].
Qed.

Lemma tree_insert fl t p f : tree_ok fl t → fl !! p = Some f → is_queued f = false →
  ∃ t', ot_insert compare_flows (flow_key fl) p t = Some (1, t') ∧
    tree_ok (<[p := f <| is_queued := true |>]> fl) t'.
Proof.
  intros Ht Hp Hf. assert (¬ ∃ g, queued fl p g) as Hn by (intros (g & ? & ?); congruence).
  eapply ot_set_insert; [apply _|exact Ht|done|done|..].
  - intros q Hq E. apply (proj1 (cmp_eq (P := λ _, True) _ _ I I)) in E. apply Hn.
    assert (p = q) as -> by (unfold flow_key in E; congruence). done.
  - intros q. setoid_rewrite queued_insert. cbn. naive_solver.
  - intros q _. unfold flow_key. f_equal.
    destruct (decide (q = p)) as [->|]; [by rewrite lookup_insert_eq, Hp|by rewrite lookup_insert_ne].
Qed.

Lemma tree_remove fl t p f : tree_ok fl t → queued fl p f →
  ∃ t', ot_remove p t = Some t' ∧ tree_ok (<[p := f <| is_queued := false |>]> fl) t' ∧ tree_ok (delete p fl) t'.
Proof.
  intros Ht Hp. assert (∃ f, queued fl p f) as Hq by eauto.
  destruct (ot_set_remove _ _ _ (flow_key (delete p fl)) _ _ (λ q, ∃ f, queued (delete p fl) q f) p Ht Hq)
    as (t' & E & Ht').
  { intros q. unfold queued. setoid_rewrite lookup_delete_Some. naive_solver. }
  { intros q (g & Hg & _). apply lookup_delete_Some in Hg as [Hne _].
    unfold flow_key. f_equal. by rewrite lookup_delete_ne. }
  exists t'. split_and!; [done| |done].
  eapply ot_set_ext; [exact Ht'|..]; cbn.
  - intros q. setoid_rewrite queued_insert. unfold queued. setoid_rewrite lookup_delete_Some. naive_solver.
  - intros q (g & [(_ & _ & [=])|[Hne _]]%queued_insert).
    unfold flow_key. f_equal. by rewrite lookup_delete_ne, lookup_insert_ne.
Qed.

Lemma tree_delete fl t p f : tree_ok fl t → fl !! p = Some f → is_queued f = false → tree_ok (delete p fl) t.
Proof.
  intros H Hp Hf. apply (tree_shift 0 fl); [done|..]; unfold queued; setoid_rewrite lookup_delete_Some.
  - intros q g [Eq Hq]. exists g. split_and!; try done; [congruence|lia].
  - naive_solver.
Qed.

(** ** The invariant

    [ok] says which times there are: 64-bit ones, or all of them. *)

Definition active m (p : positive) (f : PacketPassFairQueueFlow) : Prop :=
  flows m !! p = Some f ∧ (is_queued f = true ∨ sending_flow m = Some p ∨ previous_flow m = Some p).

(** The least time of an active flow, which a flow that becomes active is
    raised to. *)
Definition current m (t : Z) : Prop :=
  (∃ p f, active m p f ∧ time f = t ∧ ∀ q g, active m q g → t ≤ time g) ∨
  (t = 0 ∧ ∀ p f, ¬ active m p f).

Record base (ok : Z → Prop) m : Prop := {
  i_nodup : NoDup (flows_list m);
  i_dom : ∀ p, p ∈ flows_list m ↔ is_Some (flows m !! p);
  i_tree : tree_ok (flows m) (queued_tree m);
  i_time : ∀ p f, flows m !! p = Some f → ok (time f);
  i_data : ∀ p f, queued (flows m) p f → len (queued_data f) ≤ output_mtu m;
  i_send : ∀ p, sending_flow m = Some p → previous_flow m = None ∧ schedule_job m = false ∧
    0 ≤ sending_len m ≤ output_mtu m ∧
    ∃ f, flows m !! p = Some f ∧ is_queued f = false ∧ ∀ q g, queued (flows m) q g → time f ≤ time g;
  i_prev : ∀ p, previous_flow m = Some p → sending_flow m = None ∧ schedule_job m = true ∧
    ∃ f, flows m !! p = Some f ∧ is_queued f = false;
  i_cfg : 0 < packet_weight m ∧ 0 ≤ output_mtu m ∧ packet_weight m + output_mtu m ≤ FAIRQUEUE_MAX_TIME
}.
(** The part about the flows themselves. *)
Record store (ok : Z → Prop) m : Prop := {
  st_nodup : NoDup (flows_list m);
  st_dom : ∀ p, p ∈ flows_list m ↔ is_Some (flows m !! p);
  st_tree : tree_ok (flows m) (queued_tree m);
  st_time : ∀ p f, flows m !! p = Some f → ok (time f)
}.
Lemma base_store ok m : base ok m → store ok m.
Proof. by intros []. Qed.
(** The output does not rest while a packet waits. *)
Definition busy m : Prop := sending_flow m = None → schedule_job m = false → freeing m = false →
  ∀ p f, ¬ queued (flows m) p f.
Definition inv (ok : Z → Prop) m : Prop := base ok m ∧ busy m.

(** Everything of the queue but the shape of the tree. *)
Definition notree m : PacketPassFairQueue T := m <| queued_tree := ot_init |>.

Lemma notree_eq m m' : notree m = notree m' ↔
  flows m = flows m' ∧ output_mtu m = output_mtu m' ∧ use_cancel m = use_cancel m' ∧
  packet_weight m = packet_weight m' ∧ sending_flow m = sending_flow m' ∧ sending_len m = sending_len m' ∧
  previous_flow m = previous_flow m' ∧ flows_list m = flows_list m' ∧ freeing m = freeing m' ∧
  schedule_job m = schedule_job m'.
Proof.
  unfold notree. split; [intros E; injection E; intros; split_and!; done|].
  intros (? & ? & ? & ? & ? & ? & ? & ? & ? & ?). destruct m, m'. cbn in *. congruence.
Qed.

Section ops.
Context (ok : Z → Prop) (ok0 : ok 0).

Lemma wp_get_flow m p f (Q : PacketPassFairQueueFlow → PacketPassFairQueue T → list call → Prop) :
  flows m !! p = Some f → Q f m [] → wp (get_flow p) m Q.
Proof. unfold wp, get_flow. by intros ->. Qed.
Lemma wp_set_flow m p f g (Q : unit → PacketPassFairQueue T → list call → Prop) :
  flows m !! p = Some f → Q tt (m <| flows := <[p := g f]> (flows m) |>) [] → wp (set_flow p g) m Q.
Proof. intros Hf HQ. unfold set_flow. wp_step. eapply wp_get_flow; [done|]. by wp_run. Qed.

Lemma wp_first m (Q : option positive → PacketPassFairQueue T → list call → Prop) :
  tree_ok (flows m) (queued_tree m) →
  ((∀ p f, ¬ queued (flows m) p f) → Q None m []) →
  (∀ p f, least (flows m) p f → Q (Some p) m []) →
  wp Tree_GetFirst m Q.
Proof.
  intros Ht HN HS. destruct (tree_first _ _ Ht) as (r & E & Hr). unfold wp, Tree_GetFirst. rewrite E.
  destruct r as [p|]; [destruct Hr as (f & Hf); by eapply HS|by apply HN].
Qed.

Lemma wp_insert m p f (Q : Z → PacketPassFairQueue T → list call → Prop) :
  tree_ok (flows m) (queued_tree m) → flows m !! p = Some f → is_queued f = false →
  (∀ t', tree_ok (<[p := f <| is_queued := true |>]> (flows m)) t' → Q 1 (m <| queued_tree := t' |>) []) →
  wp (Tree_Insert p) m Q.
Proof.
  intros Ht Ef Hf HQ. destruct (tree_insert _ _ p f Ht Ef Hf) as (t' & E & Ht').
  unfold wp, Tree_Insert. rewrite E. by apply HQ.
Qed.

Lemma current_time_ok m (Q : Z → PacketPassFairQueue T → list call → Prop) : base ok m →
  (∀ t, current m t → ok t → Q t m []) → wp get_current_time m Q.
Proof using ok0.
  intros H HQ. unfold get_current_time. wp_run. destruct (sending_flow m) as [p|] eqn:Es.
  - destruct (i_send _ _ H p Es) as (Hp & _ & _ & f & Ef & Hf & Hmin). wp_step.
    eapply wp_get_flow; [done|]. wp_run. apply HQ; [|by eapply i_time]. left. exists p, f.
    split; [split; auto|]. split; [done|]. intros q g [Eg [Hg|[Hg|Hg]]]; [by apply (Hmin q)|..].
    + rewrite Es in Hg. simplify_eq. lia.
    + congruence.
  - wp_step. apply wp_first; [apply H|..].
    + intros Hnone. wp_run. destruct (previous_flow m) as [p|] eqn:Ep.
      * destruct (i_prev _ _ H p Ep) as (_ & _ & f & Ef & Hf). wp_step. eapply wp_get_flow; [done|]. wp_run.
        apply HQ; [|by eapply i_time]. left. exists p, f. split; [split; auto|]. split; [done|].
        intros q g [Eg [Hg|[Hg|Hg]]]; [by destruct (Hnone q g)|congruence|]. rewrite Ep in Hg. simplify_eq. lia.
      * wp_run. apply HQ; [|done]. right. split; [done|].
        intros q g [Eg [Hg|[Hg|Hg]]]; [by destruct (Hnone q g)|congruence..].
    + intros p f [[Ef Hf] Hmin]. wp_step. wp_step. eapply wp_get_flow; [done|]. wp_run.
      destruct (previous_flow m) as [p'|] eqn:Ep.
      * destruct (i_prev _ _ H p' Ep) as (_ & _ & f' & Ef' & Hf'). wp_step. eapply wp_get_flow; [done|]. wp_run.
        assert (∀ q g, active m q g → g = f' ∨ time f ≤ time g) as Hact.
        { intros q g [Eg [Hg|[Hg|Hg]]]; [|congruence|rewrite Ep in Hg; simplify_eq; by left].
          right. destruct (Hmin q g); [done|lia..]. }
        destruct (Z.ltb_spec (time f') (time f)).
        -- apply HQ; [|by eapply i_time]. left. exists p', f'. split; [split; auto|]. split; [done|].
           intros q g Hg. destruct (Hact _ _ Hg) as [-> | ?]; lia.
        -- apply HQ; [|by eapply i_time]. left. exists p, f. split; [split; auto|]. split; [done|].
           intros q g Hg. destruct (Hact _ _ Hg) as [-> | ?]; lia.
      * wp_run. apply HQ; [|by eapply i_time]. left. exists p, f. split; [split; auto|]. split; [done|].
        intros q g [Eg [Hg|[Hg|Hg]]]; [|congruence..]. destruct (Hmin q g); [done|lia..].
Qed.

(** ** Scheduling *)

Definition sched m m' (es : list call) : Prop :=
  ∃ q f, least (flows m) q f ∧ es = [Sender_Send (queued_data f)] ∧
    notree m' = notree (m <| flows := <[q := f <| is_queued := false |>]> (flows m) |>
                          <| sending_flow := Some q |> <| sending_len := len (queued_data f) |>).

Lemma schedule_ok m : base ok m → sending_flow m = None → previous_flow m = None → schedule_job m = false →
  freeing m = false → (∃ p f, queued (flows m) p f) →
  wp schedule m (λ _ m' es, inv ok m' ∧ sched m m' es).
Proof.
  intros H Hs Hp Hj Hfr (p0 & f0 & Hq0). unfold schedule, Tree_IsEmpty. wp_run.
  apply wp_first; [apply H|intros Hn; by destruct (Hn _ _ Hq0)|]. intros p1 f1 _. wp_run.
  apply wp_first; [apply H|intros Hn; by destruct (Hn _ _ Hq0)|]. intros q f Hl. wp_step.
  destruct (Hl) as [[Ef Hf] Hmin]. eapply wp_get_flow; [done|]. wp_run.
  destruct (tree_remove _ _ q f (i_tree _ _ H) (proj1 Hl)) as (t' & Er & Ht' & _).
  eapply wp_update; [by rewrite Er|]. wp_run. eapply wp_set_flow; [done|]. wp_run.
  split; [|exists q, f; done]. split; [|done]. destruct H as [H1 H2 H3 H4 H5 H6 H7 H8].
  split; cbn; try done.
  - intros p. rewrite H2. destruct (decide (p = q)) as [->|]; [|by rewrite lookup_insert_ne].
    rewrite lookup_insert_eq, Ef. split; by eexists.
  - intros p g. destruct (decide (p = q)) as [->|]; [|rewrite lookup_insert_ne by done; apply H4].
    rewrite lookup_insert_eq. intros [= <-]. exact (H4 q f Ef).
  - intros p g [(_ & _ & ?)|[_ Hg]]%queued_insert; [done|]. by apply (H5 p).
  - intros p [= ->]. split_and!; try done; [apply len_nonneg|by apply (H5 p f)|].
    exists (f <| is_queued := false |>). rewrite lookup_insert_eq. split_and!; try done.
    intros q' g [(_ & _ & ?)|[_ Hg]]%queued_insert; [done|]. cbn. destruct (Hmin _ _ Hg); lia.
  - congruence.
Qed.

(** The schedule job forgets the previous flow and starts the next packet. *)
Definition job_post m m' (es : list call) : Prop :=
  let m1 := m <| schedule_job := false |> <| previous_flow := None |> in
  (sched m1 m' es ∨ ((∀ p f, ¬ queued (flows m) p f) ∧ m' = m1 ∧ es = [])).

Lemma job_base m b : base ok m → sending_flow m = None →
  base ok (m <| schedule_job := b |> <| previous_flow := None |>).
Proof. intros [H1 H2 H3 H4 H5 H6 H7 H8] Hs. split; cbn; try done. congruence. Qed.

Lemma schedule_job_ok m : inv ok m → schedule_job m = true → freeing m = false →
  wp schedule_job_handler m (λ _ m' es, inv ok m' ∧ job_post m m' es).
Proof.
  intros [H _] Hj Hfr.
  assert (sending_flow m = None) as Hs.
  { destruct (sending_flow m) eqn:E; [|done]. destruct (i_send _ _ H _ E) as (_ & ? & _). congruence. }
  unfold schedule_job_handler, Tree_IsEmpty. wp_run. pose proof (job_base m false H Hs) as H'.
  apply wp_first; [apply H|..].
  - intros Hn. wp_run. apply wp_when; intros E; [by rewrite bool_decide_eq_true_2 in E|].
    split; [split; [exact H'|intros _ _ _; exact Hn]|]. right. done.
  - intros p f Hp. wp_run. apply wp_when; intros E; [|by rewrite bool_decide_eq_false_2 in E].
    eapply wp_mono; [apply schedule_ok; try done; by exists p, f; destruct Hp|].
    intros [] m' es [Hi Hsc]. split; [done|]. left. exact Hsc.
Qed.

(** ** A flow sends *)

(** The flow is queued at its own time if it was the last to send, and at
    least at the current time otherwise. *)
Definition enqueued m (p : positive) (data : bytes) m1 : Prop :=
  ∃ f t, flows m !! p = Some f ∧
    (if decide (previous_flow m = Some p) then t = time f else ∃ c, current m c ∧ t = Z.max (time f) c) ∧
    notree m1 = notree (m
      <| previous_flow := if decide (previous_flow m = Some p) then None else previous_flow m |>
      <| flows := <[p := f <| time := t |> <| queued_data := data |> <| is_queued := true |>]> (flows m) |>).

Definition send_post m (p : positive) (data : bytes) m' (es : list call) : Prop :=
  ∃ m1, enqueued m p data m1 ∧
    if bool_decide (sending_flow m = None) && negb (schedule_job m) then sched m1 m' es else m' = m1 ∧ es = [].

(** No active flow is behind the one that is sending. *)
Lemma sending_current m p f c : base ok m → sending_flow m = Some p → flows m !! p = Some f →
  current m c → c = time f.
Proof.
  intros H Hs Ef Hc. destruct (i_send _ _ H p Hs) as (Hp & _ & _ & f' & Ef' & _ & Hmin). simplify_eq.
  destruct Hc as [(q & g & [Eg Ha] & <- & Hle)|[_ Hn]]; [|by destruct (Hn p f); split; auto].
  assert (time g ≤ time f) by (apply (Hle p); split; auto).
  destruct Ha as [Hg|[Hg|Hg]]; [|congruence..]. assert (time f ≤ time g) by by apply (Hmin q). lia.
Qed.

Definition entry_time m (p : positive) (f : PacketPassFairQueueFlow) (t : Z) : Prop :=
  if decide (previous_flow m = Some p) then t = time f else ∃ c, current m c ∧ t = Z.max (time f) c.

Lemma raise_time_ok m p f : base ok m → flows m !! p = Some f → 
  wp (if bool_decide (previous_flow m = Some p) then modify (λ m, m <| previous_flow := None |>)
      else t ← get_current_time; set_flow p (λ f, f <| time := bmax_uint64 (time f) t |>)) m
    (λ _ m1 es, es = [] ∧ ∃ t, entry_time m p f t ∧ ok t ∧
      m1 = m <| previous_flow := if decide (previous_flow m = Some p) then None else previous_flow m |>
             <| flows := <[p := f <| time := t |>]> (flows m) |>).
Proof using ok0.
  intros H Ef. unfold entry_time. destruct (decide (previous_flow m = Some p)) as [Hp|Hp].
  - rewrite bool_decide_eq_true_2 by done. wp_run. split; [done|]. exists (time f).
    split; [done|]. split; [by apply (i_time _ _ H p)|].
    replace (<[p := f <| time := time f |>]> (flows m)) with (flows m); [done|].
    symmetry. apply insert_id. rewrite Ef. by destruct f.
  - rewrite bool_decide_eq_false_2 by done. wp_step. apply current_time_ok; [done|]. intros c Hc Hok.
    eapply wp_set_flow; [done|]. split; [done|]. rewrite bmax_uint64_max. exists (Z.max (time f) c).
    split; [eauto|]. split; [|by destruct m]. pose proof (i_time _ _ H p f Ef).
    destruct (Z.max_spec (time f) c) as [[_ ->]|[_ ->]]; done.
Qed.

Lemma enqueue_base m p f t data t' : base ok m → flows m !! p = Some f → is_queued f = false →
  sending_flow m ≠ Some p → len data ≤ output_mtu m → entry_time m p f t → ok t →
  let f' := f <| time := t |> <| queued_data := data |> <| is_queued := true |> in
  tree_ok (<[p := f']> (flows m)) t' →
  base ok (m <| previous_flow := if decide (previous_flow m = Some p) then None else previous_flow m |>
             <| flows := <[p := f']> (flows m) |> <| queued_tree := t' |>).
Proof.
  intros H Ef Hf Hs Hd Ht Hok f' Htree. destruct (H) as [H1 H2 H3 H4 H5 H6 H7 H8]. split; cbn; try done.
  - intros q. rewrite H2. destruct (decide (q = p)) as [->|]; [|by rewrite lookup_insert_ne].
    rewrite lookup_insert_eq, Ef. split; by eexists.
  - intros q g. destruct (decide (q = p)) as [->|]; [|rewrite lookup_insert_ne by done; apply H4].
    rewrite lookup_insert_eq. by intros [= <-].
  - intros q g [(_ & -> & _)|[_ Hg]]%queued_insert; [done|]. by apply (H5 q).
  - intros q Hq. destruct (H6 q Hq) as (Hp & Hj & Hl & g & Eg & Hg & Hmin).
    unfold entry_time in Ht. rewrite Hp in Ht |- *. destruct (decide (None = Some p)) as [|_]; [done|]. split_and!; try done; try lia.
    exists g. rewrite lookup_insert_ne by congruence. split_and!; try done.
    intros q' g' [(_ & -> & _)|[_ Hg']]%queued_insert; [|by apply (Hmin q')]. cbn.
    destruct Ht as (c & Hc & ->). rewrite (sending_current m q g c) by done. lia.
  - intros q Hq. destruct (decide (previous_flow m = Some p)) as [|Hne]; [done|].
    destruct (H7 q Hq) as (? & ? & g & Eg & Hg). split_and!; try done. exists g.
    rewrite lookup_insert_ne by congruence. done.
Qed.

Lemma input_send_ok m p f data : inv ok m → flows m !! p = Some f → is_queued f = false →
  sending_flow m ≠ Some p → freeing m = false → len data ≤ output_mtu m →
  wp (input_handler_send p data) m (λ _ m' es, inv ok m' ∧ send_post m p data m' es).
Proof using ok0.
  intros [H Hb] Ef Hf Hs Hfr Hd. unfold input_handler_send. wp_step. wp_step. wp_step.
  eapply wp_get_flow; [done|]. wp_step.
  apply wp_assert; [by rewrite bool_decide_eq_false_2|]. wp_run.
  eapply wp_mono; [by apply raise_time_ok|]. intros [] m1 es1 (-> & t & Ht & Hok & ->).
  set (f1 := f <| time := t |> <| queued_data := data |>). set (pv := if decide (previous_flow m = Some p) then _ else _).
  assert (tree_ok (<[p := f1]> (flows m)) (queued_tree m)) as Ht1 by (by eapply tree_idle; [apply H|..]).
  wp_step. eapply wp_set_flow; [apply lookup_insert_eq|]. wp_step.
  lazymatch goal with |- wp _ ?s _ => replace s with (m <| previous_flow := pv |> <| flows := <[p := f1]> (flows m) |>)
    by (destruct m; cbn; by rewrite insert_insert_eq) end.
  eapply (wp_insert _ p f1); [exact Ht1|apply lookup_insert_eq|done|]. intros t' Ht'. wp_run.
  eapply wp_set_flow; [apply lookup_insert_eq|]. wp_step.
  set (m1 := m <| previous_flow := pv |> <| flows := <[p := f1 <| is_queued := true |>]> (flows m) |> <| queued_tree := t' |>).
  lazymatch goal with |- wp _ ?s _ => replace s with m1 by (destruct m; cbn; by rewrite insert_insert_eq) end.
  cbn [flows upd] in Ht'. rewrite insert_insert_eq in Ht'.
  pose proof (enqueue_base m p f t data t' H Ef Hf Hs Hd Ht Hok Ht') as H'. fold pv in H'. change (base ok m1) in H'.
  assert (enqueued m p data m1) as He by (exists f, t; done).
  unfold send_post. wp_run. change (sending_flow m1) with (sending_flow m). change (schedule_job m1) with (schedule_job m).
  destruct (_ && _) eqn:Eb.
  - apply andb_true_iff in Eb as [Hs'%bool_decide_eq_true Hj%negb_true_iff]. cbn [when].
    eapply wp_mono; [apply schedule_ok; try done|].
    + cbn. subst pv. destruct (decide _); [done|]. destruct (previous_flow m) as [q|] eqn:Eq; [|done].
      destruct (i_prev _ _ H q Eq) as (_ & ? & _). congruence.
    + exists p, (f1 <| is_queued := true |>). split; [apply lookup_insert_eq|done].
    + intros [] m' es [Hi Hsc]. split; [done|]. by exists m1.
  - cbn [when]. wp_run. split; [|by exists m1]. split; [done|]. intros Hs1 Hj1. cbn in Hs1, Hj1.
    apply andb_false_iff in Eb as [Eb|Eb]; [by apply bool_decide_eq_false in Eb|by rewrite Hj1 in Eb].
Qed.
End ops.

(** ** Accounting for a sent packet *)

(** The times after [flow] sent [amount], shifted down by [s]. *)
Definition bump (s : Z) (flow : positive) (amount : Z) (p : positive) (f : PacketPassFairQueueFlow) :=
  f <| time := if decide (p = flow) then time f + amount - s else Z.max 0 (time f - s) |>.
Definition bumped (s : Z) (flow : positive) (amount : Z) fl : gmap positive PacketPassFairQueueFlow :=
  map_imap (λ p f, Some (bump s flow amount p f)) fl.

Lemma lookup_bumped s flow amount fl p : bumped s flow amount fl !! p = bump s flow amount p <$> fl !! p.
Proof. unfold bumped. rewrite map_lookup_imap. by destruct (fl !! p). Qed.

Lemma time_bump_self s flow amount f : time (bump s flow amount flow f) = time f + amount - s.
Proof. unfold bump. cbn. by destruct (decide (flow = flow)). Qed.
Lemma time_bump_other s flow amount p f : p ≠ flow → time (bump s flow amount p f) = Z.max 0 (time f - s).
Proof. intros Hp. unfold bump. cbn. by destruct (decide (p = flow)). Qed.

(** The same queue with unbounded times would just add. *)
Definition increment_exact (flow : positive) (amount : Z) : prog (PacketPassFairQueue T) call unit :=
  set_flow flow (λ f, f <| time := time f + amount |>).

(** What [output_handler_done] needs of the accounting. *)
Definition accounts (ok : Z → Prop) (limit : Prop) (increment : positive → Z → prog (PacketPassFairQueue T) call unit) : Prop :=
  ∀ m flow f amount, 0 < amount ≤ FAIRQUEUE_MAX_TIME → store ok m → flows m !! flow = Some f → is_queued f = false →
    sending_flow m = None → (∀ q g, queued (flows m) q g → time f ≤ time g) →
    wp (increment flow amount) m (λ _ m' es, es = [] ∧ ∃ s, 0 ≤ s ∧
      (s ≠ 0 → limit ∧ FAIRQUEUE_MAX_TIME < time f + amount) ∧
      ok (time f + amount - s) ∧ (∀ q g, queued (flows m) q g → s ≤ time g) ∧
      m' = m <| flows := bumped s flow amount (flows m) |>).

Lemma increment_exact_ok : accounts (λ t, 0 ≤ t) False increment_exact.
Proof.
  intros m flow f amount Ha H Ef Hf _ _. unfold increment_exact. eapply wp_set_flow; [done|]. split; [done|].
  exists 0. pose proof (st_time _ _ H _ _ Ef) as Ht. cbn in Ht. split_and!; try done; try lia.
  - intros q g [Eg _]. by apply (st_time _ _ H q).
  - f_equal. apply map_eq. intros p. rewrite lookup_bumped. unfold bump. destruct (decide (p = flow)) as [->|].
    + rewrite lookup_insert_eq, Ef. cbn. by rewrite Z.sub_0_r.
    + rewrite lookup_insert_ne by done. destruct (flows m !! p) as [g|] eqn:Eg; [|done]. cbn.
      pose proof (st_time _ _ H _ _ Eg). rewrite Z.sub_0_r, Z.max_r by done. by destruct g.
Qed.

(** The loop over the flows. *)
Definition reduce (s : Z) (flow p : positive) (f : PacketPassFairQueueFlow) : PacketPassFairQueueFlow :=
  if (time f <? s) && negb (bool_decide (p = flow)) then f <| time := 0 |> else f <| time := u64 (time f - s) |>.

Lemma subtract_time_ok s flow l m : NoDup l → (∀ p, p ∈ l → is_Some (flows m !! p)) →
  (∀ q g, q ∈ l → queued (flows m) q g → s ≤ time g) →
  wp (subtract_time s flow l) m (λ _ m' es, es = [] ∧ ∃ fl', m' = m <| flows := fl' |> ∧
    ∀ p, fl' !! p = if decide (p ∈ l) then reduce s flow p <$> flows m !! p else flows m !! p).
Proof.
  revert m. induction l as [|p l IH]; intros m Hn Hl Hq; cbn [subtract_time].
  - wp_run. split; [done|]. exists (flows m). by destruct m.
  - apply NoDup_cons in Hn as [Hp Hn]. destruct (Hl p) as [f Ef]; [left|]. wp_step. eapply wp_get_flow; [done|]. wp_step.
    assert (wp (if (time f <? s) && negb (bool_decide (p = flow)) then
         ASSERT (negb (is_queued f));; set_flow p (λ f, f <| time := 0 |>)
       else set_flow p (λ f, f <| time := u64 (time f - s) |>)) m
      (λ _ m' es, es = [] ∧ m' = m <| flows := <[p := reduce s flow p f]> (flows m) |>)) as Hstep.
    { unfold reduce. destruct (_ && _) eqn:E; [|by eapply wp_set_flow].
      apply andb_true_iff in E as [E%Z.ltb_lt _]. wp_step. apply wp_assert; [|by eapply wp_set_flow].
      destruct (is_queued f) eqn:Eq; [|done]. specialize (Hq p f (list_elem_of_here _ _) (conj Ef Eq)). lia. }
    eapply wp_mono; [exact Hstep|]. intros [] m1 es1 [-> ->].
    eapply wp_mono; [apply IH; [done|..]|].
    + intros q Hq'. cbn. rewrite lookup_insert_ne by (intros ->; done). apply Hl. by right.
    + intros q g Hql. cbn. intros [(-> & _)|[_ Hg]]%queued_insert; [done|]. apply (Hq q); [by right|done].
    + intros [] m2 es2 (-> & fl' & -> & Hfl). split; [done|]. exists fl'. split; [by destruct m|].
      intros q. rewrite Hfl. cbn. destruct (decide (q = p)) as [->|Hne].
      * rewrite decide_False by done. rewrite decide_True by left. by rewrite lookup_insert_eq, Ef.
      * rewrite lookup_insert_ne by done. destruct (decide (q ∈ l)).
        -- by rewrite decide_True by by right.
        -- by rewrite decide_False by (intros [|]%elem_of_cons; done).
Qed.

Definition u64_time (t : Z) : Prop := 0 ≤ t ≤ FAIRQUEUE_MAX_TIME.

Lemma reduce_other s flow p f : u64_time (time f) → 0 ≤ s → p ≠ flow →
  reduce s flow p f = f <| time := Z.max 0 (time f - s) |>.
Proof.
  unfold u64_time, FAIRQUEUE_MAX_TIME, UINT64_MAX. intros Ht Hs Hp. unfold reduce.
  rewrite bool_decide_eq_false_2, andb_true_r by done. destruct (Z.ltb_spec (time f) s).
  - by rewrite Z.max_l by lia.
  - unfold u64. rewrite Z.mod_small, Z.max_r by lia. done.
Qed.
Lemma reduce_self s flow f : reduce s flow flow f = f <| time := u64 (time f - s) |>.
Proof. unfold reduce. by rewrite bool_decide_eq_true_2, andb_false_r. Qed.

Lemma subtract_bumped s flow f amount fl fl' : (∀ p g, fl !! p = Some g → u64_time (time g)) → fl !! flow = Some f →
  0 ≤ s ≤ FAIRQUEUE_MAX_TIME → time f ≤ s → 0 < amount ≤ FAIRQUEUE_MAX_TIME → FAIRQUEUE_MAX_TIME < time f + amount →
  (∀ p, fl' !! p = reduce s flow p <$> fl !! p) →
  <[flow := f <| time := u64 (u64 (time f - s) + amount) |>]> fl' = bumped s flow amount fl.
Proof.
  intros Ht Ef Hs Hfs Ha Ho Hfl. apply map_eq. intros p. rewrite lookup_bumped. unfold bump.
  destruct (decide (p = flow)) as [->|Hne].
  - rewrite lookup_insert_eq, Ef. cbn. do 2 f_equal. unfold u64, FAIRQUEUE_MAX_TIME, UINT64_MAX in *.
    rewrite Zplus_mod_idemp_l. pose proof (Ht _ _ Ef) as []. rewrite Z.mod_small; lia.
  - rewrite lookup_insert_ne, Hfl by done. destruct (fl !! p) as [g|] eqn:Eg; [|done]. cbn.
    by rewrite reduce_other by (try done; try lia; by apply (Ht p)).
Qed.

Lemma increment_sent_flow_ok : accounts u64_time True increment_sent_flow.
Proof.
  intros m flow f amount Ha H Ef Hf Hs Hmin. pose proof (st_time _ _ H _ _ Ef) as Ht.
  unfold increment_sent_flow. wp_step. wp_step. wp_step. eapply wp_get_flow; [done|]. wp_run.
  apply wp_when; intros Eo.
  - apply Z.ltb_lt in Eo.
    assert (∀ s, time f ≤ s → u64_time s → (∀ q g, queued (flows m) q g → s ≤ time g) →
      wp (subtract_time s flow (flows_list m)) m (λ _ m1 es1, es1 = [] ∧
        wp (set_flow flow (λ f, f <| time := u64 (time f + amount) |>)) m1 (λ _ m' es, es = [] ∧ ∃ s, 0 ≤ s ∧
          (s ≠ 0 → True ∧ FAIRQUEUE_MAX_TIME < time f + amount) ∧ u64_time (time f + amount - s) ∧
          (∀ q g, queued (flows m) q g → s ≤ time g) ∧ m' = m <| flows := bumped s flow amount (flows m) |>))) as Hsub.
    { intros s Hfs [Hs0 Hs1] Hqs. eapply wp_mono; [apply subtract_time_ok; [apply H|by intros p ?%(st_dom _ _ H)|intros q g _; apply Hqs]|].
      intros [] m1 es1 (-> & fl' & -> & Hfl). split; [done|].
      assert (∀ p, fl' !! p = reduce s flow p <$> flows m !! p) as Hfl'.
      { intros p. rewrite Hfl. destruct (decide (p ∈ flows_list m)) as [|Hp]; [done|].
        rewrite (st_dom _ _ H) in Hp. by destruct (flows m !! p) eqn:E; [destruct Hp; eexists|]. }
      eapply (wp_set_flow _ _ (f <| time := u64 (time f - s) |>)).
      { change (fl' !! flow = Some (f <| time := u64 (time f - s) |>)). rewrite Hfl', Ef. apply (f_equal Some), reduce_self. }
      split; [done|]. exists s. unfold u64_time in *. split; [done|]. split; [intros _; split; [done|lia]|].
      split; [lia|]. split; [done|]. cbn. rewrite <- (subtract_bumped s flow f amount (flows m) fl'); try done; [apply (st_time _ _ H)|lia]. }
    wp_step. apply wp_first; [apply H|..].
    + intros Hn. wp_run. eapply wp_mono; [apply (Hsub (time f)); [lia|done|by intros q g Hq; destruct (Hn q g)]|].
      intros [] m1 es1 [-> Hw]. exact Hw.
    + intros q g [Hg Hle]. wp_step. wp_step. eapply wp_get_flow; [apply Hg|]. destruct Hg as [Eg Hg]. wp_run.
      eapply wp_mono; [apply (Hsub (time g)); [by apply (Hmin q)|by apply (st_time _ _ H q)|]|].
      * intros q' g' Hq'. destruct (Hle q' g' Hq'); lia.
      * intros [] m1 es1 [-> Hw]. exact Hw.
  - apply Z.ltb_ge in Eo. eapply wp_set_flow; [done|]. split; [done|]. exists 0. unfold u64_time in *.
    split_and!; try done; try lia.
    + intros q g [Eg _]. by apply (st_time _ _ H q).
    + f_equal. apply map_eq. intros p. rewrite lookup_bumped. unfold bump. destruct (decide (p = flow)) as [->|].
      * rewrite lookup_insert_eq, Ef. cbn. rewrite Z.sub_0_r. unfold u64, FAIRQUEUE_MAX_TIME, UINT64_MAX in *.
        by rewrite Z.mod_small by lia.
      * rewrite lookup_insert_ne by done. destruct (flows m !! p) as [g|] eqn:Eg; [|done]. cbn.
        pose proof (st_time _ _ H _ _ Eg) as [? _]. rewrite Z.sub_0_r, Z.max_r by done. by destruct g.
Qed.

(** ** A packet is done *)

Definition settled (s : Z) (flow : positive) (amount : Z) fl : gmap positive PacketPassFairQueueFlow :=
  alter (λ f, f <| handler_busy := false |>) flow (bumped s flow amount fl).

Definition done_post (limit : Prop) m m' (es : list call) : Prop :=
  ∃ flow f s, let amount := packet_weight m + sending_len m in
    sending_flow m = Some flow ∧ flows m !! flow = Some f ∧ 0 ≤ s ∧
    (s ≠ 0 → limit ∧ FAIRQUEUE_MAX_TIME < time f + amount) ∧
    (∀ q g, queued (flows m) q g → s ≤ time g) ∧
    es = Input_Done flow :: (if handler_busy f then [call_handler_busy flow] else []) ∧
    m' = m <| sending_flow := None |> <| previous_flow := Some flow |>
           <| flows := settled s flow amount (flows m) |> <| schedule_job := true |>.

Lemma lookup_settled s flow amount fl p : settled s flow amount fl !! p =
  (λ f, if decide (p = flow) then bump s flow amount p f <| handler_busy := false |> else bump s flow amount p f)
    <$> fl !! p.
Proof.
  unfold settled. destruct (decide (p = flow)) as [->|Hne].
  - rewrite lookup_alter_eq, lookup_bumped. by destruct (fl !! flow).
  - by rewrite lookup_alter_ne, lookup_bumped by done.
Qed.

Section done.
Context (ok : Z → Prop) (limit : Prop) (increment : positive → Z → prog (PacketPassFairQueue T) call unit).
Context (Hacc : accounts ok limit increment).
Context (ok_down : ∀ t s, ok t → 0 ≤ s → ok (Z.max 0 (t - s))).

Lemma settled_base m flow f s : base ok m → sending_flow m = Some flow → flows m !! flow = Some f →
  let amount := packet_weight m + sending_len m in
  0 ≤ s → ok (time f + amount - s) → (∀ q g, queued (flows m) q g → s ≤ time g) →
  base ok (m <| sending_flow := None |> <| previous_flow := Some flow |>
           <| flows := settled s flow amount (flows m) |> <| schedule_job := true |>).
Proof using ok_down.
  intros H Hs Ef amount Hs0 Hok Hqs. destruct (i_send _ _ H flow Hs) as (Hp & Hj & Hl & f' & Ef' & Hf & Hmin).
  simplify_eq. destruct H as [H1 H2 H3 H4 H5 _ _ H8].
  assert (∀ p g, queued (settled s flow amount (flows m)) p g → ∃ g', queued (flows m) p g' ∧ p ≠ flow ∧
    g = bump s flow amount p g') as Hq.
  { intros p g [Eg Hg]. rewrite lookup_settled in Eg. destruct (flows m !! p) as [g'|] eqn:E; [|done].
    cbn in Eg. injection Eg as <-. destruct (decide (p = flow)) as [->|]; [cbn in Hg; congruence|].
    exists g'. split_and!; try done. }
  split; cbn; try done.
  - intros p. rewrite H2, lookup_settled. by rewrite fmap_is_Some.
  - apply (tree_shift s (flows m)); [done|..].
    + intros p g Hg. assert (p ≠ flow) as Hne by (intros ->; destruct Hg; congruence).
      exists (bump s flow amount p g). split; [split|].
      * rewrite lookup_settled, (proj1 Hg). cbn. by rewrite decide_False.
      * apply Hg.
      * rewrite time_bump_other by done. pose proof (Hqs _ _ Hg). lia.
    + intros p g Hg. destruct (Hq _ _ Hg) as (g' & ? & _). eauto.
  - intros p g. rewrite lookup_settled. destruct (flows m !! p) as [g'|] eqn:E; [|done]. cbn. intros [= <-].
    destruct (decide (p = flow)) as [->|Hne].
    + rewrite Ef in E. injection E as <-. exact Hok.
    + rewrite time_bump_other by done. apply ok_down; [by apply (H4 p)|done].
  - intros p g Hg. destruct (Hq _ _ Hg) as (g' & Hg' & _ & ->). by apply (H5 p g').
  - intros p [= <-]. split_and!; try done. rewrite lookup_settled, Ef. cbn. rewrite decide_True by done.
    eexists. split; [done|]. done.
Qed.

Lemma fair_output_done_ok m flow : inv ok m → sending_flow m = Some flow → freeing m = false →
  wp (output_handler_done_with increment) m (λ _ m' es, inv ok m' ∧ done_post limit m m' es).
Proof using Hacc ok_down.
  intros [H _] Hs Hfr. pose proof (i_send _ _ H flow Hs) as (Hp & Hj & Hl & f & Ef & Hf & Hmin).
  destruct (i_cfg _ _ H) as (Hw & Hm & Hwm).
  unfold output_handler_done_with. wp_step. wp_step. rewrite Hs. wp_step. eapply wp_get_flow; [done|]. wp_run.
  set (m1 := m <| sending_flow := None |> <| previous_flow := Some flow |>).
  eapply wp_mono; [eapply (Hacc m1 flow f); try done; [lia|by destruct (base_store _ _ H); split]|].
  intros [] m2 es2 (-> & s & Hs0 & Hlim & Hok & Hqs & ->). wp_run.
  pose proof (settled_base m flow f s H Hs Ef Hs0 Hok Hqs) as Hb.
  set (m' := m <| sending_flow := None |> <| previous_flow := Some flow |> <| flows := _ |> <| schedule_job := true |>) in Hb.
  assert (∀ es, es = Input_Done flow :: (if handler_busy f then [call_handler_busy flow] else []) →
    inv ok m' ∧ done_post limit m m' es) as Hend.
  { intros es ->. split; [by split|]. exists flow, f, s. done. }
  apply wp_when; intros Eh; rewrite Eh in Hend.
  - wp_step. set (b := bump s flow (packet_weight m + sending_len m) flow f). eapply (wp_set_flow _ _ b).
    { etrans; [apply lookup_bumped|]. cbn [flows upd m1]. by rewrite Ef. }
    wp_run. lazymatch goal with |- inv ok ?x ∧ _ => replace x with m'; [by apply Hend|] end.
    subst m'. destruct m. cbn in Ef |- *. f_equal. unfold settled. apply map_eq. intros p.
    destruct (decide (p = flow)) as [->|].
    + by rewrite lookup_alter_eq, lookup_insert_eq, lookup_bumped, Ef.
    + by rewrite lookup_alter_ne, lookup_insert_ne.
  - wp_run. lazymatch goal with |- inv ok ?x ∧ _ => replace x with m'; [by apply Hend|] end.
    subst m'. destruct m. cbn in Ef |- *. f_equal. unfold settled. apply map_eq. intros p.
    destruct (decide (p = flow)) as [->|]; [|by rewrite lookup_alter_ne].
    rewrite lookup_alter_eq, lookup_bumped, Ef. unfold bump; cbn; by rewrite Eh.
Qed.
End done.

(** ** Flows come and go *)

Section flows.
Context (ok : Z → Prop) (ok0 : ok 0).

Definition flow_init_post m (p : positive) m' : Prop :=
  m' = m <| flows := <[p := MkFlow false 0 false []]> (flows m) |> <| flows_list := flows_list m ++ [p] |>.

Lemma fair_flow_init_ok m p : inv ok m → flows m !! p = None → freeing m = false →
  wp (PacketPassFairQueueFlow_Init p) m (λ _ m' es, inv ok m' ∧ flow_init_post m p m' ∧ es = []).
Proof using ok0.
  intros [H Hb] Hp Hfr. unfold PacketPassFairQueueFlow_Init. wp_run. split; [|done].
  assert (∀ q g, queued (<[p := MkFlow false 0 false []]> (flows m)) q g ↔ queued (flows m) q g) as Hq.
  { intros q g. rewrite queued_insert. split; [intros [(_ & _ & ?)|[_ ?]]; done|]. intros Hg. right.
    split; [|done]. intros ->. destruct Hg. congruence. }
  destruct H as [H1 H2 H3 H4 H5 H6 H7 H8]. split; [split|]; cbn; try done.
  - apply NoDup_app. split_and!; [done| |apply NoDup_singleton]. intros q Hq' ->%list_elem_of_singleton.
    apply H2 in Hq' as [? ?]. congruence.
  - intros q. rewrite elem_of_app, list_elem_of_singleton, H2. destruct (decide (q = p)) as [->|].
    + rewrite lookup_insert_eq. split; [by eexists|by right].
    + rewrite lookup_insert_ne by done. naive_solver.
  - apply (tree_shift 0 (flows m)); [done|..]; intros q g; setoid_rewrite Hq; [intros Hg; exists g; split; [done|lia]|eauto].
  - intros q g. destruct (decide (q = p)) as [->|]; [|rewrite lookup_insert_ne by done; apply H4].
    rewrite lookup_insert_eq. by intros [= <-].
  - intros q g Hg%Hq. by apply (H5 q).
  - intros q Hs. destruct (H6 q Hs) as (? & ? & ? & g & Eg & ? & Hmin). split_and!; try done; try lia.
    exists g. rewrite lookup_insert_ne by congruence. split_and!; try done. intros q' g' Hg%Hq. by apply (Hmin q').
  - intros q Hs. destruct (H7 q Hs) as (? & ? & g & Eg & ?). split_and!; try done.
    exists g. rewrite lookup_insert_ne by congruence. done.
  - intros Hs Hj Hf q g Hg%Hq. by apply (Hb Hs Hj Hf q g).
Qed.

Definition drop_if (p : positive) (o : option positive) : option positive :=
  if bool_decide (o = Some p) then None else o.
Definition flow_free_post m (p : positive) m' : Prop :=
  notree m' = notree (m <| sending_flow := drop_if p (sending_flow m) |>
    <| previous_flow := drop_if p (previous_flow m) |>
    <| flows_list := filter (λ q, q ≠ p) (flows_list m) |> <| flows := delete p (flows m) |>).

Lemma drop_if_some p o q : drop_if p o = Some q → o = Some q ∧ q ≠ p.
Proof. unfold drop_if. destruct (bool_decide_reflect (o = Some p)) as [->|]; [done|]. intros ->. naive_solver. Qed.
Lemma drop_if_none p o : drop_if p o = None → o = None ∨ o = Some p.
Proof. unfold drop_if. destruct (bool_decide_reflect (o = Some p)) as [->|]; auto. Qed.

Lemma flow_free_base m p f t' : inv ok m → flows m !! p = Some f →
  freeing m = true ∨ sending_flow m ≠ Some p → tree_ok (delete p (flows m)) t' →
  inv ok (m <| sending_flow := drop_if p (sending_flow m) |> <| previous_flow := drop_if p (previous_flow m) |>
    <| queued_tree := t' |>
    <| flows_list := filter (λ q, q ≠ p) (flows_list m) |> <| flows := delete p (flows m) |>).
Proof.
  intros [H Hb] Ef Hfr Ht. destruct H as [H1 H2 H3 H4 H5 H6 H7 H8].
  assert (∀ q g, queued (delete p (flows m)) q g ↔ q ≠ p ∧ queued (flows m) q g) as Hq.
  { intros q g. unfold queued. rewrite lookup_delete_Some. naive_solver. }
  split; [split|]; cbn; try done.
  - by apply NoDup_filter.
  - intros q. rewrite list_elem_of_filter, H2. destruct (decide (q = p)) as [->|].
    + rewrite lookup_delete_eq. split; [naive_solver|by intros [??]].
    + rewrite lookup_delete_ne by done. naive_solver.
  - intros q g [_ Eg]%lookup_delete_Some. by apply (H4 q).
  - intros q g [_ Hg]%Hq. by apply (H5 q).
  - intros q [Hs Hne]%drop_if_some. destruct (H6 q Hs) as (Hpv & ? & ? & g & Eg & ? & Hmin). rewrite Hpv.
    split_and!; try done; try lia. exists g. rewrite lookup_delete_ne by done. split_and!; try done.
    intros q' g' [_ Hg]%Hq. by apply (Hmin q').
  - intros q [Hs Hne]%drop_if_some. destruct (H7 q Hs) as (Hsn & ? & g & Eg & ?). rewrite Hsn. split_and!; try done.
    exists g. by rewrite lookup_delete_ne.
  - intros [Hs|Hs]%drop_if_none Hj Hf q g [_ Hg]%Hq; [by apply (Hb Hs Hj Hf q g)|]. cbn in Hf. naive_solver congruence.
Qed.

Lemma flow_free_ok m p f : inv ok m → flows m !! p = Some f → freeing m = true ∨ sending_flow m ≠ Some p →
  wp (PacketPassFairQueueFlow_Free p) m (λ _ m' es, inv ok m' ∧ flow_free_post m p m' ∧ es = []).
Proof.
  intros H Ef Hfr. unfold PacketPassFairQueueFlow_Free. wp_step. wp_step. wp_step. eapply wp_get_flow; [done|]. wp_step.
  apply wp_assert.
  { destruct Hfr as [->|Hn]; [done|]. by rewrite bool_decide_eq_false_2, orb_true_r. }
  set (m1 := m <| sending_flow := drop_if p (sending_flow m) |> <| previous_flow := drop_if p (previous_flow m) |>).
  assert (∀ Q : unit → PacketPassFairQueue T → list call → Prop, wp (when (is_queued f) (Tree_Remove p);;
    modify (λ m, m <| flows_list := filter (λ q, q ≠ p) (flows_list m) |>);;
    modify (λ m, m <| flows := delete p (flows m) |>)) m1 Q →
    wp (when (bool_decide (sending_flow m = Some p)) (modify (λ m, m <| sending_flow := None |>));;
      when (bool_decide (previous_flow m = Some p)) (modify (λ m, m <| previous_flow := None |>));;
      when (is_queued f) (Tree_Remove p);;
      modify (λ m, m <| flows_list := filter (λ q, q ≠ p) (flows_list m) |>);;
      modify (λ m, m <| flows := delete p (flows m) |>)) m Q) as Hdrop.
  { intros Q HQ. subst m1. unfold drop_if in HQ. wp_step.
    destruct (bool_decide (sending_flow m = Some p)); cbn [when]; wp_step; wp_step;
      destruct (bool_decide (previous_flow m = Some p)); cbn [when]; wp_step; (eapply wp_mono; [|intros [] ? ? HR; exact HR]);
      destruct m; exact HQ. }
  apply Hdrop. wp_step. destruct (is_queued f) eqn:Eq; cbn [when].
  - destruct (tree_remove _ _ p f (i_tree _ _ (proj1 H)) (conj Ef Eq)) as (t' & Er & _ & Ht').
    eapply wp_update; [cbn; by rewrite Er|]. wp_run. split; [|done]. by apply (flow_free_base m p f t').
  - wp_run. split; [|done].
    pose proof (flow_free_base m p f (queued_tree m) H Ef Hfr (tree_delete _ _ p f (i_tree _ _ (proj1 H)) Ef Eq)) as Hi.
    by destruct m.
Qed.
End flows.

(** ** Executions *)

Inductive label :=
  | LSend (p : positive) (data : bytes)
  | LDone
  | LJob
  | LFlowInit (p : positive)
  | LFlowFree (p : positive)
  | LRequestCancel (p : positive)
  | LSetBusyHandler (p : positive) (handler : bool)
  | LPrepareFree.

(** The input of a flow takes one packet at a time, the output reports what it
    was given, and nothing but freeing happens in freeing state. *)
Definition enabled (l : label) m : Prop :=
  match l with
  | LSend p data => (∃ f, flows m !! p = Some f ∧ is_queued f = false) ∧ sending_flow m ≠ Some p ∧
      freeing m = false ∧ len data ≤ output_mtu m
  | LDone => is_Some (sending_flow m) ∧ freeing m = false
  | LJob => schedule_job m = true ∧ freeing m = false
  | LFlowInit p => flows m !! p = None ∧ freeing m = false
  | LFlowFree p => is_Some (flows m !! p) ∧ (freeing m = true ∨ sending_flow m ≠ Some p)
  | LRequestCancel p => sending_flow m = Some p ∧ use_cancel m = true ∧ freeing m = false
  | LSetBusyHandler p _ => sending_flow m = Some p ∧ freeing m = false
  | LPrepareFree => True
  end.

Definition run (increment : positive → Z → prog (PacketPassFairQueue T) call unit) (l : label)
    : prog (PacketPassFairQueue T) call unit :=
  match l with
  | LSend p data => input_handler_send p data
  | LDone => output_handler_done_with increment
  | LJob => schedule_job_handler
  | LFlowInit p => PacketPassFairQueueFlow_Init p
  | LFlowFree p => PacketPassFairQueueFlow_Free p
  | LRequestCancel p => PacketPassFairQueueFlow_RequestCancel p
  | LSetBusyHandler p h => PacketPassFairQueueFlow_SetBusyHandler p h
  | LPrepareFree => PacketPassFairQueue_PrepareFree
  end.

Definition effect (limit : Prop) (l : label) m m' (es : list call) : Prop :=
  match l with
  | LSend p data => send_post m p data m' es
  | LDone => done_post limit m m' es
  | LJob => job_post m m' es
  | LFlowInit p => flow_init_post m p m' ∧ es = []
  | LFlowFree p => flow_free_post m p m' ∧ es = []
  | LRequestCancel _ => m' = m ∧ es = [Sender_RequestCancel]
  | LSetBusyHandler p h => es = [] ∧ ∃ f, flows m !! p = Some f ∧
      m' = m <| flows := <[p := f <| handler_busy := h |>]> (flows m) |>
  | LPrepareFree => m' = m <| freeing := true |> ∧ es = []
  end.

Lemma inv_same ok m p f h : inv ok m → flows m !! p = Some f →
  inv ok (m <| flows := <[p := f <| handler_busy := h |>]> (flows m) |>).
Proof.
  intros [[H1 H2 H3 H4 H5 H6 H7 H8] Hb] Ef.
  assert (∀ q g, <[p := f <| handler_busy := h |>]> (flows m) !! q = Some g → ∃ g', flows m !! q = Some g' ∧
    time g = time g' ∧ is_queued g = is_queued g' ∧ queued_data g = queued_data g') as Hin.
  { intros q g. destruct (decide (q = p)) as [->|]; [|rewrite lookup_insert_ne by done; eauto].
    rewrite lookup_insert_eq. intros [= <-]. eauto. }
  assert (∀ q g, flows m !! q = Some g → ∃ g', <[p := f <| handler_busy := h |>]> (flows m) !! q = Some g' ∧
    time g' = time g ∧ is_queued g' = is_queued g) as Hout.
  { intros q g. destruct (decide (q = p)) as [->|]; [|rewrite lookup_insert_ne by done; eauto].
    rewrite lookup_insert_eq. intros Eg. simplify_eq. eauto. }
  split; [split|]; cbn; try done.
  - intros q. rewrite H2. split; intros [g Eg]; [destruct (Hout _ _ Eg) as (? & ? & _)|destruct (Hin _ _ Eg) as (? & ? & _)]; eauto.
  - by eapply tree_same.
  - intros q g Eg. destruct (Hin _ _ Eg) as (g' & Eg' & -> & _). by apply (H4 q).
  - intros q g [Eg Hg]. destruct (Hin _ _ Eg) as (g' & Eg' & _ & E1 & ->). apply (H5 q). split; congruence.
  - intros q Hs. destruct (H6 q Hs) as (? & ? & ? & g & Eg & Hg & Hmin). split_and!; try done; try lia.
    destruct (Hout _ _ Eg) as (g' & Eg' & Et & Eq). exists g'. split_and!; [done|congruence|].
    intros q' k [Ek Hk]. destruct (Hin _ _ Ek) as (k' & Ek' & Ekt & Ekq & _). rewrite Et, Ekt. apply (Hmin q'). split; congruence.
  - intros q Hs. destruct (H7 q Hs) as (? & ? & g & Eg & Hg). split_and!; try done.
    destruct (Hout _ _ Eg) as (g' & Eg' & Et & Eq). exists g'. split; [exact Eg'|congruence].
  - intros Hs Hj Hf q g [Eg Hg]. destruct (Hin _ _ Eg) as (g' & Eg' & _ & E1 & _). apply (Hb Hs Hj Hf q g'). split; congruence.
Qed.

Section run.
Context (ok : Z → Prop) (limit : Prop) (increment : positive → Z → prog (PacketPassFairQueue T) call unit).
Context (Hacc : accounts ok limit increment) (ok0 : ok 0).
Context (ok_down : ∀ t s, ok t → 0 ≤ s → ok (Z.max 0 (t - s))).

Lemma run_ok l m : inv ok m → enabled l m →
  wp (run increment l) m (λ _ m' es, inv ok m' ∧ effect limit l m m' es).
Proof using Hacc ok0 ok_down.
  intros H He. destruct l as [p data| | |p|p|p|p h|]; cbn [run effect].
  - destruct He as ((f & Ef & Hf) & Hs & Hfr & Hd). by eapply input_send_ok.
  - destruct He as ([flow Hs] & Hfr). by eapply fair_output_done_ok.
  - destruct He as [Hj Hfr]. by apply schedule_job_ok.
  - destruct He as [Hp Hfr]. by apply fair_flow_init_ok.
  - destruct He as [[f Ef] Hfr]. by eapply flow_free_ok.
  - destruct He as (Hs & Hc & Hfr). destruct (i_send _ _ (proj1 H) p Hs) as (_ & Hj & _).
    unfold PacketPassFairQueueFlow_RequestCancel. wp_run. done.
  - destruct He as [Hs Hfr]. destruct (i_send _ _ (proj1 H) p Hs) as (_ & _ & _ & f & Ef & _).
    unfold PacketPassFairQueueFlow_SetBusyHandler. wp_run. eapply wp_set_flow; [done|].
    split; [by apply inv_same|]. split; [done|]. by exists f.
  - unfold PacketPassFairQueue_PrepareFree. wp_run. split; [|done].
    destruct H as [[] Hb]. split; [by split|]. by intros.
Qed.
End run.

Lemma u64_time_0 : u64_time 0.
Proof. unfold u64_time, FAIRQUEUE_MAX_TIME, UINT64_MAX. lia. Qed.
Lemma u64_time_down t s : u64_time t → 0 ≤ s → u64_time (Z.max 0 (t - s)).
Proof. unfold u64_time. lia. Qed.

Inductive reach : PacketPassFairQueue T → Prop :=
  | reach_init mtu has_cancel use_cancel weight m : 0 ≤ mtu ≤ INT_MAX → weight ≤ INT_MAX →
      PacketPassFairQueue_Init mtu has_cancel use_cancel weight = Some (Some m) → reach m
  | reach_run m l m' es : reach m → enabled l m → run increment_sent_flow l m = Some (tt, m', es) → reach m'.

Lemma tree_empty : tree_ok ∅ (ot_init : T).
Proof.
  exists []. split; [apply ot_init_holds|]. intros p. split; [by intros ?%elem_of_nil|].
  intros (f & Hf & _). by rewrite lookup_empty in Hf.
Qed.

Lemma fairqueue_inv m : reach m → inv u64_time m.
Proof.
  induction 1 as [mtu hc uc w m Hm _ E|m l m' es _ IH He E].
  - unfold PacketPassFairQueue_Init in E. destruct (0 <? w) eqn:Ew; [|done]. destruct (_ || _); [|done].
    destruct (negb (_ && _)) eqn:El; [done|]. injection E as <-. apply negb_false_iff, andb_true_iff in El as [Em El].
    apply Z.leb_le in Em, El. apply Z.ltb_lt in Ew. split; [|by intros _ _ _ p f [? _]].
    split; cbn; try done; [by constructor|..|lia].
    + intros p. rewrite elem_of_nil, lookup_empty. split; [done|by intros []].
    + apply tree_empty.
    + intros p f [? _]. done.
  - pose proof (run_ok _ True _ increment_sent_flow_ok u64_time_0 u64_time_down l m IH He) as Hw.
    unfold wp in Hw. rewrite E in Hw. apply Hw.
Qed.

Lemma queue_free_ok m : inv u64_time m → flows_list m = [] → wp PacketPassFairQueue_Free m (λ _ _ es, es = []).
Proof.
  intros [H _] Hl. assert (∀ p, flows m !! p = None) as Hn.
  { intros p. destruct (flows m !! p) eqn:E; [|done]. assert (p ∈ flows_list m) as Hp by (apply H; eauto).
    rewrite Hl in Hp. by apply elem_of_nil in Hp. }
  assert (sending_flow m = None) as Hs.
  { destruct (sending_flow m) eqn:E; [|done]. destruct (i_send _ _ H _ E) as (_ & _ & _ & f & Ef & _). congruence. }
  assert (previous_flow m = None) as Hp.
  { destruct (previous_flow m) eqn:E; [|done]. destruct (i_prev _ _ H _ E) as (_ & _ & f & Ef & _). congruence. }
  unfold PacketPassFairQueue_Free, Tree_IsEmpty. wp_run. apply wp_first; [apply H|intros _; by wp_run|].
  intros p f [[Ef _] _]. by rewrite Hn in Ef.
Qed.

(** ** Unbounded times

    The queue [r] has unbounded times; in [m] they are lower by [B], and those
    of idle flows at least 0. *)

Definition lower (B : Z) (g : PacketPassFairQueueFlow) : PacketPassFairQueueFlow :=
  g <| time := Z.max 0 (time g - B) |>.

Record shifted (B : Z) m r : Prop := {
  sh_B : 0 ≤ B;
  sh_rest : notree m = notree (r <| flows := lower B <$> flows r |>);
  sh_active : ∀ p g, active r p g → B ≤ time g
}.

Lemma shifted_fields B m r : shifted B m r →
  flows m = lower B <$> flows r ∧ output_mtu m = output_mtu r ∧ use_cancel m = use_cancel r ∧
  packet_weight m = packet_weight r ∧ sending_flow m = sending_flow r ∧ sending_len m = sending_len r ∧
  previous_flow m = previous_flow r ∧ flows_list m = flows_list r ∧ freeing m = freeing r ∧
  schedule_job m = schedule_job r.
Proof. by intros [_ E%notree_eq _]. Qed.

Lemma shifted_lookup B m r p f : shifted B m r → flows m !! p = Some f →
  ∃ g, flows r !! p = Some g ∧ f = lower B g.
Proof. intros (-> & _)%shifted_fields. rewrite lookup_fmap. intros (g & -> & Eg)%fmap_Some. eauto. Qed.

Lemma shifted_active B m r p f : shifted B m r → active m p f → ∃ g, active r p g ∧ f = lower B g.
Proof.
  intros H [Ef Ha]. destruct (shifted_lookup _ _ _ _ _ H Ef) as (g & Eg & ->). exists g. split; [|done].
  apply shifted_fields in H as (_ & _ & _ & _ & E1 & _ & E2 & _). split; [done|].
  change (is_queued (lower B g)) with (is_queued g) in Ha. by rewrite E1, E2 in Ha.
Qed.
Lemma shifted_active' B m r p g : shifted B m r → active r p g → active m p (lower B g).
Proof.
  intros H [Eg Ha]. apply shifted_fields in H as (Ef & _ & _ & _ & E1 & _ & E2 & _).
  split; [by rewrite Ef, lookup_fmap, Eg|]. rewrite E1, E2. exact Ha.
Qed.

Lemma shifted_current B m r c c' : shifted B m r → current m c → current r c' → (∃ p f, active m p f) →
  c' = c + B ∧ 0 ≤ c.
Proof.
  intros H Hc Hc' (p0 & f0 & Ha0).
  destruct Hc as [(p & f & Hf & <- & Hmin)|[_ Hn]]; [|by destruct (Hn p0 f0)].
  destruct (shifted_active _ _ _ _ _ H Hf) as (g & Hg & ->).
  destruct Hc' as [(q & k & Hk & <- & Hmin')|[_ Hn]]; [|by destruct (Hn p g)].
  pose proof (Hmin' _ _ Hg). pose proof (Hmin _ _ (shifted_active' _ _ _ _ _ H Hk)) as Hle.
  pose proof (sh_active _ _ _ H _ _ Hg). pose proof (sh_active _ _ _ H _ _ Hk). cbn in Hle |- *. lia.
Qed.

Lemma shifted_least B m r q g : shifted B m r → least (flows r) q g → least (flows m) q (lower B g).
Proof.
  intros H [[Eg Hg] Hmin]. pose proof (shifted_fields _ _ _ H) as (Ef & _).
  split; [split; [by rewrite Ef, lookup_fmap, Eg|done]|].
  intros p f [E Hf]. destruct (shifted_lookup _ _ _ _ _ H E) as (k & Ek & ->).
  assert (B ≤ time g) by (apply (sh_active _ _ _ H q); split; auto).
  assert (B ≤ time k) by (apply (sh_active _ _ _ H p); split; auto).
  destruct (Hmin p k) as [|[]]; [done|left|right]; cbn; lia.
Qed.

Lemma shifted_sched B m r m' r' es es' : shifted B m r → sched m m' es → sched r r' es' →
  es = es' ∧ shifted B m' r'.
Proof.
  intros H (q & f & Hl & -> & Em) (q' & g & Hl' & -> & Er).
  pose proof (shifted_least _ _ _ _ _ H Hl') as Hl2. pose proof (least_unique _ _ _ _ _ Hl Hl2) as ->.
  destruct Hl as [[E1 _] _], Hl2 as [[E2 _] _]. rewrite E1 in E2. injection E2 as ->. split; [done|].
  destruct Hl' as [[Eg Hg] _]. destruct (H) as [HB Hr Ha]. split; [done|..].
  - assert (flows m' = lower B <$> flows r') as Efl.
    { apply notree_eq in Hr as (F1 & _), Em as (F2 & _), Er as (F3 & _). cbn in F1.
      etrans; [exact F2|]. rewrite F3. cbn [flows upd]. rewrite F1, fmap_insert. done. }
    apply notree_eq in Hr, Em, Er. apply notree_eq. cbn in *. destruct_and!. split_and!; try congruence.
  - intros p k [Ek Hk]. assert (flows r' = <[q' := g <| is_queued := false |>]> (flows r) ∧
      sending_flow r' = Some q' ∧ previous_flow r' = previous_flow r) as (F1 & F2 & F3)
      by (by apply notree_eq in Er as (? & _ & _ & _ & ? & _ & ? & _)).
    rewrite F1 in Ek. rewrite F2, F3 in Hk. destruct (decide (p = q')) as [->|Hne].
    + rewrite lookup_insert_eq in Ek. injection Ek as <-. apply (Ha q' g). split; auto.
    + rewrite lookup_insert_ne in Ek by done. apply (Ha p k). split; [done|].
      destruct Hk as [Hk|[Hk|Hk]]; [by left|congruence|by right; right].
Qed.

Lemma shifted_enqueued B m r p data m1 r1 : shifted B m r → inv (λ t, 0 ≤ t) r →
  B = 0 ∨ (∃ q f, active m q f) → enqueued m p data m1 → enqueued r p data r1 → shifted B m1 r1.
Proof.
  intros H Hi Hact (f & t & Ef & Ht & Em) (g & t' & Eg & Ht' & Er).
  pose proof (shifted_fields _ _ _ H) as (Fl & _ & _ & _ & Fs & _ & Fp & _).
  assert (f = lower B g) as ->. { rewrite Fl, lookup_fmap, Eg in Ef. by injection Ef. }
  assert (B ≤ t' ∧ t = t' - B) as [Hbt ->].
  { rewrite Fp in Ht. destruct (decide (previous_flow r = Some p)) as [Hp|Hp].
    - subst t t'. assert (B ≤ time g) by (apply (sh_active _ _ _ H p); split; auto). cbn. lia.
    - destruct Ht as (c & Hc & ->), Ht' as (c' & Hc' & ->). pose proof (i_time _ _ (proj1 Hi) _ _ Eg) as Hg0.
      cbn in Hg0 |- *. destruct (decide (B = 0)) as [->|HB].
      + assert (c' = c) as ->; [|lia]. destruct Hc as [(q & k & Hk & Ek & Hm)|[-> Hn]].
        * assert (current m c) as Hcm by (left; eauto). destruct (shifted_current _ _ _ _ _ H Hcm Hc'); [eauto|lia].
        * destruct Hc' as [(q & k & Hk & _)|[-> _]]; [|done]. by destruct (Hn q (lower 0 k)), (shifted_active' 0 m r q k).
      + destruct Hact as [?|Hact]; [done|]. destruct (shifted_current _ _ _ _ _ H Hc Hc' Hact). lia. }
  apply notree_eq in Em as (E1 & Em), Er as (E1' & Er). destruct (H) as [HB Hr Ha]. split; [done|..].
  - apply notree_eq in Hr. apply notree_eq. split.
    + etrans; [exact E1|]. change (flows (r1 <| flows := lower B <$> flows r1 |>)) with (lower B <$> flows r1).
      rewrite E1', Fl. cbn [flows upd]. rewrite fmap_insert. f_equal. cbn. unfold lower. cbn. f_equal. lia.
    + clear E1 E1' Ht Ht' Ef Eg. cbn in *. rewrite Fp in Em. destruct_and!. split_and!; congruence.
  - intros q k [Ek Hk]. rewrite E1' in Ek. cbn in Er. destruct Er as (_ & _ & _ & Es & _ & Ep & _). rewrite Es, Ep in Hk.
    cbn [flows upd] in Ek. destruct (decide (q = p)) as [->|Hne].
    + rewrite lookup_insert_eq in Ek. by injection Ek as <-.
    + rewrite lookup_insert_ne in Ek by done. apply (Ha q k). split; [done|].
      destruct (decide (previous_flow r = Some p)); naive_solver.
Qed.

Lemma shifted_done B m r m' r' es es' : shifted B m r → inv u64_time m' → inv (λ t, 0 ≤ t) r →
  done_post True m m' es → done_post False r r' es' → es = es' ∧ ∃ B', shifted B' m' r'.
Proof.
  intros H Hi Hir (flow & f & s & Hs & Ef & Hs0 & _ & Hqs & -> & ->) (flow' & g & s' & Hs' & Eg & _ & Hs'0 & _ & -> & ->).
  pose proof (shifted_fields _ _ _ H) as (Fl & F1 & F2 & F3 & F4 & F5 & F6 & F7 & F8 & F9).
  rewrite F4, Hs' in Hs. injection Hs as <-. assert (s' = 0) as -> by (destruct (decide (s' = 0)); naive_solver).
  assert (f = lower B g) as ->. { rewrite Fl, lookup_fmap, Eg in Ef. by injection Ef. }
  split; [done|]. exists (B + s). rewrite F3, F5 in *. set (a := packet_weight r + sending_len r) in *.
  assert (B ≤ time g) as HBg by (apply (sh_active _ _ _ H flow'); split; auto).
  assert (B + s ≤ time g + a) as Hflow.
  { assert (0 ≤ time (bump s flow' a flow' (lower B g))) as Hb.
    { assert (∃ k, settled s flow' a (flows m) !! flow' = Some k ∧ time k = time (bump s flow' a flow' (lower B g)))
        as (k & Ek & <-) by (rewrite lookup_settled, Ef; eexists; split; [reflexivity|]; cbn; by destruct (decide (flow' = flow'))).
      by destruct (i_time _ _ (proj1 Hi) flow' k Ek). }
    rewrite time_bump_self in Hb. cbn in Hb. lia. }
  pose proof (sh_B _ _ _ H). split; [lia|..].
  - apply notree_eq. cbn. split_and!; try done. apply map_eq. intros p.
    rewrite lookup_fmap, !lookup_settled, Fl, lookup_fmap. destruct (flows r !! p) as [k|] eqn:Ek; [|done]. cbn.
    f_equal. pose proof (i_time _ _ (proj1 Hir) _ _ Ek) as Hk. cbn in Hk. unfold bump, lower. cbn.
    destruct (decide (p = flow')) as [->|]; cbn; f_equal; simplify_eq; lia.
  - intros p k [Ek Hk]. cbn in Ek, Hk. rewrite lookup_settled in Ek.
    destruct (flows r !! p) as [k'|] eqn:Ek'; [|done]. cbn in Ek. injection Ek as <-.
    destruct (decide (p = flow')) as [->|Hne].
    + rewrite Eg in Ek'. injection Ek' as <-. cbn. lia.
    + rewrite time_bump_other by done. destruct Hk as [Hk|[Hk|Hk]]; [|done|naive_solver].
      assert (active r p k') as Hact by (split; auto). pose proof (sh_active _ _ _ H _ _ Hact).
      assert (queued (flows m) p (lower B k')) as Hq by (split; [by rewrite Fl, lookup_fmap, Ek'|done]).
      specialize (Hqs _ _ Hq). cbn in Hqs. lia.
Qed.

Lemma shifted_enabled B m r l : shifted B m r → enabled l m → enabled l r.
Proof.
  intros H. pose proof (shifted_fields _ _ _ H) as (Fl & F1 & F2 & F3 & F4 & F5 & F6 & F7 & F8 & F9).
  destruct l; cbn; rewrite ?F1, ?F2, ?F4, ?F8, ?F9; try done.
  - intros ((f & Ef & Hf) & ?). destruct (shifted_lookup _ _ _ _ _ H Ef) as (g & Eg & ->). eauto.
  - rewrite Fl, lookup_fmap. destruct (flows r !! p); naive_solver.
  - rewrite Fl, lookup_fmap, fmap_is_Some. done.
Qed.

(** Flows, sender and predecessor change together on both sides. *)
Lemma shifted_change B m r m' r' : shifted B m r →
  flows m' = lower B <$> flows r' →
  notree (m' <| flows := ∅ |>) = notree (r' <| flows := ∅ |>) →
  (∀ p g, active r' p g → B ≤ time g) → shifted B m' r'.
Proof.
  intros [HB _ _] Hf (_ & Hn)%notree_eq Hact. split; [done| |done]. apply notree_eq. by split.
Qed.

Lemma shifted_step B m r l m' r' es es' : shifted B m r → inv (λ t, 0 ≤ t) r → inv u64_time m' →
  enabled l m → B = 0 ∨ (∃ q f, active m q f) → effect True l m m' es → effect False l r r' es' →
  es = es' ∧ ∃ B', shifted B' m' r'.
Proof.
  intros H Hr Hm' He Hact Em Er. pose proof (sh_active _ _ _ H) as Ha.
  pose proof (shifted_fields _ _ _ H) as (Fl & F1 & F2 & F3 & F4 & F5 & F6 & F7 & F8 & F9).
  destruct l as [p data| | |p|p|p|p h|]; cbn in Em, Er.
  - destruct Em as (m1 & Em1 & Em), Er as (r1 & Er1 & Er). rewrite F4, F9 in Em.
    assert (shifted B m1 r1) as H1 by (by eapply shifted_enqueued).
    destruct (_ && _); [|destruct Em as [-> ->], Er as [-> ->]; eauto].
    destruct (shifted_sched _ _ _ _ _ _ _ H1 Em Er); eauto.
  - by eapply shifted_done.
  - set (m1 := m <| schedule_job := false |> <| previous_flow := None |>) in *.
    set (r1 := r <| schedule_job := false |> <| previous_flow := None |>) in *.
    assert (shifted B m1 r1) as H1.
    { eapply shifted_change; [exact H|done| |].
      - apply notree_eq. cbn. split_and!; done.
      - intros q g [Eg [Hg|[Hg|Hg]]]; [..|done]; apply (Ha q); split; auto. }
    destruct Em as [Em|(Hn & -> & ->)], Er as [Er|(Hn' & -> & ->)]; [destruct (shifted_sched _ _ _ _ _ _ _ H1 Em Er); eauto|..|eauto].
    + destruct Em as (q & f & [[Ef Hf] _] & _). destruct (shifted_lookup _ _ _ _ _ H Ef) as (g & Eg & ->).
      by destruct (Hn' q g).
    + destruct Er as (q & g & [[Eg Hg] _] & _). destruct (Hn q (lower B g)). split; [|done].
      change (flows r !! q = Some g) in Eg. by rewrite Fl, lookup_fmap, Eg.
  - unfold flow_init_post in Em, Er. destruct Em as [-> ->], Er as [-> ->]. split; [done|]. exists B. eapply shifted_change; [exact H|..].
    + change (<[p := MkFlow false 0 false []]> (flows m) = lower B <$> <[p := MkFlow false 0 false []]> (flows r)).
      rewrite Fl, fmap_insert. f_equal. unfold lower. cbn. f_equal. pose proof (sh_B _ _ _ H). lia.
    + apply notree_eq. cbn. rewrite F7. split_and!; done.
    + apply (shifted_enabled _ _ _ (LFlowInit p) H) in He as [Hn _].
      intros q g [Eg Hg]. cbn in Eg, Hg. destruct (decide (q = p)) as [->|].
      * rewrite lookup_insert_eq in Eg. injection Eg as <-. exfalso. destruct Hg as [Hg|[Hg|Hg]]; [done|..].
        -- destruct (i_send _ _ (proj1 Hr) p Hg) as (_ & _ & _ & k & Ek & _). congruence.
        -- destruct (i_prev _ _ (proj1 Hr) p Hg) as (_ & _ & k & Ek & _). congruence.
      * rewrite lookup_insert_ne in Eg by done. apply (Ha q). by split.
  - destruct Em as [Em%notree_eq ->], Er as [Er%notree_eq ->]. split; [done|]. exists B. eapply shifted_change; [exact H|..].
    + destruct Em as [-> _], Er as [-> _]. cbn. by rewrite Fl, fmap_delete.
    + destruct Em as [_ Em], Er as [_ Er]. apply notree_eq. cbn in *. rewrite F4, F6, F7 in Em. destruct_and!. split_and!; congruence.
    + destruct Er as (E1 & _ & _ & _ & E2 & _ & E3 & _). intros q g [Eg Hg]. rewrite E1 in Eg. rewrite E2, E3 in Hg.
      cbn in Eg, Hg. apply lookup_delete_Some in Eg as [Hne Eg]. apply (Ha q). split; [done|].
      destruct Hg as [Hg|[[Hg _]%drop_if_some|[Hg _]%drop_if_some]]; auto.
  - destruct Em as [-> ->], Er as [-> ->]. eauto.
  - destruct Em as (-> & f & Ef & ->), Er as (-> & g & Eg & ->). split; [done|]. exists B.
    rewrite Fl, lookup_fmap, Eg in Ef. injection Ef as <-. eapply shifted_change; [exact H|..].
    + cbn. by rewrite Fl, fmap_insert.
    + apply notree_eq. cbn. split_and!; done.
    + intros q k [Ek Hk]. cbn in Ek, Hk. destruct (decide (q = p)) as [->|].
      * rewrite lookup_insert_eq in Ek. injection Ek as <-. apply (Ha p g). by split.
      * rewrite lookup_insert_ne in Ek by done. apply (Ha q). by split.
  - destruct Em as [-> ->], Er as [-> ->]. split; [done|]. exists B. eapply shifted_change; [exact H|done| |exact Ha].
    apply notree_eq. cbn. split_and!; done.
Qed.

(** A run of events with an active flow at all times in between. *)
Inductive busy_run : PacketPassFairQueue T → list label → PacketPassFairQueue T → list call → Prop :=
  | busy_nil m : busy_run m [] m []
  | busy_cons m l m1 es ls m2 es2 : enabled l m → run increment_sent_flow l m = Some (tt, m1, es) →
      ls = [] ∨ (∃ p f, active m1 p f) → busy_run m1 ls m2 es2 → busy_run m (l :: ls) m2 (es ++ es2).

Fixpoint run_exact (ls : list label) (r : PacketPassFairQueue T) : option (PacketPassFairQueue T * list call) :=
  match ls with
  | [] => Some (r, [])
  | l :: ls =>
      match run increment_exact l r with
      | Some (_, r1, es) => match run_exact ls r1 with Some (r2, es2) => Some (r2, es ++ es2) | None => None end
      | None => None
      end
  end.

Lemma busy_run_exact m ls m' es : busy_run m ls m' es → inv u64_time m →
  ∀ B r, shifted B m r → inv (λ t, 0 ≤ t) r → ls = [] ∨ B = 0 ∨ (∃ p f, active m p f) →
  ∃ r' B', run_exact ls r = Some (r', es) ∧ shifted B' m' r'.
Proof.
  induction 1 as [m|m l m1 es ls m2 es2 He E Hb _ IH]; intros Hm B r H Hr Hact; [by exists r, B|].
  pose proof (run_ok _ True _ increment_sent_flow_ok u64_time_0 u64_time_down l m Hm He) as Hw.
  unfold wp in Hw. rewrite E in Hw. destruct Hw as [Hm1 Em].
  pose proof (run_ok (λ t, 0 ≤ t) False increment_exact increment_exact_ok ltac:(done) ltac:(cbn; lia) l r Hr
    (shifted_enabled _ _ _ _ H He)) as Hw.
  apply (proj1 (wp_some _ _ _)) in Hw as ([] & r1 & es' & Er & Hr1 & Er').
  destruct Hact as [?|Hact]; [done|].
  destruct (shifted_step _ _ _ _ _ _ _ _ H Hr Hm1 He Hact Em Er') as (<- & B1 & H1).
  destruct (IH Hm1 B1 r1 H1 Hr1) as (r2 & B2 & Er2 & H2); [destruct Hb; auto|].
  exists r2, B2. split; [|done]. cbn. by rewrite Er, Er2.
Qed.

Lemma shifted_refl m : inv u64_time m → shifted 0 m m.
Proof.
  intros [H _]. assert (∀ p f, flows m !! p = Some f → 0 ≤ time f) as Ht by (intros p f Ef; by apply (i_time _ _ H p)).
  split; [done| |by intros p g [Eg _]; apply (Ht p)]. apply notree_eq. split_and!; try done. cbn. apply map_eq.
  intros p. rewrite lookup_fmap. destruct (flows m !! p) as [f|] eqn:E; [|done]. cbn. unfold lower.
  rewrite Z.sub_0_r, Z.max_r by by apply (Ht p). by destruct f.
Qed.

(** C9: Handling the overflow of times is invisible: from any state of an
    execution, through any events between which some flow stays active, the
    queue makes exactly the calls, in the same order, that a queue with
    unbounded integer times makes, whatever time it subtracted on the way. *)
Theorem fairqueue_overflow_invisible m ls m' es : reach m → busy_run m ls m' es →
  ∃ r' B, run_exact ls m = Some (r', es) ∧ shifted B m' r'.
Proof.
  intros H%fairqueue_inv Hb. eapply busy_run_exact; [exact Hb|done|by apply shifted_refl| |auto].
  destruct H as [[H1 H2 H3 H4 H5 H6 H7 H8] Hbusy]. split; [|done]. split; try done. intros p f Ef. by apply (H4 p).
Qed.

(** ** No flow starves *)











(** C15: In every execution of the fair queue no assertion fails, the times of
    the flows stay within 64 bits, and the output never rests while a packet
    waits. Each event does what it should: the packet handed to the output is
    always that of the queued flow with the least time; a flow that starts to
    send is raised to the current time, unless it was the last to send; a
    finished packet is charged to its flow by its length and weight. When all
    flows are freed, the queue can be. *)
Theorem fairqueue_correct m : reach m →
  (∀ p f, flows m !! p = Some f → 0 ≤ time f ≤ FAIRQUEUE_MAX_TIME) ∧
  (freeing m = false → (∃ p f, queued (flows m) p f) → is_Some (sending_flow m) ∨ schedule_job m = true) ∧
  (∀ l, enabled l m → ∃ m' es, run increment_sent_flow l m = Some (tt, m', es) ∧ effect True l m m' es) ∧
  (flows_list m = [] → ∃ m', PacketPassFairQueue_Free m = Some (tt, m', [])).
Proof.
  intros H%fairqueue_inv. split_and!.
  - intros p f. apply (i_time _ _ (proj1 H)).
  - intros Hf (p & f & Hq). destruct (sending_flow m) eqn:Es; [left; eauto|]. right.
    destruct (schedule_job m) eqn:Ej; [done|]. by destruct (proj2 H Es Ej Hf p f).
  - intros l He. pose proof (run_ok _ True _ increment_sent_flow_ok u64_time_0 u64_time_down l m H He) as Hw.
    apply (proj1 (wp_some _ _ _)) in Hw as ([] & m' & es & E & _ & Hf). eauto.
  - intros Hl. destruct (proj1 (wp_some _ _ _) (queue_free_ok m H Hl)) as ([] & m' & es & E & ->). eauto.
Qed.
End facts.

(** ** A concrete queue, on the AVL tree *)

#[local] Existing Instance IndexedListFacts.savl_ordered_tree.

(** A queue with two flows, the first sending and the second waiting. *)
Definition ex_queue0 : PacketPassFairQueue SAvlCode.SAvl := MkFairQueue 100 true 1 None 0 None ot_init ∅ [] false false.
Definition ex_step (l : label) (m : PacketPassFairQueue SAvlCode.SAvl) : PacketPassFairQueue SAvlCode.SAvl :=
  match run increment_sent_flow l m with Some (_, m', _) => m' | None => m end.
Definition ex_queue : PacketPassFairQueue SAvlCode.SAvl :=
  ex_step (LSend 2 [3]) (ex_step (LSend 1 [1; 2]) (ex_step (LFlowInit 2) (ex_step (LFlowInit 1) ex_queue0))).

Lemma ex_step_reach l m : reach m → enabled l m → reach (ex_step l m).
Proof.
  intros H He. destruct (proj1 (wp_some _ _ _) (run_ok _ True _ increment_sent_flow_ok u64_time_0 u64_time_down l m
    (fairqueue_inv _ H) He)) as ([] & m' & es & E & _).
  unfold ex_step. rewrite E. by eapply reach_run.
Qed.

Lemma ex_queue_reach : reach ex_queue.
Proof.
  unfold ex_queue. apply ex_step_reach; [apply ex_step_reach; [apply ex_step_reach; [apply ex_step_reach|]|]|].
  - eapply (reach_init 100 true true 1); [by vm_compute|by vm_compute|reflexivity].
  - by vm_compute.
  - by vm_compute.
  - split_and!; [by eexists|by vm_compute..].
  - split_and!; [by eexists|by vm_compute..].
Qed.

Definition ex_done : PacketPassFairQueue SAvlCode.SAvl := ex_step LDone ex_queue.
Lemma ex_done_run : run increment_sent_flow LDone ex_queue = Some (tt, ex_done, [Input_Done 1]).
Proof. by vm_compute. Qed.

Lemma fairqueue_correct_witness : ∃ m' es, run increment_sent_flow LDone ex_queue = Some (tt, m', es) ∧
  schedule_job m' = true.
Proof.
  destruct (fairqueue_correct ex_queue ex_queue_reach) as (_ & _ & H & _).
  destruct (H LDone) as (m' & es & E & _); [by vm_compute; eauto|]. exists m', es. split; [done|].
  rewrite ex_done_run in E. injection E as <- <-. by vm_compute.
Defined.

Lemma fairqueue_overflow_invisible_witness : ∃ r' B,
  run_exact [LDone] ex_queue = Some (r', [Input_Done 1]) ∧ shifted B ex_done r'.
Proof.
  apply (fairqueue_overflow_invisible ex_queue [LDone] ex_done [Input_Done 1] ex_queue_reach).
  apply (busy_cons _ LDone ex_done [Input_Done 1] [] _ []); [by vm_compute; eauto|exact ex_done_run|by left|constructor].
Defined.

End FairQueueFacts.
