(* ===== verification/UdpGwClient.v ===== *)
(** The UDP gateway client (udpgw_client/UdpGwClient.c, protocol/udpgw_proto.h):
    UDP flows of the device are multiplexed over one stream to the udpgw
    server, a connection for each pair of addresses, named by a 16-bit conid.

    The connections are structures named by their addresses; they are linked in
    two search trees and in the list of least recent use. The trees are any
    implementation of [OrderedTree]. The calls to the flow components are
    emitted. *)
From Stdlib Require Import Sorting.Sorted.
From S2P Require Import Prelude Misc TreeInterface BAddr BAVL BAVLFacts PacketProto.

(** * The protocol *)
Module UdpGwProto.

Definition UDPGW_CLIENT_FLAG_KEEPALIVE : Z := Z.shiftl 1 0.
Definition UDPGW_CLIENT_FLAG_REBIND : Z := Z.shiftl 1 1.
Definition UDPGW_CLIENT_FLAG_DNS : Z := Z.shiftl 1 2.
Definition UDPGW_CLIENT_FLAG_IPV6 : Z := Z.shiftl 1 3.

Record udpgw_header := UdpgwHeader { flags : Z; conid : Z }.
Definition sizeof_udpgw_header : Z := 3.
Definition udpgw_header_mem (h : udpgw_header) : bytes := flags h :: mem16 (conid h).
Definition udpgw_header_load (d : bytes) : udpgw_header := {|
  flags := byte_at d 0;
  conid := badvpn_read_le16 (drop 1 d)
|}.

Record udpgw_addr_ipv4 := UdpgwAddrIpv4 { addr_ip : Z; addr_port : Z }.
Definition sizeof_udpgw_addr_ipv4 : Z := 6.
Definition udpgw_addr_ipv4_mem (a : udpgw_addr_ipv4) : bytes := mem32 (addr_ip a) ++ mem16 (addr_port a).
Definition udpgw_addr_ipv4_load (d : bytes) : udpgw_addr_ipv4 := {|
  addr_ip := badvpn_read_le32 d;
  addr_port := badvpn_read_le16 (drop 4 d)
|}.

Record udpgw_addr_ipv6 := UdpgwAddrIpv6 { addr_ip6 : bytes; addr_port6 : Z }.
Definition sizeof_udpgw_addr_ipv6 : Z := 18.
Definition udpgw_addr_ipv6_mem (a : udpgw_addr_ipv6) : bytes := addr_ip6 a ++ mem16 (addr_port6 a).
Definition udpgw_addr_ipv6_load (d : bytes) : udpgw_addr_ipv6 := {|
  addr_ip6 := take 16 d;
  addr_port6 := badvpn_read_le16 (drop 16 d)
|}.

Definition udpgw_compute_mtu (SIZE_MAX dgram_mtu : Z) : Z :=
  let bs := BSize.bsize_add SIZE_MAX
    (BSize.bsize_fromsize sizeof_udpgw_header)
    (BSize.bsize_add SIZE_MAX
      (BSize.bsize_max (BSize.bsize_fromsize sizeof_udpgw_addr_ipv4)
                       (BSize.bsize_fromsize sizeof_udpgw_addr_ipv6))
      (BSize.bsize_fromint SIZE_MAX dgram_mtu)) in
  match BSize.bsize_toint bs with Some s => s | None => -1 end.
End UdpGwProto.

(** * The code *)
Module UdpGwClientCode.
Export UdpGwProto.

Record UdpGwClient_conaddr := Conaddr { local_addr : BAddr; remote_addr : BAddr }.

#[export] Instance conaddr_eq_dec : EqDecision UdpGwClient_conaddr.
Proof. solve_decision. Defined.

(** [first_data] is a pointer into a buffer of the caller; its contents are
    read when the first job runs. *)
Record UdpGwClient_connection := MkConnection {
  conaddr : UdpGwClient_conaddr;
  first_flags : Z;
  first_data_len : Z;
  con_conid : Z
}.
#[global] Instance eta_connection : Eta UdpGwClient_connection := λ x,
  MkConnection (conaddr x) (first_flags x) (first_data_len x) (con_conid x).

(** The values of the tree nodes, at their offsets in the connections. *)
Definition conaddr_at (m : gmap positive UdpGwClient_connection) (p : positive) : UdpGwClient_conaddr :=
  match m !! p with Some c => conaddr c | None => Conaddr BADDR_NONE BADDR_NONE end.
Definition conid_at (m : gmap positive UdpGwClient_connection) (p : positive) : Z :=
  match m !! p with Some c => con_conid c | None => 0 end.

Definition uint16_comparator (v1 v2 : Z) : Z := B_COMPARE v1 v2.
Definition conaddr_comparator (v1 v2 : UdpGwClient_conaddr) : Z :=
  let r := BAddr_CompareOrder (remote_addr v1) (remote_addr v2) in
  if negb (r =? 0) then r else BAddr_CompareOrder (local_addr v1) (local_addr v2).

Section code.
Context {T : Type} `{!OrderedTree T} (SIZE_MAX : Z).

(** [connections]: the allocated connection structures. *)
Record UdpGwClient := MkUdpGwClient {
  udp_mtu : Z;
  max_connections : Z;
  send_buffer_size : Z;
  udpgw_mtu : Z;
  pp_mtu : Z;
  connections : gmap positive UdpGwClient_connection;
  connections_tree_by_conaddr : T;
  connections_tree_by_conid : T;
  connections_list : list positive;
  num_connections : Z;
  next_conid : Z;
  keepalive_sending : bool;
  have_server : bool
}.
#[global] Instance eta_UdpGwClient : Eta UdpGwClient := λ x,
  MkUdpGwClient (udp_mtu x) (max_connections x) (send_buffer_size x) (udpgw_mtu x) (pp_mtu x)
    (connections x) (connections_tree_by_conaddr x) (connections_tree_by_conid x)
    (connections_list x) (num_connections x) (next_conid x) (keepalive_sending x) (have_server x).

(** Calls to the flow components and to the user. *)
Inductive call :=
  | first_job_Set (con : positive)
  | first_job_Free (con : positive)
  | send_qflow_Init (con : positive)
  | send_qflow_Free (con : positive)
  | send_ppflow_Init (con : positive)
  | send_ppflow_Free (con : positive)
  | free_connection (con : positive)
  | EndPacket (con : positive) (packet : bytes)
  | recv_if_Done
  | handler_received (local remote : BAddr) (data : bytes)
  | handler_servererror
  | server_Connect                        (* interface, decoder, sender, connector *)
  | server_Disconnect
  | queue_Free.

(** What can fail: [malloc] and [PacketProtoFlow_Init] of a new connection,
    [BufferWriter_StartPacket] when the send buffer is full. *)
Record answers := Answers {
  malloc_answer : option positive;
  ppflow_answer : bool;
  room_answer : bool
}.

Abbreviation op := (prog UdpGwClient call).
Definition stuck {A} : op A := λ _, None.

(** Access to an allocated connection. *)
Definition get_con (con : positive) : op UdpGwClient_connection :=
  λ o, match connections o !! con with Some c => Some (c, o, []) | None => None end.

(** The tree operations on each of the trees; insertions must succeed. *)
Definition conaddr_insert (con : positive) : op unit :=
  update (λ o, match ot_insert conaddr_comparator (conaddr_at (connections o)) con (connections_tree_by_conaddr o) with
               | Some (r, t) => if r =? 1 then Some (o <| connections_tree_by_conaddr := t |>) else None
               | None => None end).
Definition conaddr_remove (con : positive) : op unit :=
  update (λ o, match ot_remove con (connections_tree_by_conaddr o) with
               | Some t => Some (o <| connections_tree_by_conaddr := t |>)
               | None => None end).
Definition conid_insert (con : positive) : op unit :=
  update (λ o, match ot_insert uint16_comparator (conid_at (connections o)) con (connections_tree_by_conid o) with
               | Some (r, t) => if r =? 1 then Some (o <| connections_tree_by_conid := t |>) else None
               | None => None end).
Definition conid_remove (con : positive) : op unit :=
  update (λ o, match ot_remove con (connections_tree_by_conid o) with
               | Some t => Some (o <| connections_tree_by_conid := t |>)
               | None => None end).

(** [LinkedList1_Append] and [LinkedList1_Remove]. *)
Definition list_append (con : positive) : op unit :=
  modify (λ o, o <| connections_list := connections_list o ++ [con] |>).
Definition list_remove (con : positive) : op unit :=
  modify (λ o, o <| connections_list := filter (λ p, p ≠ con) (connections_list o) |>).

Definition find_connection_by_conaddr (a : UdpGwClient_conaddr) : op (option positive) :=
  λ o, match ot_lookup conaddr_comparator (conaddr_at (connections o)) a (connections_tree_by_conaddr o) with
       | Some r => Some (r, o, [])
       | None => None end.
Definition find_connection_by_conid (conid : Z) : op (option positive) :=
  λ o, match ot_lookup uint16_comparator (conid_at (connections o)) conid (connections_tree_by_conid o) with
       | Some r => Some (r, o, [])
       | None => None end.

(** The loop of [find_unused_conid]; it ends within [max_connections] rounds,
    as not all conids below that are in use. *)
Fixpoint find_unused_loop (rounds : nat) : op Z :=
  match rounds with
  | O => stuck
  | S rounds =>
      o ← get_st;
      r ← find_connection_by_conid (u16 (next_conid o));
      match r with
      | None => mret (u16 (next_conid o))
      | Some _ =>
          (if next_conid o =? max_connections o - 1
           then modify (λ o, o <| next_conid := 0 |>)
           else modify (λ o, o <| next_conid := next_conid o + 1 |>));;
          find_unused_loop rounds
      end
  end.
Definition find_unused_conid : op Z :=
  o ← get_st;
  ASSERT (num_connections o <? max_connections o);;
  find_unused_loop (Z.to_nat (max_connections o)).

Definition connection_init (env : answers) (a : UdpGwClient_conaddr) (flags : Z) (data_len : Z) : op unit :=
  o ← get_st;
  ASSERT (num_connections o <? max_connections o);;
  r ← find_connection_by_conaddr a;
  ASSERT (bool_decide (r = None));;
  ASSERT (0 <=? data_len);;
  ASSERT (data_len <=? udp_mtu o);;
  match malloc_answer env with
  | None => mret tt
  | Some con =>
      conid ← find_unused_conid;
      emit (first_job_Set con);;
      emit (send_qflow_Init con);;
      if negb (ppflow_answer env) then
        emit (send_qflow_Free con);;
        emit (first_job_Free con);;
        emit (free_connection con)
      else
        emit (send_ppflow_Init con);;
        modify (λ o, o <| connections := <[con := MkConnection a flags data_len conid]> (connections o) |>);;
        conaddr_insert con;;
        conid_insert con;;
        list_append con;;
        modify (λ o, o <| num_connections := num_connections o + 1 |>)
  end.

Definition connection_free (con : positive) : op unit :=
  get_con con;;
  modify (λ o, o <| num_connections := num_connections o - 1 |>);;
  list_remove con;;
  conid_remove con;;
  conaddr_remove con;;
  emit (send_ppflow_Free con);;
  emit (send_qflow_Free con);;
  emit (first_job_Free con);;
  modify (λ o, o <| connections := delete con (connections o) |>);;
  emit (free_connection con).

(** The address part of a packet. *)
Definition address_mem (a : BAddr) : bytes :=
  match a with
  | BADDR_IPV4 ip port => udpgw_addr_ipv4_mem (UdpgwAddrIpv4 ip port)
  | BADDR_IPV6 ip port => udpgw_addr_ipv6_mem (UdpgwAddrIpv6 ip port)
  | _ => []
  end.

Definition connection_send (env : answers) (con : positive) (flags : Z) (data : bytes) : op unit :=
  o ← get_st;
  c ← get_con con;
  ASSERT (len data <=? udp_mtu o);;
  if negb (room_answer env) then mret tt else
  let flags := if BAddr_type (remote_addr (conaddr c)) =? 2 then Z.lor flags UDPGW_CLIENT_FLAG_IPV6 else flags in
  let header := UdpgwHeader (ltoh8 flags) (ltoh16 (con_conid c)) in
  emit (EndPacket con (udpgw_header_mem header ++ address_mem (remote_addr (conaddr c)) ++ data)).

(** [data]: what [first_data] points to when the job runs. *)
Definition connection_first_job_handler (env : answers) (con : positive) (data : bytes) : op unit :=
  c ← get_con con;
  ASSERT (len data =? first_data_len c);;
  connection_send env con (Z.lor UDPGW_CLIENT_FLAG_REBIND (first_flags c)) data.

Definition reuse_connection (a : UdpGwClient_conaddr) : op positive :=
  r ← find_connection_by_conaddr a;
  ASSERT (bool_decide (r = None));;
  o ← get_st;
  ASSERT (0 <? num_connections o);;
  match connections_list o with
  | [] => stuck
  | con :: _ =>
      conaddr_remove con;;
      c ← get_con con;
      modify (λ o, o <| connections := <[con := c <| conaddr := a |>]> (connections o) |>);;
      conaddr_insert con;;
      mret con
  end.

Definition UdpGwClient_SubmitPacket (env : answers) (local remote : BAddr) (is_dns : bool)
    (data : bytes) : op unit :=
  o ← get_st;
  ASSERT ((BAddr_type local =? 1) || (BAddr_type local =? 2));;
  ASSERT ((BAddr_type remote =? 1) || (BAddr_type remote =? 2));;
  ASSERT (len data <=? udp_mtu o);;
  let a := Conaddr local remote in
  con ← find_connection_by_conaddr a;
  let flags := if is_dns then Z.lor 0 UDPGW_CLIENT_FLAG_DNS else 0 in
  '(con, flags) ←
    match con with
    | None =>
        if num_connections o =? max_connections o then
          p ← reuse_connection a; mret (Some p, Z.lor flags UDPGW_CLIENT_FLAG_REBIND)
        else mret (None, flags)
    | Some p => mret (Some p, flags)
    end;
  match con with
  | None => connection_init env a flags (len data)
  | Some p =>
      list_remove p;;
      list_append p;;
      connection_send env p flags data
  end.

(** ** From the server *)

(** Header and address of a received packet, and the data after them. *)
Definition parse_packet (data : bytes) : option (Z * BAddr * bytes) :=
  if len data <? sizeof_udpgw_header then None else
  let header := udpgw_header_load data in
  let data := zdrop sizeof_udpgw_header data in
  let flags := ltoh8 (flags header) in
  let conid := ltoh16 (conid header) in
  if negb (Z.land flags UDPGW_CLIENT_FLAG_IPV6 =? 0) then
    if len data <? sizeof_udpgw_addr_ipv6 then None else
    let addr_ipv6 := udpgw_addr_ipv6_load data in
    Some (conid, BAddr_InitIPv6 (addr_ip6 addr_ipv6) (addr_port6 addr_ipv6),
          zdrop sizeof_udpgw_addr_ipv6 data)
  else
    if len data <? sizeof_udpgw_addr_ipv4 then None else
    let addr_ipv4 := udpgw_addr_ipv4_load data in
    Some (conid, BAddr_InitIPv4 (addr_ip addr_ipv4) (addr_port addr_ipv4),
          zdrop sizeof_udpgw_addr_ipv4 data).

Definition recv_interface_handler_send (data : bytes) : op unit :=
  o ← get_st;
  ASSERT (have_server o);;
  ASSERT (len data <=? udpgw_mtu o);;
  emit recv_if_Done;;
  match parse_packet data with
  | None => mret tt
  | Some (conid, remote, data) =>
      if udp_mtu o <? len data then mret tt else
      con ← find_connection_by_conid conid;
      match con with
      | None => mret tt
      | Some p =>
          c ← get_con p;
          if negb (BAddr_CompareOrder (remote_addr (conaddr c)) remote =? 0) then mret tt else
          list_remove p;;
          list_append p;;
          emit (handler_received (local_addr (conaddr c)) (remote_addr (conaddr c)) data)
      end
  end.

Definition decoder_handler_error : op unit :=
  o ← get_st;
  ASSERT (have_server o);;
  emit handler_servererror.

(** Keepalives are disabled in this build. *)
Definition send_monitor_handler : op unit := mret tt.

Definition keepalive_if_handler_done : op unit :=
  o ← get_st;
  ASSERT (keepalive_sending o);;
  modify (λ o, o <| keepalive_sending := false |>).

(** ** Setup *)

Definition UdpGwClient_Init (mtu max buffer : Z) (queue_ok : bool) : option (option UdpGwClient) :=
  ASSERT_ (0 <=? mtu);
  ASSERT_ (0 <=? udpgw_compute_mtu SIZE_MAX mtu);
  ASSERT_ (udpgw_compute_mtu SIZE_MAX mtu <=? PACKETPROTO_MAXPAYLOAD);
  ASSERT_ (0 <? max);
  ASSERT_ (0 <? buffer);
  Some (if negb queue_ok then None else Some
    {| udp_mtu := mtu;
       max_connections := if UINT16_MAX + 1 <? max then UINT16_MAX + 1 else max;
       send_buffer_size := buffer;
       udpgw_mtu := udpgw_compute_mtu SIZE_MAX mtu;
       pp_mtu := udpgw_compute_mtu SIZE_MAX mtu + sizeof_packetproto_header;
       connections := ∅;
       connections_tree_by_conaddr := ot_init;
       connections_tree_by_conid := ot_init;
       connections_list := [];
       num_connections := 0;
       next_conid := 0;
       keepalive_sending := false;
       have_server := false |}).

Definition UdpGwClient_ConnectServer (decoder_ok : bool) : op bool :=
  o ← get_st;
  ASSERT (negb (have_server o));;
  if negb decoder_ok then mret false else
  emit server_Connect;;
  modify (λ o, o <| have_server := true |>);;
  mret true.

Definition free_server : op unit := emit server_Disconnect.

Definition UdpGwClient_DisconnectServer : op unit :=
  o ← get_st;
  ASSERT (have_server o);;
  free_server;;
  modify (λ o, o <| have_server := false |>).

(** Every round frees a connection of the list. *)
Fixpoint free_connections (rounds : nat) : op unit :=
  o ← get_st;
  match connections_list o, rounds with
  | [], _ => mret tt
  | con :: _, S rounds => connection_free con;; free_connections rounds
  | _ :: _, O => stuck
  end.
Definition UdpGwClient_Free : op unit :=
  o ← get_st;
  free_connections (length (connections_list o));;
  when (have_server o) free_server;;
  emit queue_Free.
End code.
Arguments UdpGwClient : clear implicits.
End UdpGwClientCode.

(** * The connection table *)
Module UdpGwClientFacts.
Import UdpGwClientCode.

Definition conaddr_ok (a : UdpGwClient_conaddr) : Prop := BAddr_ok (remote_addr a) ∧ BAddr_ok (local_addr a).

Lemma conaddr_comparator_combine v1 v2 : conaddr_comparator v1 v2 =
  cmp_combine (BAddr_CompareOrder (remote_addr v1) (remote_addr v2))
              (BAddr_CompareOrder (local_addr v1) (local_addr v2)).
Proof. unfold conaddr_comparator, cmp_combine. by destruct (_ =? 0). Qed.

#[export] Instance conaddr_comparator_ok : Comparator conaddr_ok conaddr_comparator.
Proof.
  pose proof (combine_comparator BAddr_ok BAddr_ok BAddr_CompareOrder BAddr_CompareOrder) as C.
  set (pr := λ a, (remote_addr a, local_addr a)).
  split; intros; rewrite ?conaddr_comparator_combine in *.
  - apply (C.(cmp_range) (pr x) (pr y)).
  - etrans; [apply (C.(cmp_eq) (pr x) (pr y)); done|]. destruct x, y. cbn. split; by intros [= -> ->].
  - apply (C.(cmp_opp) (pr x) (pr y)).
  - by apply (C.(cmp_lt_trans) (pr x) (pr y) (pr z)).
Qed.
#[export] Instance uint16_comparator_ok : Comparator (λ _, True) uint16_comparator := B_COMPARE_comparator.

Section facts.
Context {T : Type} `{!OrderedTree T}.
Implicit Types o : UdpGwClient T.

(** The connections, least recently used first: conid and addresses. *)
Definition row (m : gmap positive UdpGwClient_connection) (p : positive) : Z * UdpGwClient_conaddr :=
  (conid_at m p, conaddr_at m p).
Definition table o : list (Z * UdpGwClient_conaddr) := row (connections o) <$> connections_list o.

Record inv o : Prop := {
  i_list : NoDup (connections_list o);
  i_dom : ∀ p, p ∈ connections_list o ↔ is_Some (connections o !! p);
  i_num : num_connections o = len (connections_list o);
  i_max : 0 < max_connections o ≤ UINT16_MAX + 1 ∧ num_connections o ≤ max_connections o;
  i_next : 0 ≤ next_conid o < max_connections o;
  i_addr : ∃ l, ot_holds conaddr_ok conaddr_comparator (conaddr_at (connections o))
                  (connections_tree_by_conaddr o) l ∧ l ≡ₚ connections_list o;
  i_conid : ∃ l, ot_holds (λ _, True) uint16_comparator (conid_at (connections o))
                   (connections_tree_by_conid o) l ∧ l ≡ₚ connections_list o;
  i_ok : ∀ p, p ∈ connections_list o → conaddr_ok (conaddr_at (connections o) p);
  i_range : ∀ p, p ∈ connections_list o → 0 ≤ conid_at (connections o) p < max_connections o;
  i_mtu : 0 ≤ udp_mtu o ∧ udpgw_mtu o = udp_mtu o + 21 ∧ udpgw_mtu o ≤ UINT16_MAX
}.

(** ** Lookups *)

Lemma find_conaddr_ok o a Q : inv o → conaddr_ok a →
  (∀ p, p ∈ connections_list o → conaddr_at (connections o) p = a → Q (Some p) o []) →
  ((∀ p, p ∈ connections_list o → conaddr_at (connections o) p ≠ a) → Q None o []) →
  wp (find_connection_by_conaddr a) o Q.
Proof.
  intros Hi Ha HS HN. destruct (i_addr _ Hi) as (l & Hl & Hp).
  destruct (ot_lookup_spec _ _ _ _ _ a _ Hl Ha) as (r & E & Hr).
  unfold wp, find_connection_by_conaddr. rewrite E. destruct r as [p|].
  - destruct Hr as [Hin Hc]. rewrite Hp in Hin. apply HS; [done|]. symmetry.
    apply (cmp_eq (P := conaddr_ok) (cmp := conaddr_comparator)); [done|by apply Hi|done].
  - apply HN. intros p Hin E'. apply (Hr p); [by rewrite Hp|]. rewrite E'. by apply cmp_eq.
Qed.

Lemma find_conid_ok o i Q : inv o →
  (∀ p, p ∈ connections_list o → conid_at (connections o) p = i → Q (Some p) o []) →
  ((∀ p, p ∈ connections_list o → conid_at (connections o) p ≠ i) → Q None o []) →
  wp (find_connection_by_conid i) o Q.
Proof.
  intros Hi HS HN. destruct (i_conid _ Hi) as (l & Hl & Hp).
  destruct (ot_lookup_spec _ _ _ _ _ i _ Hl I) as (r & E & Hr).
  unfold wp, find_connection_by_conid. rewrite E. destruct r as [p|].
  - destruct Hr as [Hin Hc]. rewrite Hp in Hin. apply HS; [done|]. symmetry. by apply B_COMPARE_0.
  - apply HN. intros p Hin E'. apply (Hr p); [by rewrite Hp|]. rewrite E'. by apply B_COMPARE_0.
Qed.

Lemma wp_get_con o p c Q : connections o !! p = Some c → Q c o [] → wp (get_con p) o Q.
Proof. intros E HQ. unfold wp, get_con. by rewrite E. Qed.

(** ** Unused conids *)

Lemma conid_unused o : inv o → num_connections o < max_connections o →
  ∃ x, 0 ≤ x < max_connections o ∧ ∀ p, p ∈ connections_list o → conid_at (connections o) p ≠ x.
Proof.
  intros Hi Hlt. set (ids := conid_at (connections o) <$> connections_list o).
  destruct (decide (Forall (λ x, x ∈ ids) (seqZ 0 (max_connections o)))) as [Hall|Hnot].
  - exfalso. assert (length (seqZ 0 (max_connections o)) ≤ length ids)%nat as Hl.
    { apply submseteq_length, NoDup_submseteq; [apply NoDup_seqZ|]. rewrite Forall_forall in Hall. done. }
    unfold ids in Hl. rewrite length_fmap, length_seqZ in Hl.
    pose proof (i_num _ Hi) as Hn. unfold len in Hn. lia.
  - apply not_Forall_Exists in Hnot; [|apply _]. apply Exists_exists in Hnot as (x & Hx & Hnx).
    exists x. apply elem_of_seqZ in Hx. split; [lia|]. intros p Hp E. apply Hnx. cbn.
    rewrite <- E. by apply list_elem_of_fmap_2.
Qed.

Lemma find_unused_loop_ok rounds : ∀ o j, inv o → 0 ≤ j < Z.of_nat rounds →
  (∀ p, p ∈ connections_list o → conid_at (connections o) p ≠ (next_conid o + j) mod max_connections o) →
  wp (find_unused_loop rounds) o (λ x o' es, es = [] ∧ o' = o <| next_conid := x |> ∧
    0 ≤ x < max_connections o ∧ ∀ p, p ∈ connections_list o → conid_at (connections o) p ≠ x).
Proof.
  induction rounds as [|rounds IH]; intros o j Hi Hj Hfree; [lia|].
  pose proof (i_next _ Hi) as Hn. pose proof (i_max _ Hi) as [Hm _]. unfold UINT16_MAX in Hm.
  cbn [find_unused_loop]. apply wp_bind, wp_get, wp_bind.
  assert (u16 (next_conid o) = next_conid o) as -> by (apply Z.mod_small; lia).
  apply find_conid_ok; [done| |].
  - intros p Hp Ep.
    assert (j ≠ 0) as Hj0.
    { intros ->. apply (Hfree p Hp). rewrite Ep, Z.add_0_r, Z.mod_small by lia. done. }
    set (n' := if next_conid o =? max_connections o - 1 then 0 else next_conid o + 1).
    assert (0 ≤ n' < max_connections o ∧ (n' + (j - 1)) mod max_connections o = (next_conid o + j) mod max_connections o)
      as [Hn' Hmod].
    { unfold n'. destruct (Z.eqb_spec (next_conid o) (max_connections o - 1)) as [E|E]; split; try lia.
      - replace (next_conid o + j) with (0 + (j - 1) + 1 * max_connections o) by lia. by rewrite Z.mod_add by lia.
      - f_equal. lia. }
    apply wp_bind. apply (wp_mono _ _ (λ _ o' es, es = [] ∧ o' = o <| next_conid := n' |>)).
    { unfold n'. destruct (_ =? _); by apply wp_modify. }
    intros [] o' es [-> ->]. eapply wp_mono; [apply (IH _ (j - 1)); [|lia|]|].
    + destruct Hi. by constructor.
    + cbn. rewrite Hmod. done.
    + cbn. intros x o' es (-> & -> & Hx & Hu). done.
  - intros Hu. apply wp_ret. cbn. split_and!; [done|by destruct o|lia|lia|done].
Qed.

Lemma find_unused_ok o : inv o → num_connections o < max_connections o →
  wp find_unused_conid o (λ x o' es, es = [] ∧ o' = o <| next_conid := x |> ∧
    0 ≤ x < max_connections o ∧ ∀ p, p ∈ connections_list o → conid_at (connections o) p ≠ x).
Proof.
  intros Hi Hlt. unfold find_unused_conid. wp_run. pose proof (i_next _ Hi) as Hn.
  destruct (conid_unused o Hi Hlt) as (x & Hx & Hu).
  eapply wp_mono; [apply (find_unused_loop_ok _ o ((x - next_conid o) mod max_connections o) Hi)|].
  - rewrite Z2Nat.id by lia. apply Z.mod_pos_bound. lia.
  - rewrite Zplus_mod_idemp_r. replace (next_conid o + (x - next_conid o)) with x by lia.
    by rewrite Z.mod_small.
  - done.
Qed.

(** ** Changing the table *)

(** The settings, which no operation on the connections changes. *)
Definition same_config o o' : Prop :=
  udp_mtu o' = udp_mtu o ∧ max_connections o' = max_connections o ∧
  send_buffer_size o' = send_buffer_size o ∧ udpgw_mtu o' = udpgw_mtu o ∧ pp_mtu o' = pp_mtu o ∧
  keepalive_sending o' = keepalive_sending o ∧ have_server o' = have_server o.

Lemma filter_middle (l1 l2 : list positive) p : NoDup (l1 ++ p :: l2) →
  filter (λ q, q ≠ p) (l1 ++ p :: l2) = l1 ++ l2.
Proof.
  intros Hn. rewrite filter_app, filter_cons_False by naive_solver.
  apply NoDup_app in Hn as (_ & Hd & Hn). apply NoDup_cons in Hn as [Hp _].
  assert (∀ l : list positive, p ∉ l → filter (λ q, q ≠ p) l = l) as H.
  { induction l as [|q l IH]; [done|]. intros [? ?]%not_elem_of_cons. rewrite filter_cons_True by congruence.
    by rewrite IH. }
  f_equal; apply H; [|done]. intros Hl. apply (Hd p Hl). by left.
Qed.

Lemma inv_perm o l : inv o → l ≡ₚ connections_list o → inv (o <| connections_list := l |>).
Proof.
  intros [H1 H2 H3 H4 H5 (la & Hla & Hpa) (lb & Hlb & Hpb) H8 H9 H10] Hp. constructor; cbn; try done.
  - by rewrite Hp.
  - intros p. by rewrite Hp.
  - unfold len in *. by rewrite Hp.
  - exists la. by rewrite Hp.
  - exists lb. by rewrite Hp.
  - intros p. rewrite Hp. apply H8.
  - intros p. rewrite Hp. apply H9.
Qed.

(** A used connection moves to the end of the list. *)
Lemma move_back_ok o l1 p l2 (k : prog (UdpGwClient T) call unit) Q : inv o →
  connections_list o = l1 ++ p :: l2 →
  (inv (o <| connections_list := l1 ++ l2 ++ [p] |>) →
   wp k (o <| connections_list := l1 ++ l2 ++ [p] |>) Q) →
  wp (list_remove p;; list_append p;; k) o Q.
Proof.
  intros Hi El HQ. unfold list_remove, list_append. apply wp_bind, wp_modify, wp_bind, wp_modify.
  cbn. rewrite El, filter_middle by (rewrite <- El; apply Hi). rewrite <- app_assoc.
  eapply wp_mono; [apply HQ, inv_perm; [done|]|done]. rewrite El.
  by rewrite (app_assoc l1), <- Permutation_cons_append, <- Permutation_middle.
Qed.

(** The packet sent for a connection. *)
Definition packet (flags conid : Z) (remote : BAddr) (data : bytes) : bytes :=
  udpgw_header_mem (UdpgwHeader
    (if BAddr_type remote =? 2 then Z.lor flags UDPGW_CLIENT_FLAG_IPV6 else flags) conid)
  ++ address_mem remote ++ data.

Definition sent (env : answers) (con : positive) (p : bytes) : list call :=
  if room_answer env then [EndPacket con p] else [].

Lemma send_ok o env p flags data Q : inv o → p ∈ connections_list o → len data ≤ udp_mtu o →
  Q tt o (sent env p (packet flags (conid_at (connections o) p)
                       (remote_addr (conaddr_at (connections o) p)) data)) →
  wp (connection_send env p flags data) o Q.
Proof.
  intros Hi Hp Hd HQ. apply (i_dom _ Hi) in Hp as [c Ec]. unfold conid_at, conaddr_at in HQ. rewrite Ec in HQ.
  unfold connection_send. apply wp_bind, wp_get, wp_bind. eapply wp_get_con; [done|].
  apply wp_bind, wp_assert; [by apply Z.leb_le|]. unfold sent in HQ.
  destruct (room_answer env); cbn [negb]; [by apply wp_emit|by apply wp_ret].
Qed.

(** The least recently used connection gets new addresses. *)
Lemma reuse_ok o a p l : inv o → conaddr_ok a → connections_list o = p :: l →
  (∀ q, q ∈ connections_list o → conaddr_at (connections o) q ≠ a) →
  wp (reuse_connection a) o (λ r o' es, r = p ∧ es = [] ∧ inv o' ∧ same_config o o' ∧
    connections_list o' = connections_list o ∧ row (connections o') p = (conid_at (connections o) p, a) ∧
    ∀ q, q ≠ p → row (connections o') q = row (connections o) q).
Proof.
  intros Hi Ha El Hfree. pose proof Hi as [H1 H2 H3 H4 H5 (la & Hla & Hpa) (lb & Hlb & Hpb) H8 H9 H10].
  assert (p ∈ connections_list o) as Hp by (rewrite El; by left).
  destruct (proj1 (H2 p) Hp) as [c Ec].
  unfold reuse_connection. apply wp_bind. apply find_conaddr_ok; [done|done|intros q Hq E; by destruct (Hfree q)|].
  intros _. apply wp_bind, wp_assert; [done|]. apply wp_bind, wp_get.
  apply wp_bind, wp_assert; [apply Z.ltb_lt; rewrite H3, El, len_cons; pose proof (len_nonneg l); lia|].
  rewrite El. apply wp_bind.
  destruct (ot_remove_spec _ _ _ _ _ p Hla) as (t1 & l1 & l2 & E1 & -> & Hl1); [by rewrite Hpa|].
  eapply wp_update; [rewrite E1; reflexivity|]. apply wp_bind. eapply wp_get_con; [exact Ec|].
  apply wp_bind, wp_modify, wp_bind. cbn [connections connections_tree_by_conaddr upd].
  set (m := <[p := _]> (connections o)).
  assert (∀ q, q ≠ p → row m q = row (connections o) q) as Hrow.
  { intros q Hq. unfold row, conid_at, conaddr_at, m. by rewrite lookup_insert_ne by done. }
  assert (row m p = (conid_at (connections o) p, a)) as Hrowp.
  { unfold row, conid_at, conaddr_at, m. rewrite lookup_insert_eq, Ec. done. }
  pose proof (ot_nodup _ _ _ _ _ Hla) as Hnd. apply NoDup_app in Hnd as (N1 & N2 & N3). apply NoDup_cons in N3 as [N3 N4].
  assert (p ∉ l1 ++ l2) as Hpn by (rewrite elem_of_app; intros [H|H]; [apply (N2 p H); by left|done]).
  assert (∀ q, q ∈ l1 ++ l2 → q ≠ p ∧ q ∈ connections_list o) as Hold.
  { intros q Hq. split; [by intros ->|]. rewrite <- Hpa. revert Hq. rewrite !elem_of_app, elem_of_cons. tauto. }
  destruct (ot_insert_spec conaddr_ok conaddr_comparator (conaddr_at m) t1 (l1 ++ l2) p) as (t2 & k1 & k2 & E2 & Ek & Hk).
  { apply _. }
  { eapply ot_value_ext; [|exact Hl1]. intros q Hq. destruct (Hold q Hq) as [Hne _].
    specialize (Hrow q Hne). by injection Hrow. }
  { done. }
  { injection Hrowp as _ ->. done. }
  { intros q Hq. destruct (Hold q Hq) as [Hne Hin]. injection Hrowp as _ ->. specialize (Hrow q Hne). injection Hrow as _ ->.
    rewrite cmp_eq by (done || by apply H8). intros E. by apply (Hfree q). }
  eapply wp_update; [cbn [connections connections_tree_by_conaddr]; rewrite E2; reflexivity|].
  apply wp_ret. cbn [connections connections_list]. split_and!; try done.
  constructor; cbn; try done.
  - intros q. unfold m. rewrite lookup_insert. destruct (decide (p = q)) as [->|]; [|apply H2].
    split; [eauto|done].
  - exists (k1 ++ p :: k2). split; [done|]. rewrite <- Hpa, <- !Permutation_middle, <- Ek. done.
  - exists lb. split; [|done]. eapply ot_value_ext; [|exact Hlb]. intros q _.
    destruct (decide (q = p)) as [->|Hne]; [by injection Hrowp as -> _|specialize (Hrow q Hne); by injection Hrow].
  - intros q Hq. destruct (decide (q = p)) as [->|Hne]; [by injection Hrowp as _ ->|].
    specialize (Hrow q Hne). injection Hrow as _ ->. by apply H8.
  - intros q Hq. destruct (decide (q = p)) as [->|Hne]; [injection Hrowp as -> _; by apply H9|].
    specialize (Hrow q Hne). injection Hrow as -> _. by apply H9.
Qed.

(** A new connection. *)
Definition created o (a : UdpGwClient_conaddr) (flags data_len : Z) (con : positive) o' : Prop :=
  same_config o o' ∧ connections_list o' = connections_list o ++ [con] ∧
  (∃ id, connections o' = <[con := MkConnection a flags data_len id]> (connections o) ∧
     0 ≤ id < max_connections o ∧ ∀ q, q ∈ connections_list o → conid_at (connections o) q ≠ id).

Lemma init_ok o env a flags data_len : inv o → conaddr_ok a → num_connections o < max_connections o →
  (∀ q, q ∈ connections_list o → conaddr_at (connections o) q ≠ a) → 0 ≤ data_len ≤ udp_mtu o →
  (∀ con, malloc_answer env = Some con → connections o !! con = None) →
  wp (connection_init env a flags data_len) o (λ _ o' es, inv o' ∧
    match malloc_answer env, ppflow_answer env with
    | Some con, true => created o a flags data_len con o' ∧
        es = [first_job_Set con; send_qflow_Init con; send_ppflow_Init con]
    | Some con, false => ∃ id, o' = o <| next_conid := id |> ∧
        es = [first_job_Set con; send_qflow_Init con; send_qflow_Free con; first_job_Free con; free_connection con]
    | None, _ => o' = o ∧ es = []
    end).
Proof.
  intros Hi Ha Hlt Hfree Hlen Hmalloc. unfold connection_init.
  apply wp_bind, wp_get, wp_bind, wp_assert; [by apply Z.ltb_lt|].
  apply wp_bind. apply find_conaddr_ok; [done|done|intros q Hq E; by destruct (Hfree q)|]. intros _.
  apply wp_bind, wp_assert; [done|]. apply wp_bind, wp_assert; [apply Z.leb_le; lia|].
  apply wp_bind, wp_assert; [apply Z.leb_le; lia|].
  destruct (malloc_answer env) as [con|]; [|by apply wp_ret]. specialize (Hmalloc con eq_refl).
  apply wp_bind. eapply wp_mono; [by apply find_unused_ok|]. intros id o1 es (-> & -> & Hid & Hidf).
  destruct (ppflow_answer env); cbn [negb].
  2:{ wp_run. split; [destruct Hi; by constructor|]. by exists id. }
  apply wp_bind, wp_emit, wp_bind, wp_emit, wp_bind, wp_emit, wp_bind, wp_modify.
  destruct Hi as [H1 H2 H3 H4 H5 (la & Hla & Hpa) (lb & Hlb & Hpb) H8 H9 H10].
  set (m := <[con := MkConnection a flags data_len id]> (connections o)).
  assert (con ∉ connections_list o) as Hcon by (intros H; apply H2 in H as [? ?]; congruence).
  assert (∀ q, q ∈ connections_list o → q ≠ con) as Hne by (by intros q Hq ->).
  assert (∀ q, q ≠ con → row m q = row (connections o) q) as Hrow.
  { intros q Hq. unfold row, conid_at, conaddr_at, m. by rewrite lookup_insert_ne by done. }
  assert (row m con = (id, a)) as Hrowc.
  { unfold row, conid_at, conaddr_at, m. by rewrite lookup_insert_eq. }
  injection Hrowc as Hrc1 Hrc2.
  assert (∀ q, q ∈ connections_list o → conid_at m q = conid_at (connections o) q ∧
    conaddr_at m q = conaddr_at (connections o) q) as Hr.
  { intros q Hq. pose proof (Hrow q (Hne q Hq)) as E. by injection E. }
  destruct (ot_insert_spec conaddr_ok conaddr_comparator (conaddr_at m) (connections_tree_by_conaddr o) la con)
    as (t1 & k1 & k2 & E1 & -> & Hk).
  { apply _. }
  { eapply ot_value_ext; [|exact Hla]. intros q Hq. rewrite Hpa in Hq. by destruct (Hr q Hq) as [_ ->]. }
  { by rewrite Hpa. }
  { by rewrite Hrc2. }
  { intros q Hq. rewrite Hpa in Hq. rewrite Hrc2. destruct (Hr q Hq) as [_ ->].
    rewrite cmp_eq by (done || by apply H8). intros E. by apply (Hfree q). }
  destruct (ot_insert_spec (λ _, True) uint16_comparator (conid_at m) (connections_tree_by_conid o) lb con)
    as (t2 & j1 & j2 & E2 & -> & Hj).
  { apply _. }
  { eapply ot_value_ext; [|exact Hlb]. intros q Hq. rewrite Hpb in Hq. by destruct (Hr q Hq) as [-> _]. }
  { by rewrite Hpb. }
  { done. }
  { intros q Hq. rewrite Hpb in Hq. rewrite Hrc1. destruct (Hr q Hq) as [-> _].
    intros E. exact (Hidf q Hq (eq_sym (proj1 (B_COMPARE_0 _ _) E))). }
  apply wp_bind. eapply wp_update; [cbn [connections connections_tree_by_conaddr upd]; fold m; rewrite E1; reflexivity|].
  apply wp_bind. eapply wp_update; [cbn [connections connections_tree_by_conid upd]; rewrite E2; reflexivity|].
  apply wp_bind, wp_modify, wp_modify. cbn. split; [|split; [|done]].
  2:{ split; [done|]. split; [done|]. by exists id. }
  constructor; cbn; try done.
  - apply NoDup_app. split_and!; [done|by intros q Hq ->%list_elem_of_singleton|apply NoDup_singleton].
  - intros q. rewrite elem_of_app, list_elem_of_singleton. unfold m. rewrite lookup_insert.
    destruct (decide (con = q)) as [->|Hn]; [split; [eauto|by right]|]. rewrite <- H2. naive_solver.
  - rewrite len_app, H3. done.
  - lia.
  - exists (k1 ++ con :: k2). split; [done|]. by rewrite <- Permutation_middle, Hpa, Permutation_cons_append.
  - exists (j1 ++ con :: j2). split; [done|]. by rewrite <- Permutation_middle, Hpb, Permutation_cons_append.
  - intros q [Hq| ->%list_elem_of_singleton]%elem_of_app; [|by rewrite Hrc2].
    destruct (Hr q Hq) as [_ ->]. by apply H8.
  - intros q [Hq| ->%list_elem_of_singleton]%elem_of_app; [|by rewrite Hrc1].
    destruct (Hr q Hq) as [-> _]. by apply H9.
Qed.

(** A connection is freed. *)
Lemma free_ok o p l1 l2 : inv o → connections_list o = l1 ++ p :: l2 →
  wp (connection_free p) o (λ _ o' es, inv o' ∧ same_config o o' ∧ connections_list o' = l1 ++ l2 ∧
    connections o' = delete p (connections o) ∧
    es = [send_ppflow_Free p; send_qflow_Free p; first_job_Free p; free_connection p]).
Proof.
  intros Hi El. pose proof Hi as [H1 H2 H3 H4 H5 (la & Hla & Hpa) (lb & Hlb & Hpb) H8 H9 H10].
  assert (p ∈ connections_list o) as Hp by (rewrite El; set_solver).
  destruct (proj1 (H2 p) Hp) as [c Ec].
  destruct (ot_remove_spec _ _ _ _ _ p Hla) as (t1 & k1 & k2 & E1 & -> & Hk); [by rewrite Hpa|].
  destruct (ot_remove_spec _ _ _ _ _ p Hlb) as (t2 & j1 & j2 & E2 & -> & Hj); [by rewrite Hpb|].
  rewrite <- !Permutation_middle in Hpa, Hpb. rewrite El, <- Permutation_middle in Hpa, Hpb.
  apply Permutation_cons_inv in Hpa, Hpb.
  assert (filter (λ q, q ≠ p) (connections_list o) = l1 ++ l2) as Ef
    by (rewrite El; apply filter_middle; by rewrite <- El).
  assert (p ∉ l1 ++ l2) as Hn.
  { rewrite El, <- Permutation_middle in H1. by apply NoDup_cons in H1 as [? _]. }
  assert (∀ q, q ∈ l1 ++ l2 → q ∈ connections_list o ∧ q ≠ p) as Hin.
  { intros q Hq. split; [|by intros ->]. rewrite El, <- Permutation_middle. by right. }
  assert (∀ q, q ∈ l1 ++ l2 → row (delete p (connections o)) q = row (connections o) q) as Hrow.
  { intros q Hq. unfold row, conid_at, conaddr_at. rewrite lookup_delete_ne; [done|]. intros ->. done. }
  unfold connection_free. apply wp_bind. eapply wp_get_con; [done|]. apply wp_bind, wp_modify, wp_bind, wp_modify.
  cbn [connections_list upd]. rewrite Ef. apply wp_bind. eapply wp_update; [cbn; rewrite E2; reflexivity|].
  apply wp_bind. eapply wp_update; [cbn; rewrite E1; reflexivity|].
  wp_run. cbn. split; [|done]. constructor; cbn; try done.
  - rewrite El, <- Permutation_middle in H1. by apply NoDup_cons in H1 as [_ ?].
  - intros q. rewrite lookup_delete. destruct (decide (p = q)) as [->|Hne].
    + split; [done|]. by intros [??].
    + rewrite <- H2, El, <- (Permutation_middle _ _ p), elem_of_cons. split; [by right|]. by intros [->|].
  - rewrite H3, El, !len_app, len_cons. lia.
  - lia.
  - exists (k1 ++ k2). split; [|done]. eapply ot_value_ext; [|exact Hk]. intros q Hq. rewrite Hpa in Hq.
    specialize (Hrow q Hq). by injection Hrow as _ ->.
  - exists (j1 ++ j2). split; [|done]. eapply ot_value_ext; [|exact Hj]. intros q Hq. rewrite Hpb in Hq.
    specialize (Hrow q Hq). by injection Hrow as -> _.
  - intros q Hq. destruct (Hin q Hq). specialize (Hrow q Hq). injection Hrow as _ ->. by apply H8.
  - intros q Hq. destruct (Hin q Hq). specialize (Hrow q Hq). injection Hrow as -> _. by apply H9.
Qed.

(** ** Submitting *)

Lemma conaddr_row o p a : row (connections o) p = (conid_at (connections o) p, a) ↔
  conaddr_at (connections o) p = a.
Proof. unfold row. split; [by intros [= ->]|by intros ->]. Qed.

Definition packets (es : list call) : list bytes :=
  omap (λ e, match e with EndPacket _ p => Some p | _ => None end) es.

Definition dns_flags (is_dns : bool) : Z := if is_dns then UDPGW_CLIENT_FLAG_DNS else 0.

(** What the table does on a packet between the addresses [a]. *)
Inductive submit_step (env : answers) (max : Z) (a : UdpGwClient_conaddr) (is_dns : bool) (data : bytes) :
    list (Z * UdpGwClient_conaddr) → list (Z * UdpGwClient_conaddr) → list bytes → Prop :=
  | submit_known t1 id t2 :
      submit_step env max a is_dns data (t1 ++ (id, a) :: t2) (t1 ++ t2 ++ [(id, a)])
        (if room_answer env then [packet (dns_flags is_dns) id (remote_addr a) data] else [])
  | submit_rebind id b t : len ((id, b) :: t) = max → a ∉ ((id, b) :: t).*2 →
      submit_step env max a is_dns data ((id, b) :: t) (t ++ [(id, a)])
        (if room_answer env
         then [packet (Z.lor (dns_flags is_dns) UDPGW_CLIENT_FLAG_REBIND) id (remote_addr a) data] else [])
  | submit_new t id : len t < max → a ∉ t.*2 → 0 ≤ id < max → id ∉ t.*1 →
      is_Some (malloc_answer env) → ppflow_answer env = true →
      submit_step env max a is_dns data t (t ++ [(id, a)]) []
  | submit_no_memory t : len t < max → a ∉ t.*2 →
      malloc_answer env = None ∨ ppflow_answer env = false →
      submit_step env max a is_dns data t t [].

Lemma table_addrs o : (table o).*2 = conaddr_at (connections o) <$> connections_list o.
Proof. unfold table. by rewrite <- list_fmap_compose. Qed.
Lemma table_ids o : (table o).*1 = conid_at (connections o) <$> connections_list o.
Proof. unfold table. by rewrite <- list_fmap_compose. Qed.
Lemma not_in_fmap {A B} (f : A → B) y (l : list A) : (∀ x, x ∈ l → f x ≠ y) → y ∉ f <$> l.
Proof. intros H (x & -> & Hx)%list_elem_of_fmap. by apply (H x). Qed.
Lemma len_table o : len (table o) = len (connections_list o).
Proof. unfold table, len. by rewrite length_fmap. Qed.

Lemma packets_sent env p d : packets (sent env p d) = if room_answer env then [d] else [].
Proof. unfold sent. by destruct (room_answer env). Qed.

Lemma same_config_refl o : same_config o o.
Proof. done. Qed.

Lemma submit_ok o env la ra is_dns data : inv o → BAddr_ok la → BAddr_ok ra → len data ≤ udp_mtu o →
  (∀ con, malloc_answer env = Some con → connections o !! con = None) →
  wp (UdpGwClient_SubmitPacket env la ra is_dns data) o (λ _ o' es, inv o' ∧ same_config o o' ∧
    submit_step env (max_connections o) (Conaddr la ra) is_dns data (table o) (table o') (packets es) ∧
    ∀ con, first_job_Set con ∈ es → first_job_Free con ∉ es →
      ∃ c, connections o' !! con = Some c ∧ first_flags c = dns_flags is_dns ∧ first_data_len c = len data ∧
        conaddr c = Conaddr la ra ∧ con_conid c ∉ (table o).*1).
Proof.
  intros Hi Hla Hra Hd Hmalloc. set (a := Conaddr la ra). assert (conaddr_ok a) as Ha by done.
  pose proof (i_max _ Hi) as [Hm Hnm]. pose proof (i_num _ Hi) as Hnum.
  unfold UdpGwClient_SubmitPacket. apply wp_bind, wp_get.
  apply wp_bind, wp_assert; [by destruct la|]. apply wp_bind, wp_assert; [by destruct ra|].
  apply wp_bind, wp_assert; [by apply Z.leb_le|]. cbv zeta. fold a.
  replace (if is_dns then Z.lor 0 UDPGW_CLIENT_FLAG_DNS else 0) with (dns_flags is_dns) by by destruct is_dns.
  apply wp_bind. apply find_conaddr_ok; [done|done| |].
  - intros p Hp Ep. apply wp_bind, wp_ret. cbn beta iota.
    destruct (list_elem_of_split _ _ Hp) as (l1 & l2 & El).
    apply (move_back_ok _ l1 p l2); [done|done|]. intros Hi'.
    apply send_ok; [done|cbn; set_solver|done|]. cbn [connections upd app].
    split; [done|]. split; [done|]. unfold table. cbn [connections_list connections upd]. rewrite El. split.
    + rewrite !fmap_app, fmap_cons, packets_sent, Ep. cbn [fmap list_fmap app].
      rewrite (proj2 (conaddr_row o p a) Ep). apply submit_known.
    + unfold sent. by destruct (room_answer env); set_solver.
  - intros Hfree.
    assert (a ∉ (table o).*2) as Hnot by (rewrite table_addrs; by apply not_in_fmap).
    destruct (Z.eqb_spec (num_connections o) (max_connections o)) as [Efull|Efull].
    + destruct (connections_list o) as [|p l] eqn:El; [rewrite len_nil in Hnum; lia|].
      apply wp_bind, wp_bind. eapply wp_mono; [eapply (reuse_ok o a p l); rewrite ?El; done|].
      intros r o1 es (-> & -> & Hi1 & Hc1 & El1 & Hr1 & Hr2). apply wp_ret. cbn beta iota. 
      rewrite El in El1. apply (move_back_ok _ [] p l); [done|done|]. intros Hi2.
      apply send_ok; [done|cbn; set_solver|by cbn; destruct Hc1 as [-> _]|]. cbn [connections upd app].
      assert (row (connections o1) <$> l = row (connections o) <$> l) as Erow.
      { apply list_fmap_ext. intros i q Hq. apply Hr2. pose proof (i_list _ Hi) as Hn. rewrite El in Hn.
        apply NoDup_cons in Hn as [Hn _]. intros ->. by apply Hn, (list_elem_of_lookup_2 _ i). }
      split; [done|]. split; [done|]. unfold table in *. cbn [connections_list connections upd]. rewrite El in *. split.
      * injection Hr1 as Eid Ea. rewrite packets_sent, fmap_app, Erow, Ea, Eid. cbn [fmap list_fmap].
        replace (row (connections o1) p) with (conid_at (connections o) p, a)
          by (unfold row; by rewrite Eid, Ea).
        rewrite fmap_cons in *. apply submit_rebind; [|done].
        rewrite len_cons. unfold len in *. rewrite length_fmap. cbn [length] in Hnum. lia.
      * unfold sent. by destruct (room_answer env); set_solver.
    + apply wp_bind, wp_ret. cbn beta iota.
      eapply wp_mono; [apply init_ok; try done; [lia|pose proof (len_nonneg data); lia]|].
      intros [] o' es [Hi' Hpost]. split; [done|]. cbn [app].
      destruct (malloc_answer env) as [con|] eqn:Em; [destruct (ppflow_answer env) eqn:Epp|].
      * destruct Hpost as [(Hc & El' & id & Em' & Hid & Hidf) ->]. split; [done|]. split.
        -- assert (row (connections o') <$> connections_list o = table o) as Erow.
           { apply list_fmap_ext. intros i q Hq. apply list_elem_of_lookup_2 in Hq. rewrite Em'.
             unfold row, conid_at, conaddr_at. rewrite lookup_insert_ne; [done|]. intros ->.
             apply (i_dom _ Hi) in Hq as [??]. specialize (Hmalloc q eq_refl). congruence. }
           unfold table at 2. rewrite El', fmap_app, Erow. cbn [fmap list_fmap packets omap list_omap].
           replace (row (connections o') con) with (id, a)
             by (unfold row, conid_at, conaddr_at; by rewrite Em', lookup_insert_eq).
           apply submit_new; [rewrite len_table; lia|done|done| |by rewrite Em|done].
           rewrite table_ids. by apply not_in_fmap.
        -- intros con' Hs _. assert (con' = con) as -> by set_solver.
           exists (MkConnection a (dns_flags is_dns) (len data) id). rewrite Em', lookup_insert_eq.
           split_and!; try done. rewrite table_ids. by apply not_in_fmap.
      * destruct Hpost as (id & -> & ->). split; [done|]. split; [|set_solver].
        change (table (o <| next_conid := id |>)) with (table o). apply submit_no_memory; [rewrite len_table; lia|done|by right].
      * destruct Hpost as [-> ->]. split; [done|]. split; [|set_solver].
        apply submit_no_memory; [rewrite len_table; lia|done|by left].
Qed.

Lemma first_job_ok o env con c data Q : inv o → connections o !! con = Some c →
  len data = first_data_len c → len data ≤ udp_mtu o →
  Q tt o (sent env con (packet (Z.lor UDPGW_CLIENT_FLAG_REBIND (first_flags c)) (con_conid c)
                         (remote_addr (conaddr c)) data)) →
  wp (connection_first_job_handler env con data) o Q.
Proof.
  intros Hi Ec El Hd HQ. unfold connection_first_job_handler. apply wp_bind. eapply wp_get_con; [done|].
  apply wp_bind, wp_assert; [by apply Z.eqb_eq|]. apply send_ok; [done|by apply (i_dom _ Hi); rewrite Ec|done|].
  unfold conid_at, conaddr_at. by rewrite Ec.
Qed.

(** ** Receiving *)

Lemma table_nodup o : inv o → NoDup (table o).*1 ∧ NoDup (table o).*2.
Proof.
  intros Hi. rewrite table_ids, table_addrs.
  assert (∀ {K} (P : K → Prop) cmp `{!Comparator P cmp} value t l, ot_holds P cmp value t l →
    l ≡ₚ connections_list o → NoDup (value <$> connections_list o)) as H.
  { intros K P cmp HC value t l Hh Hp. rewrite <- Hp. apply ot_sorted in Hh. clear -Hh HC.
    induction Hh as [|x l Hs IH Hf]; [constructor|]. cbn. constructor; [|done].
    rewrite Forall_forall in Hf. intros (y & E & Hy)%list_elem_of_fmap. specialize (Hf y Hy).
    rewrite <- E, (cmp_refl P cmp) in Hf. done. }
  destruct (i_addr _ Hi) as (la & Hla & Hpa), (i_conid _ Hi) as (lb & Hlb & Hpb).
  split; [exact (H _ _ _ _ _ _ _ Hlb Hpb)|exact (H _ _ _ _ _ _ _ Hla Hpa)].
Qed.

(** What the table does on a packet from the server. *)
Inductive receive_step (mtu : Z) (data : bytes) : list (Z * UdpGwClient_conaddr) →
    list (Z * UdpGwClient_conaddr) → list call → Prop :=
  | receive_deliver t1 id la ra d t2 : parse_packet data = Some (id, ra, d) → len d ≤ mtu →
      receive_step mtu data (t1 ++ (id, Conaddr la ra) :: t2) (t1 ++ t2 ++ [(id, Conaddr la ra)])
        [recv_if_Done; handler_received la ra d]
  | receive_drop t :
      (∀ id la ra d, parse_packet data = Some (id, ra, d) → len d ≤ mtu → (id, Conaddr la ra) ∉ t) →
      receive_step mtu data t t [recv_if_Done].

Lemma bytes_ok_drop n d : bytes_ok d → bytes_ok (drop n d).
Proof. apply Forall_drop. Qed.
Lemma bytes_ok_take n d : bytes_ok d → bytes_ok (take n d).
Proof. apply Forall_take. Qed.

Lemma parse_packet_ok data id ra d : bytes_ok data → parse_packet data = Some (id, ra, d) → BAddr_ok ra.
Proof.
  intros Hb. unfold parse_packet. case_match eqn:E1; [done|]. case_match eqn:E2.
  - case_match eqn:E3; [done|]. intros [= _ <- _]. bool_to_prop. unfold zdrop in *.
    set (k := drop _ data) in *. assert (bytes_ok k) as Hk by by apply bytes_ok_drop.
    unfold len, sizeof_udpgw_addr_ipv6 in E3. cbn. split; [split|].
    + rewrite take_take, length_take. lia.
    + by apply bytes_ok_take, bytes_ok_take.
    + pose proof (bytes_ok_drop 16 k Hk) as Hk'. assert (2 ≤ length (drop 16 k))%nat as Hl by (rewrite length_drop; lia).
      destruct (drop 16 k) as [|b0 [|b1 k']]; [cbn in Hl; lia..|]. inversion Hk' as [|? ? ? Hk'']; inversion Hk''; subst.
      by apply read_le16_u16.
  - case_match eqn:E3; [done|]. intros [= _ <- _]. bool_to_prop. unfold zdrop in *.
    set (k := drop _ data) in *. assert (bytes_ok k) as Hk by by apply bytes_ok_drop.
    unfold len, sizeof_udpgw_addr_ipv4 in E3. cbn.
    destruct k as [|b0 [|b1 [|b2 [|b3 [|b4 [|b5 k]]]]]]; [cbn in E3; lia..|].
    unfold bytes_ok in Hk. repeat match goal with H : Forall is_u8 (_ :: _) |- _ => apply Forall_cons in H as [??] end.
    split; [by apply read_le32_u32|by apply read_le16_u16].
Qed.

Lemma nodup_fmap_eq {A B} (f : A → B) (l : list A) x y : NoDup (f <$> l) → x ∈ l → y ∈ l → f x = f y → x = y.
Proof.
  intros Hn [i Hi]%list_elem_of_lookup [j Hj]%list_elem_of_lookup E.
  assert (i = j) as ->; [|congruence].
  apply (NoDup_lookup _ i j (f x) Hn); rewrite list_lookup_fmap, ?Hi, ?Hj; cbn; congruence.
Qed.

Lemma received_ok o data : inv o → have_server o = true → len data ≤ udpgw_mtu o → bytes_ok data →
  wp (recv_interface_handler_send data) o (λ _ o' es, inv o' ∧ same_config o o' ∧
    receive_step (udp_mtu o) data (table o) (table o') es).
Proof.
  intros Hi Hs Hd Hb. unfold recv_interface_handler_send. apply wp_bind, wp_get.
  apply wp_bind, wp_assert; [done|]. apply wp_bind, wp_assert; [by apply Z.leb_le|]. apply wp_bind, wp_emit.
  destruct (parse_packet data) as [[[id ra] d]|] eqn:Ep.
  2:{ apply wp_ret. split_and!; try done. apply receive_drop. intros ???? E. congruence. }
  destruct (Z.ltb_spec (udp_mtu o) (len d)) as [Hl|Hl].
  { apply wp_ret. split_and!; try done. apply receive_drop. intros ???? E ?. rewrite Ep in E. injection E as <- <- <-. lia. }
  pose proof (parse_packet_ok _ _ _ _ Hb Ep) as Hra. apply wp_bind. apply find_conid_ok; [done| |].
  - intros p Hp Eid. destruct (proj1 (i_dom _ Hi p) Hp) as [c Ec].
    apply wp_bind. eapply wp_get_con; [done|].
    assert (conaddr_at (connections o) p = conaddr c) as Ea by (unfold conaddr_at; by rewrite Ec).
    pose proof (i_ok _ Hi p Hp) as Hok. rewrite Ea in Hok.
    assert (row (connections o) p = (id, conaddr c)) as Erow by (unfold row; by rewrite Eid, Ea).
    destruct (list_elem_of_split _ _ Hp) as (l1 & l2 & El).
    destruct (Z.eqb_spec (BAddr_CompareOrder (remote_addr (conaddr c)) ra) 0) as [E|E]; cbn [negb].
    + apply (proj1 (CompareOrder_eq _ _ (proj1 Hok) Hra)) in E. apply (move_back_ok _ l1 p l2); [done|done|]. intros Hi'.
      apply wp_emit. split; [done|]. split; [done|]. unfold table. cbn [connections connections_list upd].
      rewrite El, !fmap_app, fmap_cons. cbn [fmap list_fmap app]. rewrite Erow.
      destruct (conaddr c) as [la ra']. cbn [remote_addr local_addr] in *. subst ra'. by apply receive_deliver.
    + apply wp_ret. split_and!; try done. apply receive_drop. intros id' la ra' d' E' _ Hin.
      rewrite Ep in E'. injection E' as <- <- <-.
      destruct (table_nodup _ Hi) as [Hn _]. apply list_elem_of_fmap in Hin as (q & Eq & Hq).
      injection Eq as Eq1 Eq2. assert (q = p) as ->.
      { rewrite table_ids in Hn. eapply (nodup_fmap_eq _ _ _ _ Hn); [done|done|congruence]. }
      rewrite Ea in Eq2. apply E. rewrite <- Eq2. cbn. by apply (proj2 (CompareOrder_eq _ _ Hra Hra)).
  - intros Hnone. apply wp_ret. split_and!; try done. apply receive_drop. intros id' la ra' d' E' _ Hin.
    rewrite Ep in E'. injection E' as <- <- <-. apply list_elem_of_fmap in Hin as (q & Eq & Hq).
    injection Eq as Eq1 _. by apply (Hnone q Hq).
Qed.

(** ** Packets *)

Lemma packet_len flags id ra data : BAddr_ok ra → len (packet flags id ra data) ≤ len data + 21.
Proof.
  intros Hra. unfold packet. rewrite !len_app. unfold udpgw_header_mem.
  rewrite len_cons. destruct ra as [|ip port|ip port|]; try done.
  - unfold address_mem, udpgw_addr_ipv4_mem. rewrite len_app. unfold len, mem16, mem32.
    rewrite !le_bytes_length. lia.
  - destruct Hra as [[Hl _] _]. unfold address_mem, udpgw_addr_ipv6_mem. rewrite len_app. cbn [addr_ip6 addr_port6].
    unfold len, mem16, mem32. rewrite !le_bytes_length, Hl. lia.
Qed.

Lemma ipv6_flag_set f : Z.land (Z.lor f UDPGW_CLIENT_FLAG_IPV6) UDPGW_CLIENT_FLAG_IPV6 ≠ 0.
Proof. rewrite Z.land_lor_distr_l. intros [_ E]%Z.lor_eq_0_iff. done. Qed.

Lemma parse_packet_packet flags id ra data : BAddr_ok ra → is_u16 id →
  Z.land flags UDPGW_CLIENT_FLAG_IPV6 = 0 →
  parse_packet (packet flags id ra data) = Some (id, ra, data).
Proof.
  intros Hra Hid Hf. unfold parse_packet, packet.
  set (f := if BAddr_type ra =? 2 then _ else _).
  assert (len (udpgw_header_mem (UdpgwHeader f id)) = sizeof_udpgw_header) as Hh by done.
  assert (sizeof_udpgw_header ≤ len (udpgw_header_mem (UdpgwHeader f id) ++ address_mem ra ++ data)) as Hl.
  { rewrite len_app, Hh. pose proof (len_nonneg (address_mem ra ++ data)). lia. }
  rewrite (proj2 (Z.ltb_ge _ _)) by done.
  cbv zeta. rewrite <- Hh. rewrite !zdrop_app.
  assert (udpgw_header_load (udpgw_header_mem (UdpgwHeader f id) ++ address_mem ra ++ data) = UdpgwHeader f id) as ->.
  { unfold udpgw_header_load. f_equal. by apply (read_le16_mem16 id). }
  cbn [UdpGwProto.flags UdpGwProto.conid]. change (ltoh8 f) with f. change (ltoh16 id) with id.
  destruct ra as [|ip port|ip port|]; try done; unfold f; cbn [BAddr_type Z.eqb Pos.eqb].
  - rewrite Hf. cbn [Z.eqb negb]. destruct Hra as [Hip Hport].
    set (am := address_mem _). assert (len am = sizeof_udpgw_addr_ipv4) as Ha by done.
    rewrite (proj2 (Z.ltb_ge _ _)) by (rewrite len_app, Ha; pose proof (len_nonneg data); lia).
    rewrite <- Ha. rewrite zdrop_app. unfold am, address_mem, udpgw_addr_ipv4_mem, udpgw_addr_ipv4_load.
    cbn [addr_ip addr_port]. rewrite <- app_assoc, read_le32_mem32 by done.
    change (drop 4 (mem32 ip ++ mem16 port ++ data)) with (mem16 port ++ data). by rewrite read_le16_mem16.
  - rewrite (proj2 (Z.eqb_neq _ _) (ipv6_flag_set flags)). cbn [negb]. destruct Hra as [[Hip _] Hport].
    set (am := address_mem _). assert (len am = sizeof_udpgw_addr_ipv6) as Ha.
    { unfold am, address_mem, udpgw_addr_ipv6_mem. rewrite len_app. cbn [addr_ip6 addr_port6].
      unfold len. rewrite Hip. done. }
    rewrite (proj2 (Z.ltb_ge _ _)) by (rewrite len_app, Ha; pose proof (len_nonneg data); lia).
    rewrite <- Ha. rewrite zdrop_app. unfold am, address_mem, udpgw_addr_ipv6_mem, udpgw_addr_ipv6_load.
    cbn [addr_ip6 addr_port6]. unfold BAddr_InitIPv6, BAddr_MakeIPv6.
    rewrite <- app_assoc, <- Hip, take_app_length, take_ge, drop_app_length by lia. by rewrite read_le16_mem16.
Qed.

(** ** Setup and end *)

Lemma compute_mtu_spec SIZE_MAX mtu : INT_MAX ≤ SIZE_MAX → 0 ≤ mtu ≤ INT_MAX →
  udpgw_compute_mtu SIZE_MAX mtu = if mtu + 21 <=? INT_MAX then mtu + 21 else -1.
Proof.
  unfold INT_MAX. intros HS Hm. unfold udpgw_compute_mtu, BSize.bsize_toint, INT_MAX.
  unfold BSize.bsize_add, BSize.bsize_max, BSize.bsize_fromsize, BSize.bsize_fromint, BSize.size_wrap.
  unfold sizeof_udpgw_header, sizeof_udpgw_addr_ipv4, sizeof_udpgw_addr_ipv6.
  cbn [BSize.is_overflow BSize.value].
  change (Z.b2z (18 <? 6) * 6 + Z.b2z (6 <=? 18) * 18) with 18. cbn [orb].
  rewrite (proj2 (Z.ltb_ge mtu 0)), (proj2 (Z.ltb_ge SIZE_MAX mtu)) by lia. cbn [orb].
  rewrite (Z.mod_small mtu) by lia.
  destruct (Z.leb_spec (mtu + 21) 2147483647) as [Hle|Hgt].
  - rewrite (proj2 (Z.ltb_ge (SIZE_MAX - 18) mtu)) by lia. cbn [orb]. rewrite (Z.mod_small (18 + mtu)) by lia.
    rewrite (proj2 (Z.ltb_ge (SIZE_MAX - 3) (18 + mtu))) by lia. cbn [orb].
    rewrite (Z.mod_small (3 + (18 + mtu))) by lia. rewrite (proj2 (Z.ltb_ge 2147483647 _)) by lia. lia.
  - destruct (Z.ltb_spec (SIZE_MAX - 18) mtu); cbn [orb]; [done|].
    rewrite (Z.mod_small (18 + mtu)) by lia. destruct (Z.ltb_spec (SIZE_MAX - 3) (18 + mtu)); cbn [orb]; [done|].
    rewrite (Z.mod_small (3 + (18 + mtu))) by lia. by rewrite (proj2 (Z.ltb_lt 2147483647 _)) by lia.
Qed.

Lemma init_inv SIZE_MAX mtu max buffer o : INT_MAX ≤ SIZE_MAX → 0 ≤ mtu ≤ INT_MAX →
  UdpGwClient_Init SIZE_MAX mtu max buffer true = Some (Some o) →
  inv o ∧ table o = [] ∧ udp_mtu o = mtu ∧ max_connections o = Z.min max (UINT16_MAX + 1) ∧
  have_server o = false.
Proof.
  intros HS Hm. unfold UdpGwClient_Init. rewrite compute_mtu_spec by done.
  destruct (Z.leb_spec (mtu + 21) INT_MAX) as [Hi|Hi]; [|by rewrite andb_false_r || destruct (0 <=? mtu)].
  destruct (Z.leb_spec (mtu + 21) PACKETPROTO_MAXPAYLOAD) as [Hp|Hp]; [|by repeat case_match].
  destruct (Z.ltb_spec 0 max) as [Hx|Hx]; [|by repeat case_match].
  destruct (Z.ltb_spec 0 buffer) as [Hbf|Hbf]; [|by repeat case_match].
  case_match; [|done]. case_match; [|done]. cbn [negb]. intros [= <-].
  assert ((if UINT16_MAX + 1 <? max then UINT16_MAX + 1 else max) = Z.min max (UINT16_MAX + 1)) as ->
    by (unfold UINT16_MAX; case_match; bool_to_prop; lia).
  unfold PACKETPROTO_MAXPAYLOAD, UINT16_MAX in *.
  split_and!; try done. constructor; cbn [connections connections_list num_connections max_connections
    next_conid connections_tree_by_conaddr connections_tree_by_conid udp_mtu udpgw_mtu];
    rewrite ?len_nil; unfold UINT16_MAX; try done; try lia.
  - constructor.
  - intros p. rewrite lookup_empty. split; [by intros ?%elem_of_nil|by intros [??]].
  - exists []. split; [apply ot_init_holds|done].
  - exists []. split; [apply ot_init_holds|done].
  - by intros p ?%elem_of_nil.
  - by intros p ?%elem_of_nil.
Qed.

Definition freed (es : list call) : list positive :=
  omap (λ e, match e with free_connection p => Some p | _ => None end) es.

Lemma free_connections_ok rounds : ∀ o, inv o → (length (connections_list o) ≤ rounds)%nat →
  wp (free_connections rounds) o (λ _ o' es, inv o' ∧ have_server o' = have_server o ∧
    connections o' = ∅ ∧ connections_list o' = [] ∧ freed es = connections_list o).
Proof.
  induction rounds as [|rounds IH]; intros o Hi Hl; cbn [free_connections].
  - apply wp_bind, wp_get. destruct (connections_list o) as [|p l] eqn:El; [|cbn in Hl; lia]. apply wp_ret.
    split_and!; try done. apply map_empty. intros p. destruct (connections o !! p) as [c|] eqn:Ec; [|done].
    assert (p ∈ connections_list o) as Hp by (apply (i_dom _ Hi); eauto). rewrite El in Hp. by apply elem_of_nil in Hp.
  - apply wp_bind, wp_get. destruct (connections_list o) as [|p l] eqn:El.
    { apply wp_ret. split_and!; try done. apply map_empty. intros p. destruct (connections o !! p) as [c|] eqn:Ec; [|done].
      assert (p ∈ connections_list o) as Hp by (apply (i_dom _ Hi); eauto). rewrite El in Hp. by apply elem_of_nil in Hp. }
    apply wp_bind. eapply wp_mono; [by apply (free_ok o p [] l)|].
    intros [] o1 es (Hi1 & Hc1 & El1 & Em1 & ->). cbn [app] in El1.
    eapply wp_mono; [apply IH; [done|rewrite El1; cbn in Hl; lia]|].
    intros [] o2 es2 (Hi2 & Hs2 & Em2 & El2 & Hf). split_and!; try done.
    + rewrite Hs2. by destruct Hc1 as (_ & _ & _ & _ & _ & _ & ?).
    + cbn. unfold freed in Hf. by rewrite Hf, El1.
Qed.

Lemma packet_bytes_ok flags id ra data : BAddr_ok ra → bytes_ok data → is_u8 flags →
  bytes_ok (packet flags id ra data).
Proof.
  intros Hra Hd Hf. assert (∀ f, is_u8 f → is_u8 (Z.lor f UDPGW_CLIENT_FLAG_IPV6)) as H8.
  { intros f [Hf0 Hf1]. assert (0 ≤ Z.lor f UDPGW_CLIENT_FLAG_IPV6) as H0 by (by apply Z.lor_nonneg).
    split; [done|]. destruct (Z.eq_dec (Z.lor f UDPGW_CLIENT_FLAG_IPV6) 0) as [->|Hn]; [done|].
    apply Z.log2_lt_pow2; [lia|].
    rewrite Z.log2_lor by done. apply Z.max_lub_lt; [|done].
    destruct (Z.eq_dec f 0) as [->|]; [done|]. apply Z.log2_lt_pow2; lia. }
  unfold packet, bytes_ok. rewrite !Forall_app. split_and!; [|destruct ra as [|ip port|ip port|]; try done|done].
  - constructor; [|apply mem16_ok]. cbn. destruct (_ =? 2); auto.
  - apply Forall_app. split; [apply mem32_ok|apply mem16_ok].
  - destruct Hra as [[_ Hip] _]. apply Forall_app. split; [done|apply mem16_ok].
Qed.

Lemma client_free_ok o : inv o →
  wp UdpGwClient_Free o (λ _ o' es, connections o' = ∅ ∧ freed es = connections_list o).
Proof.
  intros Hr. unfold UdpGwClient_Free. apply wp_bind, wp_get, wp_bind.
  eapply wp_mono; [by apply free_connections_ok|]. intros [] o1 es1 (_ & _ & Hm & _ & Hf).
  unfold free_server. destruct (have_server o); cbn [when]; wp_run; (split; [done|]);
    unfold freed in *; rewrite !omap_app, Hf; cbn; by rewrite app_nil_r.
Qed.

(** ** Executions *)

(** [malloc] returns memory that is not in use. *)
Definition malloc_fresh o (env : answers) : Prop :=
  ∀ con, malloc_answer env = Some con → connections o !! con = None.

Inductive reach : UdpGwClient T → Prop :=
  | reach_init SIZE_MAX mtu max buffer o : INT_MAX ≤ SIZE_MAX → 0 ≤ mtu ≤ INT_MAX →
      UdpGwClient_Init SIZE_MAX mtu max buffer true = Some (Some o) → reach o
  | reach_submit o env la ra is_dns data o' es : reach o → BAddr_ok la → BAddr_ok ra →
      len data ≤ udp_mtu o → malloc_fresh o env →
      UdpGwClient_SubmitPacket env la ra is_dns data o = Some (tt, o', es) → reach o'
  | reach_received o data o' es : reach o → have_server o = true → len data ≤ udpgw_mtu o →
      bytes_ok data → recv_interface_handler_send data o = Some (tt, o', es) → reach o'
  | reach_connect o ok b o' es : reach o → UdpGwClient_ConnectServer ok o = Some (b, o', es) → reach o'
  | reach_disconnect o o' es : reach o → UdpGwClient_DisconnectServer o = Some (tt, o', es) → reach o'.

Lemma inv_server o b : inv o → inv (o <| have_server := b |>).
Proof. intros []. by constructor. Qed.

Lemma udpgw_reach_inv o : reach o → inv o.
Proof.
  induction 1 as [SM mtu max buffer o HS Hm E|o env la ra dns data o' es _ IH Hla Hra Hd Hf E
    |o data o' es _ IH Hs Hd Hb E|o ok b o' es _ IH E|o o' es _ IH E].
  - by apply (init_inv SM mtu max buffer).
  - pose proof (submit_ok o env la ra dns data IH Hla Hra Hd Hf) as H. unfold wp in H. rewrite E in H. apply H.
  - pose proof (received_ok o data IH Hs Hd Hb) as H. unfold wp in H. rewrite E in H. apply H.
  - unfold UdpGwClient_ConnectServer, mbind, prog_bind, get_st, ASSERT in E.
    destruct (have_server o), ok; cbn in E; try done; injection E as _ <- _; [by apply inv_server|done].
  - unfold UdpGwClient_DisconnectServer, mbind, prog_bind, get_st, ASSERT in E.
    destruct (have_server o); cbn in E; [|done]. injection E as <- _. by apply inv_server.
Qed.

(** ** Results *)

Lemma submit_packets env max a dns data t t' ps : submit_step env max a dns data t t' ps → BAddr_ok (remote_addr a) →
  Forall (λ p, len p ≤ len data + 21) ps.
Proof. intros [] Ha; try constructor; destruct (room_answer env); repeat constructor; by apply packet_len. Qed.

(** C6: Submitting a datagram does to the table of connections, ordered by least
    recent use, what the gateway protocol asks: a datagram of a known pair of
    addresses is sent on its connection, which becomes the most recently used;
    of an unknown pair on a full table, the least recently used connection is
    rebound to the pair, keeping its conid, with the REBIND flag; otherwise a
    connection with an unused conid below the limit is created (unless memory
    runs out, which leaves the table as it was), whose first job sends the
    datagram with the REBIND flag. Packets fit the MTU of the gateway
    protocol, and no assertion fails. *)
Theorem udpgw_submit_refines_table o env la ra is_dns data : reach o → BAddr_ok la → BAddr_ok ra →
  len data ≤ udp_mtu o → malloc_fresh o env →
  ∃ o' es, UdpGwClient_SubmitPacket env la ra is_dns data o = Some (tt, o', es) ∧
    submit_step env (max_connections o) (Conaddr la ra) is_dns data (table o) (table o') (packets es) ∧
    Forall (λ p, len p ≤ udpgw_mtu o) (packets es) ∧
    ∀ con env', first_job_Set con ∈ es → first_job_Free con ∉ es → ∃ id, (id, Conaddr la ra) ∈ table o' ∧
      (id ∉ (table o).*1) ∧
      connection_first_job_handler env' con data o' = Some (tt, o', sent env' con
        (packet (Z.lor UDPGW_CLIENT_FLAG_REBIND (dns_flags is_dns)) id ra data)).
Proof.
  intros Hr%udpgw_reach_inv Hla Hra Hd Hf.
  destruct (proj1 (wp_some _ _ _) (submit_ok o env la ra is_dns data Hr Hla Hra Hd Hf))
    as ([] & o' & es & E & Hi & Hc & Hs & Hj).
  pose proof (submit_packets _ _ _ _ _ _ _ _ Hs Hra) as Hp. destruct (i_mtu _ Hr) as (_ & Hmtu & _).
  exists o', es. split_and!; [done|done| |].
  { eapply Forall_impl; [exact Hp|]. cbn. intros x Hx. lia. }
  intros con env' Hset Hfree. destruct (Hj con Hset Hfree) as (c & Ec & Ef & El & Ea & Eid).
  exists (con_conid c). split_and!; [|done|].
  - apply list_elem_of_fmap. exists con. split; [|apply (i_dom _ Hi); eauto].
    unfold row, conid_at, conaddr_at. by rewrite Ec, Ea.
  - destruct Hc as (Hm & _). pose proof (first_job_ok o' env' con c data (λ _ o'' es', o'' = o' ∧ es' =
      sent env' con (packet (Z.lor UDPGW_CLIENT_FLAG_REBIND (dns_flags is_dns)) (con_conid c) ra data))) as H.
    rewrite Ef, Ea in H. cbn [remote_addr] in H. apply wp_some in H; [|done..|by rewrite Hm|done].
    by destruct H as ([] & ? & ? & E' & -> & ->).
Qed.


(** The packet written for a datagram on a connection is read back by the
    receiving side as that datagram on that connection: the header, the address
    of either family and the data are decoded to what was encoded. *)
Theorem udpgw_packet_roundtrip o env con flags data : reach o → have_server o = true →
  con ∈ connections_list o → len data ≤ udp_mtu o → bytes_ok data → is_u8 flags →
  Z.land flags UDPGW_CLIENT_FLAG_IPV6 = 0 → room_answer env = true →
  ∃ pk o', connection_send env con flags data o = Some (tt, o, [EndPacket con pk]) ∧
    recv_interface_handler_send pk o = Some (tt, o', [recv_if_Done;
      handler_received (local_addr (conaddr_at (connections o) con))
                       (remote_addr (conaddr_at (connections o) con)) data]).
Proof.
  intros Hr%udpgw_reach_inv Hs Hc Hd Hb Hf Hf6 Hroom.
  set (pk := packet flags (conid_at (connections o) con) (remote_addr (conaddr_at (connections o) con)) data).
  exists pk. pose proof (i_ok _ Hr con Hc) as [Hra _]. pose proof (i_range _ Hr con Hc) as Hid.
  pose proof (i_max _ Hr) as [Hm _]. unfold UINT16_MAX in Hm. destruct (i_mtu _ Hr) as (_ & Hmtu & _).
  assert (is_u16 (conid_at (connections o) con)) as Hid16 by (unfold is_u16; lia).
  pose proof (packet_len flags (conid_at (connections o) con) _ data Hra) as Hlen.
  assert (bytes_ok pk) as Hpk by by apply packet_bytes_ok.
  destruct (proj1 (wp_some _ _ _) (received_ok o pk Hr Hs ltac:(unfold pk; lia) Hpk)) as ([] & o' & es & E & _ & _ & H).
  exists o'. split.
  { pose proof (send_ok o env con flags data (λ _ o' es, o' = o ∧ es = sent env con pk) Hr Hc Hd) as Hsend.
    apply wp_some in Hsend as ([] & ? & ? & Es & -> & ->); [|done]. rewrite Es. unfold sent. by rewrite Hroom. }
  rewrite E. repeat f_equal. pose proof (parse_packet_packet flags _ _ data Hra Hid16 Hf6) as Hparse. fold pk in Hparse.
  assert (row (connections o) con ∈ table o) as Hrow by by apply list_elem_of_fmap_2.
  inversion H as [t1 id la ra d t2 Ep Hl Et Et' Ees|t Hdrop Et Et' Ees].
  - rewrite Hparse in Ep. injection Ep as <- <- <-. destruct (table_nodup _ Hr) as [Hn _].
    rewrite <- Et in Hrow, Hn. assert (row (connections o) con = (conid_at (connections o) con,
      Conaddr la (remote_addr (conaddr_at (connections o) con)))) as Er.
    { eapply (nodup_fmap_eq fst); [exact Hn|done|set_solver|done]. }
    injection Er as Er. by rewrite Er.
  - destruct (Hdrop (conid_at (connections o) con) (local_addr (conaddr_at (connections o) con))
      (remote_addr (conaddr_at (connections o) con)) data); [done|done|].
    replace (Conaddr _ _) with (conaddr_at (connections o) con) by by destruct (conaddr_at (connections o) con).
    exact Hrow.
Qed.

(** C40: While the table is not full, find_unused_conid ends within
    max_connections rounds with a conid below the limit that no connection
    uses, and the search continues from it the next time. *)
Theorem udpgw_find_unused_conid o : reach o → len (table o) < max_connections o →
  ∃ id, find_unused_conid o = Some (id, o <| next_conid := id |>, []) ∧
    0 ≤ id < max_connections o ∧ max_connections o ≤ UINT16_MAX + 1 ∧ id ∉ (table o).*1.
Proof.
  intros Hr%udpgw_reach_inv Hlt. rewrite len_table, <- (i_num _ Hr) in Hlt.
  destruct (proj1 (wp_some _ _ _) (find_unused_ok o Hr Hlt)) as (id & o' & es & E & -> & -> & Hid & Hu).
  exists id. split_and!; try done; try lia; [apply Hr|]. rewrite table_ids. by apply not_in_fmap.
Qed.

(** Freeing the client ends and frees every connection exactly once, in
    the order of the list, whether or not a server is connected. *)
Theorem udpgw_free_frees_all o : reach o →
  ∃ o' es, UdpGwClient_Free o = Some (tt, o', es) ∧ connections o' = ∅ ∧
    freed es = connections_list o ∧ NoDup (freed es) ∧
    ∀ con, con ∈ freed es ↔ is_Some (connections o !! con).
Proof.
  intros Hr%udpgw_reach_inv. pose proof (client_free_ok o Hr) as H.
  apply wp_some in H as ([] & o' & es & E & Hm & Hf). exists o', es. rewrite Hf. split_and!; try done; apply Hr.
Qed.
End facts.

(** ** A concrete client, on the AVL tree *)

#[local] Existing Instance BAVLFacts.bavl_ordered_tree.

Definition SIZE_MAX32 : Z := 4294967295.
Definition ex_local : BAddr := BAddr_InitIPv4 33554442 (hton16 5000).
Definition ex_remote : BAddr := BAddr_InitIPv4 134744072 (hton16 53).
Definition ex_env : answers := Answers (Some 1%positive) true true.
Definition ex_client0 : UdpGwClient BAVLCode.BAVL :=
  match UdpGwClient_Init SIZE_MAX32 1472 16 8 true with
  | Some (Some o) => o
  | _ => MkUdpGwClient 0 0 0 0 0 ∅ ot_init ot_init [] 0 0 false false
  end.
Definition ex_run (m : prog (UdpGwClient BAVLCode.BAVL) call unit) (o : UdpGwClient BAVLCode.BAVL)
    : UdpGwClient BAVLCode.BAVL :=
  match m o with Some (_, o', _) => o' | None => o end.
(** With a server and one connection. *)
Definition ex_client : UdpGwClient BAVLCode.BAVL :=
  ex_run (UdpGwClient_SubmitPacket ex_env ex_local ex_remote true [1; 2; 3])
    (ex_run (UdpGwClient_ConnectServer true;; mret tt) ex_client0).

Lemma ex_reach : reach ex_client.
Proof.
  assert (reach (ex_run (UdpGwClient_ConnectServer true;; mret tt) ex_client0)) as H.
  { eapply (reach_connect ex_client0 true true).
    - eapply (reach_init SIZE_MAX32 1472 16 8); [by vm_compute|by vm_compute|reflexivity].
    - reflexivity. }
  assert (BAddr_ok ex_local ∧ BAddr_ok ex_remote) as [Hl Hr] by by vm_compute.
  destruct (proj1 (wp_some _ _ _) (submit_ok _ ex_env ex_local ex_remote true [1; 2; 3] (udpgw_reach_inv _ H) Hl Hr
    ltac:(by vm_compute) ltac:(done))) as ([] & o' & es & E & _).
  replace ex_client with o' by (unfold ex_client, ex_run at 1; by rewrite E).
  eapply reach_submit; [exact H|exact Hl|exact Hr| | |exact E]; [by vm_compute|done].
Qed.

Lemma udpgw_submit_refines_table_witness : ∃ o' es,
  UdpGwClient_SubmitPacket (Answers None true true) ex_local ex_remote false [7] ex_client = Some (tt, o', es) ∧
  Forall (λ p, len p ≤ udpgw_mtu ex_client) (packets es).
Proof.
  destruct (udpgw_submit_refines_table ex_client (Answers None true true) ex_local ex_remote false [7] ex_reach)
    as (o' & es & E & _ & H & _); [by vm_compute|by vm_compute|by vm_compute|done|].
  exists o', es. split; [exact E|exact H].
Defined.


Lemma udpgw_packet_roundtrip_witness : ∃ pk o',
  connection_send ex_env 1 0 [4; 5] ex_client = Some (tt, ex_client, [EndPacket 1 pk]) ∧
  recv_interface_handler_send pk ex_client =
    Some (tt, o', [recv_if_Done; handler_received ex_local ex_remote [4; 5]]).
Proof.
  apply (udpgw_packet_roundtrip ex_client ex_env 1 0 [4; 5] ex_reach);
    [by vm_compute|vm_compute; constructor|by vm_compute|by repeat constructor|by vm_compute|done|done].
Defined.

Lemma udpgw_find_unused_conid_witness : ∃ id,
  find_unused_conid ex_client = Some (id, ex_client <| next_conid := id |>, []) ∧ 0 ≤ id < 16.
Proof.
  destruct (udpgw_find_unused_conid ex_client ex_reach) as (id & E & Hid & _); [by vm_compute|].
  exists id. split; [exact E|exact Hid].
Defined.

Lemma udpgw_free_frees_all_witness : ∃ o' es,
  UdpGwClient_Free ex_client = Some (tt, o', es) ∧ freed es = [1%positive].
Proof.
  destruct (udpgw_free_frees_all ex_client ex_reach) as (o' & es & E & _ & H & _).
  exists o', es. split; [exact E|]. rewrite H. by vm_compute.
Defined.
End UdpGwClientFacts.
