(* ===== verification/SocksClient.v ===== *)
(** The SOCKS5 client (socksclient/BSocksClient.c, misc/socks_proto.h): it
    connects to the SOCKS server, negotiates an authentication method, asks for
    a connection to the destination and then hands the stream over.

    The connector and the connection are not modelled: creating and freeing them
    and their interfaces is recorded in the state, so that a double free or a
    use of something not there fails, and the sends and receives are emitted.
    A received piece of data arrives in the buffer at the place it was asked
    for. *)
From S2P Require Import Prelude Misc BAddr.

(** * The protocol *)
Module SocksProto.

Definition SOCKS_VERSION : Z := 5.
Definition SOCKS_METHOD_NO_AUTHENTICATION_REQUIRED : Z := 0.
Definition SOCKS_METHOD_USERNAME_PASSWORD : Z := 2.
Definition SOCKS_CMD_CONNECT : Z := 1.
Definition SOCKS_ATYP_IPV4 : Z := 1.
Definition SOCKS_ATYP_IPV6 : Z := 4.
Definition SOCKS_REP_SUCCEEDED : Z := 0.

Record socks_client_hello_header := ClientHelloHeader { ch_ver : Z; ch_nmethods : Z }.
Definition client_hello_header_mem (h : socks_client_hello_header) : bytes := [ch_ver h; ch_nmethods h].
Definition sizeof_client_hello_header : Z := 2.
Definition sizeof_client_hello_method : Z := 1.

Record socks_server_hello := ServerHello { sh_ver : Z; sh_method : Z }.
Definition server_hello_load (d : bytes) : socks_server_hello := ServerHello (byte_at d 0) (byte_at d 1).
Definition sizeof_server_hello : Z := 2.

Record socks_request_header := RequestHeader { rq_ver : Z; rq_cmd : Z; rq_rsv : Z; rq_atyp : Z }.
Definition request_header_mem (h : socks_request_header) : bytes :=
  [rq_ver h; rq_cmd h; rq_rsv h; rq_atyp h].
Definition sizeof_request_header : Z := 4.

Record socks_reply_header := ReplyHeader { rp_ver : Z; rp_rep : Z; rp_rsv : Z; rp_atyp : Z }.
Definition reply_header_load (d : bytes) : socks_reply_header :=
  ReplyHeader (byte_at d 0) (byte_at d 1) (byte_at d 2) (byte_at d 3).
Definition sizeof_reply_header : Z := 4.

Record socks_addr_ipv4 := AddrIpv4 { a4_addr : Z; a4_port : Z }.
Definition addr_ipv4_mem (a : socks_addr_ipv4) : bytes := mem32 (a4_addr a) ++ mem16 (a4_port a).
Definition sizeof_addr_ipv4 : Z := 6.
Record socks_addr_ipv6 := AddrIpv6 { a6_addr : bytes; a6_port : Z }.
Definition addr_ipv6_mem (a : socks_addr_ipv6) : bytes := a6_addr a ++ mem16 (a6_port a).
Definition sizeof_addr_ipv6 : Z := 18.
End SocksProto.

(** * The code *)
Module SocksClientCode.
Export SocksProto.

Record BSocksClient_auth_info := AuthInfo {
  auth_type : Z;
  username : bytes;
  password : bytes
}.
Definition BSocksClient_auth_none : BSocksClient_auth_info :=
  AuthInfo SOCKS_METHOD_NO_AUTHENTICATION_REQUIRED [] [].
Definition BSocksClient_auth_password (username password : bytes) : BSocksClient_auth_info :=
  AuthInfo SOCKS_METHOD_USERNAME_PASSWORD username password.

Inductive client_state :=
  | STATE_CONNECTING | STATE_SENDING_HELLO | STATE_SENT_HELLO
  | STATE_SENDING_PASSWORD | STATE_SENT_PASSWORD
  | STATE_SENDING_REQUEST | STATE_SENT_REQUEST | STATE_RECEIVED_REPLY_HEADER
  | STATE_UP.
#[export] Instance client_state_eq_dec : EqDecision client_state.
Proof. solve_decision. Defined.

(** Which interfaces of the connection are initialised. *)
Inductive io_state := IoNone | IoControl | IoUp.
#[export] Instance io_state_eq_dec : EqDecision io_state.
Proof. solve_decision. Defined.

(** [recv_dest] is the offset of the pointer in the buffer. [connected],
    [io], [connector]: what has been initialised and not freed. [sending],
    [receiving]: an operation is in progress. [reported]: an error has been
    reported, after which the user may only free the object. *)
Record BSocksClient := MkBSocksClient {
  auth_info : list BSocksClient_auth_info;
  dest_addr : BAddr;
  state : client_state;
  buffer : option bytes;
  recv_dest : Z;
  recv_len : Z;
  recv_total : Z;
  connector : bool;
  connected : bool;
  io : io_state;
  sending : bool;
  receiving : bool;
  reported : bool
}.
#[global] Instance eta_BSocksClient : Eta BSocksClient := λ x,
  MkBSocksClient (auth_info x) (dest_addr x) (state x) (buffer x) (recv_dest x) (recv_len x)
    (recv_total x) (connector x) (connected x) (io x) (sending x) (receiving x) (reported x).

Inductive event := BSOCKSCLIENT_EVENT_ERROR | BSOCKSCLIENT_EVENT_UP | BSOCKSCLIENT_EVENT_ERROR_CLOSED.

Inductive call :=
  | Sender_Send (data : bytes)
  | Receiver_Recv (room : Z)
  | handler (e : event).

(** Whether [BConnection_Init] and [BRealloc] succeed, and the contents of the
    memory [BRealloc] adds. *)
Record answers := Answers {
  connection_answer : bool;
  realloc_answer : bool;
  garbage : Z → Z
}.

Abbreviation op := (prog BSocksClient call).

Definition report_error (e : event) : op unit :=
  o ← get_st;
  ASSERT (negb (reported o));;
  modify (λ o, o <| reported := true |>);;
  emit (handler e).

(** ** I/O *)

Definition init_control_io : op unit :=
  o ← get_st;
  ASSERT (connected o && bool_decide (io o = IoNone));;
  modify (λ o, o <| io := IoControl |>).

(** Freeing the interfaces drops the operations in progress. *)
Definition free_control_io : op unit :=
  o ← get_st;
  ASSERT (bool_decide (io o = IoControl));;
  modify (λ o, o <| io := IoNone |> <| sending := false |> <| receiving := false |>).

Definition init_up_io : op unit :=
  o ← get_st;
  ASSERT (connected o && bool_decide (io o = IoNone));;
  modify (λ o, o <| io := IoUp |>).

Definition free_up_io : op unit :=
  o ← get_st;
  ASSERT (bool_decide (io o = IoUp));;
  modify (λ o, o <| io := IoNone |>).

Definition BConnection_Free : op unit :=
  o ← get_st;
  ASSERT (connected o && bool_decide (io o = IoNone));;
  modify (λ o, o <| connected := false |>).

Definition control_send (data : bytes) : op unit :=
  o ← get_st;
  ASSERT (bool_decide (io o = IoControl) && negb (sending o));;
  modify (λ o, o <| sending := true |>);;
  emit (Sender_Send data).

(** ** The buffer *)

(** [BRealloc]: the contents are kept as far as the sizes allow. *)
Definition resize (garbage : Z → Z) (size : Z) (old : bytes) : bytes :=
  ztake size old ++ (garbage <$> seqZ (len old) (size - len old)).

Definition reserve_buffer (env : answers) (size : BSize.bsize_t) : op bool :=
  if BSize.is_overflow size then mret false else
  if negb (realloc_answer env) then mret false else
  modify (λ o, o <| buffer := Some (resize (garbage env) (BSize.value size)
                                     (match buffer o with Some b => b | None => [] end)) |>);;
  mret true.

(** [memcpy] to and from the buffer, which must lie within it. *)
Definition write_buffer (off : Z) (d : bytes) : op unit :=
  o ← get_st;
  match buffer o with
  | None => λ _, None
  | Some b =>
      ASSERT ((0 <=? off) && (off + len d <=? len b));;
      modify (λ o, o <| buffer := Some (zwrite off d b) |>)
  end.
Definition read_buffer (off n : Z) : op bytes :=
  o ← get_st;
  match buffer o with
  | None => λ _, None
  | Some b =>
      ASSERT ((0 <=? off) && (off + n <=? len b));;
      mret (zslice off n b)
  end.

Definition do_receive : op unit :=
  o ← get_st;
  ASSERT (recv_len o <? recv_total o);;
  ASSERT (bool_decide (io o = IoControl) && negb (receiving o));;
  (* the memory received into *)
  read_buffer (recv_dest o + recv_len o) (recv_total o - recv_len o);;
  modify (λ o, o <| receiving := true |>);;
  emit (Receiver_Recv (recv_total o - recv_len o)).

Definition start_receive (dest total : Z) : op unit :=
  ASSERT (0 <? total);;
  modify (λ o, o <| recv_dest := dest |>);;
  modify (λ o, o <| recv_len := 0 |>);;
  modify (λ o, o <| recv_total := total |>);;
  do_receive.

(** ** Handlers *)

Definition set_state (s : client_state) : op unit := modify (λ o, o <| state := s |>).

(** The loop that writes the hello methods, from index [i]. *)
Fixpoint write_methods (i : Z) (infos : list BSocksClient_auth_info) : op unit :=
  match infos with
  | [] => mret tt
  | ai :: infos =>
      write_buffer (sizeof_client_hello_header + i * sizeof_client_hello_method) [hton8 (u8 (auth_type ai))];;
      write_methods (i + 1) infos
  end.

Section with_SIZE_MAX.
Context (SIZE_MAX : Z).

Definition connector_handler (env : answers) (is_error : bool) : op unit :=
  o ← get_st;
  ASSERT (bool_decide (state o = STATE_CONNECTING));;
  if is_error then report_error BSOCKSCLIENT_EVENT_ERROR else
  if negb (connection_answer env) then report_error BSOCKSCLIENT_EVENT_ERROR else
  modify (λ o, o <| connected := true |>);;
  init_control_io;;
  let fail1 := free_control_io;; BConnection_Free;; report_error BSOCKSCLIENT_EVENT_ERROR in
  let num_auth_info := len (auth_info o) in
  if (num_auth_info =? 0) || (255 <? num_auth_info) then fail1 else
  let size := BSize.bsize_add SIZE_MAX (BSize.bsize_fromsize sizeof_client_hello_header)
    (BSize.bsize_mul SIZE_MAX (BSize.bsize_fromsize num_auth_info)
                              (BSize.bsize_fromsize sizeof_client_hello_method)) in
  r ← reserve_buffer env size;
  if negb r then fail1 else
  write_buffer 0 (client_hello_header_mem (ClientHelloHeader (hton8 SOCKS_VERSION) (hton8 (u8 num_auth_info))));;
  write_methods 0 (auth_info o);;
  d ← read_buffer 0 (BSize.value size);
  control_send d;;
  set_state STATE_SENDING_HELLO.

Definition BCONNECTION_EVENT_ERROR : Z := 1.
Definition BCONNECTION_EVENT_RECVCLOSED : Z := 2.

Definition connection_handler (event : Z) : op unit :=
  o ← get_st;
  ASSERT (negb (bool_decide (state o = STATE_CONNECTING)));;
  if bool_decide (state o = STATE_UP) && (event =? BCONNECTION_EVENT_RECVCLOSED)
  then report_error BSOCKSCLIENT_EVENT_ERROR_CLOSED
  else report_error BSOCKSCLIENT_EVENT_ERROR.

Definition auth_finished (env : answers) : op unit :=
  o ← get_st;
  let size := BSize.bsize_fromsize sizeof_request_header in
  let size :=
    match dest_addr o with
    | BADDR_IPV4 _ _ => BSize.bsize_add SIZE_MAX size (BSize.bsize_fromsize sizeof_addr_ipv4)
    | BADDR_IPV6 _ _ => BSize.bsize_add SIZE_MAX size (BSize.bsize_fromsize sizeof_addr_ipv6)
    | _ => size
    end in
  r ← reserve_buffer env size;
  if negb r then report_error BSOCKSCLIENT_EVENT_ERROR else
  atyp ←
    match dest_addr o with
    | BADDR_IPV4 ip port =>
        write_buffer sizeof_request_header (addr_ipv4_mem (AddrIpv4 ip port));; mret SOCKS_ATYP_IPV4
    | BADDR_IPV6 ip port =>
        write_buffer sizeof_request_header (addr_ipv6_mem (AddrIpv6 ip port));; mret SOCKS_ATYP_IPV6
    | _ => ASSERT false;; mret 0
    end;
  write_buffer 0 (request_header_mem
    (RequestHeader (hton8 SOCKS_VERSION) (hton8 SOCKS_CMD_CONNECT) (hton8 0) (hton8 atyp)));;
  d ← read_buffer 0 (BSize.value size);
  control_send d;;
  set_state STATE_SENDING_REQUEST.

(** The password packet, written byte by byte behind the pointer. *)
Definition write_password (ai : BSocksClient_auth_info) : op unit :=
  write_buffer 0 [1];;
  write_buffer 1 [u8 (len (username ai))];;
  write_buffer 2 (username ai);;
  write_buffer (2 + len (username ai)) [u8 (len (password ai))];;
  write_buffer (3 + len (username ai)) (password ai).

Definition received_hello (env : answers) : op unit :=
  o ← get_st;
  d ← read_buffer 0 sizeof_server_hello;
  let imsg := server_hello_load d in
  if negb (ntoh8 (sh_ver imsg) =? SOCKS_VERSION) then report_error BSOCKSCLIENT_EVENT_ERROR else
  match List.find (λ ai, auth_type ai =? ntoh8 (sh_method imsg)) (auth_info o) with
  | None => report_error BSOCKSCLIENT_EVENT_ERROR
  | Some ai =>
      if auth_type ai =? SOCKS_METHOD_NO_AUTHENTICATION_REQUIRED then auth_finished env
      else
        ASSERT (auth_type ai =? SOCKS_METHOD_USERNAME_PASSWORD);;
        if (len (username ai) =? 0) || (255 <? len (username ai)) ||
           (len (password ai) =? 0) || (255 <? len (password ai))
        then report_error BSOCKSCLIENT_EVENT_ERROR else
        let size := BSize.bsize_fromsize (1 + 1 + len (username ai) + 1 + len (password ai)) in
        r ← reserve_buffer env size;
        if negb r then report_error BSOCKSCLIENT_EVENT_ERROR else
        write_password ai;;
        d ← read_buffer 0 (BSize.value size);
        control_send d;;
        set_state STATE_SENDING_PASSWORD
  end.

Definition received_reply_header : op unit :=
  d ← read_buffer 0 sizeof_reply_header;
  let imsg := reply_header_load d in
  if negb (ntoh8 (rp_ver imsg) =? SOCKS_VERSION) then report_error BSOCKSCLIENT_EVENT_ERROR else
  if negb (ntoh8 (rp_rep imsg) =? SOCKS_REP_SUCCEEDED) then report_error BSOCKSCLIENT_EVENT_ERROR else
  let addr_len :=
    if ntoh8 (rp_atyp imsg) =? SOCKS_ATYP_IPV4 then Some sizeof_addr_ipv4
    else if ntoh8 (rp_atyp imsg) =? SOCKS_ATYP_IPV6 then Some sizeof_addr_ipv6 else None in
  match addr_len with
  | None => report_error BSOCKSCLIENT_EVENT_ERROR
  | Some addr_len =>
      start_receive sizeof_reply_header addr_len;;
      set_state STATE_RECEIVED_REPLY_HEADER
  end.

Definition received_password_reply (env : answers) : op unit :=
  d ← read_buffer 0 2;
  if negb (byte_at d 0 =? 1) then report_error BSOCKSCLIENT_EVENT_ERROR else
  if negb (byte_at d 1 =? 0) then report_error BSOCKSCLIENT_EVENT_ERROR else
  auth_finished env.

Definition received_reply_rest : op unit :=
  modify (λ o, o <| buffer := None |>);;
  free_control_io;;
  init_up_io;;
  set_state STATE_UP;;
  emit (handler BSOCKSCLIENT_EVENT_UP).

(** The interface received [data] to where it was asked to. *)
Definition recv_handler_done (env : answers) (data : bytes) : op unit :=
  modify (λ o, o <| receiving := false |>);;
  o ← get_st;
  write_buffer (recv_dest o + recv_len o) data;;
  ASSERT (len data <=? recv_total o - recv_len o);;
  modify (λ o, o <| recv_len := recv_len o + len data |>);;
  o ← get_st;
  if recv_len o <? recv_total o then do_receive else
  match state o with
  | STATE_SENT_HELLO => received_hello env
  | STATE_SENT_REQUEST => received_reply_header
  | STATE_SENT_PASSWORD => received_password_reply env
  | STATE_RECEIVED_REPLY_HEADER => received_reply_rest
  | _ => ASSERT false
  end.

Definition send_handler_done (env : answers) : op unit :=
  modify (λ o, o <| sending := false |>);;
  o ← get_st;
  ASSERT (bool_decide (is_Some (buffer o)));;
  match state o with
  | STATE_SENDING_HELLO =>
      let size := BSize.bsize_fromsize sizeof_server_hello in
      r ← reserve_buffer env size;
      if negb r then report_error BSOCKSCLIENT_EVENT_ERROR else
      start_receive 0 (BSize.value size);;
      set_state STATE_SENT_HELLO
  | STATE_SENDING_REQUEST =>
      let size := BSize.bsize_add SIZE_MAX (BSize.bsize_fromsize sizeof_reply_header)
        (BSize.bsize_max (BSize.bsize_fromsize sizeof_addr_ipv4) (BSize.bsize_fromsize sizeof_addr_ipv6)) in
      r ← reserve_buffer env size;
      if negb r then report_error BSOCKSCLIENT_EVENT_ERROR else
      start_receive 0 sizeof_reply_header;;
      set_state STATE_SENT_REQUEST
  | STATE_SENDING_PASSWORD =>
      let size := BSize.bsize_fromsize 2 in
      r ← reserve_buffer env size;
      if negb r then report_error BSOCKSCLIENT_EVENT_ERROR else
      start_receive 0 (BSize.value size);;
      set_state STATE_SENT_PASSWORD
  | _ => ASSERT false
  end.
End with_SIZE_MAX.

(** ** Setup and end *)

Definition BSocksClient_Init (server_addr : BAddr) (infos : list BSocksClient_auth_info) (dest : BAddr)
    (connector_ok : bool) : option (option BSocksClient) :=
  ASSERT_ (negb (BAddr_IsInvalid server_addr));
  ASSERT_ ((BAddr_type dest =? 1) || (BAddr_type dest =? 2));
  ASSERT_ (forallb (λ ai, (auth_type ai =? SOCKS_METHOD_NO_AUTHENTICATION_REQUIRED) ||
                          (auth_type ai =? SOCKS_METHOD_USERNAME_PASSWORD)) infos);
  Some (if negb connector_ok then None else Some
    {| auth_info := infos; dest_addr := dest; state := STATE_CONNECTING; buffer := None;
       recv_dest := 0; recv_len := 0; recv_total := 0; connector := true; connected := false;
       io := IoNone; sending := false; receiving := false; reported := false |}).

Definition BSocksClient_Free : op unit :=
  o ← get_st;
  when (negb (bool_decide (state o = STATE_CONNECTING))) (
    (if bool_decide (state o = STATE_UP) then free_up_io else free_control_io);;
    BConnection_Free);;
  ASSERT (connector o);;
  modify (λ o, o <| connector := false |>);;
  when (bool_decide (is_Some (buffer o))) (modify (λ o, o <| buffer := None |>)).
End SocksClientCode.

(** * The handshake as a function of what the server sent *)
Module SocksSpec.
Import SocksClientCode.

Inductive verdict (A : Type) := Pending | Rejected | Accepted (a : A).
Arguments Pending {A}.
Arguments Rejected {A}.
Arguments Accepted {A} a.

Definition hello (infos : list BSocksClient_auth_info) : bytes :=
  [5; len infos] ++ (auth_type <$> infos).
Definition password_message (ai : BSocksClient_auth_info) : bytes :=
  [1; len (username ai)] ++ username ai ++ [len (password ai)] ++ password ai.
Definition request (dest : BAddr) : bytes :=
  match dest with
  | BADDR_IPV4 ip port => [5; 1; 0; 1] ++ mem32 ip ++ mem16 port
  | BADDR_IPV6 ip port => [5; 1; 0; 4] ++ ip ++ mem16 port
  | _ => []
  end.

Definition find_auth (infos : list BSocksClient_auth_info) (m : Z) : option BSocksClient_auth_info :=
  List.find (λ ai, auth_type ai =? m) infos.
Definition usable (ai : BSocksClient_auth_info) : bool :=
  (0 <? len (username ai)) && (len (username ai) <=? 255) &&
  (0 <? len (password ai)) && (len (password ai) <=? 255).

(** Authentication: the messages after the hello, and the bytes left over. *)
Definition negotiate (infos : list BSocksClient_auth_info) (rcvd : bytes) : list bytes * verdict bytes :=
  match rcvd with
  | v :: m :: rest =>
      match find_auth infos m with
      | Some ai =>
          if negb (v =? 5) then ([], Rejected)
          else if m =? 0 then ([], Accepted rest)
          else if negb (usable ai) then ([], Rejected)
          else ([password_message ai],
            match rest with
            | v :: s :: rest => if (v =? 1) && (s =? 0) then Accepted rest else Rejected
            | _ => Pending
            end)
      | None => ([], Rejected)
      end
  | _ => ([], Pending)
  end.

Definition reply_addr_len (atyp : Z) : option Z :=
  if atyp =? 1 then Some 6 else if atyp =? 4 then Some 18 else None.

(** The reply to the request, and the bytes behind it. *)
Definition reply (rcvd : bytes) : verdict bytes :=
  match rcvd with
  | v :: r :: _ :: a :: rest =>
      if (v =? 5) && (r =? 0) then
        match reply_addr_len a with
        | Some n => if n <=? len rest then Accepted (zdrop n rest) else Pending
        | None => Rejected
        end
      else Rejected
  | _ => Pending
  end.

Definition handshake (infos : list BSocksClient_auth_info) (rcvd : bytes) : verdict bytes :=
  match (negotiate infos rcvd).2 with
  | Pending => Pending
  | Rejected => Rejected
  | Accepted rest => reply rest
  end.

(** The messages the client has to send, given what it received. *)
Definition messages (infos : list BSocksClient_auth_info) (dest : BAddr) (rcvd : bytes) : list bytes :=
  hello infos :: (negotiate infos rcvd).1 ++
    match (negotiate infos rcvd).2 with Accepted _ => [request dest] | _ => [] end.
End SocksSpec.

(** * Executions *)
Module SocksRun.
Import SocksClientCode SocksSpec.

Inductive label :=
  | LConnector (env : answers) (is_error : bool)
  | LConnection (event : Z)
  | LRecv (env : answers) (data : bytes)
  | LSend (env : answers).

Section with_SIZE_MAX.
Context (SIZE_MAX : Z).
Definition run (l : label) : op unit :=
  match l with
  | LConnector env e => connector_handler SIZE_MAX env e
  | LConnection ev => connection_handler ev
  | LRecv env d => recv_handler_done SIZE_MAX env d
  | LSend env => send_handler_done SIZE_MAX env
  end.
End with_SIZE_MAX.

(** The connector reports once, the connection reports while it exists, the
    interfaces report an operation in progress; nothing happens after an error
    was reported. *)
Definition enabled (l : label) (o : BSocksClient) : Prop :=
  reported o = false ∧
  match l with
  | LConnector _ _ => state o = STATE_CONNECTING
  | LConnection _ => state o ≠ STATE_CONNECTING
  | LRecv _ d => receiving o = true ∧ 0 < len d ≤ recv_total o - recv_len o
  | LSend _ => sending o = true
  end.

(** A failure outside of the client, or an answer that would be one. *)
Definition fails (l : label) : bool :=
  match l with
  | LConnector env e => e || negb (connection_answer env) || negb (realloc_answer env)
  | LConnection _ => true
  | LRecv env _ | LSend env => negb (realloc_answer env)
  end.

(** The client with the messages sent, the bytes received, the events
    reported and whether anything outside of it failed (or it was given a
    number of methods that no hello can carry). *)
Record world := World {
  cl : BSocksClient;
  sent : list bytes;
  rcvd : bytes;
  events : list event;
  failed : bool
}.

Definition sends (es : list call) : list bytes :=
  omap (λ e, match e with Sender_Send d => Some d | _ => None end) es.
Definition reports (es : list call) : list event :=
  omap (λ e, match e with handler v => Some v | _ => None end) es.
Definition next (w : world) (l : label) (o : BSocksClient) (es : list call) : world := {|
  cl := o;
  sent := sent w ++ sends es;
  rcvd := rcvd w ++ match l with LRecv _ d => d | _ => [] end;
  events := events w ++ reports es;
  failed := failed w || fails l
|}.
Definition bad_count (infos : list BSocksClient_auth_info) : bool :=
  (len infos =? 0) || (255 <? len infos).

Inductive reach (SIZE_MAX : Z) (infos : list BSocksClient_auth_info) (dest : BAddr) : world → Prop :=
  | reach_init server o :
      BSocksClient_Init server infos dest true = Some (Some o) → BAddr_ok dest →
      reach SIZE_MAX infos dest (World o [] [] [] (bad_count infos))
  | reach_run w l o es :
      reach SIZE_MAX infos dest w → enabled l (cl w) → run SIZE_MAX l (cl w) = Some (tt, o, es) →
      reach SIZE_MAX infos dest (next w l o es).
End SocksRun.

Module SocksFacts.
Import SocksClientCode SocksSpec SocksRun.

(** ** The buffer *)

Lemma len_resize g n old : 0 ≤ n → len (resize g n old) = n.
Proof.
  intros. unfold resize, ztake, len. rewrite length_app, length_fmap, length_seqZ, length_take. lia.
Qed.

Lemma wp_reserve env size o (Q : bool → BSocksClient → list call → Prop) :
  BSize.is_overflow size = false → 0 ≤ BSize.value size →
  (realloc_answer env = false → Q false o []) →
  (∀ b, len b = BSize.value size → Q true (o <| buffer := Some b |>) []) →
  wp (reserve_buffer env size) o Q.
Proof.
  intros Ho Hv Hf Ht. unfold reserve_buffer. rewrite Ho.
  destruct (realloc_answer env); cbn [negb]; wp_run; [|by apply Hf].
  apply Ht. by apply len_resize.
Qed.

Lemma wp_write off d o a old c (Q : unit → BSocksClient → list call → Prop) :
  buffer o = Some (a ++ old ++ c) → off = len a → len d = len old →
  Q tt (o <| buffer := Some (a ++ d ++ c) |>) [] →
  wp (write_buffer off d) o Q.
Proof.
  intros Hb -> Hd HQ. unfold write_buffer. wp_run. rewrite Hb. wp_run.
  apply wp_assert; [|wp_run].
  - rewrite !len_app. apply andb_true_iff. split; apply Z.leb_le; len_lia.
  - unfold zwrite. rewrite ztake_app, Hd, <- len_app. rewrite (app_assoc a old c), zdrop_app. exact HQ.
Qed.

(** Writing to the front of what is left. *)
Lemma wp_fill off d o a c (Q : unit → BSocksClient → list call → Prop) :
  buffer o = Some (a ++ c) → off = len a → len d ≤ len c →
  (∀ c', len c' = len c - len d → Q tt (o <| buffer := Some (a ++ d ++ c') |>) []) →
  wp (write_buffer off d) o Q.
Proof.
  intros Hb Ho Hd HQ. rewrite <- (ztake_zdrop (len d) c) in Hb.
  eapply wp_write; [done..|by rewrite len_ztake by len_lia|]. apply HQ, len_zdrop. len_lia.
Qed.

Lemma wp_read off n o b a d c (Q : bytes → BSocksClient → list call → Prop) :
  buffer o = Some b → b = a ++ d ++ c → off = len a → n = len d →
  Q d o [] → wp (read_buffer off n) o Q.
Proof.
  intros Hb -> -> -> HQ. unfold read_buffer. wp_run. rewrite Hb. wp_run.
  apply wp_assert; [|wp_run].
  - rewrite !len_app. apply andb_true_iff. split; apply Z.leb_le; len_lia.
  - unfold zslice. by rewrite zdrop_app, ztake_app.
Qed.

Lemma wp_report e o (Q : unit → BSocksClient → list call → Prop) :
  reported o = false → Q tt (o <| reported := true |>) [handler e] → wp (report_error e) o Q.
Proof. intros Hr HQ. unfold report_error. wp_run. exact HQ. Qed.

Lemma wp_write_methods infos i o a c (Q : unit → BSocksClient → list call → Prop) :
  buffer o = Some (a ++ c) → len a = 2 + i → len c = len infos →
  Forall (λ ai, is_u8 (auth_type ai)) infos →
  Q tt (o <| buffer := Some (a ++ (auth_type <$> infos)) |>) [] →
  wp (write_methods i infos) o Q.
Proof.
  revert i o a c. induction infos as [|ai infos IH]; intros i o a c Hb Ha Hc Hu HQ; cbn [write_methods].
  - apply wp_ret. apply len_0_nil in Hc as ->. cbn [fmap list_fmap] in HQ. rewrite app_nil_r in *.
    destruct o. cbn in *. by subst.
  - rewrite len_cons in Hc. apply Forall_cons in Hu as [Hai Hu]. wp_step.
    eapply wp_fill; [done| |autorewrite with lens; len_lia|].
    { unfold sizeof_client_hello_header, sizeof_client_hello_method. lia. }
    intros c' Hc'. autorewrite with lens in Hc'.
    eapply (IH _ _ (a ++ [auth_type ai]) c'); [|autorewrite with lens; lia|lia|done|].
    + cbn. unfold hton8, u8. rewrite Z.mod_small by apply Hai. by rewrite <- app_assoc.
    + cbn [app fmap list_fmap]. cbn [fmap list_fmap] in HQ. destruct o. cbn in *.
      by rewrite <- app_assoc.
Qed.

(** ** The invariant *)

(** A message is being sent. *)
Definition snd (o : BSocksClient) : Prop :=
  sending o = true ∧ receiving o = false ∧ is_Some (buffer o).

(** [total] bytes are being received behind [h], [got] of them so far, into a
    buffer of [size] bytes. *)
Record rcv (o : BSocksClient) (h : bytes) (total size : Z) (got : bytes) : Prop := {
  rc_sending : sending o = false;
  rc_receiving : receiving o = true;
  rc_dest : recv_dest o = len h;
  rc_total : recv_total o = total;
  rc_len : recv_len o = len got;
  rc_more : len got < total;
  rc_room : len h + total ≤ size;
  rc_buf : ∃ c, buffer o = Some (h ++ got ++ c) ∧ len (h ++ got ++ c) = size
}.

Definition resources (o : BSocksClient) : Prop :=
  connector o = true ∧
  connected o = negb (bool_decide (state o = STATE_CONNECTING)) ∧
  io o = match state o with STATE_CONNECTING => IoNone | STATE_UP => IoUp | _ => IoControl end.

Definition wants_password (infos : list BSocksClient_auth_info) (ai : BSocksClient_auth_info) : Prop :=
  find_auth infos 2 = Some ai ∧ usable ai = true.

(** Authentication took the bytes [p] and the messages [s]. *)
Definition authed (infos : list BSocksClient_auth_info) (s : list bytes) (p : bytes) : Prop :=
  (s = [hello infos] ∧ p = [5; 0] ∧ is_Some (find_auth infos 0)) ∨
  (∃ ai, s = [hello infos; password_message ai] ∧ p = [5; 2; 1; 0] ∧ wants_password infos ai).

(** Where the handshake is in each state. *)
Definition phase (infos : list BSocksClient_auth_info) (dest : BAddr)
    (o : BSocksClient) (sent : list bytes) (rcvd : bytes) : Prop :=
  match state o with
  | STATE_CONNECTING => sent = [] ∧ rcvd = [] ∧ buffer o = None ∧ sending o = false ∧ receiving o = false
  | STATE_SENDING_HELLO => snd o ∧ sent = [hello infos] ∧ rcvd = []
  | STATE_SENT_HELLO => rcv o [] 2 2 rcvd ∧ sent = [hello infos]
  | STATE_SENDING_PASSWORD => snd o ∧ ∃ ai, wants_password infos ai ∧
      sent = [hello infos; password_message ai] ∧ rcvd = [5; 2]
  | STATE_SENT_PASSWORD => ∃ ai got, rcv o [] 2 2 got ∧ wants_password infos ai ∧
      sent = [hello infos; password_message ai] ∧ rcvd = [5; 2] ++ got
  | STATE_SENDING_REQUEST => snd o ∧ ∃ s, authed infos s rcvd ∧ sent = s ++ [request dest]
  | STATE_SENT_REQUEST => ∃ s p got, rcv o [] 4 22 got ∧ authed infos s p ∧
      sent = s ++ [request dest] ∧ rcvd = p ++ got
  | STATE_RECEIVED_REPLY_HEADER => ∃ s p x a n got, rcv o [5; 0; x; a] n 22 got ∧ authed infos s p ∧
      reply_addr_len a = Some n ∧ sent = s ++ [request dest] ∧ rcvd = p ++ [5; 0; x; a] ++ got
  | STATE_UP => (buffer o = None ∧ sending o = false ∧ receiving o = false) ∧ ∃ s p x a n got, authed infos s p ∧ reply_addr_len a = Some n ∧
      len got = n ∧ sent = s ++ [request dest] ∧ rcvd = p ++ [5; 0; x; a] ++ got
  end.

(** What can be said after an error was reported. *)
Definition ended (infos : list BSocksClient_auth_info) (dest : BAddr) (w : world) : Prop :=
  (∃ e, events w = (if bool_decide (state (cl w) = STATE_UP) then [BSOCKSCLIENT_EVENT_UP] else []) ++ [e] ∧
        e ≠ BSOCKSCLIENT_EVENT_UP ∧
        (e = BSOCKSCLIENT_EVENT_ERROR_CLOSED → state (cl w) = STATE_UP)) ∧
  sent w `prefix_of` messages infos dest (rcvd w) ∧
  match handshake infos (rcvd w) with
  | Accepted rest => rest = [] ∧ state (cl w) = STATE_UP
  | _ => state (cl w) ≠ STATE_UP
  end ∧
  (failed w = false → handshake infos (rcvd w) = Rejected ∧ sent w = messages infos dest (rcvd w)).

Record inv (infos : list BSocksClient_auth_info) (dest : BAddr) (w : world) : Prop := {
  iv_infos : auth_info (cl w) = infos;
  iv_dest : dest_addr (cl w) = dest;
  iv_res : resources (cl w);
  iv_count : failed w = false → bad_count infos = false;
  iv_live : reported (cl w) = false → phase infos dest (cl w) (sent w) (rcvd w) ∧
    events w = if bool_decide (state (cl w) = STATE_UP) then [BSOCKSCLIENT_EVENT_UP] else [];
  iv_ended : reported (cl w) = true → ended infos dest w
}.

(** ** What the specification says in each phase *)

Lemma negotiate_authed infos s p r : authed infos s p →
  s = hello infos :: (negotiate infos (p ++ r)).1 ∧ (negotiate infos (p ++ r)).2 = Accepted r.
Proof.
  intros [(-> & -> & ai & E)|(ai & -> & -> & E & Hu)]; cbn; rewrite E; cbn; [done|]. by rewrite Hu.
Qed.
Lemma handshake_authed infos s p r : authed infos s p → handshake infos (p ++ r) = reply r.
Proof. intros [_ E]%(negotiate_authed _ _ _ r). unfold handshake. by rewrite E. Qed.
Lemma messages_authed infos dest s p r : authed infos s p →
  messages infos dest (p ++ r) = s ++ [request dest].
Proof. intros [Es E]%(negotiate_authed _ _ _ r). unfold messages. rewrite E. by rewrite Es. Qed.
Lemma reply_header x a n got : reply_addr_len a = Some n →
  reply ([5; 0; x; a] ++ got) = if n <=? len got then Accepted (zdrop n got) else Pending.
Proof. intros E. cbn. by rewrite E. Qed.

Lemma short_list got n : len (A := Z) got < Z.of_nat n → (length got < n)%nat.
Proof. unfold len. lia. Qed.

(** A live client has sent what the specification says, which waits for more
    unless the client is up. *)
Lemma phase_spec infos dest o sent rcvd : phase infos dest o sent rcvd →
  handshake infos rcvd = (if bool_decide (state o = STATE_UP) then Accepted [] else Pending) ∧
  sent = if bool_decide (state o = STATE_CONNECTING) then [] else messages infos dest rcvd.
Proof.
  unfold phase. intros H. destruct (state o); cbn.
  - by destruct H as (-> & -> & _).
  - by destruct H as (_ & -> & ->).
  - destruct H as [[_ _ _ _ _ Hm _ _] ->]. apply (short_list _ 2) in Hm.
    destruct rcvd as [|?[|??]]; cbn in Hm; [done..|lia].
  - destruct H as (_ & ai & [E Hu] & -> & ->). unfold handshake, messages. cbn.
    by rewrite E, Hu.
  - destruct H as (ai & got & [_ _ _ _ _ Hm _ _] & [E Hu] & -> & ->). apply (short_list _ 2) in Hm.
    unfold handshake, messages. cbn. rewrite E, Hu.
    destruct got as [|?[|??]]; cbn in *; [done..|lia].
  - destruct H as (_ & s & Ha & ->). rewrite <- (app_nil_r rcvd) at 1 2.
    by rewrite (handshake_authed _ _ _ _ Ha), (messages_authed _ _ _ _ _ Ha).
  - destruct H as (s & p & got & [_ _ _ _ _ Hm _ _] & Ha & -> & ->). apply (short_list _ 4) in Hm.
    rewrite (handshake_authed _ _ _ _ Ha), (messages_authed _ _ _ _ _ Ha).
    destruct got as [|?[|?[|?[|??]]]]; cbn in *; [done..|lia].
  - destruct H as (s & p & x & a & n & got & [_ _ _ _ _ Hm _ _] & Ha & E & -> & ->).
    rewrite (handshake_authed _ _ _ _ Ha), (messages_authed _ _ _ _ _ Ha), (reply_header _ _ n) by done.
    by rewrite (proj2 (Z.leb_gt _ _) Hm).
  - destruct H as (_ & s & p & x & a & n & got & Ha & E & Hn & -> & ->).
    rewrite (handshake_authed _ _ _ _ Ha), (messages_authed _ _ _ _ _ Ha), (reply_header _ _ n) by done.
    rewrite (proj2 (Z.leb_le _ _)) by lia. rewrite zdrop_all by lia. done.
Qed.

(** ** Every handler keeps the invariant *)

Section handlers.
Context (SIZE_MAX : Z) (Hsize : 65535 ≤ SIZE_MAX).
Context (infos : list BSocksClient_auth_info) (dest : BAddr).

Definition keeps (w : world) (l : label) (_ : unit) (o : BSocksClient) (es : list call) : Prop :=
  inv infos dest (next w l o es) ∧ (reported o = true → state o = state (cl w)).

(** An error without new data: the phase decides what is true of it. *)
Lemma keeps_error w l o e : inv infos dest w → reported (cl w) = false →
  auth_info o = infos → dest_addr o = dest → state o = state (cl w) → resources o →
  fails l || failed w = true → (∀ env d, l ≠ LRecv env d) →
  (e = BSOCKSCLIENT_EVENT_ERROR ∨ e = BSOCKSCLIENT_EVENT_ERROR_CLOSED ∧ state o = STATE_UP) →
  keeps w l tt (o <| reported := true |>) [handler e].
Proof.
  intros H Hr Hi Hd Hs Hres Hf Hl He. destruct (iv_live _ _ _ H Hr) as [Hp Hev].
  apply phase_spec in Hp as [Hh Hm]. rewrite orb_comm in Hf.
  assert (rcvd (next w l (o <| reported := true |>) [handler e]) = rcvd w) as Er.
  { cbn. destruct l as [| |env d|]; try apply app_nil_r. by destruct (Hl env d). }
  assert (failed (next w l (o <| reported := true |>) [handler e]) = true) as Ef by done.
  split; [|done]. split; [done..|by rewrite Ef|done|]. intros _. split; [|split; [|split]].
  - exists e. cbn. rewrite Hev, Hs. split; [done|]. split; [|naive_solver congruence].
    by destruct He as [-> | [-> _]].
  - rewrite Er. cbn. rewrite app_nil_r. rewrite Hm.
    destruct (bool_decide (state (cl w) = STATE_CONNECTING)); [apply prefix_nil|done].
  - rewrite Er. cbn. rewrite Hh, Hs. by destruct (bool_decide_reflect (state (cl w) = STATE_UP)).
  - by rewrite Ef.
Qed.

(** A step without an error. *)
Lemma keeps_live w l o es : inv infos dest w → reported (cl w) = false →
  auth_info o = infos → dest_addr o = dest → resources o → reported o = false →
  phase infos dest o (sent w ++ sends es) (rcvd w ++ match l with LRecv _ d => d | _ => [] end) →
  events w ++ reports es = (if bool_decide (state o = STATE_UP) then [BSOCKSCLIENT_EVENT_UP] else []) →
  keeps w l tt o es.
Proof.
  intros H Hr Hi Hd Hres Hro Hp Hev. split; [|congruence]. split; try done.
  - cbn. intros [Hf _]%orb_false_iff. by apply H.
  - cbn. congruence.
Qed.

Lemma connection_handler_keeps w ev : inv infos dest w → enabled (LConnection ev) (cl w) →
  wp (connection_handler ev) (cl w) (keeps w (LConnection ev)).
Proof.
  intros H [Hr Hs]. unfold connection_handler. wp_run.
  apply wp_assert; [by rewrite bool_decide_eq_false_2|]. destruct (_ && _) eqn:E; bool_to_prop.
  all: apply wp_report; [done|]; apply keeps_error; try apply H; try done; naive_solver.
Qed.

Lemma hello_size : bad_count infos = false →
  let size := BSize.bsize_add SIZE_MAX (BSize.bsize_fromsize sizeof_client_hello_header)
    (BSize.bsize_mul SIZE_MAX (BSize.bsize_fromsize (len infos))
       (BSize.bsize_fromsize sizeof_client_hello_method)) in
  BSize.is_overflow size = false ∧ BSize.value size = 2 + len infos.
Proof using Hsize.
  unfold bad_count. intros Hb. bool_to_prop. pose proof (len_nonneg infos).
  unfold BSize.bsize_add, BSize.bsize_mul, BSize.bsize_fromsize, BSize.size_wrap,
    sizeof_client_hello_header, sizeof_client_hello_method; cbn [BSize.is_overflow BSize.value orb].
  rewrite Z.mul_1_r, !(Z.mod_small (len infos)) by lia. rewrite Z.mod_small by lia. split; [|done].
  apply orb_false_iff. split; [|apply Z.ltb_ge; lia].
  apply andb_false_iff. right. apply Z.ltb_ge. apply Z.div_le_lower_bound; lia.
Qed.

Lemma connector_handler_keeps w env e : inv infos dest w → enabled (LConnector env e) (cl w) →
  Forall (λ ai, is_u8 (auth_type ai)) infos →
  wp (connector_handler SIZE_MAX env e) (cl w) (keeps w (LConnector env e)).
Proof using Hsize.
  intros H [Hr Hs] Hu. destruct (iv_res _ _ _ H) as (Rc & Rd & Ri). rewrite Hs in Rd, Ri. cbn in Rd.
  destruct (iv_live _ _ _ H Hr) as [Hp Hev]. unfold phase in Hp. rewrite Hs in Hp, Hev.
  destruct Hp as (Es & Er & Hb & Hsn & Hrc). pose proof (iv_infos _ _ _ H) as Hi.
  unfold connector_handler. wp_run.
  destruct e; [|destruct (connection_answer env) eqn:Ec]; cbn [negb].
  1, 3: apply wp_report; [done|]; apply keeps_error; try apply H; try done; cbn; rewrite ?Ec; auto.
  wp_run. unfold init_control_io. wp_run. rewrite Hi. change ((len infos =? 0) || (255 <? len infos)) with (bad_count infos).
  assert (∀ o, io o = IoControl → connected o = true → auth_info o = infos → dest_addr o = dest →
    state o = STATE_CONNECTING → reported o = false → connector o = true →
    fails (LConnector env false) || failed w = true →
    wp (free_control_io;; BConnection_Free;; report_error BSOCKSCLIENT_EVENT_ERROR) o
      (λ b o es, keeps w (LConnector env false) b o ([] ++ es))) as Hfail.
  { intros o ???? E4 ?? Hf. unfold free_control_io, BConnection_Free. wp_run. apply wp_report; [done|].
    apply keeps_error; try done; [by rewrite Hs| |by left]. unfold resources. cbn. by rewrite E4. }
  destruct (bad_count infos) eqn:Ebc.
  { apply Hfail; try done; try apply H. destruct (failed w) eqn:Ef; [apply orb_true_r|].
    by rewrite (iv_count _ _ _ H Ef) in Ebc. }
  destruct (hello_size Ebc) as [Ho Hv]. pose proof (len_nonneg infos). wp_step.
  apply wp_reserve; [done|lia|intros Ere; apply Hfail; try done; try apply H; cbn; by rewrite Ere, Ec|].
  intros b Hlb. rewrite Hv in Hlb. cbn [negb]. wp_step. unfold bad_count in Ebc. bool_to_prop.
  eapply (wp_fill 0 _ _ [] b); [done..|unfold client_hello_header_mem; autorewrite with lens; lia|].
  intros c Hc. wp_step.
  eapply (wp_write_methods _ _ _ (client_hello_header_mem _) c); [done..|rewrite Hc, Hlb; unfold client_hello_header_mem; autorewrite with lens; lia|done|].
  wp_step. eapply (wp_read _ _ _ _ [] (hello infos) []); [done| |done| |].
  { unfold client_hello_header_mem, hello, hton8, u8. cbn [ch_ver ch_nmethods app]. rewrite Z.mod_small by lia.
    by rewrite app_nil_r. }
  { rewrite Hv. unfold hello. autorewrite with lens. unfold len. rewrite length_fmap. lia. }
  unfold control_send, set_state. wp_run. apply keeps_live; try done; try apply H.
  - unfold phase. cbn. rewrite Es, Er. done.
  - cbn. by rewrite Hev.
Qed.

Lemma wp_do_receive o h got c (Q : unit → BSocksClient → list call → Prop) :
  buffer o = Some (h ++ got ++ c) → recv_dest o = len h → recv_len o = len got →
  len got < recv_total o → len h + recv_total o ≤ len (h ++ got ++ c) →
  io o = IoControl → receiving o = false →
  Q tt (o <| receiving := true |>) [Receiver_Recv (recv_total o - recv_len o)] →
  wp do_receive o Q.
Proof.
  intros Hb Hd Hl Hm Hr Hio Hrc HQ. unfold do_receive. wp_run. rewrite Hd, Hl. rewrite !len_app in Hr.
  assert (c = ztake (recv_total o - len got) c ++ zdrop (recv_total o - len got) c) as Ec
    by (symmetry; apply ztake_zdrop).
  eapply (wp_read _ _ _ _ (h ++ got)); [done| | | |].
  - rewrite <- app_assoc. do 2 f_equal. exact Ec.
  - by rewrite len_app.
  - rewrite len_ztake; [done|]. len_lia.
  - wp_run. by rewrite <- Hl.
Qed.

Lemma wp_start_receive dst total o h c (Q : unit → BSocksClient → list call → Prop) :
  buffer o = Some (h ++ c) → dst = len h → 0 < total → len h + total ≤ len (h ++ c) →
  io o = IoControl → receiving o = false →
  Q tt (o <| recv_dest := dst |> <| recv_len := 0 |> <| recv_total := total |> <| receiving := true |>)
    [Receiver_Recv (total - 0)] →
  wp (start_receive dst total) o Q.
Proof.
  intros Hb -> Ht Hl Hio Hrc HQ. unfold start_receive. wp_run. by eapply (wp_do_receive _ h [] c).
Qed.

(** After a message was sent: room for the answer is made and receiving starts. *)
Lemma await_answer w env o n total size s : inv infos dest w → reported (cl w) = false →
  sending (cl w) = true → state (cl w) ≠ STATE_UP → io (cl w) = IoControl →
  o = cl w <| sending := false |> → receiving (cl w) = false →
  s ≠ STATE_UP → s ≠ STATE_CONNECTING →
  BSize.is_overflow n = false → BSize.value n = size → 0 < total ≤ size →
  (∀ o', rcv o' [] total size [] → state o' = s → phase infos dest o' (sent w) (rcvd w)) →
  wp (r ← reserve_buffer env n;
      if negb r then report_error BSOCKSCLIENT_EVENT_ERROR else
      start_receive 0 total;; set_state s) o (keeps w (LSend env)).
Proof.
  intros H Hr Hsn Hup Hio -> Hrc Hs Hs' Ho Hv Ht Hp. destruct (iv_res _ _ _ H) as (Rc & Rd & Ri).
  pose proof (proj2 (iv_live _ _ _ H Hr)) as Hev. rewrite bool_decide_eq_false_2 in Hev by done.
  wp_step. apply wp_reserve; [done|lia| |].
  - intros Ere. cbn [negb]. apply wp_report; [done|]. apply keeps_error; try apply H; try done; [|by left].
    cbn. by rewrite Ere.
  - intros b Hb. cbn [negb]. wp_step. eapply (wp_start_receive _ _ _ [] b); try done; try lia.
    { change (0 + total ≤ len b). lia. }
    unfold set_state. wp_run. apply keeps_live; try done; try apply H.
    + split; [done|]. cbn. destruct (state (cl w)) eqn:Es; try congruence; by destruct s.
    + cbn. rewrite !app_nil_r. apply Hp; [|done]. split; try done; try (rewrite len_nil; lia).
      exists b. split; [done|]. change (len b = size). lia.
    + cbn. rewrite Hev. by rewrite bool_decide_eq_false_2.
Qed.

Lemma send_handler_keeps w env : inv infos dest w → enabled (LSend env) (cl w) →
  wp (send_handler_done SIZE_MAX env) (cl w) (keeps w (LSend env)).
Proof using Hsize.
  intros H [Hr Hsn]. destruct (iv_live _ _ _ H Hr) as [Hp _]. unfold phase in Hp.
  destruct (iv_res _ _ _ H) as (_ & _ & Ri).
  assert (is_Some (buffer (cl w)) ∧ receiving (cl w) = false ∧ io (cl w) = IoControl ∧
    match state (cl w) with
    | STATE_SENDING_HELLO | STATE_SENDING_PASSWORD | STATE_SENDING_REQUEST => True | _ => False
    end) as (Hb & Hrc & Hio & Hst).
  { destruct (state (cl w)); try by destruct Hp as [(_ & ? & ?) _].
    - destruct Hp as (_ & _ & _ & ? & _). congruence.
    - destruct Hp as [[] _]. congruence.
    - destruct Hp as (? & ? & [] & _). congruence.
    - destruct Hp as (? & ? & ? & [] & _). congruence.
    - destruct Hp as (? & ? & ? & ? & ? & ? & [] & _). congruence.
    - destruct Hp as [(_ & ? & _) _]. congruence. }
  unfold send_handler_done. wp_step. wp_step. wp_step. wp_step. wp_step. wp_step.
  { by apply bool_decide_eq_true. }
  change (state (cl w <| sending := false |>)) with (state (cl w)).
  destruct (state (cl w)) eqn:Es; try done.
  - eapply (await_answer w env _ _ 2 2); rewrite ?Es; try done.
    intros o' Ho' Es'. unfold phase. rewrite Es'. destruct Hp as (_ & -> & ->). done.
  - eapply (await_answer w env _ _ 2 2); rewrite ?Es; try done.
    intros o' Ho' Es'. unfold phase. rewrite Es'. destruct Hp as (_ & ai & Hai & -> & ->). by exists ai, [].
  - eapply (await_answer w env _ _ 4 22); rewrite ?Es; try done.
    + change ((SIZE_MAX - 4 <? 18) = false). apply Z.ltb_ge. lia.
    + change (BSize.size_wrap SIZE_MAX 22 = 22). unfold BSize.size_wrap. rewrite Z.mod_small; [done|lia].
    + intros o' Ho' Es'. unfold phase. rewrite Es'. destruct Hp as (_ & s & Ha & ->).
      exists s, (rcvd w), []. by rewrite app_nil_r.
Qed.

(** The client between the reception of the last byte and its reaction. *)
Record midway (w : world) (o : BSocksClient) (b : bytes) : Prop := {
  mw_inv : inv infos dest w;
  mw_live : reported (cl w) = false;
  mw_infos : auth_info o = infos;
  mw_dest : dest_addr o = dest;
  mw_res : resources o;
  mw_reported : reported o = false;
  mw_state : state o = state (cl w);
  mw_control : state o ≠ STATE_CONNECTING ∧ state o ≠ STATE_UP;
  mw_io : io o = IoControl;
  mw_sending : sending o = false;
  mw_receiving : receiving o = false;
  mw_buffer : buffer o = Some b
}.

Lemma midway_events w o b : midway w o b → events w = [].
Proof.
  intros [H Hr _ _ _ _ Hs [_ Hu] _ _ _ _]. rewrite (proj2 (iv_live _ _ _ H Hr)).
  rewrite bool_decide_eq_false_2; [done|]. congruence.
Qed.

(** An error as the reaction to the data received. *)
Lemma reject w env d o b : midway w o b →
  sent w `prefix_of` messages infos dest (rcvd w ++ d) →
  (∀ rest, handshake infos (rcvd w ++ d) ≠ Accepted rest) →
  (realloc_answer env = true → handshake infos (rcvd w ++ d) = Rejected ∧
     sent w = messages infos dest (rcvd w ++ d)) →
  wp (report_error BSOCKSCLIENT_EVENT_ERROR) o (keeps w (LRecv env d)).
Proof.
  intros M Hm Hh Hf. pose proof (midway_events _ _ _ M) as Hev. destruct M as [H Hr Hi Hd Hres Hro Hs [Hc Hu] _ _ _ _].
  apply wp_report; [done|]. split; [|done]. split; try done.
  - cbn. intros [Hfw _]%orb_false_iff. by apply H.
  - intros _. split; [|split; [|split]]; cbn; rewrite ?app_nil_r; try done.
    + exists BSOCKSCLIENT_EVENT_ERROR. by rewrite Hev, bool_decide_eq_false_2.
    + destruct (handshake infos (rcvd w ++ d)) eqn:E; try done. by destruct (Hh a).
    + intros [_ Hre%negb_false_iff]%orb_false_iff. by apply Hf.
Qed.

Lemma write_request o b addr atyp n (Q : unit → BSocksClient → list call → Prop) :
  let hdr := [5; 1; 0; atyp] in
  buffer o = Some b → len b = len (hdr ++ addr) → n = len (hdr ++ addr) →
  io o = IoControl → sending o = false →
  Q tt (o <| buffer := Some (hdr ++ addr) |> <| sending := true |> <| state := STATE_SENDING_REQUEST |>)
    [Sender_Send (hdr ++ addr)] →
  wp ((write_buffer sizeof_request_header addr;; mret atyp) ≫= λ atyp,
      write_buffer 0 (request_header_mem (RequestHeader (hton8 SOCKS_VERSION)
        (hton8 SOCKS_CMD_CONNECT) (hton8 0) (hton8 atyp)));;
      d ← read_buffer 0 n; control_send d;; set_state STATE_SENDING_REQUEST) o Q.
Proof.
  intros hdr Hb Hl -> Hio Hsn HQ. rewrite len_app in Hl. change (len hdr) with 4 in Hl.
  pose proof (len_nonneg addr). rewrite <- (ztake_zdrop 4 b) in Hb.
  assert (len (ztake 4 b) = 4) as H4 by (rewrite len_ztake; lia).
  assert (len (zdrop 4 b) = len addr) as Hr by (rewrite len_zdrop; lia).
  wp_step. wp_step. rewrite <- (app_nil_r (zdrop 4 b)) in Hb.
  eapply wp_write; [exact Hb|by rewrite H4|lia|]. wp_run.
  eapply (wp_write 0 _ _ []); [done..|by rewrite H4|]. wp_step.
  eapply (wp_read _ _ _ _ [] (hdr ++ addr) []); [done|by rewrite !app_nil_r|done..|].
  unfold control_send, set_state. wp_run. rewrite app_nil_r. exact HQ.
Qed.

Lemma auth_finished_keeps w env d o b : midway w o b → BAddr_ok dest →
  (BAddr_type dest =? 1) || (BAddr_type dest =? 2) = true →
  authed infos (sent w) (rcvd w ++ d) →
  wp (auth_finished SIZE_MAX env) o (keeps w (LRecv env d)).
Proof using Hsize.
  intros M Hok Hty Ha. pose proof (midway_events _ _ _ M) as Hev. unfold auth_finished. wp_run.
  rewrite (mw_dest _ _ _ M).
  set (n := match dest with BADDR_IPV4 _ _ => _ | BADDR_IPV6 _ _ => _ | _ => _ end).
  assert (BSize.is_overflow n = false ∧ BSize.value n = len (request dest)) as [Ho Hv].
  { subst n. destruct dest as [|ip port|ip port|]; try done; split.
    - change ((SIZE_MAX - 4 <? 6) = false). apply Z.ltb_ge. lia.
    - change (BSize.size_wrap SIZE_MAX 10 = 10). apply Z.mod_small. lia.
    - change ((SIZE_MAX - 4 <? 18) = false). apply Z.ltb_ge. lia.
    - destruct Hok as [[Hl _] _]. unfold request, len. rewrite !length_app, Hl. change (BSize.size_wrap SIZE_MAX 22 = 22). apply Z.mod_small. lia. }
  apply wp_reserve; [done|rewrite Hv; apply len_nonneg| |].
  { intros Ere. cbn [negb]. eapply reject; [done| | |congruence].
    - rewrite <- (app_nil_r (rcvd w ++ d)), (messages_authed _ _ _ _ _ Ha). by apply prefix_app_r.
    - rewrite <- (app_nil_r (rcvd w ++ d)), (handshake_authed _ _ _ _ Ha). done. }
  intros b' Hb. cbn [negb]. rewrite Hv in Hb.
  assert (∀ atyp addr, request dest = [5; 1; 0; atyp] ++ addr →
    wp ((write_buffer sizeof_request_header addr;; mret atyp) ≫= λ atyp,
        write_buffer 0 (request_header_mem (RequestHeader (hton8 SOCKS_VERSION)
          (hton8 SOCKS_CMD_CONNECT) (hton8 0) (hton8 atyp)));;
        d ← read_buffer 0 (BSize.value n); control_send d;; set_state STATE_SENDING_REQUEST)
      (o <| buffer := Some b' |>) (λ b o es, keeps w (LRecv env d) b o ([] ++ [] ++ es))) as Hsend.
  { intros atyp addr E. eapply write_request; try done.
    - by rewrite Hb, E.
    - by rewrite Hv, E.
    - by destruct M.
    - by destruct M.
    - rewrite <- E. destruct M as [H Hr Hi Hd (Rc & Rd & _) Hro Hs [Hc Hu] Hio Hsn Hrc _].
      apply keeps_live; try done.
      + split; [done|]. cbn. by rewrite Rd, bool_decide_eq_false_2.
      + unfold phase. cbn. split; [|by exists (sent w)]. done.
      + cbn. by rewrite Hev. }
  destruct dest as [|ip port|ip port|]; try done; by apply Hsend.
Qed.

Context (Hok : BAddr_ok dest) (Hty : (BAddr_type dest =? 1) || (BAddr_type dest =? 2) = true).
Context (Hau : Forall (λ ai, auth_type ai = 0 ∨ auth_type ai = 2) infos).

Lemma find_auth_spec m ai : find_auth infos m = Some ai → auth_type ai = m ∧ (m = 0 ∨ m = 2).
Proof using Hau.
  intros [Hin E%Z.eqb_eq]%List.find_some. split; [done|]. rewrite <- E.
  by apply (proj1 (List.Forall_forall _ _) Hau).
Qed.

Lemma write_password_fills ai o b (Q : unit → BSocksClient → list call → Prop) :
  usable ai = true → buffer o = Some b → len b = len (password_message ai) →
  Q tt (o <| buffer := Some (password_message ai) |>) [] → wp (write_password ai) o Q.
Proof.
  intros Hu Hb Hl HQ. unfold usable in Hu. bool_to_prop. unfold write_password, u8.
  rewrite !Z.mod_small by lia. unfold password_message in Hl. autorewrite with lens in Hl.
  wp_step. eapply (wp_fill _ _ _ [] b); [done|done|autorewrite with lens; lia|].
  intros c1 Hc1. autorewrite with lens in Hc1. wp_step.
  eapply (wp_fill _ _ _ [1] c1); [done|done|autorewrite with lens; lia|].
  intros c2 Hc2. autorewrite with lens in Hc2. wp_step.
  eapply (wp_fill _ _ _ [1; len (username ai)] c2); [done|done|lia|]. intros c3 Hc3. wp_step.
  eapply (wp_fill _ _ _ ([1; len (username ai)] ++ username ai) c3);
    [by rewrite <- app_assoc|autorewrite with lens; lia|autorewrite with lens; lia|].
  intros c4 Hc4. autorewrite with lens in Hc4.
  eapply (wp_write _ _ _ ([1; len (username ai)] ++ username ai ++ [len (password ai)]) c4 []).
  - cbn. by rewrite app_nil_r, <- app_assoc.
  - autorewrite with lens. lia.
  - lia.
  - cbn. rewrite app_nil_r. revert HQ. unfold password_message. cbn. rewrite <- app_assoc. done.
Qed.

Lemma unusable_eq ai :
  (len (username ai) =? 0) || (255 <? len (username ai)) ||
  (len (password ai) =? 0) || (255 <? len (password ai)) = negb (usable ai).
Proof.
  unfold usable. pose proof (len_nonneg (username ai)). pose proof (len_nonneg (password ai)).
  apply eq_true_iff_eq. rewrite !orb_true_iff, negb_true_iff, !andb_false_iff.
  rewrite !Z.eqb_eq, !Z.ltb_lt, !Z.ltb_ge, !Z.leb_gt. lia.
Qed.

Lemma received_hello_keeps w env d v m o : midway w o [v; m] → rcvd w ++ d = [v; m] →
  sent w = [hello infos] → wp (received_hello SIZE_MAX env) o (keeps w (LRecv env d)).
Proof using Hsize Hok Hty Hau.
  intros M Er Es. unfold received_hello. wp_run.
  eapply (wp_read _ _ _ _ [] [v; m] []); [apply M|done..|]. cbn [server_hello_load sh_ver sh_method byte_at nth].
  unfold server_hello_load, byte_at, ntoh8, hton8. cbn [nth sh_ver sh_method]. change SOCKS_VERSION with 5.
  rewrite (mw_infos _ _ _ M). change (List.find _ infos) with (find_auth infos m).
  assert (handshake infos (rcvd w ++ d) = Rejected → messages infos dest (rcvd w ++ d) = [hello infos] →
    wp (report_error BSOCKSCLIENT_EVENT_ERROR) o (keeps w (LRecv env d))) as Hrej.
  { intros Hh Hm. eapply reject; [done|by rewrite Es, Hm|by rewrite Hh|]. by rewrite Hh, Hm. }
  rewrite Er in Hrej. unfold handshake, messages in Hrej. cbn in Hrej.
  destruct (v =? 5) eqn:Ev; cbn [negb]; [|destruct (find_auth infos m); by apply Hrej].
  destruct (find_auth infos m) as [ai|] eqn:Ef; [|by apply Hrej]. cbn in Hrej.
  apply Z.eqb_eq in Ev as ->. destruct (find_auth_spec _ _ Ef) as [-> [-> | ->]].
  { change (0 =? SOCKS_METHOD_NO_AUTHENTICATION_REQUIRED) with true. cbv iota.
    eapply auth_finished_keeps; try done. left. rewrite Er, Ef. done. }
  change (2 =? SOCKS_METHOD_NO_AUTHENTICATION_REQUIRED) with false. cbv iota.
  wp_run. rewrite unusable_eq. destruct (usable ai) eqn:Hu; cbn [negb] in Hrej |- *; [|by apply Hrej].
  wp_step. apply wp_reserve; [done|cbn [BSize.bsize_fromsize BSize.value]; len_lia| |].
  { intros Ere. cbn [negb].
    eapply reject; [done| | |congruence]; rewrite Er; unfold handshake, messages; cbn; rewrite Ef, Hu; cbn.
    - rewrite Es. by apply prefix_cons, prefix_nil.
    - done. }
  intros b Hb. cbn [negb BSize.bsize_fromsize BSize.value] in *. wp_step.
  assert (len (password_message ai) = 1 + 1 + len (username ai) + 1 + len (password ai)) as Hl
    by (unfold password_message; autorewrite with lens; lia).
  eapply write_password_fills; [done..|lia|]. wp_step.
  eapply (wp_read _ _ _ _ [] (password_message ai) []); [done|by rewrite app_nil_r|done|lia|].
  pose proof (midway_events _ _ _ M) as Hev. destruct M as [H Hr Hi Hd (Rc & Rd & _) Hro Hs [Hc Hup] Hio Hsn Hrc _].
  unfold control_send, set_state. wp_run. apply keeps_live; try done.
  - split; [done|]. cbn. by rewrite Rd, bool_decide_eq_false_2.
  - unfold phase. cbn. rewrite Er, Es. split; [done|]. by exists ai.
  - cbn. by rewrite Hev.
Qed.

Lemma received_password_keeps w env d ai v s o : midway w o [v; s] → rcvd w ++ d = [5; 2; v; s] →
  wants_password infos ai → sent w = [hello infos; password_message ai] →
  wp (received_password_reply SIZE_MAX env) o (keeps w (LRecv env d)).
Proof using Hsize Hok Hty Hau.
  intros M Er Hai Es. unfold received_password_reply. wp_step.
  eapply (wp_read _ _ _ _ [] [v; s] []); [apply M|done..|]. unfold byte_at. cbn [nth].
  destruct ((v =? 1) && (s =? 0)) eqn:E.
  - apply andb_true_iff in E as [->%Z.eqb_eq ->%Z.eqb_eq]. cbn. eapply auth_finished_keeps; try done. right. exists ai. by rewrite Er.
  - assert (wp (report_error BSOCKSCLIENT_EVENT_ERROR) o (keeps w (LRecv env d))) as Hrej.
    { destruct Hai as [Hf Hu].
      eapply reject; [done|..]; rewrite Er; unfold handshake, messages; cbn; rewrite Hf, Hu, E; cbn;
        by rewrite ?Es. }
    apply andb_false_iff in E as [-> | ->]; [exact Hrej|]. by destruct (negb (v =? 1)).
Qed.

Lemma received_header_keeps w env d s p v r x a c o : midway w o ([v; r; x; a] ++ c) → len c = 18 →
  rcvd w ++ d = p ++ [v; r; x; a] → authed infos s p → sent w = s ++ [request dest] →
  wp received_reply_header o (keeps w (LRecv env d)).
Proof.
  intros M Hc Er Ha Es. unfold received_reply_header. wp_step.
  eapply (wp_read _ _ _ _ [] [v; r; x; a] c); [apply M|done..|]. unfold reply_header_load, byte_at, ntoh8, hton8.
  cbn [nth rp_ver rp_rep rp_atyp]. change SOCKS_VERSION with 5. change SOCKS_REP_SUCCEEDED with 0.
  change (if a =? SOCKS_ATYP_IPV4 then _ else _) with (reply_addr_len a).
  assert (reply [v; r; x; a] = Rejected →
    wp (report_error BSOCKSCLIENT_EVENT_ERROR) o (keeps w (LRecv env d))) as Hrej.
  { intros Hr. eapply reject; [done|..]; rewrite Er, ?(handshake_authed _ _ _ _ Ha), ?(messages_authed _ _ _ _ _ Ha), ?Hr;
      by rewrite ?Es. }
  cbn in Hrej. destruct (v =? 5) eqn:Ev; cbn [negb]; [|by apply Hrej].
  destruct (r =? 0) eqn:E0; cbn [negb]; [|by apply Hrej]. cbn in Hrej.
  destruct (reply_addr_len a) as [n|] eqn:En; [|by apply Hrej]. clear Hrej.
  assert (0 < n ≤ 18) as Hn.
  { unfold reply_addr_len in En. destruct (a =? 1), (a =? 4); simplify_eq; lia. }
  pose proof (midway_events _ _ _ M) as Hev. destruct M as [H Hr Hi Hd (Rc & Rd & _) Hro Hs [Hcn Hup] Hio Hsn Hrc Hb].
  wp_step. eapply (wp_start_receive _ _ _ [v; r; x; a] c); try done; try lia.
  { rewrite len_app. change (len [v; r; x; a]) with 4. lia. }
  unfold set_state. wp_run. apply keeps_live; try done.
  - split; [done|]. cbn. by rewrite Rd, bool_decide_eq_false_2.
  - lazymatch goal with |- phase _ _ ?o' _ _ => set (o1 := o') end.
    assert (rcv o1 [v; r; x; a] n 22 []) as Hrcv.
    { split; try done; try (rewrite len_nil; lia); [change (4 + n ≤ 22); lia|].
      exists c. split; [done|]. change (len ([v; r; x; a] ++ c) = 22). rewrite len_app, Hc. done. }
    assert (state o1 = STATE_RECEIVED_REPLY_HEADER) as E1 by done. clearbody o1. unfold phase. rewrite E1.
    apply Z.eqb_eq in Ev as ->, E0 as ->. exists s, p, x, a, n, [].
    cbn [sends reports omap list_omap app]. by rewrite !app_nil_r.
  - cbn. by rewrite Hev.
Qed.

Lemma received_rest_keeps w env d s p x a n got o b : midway w o b →
  rcvd w ++ d = p ++ [5; 0; x; a] ++ got → authed infos s p → reply_addr_len a = Some n → len got = n →
  sent w = s ++ [request dest] →
  wp received_reply_rest o (keeps w (LRecv env d)).
Proof.
  intros M Er Ha En Hn Es. pose proof (midway_events _ _ _ M) as Hev.
  destruct M as [H Hr Hi Hd (Rc & Rd & _) Hro Hs [Hcn Hup] Hio Hsn Hrc Hb].
  rewrite bool_decide_eq_false_2 in Rd by done. cbn in Rd.
  unfold received_reply_rest, free_control_io, init_up_io, set_state. wp_run.
  apply keeps_live; try done.
  - unfold phase. cbn. rewrite app_nil_r. split; [done|]. by exists s, p, x, a, n, got.
  - cbn. by rewrite Hev.
Qed.

(** Data arrives: either more is awaited, or the reaction follows. *)
Lemma recv_data w env d h total size got : inv infos dest w → reported (cl w) = false →
  rcv (cl w) h total size got → state (cl w) ≠ STATE_CONNECTING → state (cl w) ≠ STATE_UP →
  0 < len d ≤ total - len got →
  (∀ o, rcv o h total size (got ++ d) → state o = state (cl w) → phase infos dest o (sent w) (rcvd w ++ d)) →
  (∀ o c, midway w o (h ++ (got ++ d) ++ c) → len (got ++ d) = total → len (h ++ (got ++ d) ++ c) = size →
    wp (match state (cl w) with
        | STATE_SENT_HELLO => received_hello SIZE_MAX env
        | STATE_SENT_REQUEST => received_reply_header
        | STATE_SENT_PASSWORD => received_password_reply SIZE_MAX env
        | STATE_RECEIVED_REPLY_HEADER => received_reply_rest
        | _ => ASSERT false
        end) o (keeps w (LRecv env d))) →
  wp (recv_handler_done SIZE_MAX env d) (cl w) (keeps w (LRecv env d)).
Proof.
  intros H Hr [Rs Rr Rd Rt Rl Rm Rro (c & Hb & Hsz)] Hc Hu Hd Hmore Hlast.
  destruct (iv_res _ _ _ H) as (Xc & Xd & Xi).
  assert (io (cl w) = IoControl) as Hio by (destruct (state (cl w)); congruence).
  rewrite !len_app in Hsz. unfold recv_handler_done. wp_run. cbn [recv_dest recv_len recv_total upd].
  rewrite Rd, Rl, Rt.
  eapply (wp_fill _ _ _ (h ++ got) c); [cbn; by rewrite Hb, <- app_assoc|by rewrite len_app|lia|].
  intros c' Hc'. wp_run.
  lazymatch goal with |- context [wp (if _ then _ else _) ?o' _] => set (o := o') end.
  assert (buffer o = Some (h ++ (got ++ d) ++ c')) as Hbo by (cbn; by rewrite <- !app_assoc).
  assert (recv_len o = len (got ++ d)) as Hlo by (cbn; by rewrite len_app, ?Rl).
  assert (recv_total o = total) as Hto by done. assert (recv_dest o = len h) as Hdo by done.
  assert (receiving o = false) as Hro by done. assert (io o = IoControl) as Hioo by done.
  assert (len (h ++ (got ++ d) ++ c') = size) as Hsz' by (rewrite !len_app; lia).
  assert (midway w o (h ++ (got ++ d) ++ c')) as M by (split; try done; apply H).
  clearbody o. rewrite Hlo, Hto. rewrite len_app in Hlo |- *. destruct (Z.ltb_spec (len got + len d) total) as [Hlt|Hge].
  - eapply (wp_do_receive _ h (got ++ d) c'); try done; rewrite ?len_app; rewrite ?len_app in Hsz'; try lia.
    pose proof (midway_events _ _ _ M) as Hev. destruct M as [_ _ Mi Md Mr Mro Ms [? ?] _ Msn _ _].
    apply keeps_live; try done.
    + cbn. rewrite !app_nil_r. apply Hmore; [|done]. split; try done; rewrite ?len_app; try lia; try exact Hlo.
      exists c'. by rewrite !len_app.
    + cbn. rewrite Hev. by rewrite bool_decide_eq_false_2.
  - rewrite (mw_state _ _ _ M). eapply Hlast; [done| |done]. rewrite len_app. lia.
Qed.

Lemma list_of_two (l : bytes) : len l = 2 → ∃ a b, l = [a; b].
Proof. intros. destruct l as [|a [|b [|]]]; try discriminate; [by eexists _, _|]. rewrite !len_cons in *. len_lia. Qed.
Lemma list_of_four (l : bytes) : len l = 4 → ∃ a b c d, l = [a; b; c; d].
Proof.
  intros. destruct l as [|a [|b [|c [|d [|]]]]]; try discriminate; [by eexists _, _, _, _|].
  rewrite !len_cons in *. len_lia.
Qed.

Lemma recv_handler_keeps w env d : inv infos dest w → enabled (LRecv env d) (cl w) →
  wp (recv_handler_done SIZE_MAX env d) (cl w) (keeps w (LRecv env d)).
Proof using Hsize Hok Hty Hau.
  intros H (Hr & Hrc & Hd). destruct (iv_live _ _ _ H Hr) as [Hp _]. unfold phase in Hp.
  destruct (state (cl w)) eqn:Es; try (exfalso; destruct Hp as [(_ & ? & _) _]; congruence).
  - destruct Hp as (_ & _ & _ & _ & ?). congruence.
  - destruct Hp as [Hv Hs]. eapply (recv_data w env d [] 2 2 (rcvd w)); rewrite ?Es; try done.
    + by destruct Hv; lia.
    + intros o Ho Eo. unfold phase. rewrite Eo. by split.
    + intros o c M Hl Hsz. cbn [app] in Hsz, M. rewrite len_app in Hsz. assert (c = []) as -> by (apply len_0_nil; lia).
      rewrite app_nil_r in M. destruct (list_of_two _ Hl) as (v & m & E).
      rewrite E in M. by eapply received_hello_keeps.
  - destruct Hp as (ai & got & Hv & Hai & Hs & Hg). eapply (recv_data w env d [] 2 2 got); rewrite ?Es; try done.
    + by destruct Hv; lia.
    + intros o Ho Eo. unfold phase. rewrite Eo. exists ai, (got ++ d). by rewrite Hg, <- app_assoc.
    + intros o c M Hl Hsz. cbn [app] in Hsz, M. rewrite len_app in Hsz. assert (c = []) as -> by (apply len_0_nil; lia).
      rewrite app_nil_r in M. destruct (list_of_two _ Hl) as (v & m & E).
      rewrite E in M. eapply received_password_keeps; [done| |done..]. by rewrite Hg, <- app_assoc, E.
  - destruct Hp as (s & p & got & Hv & Ha & Hs & Hg). eapply (recv_data w env d [] 4 22 got); rewrite ?Es; try done.
    + by destruct Hv; lia.
    + intros o Ho Eo. unfold phase. rewrite Eo. exists s, p, (got ++ d). by rewrite Hg, <- app_assoc.
    + intros o c M Hl Hsz. cbn [app] in Hsz, M. rewrite len_app in Hsz.
      destruct (list_of_four _ Hl) as (v & r & x & a & E). rewrite E in M.
      eapply received_header_keeps; [done|lia| |done..]. by rewrite Hg, <- app_assoc, E.
  - destruct Hp as (s & p & x & a & n & got & Hv & Ha & En & Hs & Hg).
    eapply (recv_data w env d [5; 0; x; a] n 22 got); rewrite ?Es; try done.
    + by destruct Hv; lia.
    + intros o Ho Eo. unfold phase. rewrite Eo. exists s, p, x, a, n, (got ++ d). by rewrite Hg, <- !app_assoc.
    + intros o c M Hl Hsz. eapply received_rest_keeps; [done| |done..]. by rewrite Hg, <- !app_assoc.
  - destruct Hp as [(_ & _ & ?) _]. congruence.
Qed.
End handlers.

(** ** Executions *)

Lemma socks_init_ok server infos dest o :
  BSocksClient_Init server infos dest true = Some (Some o) →
  (BAddr_type dest =? 1) || (BAddr_type dest =? 2) = true ∧
  Forall (λ ai, auth_type ai = 0 ∨ auth_type ai = 2) infos ∧
  inv infos dest (World o [] [] [] (bad_count infos)).
Proof.
  unfold BSocksClient_Init. destruct (negb (BAddr_IsInvalid server)); [|done].
  destruct (_ || _) eqn:Ht; [|done]. destruct (forallb _ infos) eqn:Hf; [|done]. intros [= <-].
  split; [done|]. split.
  - apply List.Forall_forall. intros ai Hin. rewrite forallb_forall in Hf.
    apply Hf, orb_true_iff in Hin as [E|E]; apply Z.eqb_eq in E; auto.
  - by split.
Qed.

Lemma socks_run_ok SIZE_MAX infos dest w l : 65535 ≤ SIZE_MAX → BAddr_ok dest →
  (BAddr_type dest =? 1) || (BAddr_type dest =? 2) = true →
  Forall (λ ai, auth_type ai = 0 ∨ auth_type ai = 2) infos →
  inv infos dest w → enabled l (cl w) →
  wp (run SIZE_MAX l) (cl w) (keeps infos dest w l).
Proof.
  intros Hs Hok Hty Hau H He. destruct l.
  - apply connector_handler_keeps; try done. eapply Forall_impl; [exact Hau|].
    unfold is_u8. intros ai [-> | ->]; lia.
  - by apply connection_handler_keeps.
  - by apply recv_handler_keeps.
  - by apply send_handler_keeps.
Qed.

Lemma socks_reach_inv SIZE_MAX infos dest w : 65535 ≤ SIZE_MAX → reach SIZE_MAX infos dest w →
  BAddr_ok dest ∧ (BAddr_type dest =? 1) || (BAddr_type dest =? 2) = true ∧
  Forall (λ ai, auth_type ai = 0 ∨ auth_type ai = 2) infos ∧ inv infos dest w.
Proof.
  intros Hs. induction 1 as [server o Hi Hok|w l o es _ (Hok & Hty & Hau & H) He E].
  - destruct (socks_init_ok _ _ _ _ Hi) as (? & ? & ?). done.
  - do 3 (split; [done|]). pose proof (socks_run_ok _ _ _ _ l Hs Hok Hty Hau H He) as Hw.
    unfold wp in Hw. rewrite E in Hw. apply Hw.
Qed.

(** What a step reports: that the client is up, an error, or nothing. *)
Lemma socks_step_reports infos dest w l o es : inv infos dest w → reported (cl w) = false →
  keeps infos dest w l tt o es →
  (reported o = false ∧ reports es = [] ∧ (state o = STATE_UP ↔ state (cl w) = STATE_UP)) ∨
  (reported o = false ∧ reports es = [BSOCKSCLIENT_EVENT_UP] ∧ state o = STATE_UP ∧ state (cl w) ≠ STATE_UP) ∨
  (reported o = true ∧ state o = state (cl w) ∧
   (reports es = [BSOCKSCLIENT_EVENT_ERROR] ∨ reports es = [BSOCKSCLIENT_EVENT_ERROR_CLOSED])).
Proof.
  intros H Hr [H' Hs]. destruct (iv_live _ _ _ H Hr) as [_ Hev]. destruct (reported o) eqn:Hro.
  - right. right. split; [done|]. split; [by apply Hs|].
    destruct (iv_ended _ _ _ H' Hro) as ((e & Ee & Hne & _) & _). cbn in Ee. rewrite (Hs eq_refl), Hev in Ee.
    apply app_inv_head in Ee. rewrite Ee. destruct e; auto. done.
  - destruct (iv_live _ _ _ H' Hro) as [_ Ee]. cbn in Ee. rewrite Hev in Ee.
    destruct (bool_decide_reflect (state (cl w) = STATE_UP)), (bool_decide_reflect (state o = STATE_UP)); cbn in Ee;
      try done; [injection Ee as Ee; by left|by right; left|by left].
Qed.

Lemma socks_free_all o : resources o →
  ∃ o', BSocksClient_Free o = Some (tt, o', []) ∧
    connector o' = false ∧ connected o' = false ∧ io o' = IoNone ∧ buffer o' = None.
Proof.
  intros (Rc & Rd & Ri).
  assert (wp BSocksClient_Free o (λ _ o' es, es = [] ∧ connector o' = false ∧ connected o' = false ∧
    io o' = IoNone ∧ buffer o' = None)) as Hw.
  { unfold BSocksClient_Free, free_up_io, free_control_io, BConnection_Free. wp_run.
    apply wp_when.
    - intros Hs. bool_to_prop. rewrite bool_decide_eq_false_2 in Rd by done. cbn in Rd.
      destruct (bool_decide_reflect (state o = STATE_UP)) as [E|E].
      + rewrite E in Ri. wp_run. apply wp_when; intros Hb; bool_to_prop; wp_run; [done|].
        cbn. split_and!; try done. by apply eq_None_not_Some.
      + assert (io o = IoControl) by (destruct (state o); congruence).
        wp_run. apply wp_when; intros Hb; bool_to_prop; wp_run; [done|].
        cbn. split_and!; try done. by apply eq_None_not_Some.
    - intros Hs. apply negb_false_iff, bool_decide_eq_true in Hs. rewrite Hs in Rd, Ri. cbn in Rd. wp_run.
      apply wp_when; intros Hb; bool_to_prop; wp_run; cbn; split_and!; try done. by apply eq_None_not_Some. }
  apply (proj1 (wp_some _ _ _)) in Hw as ([] & o' & es & E & -> & ?). by exists o'.
Qed.

(** ** Concrete executions *)

#[export] Instance enabled_dec l o : Decision (enabled l o).
Proof. destruct l; unfold enabled; apply _. Defined.

Fixpoint exec (SIZE_MAX : Z) (ls : list label) (w : world) : option world :=
  match ls with
  | [] => Some w
  | l :: ls =>
      if bool_decide (enabled l (cl w)) then
        match run SIZE_MAX l (cl w) with
        | Some (_, o, es) => exec SIZE_MAX ls (next w l o es)
        | None => None
        end
      else None
  end.

Lemma reach_exec SIZE_MAX infos dest ls w w' : reach SIZE_MAX infos dest w →
  exec SIZE_MAX ls w = Some w' → reach SIZE_MAX infos dest w'.
Proof.
  revert w. induction ls as [|l ls IH]; cbn; intros w H E; [by simplify_eq|].
  destruct (bool_decide_reflect (enabled l (cl w))); [|done].
  destruct (run SIZE_MAX l (cl w)) as [[[[] o] es]|] eqn:Er; [|done].
  eapply IH; [|done]. by eapply reach_run.
Qed.

(** Both methods are offered, the server asks for the password and answers in
    pieces. *)
Definition example_infos : list BSocksClient_auth_info :=
  [BSocksClient_auth_none; BSocksClient_auth_password [117] [112; 119]].
Definition example_dest : BAddr := BADDR_IPV4 16777343 20480.
Definition example_env : answers := Answers true true (λ _, 0).
Definition example_labels : list label :=
  [LConnector example_env false; LSend example_env; LRecv example_env [5]; LRecv example_env [2];
   LSend example_env; LRecv example_env [1; 0]; LSend example_env;
   LRecv example_env [5; 0; 0]; LRecv example_env [1]; LRecv example_env [1; 2; 3; 4]; LRecv example_env [5; 6]].
Definition example_start : world :=
  World (MkBSocksClient example_infos example_dest STATE_CONNECTING None 0 0 0 true false IoNone false false false)
    [] [] [] false.

Lemma example_reach : ∃ w, exec 65535 example_labels example_start = Some w ∧
  reach 65535 example_infos example_dest w ∧
  rcvd w = [5; 2; 1; 0; 5; 0; 0; 1; 1; 2; 3; 4; 5; 6] ∧ events w = [BSOCKSCLIENT_EVENT_UP].
Proof.
  assert (reach 65535 example_infos example_dest example_start) as H.
  { apply (reach_init 65535 example_infos example_dest (BADDR_IPV4 1 1)); [done|]. unfold example_dest, BAddr_ok, is_u32, is_u16. lia. }
  destruct (exec 65535 example_labels example_start) as [w|] eqn:E; [|by vm_compute in E].
  exists w. split; [done|]. split; [by eapply reach_exec|]. vm_compute in E. by simplify_eq.
Qed.

(** C16: In every execution of the SOCKS client, whatever the server sends in
    whatever pieces and whichever allocation or connection fails, every handler
    runs to its end: no assertion fails and every access to the buffer is
    within it. While the handshake runs, exactly one of sending and receiving
    is in progress, so it cannot stall by itself. In every state the client can
    be freed, which releases the interfaces, the connection, the connector and
    the buffer, each once. *)
Theorem socks_client_safe SIZE_MAX infos dest w : 65535 ≤ SIZE_MAX → reach SIZE_MAX infos dest w →
  (∀ l, enabled l (cl w) → ∃ o es, run SIZE_MAX l (cl w) = Some (tt, o, es)) ∧
  (reported (cl w) = false → state (cl w) ≠ STATE_CONNECTING → state (cl w) ≠ STATE_UP →
    sending (cl w) = negb (receiving (cl w))) ∧
  ∃ o, BSocksClient_Free (cl w) = Some (tt, o, []) ∧
    connector o = false ∧ connected o = false ∧ io o = IoNone ∧ buffer o = None.
Proof.
  intros Hs (Hok & Hty & Hau & H)%socks_reach_inv; [|done]. split; [|split].
  - intros l He. pose proof (socks_run_ok _ _ _ _ l Hs Hok Hty Hau H He) as Hw.
    apply (proj1 (wp_some _ _ _)) in Hw as ([] & o & es & E & _). by exists o, es.
  - intros Hr Hc Hu. destruct (iv_live _ _ _ H Hr) as [Hp _]. unfold phase, snd in Hp.
    destruct (state (cl w)); try done; destruct_and?; destruct_or?; repeat
      match goal with | H : ∃ _, _ |- _ => destruct H | H : _ ∧ _ |- _ => destruct H end;
      try match goal with H : rcv _ _ _ _ _ |- _ => destruct H end;
      destruct (sending (cl w)), (receiving (cl w)); cbn; congruence.
  - by apply socks_free_all, H.
Qed.

Lemma socks_client_safe_witness : ∃ w, reach 65535 example_infos example_dest w ∧
  ∃ o, BSocksClient_Free (cl w) = Some (tt, o, []) ∧ connected o = false.
Proof.
  destruct example_reach as (w & _ & H & _). exists w. split; [done|].
  destruct (socks_client_safe 65535 example_infos example_dest w ltac:(lia) H) as (_ & _ & o & E & _ & ? & _).
  by exists o.
Defined.

(** C5: The SOCKS client implements the handshake, whatever the pieces in which
    the server's bytes arrive. It reports UP exactly when the bytes received
    so far are a complete valid handshake, with not one byte of the stream
    behind it consumed; it reports an error, while nothing outside of it fails,
    exactly when they are invalid; and it has then sent exactly the messages
    the handshake asks for, with the methods, credentials and destination it
    was given (always a prefix of them). CLOSED is reported only after UP. *)
Theorem socks_client_handshake SIZE_MAX infos dest w : 65535 ≤ SIZE_MAX → reach SIZE_MAX infos dest w →
  (BSOCKSCLIENT_EVENT_UP ∈ events w ↔ handshake infos (rcvd w) = Accepted []) ∧
  (∀ rest, handshake infos (rcvd w) = Accepted rest → rest = []) ∧
  (BSOCKSCLIENT_EVENT_ERROR_CLOSED ∈ events w → BSOCKSCLIENT_EVENT_UP ∈ events w) ∧
  sent w `prefix_of` messages infos dest (rcvd w) ∧
  (failed w = false →
    (BSOCKSCLIENT_EVENT_ERROR ∈ events w ↔ handshake infos (rcvd w) = Rejected) ∧
    (state (cl w) ≠ STATE_CONNECTING → sent w = messages infos dest (rcvd w))).
Proof.
  intros Hs (_ & _ & _ & H)%socks_reach_inv; [|done]. destruct (reported (cl w)) eqn:Hr.
  - destruct (iv_ended _ _ _ H Hr) as ((e & -> & He & Hcl) & Hm & Hh & Hf).
    destruct (bool_decide_reflect (state (cl w) = STATE_UP)) as [Eu|Eu];
      destruct (handshake infos (rcvd w)) as [| |rest] eqn:Ehs; try done.
    + destruct Hh as [-> _]. split_and!; try done; [split; [done|intros _; left]|congruence|intros _; left|].
      intros Hfw. by destruct (Hf Hfw).
    + destruct e; try done; [|by destruct (Eu (Hcl eq_refl))].
      split_and!; try done; [split; [by intros ?%list_elem_of_singleton|done]|by intros ?%list_elem_of_singleton|].
      intros Hfw. by destruct (Hf Hfw).
    + destruct e; try done; [|by destruct (Eu (Hcl eq_refl))].
      split_and!; try done; [split; [by intros ?%list_elem_of_singleton|done]|by intros ?%list_elem_of_singleton|].
      intros Hfw. destruct (Hf Hfw) as [_ Hms]. split; [|done]. split; [done|intros _; left].
    + by destruct Hh.
  - destruct (iv_live _ _ _ H Hr) as [Hp ->]. apply phase_spec in Hp as [Hh Hm].
    assert (sent w `prefix_of` messages infos dest (rcvd w) ∧
      (state (cl w) ≠ STATE_CONNECTING → sent w = messages infos dest (rcvd w))) as [Hpre Heq].
    { rewrite Hm. destruct (bool_decide_reflect (state (cl w) = STATE_CONNECTING)); [|done].
      split; [apply prefix_nil|done]. }
    destruct (bool_decide_reflect (state (cl w) = STATE_UP)) as [Eu|Eu]; rewrite Hh; split_and!; try done.
    + split; [done|intros _; left].
    + congruence.
    + intros _; left.
    + intros _. split; [|done]. split; [by intros ?%list_elem_of_singleton|done].
    + split; [by intros ?%elem_of_nil|done].
    + by intros ?%elem_of_nil.
    + intros _. split; [|done]. split; [by intros ?%elem_of_nil|done].
Qed.

Lemma socks_client_handshake_witness : ∃ w, reach 65535 example_infos example_dest w ∧
  handshake example_infos (rcvd w) = Accepted [] ∧ BSOCKSCLIENT_EVENT_UP ∈ events w.
Proof.
  destruct example_reach as (w & _ & H & Er & Ee). exists w. split; [done|].
  split; [|rewrite Ee; left].
  apply (socks_client_handshake 65535 example_infos example_dest w ltac:(lia) H). rewrite Ee. left.
Defined.
End SocksFacts.
