(* ===== verification/SocksUdpGwClient.v ===== *)
(** The udpgw client over SOCKS (tun2socks/SocksUdpGwClient.c): it keeps a
    SOCKS connection to the gateway, attaches the udpgw client to it while it is
    up and connects again after a while when it fails. The two clients are the
    ones of UdpGwClient and SocksClient; their calls are kept apart by
    constructors. *)
From S2P Require Import Prelude Misc BAddr TreeInterface BAVL BAVLFacts UdpGwClient SocksClient.

(** * The code *)
Module SocksUdpGwCode.
Import SocksClientCode.
Abbreviation UdpGwClient := UdpGwClientCode.UdpGwClient.

Section code.
Context {T : Type} `{!OrderedTree T} (SIZE_MAX : Z).

(** [reconnect_timer]: whether it is running. [socks_client] has a meaning
    while [have_socks], and then [socks_up] too. *)
Record SocksUdpGwClient := MkSocksUdpGwClient {
  udp_mtu : Z;
  socks_server_addr : BAddr;
  auth_info : list BSocksClient_auth_info;
  remote_udpgw_addr : BAddr;
  udpgw_client : UdpGwClient T;
  reconnect_timer : bool;
  have_socks : bool;
  socks_client : option BSocksClient;
  socks_up : bool
}.
#[global] Instance eta_SocksUdpGwClient : Eta SocksUdpGwClient := λ x,
  MkSocksUdpGwClient (udp_mtu x) (socks_server_addr x) (auth_info x) (remote_udpgw_addr x)
    (udpgw_client x) (reconnect_timer x) (have_socks x) (socks_client x) (socks_up x).

Inductive call :=
  | udpgw_call (c : UdpGwClientCode.call)
  | socks_call (c : SocksClientCode.call)
  | handler_received (local remote : BAddr) (data : bytes).
Abbreviation op := (prog SocksUdpGwClient call).

(** Operations of the two clients; [in_socks] fails on a freed client. *)
Definition in_udpgw {A} (m : prog (UdpGwClient T) UdpGwClientCode.call A) : op (A * list UdpGwClientCode.call) :=
  λ o, match m (udpgw_client o) with
       | Some (a, u, es) => Some ((a, es), o <| udpgw_client := u |>, udpgw_call <$> es)
       | None => None
       end.
Definition in_socks {A} (m : prog BSocksClient SocksClientCode.call A) : op (A * list SocksClientCode.call) :=
  λ o, match socks_client o with
       | Some c =>
           match m c with
           | Some (a, c, es) => Some ((a, es), o <| socks_client := Some c |>, socks_call <$> es)
           | None => None
           end
       | None => None
       end.

Definition free_socks : op unit :=
  o ← get_st;
  ASSERT (have_socks o);;
  when (socks_up o) (in_udpgw UdpGwClientCode.UdpGwClient_DisconnectServer;; mret tt);;
  in_socks BSocksClient_Free;;
  modify (λ o, o <| socks_client := None |>);;
  modify (λ o, o <| have_socks := false |>).

Definition BReactor_SetTimer : op unit := modify (λ o, o <| reconnect_timer := true |>).

(** [connector_ok]: whether the connector of the SOCKS client could be made. *)
Definition try_connect (connector_ok : bool) : op unit :=
  o ← get_st;
  ASSERT (negb (have_socks o));;
  ASSERT (negb (reconnect_timer o));;
  match BSocksClient_Init (socks_server_addr o) (auth_info o) (remote_udpgw_addr o) connector_ok with
  | None => ASSERT false
  | Some None => BReactor_SetTimer
  | Some (Some c) =>
      modify (λ o, o <| socks_client := Some c |>);;
      modify (λ o, o <| have_socks := true |>);;
      modify (λ o, o <| socks_up := false |>)
  end.

(** The timer stops when it expires. *)
Definition reconnect_timer_handler (connector_ok : bool) : op unit :=
  modify (λ o, o <| reconnect_timer := false |>);;
  o ← get_st;
  ASSERT (negb (have_socks o));;
  try_connect connector_ok.

(** [decoder_ok]: whether the decoder of the udpgw client could be made. *)
Definition socks_client_handler (decoder_ok : bool) (e : event) : op unit :=
  o ← get_st;
  ASSERT (have_socks o);;
  match e with
  | BSOCKSCLIENT_EVENT_UP =>
      ASSERT (negb (socks_up o));;
      (* BSocksClient_GetSendInterface, BSocksClient_GetRecvInterface *)
      ASSERT (bool_decide (state <$> socks_client o = Some STATE_UP));;
      '(ok, _) ← in_udpgw (UdpGwClientCode.UdpGwClient_ConnectServer decoder_ok);
      if negb ok then free_socks;; BReactor_SetTimer
      else modify (λ o, o <| socks_up := true |>)
  | BSOCKSCLIENT_EVENT_ERROR | BSOCKSCLIENT_EVENT_ERROR_CLOSED => free_socks;; BReactor_SetTimer
  end.

Definition udpgw_handler_servererror : op unit :=
  o ← get_st;
  ASSERT (have_socks o);;
  ASSERT (socks_up o);;
  free_socks;;
  BReactor_SetTimer.

Definition udpgw_handler_received (local remote : BAddr) (data : bytes) : op unit :=
  emit (handler_received local remote data).

Definition SocksUdpGwClient_SubmitPacket (env : UdpGwClientCode.answers) (local remote : BAddr)
    (is_dns : bool) (data : bytes) : op unit :=
  in_udpgw (UdpGwClientCode.UdpGwClient_SubmitPacket env local remote is_dns data);; mret tt.

Definition SocksUdpGwClient_Init (mtu max buffer : Z) (server : BAddr)
    (infos : list BSocksClient_auth_info) (remote : BAddr) (queue_ok connector_ok : bool)
    : option (option SocksUdpGwClient) :=
  ASSERT_ (negb (BAddr_IsInvalid server));
  ASSERT_ ((BAddr_type remote =? 1) || (BAddr_type remote =? 2));
  match UdpGwClientCode.UdpGwClient_Init SIZE_MAX mtu max buffer queue_ok with
  | None => None
  | Some None => Some None
  | Some (Some u) =>
      match try_connect connector_ok (MkSocksUdpGwClient mtu server infos remote u false false None false) with
      | Some (_, o, _) => Some (Some o)
      | None => None
      end
  end.

Definition SocksUdpGwClient_Free : op unit :=
  o ← get_st;
  when (have_socks o) free_socks;;
  modify (λ o, o <| reconnect_timer := false |>);;
  in_udpgw UdpGwClientCode.UdpGwClient_Free;;
  mret tt.

(** The callbacks of the two clients reach the handlers above. *)
Definition socks_callback (decoder_ok : bool) (c : SocksClientCode.call) : op unit :=
  match c with handler e => socks_client_handler decoder_ok e | _ => mret tt end.
Definition udpgw_callback (c : UdpGwClientCode.call) : op unit :=
  match c with
  | UdpGwClientCode.handler_servererror => udpgw_handler_servererror
  | UdpGwClientCode.handler_received l r d => udpgw_handler_received l r d
  | _ => mret tt
  end.
Fixpoint each {A} (f : A → op unit) (l : list A) : op unit :=
  match l with [] => mret tt | x :: l => f x;; each f l end.
End code.
Arguments SocksUdpGwClient : clear implicits.
End SocksUdpGwCode.

(** * Executions *)
Module SocksUdpGwFacts.
Import SocksClientCode SocksUdpGwCode.

Section run.
Context {T : Type} `{!OrderedTree T} (SIZE_MAX : Z).
Implicit Types o : SocksUdpGwClient T.

(** What happens to the client: its timer expires, its SOCKS client goes on,
    a packet or an error arrives from the gateway, its user submits a
    datagram. *)
Inductive label :=
  | LTimer (connector_ok : bool)
  | LSocks (l : SocksRun.label) (decoder_ok : bool)
  | LReceived (data : bytes)
  | LDecoderError
  | LSubmit (env : UdpGwClientCode.answers) (local remote : BAddr) (is_dns : bool) (data : bytes).

Definition enabled (l : label) o : Prop :=
  match l with
  | LTimer _ => reconnect_timer o = true
  | LSocks l _ => ∃ c, socks_client o = Some c ∧ SocksRun.enabled l c
  | LReceived data => UdpGwClientCode.have_server (udpgw_client o) = true ∧
      len data ≤ UdpGwClientCode.udpgw_mtu (udpgw_client o) ∧ bytes_ok data
  | LDecoderError => UdpGwClientCode.have_server (udpgw_client o) = true
  | LSubmit env local remote _ data => BAddr_ok local ∧ BAddr_ok remote ∧
      len data ≤ UdpGwClientCode.udp_mtu (udpgw_client o) ∧
      UdpGwClientFacts.malloc_fresh (udpgw_client o) env
  end.

Definition run (l : label) : prog (SocksUdpGwClient T) call unit :=
  match l with
  | LTimer ok => reconnect_timer_handler ok
  | LSocks l ok => '(_, es) ← in_socks (SocksRun.run SIZE_MAX l); each (socks_callback ok) es
  | LReceived data => '(_, es) ← in_udpgw (UdpGwClientCode.recv_interface_handler_send data); each udpgw_callback es
  | LDecoderError => '(_, es) ← in_udpgw UdpGwClientCode.decoder_handler_error; each udpgw_callback es
  | LSubmit env local remote dns data => SocksUdpGwClient_SubmitPacket env local remote dns data
  end.

Inductive reach : SocksUdpGwClient T → Prop :=
  | reach_init mtu max buffer server infos remote connector_ok o :
      INT_MAX ≤ SIZE_MAX → 0 ≤ mtu ≤ INT_MAX → BAddr_ok remote →
      SocksUdpGwClient_Init SIZE_MAX mtu max buffer server infos remote true connector_ok = Some (Some o) →
      reach o
  | reach_run o l o' es : reach o → enabled l o → run l o = Some (tt, o', es) → reach o'.

(** ** Invariant *)
Record inv o : Prop := {
  iv_udpgw : UdpGwClientFacts.reach (udpgw_client o);
  iv_size : INT_MAX ≤ SIZE_MAX;
  iv_config : BAddr_ok (remote_udpgw_addr o) ∧
    ∃ c, BSocksClient_Init (socks_server_addr o) (auth_info o) (remote_udpgw_addr o) true = Some (Some c);
  iv_timer : have_socks o = negb (reconnect_timer o);
  iv_server : UdpGwClientCode.have_server (udpgw_client o) = have_socks o && socks_up o;
  iv_socks : if have_socks o then
      ∃ w, SocksRun.reach SIZE_MAX (auth_info o) (remote_udpgw_addr o) w ∧
        socks_client o = Some (SocksRun.cl w) ∧ reported (SocksRun.cl w) = false ∧
        socks_up o = bool_decide (state (SocksRun.cl w) = STATE_UP)
    else socks_client o = None
}.
(** ** The operations of the two clients inside this one *)

Lemma wp_result {St Ev A} (m : prog St Ev A) s Q :
  wp m s (λ a s' es, m s = Some (a, s', es) → Q a s' es) → wp m s Q.
Proof. unfold wp. destruct (m s) as [[[a s'] es]|]; auto. Qed.

Lemma wp_in_udpgw {A} (m : prog (UdpGwClient T) UdpGwClientCode.call A) o Q :
  wp m (udpgw_client o) (λ a u es, m (udpgw_client o) = Some (a, u, es) →
    Q (a, es) (o <| udpgw_client := u |>) (udpgw_call <$> es)) →
  wp (in_udpgw m) o Q.
Proof. intros H%wp_result. unfold wp, in_udpgw in *. by destruct (m (udpgw_client o)) as [[[a u] es]|]. Qed.

Lemma wp_in_socks {A} (m : prog BSocksClient SocksClientCode.call A) o c Q : socks_client o = Some c →
  wp m c (λ a c' es, m c = Some (a, c', es) →
    Q (a, es) (o <| socks_client := Some c' |>) (socks_call <$> es)) →
  wp (in_socks m) o Q.
Proof. intros Hc H%wp_result. unfold wp, in_socks in *. rewrite Hc. by destruct (m c) as [[[a u] es]|]. Qed.

Abbreviation table o := (UdpGwClientFacts.table (udpgw_client o)).

(** Everything but the SOCKS side is as it should be. *)
Record idle o : Prop := {
  il_udpgw : UdpGwClientFacts.reach (udpgw_client o);
  il_size : INT_MAX ≤ SIZE_MAX;
  il_config : BAddr_ok (remote_udpgw_addr o) ∧
    ∃ c, BSocksClient_Init (socks_server_addr o) (auth_info o) (remote_udpgw_addr o) true = Some (Some c);
}.
Lemma inv_idle o : inv o → idle o.
Proof. by intros []. Qed.

(** The SOCKS client, in whatever state, is given up. *)
Lemma release_socks_ok o c : idle o → have_socks o = true → socks_client o = Some c → SocksFacts.resources c →
  UdpGwClientCode.have_server (udpgw_client o) = socks_up o →
  wp free_socks o (λ _ o' _, idle o' ∧ have_socks o' = false ∧ socks_client o' = None ∧
    reconnect_timer o' = reconnect_timer o ∧ auth_info o' = auth_info o ∧
    UdpGwClientCode.have_server (udpgw_client o') = false ∧ table o' = table o).
Proof.
  intros H Hh Hc Hres Hsrv. destruct (SocksFacts.socks_free_all c Hres) as (c' & E & _).
  unfold free_socks. wp_run.
  apply wp_when; intros Hup; rewrite Hup in Hsrv.
  - wp_step. apply wp_in_udpgw. unfold UdpGwClientCode.UdpGwClient_DisconnectServer, UdpGwClientCode.free_server.
    wp_run. intros Ed. wp_run. eapply wp_in_socks; [done|]. unfold wp. rewrite E. intros _. wp_run.
    split_and!; try done. split; [|apply H..]. cbn. eapply UdpGwClientFacts.reach_disconnect; [apply H|].
    unfold UdpGwClientCode.UdpGwClient_DisconnectServer, UdpGwClientCode.free_server. exact Ed.
  - wp_run. eapply wp_in_socks; [done|]. unfold wp. rewrite E. intros _. wp_run.
    split_and!; try done. split; apply H.
Qed.

(** ... and another attempt is scheduled. *)
Lemma give_up_ok o c : idle o → have_socks o = true → socks_client o = Some c → SocksFacts.resources c →
  UdpGwClientCode.have_server (udpgw_client o) = socks_up o →
  wp (free_socks;; BReactor_SetTimer) o (λ _ o' _, inv o' ∧ table o' = table o).
Proof.
  intros H Hh Hc Hres Hsrv. wp_step. eapply wp_mono; [by eapply release_socks_ok|].
  intros [] o' es (H' & Hh' & Hc' & Ht & Ha & Hs' & Htb). unfold BReactor_SetTimer. wp_run.
  split; [|done]. destruct H'. by split; cbn; rewrite ?Hh'.
Qed.

Lemma try_connect_ok o ok : idle o → have_socks o = false → socks_client o = None → reconnect_timer o = false →
  UdpGwClientCode.have_server (udpgw_client o) = false →
  wp (try_connect ok) o (λ _ o' _, inv o' ∧ table o' = table o).
Proof.
  intros H Hh Hc Ht Hs. destruct (il_config _ H) as [Hok (c & Ec)]. unfold try_connect. wp_run.
  destruct ok.
  - rewrite Ec. wp_run. split; [|done]. destruct H. split; try done; cbn; [by rewrite Ht|].
    exists (SocksRun.World c [] [] [] (SocksRun.bad_count (auth_info o))). split_and!; try done.
    + by eapply SocksRun.reach_init.
    + revert Ec. unfold BSocksClient_Init. repeat case_match; try done. by intros [= <-].
    + revert Ec. unfold BSocksClient_Init. repeat case_match; try done. by intros [= <-].
  - assert (BSocksClient_Init (socks_server_addr o) (auth_info o) (remote_udpgw_addr o) false = Some None) as ->.
    { revert Ec. unfold BSocksClient_Init. by repeat case_match. }
    unfold BReactor_SetTimer. wp_run. split; [|done]. destruct H. split; try done; cbn; by rewrite ?Hs, Hh.
Qed.

(** ** Callbacks *)

Lemma each_socks ok es o (Q : SocksUdpGwClient T → Prop) :
  match SocksRun.reports es with
  | [] => Q o
  | [e] => wp (socks_client_handler ok e) o (λ _ o' _, Q o')
  | _ => False
  end → wp (each (socks_callback ok) es) o (λ _ o' _, Q o').
Proof.
  revert o. induction es as [|c es IH]; intros o H; cbn [each]; [done|]. wp_step.
  destruct c as [| |e]; cbn [socks_callback]; [wp_run; by apply IH..|].
  cbn in H. fold (SocksRun.reports es) in H. destruct (SocksRun.reports es) eqn:E; [|done].
  eapply wp_mono; [exact H|]. intros [] o1 es1 Ho. by apply IH.
Qed.

Definition deliveries (es : list call) : list (BAddr * BAddr * bytes) :=
  omap (λ c, match c with handler_received l r d => Some (l, r, d) | _ => None end) es.
Definition udpgw_deliveries (es : list UdpGwClientCode.call) : list (BAddr * BAddr * bytes) :=
  omap (λ c, match c with UdpGwClientCode.handler_received l r d => Some (l, r, d) | _ => None end) es.

Lemma deliveries_udpgw es : deliveries (udpgw_call <$> es) = [].
Proof. induction es; cbn; auto. Qed.

(** ** What each event does to the table of connections *)
Definition effect (l : label) o o' (es : list call) : Prop :=
  match l with
  | LTimer _ | LSocks _ _ | LDecoderError => table o' = table o
  | LReceived data => ∃ ces,
      UdpGwClientFacts.receive_step (UdpGwClientCode.udp_mtu (udpgw_client o)) data (table o) (table o') ces ∧
      deliveries es = udpgw_deliveries ces
  | LSubmit env local remote dns data => ∃ packets,
      UdpGwClientFacts.submit_step env (UdpGwClientCode.max_connections (udpgw_client o))
        (UdpGwClientCode.Conaddr local remote) dns data (table o) (table o') packets
  end.

Lemma socks_event_ok o l ok : inv o → enabled (LSocks l ok) o →
  wp (run (LSocks l ok)) o (λ _ o' _, inv o' ∧ table o' = table o).
Proof.
  intros H (c & Hc & He). pose proof (iv_socks _ H) as Hs. destruct (have_socks o) eqn:Hh; [|congruence].
  destruct Hs as (w & Hw & Ec & Hr & Hup). rewrite Hc in Ec. injection Ec as ->.
  pose proof (iv_size _ H) as Hsz. pose proof (iv_server _ H) as Hsrv. rewrite Hh in Hsrv. cbn in Hsrv.
  destruct (SocksFacts.socks_reach_inv SIZE_MAX _ _ w ltac:(unfold INT_MAX in *; lia) Hw) as (Hok & Hty & Hau & Hi).
  cbn [run]. wp_step. eapply wp_in_socks; [done|].
  eapply wp_mono; [eapply SocksFacts.socks_run_ok; [unfold INT_MAX in *; lia|done..]|].
  intros [] c' es Hk Er. cbn beta iota.
  assert (SocksFacts.resources c') as Hres by apply Hk.
  apply each_socks. destruct (SocksFacts.socks_step_reports _ _ _ _ _ _ Hi Hr Hk)
    as [(Hr' & -> & Hst)|[(Hr' & -> & Hst & Hst')|(Hr' & Hst & Hrep)]].
  - split; [|done]. destruct H. split; try done; cbn; rewrite ?Hh.
    eexists. split; [by eapply SocksRun.reach_run|]. split_and!; try done. cbn. rewrite Hup. by apply bool_decide_ext.
  - rewrite bool_decide_eq_false_2 in Hup by done. rewrite Hup in Hsrv. unfold socks_client_handler. wp_run.
    apply wp_in_udpgw. unfold UdpGwClientCode.UdpGwClient_ConnectServer. wp_run. destruct ok; cbn [negb]; wp_run; intros Eu.
    + split; [|done]. destruct H. split; try done; cbn; rewrite ?Hh; [|done|].
      * eapply (UdpGwClientFacts.reach_connect _ true true); [done|exact Eu].
      * eexists. split; [by eapply SocksRun.reach_run|]. split_and!; try done. cbn. by rewrite bool_decide_eq_true_2.
    + eapply wp_mono; [eapply (give_up_ok _ c'); try done; first [by destruct H; split | cbn; congruence]|]. done.
  - assert (wp (free_socks;; BReactor_SetTimer) (o <| socks_client := Some c' |>)
      (λ _ o' _, inv o' ∧ table o' = table o)) as Hg.
    { eapply wp_mono; [eapply (give_up_ok _ c'); try done; first [by destruct H; split | cbn; congruence]|]. done. }
    destruct Hrep as [-> | ->]; unfold socks_client_handler; wp_step; wp_step; wp_step; try (apply wp_assert; [done|]); exact Hg.
Qed.

(** The table of connections changes, the server stays. *)
Lemma inv_udpgw o u : inv o → UdpGwClientFacts.reach u →
  UdpGwClientFacts.same_config (udpgw_client o) u → inv (o <| udpgw_client := u |>).
Proof.
  intros [H1 H2 H3 H4 H5 H6] Hu (_ & _ & _ & _ & _ & _ & Hs). split; try done. cbn. by rewrite Hs.
Qed.

Lemma received_event_ok o data : inv o → enabled (LReceived data) o →
  wp (run (LReceived data)) o (λ _ o' es, inv o' ∧ effect (LReceived data) o o' es).
Proof.
  intros H (Hs & Hl & Hb). pose proof (UdpGwClientFacts.udpgw_reach_inv _ (iv_udpgw _ H)) as Hu.
  cbn [run]. wp_step. apply wp_in_udpgw.
  eapply wp_mono; [by apply UdpGwClientFacts.received_ok|]. intros [] u ces (_ & Hc & Hst) Er. cbn beta iota.
  assert (inv (o <| udpgw_client := u |>)) as H' by (apply inv_udpgw; [done|eapply UdpGwClientFacts.reach_received; [apply H|exact Hs|exact Hl|exact Hb|exact Er]|done]).
  pose proof Hst as Hst'. inversion Hst' as [t1 id la ra d t2 Ep Hd Et Et' Ees|t Hno Et Et' Ees]; subst ces;
    cbn [each udpgw_callback]; unfold udpgw_handler_received; wp_run; (split; [done|]); eexists; (split; [exact Hst|done]).
Qed.

Lemma submit_event_ok o env la ra dns data : inv o → enabled (LSubmit env la ra dns data) o →
  wp (run (LSubmit env la ra dns data)) o (λ _ o' es, inv o' ∧ effect (LSubmit env la ra dns data) o o' es).
Proof.
  intros H (Hla & Hra & Hl & Hm). pose proof (UdpGwClientFacts.udpgw_reach_inv _ (iv_udpgw _ H)) as Hu.
  cbn [run]. unfold SocksUdpGwClient_SubmitPacket. wp_step. apply wp_in_udpgw.
  eapply wp_mono; [by apply UdpGwClientFacts.submit_ok|]. intros [] u ces (_ & Hc & Hst & _) Er. wp_run.
  split; [|by eexists]. apply inv_udpgw; [done|eapply UdpGwClientFacts.reach_submit; [apply H|exact Hla|exact Hra|exact Hl|exact Hm|exact Er]|done].
Qed.

Lemma decoder_event_ok o : inv o → enabled LDecoderError o →
  wp (run LDecoderError) o (λ _ o' _, inv o' ∧ table o' = table o).
Proof.
  intros H He. cbn in He. pose proof (iv_server _ H) as Hsrv. rewrite He in Hsrv.
  symmetry in Hsrv. apply andb_true_iff in Hsrv as [Hh Hup].
  pose proof (iv_socks _ H) as Hs. rewrite Hh in Hs. destruct Hs as (w & Hw & Ec & Hr & _).
  destruct (SocksFacts.socks_reach_inv SIZE_MAX _ _ w ltac:(pose proof (iv_size _ H); unfold INT_MAX in *; lia) Hw)
    as (_ & _ & _ & Hi).
  cbn [run]. wp_step. apply wp_in_udpgw. unfold UdpGwClientCode.decoder_handler_error. wp_run. intros _.
  cbn [app each udpgw_callback]. wp_step. unfold udpgw_handler_servererror.
  apply wp_bind, wp_get, wp_bind, wp_assert; [done|]. apply wp_bind, wp_assert; [done|].
  eapply wp_mono; [eapply (give_up_ok _ (SocksRun.cl w)); try done;
    first [by destruct H; split | apply Hi | cbn; congruence]|].
  intros [] o' es' Ho. wp_run. exact Ho.
Qed.

Lemma event_ok o l : inv o → enabled l o → wp (run l) o (λ _ o' es, inv o' ∧ effect l o o' es).
Proof.
  intros H He. destruct l as [ok|l ok|data| |env la ra dns data].
  - cbn [run]. unfold reconnect_timer_handler. wp_run.
    pose proof (iv_timer _ H) as Ht. pose proof (iv_server _ H) as Hs. pose proof (iv_socks _ H) as Hk.
    cbn in He. rewrite He in Ht. cbn in Ht. rewrite Ht in Hs, Hk.
    wp_run. eapply wp_mono; [apply try_connect_ok; try done; by destruct H; split|]. done.
  - eapply wp_mono; [by apply socks_event_ok|]. done.
  - by apply received_event_ok.
  - eapply wp_mono; [by apply decoder_event_ok|]. done.
  - by apply submit_event_ok.
Qed.

Lemma supervisor_init mtu max buffer server infos remote ok o : INT_MAX ≤ SIZE_MAX → 0 ≤ mtu ≤ INT_MAX →
  BAddr_ok remote →
  SocksUdpGwClient_Init SIZE_MAX mtu max buffer server infos remote true ok = Some (Some o) → inv o.
Proof.
  intros Hs Hm Hok. unfold SocksUdpGwClient_Init. destruct (negb _) eqn:Hsv; [|done]. destruct (_ || _) eqn:Hty; [|done].
  destruct (UdpGwClientCode.UdpGwClient_Init SIZE_MAX mtu max buffer true) as [[u|]|] eqn:Eu; [|done..].
  set (o0 := MkSocksUdpGwClient _ _ _ _ _ _ _ _ _).
  destruct (try_connect ok o0) as [[[? o'] es]|] eqn:E; [|done]. intros [= <-].
  assert (UdpGwClientCode.have_server u = false) as Hu.
  { revert Eu. unfold UdpGwClientCode.UdpGwClient_Init. repeat case_match; try done; by intros [= <-]. }
  assert (idle o0) as Hi.
  { split; [by eapply UdpGwClientFacts.reach_init|done|]. split; [done|]. cbn.
    revert E. unfold try_connect, mbind, prog_bind, get_st, ASSERT. cbn [have_socks reconnect_timer o0 negb].
    unfold BSocksClient_Init. cbn [socks_server_addr auth_info remote_udpgw_addr o0].
    rewrite Hsv, Hty. destruct (forallb _ infos); [eauto|done]. }
  pose proof (try_connect_ok o0 ok Hi eq_refl eq_refl eq_refl Hu) as Hw. unfold wp in Hw. rewrite E in Hw. apply Hw.
Qed.

Lemma supervisor_inv o : reach o → inv o.
Proof.
  induction 1 as [|o l o' es _ IH He E]; [by eapply supervisor_init|].
  pose proof (event_ok o l IH He) as Hw. unfold wp in Hw. rewrite E in Hw. apply Hw.
Qed.

Lemma supervisor_free o : inv o →
  wp SocksUdpGwClient_Free o (λ _ o' _, have_socks o' = false ∧ socks_client o' = None ∧
    reconnect_timer o' = false ∧ UdpGwClientCode.connections (udpgw_client o') = ∅).
Proof.
  intros H. unfold SocksUdpGwClient_Free. apply wp_bind, wp_get, wp_bind.
  assert (wp (when (have_socks o) free_socks) o (λ _ o' _, have_socks o' = false ∧ socks_client o' = None ∧
    UdpGwClientFacts.reach (udpgw_client o'))) as Hf.
  { pose proof (iv_socks _ H) as Hs. apply wp_when; intros Hh; rewrite Hh in Hs; [|by destruct H].
    destruct Hs as (w & Hw & Ec & Hr & _).
    destruct (SocksFacts.socks_reach_inv SIZE_MAX _ _ w ltac:(pose proof (iv_size _ H); unfold INT_MAX in *; lia) Hw)
      as (_ & _ & _ & Hi).
    eapply wp_mono; [eapply (release_socks_ok _ (SocksRun.cl w)); try done; try first [by apply inv_idle | apply Hi]|].
    - pose proof (iv_server _ H) as Hsv. by rewrite Hh in Hsv.
    - intros [] o' es (Hd & ? & ? & _). split_and!; try done. apply Hd. }
  eapply wp_mono; [exact Hf|]. intros [] o1 es1 (Hh & Hc & Hu). wp_run. apply wp_in_udpgw.
  eapply wp_mono; [by apply UdpGwClientFacts.client_free_ok, UdpGwClientFacts.udpgw_reach_inv|].
  intros [] u es [Hm _] _. wp_run. done.
Qed.

(** C10: The supervisor of the gateway connection never gets stuck: in every
    execution either a SOCKS client exists or the timer that makes the next one
    runs, never both and never neither, and the udpgw client is attached to a
    server exactly while that SOCKS client is up. Every event that can happen
    runs to its end without a failed assertion; losing, retrying and making a
    connection leaves the table of udpgw connections as it is, a packet from
    the gateway and a submitted datagram do to it what the udpgw protocol
    asks, and deliveries reach the user unchanged. Freeing releases everything. *)
Theorem socks_udpgw_supervised o : reach o →
  have_socks o = negb (reconnect_timer o) ∧
  UdpGwClientCode.have_server (udpgw_client o) = have_socks o && socks_up o ∧
  (have_socks o = true → ∃ c, socks_client o = Some c ∧ reported c = false ∧
     socks_up o = bool_decide (state c = STATE_UP)) ∧
  (∀ l, enabled l o → ∃ o' es, run l o = Some (tt, o', es) ∧ effect l o o' es) ∧
  ∃ o' es, SocksUdpGwClient_Free o = Some (tt, o', es) ∧ have_socks o' = false ∧ socks_client o' = None ∧
    reconnect_timer o' = false ∧ UdpGwClientCode.connections (udpgw_client o') = ∅.
Proof.
  intros H%supervisor_inv. split_and!; [apply H..| | |].
  - intros Hh. pose proof (iv_socks _ H) as Hs. rewrite Hh in Hs. destruct Hs as (w & _ & ? & ? & ?). eauto.
  - intros l He. destruct (proj1 (wp_some _ _ _) (event_ok o l H He)) as ([] & o' & es & E & _ & Hf). eauto.
  - destruct (proj1 (wp_some _ _ _) (supervisor_free o H)) as ([] & o' & es & E & Hf). eauto.
Qed.
End run.

(** ** A concrete execution, on the AVL tree *)

#[local] Existing Instance BAVLFacts.bavl_ordered_tree.

Definition ex_supervisor : option (SocksUdpGwClient BAVLCode.BAVL) :=
  match SocksUdpGwClient_Init UdpGwClientFacts.SIZE_MAX32 1472 16 8 (BADDR_IPV4 1 1)
          [BSocksClient_auth_none] (BADDR_IPV4 2 2) true true with
  | Some (Some o) => Some o
  | _ => None
  end.

Lemma socks_udpgw_supervised_witness : ∃ o, ex_supervisor = Some o ∧
  ∃ o' es, run UdpGwClientFacts.SIZE_MAX32 (LSocks (SocksRun.LConnector SocksFacts.example_env true) true) o =
    Some (tt, o', es) ∧ reconnect_timer o' = true.
Proof.
  destruct ex_supervisor as [o|] eqn:E; [|by vm_compute in E]. exists o. split; [done|].
  assert (reach UdpGwClientFacts.SIZE_MAX32 o) as Hr.
  { revert E. unfold ex_supervisor. destruct (SocksUdpGwClient_Init _ _ _ _ _ _ _ _ _) as [[o'|]|] eqn:E; [|done..].
    intros [= ->]. eapply (reach_init _ 1472 16 8 _ _ _ true); [..|exact E]; by vm_compute. }
  destruct (socks_udpgw_supervised _ o Hr) as (_ & _ & _ & H & _).
  destruct (H (LSocks (SocksRun.LConnector SocksFacts.example_env true) true)) as (o' & es & Er & _).
  { vm_compute in E. injection E as <-. by eexists. }
  exists o', es. split; [done|]. vm_compute in E. injection E as <-. vm_compute in Er. by injection Er as <- _.
Defined.
End SocksUdpGwFacts.
