(* ===== verification/TcpClient.v ===== *)
(** The TCP clients of tun2socks (tun2socks/tun2socks.c): every connection lwIP
    accepts from the device is relayed over a SOCKS connection, in both
    directions, through two buffers, and each side may close first.

    One client is modelled, with the number of clients around it. lwIP is not
    modelled: its functions are calls that are emitted, and what they return
    is an argument ([lwip_answers]). The SOCKS side calls back through the
    stream interfaces, of which the state keeps whether an operation is in
    progress. *)
From S2P Require Import Prelude Misc BAddr.

(** * The code *)
Module TcpClientCode.

(** lwip/custom/lwipopts.h sets the segment size; the window is the default
    of lwip/src/include/lwip/opt.h. *)
Definition TCP_MSS : Z := 1460.
Definition TCP_WND : Z := 4 * TCP_MSS.
Definition CLIENT_SOCKS_RECV_BUF_SIZE : Z := 8192.

Definition ERR_OK : Z := 0.
Definition ERR_MEM : Z := -1.
Definition ERR_ABRT : Z := -10.

Record tcp_client := MkTcpClient {
  local_addr : BAddr;
  remote_addr : BAddr;
  client_closed : bool;
  buf : bytes;
  buf_used : Z;
  socks_up : bool;
  socks_closed : bool;
  socks_recv_buf : bytes;
  socks_recv_buf_used : Z;
  socks_recv_buf_sent : Z;
  socks_recv_waiting : bool;
  socks_recv_tcp_pending : Z
}.
#[global] Instance eta_tcp_client : Eta tcp_client := λ x,
  MkTcpClient (local_addr x) (remote_addr x) (client_closed x) (buf x) (buf_used x)
    (socks_up x) (socks_closed x) (socks_recv_buf x) (socks_recv_buf_used x)
    (socks_recv_buf_sent x) (socks_recv_waiting x) (socks_recv_tcp_pending x).

(** [allocated]: the client structure has not been freed. [cb_err], [cb_recv],
    [cb_sent]: the callbacks registered with the pcb. [send_busy], [recv_busy]:
    an operation of the SOCKS stream interfaces is in progress.
    [dead_client]: the flag the dead variable of that name points to. *)
Record state := MkState {
  client : tcp_client;
  allocated : bool;
  num_clients : Z;
  cb_err : bool;
  cb_recv : bool;
  cb_sent : bool;
  send_busy : bool;
  recv_busy : bool;
  dead_client : bool
}.
#[global] Instance eta_state : Eta state := λ x,
  MkState (client x) (allocated x) (num_clients x) (cb_err x) (cb_recv x) (cb_sent x)
    (send_busy x) (recv_busy x) (dead_client x).

(** Calls to lwIP and to the SOCKS client. *)
Inductive call :=
  | tcp_accepted
  | tcp_recved (n : Z)
  | tcp_write (data : bytes) (err : Z)     (* [err] is what it returned *)
  | tcp_output
  | tcp_close
  | tcp_abort
  | pbuf_free
  | BSocksClient_Init (dest : BAddr)
  | BSocksClient_Free
  | Sender_Init | Receiver_Init
  | Sender_Send (data : bytes)
  | Receiver_Recv (room : Z)
  | free_client.

(** What lwIP answers: [tcp_sndbuf] and [tcp_write] in the successive rounds of
    the sending loop, [tcp_output], [tcp_close]. *)
Record lwip_answers := LwipAnswers {
  sndbuf_answer : nat → Z;
  write_answer : nat → Z;
  output_answer : Z;
  close_answer : Z
}.

Abbreviation op := (prog state call).

(** Every access to the client goes to allocated memory. *)
Definition get_client : op tcp_client :=
  s ← get_st;
  ASSERT (allocated s);;
  mret (client s).
Definition set_client (f : tcp_client → tcp_client) : op unit :=
  s ← get_st;
  ASSERT (allocated s);;
  modify (λ s, s <| client := f (client s) |>).

Definition tcp_err_null : op unit := modify (λ s, s <| cb_err := false |>).
Definition tcp_recv_null : op unit := modify (λ s, s <| cb_recv := false |>).
Definition tcp_sent_null : op unit := modify (λ s, s <| cb_sent := false |>).

(** Freeing the SOCKS client drops the operations in progress. *)
Definition socks_free : op unit :=
  emit BSocksClient_Free;;
  modify (λ s, s <| send_busy := false |> <| recv_busy := false |>).

Definition sender_send (data : bytes) : op unit :=
  s ← get_st;
  ASSERT (negb (send_busy s));;
  ASSERT (0 <? len data);;
  modify (λ s, s <| send_busy := true |>);;
  emit (Sender_Send data).

(** ** Tearing down *)

Definition client_dealloc : op unit :=
  c ← get_client;
  ASSERT (client_closed c);;
  ASSERT (socks_closed c);;
  s ← get_st;
  ASSERT (0 <? num_clients s);;
  modify (λ s, s <| num_clients := num_clients s - 1 |>);;
  modify (λ s, s <| allocated := false |>);;
  emit free_client.

(** [client_handle_freed_client], [client_free_client] and [client_free_socks]
    call each other; the callee is the argument. *)
Definition handle_freed_client_with (client_free_socks : op unit) : op unit :=
  c ← get_client;
  ASSERT (negb (client_closed c));;
  modify (λ s, s <| dead_client := true |>);;
  set_client (λ c, c <| client_closed := true |>);;
  if (0 <? buf_used c) && negb (socks_closed c) then
    mret tt
  else
    if negb (socks_closed c) then client_free_socks else client_dealloc.

Definition free_client_with (lw : lwip_answers) (client_handle_freed_client : op unit) : op unit :=
  c ← get_client;
  ASSERT (negb (client_closed c));;
  tcp_err_null;; tcp_recv_null;; tcp_sent_null;;
  emit tcp_close;;
  when (negb (close_answer lw =? ERR_OK)) (emit tcp_abort);;
  client_handle_freed_client.

Definition free_socks_with (client_free_client : op unit) : op unit :=
  c ← get_client;
  ASSERT (negb (socks_closed c));;
  when (socks_up c) (when (negb (client_closed c)) tcp_recv_null);;
  socks_free;;
  set_client (λ c, c <| socks_closed := true |>);;
  if socks_up c
     && ((0 <=? socks_recv_buf_used c) || (0 <? socks_recv_tcp_pending c))
     && negb (client_closed c) then
    mret tt
  else
    if negb (client_closed c) then client_free_client else client_dealloc.

(** The calls nest at most this deep: a side that is closed is not closed
    again. *)
Definition handle_freed_client0 : op unit := handle_freed_client_with (ASSERT false).
Definition free_client0 (lw : lwip_answers) : op unit := free_client_with lw handle_freed_client0.
Definition client_free_socks (lw : lwip_answers) : op unit := free_socks_with (free_client0 lw).
Definition client_handle_freed_client : op unit :=
  handle_freed_client_with (free_socks_with (ASSERT false)).
Definition client_free_client (lw : lwip_answers) : op unit :=
  free_client_with lw client_handle_freed_client.

Definition client_abort_client : op unit :=
  c ← get_client;
  ASSERT (negb (client_closed c));;
  tcp_err_null;; tcp_recv_null;; tcp_sent_null;;
  emit tcp_abort;;
  client_handle_freed_client.

Definition client_murder : op unit :=
  c ← get_client;
  when (negb (client_closed c)) (
    tcp_err_null;; tcp_recv_null;; tcp_sent_null;;
    emit tcp_abort;;
    modify (λ s, s <| dead_client := true |>);;
    set_client (λ c, c <| client_closed := true |>));;
  when (negb (socks_closed c)) (
    socks_free;;
    set_client (λ c, c <| socks_closed := true |>));;
  client_dealloc.

(** ** From the client to SOCKS *)

Definition client_send_to_socks : op unit :=
  c ← get_client;
  ASSERT (negb (socks_closed c));;
  ASSERT (socks_up c);;
  ASSERT (0 <? buf_used c);;
  sender_send (ztake (buf_used c) (buf c)).

(** The interface reported [data_len] bytes sent; its operation is over. *)
Definition client_socks_send_handler_done (lw : lwip_answers) (data_len : Z) : op unit :=
  modify (λ s, s <| send_busy := false |>);;
  c ← get_client;
  ASSERT (negb (socks_closed c));;
  ASSERT (socks_up c);;
  ASSERT (0 <? buf_used c);;
  ASSERT (0 <? data_len);;
  ASSERT (data_len <=? buf_used c);;
  set_client (λ c, c <| buf := zwrite 0 (zslice data_len (buf_used c - data_len) (buf c)) (buf c) |>);;
  set_client (λ c, c <| buf_used := buf_used c - data_len |>);;
  when (negb (client_closed c)) (emit (tcp_recved data_len));;
  c ← get_client;
  if 0 <? buf_used c then
    sender_send (ztake (buf_used c) (buf c))
  else when (client_closed c) (client_free_socks lw).

(** ** From SOCKS to the client *)

Definition client_socks_recv_initiate : op unit :=
  c ← get_client;
  ASSERT (negb (client_closed c));;
  ASSERT (negb (socks_closed c));;
  ASSERT (socks_up c);;
  ASSERT (socks_recv_buf_used c =? -1);;
  s ← get_st;
  ASSERT (negb (recv_busy s));;
  modify (λ s, s <| recv_busy := true |>);;
  emit (Receiver_Recv CLIENT_SOCKS_RECV_BUF_SIZE).

(** The [do ... while] loop: [true] when [client_abort_client] was called. Each
    round that does not leave the loop queues at least one byte, so the number
    of bytes left bounds the rounds. *)
Fixpoint send_out_loop (rounds : nat) (round : nat) (lw : lwip_answers) : op bool :=
  match rounds with
  | O => ASSERT false;; mret false
  | S rounds =>
      c ← get_client;
      let to_write := bmin_int (socks_recv_buf_used c - socks_recv_buf_sent c)
                               (sndbuf_answer lw round) in
      if to_write =? 0 then mret false else
      let err := write_answer lw round in
      emit (tcp_write (zslice (socks_recv_buf_sent c) to_write (socks_recv_buf c)) err);;
      if negb (err =? ERR_OK) then
        if err =? ERR_MEM then mret false
        else client_abort_client;; mret true
      else
        set_client (λ c, c <| socks_recv_buf_sent := socks_recv_buf_sent c + to_write |>);;
        set_client (λ c, c <| socks_recv_tcp_pending := socks_recv_tcp_pending c + to_write |>);;
        c ← get_client;
        if socks_recv_buf_sent c <? socks_recv_buf_used c
        then send_out_loop rounds (S round) lw
        else mret false
  end.

(** Returns -1 or 0. *)
Definition client_socks_recv_send_out (lw : lwip_answers) : op Z :=
  c ← get_client;
  ASSERT (negb (client_closed c));;
  ASSERT (socks_up c);;
  ASSERT (0 <? socks_recv_buf_used c);;
  ASSERT (socks_recv_buf_sent c <? socks_recv_buf_used c);;
  ASSERT (negb (socks_recv_waiting c));;
  aborted ← send_out_loop (Z.to_nat (socks_recv_buf_used c - socks_recv_buf_sent c)) 0 lw;
  if aborted : bool then mret (-1) else
  emit tcp_output;;
  if negb (output_answer lw =? ERR_OK) then client_abort_client;; mret (-1) else
  c ← get_client;
  if socks_recv_buf_sent c <? socks_recv_buf_used c then
    if socks_recv_tcp_pending c =? 0 then client_abort_client;; mret (-1) else
    set_client (λ c, c <| socks_recv_waiting := true |>);;
    mret 0
  else
    set_client (λ c, c <| socks_recv_buf_used := -1 |>);;
    mret 0.

(** The interface received [data]; its operation is over and the data is in
    the buffer. *)
Definition client_socks_recv_handler_done (lw : lwip_answers) (data : bytes) : op unit :=
  modify (λ s, s <| recv_busy := false |>);;
  set_client (λ c, c <| socks_recv_buf := zwrite 0 data (socks_recv_buf c) |>);;
  c ← get_client;
  ASSERT (0 <? len data);;
  ASSERT (len data <=? CLIENT_SOCKS_RECV_BUF_SIZE);;
  ASSERT (negb (socks_closed c));;
  ASSERT (socks_up c);;
  ASSERT (socks_recv_buf_used c =? -1);;
  if client_closed c then mret tt else
  set_client (λ c, c <| socks_recv_buf_used := len data |>);;
  set_client (λ c, c <| socks_recv_buf_sent := 0 |>);;
  set_client (λ c, c <| socks_recv_waiting := false |>);;
  r ← client_socks_recv_send_out lw;
  if r <? 0 then mret tt else
  c ← get_client;
  when (socks_recv_buf_used c =? -1) client_socks_recv_initiate.

(** ** Events of the SOCKS client *)

Inductive socks_event :=
  | BSOCKSCLIENT_EVENT_ERROR | BSOCKSCLIENT_EVENT_UP | BSOCKSCLIENT_EVENT_ERROR_CLOSED.

Definition client_socks_handler (lw : lwip_answers) (event : socks_event) : op unit :=
  c ← get_client;
  ASSERT (negb (socks_closed c));;
  match event with
  | BSOCKSCLIENT_EVENT_ERROR => client_free_socks lw
  | BSOCKSCLIENT_EVENT_UP =>
      ASSERT (negb (socks_up c));;
      emit Sender_Init;;
      emit Receiver_Init;;
      set_client (λ c, c <| socks_recv_buf_used := -1 |>);;
      set_client (λ c, c <| socks_recv_tcp_pending := 0 |>);;
      when (negb (client_closed c)) (modify (λ s, s <| cb_sent := true |>));;
      set_client (λ c, c <| socks_up := true |>);;
      when (0 <? buf_used c) client_send_to_socks;;
      c ← get_client;
      when (negb (client_closed c)) client_socks_recv_initiate
  | BSOCKSCLIENT_EVENT_ERROR_CLOSED =>
      ASSERT (socks_up c);;
      client_free_socks lw
  end.

(** ** Callbacks of lwIP

    An lwIP callback that gives work to the SOCKS client synchronizes: between
    [SYNC_FROMHERE] and [SYNC_COMMIT] it runs the jobs set meanwhile, among
    them the handlers of this client. Such a callback is modelled in two parts:
    the first ends in [SyncCommit] where the jobs run, having entered the dead
    variable, and the second continues with [DEAD_LEAVE2]. *)
Inductive outcome := Return (err : Z) | SyncCommit.

Definition DEAD_ENTER_client : op unit := modify (λ s, s <| dead_client := false |>).

Definition client_err_func : op unit :=
  c ← get_client;
  ASSERT (negb (client_closed c));;
  client_handle_freed_client.

(** [p] is [None] for the null pbuf. *)
Definition client_recv_func (lw : lwip_answers) (p : option bytes) : op outcome :=
  c ← get_client;
  ASSERT (negb (client_closed c));;
  match p with
  | None => client_free_client lw;; mret (Return ERR_ABRT)
  | Some p =>
      ASSERT (0 <? len p);;
      if TCP_WND - buf_used c <? len p then mret (Return ERR_MEM) else
      set_client (λ c, c <| buf := zwrite (buf_used c) p (buf c) |>);;
      set_client (λ c, c <| buf_used := buf_used c + len p |>);;
      c ← get_client;
      if (buf_used c =? len p) && socks_up c then
        ASSERT (negb (socks_closed c));;
        client_send_to_socks;;
        DEAD_ENTER_client;;
        mret SyncCommit
      else
        emit pbuf_free;;
        mret (Return ERR_OK)
  end.

Definition client_recv_func_resume : op Z :=
  killed ← gets dead_client;
  if killed : bool then mret ERR_ABRT else
  emit pbuf_free;;
  mret ERR_OK.

Definition client_sent_func (lw : lwip_answers) (l : Z) : op outcome :=
  c ← get_client;
  ASSERT (negb (client_closed c));;
  ASSERT (socks_up c);;
  ASSERT (0 <? l);;
  ASSERT (l <=? socks_recv_tcp_pending c);;
  set_client (λ c, c <| socks_recv_tcp_pending := socks_recv_tcp_pending c - l |>);;
  if 0 <? socks_recv_buf_used c then
    ASSERT (socks_recv_waiting c);;
    ASSERT (socks_recv_buf_sent c <? socks_recv_buf_used c);;
    set_client (λ c, c <| socks_recv_waiting := false |>);;
    r ← client_socks_recv_send_out lw;
    if r <? 0 then mret (Return ERR_ABRT) else
    c ← get_client;
    ASSERT (0 <? socks_recv_tcp_pending c);;
    if (socks_recv_buf_used c =? -1) && negb (socks_closed c) then
      client_socks_recv_initiate;;
      DEAD_ENTER_client;;
      mret SyncCommit
    else mret (Return ERR_OK)
  else
    c ← get_client;
    if socks_closed c && (socks_recv_tcp_pending c =? 0) then
      client_free_client lw;;
      mret (Return ERR_ABRT)
    else mret (Return ERR_OK).

(** Also the end of [listener_accept_func]. *)
Definition client_sent_func_resume : op Z :=
  killed ← gets dead_client;
  mret (if killed : bool then ERR_ABRT else ERR_OK).

(** [baddr_from_lwip]: the port is in host order. *)
Definition baddr_from_lwip (is_ipv6 : bool) (ip4 : Z) (ip6 : bytes) (port_hostorder : Z) : BAddr :=
  if is_ipv6 then BAddr_InitIPv6 ip6 (hton16 port_hostorder)
  else BAddr_InitIPv4 ip4 (hton16 port_hostorder).

(** Accepting a connection between the addresses [la] (of the destination) and
    [ra] while [n] clients exist, up to its [SYNC_COMMIT]. [mem] and [mem2] are
    the contents of the allocated buffers, [malloc_ok], [username_ok] and
    [init_ok] whether the steps that can fail succeed. The fields of the
    receive buffer are uninitialised until SOCKS is up. *)
Definition listener_accept_func (la ra : BAddr) (mem mem2 : bytes)
    (malloc_ok username_ok init_ok : bool) (n : Z)
    : option (outcome * option state * list call) :=
  if negb malloc_ok then Some (Return ERR_MEM, None, [tcp_accepted]) else
  if negb username_ok then Some (Return ERR_MEM, None, [tcp_accepted]) else
  if negb init_ok then Some (Return ERR_MEM, None, [tcp_accepted; BSocksClient_Init la]) else
  ASSERT_ (0 <=? n);
  Some (SyncCommit, Some
    {| client := {| local_addr := la; remote_addr := ra; client_closed := false;
                    buf := mem; buf_used := 0; socks_up := false; socks_closed := false;
                    socks_recv_buf := mem2; socks_recv_buf_used := -1;
                    socks_recv_buf_sent := 0; socks_recv_waiting := false;
                    socks_recv_tcp_pending := 0 |};
       allocated := true; num_clients := n + 1; cb_err := true; cb_recv := true;
       cb_sent := false; send_busy := false; recv_busy := false; dead_client := false |},
    [tcp_accepted; BSocksClient_Init la]).

End TcpClientCode.

(** * Invariant *)
Module TcpClientInv.
Import TcpClientCode.

(** The data on its way to SOCKS, and to the client. *)
Definition up_data (c : tcp_client) : bytes := ztake (buf_used c) (buf c).
Definition down_data (c : tcp_client) : bytes :=
  if 0 <? socks_recv_buf_used c
  then zslice (socks_recv_buf_sent c) (socks_recv_buf_used c - socks_recv_buf_sent c) (socks_recv_buf c)
  else [].

(** Facts that hold throughout, also within a handler. *)
Record base (s : state) : Prop := {
  bs_alloc : allocated s = true;
  bs_num : 0 < num_clients s;
  bs_mem : len (buf (client s)) = TCP_WND ∧
    len (socks_recv_buf (client s)) = CLIENT_SOCKS_RECV_BUF_SIZE;
  bs_used : 0 ≤ buf_used (client s) ≤ TCP_WND;
  bs_up : socks_closed (client s) = true → socks_up (client s) = true;
  bs_idle : socks_up (client s) = false ∨ socks_closed (client s) = true →
    send_busy s = false ∧ recv_busy s = false;
  bs_send : socks_up (client s) = true → socks_closed (client s) = false →
    send_busy s = (0 <? buf_used (client s));
  bs_rbusy : recv_busy s = true → socks_recv_buf_used (client s) = -1
}.

(** The SOCKS to client direction while the client is open: waiting for data
    from SOCKS, or for lwIP to confirm what is queued; when SOCKS is closed
    there is something to be confirmed. *)
Definition recv_ok (s : state) : Prop :=
  let c := client s in
  0 ≤ socks_recv_tcp_pending c ∧
  (socks_closed c = true → 0 < socks_recv_tcp_pending c) ∧
  ((socks_recv_buf_used c = -1 ∧ recv_busy s = negb (socks_closed c)) ∨
   (0 ≤ socks_recv_buf_sent c < socks_recv_buf_used c ∧
    socks_recv_buf_used c ≤ CLIENT_SOCKS_RECV_BUF_SIZE ∧
    socks_recv_waiting c = true ∧ 0 < socks_recv_tcp_pending c ∧ recv_busy s = false)).

(** The state between handlers while the client exists: at least one side is
    open; when the client closed, there is data left for SOCKS. *)
Record live (s : state) : Prop := {
  lv_base : base s;
  lv_open : client_closed (client s) = false ∨ socks_closed (client s) = false;
  lv_drain : client_closed (client s) = true → 0 < buf_used (client s);
  lv_recv : socks_up (client s) = true → client_closed (client s) = false → recv_ok s;
  lv_cb : client_closed (client s) = false → cb_err s = true ∧
    cb_recv s = negb (socks_closed (client s)) ∧ cb_sent s = socks_up (client s)
}.

(** What the calls say about the data: the bytes queued with lwIP and the
    bytes reported to it as received. *)
Definition writes (es : list call) : bytes :=
  concat (omap (λ e, match e with
                     | tcp_write d err => if err =? ERR_OK then Some d else None
                     | _ => None end) es).
Definition recved (es : list call) : Z :=
  foldr (λ e n, match e with tcp_recved k => k + n | _ => n end) 0 es.
(** Whether the connection was aborted. *)
Definition aborts (es : list call) : bool :=
  existsb (λ e, match e with tcp_abort => true | _ => false end) es.
Definition quiet (es : list call) : Prop := writes es = [] ∧ recved es = 0.

Lemma writes_app es fs : writes (es ++ fs) = writes es ++ writes fs.
Proof. unfold writes. by rewrite omap_app, concat_app. Qed.
Lemma recved_app es fs : recved (es ++ fs) = recved es + recved fs.
Proof.
  induction es as [|e es IH]; [done|]. cbn [app recved foldr]. fold (recved (es ++ fs)).
  rewrite IH. destruct e; cbn; unfold recved; lia.
Qed.
Lemma aborts_app es fs : aborts (es ++ fs) = aborts es || aborts fs.
Proof. apply existsb_app. Qed.
Lemma quiet_nil : quiet [].
Proof. done. Qed.
Lemma quiet_app es fs : quiet es → quiet fs → quiet (es ++ fs).
Proof.
  intros [W1 R1] [W2 R2]. split; [by rewrite writes_app, W1, W2|rewrite recved_app; lia].
Qed.

(** ** Accessors *)

Lemma wp_get_client s (Q : tcp_client → state → list call → Prop) :
  allocated s = true → Q (client s) s [] → wp get_client s Q.
Proof. intros Ha HQ. unfold get_client. wp_run. exact HQ. Qed.
Lemma wp_set_client s f (Q : unit → state → list call → Prop) :
  allocated s = true → Q tt (s <| client := f (client s) |>) [] → wp (set_client f) s Q.
Proof. intros Ha HQ. unfold set_client. wp_run. exact HQ. Qed.

(** Steps of the handlers; the state is a record of known fields. *)
Ltac tc_step :=
  lazymatch goal with
  | |- wp (_ ≫= _) _ _ => apply wp_bind
  | |- wp get_client _ _ => apply wp_get_client; [done|]
  | |- wp (set_client _) _ _ => apply wp_set_client; [done|]
  | |- wp (ASSERT _) _ _ => apply wp_assert; [solve [bool_solve]|]
  | |- wp tcp_err_null _ _ => apply wp_modify
  | |- wp tcp_recv_null _ _ => apply wp_modify
  | |- wp tcp_sent_null _ _ => apply wp_modify
  | |- wp DEAD_ENTER_client _ _ => apply wp_modify
  | |- wp socks_free _ _ => unfold socks_free
  | |- wp (when true _) _ _ => change (when true ?m) with m
  | |- wp (when false _) _ _ => change (when false ?m) with (mret tt : op unit); apply wp_ret
  | |- wp (when _ _) _ _ => fail
  | |- wp _ _ _ => wp_step
  end; cbn beta; cbn [client allocated num_clients cb_err cb_recv cb_sent send_busy recv_busy
    dead_client local_addr remote_addr client_closed buf buf_used socks_up socks_closed
    socks_recv_buf socks_recv_buf_used socks_recv_buf_sent socks_recv_waiting
    socks_recv_tcp_pending upd negb andb orb].
Ltac tc_run := repeat tc_step.

Ltac split_state s :=
  destruct s as [[la ra cc bf bu up sc rb rbu rbs rw rp] al nc ce cr cs sb rbz dc];
  cbn [client allocated num_clients cb_err cb_recv cb_sent send_busy recv_busy
    dead_client local_addr remote_addr client_closed buf buf_used socks_up socks_closed
    socks_recv_buf socks_recv_buf_used socks_recv_buf_sent socks_recv_waiting
    socks_recv_tcp_pending] in *.

(** ** Tearing down *)

Lemma dealloc_ok s (Q : unit → state → list call → Prop) : allocated s = true → 0 < num_clients s →
  client_closed (client s) = true → socks_closed (client s) = true →
  Q tt (s <| num_clients := num_clients s - 1 |> <| allocated := false |>) [free_client] →
  wp client_dealloc s Q.
Proof.
  intros. split_state s. subst. unfold client_dealloc. tc_run. done.
Qed.

(** The client side is closed: either the client is gone, which happens only
    when no data is left that SOCKS could take, or it lives on to deliver it. *)
Definition closed_post (s s' : state) (es : list call) : Prop :=
  quiet es ∧ dead_client s' = true ∧
  ((allocated s' = false ∧ num_clients s' = num_clients s - 1 ∧
    (buf_used (client s) = 0 ∨ socks_closed (client s) = true)) ∨
   (live s' ∧ num_clients s' = num_clients s ∧ socks_closed (client s) = false ∧
    client s' = client s <| client_closed := true |>)).

Lemma handle_freed_ok s : base s → client_closed (client s) = false →
  wp client_handle_freed_client s (λ _ s' es, closed_post s s' es).
Proof.
  intros [Ha Hn Hm Hu Hup Hid Hs Hr] Hc. split_state s. subst cc al.
  unfold client_handle_freed_client, handle_freed_client_with. tc_run.
  destruct (Z.ltb_spec 0 bu) as [Hb|Hb], sc; cbn [andb negb].
  - apply dealloc_ok; [done..|]. split_and!; [done|done|]. left. cbn. auto.
  - tc_run. split_and!; [done|done|]. right. split_and!; [|done|done|done].
    constructor; cbn; try done; [|by right].
    constructor; cbn; try done. intros H1 H2. rewrite Hs by done. by apply Z.ltb_lt in Hb as ->.
  - apply dealloc_ok; [done..|]. split_and!; [done|done|]. left. cbn. auto.
  - unfold free_socks_with. tc_run. destruct up; cbn [andb]; tc_run; rewrite ?andb_false_r;
      (apply dealloc_ok; [done..|]); (split_and!; [done|done|]); left; cbn;
      (split_and!; [done|done|left; lia]).
Qed.

Lemma abort_ok s : base s → client_closed (client s) = false →
  wp client_abort_client s (λ _ s' es, closed_post s s' es ∧ aborts es = true).
Proof.
  intros Hb Hc. unfold client_abort_client. pose proof (bs_alloc _ Hb) as Ha.
  apply wp_bind, wp_get_client; [done|]. rewrite Hc. tc_run.
  eapply wp_mono; [apply handle_freed_ok; [|done]|].
  - destruct Hb. by constructor.
  - intros [] s' es (? & ? & H). split; [|done]. split_and!; [by apply quiet_app|done|exact H].
Qed.

Lemma free_client_ok lw s : base s → client_closed (client s) = false →
  wp (client_free_client lw) s (λ _ s' es, closed_post s s' es).
Proof.
  intros Hb Hc. unfold client_free_client, free_client_with. pose proof (bs_alloc _ Hb) as Ha.
  apply wp_bind, wp_get_client; [done|]. rewrite Hc. tc_run.
  apply wp_when; intros _; tc_run;
    (eapply wp_mono; [apply handle_freed_ok; [|done]|]);
    try (destruct Hb; by constructor);
    (intros [] s' es (? & ? & H); split_and!; [by apply quiet_app|done|exact H]).
Qed.

(** The SOCKS side is closed: the client is gone unless it still waits for lwIP
    to confirm data. *)
Definition socks_post (s s' : state) (es : list call) : Prop :=
  quiet es ∧
  ((allocated s' = false ∧ num_clients s' = num_clients s - 1 ∧
    (client_closed (client s) = true ∧ dead_client s' = dead_client s ∨ dead_client s' = true) ∧
    (client_closed (client s) = true ∨ socks_up (client s) = false ∨
     (socks_recv_buf_used (client s) < 0 ∧ socks_recv_tcp_pending (client s) ≤ 0))) ∨
   (live s' ∧ num_clients s' = num_clients s ∧ client_closed (client s) = false ∧
    dead_client s' = dead_client s ∧ client s' = client s <| socks_closed := true |>)).

Lemma free_socks_ok lw s : base s → socks_closed (client s) = false →
  (client_closed (client s) = false → socks_up (client s) = true → recv_ok s ∧ cb_err s = true ∧ cb_sent s = true) →
  wp (client_free_socks lw) s (λ _ s' es, socks_post s s' es).
Proof.
  intros [Ha Hn Hm Hu Hup Hid Hs Hr] Hc Hlive. split_state s. subst sc al.
  unfold client_free_socks, free_socks_with. tc_run.
  destruct cc.
  - destruct up; cbn [negb]; tc_run; rewrite ?andb_false_r;
      (apply dealloc_ok; [done..|]); (split; [done|]); left; cbn; auto 6.
  - destruct up; cbn [negb]; tc_run; rewrite ?andb_true_r; cbn [andb].
    + destruct (Hlive eq_refl eq_refl) as ((Hp0 & _ & Hrc) & Hce & Hcs). cbn in *. subst ce cs.
      destruct ((0 <=? rbu) || (0 <? rp)) eqn:Hdata.
      * tc_run. split; [done|]. right. split_and!; try done.
        constructor; cbn; try done.
        { by constructor. }
        intros _ _. unfold recv_ok. cbn. split_and!; [done| |].
        { intros _. apply orb_true_iff in Hdata as [H|H]; bool_to_prop; [|done].
          destruct Hrc as [[-> _]|(_ & _ & _ & ? & _)]; [lia|done]. }
        destruct Hrc as [[-> _]|(? & ? & ? & ? & _)]; [by left|by right].
      * bool_to_prop. unfold free_client0, free_client_with. tc_run.
        apply wp_when; intros _; tc_run; unfold handle_freed_client0, handle_freed_client_with; tc_run;
          rewrite andb_false_r; cbn [negb]; (apply dealloc_ok; [done..|]); (split; [done|]); left; cbn; auto 7.
    + unfold free_client0, free_client_with. tc_run.
      apply wp_when; intros _; tc_run; unfold handle_freed_client0, handle_freed_client_with; tc_run;
        rewrite andb_false_r; cbn [negb]; (apply dealloc_ok; [done..|]); (split; [done|]); left; cbn; auto 7.
Qed.

Lemma murder_ok s : base s →
  wp client_murder s (λ _ s' es, quiet es ∧ allocated s' = false ∧ num_clients s' = num_clients s - 1).
Proof.
  intros [Ha Hn Hm Hu Hup Hid Hs Hr]. split_state s. subst al. unfold client_murder. tc_run.
  destruct cc, sc; cbn [negb]; tc_run; (apply dealloc_ok; [done..|]); done.
Qed.

(** ** Data in the buffers *)

Lemma memmove_front n u (l : bytes) : 0 ≤ n ≤ u → u ≤ len l →
  ztake (u - n) (zwrite 0 (zslice n (u - n) l) l) = zdrop n (ztake u l) ∧
  len (zwrite 0 (zslice n (u - n) l) l) = len l.
Proof.
  intros Hn Hu. assert (len (zslice n (u - n) l) = u - n) as Hl by (apply len_zslice; lia).
  split; [|apply len_zwrite; lia]. unfold zwrite. rewrite ztake_0. cbn [app].
  rewrite <- Hl at 1. rewrite ztake_app. unfold zslice, zdrop, ztake.
  rewrite skipn_firstn_comm. f_equal. lia.
Qed.
Lemma append_back u (p l : bytes) : 0 ≤ u → u + len p ≤ len l →
  ztake (u + len p) (zwrite u p l) = ztake u l ++ p ∧ len (zwrite u p l) = len l.
Proof.
  intros Hu Hl. pose proof (len_nonneg p). split; [|apply len_zwrite; lia].
  unfold zwrite. rewrite app_assoc.
  assert (u + len p = len (ztake u l ++ p)) as -> by (rewrite len_app, len_ztake; lia).
  apply ztake_app.
Qed.

(** ** From the client to SOCKS *)

(** The part of the client concerned with the other direction, and the flags,
    are unchanged. *)
Definition same_rest (c c' : tcp_client) : Prop :=
  client_closed c' = client_closed c ∧ socks_up c' = socks_up c ∧ socks_closed c' = socks_closed c ∧
  socks_recv_buf c' = socks_recv_buf c ∧ socks_recv_buf_used c' = socks_recv_buf_used c ∧
  socks_recv_buf_sent c' = socks_recv_buf_sent c ∧
  socks_recv_tcp_pending c' = socks_recv_tcp_pending c.

(** Whether the pcb is gone. *)
Definition killed (s : state) : bool := negb (allocated s) || client_closed (client s).
Definition dead_ok (s s' : state) : Prop := dead_client s = killed s → dead_client s' = killed s'.

Definition send_done_post (n : Z) (s s' : state) (es : list call) : Prop :=
  writes es = [] ∧ recved es = (if client_closed (client s) then 0 else n) ∧ dead_ok s s' ∧
  ((allocated s' = false ∧ num_clients s' = num_clients s - 1 ∧ client_closed (client s) = true ∧
    buf_used (client s) = n) ∨
   (live s' ∧ num_clients s' = num_clients s ∧ same_rest (client s) (client s') ∧
    up_data (client s') = zdrop n (up_data (client s)) ∧
    buf_used (client s') = buf_used (client s) - n)).

Lemma send_done_ok lw n s : live s → socks_closed (client s) = false → send_busy s = true →
  0 < n ≤ buf_used (client s) →
  wp (client_socks_send_handler_done lw n) s (λ _ s' es, send_done_post n s s' es).
Proof.
  intros [[Ha Hn Hm Hu Hup Hid Hs Hr] Ho Hd Hrv Hcb] Hc Hsb Hnb. split_state s. subst sc al sb.
  destruct up; [|by destruct (Hid (or_introl eq_refl))].
  destruct Hm as [Hm1 Hm2]. destruct (memmove_front n bu bf) as [Hmv Hml]; [lia|lia|].
  unfold client_socks_send_handler_done. tc_run.
  assert ((0 <? bu) = true) as Hb0 by (apply Z.ltb_lt; lia).
  destruct cc; cbn [negb]; tc_run.
  - destruct (Z.ltb_spec 0 (bu - n)) as [Hb|Hb]; tc_run.
    + unfold sender_send. tc_run. apply wp_assert; [apply Z.ltb_lt; rewrite Hmv, len_zdrop; rewrite ?len_ztake; lia|].
      tc_run. split; [done|]. split; [done|]. split; [intros E; exact E|]. right. split_and!; try done.
      constructor; cbn; try done. constructor; cbn; try done; [by rewrite Hml|lia|].
      intros _ _. symmetry. by apply Z.ltb_lt.
    + eapply wp_mono; [apply free_socks_ok; [|done|done]|].
      * constructor; cbn; try done; [by rewrite Hml|lia|by intros [|]|].
        intros _ _. symmetry. by apply Z.ltb_ge.
      * intros [] s' es (Hq & Hpost). split; [apply Hq|]. split; [apply Hq|]. split.
        { intros E. destruct Hpost as [(E1 & _ & E2 & _)|(_ & _ & E1 & _)]; [|done].
          unfold killed in *. rewrite E1. cbn in *. destruct E2 as [[_ ->]|]; congruence. }
        destruct Hpost as [(E1 & E2 & _)|(_ & _ & E1 & _)]; [|done]. left. cbn in *.
        split_and!; [done|done|done|lia].
  - assert (live (MkState (MkTcpClient la ra false (zwrite 0 (zslice n (bu - n) bf) bf) (bu - n) true
      false rb rbu rbs rw rp) true nc ce cr cs (0 <? bu - n) rbz dc)) as Hlive.
    { constructor; cbn; try done. constructor; cbn; try done; [by rewrite Hml|lia|by intros [|]]. }
    destruct (Z.ltb_spec 0 (bu - n)) as [Hb|Hb]; tc_run.
    + unfold sender_send. tc_run. apply wp_assert; [apply Z.ltb_lt; rewrite Hmv, len_zdrop; rewrite ?len_ztake; lia|].
      tc_run. split; [done|]. split; [cbn; lia|]. split; [intros E; exact E|]. right. by split_and!.
    + split; [done|]. split; [cbn; lia|]. split; [intros E; exact E|]. right. by split_and!.
Qed.

(** ** From SOCKS to the client *)

Definition answers_ok (lw : lwip_answers) : Prop := ∀ n, 0 ≤ sndbuf_answer lw n.

(** The state in which the received data is written to lwIP. *)
Record sending_out (s : state) : Prop := {
  so_base : base s;
  so_open : client_closed (client s) = false;
  so_up : socks_up (client s) = true;
  so_range : 0 ≤ socks_recv_buf_sent (client s) < socks_recv_buf_used (client s) ∧
    socks_recv_buf_used (client s) ≤ CLIENT_SOCKS_RECV_BUF_SIZE;
  so_waiting : socks_recv_waiting (client s) = false;
  so_pending : 0 ≤ socks_recv_tcp_pending (client s);
  so_busy : recv_busy s = false;
  so_cb : cb_err s = true ∧ cb_recv s = negb (socks_closed (client s)) ∧ cb_sent s = true
}.

(** The client side failed while data was written to it. *)
Definition aborted_post (s s' : state) : Prop :=
  dead_client s' = true ∧
  ((allocated s' = false ∧ num_clients s' = num_clients s - 1 ∧
    (buf_used (client s) = 0 ∨ socks_closed (client s) = true)) ∨
   (live s' ∧ num_clients s' = num_clients s ∧ socks_closed (client s) = false ∧
    socks_closed (client s') = false ∧ socks_up (client s') = socks_up (client s) ∧
    client_closed (client s') = true ∧ up_data (client s') = up_data (client s) ∧
    buf_used (client s') = buf_used (client s))).

(** [k] bytes were queued. *)
Definition queued (k : Z) (s : state) : state :=
  s <| client := client s <| socks_recv_buf_sent := socks_recv_buf_sent (client s) + k |>
                          <| socks_recv_tcp_pending := socks_recv_tcp_pending (client s) + k |> |>.

Lemma queued_base k s : base s → base (queued k s).
Proof. intros []. by constructor. Qed.
Lemma queued_queued j k s : queued k (queued j s) = queued (j + k) s.
Proof. unfold queued. destruct s as [[] ]. cbn. by rewrite !Z.add_assoc. Qed.
Lemma queued_0 s : queued 0 s = s.
Proof. unfold queued. destruct s as [[] ]. cbn. by rewrite !Z.add_0_r. Qed.

Lemma abort_queued k s : sending_out s →
  wp client_abort_client (queued k s) (λ _ s' es, quiet es ∧ aborts es = true ∧ aborted_post s s').
Proof.
  intros Hs. eapply wp_mono; [apply abort_ok; [apply queued_base, Hs|apply Hs]|].
  intros [] s' es ((Hq & Hd & H) & Hab). split; [done|]. split; [done|]. split; [done|].
  destruct H as [H|(H1 & H2 & H3 & H4)]; [by left|right].
  split_and!; [done|done|done|by rewrite H4|by rewrite H4|by rewrite H4|by rewrite H4|by rewrite H4].
Qed.

Lemma send_out_loop_ok lw s : answers_ok lw → sending_out s → ∀ rounds round k,
  let c := client s in
  0 ≤ k → socks_recv_buf_sent c + k < socks_recv_buf_used c →
  socks_recv_buf_used c - (socks_recv_buf_sent c + k) ≤ Z.of_nat rounds →
  wp (send_out_loop rounds round lw) (queued k s) (λ aborted s' es, recved es = 0 ∧
    if aborted : bool then aborts es = true ∧ aborted_post s s'
    else ∃ j, 0 ≤ j ∧ socks_recv_buf_sent c + k + j ≤ socks_recv_buf_used c ∧
      s' = queued (k + j) s ∧ writes es = zslice (socks_recv_buf_sent c + k) j (socks_recv_buf c)).
Proof.
  intros Hlw Hs rounds. induction rounds as [|rounds IH]; intros round k c Hk Hlt Hf; [lia|].
  pose proof (so_range _ Hs) as Hr. pose proof (bs_alloc _ (so_base _ Hs)) as Ha.
  cbn [send_out_loop]. apply wp_bind, wp_get_client; [done|].
  cbn [queued client upd socks_recv_buf_used socks_recv_buf_sent socks_recv_buf]. fold c.
  set (w := bmin_int _ _). assert (w = Z.min (socks_recv_buf_used c - (socks_recv_buf_sent c + k)) (sndbuf_answer lw round))
    as Hw by (unfold w; by rewrite bmin_int_min).
  pose proof (Hlw round) as Hsnd.
  destruct (Z.eqb_spec w 0) as [E|E].
  { wp_run. split; [done|]. exists 0. rewrite !Z.add_0_r. split_and!; [done|lia|done|done]. }
  apply wp_bind, wp_emit.
  destruct (Z.eqb_spec (write_answer lw round) ERR_OK) as [Ew|Ew]; cbn [negb].
  - apply wp_bind, wp_set_client; [done|]. apply wp_bind, wp_set_client; [done|].
    change (_ <| client := _ |> <| client := _ |>) with (queued w (queued k s)).
    rewrite queued_queued. apply wp_bind, wp_get_client; [done|].
    change (socks_recv_buf_sent (client (queued (k + w) s))) with (socks_recv_buf_sent c + (k + w)).
    change (socks_recv_buf_used (client (queued (k + w) s))) with (socks_recv_buf_used c).
    assert (writes [tcp_write (zslice (socks_recv_buf_sent c + k) w (socks_recv_buf c)) (write_answer lw round)]
      = zslice (socks_recv_buf_sent c + k) w (socks_recv_buf c)) as Hwr.
    { unfold writes. cbn. rewrite Ew. cbn. apply app_nil_r. }
    destruct (Z.ltb_spec (socks_recv_buf_sent c + (k + w)) (socks_recv_buf_used c)).
    + eapply wp_mono; [apply (IH (S round) (k + w)); unfold c in *; lia|].
      intros [] s' es [Hre H']; cbn [app]; (split; [exact Hre|]); [exact H'|].
      destruct H' as (j & Hj1 & Hj2 & -> & Hj3). exists (w + j). fold c in Hj2, Hj3.
      split_and!; [lia|lia|f_equal; lia|].
      change (?a :: es) with ([a] ++ es). rewrite writes_app, Hwr, Hj3.
      pose proof (bs_mem _ (so_base _ Hs)) as [_ Hm].
      unfold c in *. rewrite zslice_split by lia. f_equal. f_equal. lia.
    + wp_run. split; [done|]. exists w. split_and!; [lia|lia|done|]. cbn [app]. exact Hwr.
  - assert (writes [tcp_write (zslice (socks_recv_buf_sent c + k) w (socks_recv_buf c)) (write_answer lw round)]
      = []) as Hwr.
    { unfold writes. cbn. by rewrite (proj2 (Z.eqb_neq _ _) Ew). }
    destruct (write_answer lw round =? ERR_MEM).
    + wp_run. split; [done|]. exists 0. rewrite !Z.add_0_r. split_and!; [done|lia|done|]. exact Hwr.
    + apply wp_bind. eapply wp_mono; [by apply (abort_queued k s)|].
      intros [] s' es ([Hq1 Hq2] & Hab & H'). wp_run.
      cbn [app]. rewrite app_nil_r. change (?a :: es) with ([a] ++ es).
      rewrite recved_app, aborts_app, Hq2, Hab. done.
Qed.

(** What remains after [j] bytes were queued: waiting for confirmations, or
    nothing. *)
Definition after_out (j : Z) (s : state) : state :=
  let s := queued j s in
  if socks_recv_buf_sent (client s) <? socks_recv_buf_used (client s)
  then s <| client := client s <| socks_recv_waiting := true |> |>
  else s <| client := client s <| socks_recv_buf_used := -1 |> |>.

Definition sent_out_post (s s' : state) (es : list call) : Prop :=
  let c := client s in
  ∃ j, 0 ≤ j ∧ socks_recv_buf_sent c + j ≤ socks_recv_buf_used c ∧ s' = after_out j s ∧
    0 < socks_recv_tcp_pending c + j ∧
    writes es = zslice (socks_recv_buf_sent c) j (socks_recv_buf c).

Lemma send_out_ok lw s : answers_ok lw → sending_out s →
  wp (client_socks_recv_send_out lw) s (λ r s' es, recved es = 0 ∧
    (r = -1 ∧ (aborts es = true ∧ aborted_post s s') ∨ r = 0 ∧ sent_out_post s s' es)).
Proof.
  intros Hlw Hs. pose proof (bs_alloc _ (so_base _ Hs)) as Ha. pose proof (so_range _ Hs) as Hr.
  pose proof (so_open _ Hs) as Hop. pose proof (so_up _ Hs) as Hup. pose proof (so_waiting _ Hs) as Hwt.
  pose proof (so_pending _ Hs) as Hpe.
  unfold client_socks_recv_send_out. apply wp_bind, wp_get_client; [done|].
  rewrite Hop, Hup, Hwt. do 5 (apply wp_bind, wp_assert; [solve [bool_solve]|]).
  apply wp_bind. pose proof (send_out_loop_ok lw s Hlw Hs) as Hloop.
  specialize (Hloop (Z.to_nat (socks_recv_buf_used (client s) - socks_recv_buf_sent (client s))) 0%nat 0).
  cbv zeta in Hloop. rewrite queued_0 in Hloop.
  eapply wp_mono; [apply Hloop; lia|]. clear Hloop.
  intros [] s1 es1 [Hre H]; [wp_run; rewrite !app_nil_r; split; [exact Hre|by left]|].
  destruct H as (j & Hj1 & Hj2 & -> & Hwr). rewrite Z.add_0_r in Hj2, Hwr. rewrite Z.add_0_l.
  apply wp_bind, wp_emit.
  assert (recved (es1 ++ [tcp_output]) = 0) as Hre1 by (rewrite recved_app, Hre; done).
  assert (writes (es1 ++ [tcp_output]) = zslice (socks_recv_buf_sent (client s)) j (socks_recv_buf (client s)))
    as Hwr1 by (rewrite writes_app; cbn; by rewrite app_nil_r).
  assert (∀ pre, recved pre = 0 → wp (client_abort_client;; mret (-1)) (queued j s)
    (λ r s' es, recved (pre ++ es) = 0 ∧
      (r = -1 ∧ (aborts (pre ++ es) = true ∧ aborted_post s s') ∨ r = 0 ∧ sent_out_post s s' (pre ++ es))))
    as Habort.
  { intros pre Hpre. apply wp_bind. eapply wp_mono; [by apply abort_queued|].
    intros [] s' es ([Hq1 Hq2] & Hab & H). apply wp_ret. rewrite app_nil_r, recved_app.
    split; [lia|]. left. rewrite aborts_app, Hab, orb_true_r. done. }
  destruct (output_answer lw =? ERR_OK); cbn [negb].
  2: { eapply wp_mono; [apply (Habort (es1 ++ [tcp_output]) Hre1)|]. intros r s' es H.
       cbn beta in H. by rewrite <- app_assoc in H. }
  apply wp_bind, wp_get_client; [done|].
  change (socks_recv_buf_sent (client (queued j s))) with (socks_recv_buf_sent (client s) + j).
  change (socks_recv_buf_used (client (queued j s))) with (socks_recv_buf_used (client s)).
  change (socks_recv_tcp_pending (client (queued j s))) with (socks_recv_tcp_pending (client s) + j).
  assert (∀ s', s' = after_out j s → 0 < socks_recv_tcp_pending (client s) + j →
    recved (es1 ++ [tcp_output]) = 0 ∧
    ((0 : Z) = -1 ∧ (aborts (es1 ++ [tcp_output]) = true ∧ aborted_post s s') ∨ (0 : Z) = 0 ∧ sent_out_post s s' (es1 ++ [tcp_output]))) as Hfin.
  { intros s' -> Hp. split; [done|]. right. split; [done|]. exists j. by split_and!. }
  destruct (Z.ltb_spec (socks_recv_buf_sent (client s) + j) (socks_recv_buf_used (client s))) as [Hlt|Hge].
  - destruct (Z.eqb_spec (socks_recv_tcp_pending (client s) + j) 0) as [Hp|Hp].
    + eapply wp_mono; [apply (Habort (es1 ++ [tcp_output]) Hre1)|]. intros r s' es H.
      cbn beta in H. by rewrite <- app_assoc in H.
    + apply wp_bind, wp_set_client; [done|]. apply wp_ret. cbn [app].
      apply Hfin; [|lia]. unfold after_out. cbn. by rewrite (proj2 (Z.ltb_lt _ _) Hlt).
  - apply wp_bind, wp_set_client; [done|]. apply wp_ret. cbn [app].
    apply Hfin; [|lia]. unfold after_out. cbn. by rewrite (proj2 (Z.ltb_ge _ _) Hge).
Qed.

Definition same_up (c c' : tcp_client) : Prop :=
  client_closed c' = client_closed c ∧ socks_up c' = socks_up c ∧ socks_closed c' = socks_closed c ∧
  up_data c' = up_data c ∧ buf_used c' = buf_used c.

Lemma after_out_spec s s' es : sending_out s → sent_out_post s s' es →
  base s' ∧ same_up (client s) (client s') ∧ num_clients s' = num_clients s ∧
  dead_client s' = dead_client s ∧ allocated s' = true ∧ recv_busy s' = false ∧
  writes es ++ down_data (client s') = down_data (client s) ∧
  socks_recv_tcp_pending (client s') = socks_recv_tcp_pending (client s) + len (writes es) ∧
  0 < socks_recv_tcp_pending (client s') ∧
  cb_err s' = true ∧ cb_recv s' = negb (socks_closed (client s)) ∧ cb_sent s' = true ∧
  (socks_recv_buf_used (client s') = -1 ∨
   0 ≤ socks_recv_buf_sent (client s') < socks_recv_buf_used (client s') ∧
   socks_recv_buf_used (client s') ≤ CLIENT_SOCKS_RECV_BUF_SIZE ∧ socks_recv_waiting (client s') = true).
Proof.
  intros [[Ha Hn [Hm1 Hm2] Hu Hup Hid Hs Hr] Hop Hsu Hrg Hwt Hpe Hbz (? & ? & ?)] (j & Hj1 & Hj2 & -> & Hp & Hw).
  split_state s. rewrite Hw, len_zslice by lia. unfold after_out, down_data, queued. cbn.
  rewrite (proj2 (Z.ltb_lt 0 rbu)) by lia.
  destruct (Z.ltb_spec (rbs + j) rbu); cbn.
  - rewrite (proj2 (Z.ltb_lt 0 rbu)) by lia. split_and!; try done; try lia; try (by constructor).
    rewrite <- zslice_split by lia. f_equal. lia.
  - split_and!; try done; try lia; try (by constructor).
    rewrite app_nil_r. f_equal. lia.
Qed.

Lemma recv_initiate_ok s (Q : unit → state → list call → Prop) : allocated s = true →
  client_closed (client s) = false → socks_closed (client s) = false → socks_up (client s) = true →
  socks_recv_buf_used (client s) = -1 → recv_busy s = false →
  Q tt (s <| recv_busy := true |>) [Receiver_Recv CLIENT_SOCKS_RECV_BUF_SIZE] →
  wp client_socks_recv_initiate s Q.
Proof. intros. split_state s. subst. unfold client_socks_recv_initiate. tc_run. done. Qed.

Lemma aborted_dead s s' : allocated s = true → aborted_post s s' → dead_ok s s'.
Proof.
  intros Ha (Hd & H) _. unfold killed. rewrite Hd. destruct H as [(-> & _)|(_ & _ & _ & _ & _ & -> & _)];
    [done|]. by rewrite orb_true_r.
Qed.

(** Data from SOCKS: written to lwIP as far as it takes it, the rest kept; when
    all was taken, the next piece is asked for. *)
Definition recv_done_post (d : bytes) (s s' : state) (es : list call) : Prop :=
  recved es = 0 ∧ dead_ok s s' ∧
  if client_closed (client s) then
    writes es = [] ∧ live s' ∧ num_clients s' = num_clients s ∧ same_up (client s) (client s')
  else aborts es = true ∧ aborted_post s s' ∨
    (live s' ∧ num_clients s' = num_clients s ∧ same_up (client s) (client s') ∧
     writes es ++ down_data (client s') = d ∧
     socks_recv_tcp_pending (client s') = socks_recv_tcp_pending (client s) + len (writes es)).

Lemma recv_done_ok lw d s : answers_ok lw → live s → socks_closed (client s) = false →
  recv_busy s = true → 0 < len d ≤ CLIENT_SOCKS_RECV_BUF_SIZE →
  wp (client_socks_recv_handler_done lw d) s (λ _ s' es, recv_done_post d s s' es).
Proof.
  intros Hlw [[Ha Hn [Hm1 Hm2] Hu Hup Hid Hs Hr] Ho Hd Hrv Hcb] Hc Hrb Hl. split_state s. subst sc al rbz.
  destruct up; [|by destruct (Hid (or_introl eq_refl))]. rewrite (Hr eq_refl) in *.
  assert (len (zwrite 0 d rb) = len rb) as Hlw' by (apply len_zwrite; lia).
  unfold client_socks_recv_handler_done. tc_run. destruct cc.
  { tc_run. split; [done|]. split; [intros E; exact E|]. cbn. split_and!; try done.
    constructor; cbn; try done. constructor; cbn; try done; [by rewrite Hlw'|by intros [|]]. }
  destruct (Hrv eq_refl eq_refl) as (Hp & _ & _). destruct (Hcb eq_refl) as (Hc1 & Hc2 & Hc3).
  cbn in Hp, Hc1, Hc2, Hc3. subst ce cr cs. tc_run.
  set (s1 := MkState _ true nc _ _ _ _ _ _).
  assert (sending_out s1) as Hs1.
  { constructor; cbn; try done; try lia. constructor; cbn; try done; [by rewrite Hlw'|by intros [|]]. }
  assert (down_data (client s1) = d) as Hdd.
  { unfold down_data. cbn. rewrite (proj2 (Z.ltb_lt _ _)) by lia. rewrite Z.sub_0_r.
    apply zslice_zwrite_same; lia. }
  eapply wp_mono; [by apply (send_out_ok lw s1)|]. intros r s2 es [Hre [[-> [Hbt Hab]]|[-> Hpost]]].
  { change (-1 <? 0) with true. cbv iota. apply wp_ret. cbn [app]. rewrite app_nil_r.
    split; [done|]. split; [by apply (aborted_dead s1)|]. by left. }
  change (0 <? 0) with false. cbv iota.
  destruct (after_out_spec s1 s2 es Hs1 Hpost)
    as (Hb2 & (U1 & U2 & U3 & U4 & U5) & N2 & D2 & A2 & R2 & W2 & P2 & P2' & C1 & C2 & C3 & Hst).
  apply wp_bind, wp_get_client; [done|].
  assert (∀ s3, s3 = s2 <| recv_busy := (socks_recv_buf_used (client s2) =? -1) |> → live s3) as Hlive.
  { intros s3 ->. constructor; cbn.
    - destruct Hb2. constructor; cbn; try done; [by rewrite U2, U3; intros [|]|by intros ->%Z.eqb_eq].
    - left. exact U1.
    - rewrite U1. done.
    - intros _ _. unfold recv_ok. cbn. split_and!; [lia|by rewrite U3|].
      destruct Hst as [E|(E1 & E2 & E3)]; [left; by rewrite E, U3|right].
      rewrite (proj2 (Z.eqb_neq _ _)) by lia. by split_and!; try lia.
    - intros _. rewrite U2, U3. by rewrite C1, C2, C3. }
  assert (∀ s3 fs, s3 = s2 <| recv_busy := (socks_recv_buf_used (client s2) =? -1) |> → quiet fs →
    recv_done_post d (MkState (MkTcpClient la ra false bf bu true false rb (-1) rbs rw rp) true nc true
      true true sb true dc) s3 (es ++ fs)) as Hfin.
  { intros s3 fs E [Q1 Q2]. pose proof (Hlive s3 E) as L. subst s3.
    split; [rewrite recved_app; lia|]. split.
    { intros E. unfold killed in *. cbn in *. rewrite D2, A2, U1. exact E. }
    right. rewrite writes_app, Q1, app_nil_r. split_and!; try done.
    by rewrite <- Hdd. }
  destruct (Z.eqb_spec (socks_recv_buf_used (client s2)) (-1)) as [E|E].
  - apply recv_initiate_ok; [done|done|by rewrite U3|by rewrite U2|done|done|]. cbn [app].
    apply Hfin; done.
  - apply wp_ret. cbn [app]. apply Hfin; [|done]. rewrite <- R2. by destruct s2.
Qed.

(** ** Events of the SOCKS client *)

Definition up_post (s s' : state) (es : list call) : Prop :=
  quiet es ∧ live s' ∧ num_clients s' = num_clients s ∧ dead_client s' = dead_client s ∧
  client_closed (client s') = client_closed (client s) ∧ socks_up (client s') = true ∧
  socks_closed (client s') = false ∧ up_data (client s') = up_data (client s) ∧
  buf_used (client s') = buf_used (client s) ∧ down_data (client s') = [] ∧
  socks_recv_tcp_pending (client s') = 0.

Lemma send_to_socks_ok s (Q : unit → state → list call → Prop) : allocated s = true →
  len (buf (client s)) = TCP_WND → 0 < buf_used (client s) ≤ TCP_WND →
  socks_closed (client s) = false → socks_up (client s) = true → send_busy s = false →
  Q tt (s <| send_busy := true |>) [Sender_Send (up_data (client s))] →
  wp client_send_to_socks s Q.
Proof.
  intros. split_state s. subst. unfold client_send_to_socks, sender_send. tc_run.
  apply wp_assert; [apply Z.ltb_lt; rewrite len_ztake; lia|]. tc_run. done.
Qed.

Lemma socks_up_ok lw s : live s → socks_closed (client s) = false → socks_up (client s) = false →
  wp (client_socks_handler lw BSOCKSCLIENT_EVENT_UP) s (λ _ s' es, up_post s s' es).
Proof.
  intros [[Ha Hn [Hm1 Hm2] Hu Hup Hid Hs Hr] Ho Hd Hrv Hcb] Hc Hnup. split_state s. subst sc up al.
  destruct (Hid (or_introl eq_refl)) as [-> ->].
  unfold client_socks_handler. tc_run.
  assert (base (MkState (MkTcpClient la ra cc bf bu true false rb (-1) rbs rw 0) true nc ce cr
    (if cc then cs else true) (0 <? bu) (negb cc) dc)) as Hbase.
  { constructor; cbn; try done. by intros [|]. }
  assert (live (MkState (MkTcpClient la ra cc bf bu true false rb (-1) rbs rw 0) true nc ce cr
    (if cc then cs else true) (0 <? bu) (negb cc) dc)) as Hlive.
  { constructor; cbn; try done.
    - intros _ ->. unfold recv_ok. cbn. split_and!; [done|done|by left].
    - intros ->. destruct (Hcb eq_refl) as (-> & -> & _). done. }
  assert (∀ es, quiet es → up_post (MkState (MkTcpClient la ra cc bf bu false false rb rbu rbs rw rp)
    true nc ce cr cs false false dc) (MkState (MkTcpClient la ra cc bf bu true false rb (-1) rbs rw 0) true nc ce cr
    (if cc then cs else true) (0 <? bu) (negb cc) dc) es) as Hfin.
  { intros es Hq. by split_and!. }
  destruct (Z.ltb_spec 0 bu) as [Hb|Hb], cc; cbn [negb] in *; tc_run.
  - apply send_to_socks_ok; [done|done|cbn; lia|done|done|done|]. tc_run. by apply Hfin.
  - apply send_to_socks_ok; [done|done|cbn; lia|done|done|done|]. tc_run.
    apply recv_initiate_ok; [done..|]. by apply Hfin.
  - by apply Hfin.
  - apply recv_initiate_ok; [done..|]. by apply Hfin.
Qed.

Lemma socks_gone_ok lw e s : live s → socks_closed (client s) = false →
  e = BSOCKSCLIENT_EVENT_ERROR ∨ e = BSOCKSCLIENT_EVENT_ERROR_CLOSED ∧ socks_up (client s) = true →
  wp (client_socks_handler lw e) s (λ _ s' es, socks_post s s' es).
Proof.
  intros Hl Hc He. pose proof (bs_alloc _ (lv_base _ Hl)) as Ha.
  assert (client_closed (client s) = false → socks_up (client s) = true →
    recv_ok s ∧ cb_err s = true ∧ cb_sent s = true) as Hpre.
  { intros H1 H2. destruct (lv_cb _ Hl H1) as (? & _ & E). split_and!; [by apply Hl|done|by rewrite E]. }
  unfold client_socks_handler. apply wp_bind, wp_get_client; [done|]. rewrite Hc.
  apply wp_bind, wp_assert; [done|]. destruct He as [-> | [-> Hup]].
  - eapply wp_mono; [by apply free_socks_ok; [apply Hl|..]|]. done.
  - apply wp_bind, wp_assert; [done|]. eapply wp_mono; [by apply free_socks_ok; [apply Hl|..]|]. done.
Qed.

(** ** Callbacks of lwIP *)

Definition recv_post (p : bytes) (s s' : state) (es : list call) (r : outcome) : Prop :=
  quiet es ∧
  if TCP_WND - buf_used (client s) <? len p then r = Return ERR_MEM ∧ s' = s
  else r ≠ Return ERR_MEM ∧ live s' ∧ num_clients s' = num_clients s ∧
    same_rest (client s) (client s') ∧
    up_data (client s') = up_data (client s) ++ p ∧
    buf_used (client s') = buf_used (client s) + len p ∧
    (r = SyncCommit → dead_client s' = false) ∧ (r = Return ERR_OK ∨ r = SyncCommit).

Lemma recv_data_ok lw p s : live s → client_closed (client s) = false → cb_recv s = true → 0 < len p →
  wp (client_recv_func lw (Some p)) s (λ r s' es, recv_post p s s' es r).
Proof.
  intros [[Ha Hn [Hm1 Hm2] Hu Hup Hid Hs Hr] Ho Hd Hrv Hcb] Hcc Hcr Hp. split_state s. subst cc al.
  destruct (Hcb eq_refl) as (-> & E & ->). rewrite Hcr in E. destruct sc; [done|]. subst cr.
  unfold client_recv_func, recv_post. tc_run. cbn [client buf_used].
  destruct (Z.ltb_spec (TCP_WND - bu) (len p)) as [Hfull|Hfull]; [by wp_run|].
  destruct (append_back bu p bf) as [Hap Hal]; [lia|lia|]. tc_run.
  assert (∀ b d, b = (if up then 0 <? bu + len p else sb) →
    live (MkState (MkTcpClient la ra false (zwrite bu p bf) (bu + len p) up false rb rbu rbs rw rp)
      true nc true true up b rbz d)) as Hlive.
  { intros b d ->. constructor; cbn; try done.
    constructor; cbn; try done; [by rewrite Hal|lia| |by intros ->].
    intros [->|]; [|done]. by apply Hid; left. }
  assert ((0 <? bu + len p) = true) as Hpos by (apply Z.ltb_lt; lia).
  destruct (Z.eqb_spec (bu + len p) (len p)) as [Ez|Ez], up; cbn [andb].
  - assert (sb = false) as -> by (rewrite Hs by done; apply Z.ltb_ge; lia). tc_run.
    apply send_to_socks_ok; [done|by cbn; rewrite Hal|cbn; lia|done|done|done|]. tc_run.
    split; [done|]. split_and!; try done; try (by right); []. apply Hlive. by rewrite Hpos.
  - tc_run. split; [done|]. split_and!; try done; try (by left); []. by apply Hlive.
  - tc_run. split; [done|]. split_and!; try done; try (by left); []. apply Hlive.
    rewrite Hpos, Hs by done. apply Z.ltb_lt. lia.
  - tc_run. split; [done|]. split_and!; try done; try (by left); []. by apply Hlive.
Qed.

(** lwIP confirmed [l] bytes. *)
Definition sent_post (l : Z) (s s' : state) (es : list call) (r : outcome) : Prop :=
  recved es = 0 ∧ (r = SyncCommit → dead_client s' = false) ∧
  ((aborted_post s s' ∧ r = Return ERR_ABRT ∧
    (aborts es = true ∨
     socks_recv_buf_used (client s) = -1 ∧ socks_closed (client s) = true ∧
     socks_recv_tcp_pending (client s) = l ∧ writes es = [])) ∨
   (live s' ∧ r ≠ Return ERR_ABRT ∧ num_clients s' = num_clients s ∧ same_up (client s) (client s') ∧
    writes es ++ down_data (client s') = down_data (client s) ∧
    socks_recv_tcp_pending (client s') = socks_recv_tcp_pending (client s) - l + len (writes es))).

Lemma closed_aborted s s' es : closed_post s s' es → aborted_post s s'.
Proof.
  intros (_ & Hd & H). split; [done|]. destruct H as [H|(H1 & H2 & H3 & H4)]; [by left|right].
  rewrite H4. by split_and!.
Qed.

(** The state after queueing, with a receive in progress unless SOCKS is
    closed or data is left. *)
Lemma out_live s1 s2 es b d : sending_out s1 → sent_out_post s1 s2 es →
  b = (socks_recv_buf_used (client s2) =? -1) && negb (socks_closed (client s2)) →
  live (s2 <| recv_busy := b |> <| dead_client := d |>).
Proof.
  intros Hs1 Hpost ->. destruct (after_out_spec s1 s2 es Hs1 Hpost)
    as (Hb2 & (U1 & U2 & U3 & U4 & U5) & N2 & D2 & A2 & R2 & W2 & P2 & P2' & C1 & C2 & C3 & Hst).
  pose proof (so_open _ Hs1) as Ho. pose proof (so_up _ Hs1) as Hup. constructor; cbn.
  - destruct Hb2 as [? ? ? ? ? Hid ? ?]. constructor; cbn; try done.
    + rewrite U2, Hup. intros [|E]; [done|]. rewrite E, andb_false_r.
      split; [|done]. apply Hid. by right.
    + by intros [->%Z.eqb_eq _]%andb_true_iff.
  - left. by rewrite U1.
  - by rewrite U1, Ho.
  - intros _ _. unfold recv_ok. cbn. split_and!; [lia|done|].
    destruct Hst as [E|(E1 & E2 & E3)]; [left; by rewrite E|right].
    rewrite (proj2 (Z.eqb_neq _ _)) by lia. by split_and!; try lia.
  - intros _. rewrite U2, U3, C1, C2, C3, Hup. done.
Qed.

Lemma sent_ok lw l s : answers_ok lw → live s → client_closed (client s) = false → cb_sent s = true →
  0 < l ≤ socks_recv_tcp_pending (client s) →
  wp (client_sent_func lw l) s (λ r s' es, sent_post l s s' es r).
Proof.
  intros Hlw [[Ha Hn Hm Hu Hup Hid Hs Hr] Ho Hd Hrv Hcb] Hcc Hcs Hl. split_state s. subst cc al cs.
  destruct (Hcb eq_refl) as (-> & -> & <-). clear Hcb.
  destruct (Hrv eq_refl eq_refl) as (Hp0 & Hpc & Hst). cbn in Hp0, Hpc, Hst.
  unfold client_sent_func. tc_run. destruct (Z.ltb_spec 0 rbu) as [Hb|Hb].
  - destruct Hst as [[Eu _]|(Hrg & Hsz & -> & Hpp & ->)]; [lia|].
    tc_run. set (s1 := MkState (MkTcpClient _ _ _ _ _ _ _ _ _ _ false _) _ _ _ _ _ _ _ _).
    assert (sending_out s1) as Hs1.
    { constructor; cbn; try done; try lia; try by constructor. }
    set (s := MkState (MkTcpClient _ _ _ _ _ _ _ _ _ _ true _) _ _ _ _ _ _ _ _).
    eapply wp_mono; [by apply (send_out_ok lw s1)|].
    intros r s2 es [Hre [[-> [Hbt Hab]]|[-> Hpost]]].
    { change (-1 <? 0) with true. cbv iota. apply wp_ret. cbn [app]. rewrite app_nil_r.
      split; [done|]. split; [done|]. left. split_and!; [exact Hab|done|by left]. }
    change (0 <? 0) with false. cbv iota.
    pose proof (after_out_spec s1 s2 es Hs1 Hpost)
      as (Hb2 & (U1 & U2 & U3 & U4 & U5) & N2 & D2 & A2 & R2 & W2 & P2 & P2' & _).
    apply wp_bind, wp_get_client; [done|]. apply wp_bind, wp_assert; [by apply Z.ltb_lt|].
    assert (∀ b d r fs, b = (socks_recv_buf_used (client s2) =? -1) && negb (socks_closed (client s2)) →
      quiet fs → r ≠ Return ERR_ABRT → (r = SyncCommit → d = false) →
      sent_post l s (s2 <| recv_busy := b |> <| dead_client := d |>) (es ++ fs) r) as Hfin.
    { intros b d r fs Eb [Q1 Q2] Hr1 Hr2. split; [rewrite recved_app; lia|]. split; [done|]. right.
      rewrite writes_app, Q1, app_nil_r. split_and!; try done. by apply (out_live s1 s2 es). }
    destruct ((socks_recv_buf_used (client s2) =? -1) && negb (socks_closed (client s2))) eqn:Eb.
    + apply andb_true_iff in Eb as [E1 E2]. bool_to_prop.
      apply wp_bind, recv_initiate_ok; [done|by rewrite U1|done|by rewrite U2|done|done|].
      apply wp_bind, wp_modify, wp_ret. cbn [app]. by apply Hfin.
    + apply wp_ret. cbn [app].
      replace s2 with (s2 <| recv_busy := false |> <| dead_client := dead_client s2 |>) at 1
        by (rewrite <- R2; by destruct s2).
      by apply Hfin.
  - destruct Hst as [[-> ->]|(Hrg & _)]; [|lia]. tc_run.
    destruct (sc && (rp - l =? 0)) eqn:Hend.
    + apply andb_true_iff in Hend as [-> Hz]. bool_to_prop.
      apply wp_bind. eapply wp_mono; [apply free_client_ok; [by constructor|done]|].
      intros [] s2 es Hpost. apply wp_ret. cbn [app]. rewrite app_nil_r.
      split; [apply Hpost|]. split; [done|]. left.
      split_and!; [exact (closed_aborted _ _ _ Hpost)|done|right; cbn; split_and!; [done|done|lia|apply Hpost]].
    + apply wp_ret. split; [done|]. split; [done|]. right.
      split_and!; try done; [|cbn; rewrite Z.add_0_r; done].
      constructor; cbn; try done; try by constructor.
      intros _ _. unfold recv_ok. cbn. split_and!; [lia| |by left].
      intros ->. cbn in Hend. bool_to_prop. lia.
Qed.
End TcpClientInv.
