(* ===== verification/TcpRelay.v ===== *)
(** What the TCP client handlers achieve together: executions of one client,
    with the bytes that went in and came out of it in each direction. *)
From S2P Require Import Prelude Misc BAddr TcpClient.
Import TcpClientCode TcpClientInv.

Module TcpRelay.

(** ** Executions

    [frame]: an lwIP callback waits in [SYNC_COMMIT]. The other fields record
    the history: bytes accepted from lwIP and sent to SOCKS, bytes received
    from SOCKS and queued with lwIP, bytes lwIP confirmed, bytes reported to
    lwIP as received; whether the SOCKS side failed or closed, and whether the
    client side did. *)
Record world := World {
  st : state;
  frame : bool;
  up_in : bytes;
  up_out : bytes;
  down_in : bytes;
  down_out : bytes;
  acked : Z;
  reported : Z;
  socks_lost : bool;
  client_lost : bool
}.

Inductive job :=
  | JSendDone (data_len : Z) | JRecvDone (data : bytes) | JSocksEvent (event : socks_event).

Inductive act :=
  | ARecv (p : option bytes)
  | ASent (l : Z)
  | AErr
  | AJob (j : job)
  | AResumeRecv
  | AResumeSent
  | AMurder.

Definition run_act (lw : lwip_answers) (a : act) : op outcome :=
  match a with
  | ARecv p => client_recv_func lw p
  | ASent l => client_sent_func lw l
  | AErr => client_err_func;; mret (Return ERR_OK)
  | AJob (JSendDone n) => client_socks_send_handler_done lw n;; mret (Return ERR_OK)
  | AJob (JRecvDone d) => client_socks_recv_handler_done lw d;; mret (Return ERR_OK)
  | AJob (JSocksEvent e) => client_socks_handler lw e;; mret (Return ERR_OK)
  | AResumeRecv => z ← client_recv_func_resume; mret (Return z)
  | AResumeSent => z ← client_sent_func_resume; mret (Return z)
  | AMurder => client_murder;; mret (Return ERR_OK)
  end.

(** What the surroundings promise: lwIP calls the callbacks that are set on a
    pcb it has, not while another callback runs, and confirms only bytes
    that were queued; the SOCKS client calls back while it exists, the stream
    interfaces while an operation is in progress, within its size. *)
Definition enabled (a : act) (w : world) : Prop :=
  let s := st w in let c := client s in
  let lwip_calls := frame w = false ∧ allocated s = true ∧ client_closed c = false in
  match a with
  | ARecv p => lwip_calls ∧ cb_recv s = true ∧ match p with Some d => 0 < len d | None => True end
  | ASent l => lwip_calls ∧ cb_sent s = true ∧ 0 < l ≤ len (down_out w) - acked w
  | AErr => lwip_calls ∧ cb_err s = true
  | AJob j => allocated s = true ∧ socks_closed c = false ∧
      match j with
      | JSendDone n => send_busy s = true ∧ 0 < n ≤ buf_used c
      | JRecvDone d => recv_busy s = true ∧ 0 < len d ≤ CLIENT_SOCKS_RECV_BUF_SIZE
      | JSocksEvent BSOCKSCLIENT_EVENT_ERROR => True
      | JSocksEvent BSOCKSCLIENT_EVENT_UP => socks_up c = false
      | JSocksEvent BSOCKSCLIENT_EVENT_ERROR_CLOSED => socks_up c = true
      end
  | AResumeRecv | AResumeSent => frame w = true
  | AMurder => frame w = false ∧ allocated s = true
  end.

Definition socks_ends (a : act) : bool :=
  match a with
  | AMurder | AJob (JSocksEvent BSOCKSCLIENT_EVENT_ERROR)
  | AJob (JSocksEvent BSOCKSCLIENT_EVENT_ERROR_CLOSED) => true
  | _ => false
  end.
Definition client_ends (a : act) : bool :=
  match a with AMurder | AErr | ARecv None => true | _ => false end.

(** The history after an action. *)
Definition next (w : world) (a : act) (r : outcome) (s' : state) (es : list call) : world := {|
  st := s';
  frame := match a with
           | ARecv _ | ASent _ => match r with SyncCommit => true | _ => false end
           | AResumeRecv | AResumeSent => false
           | _ => frame w
           end;
  up_in := match a, r with
           | ARecv (Some p), Return err => if err =? ERR_MEM then up_in w else up_in w ++ p
           | ARecv (Some p), SyncCommit => up_in w ++ p
           | _, _ => up_in w
           end;
  up_out := match a with
            | AJob (JSendDone n) => up_out w ++ ztake n (up_data (client (st w)))
            | _ => up_out w
            end;
  down_in := match a with AJob (JRecvDone d) => down_in w ++ d | _ => down_in w end;
  down_out := down_out w ++ writes es;
  acked := match a with ASent l => acked w + l | _ => acked w end;
  reported := reported w + recved es;
  socks_lost := socks_lost w || socks_ends a;
  client_lost := client_lost w || client_ends a || aborts es
|}.

Inductive step : world → world → Prop :=
  | step_act w lw a r s' es : enabled a w → answers_ok lw →
      run_act lw a (st w) = Some (r, s', es) → step w (next w a r s' es).

Inductive reach (others : Z) : world → Prop :=
  | reach_accept la ra mem mem2 s es :
      listener_accept_func la ra mem mem2 true true true others = Some (SyncCommit, Some s, es) →
      len mem = TCP_WND → len mem2 = CLIENT_SOCKS_RECV_BUF_SIZE →
      reach others (World s true [] [] [] [] 0 0 false false)
  | reach_step w w' : reach others w → step w w' → reach others w'.

(** ** Invariant *)
Record inv (others : Z) (w : world) : Prop := {
  iv_num : 0 ≤ others ∧ num_clients (st w) = others + Z.b2z (allocated (st w));
  iv_live : allocated (st w) = true → live (st w);
  iv_up : if allocated (st w) then up_in w = up_out w ++ up_data (client (st w))
          else socks_lost w = false → up_in w = up_out w;
  iv_down : killed (st w) = false → socks_up (client (st w)) = true →
    down_in w = down_out w ++ down_data (client (st w)) ∧
    socks_recv_tcp_pending (client (st w)) = len (down_out w) - acked w;
  iv_notup : killed (st w) = false → socks_up (client (st w)) = false →
    down_in w = [] ∧ down_out w = [] ∧ acked w = 0;
  iv_gone : killed (st w) = true → client_lost w = false →
    allocated (st w) = false ∧ down_in w = down_out w ∧ acked w = len (down_out w);
  iv_socks : allocated (st w) = true → socks_closed (client (st w)) = true → socks_lost w = true;
  iv_window : killed (st w) = false → len (up_in w) - reported w = buf_used (client (st w));
  iv_dead : frame w = true → dead_client (st w) = killed (st w)
}.

Lemma inv_accept others la ra mem mem2 s es :
  listener_accept_func la ra mem mem2 true true true others = Some (SyncCommit, Some s, es) →
  len mem = TCP_WND → len mem2 = CLIENT_SOCKS_RECV_BUF_SIZE →
  inv others (World s true [] [] [] [] 0 0 false false).
Proof.
  unfold listener_accept_func. cbn [negb]. case_match; [|done]. bool_to_prop.
  intros [= <- <-] Hm1 Hm2. constructor; cbn; try done.
  intros _. constructor; cbn; try done; [|by left]. constructor; cbn; try done; lia.
Qed.

(** ** Every action keeps the invariant *)

Lemma take_drop_app n (u : bytes) : u = ztake n u ++ zdrop n u.
Proof. by rewrite ztake_zdrop. Qed.

Lemma killed_open s : killed s = false → allocated s = true ∧ client_closed (client s) = false.
Proof. unfold killed. by destruct (allocated s), (client_closed (client s)). Qed.

(** The client side is closed while data may remain for SOCKS. *)
Lemma inv_client_gone others w a r s' es : inv others w → allocated (st w) = true →
  aborted_post (st w) s' → recved es = 0 →
  match a with ARecv None | ASent _ | AErr | AJob (JRecvDone _) => True | _ => False end →
  r = Return ERR_ABRT ∨ r = Return ERR_OK →
  (client_ends a || aborts es = true ∨
   (socks_closed (client (st w)) = true ∧ killed (st w) = false ∧ writes es = [] ∧
    ∃ l, a = ASent l ∧ socks_recv_buf_used (client (st w)) = -1 ∧
      socks_recv_tcp_pending (client (st w)) = l)) →
  inv others (next w a r s' es).
Proof.
  intros [[Hn0 Hn] Hlive Hup Hdn Hnu Hg Hsk Hwin Hdead] Ha [Hd Hpost] Hrec Hact Hr Hend.
  rewrite Ha in Hup, Hn. cbn in Hn.
  assert (killed s' = true) as Hk'.
  { unfold killed. destruct Hpost as [(-> & _)|(_ & _ & _ & _ & _ & -> & _)]; [done|apply orb_true_r]. }
  assert (socks_ends a = false) as Hse by by destruct a as [[]| | |[]| | |].
  assert (up_in (next w a r s' es) = up_in w ∧ up_out (next w a r s' es) = up_out w) as [Eui Euo].
  { by destruct a as [[]| | |[]| | |]. }
  constructor; rewrite ?Eui, ?Euo; cbn [next st frame down_in down_out acked reported socks_lost client_lost];
    rewrite ?Hk', ?Hse, ?orb_false_r; try done.
  - split; [done|]. destruct Hpost as [(-> & -> & _)|(L & -> & _)]; cbn; [lia|].
    rewrite (bs_alloc _ (lv_base _ L)). cbn. lia.
  - intros E. destruct Hpost as [(E' & _)|(L & _)]; [congruence|done].
  - destruct Hpost as [(-> & _ & [E|E])|(L & _ & _ & _ & _ & _ & E & _)].
    + intros _. rewrite Hup. unfold up_data. rewrite E. by rewrite app_nil_r.
    + rewrite (Hsk Ha E). done.
    + rewrite (bs_alloc _ (lv_base _ L)), E. done.
  - intros _ Hcl. destruct Hend as [E|(Hsc & Hkf & Hw & l & -> & Hu & Hp)].
    { rewrite <- orb_assoc, E, orb_true_r in Hcl. done. }
    assert (socks_up (client (st w)) = true) as Hsu by (apply (lv_base _ (Hlive Ha)); done).
    destruct (Hdn Hkf Hsu) as [Ed Ep]. rewrite Hw, app_nil_r. unfold down_data in Ed. rewrite Hu in Ed.
    cbn in Ed. rewrite app_nil_r in Ed. split_and!; [|done|lia].
    by destruct Hpost as [(? & _)|(_ & _ & E & _)]; [|congruence].
  - intros E1 E2. destruct Hpost as [(E & _)|(L & _ & _ & E & _)]; congruence.
Qed.

Lemma inv_recv others w p r s' es : inv others w → allocated (st w) = true →
  client_closed (client (st w)) = false → recv_post p (st w) s' es r →
  inv others (next w (ARecv (Some p)) r s' es).
Proof.
  intros [[Hn0 Hn] Hlive Hup Hdn Hnu Hg Hsk Hwin Hdead] Ha Hc [[Hw Hrec] Hpost].
  assert (killed (st w) = false) as Hk by (unfold killed; by rewrite Ha, Hc).
  case_match.
  - destruct Hpost as [-> ->].
    constructor; cbn [next st frame up_in up_out down_in down_out acked reported socks_lost client_lost];
      rewrite ?Hw, ?Hrec, ?app_nil_r, ?Z.add_0_r, ?orb_false_r; try done; by rewrite ?Hk.
  - destruct Hpost as (Hne & L & En & (C1 & C2 & C3 & C4 & C5 & C6 & C7) & Eu & Eb & Hd & Hr).
    assert (killed s' = false) as Hk' by (unfold killed; by rewrite (bs_alloc _ (lv_base _ L)), C1, Hc).
    assert (up_in (next w (ARecv (Some p)) r s' es) = up_in w ++ p) as Eui by (by destruct Hr as [-> | ->]).
    assert (down_data (client s') = down_data (client (st w))) as Edd
      by (unfold down_data; by rewrite C4, C5, C6).
    rewrite Ha in Hup.
    constructor; rewrite ?Eui; cbn [next st frame up_out down_in down_out acked reported socks_lost client_lost];
      rewrite ?Hw, ?Hrec, ?app_nil_r, ?Z.add_0_r, ?orb_false_r, ?Hk', ?(bs_alloc _ (lv_base _ L)), ?C2, ?C3, ?C7, ?Edd;
      try done.
    + rewrite En, Hn, Ha. done.
    + by rewrite Hup, Eu, app_assoc.
    + intros _. by apply Hdn.
    + intros _. by apply Hnu.
    + intros _ E. by apply Hsk.
    + intros _. rewrite len_app, Eb. specialize (Hwin Hk). lia.
    + destruct r; [done|]. intros _. by apply Hd.
Qed.

Lemma inv_sent others w l r s' es : inv others w → allocated (st w) = true →
  client_closed (client (st w)) = false → socks_up (client (st w)) = true →
  sent_post l (st w) s' es r → inv others (next w (ASent l) r s' es).
Proof.
  intros Hinv Ha Hc Hsu (Hrec & Hd & Hpost).
  assert (killed (st w) = false) as Hk by (unfold killed; by rewrite Ha, Hc).
  destruct Hpost as [(Hab & -> & Hend)|(L & Hr & En & (C1 & C2 & C3 & C4 & C5) & Ew & Ep)].
  - apply inv_client_gone; try done; [by left|].
    destruct Hend as [E|(E1 & E2 & E3 & E4)]; [by left|right]. split_and!; eauto.
  - destruct Hinv as [[Hn0 Hn] Hlive Hup Hdn Hnu Hg Hsk Hwin Hdead].
    assert (killed s' = false) as Hk' by (unfold killed; by rewrite (bs_alloc _ (lv_base _ L)), C1, Hc).
    destruct (Hdn Hk Hsu) as [Hd1 Hd2]. rewrite Ha in Hup.
    constructor; cbn [next st frame up_in up_out down_in down_out acked reported socks_lost client_lost];
      rewrite ?Hrec, ?Z.add_0_r, ?orb_false_r, ?Hk', ?(bs_alloc _ (lv_base _ L)), ?C2, ?C3, ?C4, ?C5;
      try done.
    + rewrite En, Hn, Ha. done.
    + intros _ _. rewrite <- app_assoc, Ew. split; [done|]. rewrite len_app. lia.
    + intros _ E. congruence.
    + intros _ E. by apply Hsk.
    + intros _. by apply Hwin.
    + destruct r; [done|]. intros _. by apply Hd.
Qed.

Lemma inv_send_done others w n r s' es : inv others w → allocated (st w) = true →
  socks_closed (client (st w)) = false → 0 < n ≤ buf_used (client (st w)) →
  send_done_post n (st w) s' es → inv others (next w (AJob (JSendDone n)) r s' es).
Proof.
  intros [[Hn0 Hn] Hlive Hup Hdn Hnu Hg Hsk Hwin Hdead] Ha Hsc Hnb (Hw & Hrec & Hd & Hpost).
  rewrite Ha in Hup. pose proof (Hlive Ha) as L0.
  destruct Hpost as [(E1 & E2 & E3 & E4)|(L & En & (C1 & C2 & C3 & C4 & C5 & C6 & C7) & Eu & Eb)].
  - assert (killed (st w) = true) as Hk by (unfold killed; rewrite E3; apply orb_true_r).
    assert (killed s' = true) as Hk' by (unfold killed; by rewrite E1).
    assert (client_lost w = true) as Hcl
      by (destruct (client_lost w); [done|]; destruct (Hg Hk eq_refl); congruence).
    constructor; cbn [next st frame up_in up_out down_in down_out acked reported socks_lost client_lost];
      rewrite ?Hw, ?Hk', ?E1, ?Hcl; try done.
    + rewrite E2, Hn, Ha. cbn. split; [done|lia].
    + intros _. rewrite Hup. f_equal. unfold up_data. rewrite E4.
      symmetry. apply ztake_all. rewrite len_ztake; [lia|].
      pose proof (lv_base _ L0) as B. pose proof (bs_mem _ B). pose proof (bs_used _ B). lia.
    + intros Hf. rewrite <- Hk'. by apply Hd, Hdead.
  - assert (killed s' = killed (st w)) as Hk'
      by (unfold killed; by rewrite (bs_alloc _ (lv_base _ L)), C1, Ha).
    assert (down_data (client s') = down_data (client (st w))) as Edd
      by (unfold down_data; by rewrite C4, C5, C6).
    constructor; cbn [next st frame up_in up_out down_in down_out acked reported socks_lost client_lost];
      rewrite ?Hw, ?app_nil_r, ?orb_false_r, ?(bs_alloc _ (lv_base _ L)), ?C2, ?C3, ?C7, ?Edd;
      try done.
    + rewrite En, Hn, Ha. done.
    + rewrite Eu, <- app_assoc, <- take_drop_app. done.
    + by rewrite Hk'.
    + by rewrite Hk'.
    + rewrite Hk'. intros Hk Hcl. apply orb_false_iff in Hcl as [Hcl _].
      destruct (Hg Hk Hcl). congruence.
    + intros _ E. congruence.
    + intros Hk. rewrite Hk' in Hk. destruct (killed_open _ Hk) as [_ Hc]. rewrite Hrec, Hc, Eb.
      specialize (Hwin Hk). lia.
    + intros Hf. by apply Hd, Hdead.
Qed.

Lemma inv_recv_done others w d s' es : inv others w → allocated (st w) = true →
  socks_closed (client (st w)) = false → socks_up (client (st w)) = true →
  down_data (client (st w)) = [] →
  recv_done_post d (st w) s' es → inv others (next w (AJob (JRecvDone d)) (Return ERR_OK) s' es).
Proof.
  intros Hinv Ha Hsc Hsu Hdd (Hrec & Hd & Hpost).
  destruct (client_closed (client (st w))) eqn:Hc.
  - destruct Hpost as (Hw & L & En & (C1 & C2 & C3 & C4 & C5)).
    destruct Hinv as [[Hn0 Hn] Hlive Hup Hdn Hnu Hg Hsk Hwin Hdead]. rewrite Ha in Hup.
    assert (killed (st w) = true) as Hk by (unfold killed; rewrite Hc; apply orb_true_r).
    assert (killed s' = true) as Hk' by (unfold killed; rewrite C1, Hc; apply orb_true_r).
    assert (client_lost w = true) as Hcl
      by (destruct (client_lost w); [done|]; destruct (Hg Hk eq_refl); congruence).
    constructor; cbn [next st frame up_in up_out down_in down_out acked reported socks_lost client_lost];
      rewrite ?Hcl, ?(bs_alloc _ (lv_base _ L)), ?Hk', ?C3, ?C4; try done.
    + rewrite En, Hn, Ha. done.
    + intros _ E. congruence.
    + intros Hf. rewrite <- Hk'. by apply Hd, Hdead.
  - destruct Hpost as [[Hab Hpost]|(L & En & (C1 & C2 & C3 & C4 & C5) & Ew & Ep)].
    { apply inv_client_gone; try done; [by right|]. left. by rewrite Hab, orb_true_r. }
    destruct Hinv as [[Hn0 Hn] Hlive Hup Hdn Hnu Hg Hsk Hwin Hdead]. rewrite Ha in Hup.
    assert (killed (st w) = false) as Hk by (unfold killed; by rewrite Ha, Hc).
    assert (killed s' = false) as Hk' by (unfold killed; by rewrite (bs_alloc _ (lv_base _ L)), C1, Hc).
    destruct (Hdn Hk Hsu) as [Hd1 Hd2]. rewrite Hdd, app_nil_r in Hd1.
    constructor; cbn [next st frame up_in up_out down_in down_out acked reported socks_lost client_lost];
      rewrite ?Hrec, ?Z.add_0_r, ?orb_false_r, ?Hk', ?(bs_alloc _ (lv_base _ L)), ?C2, ?C3, ?C4, ?C5;
      try done.
    + rewrite En, Hn, Ha. done.
    + intros _ _. rewrite <- app_assoc, Ew, Hd1. split; [done|]. rewrite len_app. lia.
    + intros _ E. congruence.
    + intros _ E. by apply Hsk.
    + intros _. by apply Hwin.
    + intros Hf. rewrite <- Hk'. by apply Hd, Hdead.
Qed.

Lemma inv_socks_gone others w e s' es : inv others w → allocated (st w) = true →
  socks_closed (client (st w)) = false → socks_ends (AJob (JSocksEvent e)) = true →
  socks_post (st w) s' es → inv others (next w (AJob (JSocksEvent e)) (Return ERR_OK) s' es).
Proof.
  intros [[Hn0 Hn] Hlive Hup Hdn Hnu Hg Hsk Hwin Hdead] Ha Hsc He [[Hw Hrec] Hpost].
  rewrite Ha in Hup. pose proof (Hlive Ha) as L0.
  destruct Hpost as [(E1 & E2 & E3 & E4)|(L & En & Hc & Ed & Ec)].
  - assert (killed s' = true) as Hk' by (unfold killed; by rewrite E1).
    constructor; cbn [next st frame up_in up_out down_in down_out acked reported socks_lost client_lost];
      rewrite ?E1, ?Hk', ?He, ?orb_true_r; try done.
    + rewrite E2, Hn, Ha. cbn. split; [done|lia].
    + intros _ Hcl. apply orb_false_iff in Hcl as [Hcl _]. rewrite orb_false_r in Hcl.
      split; [done|]. rewrite Hw, app_nil_r.
      destruct (killed (st w)) eqn:Hk; [by destruct (Hg eq_refl Hcl) as (_ & ? & ?)|].
      destruct (killed_open _ Hk) as [_ Hc]. destruct E4 as [E|[E|[E E']]]; [congruence| |].
      * destruct (Hnu eq_refl E) as (-> & -> & ->). done.
      * destruct (socks_up (client (st w))) eqn:Hsu; [|by destruct (Hnu eq_refl eq_refl) as (-> & -> & ->)].
        destruct (Hdn eq_refl eq_refl) as [Ed Ep]. destruct (lv_recv _ L0 Hsu Hc) as (Hp0 & _).
        split; [|lia]. unfold down_data in Ed. rewrite (proj2 (Z.ltb_ge _ _)) in Ed by lia.
        by rewrite app_nil_r in Ed.
    + intros Hf. destruct E3 as [[Hc ->]|E]; [|done]. rewrite Hdead by done.
      unfold killed. rewrite Hc. apply orb_true_r.
  - assert (killed (st w) = false) as Hk by (unfold killed; by rewrite Ha, Hc).
    assert (killed s' = false) as Hk'
      by (unfold killed; rewrite (bs_alloc _ (lv_base _ L)), Ec; cbn; done).
    constructor; cbn [next st frame up_in up_out down_in down_out acked reported socks_lost client_lost];
      rewrite ?Hw, ?Hrec, ?Z.add_0_r, ?app_nil_r, ?Hk', ?He, ?orb_true_r, ?(bs_alloc _ (lv_base _ L)), ?Ec; try done.
    + rewrite En, Hn, Ha. done.
    + intros _. by apply Hdn.
    + intros _. by apply Hnu.
    + intros _. by apply Hwin.
    + intros Hf. rewrite Ed, Hdead by done. done.
Qed.

Lemma inv_socks_up others w s' es : inv others w → allocated (st w) = true →
  socks_closed (client (st w)) = false → socks_up (client (st w)) = false →
  up_post (st w) s' es →
  inv others (next w (AJob (JSocksEvent BSOCKSCLIENT_EVENT_UP)) (Return ERR_OK) s' es).
Proof.
  intros [[Hn0 Hn] Hlive Hup Hdn Hnu Hg Hsk Hwin Hdead] Ha Hsc Hsu
    ([Hw Hrec] & L & En & Ed & C1 & C2 & C3 & C4 & C5 & C6 & C7). rewrite Ha in Hup.
  assert (killed s' = killed (st w)) as Hk'
    by (unfold killed; by rewrite (bs_alloc _ (lv_base _ L)), C1, Ha).
  constructor; cbn [next st frame up_in up_out down_in down_out acked reported socks_lost client_lost];
    rewrite ?Hw, ?Hrec, ?Z.add_0_r, ?app_nil_r, ?Hk', ?orb_false_r, ?(bs_alloc _ (lv_base _ L)), ?C2, ?C3, ?C4, ?C5, ?C6, ?C7;
    try done.
  - rewrite En, Hn, Ha. done.
  - intros Hk _. destruct (Hnu Hk Hsu) as (-> & -> & ->). done.
  - intros Hk Hcl. apply orb_false_iff in Hcl as [Hcl _]. destruct (Hg Hk Hcl). congruence.
  - intros Hf. rewrite Ed. by apply Hdead.
Qed.

Lemma live_down_empty s : live s → recv_busy s = true → down_data (client s) = [].
Proof.
  intros L Hr. unfold down_data. by rewrite (bs_rbusy _ (lv_base _ L) Hr).
Qed.

Lemma inv_step others w lw a : inv others w → enabled a w → answers_ok lw →
  wp (run_act lw a) (st w) (λ r s' es, inv others (next w a r s' es)).
Proof.
  intros Hinv He Hlw. pose proof (iv_live _ _ Hinv) as Hlive.
  destruct a as [[p|]|l| |[n|d|e]| | |]; cbn [run_act enabled] in *.
  - destruct He as ((_ & Ha & Hc) & Hcb & Hp). specialize (Hlive Ha).
    eapply wp_mono; [by apply recv_data_ok|]. intros. by apply inv_recv.
  - destruct He as ((_ & Ha & Hc) & Hcb & _). specialize (Hlive Ha).
    unfold client_recv_func. apply wp_bind, wp_get_client; [done|]. rewrite Hc.
    apply wp_bind, wp_assert; [done|]. apply wp_bind.
    eapply wp_mono; [by apply free_client_ok; [apply Hlive|]|]. intros [] s' es Hpost.
    apply wp_ret. cbn [app]. rewrite app_nil_r.
    apply inv_client_gone; try done; [by eapply closed_aborted|apply Hpost|by left|by left].
  - destruct He as ((_ & Ha & Hc) & Hcb & Hl). specialize (Hlive Ha).
    destruct (lv_cb _ Hlive Hc) as (_ & _ & Hsu). rewrite Hcb in Hsu.
    assert (killed (st w) = false) as Hk by (unfold killed; by rewrite Ha, Hc).
    destruct (iv_down _ _ Hinv Hk (eq_sym Hsu)) as [_ Hp].
    eapply wp_mono; [apply sent_ok; try done; lia|]. intros. by apply inv_sent.
  - destruct He as ((_ & Ha & Hc) & Hcb). specialize (Hlive Ha).
    unfold client_err_func. do 2 apply wp_bind. apply wp_get_client; [done|]. rewrite Hc.
    apply wp_bind, wp_assert; [done|].
    eapply wp_mono; [by apply handle_freed_ok; [apply Hlive|]|]. intros [] s' es Hpost.
    apply wp_ret. cbn [app]. rewrite app_nil_r.
    apply inv_client_gone; try done; [by eapply closed_aborted|apply Hpost|by right|by left].
  - destruct He as (Ha & Hsc & Hb & Hn). specialize (Hlive Ha). apply wp_bind.
    eapply wp_mono; [by apply send_done_ok|]. intros [] s' es Hpost. apply wp_ret.
    rewrite app_nil_r. by apply inv_send_done.
  - destruct He as (Ha & Hsc & Hb & Hd). specialize (Hlive Ha). apply wp_bind.
    eapply wp_mono; [by apply recv_done_ok|]. intros [] s' es Hpost. apply wp_ret.
    rewrite app_nil_r. apply inv_recv_done; try done; [|by apply live_down_empty].
    destruct (socks_up (client (st w))) eqn:E; [done|].
    destruct (bs_idle _ (lv_base _ Hlive)) as [_ E']; [by left|congruence].
  - destruct He as (Ha & Hsc & Hev). specialize (Hlive Ha). apply wp_bind. destruct e.
    + eapply wp_mono; [by apply socks_gone_ok; [| |left]|]. intros [] s' es Hpost. apply wp_ret.
      rewrite app_nil_r. by apply inv_socks_gone.
    + eapply wp_mono; [by apply socks_up_ok|]. intros [] s' es Hpost. apply wp_ret.
      rewrite app_nil_r. by apply inv_socks_up.
    + eapply wp_mono; [by apply socks_gone_ok; [| |right]|]. intros [] s' es Hpost. apply wp_ret.
      rewrite app_nil_r. by apply inv_socks_gone.
  - unfold client_recv_func_resume. apply wp_bind, wp_bind, wp_gets.
    assert (∀ r es, quiet es → aborts es = false → inv others (next w AResumeRecv r (st w) es)) as H.
    { intros r es [Hw Hrec] Hab. destruct Hinv.
      constructor; cbn [next st frame up_in up_out down_in down_out acked reported socks_lost client_lost];
        rewrite ?Hw, ?Hrec, ?Hab, ?Z.add_0_r, ?app_nil_r, ?orb_false_r; done. }
    destruct (dead_client (st w)); wp_run; by apply H.
  - unfold client_sent_func_resume. apply wp_bind, wp_bind, wp_gets. wp_run. destruct Hinv.
    constructor; cbn [next st frame up_in up_out down_in down_out acked reported socks_lost client_lost app];
      rewrite ?Z.add_0_r, ?app_nil_r, ?orb_false_r; cbn; rewrite ?Z.add_0_r, ?app_nil_r; done.
  - destruct He as (Hf & Ha). specialize (Hlive Ha). apply wp_bind.
    eapply wp_mono; [by apply murder_ok, Hlive|]. intros [] s' es ([Hw Hrec] & E1 & E2). apply wp_ret.
    assert (killed s' = true) as Hk' by (unfold killed; by rewrite E1).
    destruct Hinv as [[Hn0 Hn] _ _ _ _ _ _ _ _].
    constructor; cbn [next st frame up_in up_out down_in down_out acked reported socks_lost client_lost];
      rewrite ?E1, ?Hk', ?orb_true_r; try done; [|congruence].
    rewrite E2, Hn, Ha. cbn. split; [done|lia].
Qed.

Lemma reach_inv others w : reach others w → inv others w.
Proof.
  induction 1 as [|w w' _ IH Hs]; [by eapply inv_accept|].
  destruct Hs as [w lw a r s' es He Hlw Hr]. pose proof (inv_step others w lw a IH He Hlw) as H.
  unfold wp in H. by rewrite Hr in H.
Qed.

(** ** Results *)

Lemma run_act_ok others w lw a : reach others w → enabled a w → answers_ok lw →
  wp (run_act lw a) (st w) (λ r s' es, inv others (next w a r s' es)).
Proof. intros Hr. apply inv_step. by apply reach_inv. Qed.

Lemma freed_stays others w lw a r s' es : reach others w → enabled a w →
  allocated (st w) = false → run_act lw a (st w) = Some (r, s', es) → s' = st w.
Proof.
  intros _ He Ha. destruct a as [[]| | |[]| | |]; cbn in He; rewrite ?Ha in He; try naive_solver.
  - cbn. destruct (dead_client (st w)) eqn:E; cbv -[dead_client st]; rewrite E; cbv -[dead_client st]; congruence.
  - cbv -[dead_client st]. congruence.
Qed.

(** C1: In every execution of a TCP client, whatever lwIP answers and however
    the callbacks of lwIP and of the SOCKS client interleave, every callback
    runs to its end: no assertion fails, the freed client is not accessed, no
    stream operation is started while one is in progress. A callback resumed
    after its jobs returns ERR_ABRT exactly when the jobs released the pcb. The
    client counts in num_clients until it is freed, and is freed once. *)
Theorem tcp_client_safe others w lw a : reach others w → enabled a w → answers_ok lw →
  num_clients (st w) = others + Z.b2z (allocated (st w)) ∧
  ∃ r s' es, run_act lw a (st w) = Some (r, s', es) ∧
    (allocated (st w) = false → s' = st w) ∧
    (a = AResumeRecv ∨ a = AResumeSent →
     r = Return (if killed (st w) then ERR_ABRT else ERR_OK)).
Proof.
  intros Hr He Hlw. split; [apply reach_inv, Hr|].
  destruct (proj1 (wp_some _ _ _) (run_act_ok others w lw a Hr He Hlw)) as (r & s' & es & E & _).
  exists r, s', es. split; [done|]. split; [intros Ha; by eapply freed_stays|].
  intros [-> | ->]; rewrite <- (iv_dead _ _ (reach_inv _ _ Hr) He).
  - revert E. cbn. destruct (dead_client (st w)) eqn:E; cbv -[dead_client st]; rewrite E;
      cbv -[dead_client st]; congruence.
  - revert E. cbv -[dead_client st]. destruct (dead_client (st w)); congruence.
Qed.


(** C27: The buffer of a TCP client holds exactly the bytes lwIP has handed over
    and not been told about with tcp_recved, and at most a receive window of
    them: data within the advertised window is accepted, data beyond it is
    refused with ERR_MEM and nothing changes. *)
Theorem tcp_client_window others w lw p : reach others w → enabled (ARecv (Some p)) w →
  answers_ok lw →
  let room := TCP_WND - (len (up_in w) - reported w) in
  0 ≤ room ≤ TCP_WND ∧
  if len p <=? room
  then ∃ r s' es, client_recv_func lw (Some p) (st w) = Some (r, s', es) ∧ r ≠ Return ERR_MEM ∧
    up_data (client s') = up_data (client (st w)) ++ p
  else ∃ es, client_recv_func lw (Some p) (st w) = Some (Return ERR_MEM, st w, es) ∧ quiet es.
Proof.
  intros Hr%reach_inv ((_ & Ha & Hc) & Hcb & Hp) Hlw.
  pose proof (iv_live _ _ Hr Ha) as L. pose proof (bs_used _ (lv_base _ L)) as Hu.
  assert (killed (st w) = false) as Hk by (unfold killed; by rewrite Ha, Hc).
  pose proof (iv_window _ _ Hr Hk) as Hw. cbv zeta. split; [lia|].
  destruct (proj1 (wp_some _ _ _) (recv_data_ok lw p (st w) L Hc Hcb Hp)) as (r & s' & es & E & Hq & Hpost).
  rewrite E. rewrite Hw. destruct (Z.leb_spec (len p) (TCP_WND - buf_used (client (st w)))) as [Hl|Hl].
  - rewrite (proj2 (Z.ltb_ge _ _)) in Hpost by lia. destruct Hpost as (Hne & _ & _ & _ & Hd & _).
    exists r, s', es. done.
  - rewrite (proj2 (Z.ltb_lt _ _)) in Hpost by lia. destruct Hpost as [-> ->]. by exists es.
Qed.

(** C22: A half-closed TCP client is never stuck and ends: while the device's
    side is closed there are bytes left for SOCKS, and once SOCKS is up they
    are being sent; the send that takes the last of them frees the client, any
    other leaves fewer. While the SOCKS side is closed there are bytes queued
    with lwIP it has not confirmed. With both sides open and SOCKS up, either
    data is awaited from SOCKS or a confirmation from lwIP. *)
Theorem tcp_client_progress others w : reach others w → allocated (st w) = true →
  let s := st w in let c := client s in
  (client_closed c = true → socks_closed c = false ∧ 0 < buf_used c ∧
     (socks_up c = true → send_busy s = true ∧
      ∀ lw n, answers_ok lw → 0 < n ≤ buf_used c → ∃ s' es,
        client_socks_send_handler_done lw n s = Some (tt, s', es) ∧
        if n =? buf_used c then allocated s' = false
        else allocated s' = true ∧ buf_used (client s') = buf_used c - n)) ∧
  (socks_closed c = true → client_closed c = false ∧ 0 < len (down_out w) - acked w) ∧
  (client_closed c = false → socks_closed c = false → socks_up c = true →
     recv_busy s = true ∨ 0 < len (down_out w) - acked w).
Proof.
  intros Hr%reach_inv Ha. cbv zeta. pose proof (iv_live _ _ Hr Ha) as L. pose proof (lv_base _ L) as B.
  assert (client_closed (client (st w)) = false → socks_up (client (st w)) = true →
    recv_ok (st w) ∧ socks_recv_tcp_pending (client (st w)) = len (down_out w) - acked w) as Hopen.
  { intros Hc Hup. split; [by apply L|]. apply (iv_down _ _ Hr); [|done]. unfold killed. by rewrite Ha, Hc. }
  split_and!.
  - intros Hc. assert (socks_closed (client (st w)) = false) as Hs by (destruct (lv_open _ L); congruence).
    pose proof (lv_drain _ L Hc) as Hb. split_and!; [done|done|]. intros Hup.
    assert (send_busy (st w) = true) as Hsb by (rewrite (bs_send _ B Hup Hs); by apply Z.ltb_lt).
    split; [done|]. intros lw n Hlw Hn.
    destruct (proj1 (wp_some _ _ _) (send_done_ok lw n (st w) L Hs Hsb Hn)) as ([] & s' & es & E & _ & _ & _ & Hpost).
    exists s', es. split; [done|].
    destruct Hpost as [(E1 & _ & _ & E4)|(L' & _ & (C1 & _) & _ & Eb)].
    + rewrite (proj2 (Z.eqb_eq _ _)) by lia. done.
    + pose proof (lv_drain _ L'). rewrite C1 in *. rewrite (proj2 (Z.eqb_neq _ _)); [|naive_solver lia].
      split; [apply L'|done].
  - intros Hs. pose proof (bs_up _ B Hs) as Hup.
    assert (client_closed (client (st w)) = false) as Hc by (destruct (lv_open _ L); congruence).
    destruct (Hopen Hc Hup) as [(_ & Hp & _) E]. split; [done|]. specialize (Hp Hs). lia.
  - intros Hc Hs Hup. destruct (Hopen Hc Hup) as [(_ & _ & [[_ E]|(_ & _ & _ & H & _)]) E'];
      [left; by rewrite E, Hs|right; lia].
Qed.

(** ** A concrete client *)

Definition go (lw : lwip_answers) (w : world) (a : act) : world :=
  match run_act lw a (st w) with Some (r, s', es) => next w a r s' es | None => w end.

Lemma reach_go others lw w a : reach others w → enabled a w → answers_ok lw → reach others (go lw w a).
Proof.
  intros Hr He Hlw. unfold go.
  destruct (proj1 (wp_some _ _ _) (run_act_ok others w lw a Hr He Hlw)) as (r & s' & es & E & _).
  rewrite E. eapply reach_step; [done|]. by econstructor.
Qed.

(** lwIP that takes everything; a client whose SOCKS connection is up and
    which has sent three bytes, to be sent on. *)
Definition easy_lwip : lwip_answers := LwipAnswers (λ _, 8192) (λ _, ERR_OK) ERR_OK ERR_OK.
Definition ex_addr : BAddr := BAddr_InitIPv4 16777226 (hton16 80).
Definition ex_accept : option (outcome * option state * list call) :=
  listener_accept_func ex_addr ex_addr (replicate (Z.to_nat TCP_WND) 0)
    (replicate (Z.to_nat CLIENT_SOCKS_RECV_BUF_SIZE) 0) true true true 4.
Definition ex_world0 : world :=
  match ex_accept with
  | Some (_, Some s, _) => World s true [] [] [] [] 0 0 false false
  | _ => World (MkState (MkTcpClient ex_addr ex_addr true [] 0 false true [] 0 0 false 0)
                  false 0 false false false false false false) false [] [] [] [] 0 0 false false
  end.
Definition ex_world1 : world := go easy_lwip ex_world0 AResumeSent.
Definition ex_world2 : world := go easy_lwip ex_world1 (AJob (JSocksEvent BSOCKSCLIENT_EVENT_UP)).
Definition ex_world3 : world := go easy_lwip ex_world2 (ARecv (Some [71; 69; 84])).

Lemma easy_lwip_ok : answers_ok easy_lwip.
Proof. intros n. done. Qed.
Lemma ex_reach0 : reach 4 ex_world0.
Proof. eapply (reach_accept 4 ex_addr ex_addr); [vm_compute; reflexivity|by vm_compute|by vm_compute]. Qed.
Lemma ex_reach2 : reach 4 ex_world2.
Proof.
  apply reach_go; [|by vm_compute|apply easy_lwip_ok].
  apply reach_go; [apply ex_reach0|by vm_compute|apply easy_lwip_ok].
Qed.
Lemma ex_enabled3 : enabled (ARecv (Some [71; 69; 84])) ex_world2.
Proof. by vm_compute. Qed.
Lemma ex_reach3 : reach 4 ex_world3.
Proof. apply reach_go; [apply ex_reach2|apply ex_enabled3|apply easy_lwip_ok]. Qed.

Lemma tcp_client_safe_witness : ∃ r s' es, run_act easy_lwip AResumeRecv (st ex_world3) = Some (r, s', es) ∧
  r = Return ERR_OK.
Proof.
  destruct (tcp_client_safe 4 ex_world3 easy_lwip AResumeRecv ex_reach3)
    as (_ & r & s' & es & E & _ & H); [by vm_compute|apply easy_lwip_ok|].
  exists r, s', es. split; [done|]. rewrite H by (by left). by vm_compute.
Defined.


Lemma tcp_client_window_witness : 3 ≤ TCP_WND ∧ ∃ r s' es,
  client_recv_func easy_lwip (Some [71; 69; 84]) (st ex_world2) = Some (r, s', es) ∧ r ≠ Return ERR_MEM.
Proof.
  destruct (tcp_client_window 4 ex_world2 easy_lwip [71; 69; 84] ex_reach2 ex_enabled3 easy_lwip_ok)
    as [_ H]. split; [done|].
  replace (_ <=? _) with true in H by (vm_compute; reflexivity).
  destruct H as (r & s' & es & E & Hr & _). by exists r, s', es.
Defined.

(** The device closes after sending; the client lives until the bytes are sent. *)
Definition ex_world4 : world := go easy_lwip (go easy_lwip ex_world3 AResumeRecv) (ARecv None).
Lemma ex_reach4 : reach 4 ex_world4.
Proof.
  apply reach_go; [|by vm_compute|apply easy_lwip_ok].
  apply reach_go; [apply ex_reach3|by vm_compute|apply easy_lwip_ok].
Qed.
Lemma tcp_client_progress_witness : ∃ s' es,
  client_socks_send_handler_done easy_lwip 3 (st ex_world4) = Some (tt, s', es) ∧ allocated s' = false.
Proof.
  destruct (tcp_client_progress 4 ex_world4 ex_reach4) as [H _]; [by vm_compute|].
  destruct H as (_ & _ & H); [by vm_compute|]. destruct H as [_ H]; [by vm_compute|].
  destruct (H easy_lwip 3 easy_lwip_ok) as (s' & es & E & Hf); [by vm_compute|].
  exists s', es. split; [exact E|]. replace (3 =? _) with true in Hf by (vm_compute; reflexivity). exact Hf.
Defined.
End TcpRelay.
