(* ===== verification/BReactor.v ===== *)
(** The event loop (system/BReactor_badvpn.c, built for epoll): jobs, timers,
    file descriptors and limits. The timers wait in a tree ordered by time and
    then address, and move from there to a list when they expire. *)
From Stdlib Require Import Sorting.Sorted.
From S2P Require Import Prelude Misc BAddr TreeInterface BPending.

(** * The code *)
Module BReactorCode.
Export BPendingCode.

Definition TIMER_STATE_INACTIVE : Z := 1.
Definition TIMER_STATE_RUNNING : Z := 2.
Definition TIMER_STATE_EXPIRED : Z := 3.

Definition BTIMER_SET_ABSOLUTE : Z := 1.
Definition BTIMER_SET_RELATIVE : Z := 2.

Definition BREACTOR_READ : Z := 1.
Definition BREACTOR_WRITE : Z := 2.
Definition BREACTOR_ERROR : Z := 4.
Definition BREACTOR_HUP : Z := 8.

Definition BSYSTEM_MAX_RESULTS : Z := 64.

(** Of the operating system's headers. *)
Definition EPOLLIN : Z := 1.
Definition EPOLLOUT : Z := 4.
Definition EPOLLERR : Z := 8.
Definition EPOLLHUP : Z := 16.
Definition EINTR : Z := 4.
Definition INT64_MAX : Z := 9223372036854775807.
Definition INT64_MIN : Z := -9223372036854775808.

(** 1 or -1 where the sum of two [int64_t] is too large or too small. *)
Definition add_int64_overflows (a b : Z) : Z :=
  if xorb (a <? 0) (b <? 0) then 0
  else if a <? 0 then - Z.b2z (a <? INT64_MIN - b)
  else Z.b2z (INT64_MAX - b <? a).

Definition btime_add (t1 t2 : Z) : Z :=
  let overflows := add_int64_overflows t1 t2 in
  if negb (overflows =? 0) then (if 0 <? overflows then INT64_MAX else INT64_MIN)
  else t1 + t2.

(** Handlers and the [user] values they are called with are numbers. The tree
    links of a timer are in the memory of the tree, its list node in the list. *)
Record BSmallTimer := MkTimer {
  handler : Z;
  absTime : Z;
  state : Z;
  is_small : bool
}.
#[global] Instance eta_BSmallTimer : Eta BSmallTimer := λ x,
  MkTimer (handler x) (absTime x) (state x) (is_small x).

(** The fields of a [BTimer] after its [base], which has the same address. *)
Record BTimer := MkBTimer {
  timer_user : Z;
  msTime : Z
}.

Record BFileDescriptor := MkFd {
  fd : Z;
  fd_handler : Z;
  fd_user : Z;
  active : bool;
  waitEvents : Z;
  epoll_returned_ptr : option nat
}.
#[global] Instance eta_BFileDescriptor : Eta BFileDescriptor := λ x,
  MkFd (fd x) (fd_handler x) (fd_user x) (active x) (waitEvents x) (epoll_returned_ptr x).

Record BReactorLimit := MkLimit {
  limit : Z;
  count : Z
}.
#[global] Instance eta_BReactorLimit : Eta BReactorLimit := λ x, MkLimit (limit x) (count x).

(** An entry of the results: [data.ptr] and [events]. *)
Record epoll_event := MkEvent {
  data_ptr : option positive;
  events : Z
}.
#[global] Instance eta_epoll_event : Eta epoll_event := λ x, MkEvent (data_ptr x) (events x).

Definition compare_timers (t1 t2 : Z * Z) : Z :=
  let cmp := B_COMPARE (fst t1) (fst t2) in
  if negb (cmp =? 0) then cmp else B_COMPARE (snd t1) (snd t2).

(** The time and the address of a timer. *)
Definition timer_key (m : gmap positive BSmallTimer) (p : positive) : Z * Z :=
  (match m !! p with Some t => absTime t | None => 0 end, Z.pos p).

(** What [epoll_wait] returned, a negative value with its [errno] or results. *)
Inductive wait_answer :=
  | Wait_error (error : Z)
  | Wait_results (l : list (positive * Z)).

(** What the reactor calls. A handler is called for an object, which is named
    first. Calls of the operating system are recorded with their answers: whether
    an addition succeeded, the results of waiting and the time when it returned,
    the time. *)
Inductive call :=
  | Call_job (job : nat)
  | Call_small_timer (timer : positive) (handler : Z)
  | Call_timer (timer : positive) (handler user : Z)
  | Call_fd (object : positive) (handler user events : Z)
  | epoll_ctl_add (fd : Z) (object : positive) (events : Z) (ok : bool)
  | epoll_ctl_mod (fd : Z) (object : positive) (events : Z)
  | epoll_ctl_del (fd : Z)
  | epoll_wait (timeout : Z) (answer : wait_answer) (later : Z)
  | btime_gettime (t : Z)
  | close (fd : Z).

(** How one round of the loop in [BReactor_Exec] ends: a handler was called, no
    handler was called, or [epoll_wait] has not returned yet. *)
Inductive progress := Called | Continued | Waiting.

Section code.
Context {T : Type} `{!OrderedTree T}.

(** The objects by address: [timers], [btimers] those that are part of a
    [BTimer], [fds] and [limits]. *)
Record BReactor := MkReactor {
  exiting : bool;
  exit_code : Z;
  pending_jobs : BPendingGroup;
  timers_tree : T;
  timers_expired_list : list positive;
  active_limits_list : list positive;
  efd : Z;
  epoll_results : list epoll_event;
  epoll_results_num : nat;
  epoll_results_pos : nat;
  d_fds_counter : Z;
  d_limits_ctr : Z;
  timers : gmap positive BSmallTimer;
  btimers : gmap positive BTimer;
  fds : gmap positive BFileDescriptor;
  limits : gmap positive BReactorLimit
}.
#[global] Instance eta_BReactor : Eta BReactor := λ x,
  MkReactor (exiting x) (exit_code x) (pending_jobs x) (timers_tree x) (timers_expired_list x)
    (active_limits_list x) (efd x) (epoll_results x) (epoll_results_num x) (epoll_results_pos x)
    (d_fds_counter x) (d_limits_ctr x) (timers x) (btimers x) (fds x) (limits x).

Abbreviation op := (prog BReactor call).
Definition stuck {A} : op A := λ _, None.

(** Access to objects that exist. *)
Definition get_timer (p : positive) : op BSmallTimer :=
  λ r, match timers r !! p with Some t => Some (t, r, []) | None => None end.
Definition set_timer (p : positive) (g : BSmallTimer → BSmallTimer) : op unit :=
  t ← get_timer p; modify (λ r, r <| timers := <[p := g t]> (timers r) |>).
Definition get_btimer (p : positive) : op BTimer :=
  λ r, match btimers r !! p with Some t => Some (t, r, []) | None => None end.
Definition get_fd (p : positive) : op BFileDescriptor :=
  λ r, match fds r !! p with Some f => Some (f, r, []) | None => None end.
Definition set_fd (p : positive) (g : BFileDescriptor → BFileDescriptor) : op unit :=
  f ← get_fd p; modify (λ r, r <| fds := <[p := g f]> (fds r) |>).
Definition get_limit (p : positive) : op BReactorLimit :=
  λ r, match limits r !! p with Some l => Some (l, r, []) | None => None end.
Definition set_limit (p : positive) (g : BReactorLimit → BReactorLimit) : op unit :=
  l ← get_limit p; modify (λ r, r <| limits := <[p := g l]> (limits r) |>).

(** misc/debugcounter.h. *)
Definition counter_increment (c : Z) : option Z :=
  ASSERT_ (0 <=? c); Some (if negb (c =? INT_MAX) then c + 1 else c).
Definition counter_decrement (c : Z) : option Z :=
  ASSERT_ (0 <? c); Some (if negb (c =? INT_MAX) then c - 1 else c).
Definition counter_free (c : Z) : bool := (c =? 0) || (c =? INT_MAX).

Definition Tree_GetFirst : op (option positive) :=
  λ r, match ot_first (timers_tree r) with Some f => Some (f, r, []) | None => None end.
Definition Tree_Insert (p : positive) : op Z :=
  λ r, match ot_insert compare_timers (timer_key (timers r)) p (timers_tree r) with
       | Some (res, t) => Some (res, r <| timers_tree := t |>, [])
       | None => None
       end.
Definition Tree_Remove (p : positive) : op unit :=
  update (λ r, match ot_remove p (timers_tree r) with
               | Some t => Some (r <| timers_tree := t |>)
               | None => None
               end).

Definition list_remove (p : positive) (l : list positive) : list positive := filter (λ q, q ≠ p) l.

(** * Timers *)

Definition assert_timer (t : BSmallTimer) : bool :=
  (state t =? TIMER_STATE_INACTIVE) || (state t =? TIMER_STATE_RUNNING) ||
  (state t =? TIMER_STATE_EXPIRED).

(** What both loops below do with a timer: off the tree and onto the list. *)
Definition expire (timer : positive) : op unit :=
  Tree_Remove timer;;
  modify (λ r, r <| timers_expired_list := timers_expired_list r ++ [timer] |>);;
  set_timer timer (λ t, t <| state := TIMER_STATE_EXPIRED |>).

Fixpoint move_expired_loop (fuel : nat) (now : Z) (moved : bool) : op bool :=
  match fuel with
  | O => stuck
  | S fuel =>
      timer ← Tree_GetFirst;
      match timer with
      | None => mret moved
      | Some timer =>
          t ← get_timer timer;
          ASSERT (state t =? TIMER_STATE_RUNNING);;
          if now <? absTime t then mret moved
          else expire timer;; move_expired_loop fuel now true
      end
  end.
(** Each round takes one timer off the tree. *)
Definition move_expired_timers (now : Z) : op bool :=
  r ← get_st; move_expired_loop (S (size (timers r))) now false.

Fixpoint move_first_loop (fuel : nat) (first_time : Z) : op unit :=
  match fuel with
  | O => stuck
  | S fuel =>
      timer ← Tree_GetFirst;
      match timer with
      | None => mret tt
      | Some timer =>
          t ← get_timer timer;
          ASSERT (state t =? TIMER_STATE_RUNNING);;
          ASSERT (first_time <=? absTime t);;
          if first_time <? absTime t then mret tt
          else expire timer;; move_first_loop fuel first_time
      end
  end.
Definition move_first_timers : op unit :=
  first_timer ← Tree_GetFirst;
  match first_timer with
  | None => stuck
  | Some first_timer =>
      t ← get_timer first_timer;
      ASSERT (state t =? TIMER_STATE_RUNNING);;
      let first_time := absTime t in
      expire first_timer;;
      r ← get_st;
      move_first_loop (S (size (timers r))) first_time
  end.

(** An object that was not initialised before has arbitrary contents; none of
    them is read before it is written. *)
Definition uninit_timer : BSmallTimer := MkTimer 0 0 0 false.
Definition uninit_fd : BFileDescriptor := MkFd 0 0 0 false 0 None.

Definition BSmallTimer_Init (bt : positive) (h : Z) : op unit :=
  modify (λ r,
    let t := default uninit_timer (timers r !! bt) in
    r <| timers := <[bt := t <| handler := h |> <| state := TIMER_STATE_INACTIVE |>
                             <| is_small := true |>]> (timers r) |>).
Definition BSmallTimer_IsRunning (bt : positive) : op bool :=
  t ← get_timer bt;
  ASSERT (assert_timer t);;
  mret (negb (state t =? TIMER_STATE_INACTIVE)).
Definition BTimer_Init (bt : positive) (ms : Z) (h user : Z) : op unit :=
  modify (λ r,
    let t := default uninit_timer (timers r !! bt) in
    r <| timers := <[bt := t <| handler := h |> <| state := TIMER_STATE_INACTIVE |>
                             <| is_small := false |>]> (timers r) |>
      <| btimers := <[bt := MkBTimer user ms]> (btimers r) |>).
Definition BTimer_IsRunning (bt : positive) : op bool := BSmallTimer_IsRunning bt.

Definition BReactor_RemoveSmallTimer (bt : positive) : op unit :=
  t ← get_timer bt;
  ASSERT (assert_timer t);;
  if state t =? TIMER_STATE_INACTIVE then mret tt else
  (if state t =? TIMER_STATE_EXPIRED then
     modify (λ r, r <| timers_expired_list := list_remove bt (timers_expired_list r) |>)
   else Tree_Remove bt);;
  set_timer bt (λ t, t <| state := TIMER_STATE_INACTIVE |>).

(** [now]: what [btime_gettime] returns, where it is called. *)
Definition BReactor_SetSmallTimer (bt : positive) (mode time now : Z) : op unit :=
  t ← get_timer bt;
  ASSERT (assert_timer t);;
  ASSERT ((mode =? BTIMER_SET_ABSOLUTE) || (mode =? BTIMER_SET_RELATIVE));;
  BReactor_RemoveSmallTimer bt;;
  when (mode =? BTIMER_SET_RELATIVE) (emit (btime_gettime now));;
  let time := if mode =? BTIMER_SET_RELATIVE then btime_add now time else time in
  set_timer bt (λ t, t <| absTime := time |>);;
  set_timer bt (λ t, t <| state := TIMER_STATE_RUNNING |>);;
  res ← Tree_Insert bt;
  ASSERT (negb (res =? 0)).

Definition BReactor_SetTimer (bt : positive) (now : Z) : op unit :=
  b ← get_btimer bt; BReactor_SetSmallTimer bt BTIMER_SET_RELATIVE (msTime b) now.
Definition BReactor_SetTimerAfter (bt : positive) (after now : Z) : op unit :=
  BReactor_SetSmallTimer bt BTIMER_SET_RELATIVE after now.
Definition BReactor_SetTimerAbsolute (bt : positive) (time now : Z) : op unit :=
  BReactor_SetSmallTimer bt BTIMER_SET_ABSOLUTE time now.
Definition BReactor_RemoveTimer (bt : positive) : op unit := BReactor_RemoveSmallTimer bt.

(** * File descriptors

    [ok]: whether [epoll_ctl] succeeds. *)

Definition has (w flag : Z) : bool := negb (Z.land w flag =? 0).

Definition BFileDescriptor_Init (bs : positive) (d h user : Z) : op unit :=
  modify (λ r,
    let f := default uninit_fd (fds r !! bs) in
    r <| fds := <[bs := f <| fd := d |> <| fd_handler := h |> <| fd_user := user |>
                          <| active := false |>]> (fds r) |>).

Definition BReactor_AddFileDescriptor (bs : positive) (ok : bool) : op Z :=
  f ← get_fd bs;
  ASSERT (negb (active f));;
  emit (epoll_ctl_add (fd f) bs 0 ok);;
  if negb ok then mret 0 else
  set_fd bs (λ f, f <| epoll_returned_ptr := None |>);;
  set_fd bs (λ f, f <| active := true |> <| waitEvents := 0 |>);;
  update (λ r, c ← counter_increment (d_fds_counter r); Some (r <| d_fds_counter := c |>));;
  mret 1.

(** [*bs->epoll_returned_ptr = NULL], for the entry [i] of the results. *)
Definition clear_result (i : nat) : op unit :=
  update (λ r, e ← epoll_results r !! i;
    Some (r <| epoll_results := <[i := e <| data_ptr := None |>]> (epoll_results r) |>)).

Definition BReactor_RemoveFileDescriptor (bs : positive) (ok : bool) : op unit :=
  f ← get_fd bs;
  ASSERT (active f);;
  update (λ r, c ← counter_decrement (d_fds_counter r); Some (r <| d_fds_counter := c |>));;
  set_fd bs (λ f, f <| active := false |>);;
  emit (epoll_ctl_del (fd f));;
  ASSERT ok;;
  match epoll_returned_ptr f with
  | Some i => clear_result i
  | None => mret tt
  end.

Definition BReactor_SetFileDescriptorEvents (bs : positive) (evs : Z) (ok : bool) : op unit :=
  f ← get_fd bs;
  ASSERT (active f);;
  ASSERT (Z.land evs (Z.lnot (Z.lor BREACTOR_READ BREACTOR_WRITE)) =? 0);;
  if waitEvents f =? evs then mret tt else
  let eevents := 0 in
  let eevents := if has evs BREACTOR_READ then Z.lor eevents EPOLLIN else eevents in
  let eevents := if has evs BREACTOR_WRITE then Z.lor eevents EPOLLOUT else eevents in
  emit (epoll_ctl_mod (fd f) bs eevents);;
  ASSERT ok;;
  set_fd bs (λ f, f <| waitEvents := evs |>).

Definition set_epoll_fd_pointers_at (i : nat) : op unit :=
  r ← get_st;
  match epoll_results r !! i with
  | Some (MkEvent (Some p) _) =>
      f ← get_fd p;
      ASSERT (active f);;
      ASSERT (bool_decide (epoll_returned_ptr f = None));;
      set_fd p (λ f, f <| epoll_returned_ptr := Some i |>)
  | _ => stuck
  end.
Fixpoint set_epoll_fd_pointers_loop (i : nat) (rounds : nat) : op unit :=
  match rounds with
  | O => mret tt
  | S rounds => set_epoll_fd_pointers_at i;; set_epoll_fd_pointers_loop (S i) rounds
  end.
Definition set_epoll_fd_pointers : op unit :=
  r ← get_st; set_epoll_fd_pointers_loop 0 (epoll_results_num r).

(** * Limits *)

Definition BReactorLimit_Init (o : positive) (lim : Z) : op unit :=
  ASSERT (0 <? lim);;
  modify (λ r, r <| limits := <[o := MkLimit lim 0]> (limits r) |>);;
  update (λ r, c ← counter_increment (d_limits_ctr r); Some (r <| d_limits_ctr := c |>)).
Definition BReactorLimit_Free (o : positive) : op unit :=
  l ← get_limit o;
  update (λ r, c ← counter_decrement (d_limits_ctr r); Some (r <| d_limits_ctr := c |>));;
  when (0 <? count l) (
    modify (λ r, r <| active_limits_list := list_remove o (active_limits_list r) |>));;
  modify (λ r, r <| limits := delete o (limits r) |>).
Definition BReactorLimit_Increment (o : positive) : op Z :=
  l ← get_limit o;
  if limit l <=? count l then mret 0 else
  set_limit o (λ l, l <| count := count l + 1 |>);;
  l ← get_limit o;
  when (count l =? 1) (
    modify (λ r, r <| active_limits_list := active_limits_list r ++ [o] |>));;
  mret 1.
Definition BReactorLimit_SetLimit (o : positive) (lim : Z) : op unit :=
  ASSERT (0 <? lim);;
  set_limit o (λ l, l <| limit := lim |>).

(** The loop at the end of [wait_for_events]; each round takes one limit off
    the list. *)
Fixpoint reset_limits_loop (fuel : nat) : op unit :=
  match fuel with
  | O => stuck
  | S fuel =>
      r ← get_st;
      match active_limits_list r with
      | [] => mret tt
      | o :: _ =>
          l ← get_limit o;
          ASSERT (0 <? count l);;
          set_limit o (λ l, l <| count := 0 |>);;
          modify (λ r, r <| active_limits_list := list_remove o (active_limits_list r) |>);;
          reset_limits_loop fuel
      end
  end.
Definition reset_limits : op unit :=
  r ← get_st; reset_limits_loop (S (length (active_limits_list r))).

(** * Waiting

    [timeout_abs]: the time of the first timer, if [have_timeout]. A round of
    the loop consumes an answer of [epoll_wait] and the time [btime_gettime]
    gives after it; the loop is still waiting when there are no more answers. *)

(** [epoll_wait] writes its results to the start of the array. *)
Definition store_results (l : list (positive * Z)) (old : list epoll_event) : list epoll_event :=
  map (λ e, MkEvent (Some (fst e)) (snd e)) l ++ drop (length l) old.

Fixpoint wait_loop (timeout_abs : option Z) (now : Z) (answers : list (wait_answer * Z)) : op bool :=
  match answers with
  | [] => mret false
  | (answer, later) :: answers =>
      let timeout_rel := match timeout_abs with Some t => t - now | None => 0 end in
      ASSERT ((INT64_MIN <=? timeout_rel) && (timeout_rel <=? INT64_MAX));;
      let timeout_rel_trunc := if INT_MAX <? timeout_rel then INT_MAX else timeout_rel in
      emit (epoll_wait (if bool_decide (is_Some timeout_abs) then s32 timeout_rel_trunc else -1) answer later);;
      let try_again :=
        match timeout_abs with
        | Some t => emit (btime_gettime later);;
                    if t <=? later then move_first_timers;; mret true
                    else wait_loop timeout_abs later answers
        | None => wait_loop timeout_abs now answers
        end in
      match answer with
      | Wait_error error => ASSERT (error =? EINTR);; try_again
      | Wait_results l =>
          ASSERT (negb (len l =? 0) || bool_decide (is_Some timeout_abs));;
          ASSERT (len l <=? BSYSTEM_MAX_RESULTS);;
          if negb (len l =? 0) then
            modify (λ r, r <| epoll_results := store_results l (epoll_results r) |>
                           <| epoll_results_num := length l |>);;
            set_epoll_fd_pointers;;
            mret true
          else if timeout_rel_trunc =? timeout_rel then move_first_timers;; mret true
          else try_again
      end
  end.

(** [now]: the time at the start. The result says whether it returned. *)
Definition wait_for_events (now : Z) (answers : list (wait_answer * Z)) : op bool :=
  r ← get_st;
  ASSERT (negb (BPendingGroup_HasJobs (pending_jobs r)));;
  ASSERT (bool_decide (timers_expired_list r = []));;
  ASSERT (bool_decide (epoll_results_pos r = epoll_results_num r));;
  modify (λ r, r <| epoll_results_num := 0%nat |> <| epoll_results_pos := 0%nat |>);;
  first_timer ← Tree_GetFirst;
  match first_timer with
  | None =>
      returned ← wait_loop None 0 answers;
      when returned reset_limits;;
      mret returned
  | Some first_timer =>
      t ← get_timer first_timer;
      ASSERT (state t =? TIMER_STATE_RUNNING);;
      emit (btime_gettime now);;
      moved ← move_expired_timers now;
      if (moved : bool) then mret true else
      t ← get_timer first_timer;
      returned ← wait_loop (Some (absTime t)) now answers;
      when returned reset_limits;;
      mret returned
  end.

(** * The loop *)

Definition BReactor_Init (epfd : Z) (r0 : BReactor) : Z * BReactor :=
  let r := r0 <| exiting := false |> <| pending_jobs := BPendingGroup_Init |>
              <| timers_tree := ot_init |> <| timers_expired_list := [] |>
              <| active_limits_list := [] |> <| efd := epfd |> in
  if epfd <? 0 then (0, r)
  else (1, r <| epoll_results_num := 0%nat |> <| epoll_results_pos := 0%nat |>
             <| d_fds_counter := 0 |> <| d_limits_ctr := 0 |>).

Definition BReactor_Free : op unit :=
  r ← get_st;
  ASSERT (negb (BPendingGroup_HasJobs (pending_jobs r)));;
  first ← Tree_GetFirst;
  ASSERT (bool_decide (first = None));;
  ASSERT (bool_decide (timers_expired_list r = []));;
  ASSERT (bool_decide (active_limits_list r = []));;
  ASSERT (counter_free (d_fds_counter r));;
  ASSERT (counter_free (d_limits_ctr r));;
  emit (close (efd r));;
  ASSERT (BPendingGroup_Free (pending_jobs r)).

(** The three kinds of dispatch of [BReactor_Exec], up to the call. *)
Definition dispatch_job : op progress :=
  r ← get_st;
  match BPendingGroup_ExecuteJob (pending_jobs r) with
  | None => stuck
  | Some (j, g) =>
      modify (λ r, r <| pending_jobs := g |>);;
      emit (Call_job j);;
      mret Called
  end.
Definition dispatch_timer (timer : positive) : op progress :=
  t ← get_timer timer;
  ASSERT (state t =? TIMER_STATE_EXPIRED);;
  modify (λ r, r <| timers_expired_list := list_remove timer (timers_expired_list r) |>);;
  set_timer timer (λ t, t <| state := TIMER_STATE_INACTIVE |>);;
  (if is_small t then emit (Call_small_timer timer (handler t))
   else b ← get_btimer timer; emit (Call_timer timer (handler t) (timer_user b)));;
  mret Called.
(** The events to report, of a descriptor that waits for [wait] when [got] was
    returned. *)
Definition report_events (wait got : Z) : Z :=
  let evs := 0 in
  let evs := if has wait BREACTOR_READ && has got EPOLLIN then Z.lor evs BREACTOR_READ else evs in
  let evs := if has wait BREACTOR_WRITE && has got EPOLLOUT then Z.lor evs BREACTOR_WRITE else evs in
  let evs := if has got EPOLLERR then Z.lor evs BREACTOR_ERROR else evs in
  if has got EPOLLHUP then Z.lor evs BREACTOR_HUP else evs.
Definition dispatch_fd : op progress :=
  r ← get_st;
  match epoll_results r !! epoll_results_pos r with
  | None => stuck
  | Some event =>
      modify (λ r, r <| epoll_results_pos := S (epoll_results_pos r) |>);;
      match data_ptr event with
      | None => mret Continued
      | Some bfd =>
          f ← get_fd bfd;
          ASSERT (active f);;
          ASSERT (bool_decide (epoll_returned_ptr f = Some (epoll_results_pos r)));;
          set_fd bfd (λ f, f <| epoll_returned_ptr := None |>);;
          let evs := report_events (waitEvents f) (events event) in
          if evs =? 0 then mret Continued else
          emit (Call_fd bfd (fd_handler f) (fd_user f) evs);;
          mret Called
      end
  end.

(** One round of the loop. *)
Definition exec_round (now : Z) (answers : list (wait_answer * Z)) : op progress :=
  r ← get_st;
  if BPendingGroup_HasJobs (pending_jobs r) then dispatch_job else
  match timers_expired_list r with
  | timer :: _ => dispatch_timer timer
  | [] =>
      if (epoll_results_pos r <? epoll_results_num r)%nat then dispatch_fd else
      returned ← wait_for_events now answers;
      mret (if (returned : bool) then Continued else Waiting)
  end.

(** What the handlers do: [handlers] gives, for every call, a program. A turn
    is what one round finds: the time, the answers of [epoll_wait], and what
    the handler does that it calls. The result is that of the call, or [None]
    if it has not returned after the given turns. *)
Record turn := MkTurn {
  turn_now : Z;
  turn_answers : list (wait_answer * Z);
  turn_handler : op unit
}.
Fixpoint BReactor_Exec (turns : list turn) : op (option Z) :=
  r ← get_st;
  if exiting r then mret (Some (exit_code r)) else
  match turns with
  | [] => mret None
  | t :: turns =>
      p ← exec_round (turn_now t) (turn_answers t);
      match p with
      | Called => turn_handler t;; BReactor_Exec turns
      | Continued => BReactor_Exec turns
      | Waiting => mret None
      end
  end.

Definition BReactor_Quit (code : Z) : op unit :=
  modify (λ r, r <| exiting := true |> <| exit_code := code |>).

(** [handlers]: what the jobs that are run do. *)
Fixpoint BReactor_Synchronize (ref : nat) (handlers : list (op unit)) : op (option Z) :=
  r ← get_st;
  if exiting r then mret (Some 0) else
  ASSERT (BPendingGroup_HasJobs (pending_jobs r));;
  if bool_decide (BPendingGroup_PeekJob (pending_jobs r) = Some ref) then mret (Some 1) else
  match handlers with
  | [] => mret None
  | h :: handlers => dispatch_job;; h;; BReactor_Synchronize ref handlers
  end.
End code.
Arguments BReactor : clear implicits.
Arguments turn : clear implicits.
End BReactorCode.

(** * The invariant *)
Module BReactorFacts.
Import BReactorCode BPendingFacts.

#[export] Instance compare_timers_ok : Comparator (λ _, True) compare_timers := compare_pairs_comparator.

Definition in_state (m : gmap positive BSmallTimer) (s : Z) (p : positive) : Prop :=
  ∃ t, m !! p = Some t ∧ state t = s.

Lemma states_differ : TIMER_STATE_RUNNING ≠ TIMER_STATE_INACTIVE ∧ TIMER_STATE_EXPIRED ≠ TIMER_STATE_INACTIVE ∧
  TIMER_STATE_RUNNING ≠ TIMER_STATE_EXPIRED.
Proof. unfold TIMER_STATE_RUNNING, TIMER_STATE_INACTIVE, TIMER_STATE_EXPIRED. lia. Qed.

Lemma in_state_insert m s p t q : in_state (<[p := t]> m) s q ↔ (q = p ∧ state t = s) ∨ (q ≠ p ∧ in_state m s q).
Proof.
  unfold in_state. destruct (decide (q = p)) as [->|].
  - rewrite lookup_insert_eq. naive_solver.
  - rewrite lookup_insert_ne by done. naive_solver.
Qed.
Lemma in_state_eq m p t s : m !! p = Some t → in_state m s p ↔ state t = s.
Proof. unfold in_state. naive_solver. Qed.
Lemma in_state_disjoint m s s' p : in_state m s p → in_state m s' p → s = s'.
Proof. unfold in_state. naive_solver. Qed.

Lemma elem_of_list_remove p q l : q ∈ list_remove p l ↔ q ≠ p ∧ q ∈ l.
Proof. unfold list_remove. by rewrite list_elem_of_filter. Qed.
Lemma list_remove_head p l : NoDup (p :: l) → list_remove p (p :: l) = l.
Proof.
  intros [Hn _]%NoDup_cons. unfold list_remove. rewrite filter_cons_False by tauto. by apply filter_absent.
Qed.

(** An [int64_t]. *)
Definition is_time (t : Z) : Prop := INT64_MIN ≤ t ≤ INT64_MAX.
Lemma btime_add_spec t1 t2 : is_time t1 → is_time t2 →
  btime_add t1 t2 = Z.max INT64_MIN (Z.min INT64_MAX (t1 + t2)).
Proof.
  unfold is_time, btime_add, add_int64_overflows, INT64_MIN, INT64_MAX. intros.
  destruct (Z.ltb_spec t1 0), (Z.ltb_spec t2 0); cbn [xorb]; [|cbn [negb Z.eqb]; lia..|].
  - destruct (Z.ltb_spec t1 (-9223372036854775808 - t2)); cbn [Z.b2z];
      [change (- (1) =? 0) with false; change (0 <? - (1)) with false|change (- 0 =? 0) with true]; cbn [negb]; lia.
  - destruct (Z.ltb_spec (9223372036854775807 - t2) t1); cbn [Z.b2z];
      [change (1 =? 0) with false; change (0 <? 1) with true|change (0 =? 0) with true]; cbn [negb]; lia.
Qed.
Lemma btime_add_time t1 t2 : is_time t1 → is_time t2 → is_time (btime_add t1 t2).
Proof. intros. rewrite btime_add_spec by done. unfold is_time, INT64_MIN, INT64_MAX. lia. Qed.

(** The saturating debug counter counts [n] objects. *)
Definition counts (c : Z) (n : nat) : Prop := 0 ≤ c ≤ INT_MAX ∧ (c ≠ INT_MAX → c = Z.of_nat n).
Lemma counter_increment_ok c n : counts c n → ∃ c', counter_increment c = Some c' ∧ counts c' (S n).
Proof.
  intros [Hc Hn]. unfold counter_increment, counts. rewrite (proj2 (Z.leb_le _ _)) by lia.
  destruct (Z.eqb_spec c INT_MAX); cbn [negb]; eexists; (split; [done|]); lia.
Qed.
Lemma counter_decrement_ok c n : counts c (S n) → ∃ c', counter_decrement c = Some c' ∧ counts c' n.
Proof.
  intros [Hc Hn]. unfold counter_decrement, counts, INT_MAX in *.
  assert (0 < c) as Hpos by (destruct (decide (c = 2147483647)) as [->|Hne]; [lia|rewrite Hn by done; lia]).
  rewrite (proj2 (Z.ltb_lt _ _)) by done.
  destruct (Z.eqb_spec c 2147483647); cbn [negb]; eexists; (split; [done|]); lia.
Qed.

Definition active_count (m : gmap positive BFileDescriptor) : nat := size (filter (λ f, active f.2 = true) m).
Definition active_fd (m : gmap positive BFileDescriptor) (p : positive) (f : BFileDescriptor) : Prop :=
  m !! p = Some f ∧ active f = true.
Lemma active_fd_insert m p f q g : active_fd (<[p := f]> m) q g ↔
  (q = p ∧ g = f ∧ active f = true) ∨ (q ≠ p ∧ active_fd m q g).
Proof.
  unfold active_fd. destruct (decide (q = p)) as [->|].
  - rewrite lookup_insert_eq. naive_solver.
  - rewrite lookup_insert_ne by done. naive_solver.
Qed.
Lemma active_count_on m p f : (∀ g, ¬ active_fd m p g) → active f = true →
  active_count (<[p := f]> m) = S (active_count m).
Proof.
  intros Hp Hf. unfold active_count. rewrite map_filter_insert, decide_True by done.
  apply map_size_insert_None, map_lookup_filter_None. right. intros g Hg Ha. by apply (Hp g).
Qed.
Lemma active_count_off m p f g : active_fd m p g → active f = false →
  active_count m = S (active_count (<[p := f]> m)).
Proof.
  intros [Hp Hg] Hf. unfold active_count. rewrite map_filter_insert, decide_False by (cbn; congruence).
  rewrite map_filter_delete. assert (filter (λ f, active f.2 = true) m !! p = Some g) as Hl
    by by apply map_lookup_filter_Some.
  rewrite map_size_delete_Some by done. assert (size (filter (λ f, active f.2 = true) m) ≠ 0%nat); [|lia].
  intros E%map_size_empty_inv. rewrite E in Hl. by rewrite lookup_empty in Hl.
Qed.
Lemma active_count_same m p f : ((∃ g, active_fd m p g) ↔ active f = true) →
  active_count (<[p := f]> m) = active_count m.
Proof.
  intros H. unfold active_count. rewrite map_filter_insert. case_decide as Hf; cbn in Hf.
  - destruct (proj2 H Hf) as (g & Hp & Hg). apply map_size_insert_Some. exists g. by apply map_lookup_filter_Some.
  - f_equal. rewrite map_filter_delete. apply delete_id, map_lookup_filter_None. right. intros g Hg Ha.
    apply Hf, H. by exists g.
Qed.

Lemma wp_when_emit {St Ev} (b : bool) (e : Ev) (s : St) (Q : unit → St → list Ev → Prop) :
  Q tt s (if b then [e] else []) → wp (when b (emit e)) s Q.
Proof. by destruct b. Qed.

Section facts.
Context {T : Type} `{!OrderedTree T}.
Implicit Types r : BReactor T.

(** The running timers are in the tree, the expired ones on the list. *)
Record timers_inv (m : gmap positive BSmallTimer) (b : gmap positive BTimer) (t : T) (l : list positive) : Prop := {
  ti_tree : ot_set (λ _, True) compare_timers (timer_key m) t (in_state m TIMER_STATE_RUNNING);
  ti_nodup : NoDup l;
  ti_list : ∀ p, p ∈ l ↔ in_state m TIMER_STATE_EXPIRED p;
  ti_state : ∀ p x, m !! p = Some x → assert_timer x = true;
  ti_heavy : ∀ p x, m !! p = Some x → is_small x = false → is_Some (b !! p);
  ti_time : ∀ p x, m !! p = Some x → state x ≠ TIMER_STATE_INACTIVE → is_time (absTime x)
}.
Definition timers_ok r : Prop := timers_inv (timers r) (btimers r) (timers_tree r) (timers_expired_list r).

(** The entries of the results that are not dispatched yet belong to active
    descriptors, and these know their entry. *)
Record fds_inv (m : gmap positive BFileDescriptor) (results : list epoll_event) (num pos : nat) (ctr : Z) : Prop := {
  fi_results : len results = BSYSTEM_MAX_RESULTS ∧ (num ≤ length results)%nat ∧ (pos ≤ num)%nat;
  fi_entry : ∀ i e p, (pos ≤ i < num)%nat → results !! i = Some e → data_ptr e = Some p →
    ∃ f, active_fd m p f ∧ epoll_returned_ptr f = Some i;
  fi_returned : ∀ p f i, active_fd m p f → epoll_returned_ptr f = Some i →
    (pos ≤ i < num)%nat ∧ ∃ e, results !! i = Some e ∧ data_ptr e = Some p;
  fi_wait : ∀ p f, active_fd m p f → 0 ≤ waitEvents f ≤ 3;
  fi_counter : counts ctr (active_count m)
}.
Definition fds_ok r : Prop :=
  fds_inv (fds r) (epoll_results r) (epoll_results_num r) (epoll_results_pos r) (d_fds_counter r).

(** The limits with a count are on the list. *)
Record limits_inv (m : gmap positive BReactorLimit) (l : list positive) (ctr : Z) : Prop := {
  li_nodup : NoDup l;
  li_list : ∀ p, p ∈ l ↔ ∃ x, m !! p = Some x ∧ 0 < count x;
  li_range : ∀ p x, m !! p = Some x → 0 ≤ count x ≤ INT_MAX ∧ 0 < limit x ≤ INT_MAX;
  li_counter : counts ctr (size m)
}.
Definition limits_ok r : Prop := limits_inv (limits r) (active_limits_list r) (d_limits_ctr r).

Record inv r : Prop := {
  i_jobs : group_inv (pending_jobs r);
  i_timers : timers_ok r;
  i_fds : fds_ok r;
  i_limits : limits_ok r
}.

(** ** Timers *)

Lemma timer_key_eq m p x : m !! p = Some x → timer_key m p = (absTime x, Z.pos p).
Proof. unfold timer_key. by intros ->. Qed.
Lemma timer_key_ext m m' p : m !! p = m' !! p → timer_key m p = timer_key m' p.
Proof. unfold timer_key. by intros ->. Qed.
Lemma timer_key_inj m p q : compare_timers (timer_key m p) (timer_key m q) = 0 → p = q.
Proof. intros E. apply (proj1 (cmp_eq (P := λ _, True) _ _ I I)) in E. unfold timer_key in E. congruence. Qed.

(** What the timer functions may change. *)
Definition set_timers (m : gmap positive BSmallTimer) (t : T) (l : list positive) r : BReactor T :=
  r <| timers := m |> <| timers_tree := t |> <| timers_expired_list := l |>.

Lemma wp_get_timer r p x (Q : BSmallTimer → BReactor T → list call → Prop) :
  timers r !! p = Some x → Q x r [] → wp (get_timer p) r Q.
Proof. unfold wp, get_timer. by intros ->. Qed.
Lemma wp_set_timer r p x g (Q : unit → BReactor T → list call → Prop) :
  timers r !! p = Some x → Q tt (r <| timers := <[p := g x]> (timers r) |>) [] → wp (set_timer p g) r Q.
Proof. intros E H. unfold set_timer. apply wp_bind. by eapply wp_get_timer. Qed.

Lemma wp_tree_insert r p t (Q : Z → BReactor T → list call → Prop) :
  ot_insert compare_timers (timer_key (timers r)) p (timers_tree r) = Some (1, t) →
  Q 1 (r <| timers_tree := t |>) [] → wp (Tree_Insert p) r Q.
Proof. unfold wp, Tree_Insert. by intros ->. Qed.
Lemma wp_tree_remove r p t (Q : unit → BReactor T → list call → Prop) :
  ot_remove p (timers_tree r) = Some t → Q tt (r <| timers_tree := t |>) [] → wp (Tree_Remove p) r Q.
Proof. intros E. eapply wp_update. by rewrite E. Qed.
Lemma wp_tree_first r f (Q : option positive → BReactor T → list call → Prop) :
  ot_first (timers_tree r) = Some f → Q f r [] → wp Tree_GetFirst r Q.
Proof. unfold wp, Tree_GetFirst. by intros ->. Qed.

Lemma state_cases x : assert_timer x = true →
  state x = TIMER_STATE_INACTIVE ∨ state x = TIMER_STATE_RUNNING ∨ state x = TIMER_STATE_EXPIRED.
Proof. unfold assert_timer. rewrite !orb_true_iff, !Z.eqb_eq. tauto. Qed.

Lemma remove_timer_ok r p x : timers_ok r → timers r !! p = Some x →
  wp (BReactor_RemoveSmallTimer p) r (λ _ r' es, es = [] ∧ timers_ok r' ∧
    ∃ t, r' = set_timers (<[p := x <| state := TIMER_STATE_INACTIVE |>]> (timers r)) t
                (list_remove p (timers_expired_list r)) r).
Proof.
  intros [Ht Hn Hl Hs Hh Htm] Ep. pose proof (Hs p x Ep) as Hx.
  destruct states_differ as (Hri & Hei & Hre).
  assert (∀ s, s ≠ TIMER_STATE_INACTIVE → ∀ q,
    in_state (<[p:=x <| state := TIMER_STATE_INACTIVE |>]> (timers r)) s q ↔ q ≠ p ∧ in_state (timers r) s q) as Hin.
  { intros s Hne q. rewrite in_state_insert. cbn. naive_solver. }
  assert (∀ t, ot_set (λ _, True) compare_timers (timer_key (<[p := x <| state := TIMER_STATE_INACTIVE |>]> (timers r))) t
      (in_state (<[p := x <| state := TIMER_STATE_INACTIVE |>]> (timers r)) TIMER_STATE_RUNNING) →
    timers_inv (<[p := x <| state := TIMER_STATE_INACTIVE |>]> (timers r)) (btimers r) t
      (list_remove p (timers_expired_list r))) as Hok.
  { intros t Ht'. split; [done|by apply NoDup_filter| | | |].
    - intros q. by rewrite elem_of_list_remove, Hl, Hin.
    - intros q y [[<- <-]|[Hne Hy]]%lookup_insert_Some; [done|by eapply Hs].
    - intros q y [[<- <-]|[Hne Hy]]%lookup_insert_Some; [exact (Hh p x Ep)|by eapply Hh].
    - intros q y [[<- <-]|[Hne Hy]]%lookup_insert_Some; [done|by eapply Htm]. }
  assert (∀ q, q ≠ p → timer_key (timers r) q =
    timer_key (<[p:=x <| state := TIMER_STATE_INACTIVE |>]> (timers r)) q) as Hkey.
  { intros q Hq. apply timer_key_ext. by rewrite lookup_insert_ne. }
  unfold BReactor_RemoveSmallTimer. wp_step. eapply wp_get_timer; [done|]. wp_step. apply wp_assert; [done|].
  destruct (state_cases x Hx) as [E|[E|E]]; rewrite E.
  - apply wp_ret. split; [done|].
    assert (<[p:=x <| state := TIMER_STATE_INACTIVE |>]> (timers r) = timers r) as Em.
    { apply insert_id. rewrite Ep. f_equal. destruct x; cbn in *. by subst. }
    assert (list_remove p (timers_expired_list r) = timers_expired_list r) as El.
    { apply filter_absent. rewrite Hl. intros (y & ? & ?). congruence. }
    split; [by split|]. exists (timers_tree r). rewrite Em, El. by destruct r.
  - change (TIMER_STATE_RUNNING =? TIMER_STATE_INACTIVE) with false.
    change (TIMER_STATE_RUNNING =? TIMER_STATE_EXPIRED) with false. cbv iota.
    destruct (ot_set_remove _ _ _ (timer_key (<[p:=x <| state := TIMER_STATE_INACTIVE |>]> (timers r))) _ _ _ p Ht (proj2 (in_state_eq _ _ _ _ Ep) E)
      (Hin TIMER_STATE_RUNNING Hri)) as (t' & Et & Ht').
    { intros q [Hq _]%(Hin _ Hri). by apply Hkey. }
    wp_step. eapply wp_tree_remove; [done|]. eapply wp_set_timer; [done|]. cbn.
    assert (list_remove p (timers_expired_list r) = timers_expired_list r) as El.
    { apply filter_absent. rewrite Hl. intros (y & ? & ?). congruence. }
    split_and!; [done| |].
    + unfold timers_ok. cbn. rewrite <- El. by apply Hok.
    + exists t'. rewrite El. by destruct r.
  - change (TIMER_STATE_EXPIRED =? TIMER_STATE_INACTIVE) with false. rewrite Z.eqb_refl.
    wp_step. wp_step. eapply wp_set_timer; [done|]. cbn.
    split_and!; [done| |by exists (timers_tree r); destruct r].
    apply Hok. eapply ot_set_ext; [exact Ht|..].
    + intros q. rewrite Hin by done. split; [tauto|]. intros Hq. split; [|done]. intros ->.
      apply (in_state_eq _ _ _ _ Ep) in Hq. rewrite E in Hq. done.
    + intros q [Hq _]%(Hin _ Hri). by apply Hkey.
Qed.

Lemma timers_same r r' : timers_ok r → timers r' = timers r → btimers r' = btimers r →
  timers_tree r' = timers_tree r → timers_expired_list r' = timers_expired_list r → timers_ok r'.
Proof. unfold timers_ok. by intros ? -> -> -> ->. Qed.

Definition new_time (mode time now : Z) : Z := if mode =? BTIMER_SET_RELATIVE then btime_add now time else time.

Lemma set_timer_ok r p x mode time now : timers_ok r → timers r !! p = Some x →
  mode = BTIMER_SET_ABSOLUTE ∨ mode = BTIMER_SET_RELATIVE → is_time time → is_time now →
  wp (BReactor_SetSmallTimer p mode time now) r (λ _ r' es,
    es = (if mode =? BTIMER_SET_RELATIVE then [btime_gettime now] else []) ∧ timers_ok r' ∧
    ∃ t, r' = set_timers (<[p := x <| absTime := new_time mode time now |> <| state := TIMER_STATE_RUNNING |>]> (timers r))
                t (list_remove p (timers_expired_list r)) r).
Proof.
  intros Hok Ep Hmode Htime Hnow. pose proof (ti_state _ _ _ _ Hok p x Ep) as Hx.
  unfold BReactor_SetSmallTimer. wp_step. eapply wp_get_timer; [done|]. wp_step. apply wp_assert; [done|].
  wp_step. apply wp_assert; [destruct Hmode as [-> | ->]; done|].
  wp_step. eapply wp_mono; [by apply remove_timer_ok|]. intros [] r1 es1 (-> & Hok1 & t & ->).
  set (x1 := x <| state := TIMER_STATE_INACTIVE |>) in *.
  set (x2 := x <| absTime := new_time mode time now |> <| state := TIMER_STATE_RUNNING |>).
  set (m2 := <[p := x2]> (timers r)).
  destruct Hok1 as [Ht Hn Hl Hs Hh Htm]. cbn in Ht, Hn, Hl, Hs, Hh, Htm. destruct states_differ as (Hri & Hei & Hre).
  assert (∀ s q, s ≠ TIMER_STATE_INACTIVE → s ≠ TIMER_STATE_RUNNING →
    in_state m2 s q ↔ in_state (<[p:=x1]> (timers r)) s q) as Hin.
  { intros s q Hs1 Hs2. unfold m2. rewrite !in_state_insert. cbn. naive_solver. }
  destruct (ot_set_insert (λ _, True) compare_timers (timer_key m2) (timer_key m2) t
    (in_state (<[p:=x1]> (timers r)) TIMER_STATE_RUNNING) (in_state m2 TIMER_STATE_RUNNING) p)
    as (t' & Et & Ht'); [|by rewrite in_state_insert; cbn; naive_solver|done| | |done|].
  { eapply ot_set_ext; [exact Ht|done|]. intros q Hq. apply timer_key_ext. unfold m2.
    apply in_state_insert in Hq as [[_ ?]|[? _]]; [done|]. by rewrite !lookup_insert_ne. }
  { intros q Hq E. apply timer_key_inj in E as ->. apply in_state_insert in Hq as [[_ ?]|[? _]]; done. }
  { intros q. unfold m2. rewrite !in_state_insert. cbn. naive_solver. }
  wp_step. apply wp_when_emit. wp_step. eapply wp_set_timer; [cbn; apply lookup_insert_eq|].
  wp_step. eapply wp_set_timer; [cbn; apply lookup_insert_eq|]. cbn -[new_time].
  rewrite !insert_insert_eq. change (if mode =? BTIMER_SET_RELATIVE then btime_add now time else time) with (new_time mode time now).
  wp_step. eapply wp_tree_insert; [exact Et|].
  apply wp_assert; [done|]. rewrite app_nil_r. split_and!; [done| |by exists t'; destruct r].
  change (timers_inv m2 (btimers r) t' (list_remove p (timers_expired_list r))).
  split; [done|done| | | |].
  - intros q. by rewrite Hl, Hin.
  - intros q y [[<- <-]|[Hne Hy]]%lookup_insert_Some; [done|]. apply (Hs q). by rewrite lookup_insert_ne.
  - intros q y [[<- <-]|[Hne Hy]]%lookup_insert_Some.
    + intros Hy. apply (Hh p x1); [by rewrite lookup_insert_eq|done].
    + intros Hq. apply (Hh q y); [by rewrite lookup_insert_ne|done].
  - intros q y [[<- <-]|[Hne Hy]]%lookup_insert_Some.
    + intros _. cbn -[new_time]. unfold new_time. destruct (_ =? _); [by apply btime_add_time|done].
    + apply (Htm q y). by rewrite lookup_insert_ne.
Qed.

(** ** Timers that expire *)

Definition running r (p : positive) (x : BSmallTimer) : Prop :=
  timers r !! p = Some x ∧ state x = TIMER_STATE_RUNNING.
(** The nodes of the tree, in order. *)
Definition running_list r (l : list positive) : Prop :=
  ot_holds (λ _, True) compare_timers (timer_key (timers r)) (timers_tree r) l ∧
  ∀ p, p ∈ l ↔ in_state (timers r) TIMER_STATE_RUNNING p.

Definition timer_before r (p q : positive) : Prop :=
  compare_timers (timer_key (timers r) p) (timer_key (timers r) q) = -1.
Definition expire_until (now : Z) (x : BSmallTimer) : BSmallTimer :=
  if (state x =? TIMER_STATE_RUNNING) && (absTime x <=? now) then x <| state := TIMER_STATE_EXPIRED |> else x.
(** All timers up to the time [now] expire, in the order of their times: [la]. *)
Definition expired_upto (now : Z) (la : list positive) r r' : Prop :=
  (∃ t, r' = set_timers (expire_until now <$> timers r) t (timers_expired_list r ++ la) r) ∧
  (∀ p, p ∈ la ↔ ∃ x, running r p x ∧ absTime x ≤ now) ∧
  StronglySorted (timer_before r) la ∧ (la = [] → r' = r).

Lemma running_first r l : timers_ok r → running_list r l →
  ot_first (timers_tree r) = Some (head l) ∧
  match l with
  | [] => ∀ q y, ¬ running r q y
  | p :: l => ∃ x, running r p x ∧ Forall (timer_before r p) l ∧ ∀ q y, running r q y → absTime x ≤ absTime y
  end.
Proof.
  intros Hok [Hl Hin]. rewrite (ot_first_spec _ _ _ _ _ Hl). split; [done|].
  pose proof (ot_sorted _ _ _ _ _ Hl) as Hs. destruct l as [|p l].
  - intros q y [Hq Hy]. assert (q ∈ []) as H by (apply Hin; by exists y). by apply elem_of_nil in H.
  - destruct (proj1 (Hin p)) as (x & Hx & Ex); [left|]. exists x. split; [done|].
    apply StronglySorted_inv in Hs as [_ Hs]. split; [done|]. intros q y [Hq Hy].
    assert (q ∈ p :: l) as [->|Hql]%elem_of_cons by (apply Hin; by exists y); [by simplify_eq|].
    rewrite Forall_forall in Hs. specialize (Hs q Hql). apply compare_pairs_lt in Hs.
    rewrite (timer_key_eq _ _ _ Hx), (timer_key_eq _ _ _ Hq) in Hs. cbn in Hs. lia.
Qed.

Lemma expire_ok r p l x : timers_ok r → running_list r (p :: l) → running r p x →
  wp (expire p) r (λ _ r' es, es = [] ∧ timers_ok r' ∧ running_list r' l ∧
    ∃ t, r' = set_timers (<[p := x <| state := TIMER_STATE_EXPIRED |>]> (timers r)) t (timers_expired_list r ++ [p]) r).
Proof.
  intros [Ht Hn Hl Hs Hh Htm] [Htl Hin] [Ep Ex]. destruct states_differ as (Hri & Hei & Hre).
  destruct (ot_remove_spec _ _ _ _ _ p Htl) as (t & l1 & l2 & Et & El & Ht'); [left|].
  pose proof (ot_nodup _ _ _ _ _ Htl) as Hnd. pose proof Hnd as [Hpl Hndl]%NoDup_cons.
  destruct l1 as [|? l1]; [|cbn in El; injection El as -> ->; destruct Hpl; apply elem_of_app; right; left].
  injection El as ->. cbn in Ht'.
  set (m' := <[p := x <| state := TIMER_STATE_EXPIRED |>]> (timers r)).
  assert (∀ q, q ≠ p → timer_key (timers r) q = timer_key m' q) as Hkey.
  { intros q Hq. apply timer_key_ext. unfold m'. by rewrite lookup_insert_ne. }
  assert (∀ q, q ∈ l2 ↔ in_state m' TIMER_STATE_RUNNING q) as Hin'.
  { intros q. unfold m'. rewrite in_state_insert. cbn. rewrite <- Hin, elem_of_cons.
    split; [|naive_solver]. intros Hq. right. split; [|by right]. by intros ->. }
  assert (ot_holds (λ _, True) compare_timers (timer_key m') t l2) as Htl'.
  { eapply ot_value_ext; [|exact Ht']. intros q Hq. apply Hkey. by intros ->. }
  unfold expire. wp_step. eapply wp_tree_remove; [done|]. wp_step. wp_step.
  eapply wp_set_timer; [done|]. split_and!; [done| |by split|by exists t; destruct r].
  change (timers_inv m' (btimers r) t (timers_expired_list r ++ [p])). split.
  - by exists l2.
  - apply NoDup_app. split_and!; [done| |by apply NoDup_singleton].
    intros q Hq ->%list_elem_of_singleton. apply Hl in Hq as (y & ? & ?). congruence.
  - intros q. unfold m'. rewrite elem_of_app, list_elem_of_singleton, in_state_insert, Hl. cbn.
    split; [|tauto]. intros [Hq|]; [right|by left]. split; [|done]. intros ->.
    destruct Hq as (y & ? & ?). congruence.
  - intros q y [[<- <-]|[Hne Hy]]%lookup_insert_Some; [done|by eapply Hs].
  - intros q y [[<- <-]|[Hne Hy]]%lookup_insert_Some; [exact (Hh p x Ep)|by eapply Hh].
  - intros q y [[<- <-]|[Hne Hy]]%lookup_insert_Some; [|by eapply Htm].
    intros _. apply (Htm p x Ep). congruence.
Qed.

Lemma expire_until_none now r : (∀ q y, running r q y → now < absTime y) → expire_until now <$> timers r = timers r.
Proof.
  intros H. apply map_eq. intros q. rewrite lookup_fmap. destruct (timers r !! q) as [y|] eqn:E; [|done].
  cbn. f_equal. unfold expire_until. destruct (Z.eqb_spec (state y) TIMER_STATE_RUNNING) as [Ey|]; [|done].
  specialize (H q y (conj E Ey)). by rewrite (proj2 (Z.leb_gt _ _)).
Qed.
Lemma upto_nil now r : (∀ q y, running r q y → now < absTime y) → expired_upto now [] r r.
Proof.
  intros H. split_and!; [|intros p|constructor|done].
  - exists (timers_tree r). rewrite expire_until_none, app_nil_r by done. by destruct r.
  - rewrite elem_of_nil. split; [done|]. intros (x & Hx & ?). specialize (H _ _ Hx). lia.
Qed.
Lemma upto_cons now r r1 r' p x (l la : list positive) t : running r p x → absTime x ≤ now →
  r1 = set_timers (<[p := x <| state := TIMER_STATE_EXPIRED |>]> (timers r)) t (timers_expired_list r ++ [p]) r →
  (∀ q, q ∈ l → timer_before r p q) → (∀ q, q ∈ l ↔ in_state (timers r1) TIMER_STATE_RUNNING q) →
  expired_upto now la r1 r' → expired_upto now (p :: la) r r'.
Proof.
  intros [Ep Ex] Hx Hr1 Hbefore Hl ((t' & ->) & Hla & Hs & _).
  assert (∀ q, timer_key (timers r1) q = timer_key (timers r) q) as Hkey.
  { intros q. unfold timer_key. subst r1. cbn. destruct (decide (q = p)) as [->|].
    - by rewrite lookup_insert_eq, Ep.
    - by rewrite lookup_insert_ne. }
  assert (∀ q y, running r1 q y ↔ q ≠ p ∧ running r q y) as Hrun.
  { intros q y. subst r1. unfold running. cbn. destruct (decide (q = p)) as [->|].
    - rewrite lookup_insert_eq. split; [|tauto]. intros [[= <-] [=]].
    - rewrite lookup_insert_ne by done. tauto. }
  split_and!.
  - exists t'. subst r1. cbn. rewrite <- app_assoc. cbn. unfold set_timers at 1. cbn.
    rewrite fmap_insert.
    change (expire_until now {| handler := _ |}) with (x <| state := TIMER_STATE_EXPIRED |>).
    rewrite insert_id; [done|]. rewrite lookup_fmap, Ep. cbn. unfold expire_until.
    by rewrite Ex, (proj2 (Z.leb_le _ _) Hx).
  - intros q. rewrite elem_of_cons, Hla. setoid_rewrite Hrun. unfold running.
    destruct (decide (q = p)) as [->|]; naive_solver.
  - constructor; [|apply Forall_forall].
    + clear -Hs Hkey. induction Hs as [|q la Hs IH Hq]; constructor; [done|].
      eapply Forall_impl; [done|]. intros z. unfold timer_before. by rewrite !Hkey.
    + intros q (y & Hy%Hrun & _)%Hla. apply Hbefore, Hl. exists y. subst r1. cbn.
      destruct Hy as [Hne [? ?]]. by rewrite lookup_insert_ne.
  - done.
Qed.

(** Both loops expire the same timers. *)
Lemma move_loop_ok now l fuel r moved : (length l < fuel)%nat → timers_ok r → running_list r l →
  wp (move_expired_loop fuel now moved) r (λ b r' es, es = [] ∧ timers_ok r' ∧
    ∃ la, expired_upto now la r r' ∧ b = (moved || negb (bool_decide (la = [])))) ∧
  ((∀ q y, running r q y → now ≤ absTime y) →
   wp (move_first_loop fuel now) r (λ _ r' es, es = [] ∧ timers_ok r' ∧ ∃ la, expired_upto now la r r')).
Proof.
  revert fuel r moved. induction l as [|p l IH]; intros [|fuel] r moved Hf Hok Hrl; cbn [length] in Hf; [lia| |lia|].
  - destruct (running_first r [] Hok Hrl) as [Hfst Hnone]. split; [|intros _]; cbn [move_expired_loop move_first_loop].
    all: wp_step; eapply wp_tree_first; [done|]; apply wp_ret; split_and!; [done..|].
    all: exists []; rewrite ?orb_false_r; cbn; rewrite ?orb_false_r.
    1: split; [|done]. all: apply upto_nil; intros q y Hq; by destruct (Hnone q y).
  - destruct (running_first r (p :: l) Hok Hrl) as [Hfst (x & Hx & Hbefore & Hleast)].
    rewrite Forall_forall in Hbefore.
    destruct (Z.ltb_spec now (absTime x)) as [Hlt|Hle].
    + assert (expired_upto now [] r r) as Hnil by (apply upto_nil; intros q y Hq%Hleast; lia).
      split; [|intros _]; cbn [move_expired_loop move_first_loop].
      all: wp_step; eapply wp_tree_first; [done|]; cbn [head]; wp_step; eapply wp_get_timer; [apply Hx|].
      all: wp_step; apply wp_assert; [apply Z.eqb_eq, Hx|]; try (wp_step; apply wp_assert; [apply Z.leb_le; lia|]).
      all: rewrite (proj2 (Z.ltb_lt _ _) Hlt); apply wp_ret; split_and!; [done..|]; exists [].
      all: cbn; rewrite ?orb_false_r; done.
    + assert (∀ r1 t, running_list r1 l →
        r1 = set_timers (<[p := x <| state := TIMER_STATE_EXPIRED |>]> (timers r)) t (timers_expired_list r ++ [p]) r →
        ∀ la r', expired_upto now la r1 r' → expired_upto now (p :: la) r r') as Hcons.
      { intros r1 t [_ Hin] Hr1 la r' Hla. by eapply upto_cons. }
      split; [|intros Hge]; cbn [move_expired_loop move_first_loop].
      all: wp_step; eapply wp_tree_first; [done|]; cbn [head]; wp_step; eapply wp_get_timer; [apply Hx|].
      all: wp_step; apply wp_assert; [apply Z.eqb_eq, Hx|]; try (wp_step; apply wp_assert; [apply Z.leb_le, (Hge _ _ Hx)|]).
      all: rewrite (proj2 (Z.ltb_ge _ _) Hle); wp_step; eapply wp_mono; [by apply (expire_ok r p l x)|].
      all: intros [] r1 es (-> & Hok1 & Hrl1 & t & Hr1).
      * eapply wp_mono; [apply (IH fuel r1 true); [lia|done..]|].
        intros b r' es (-> & Hok' & la & Hla & ->). split_and!; [done..|]. exists (p :: la).
        split; [by eapply Hcons|]. cbn. by rewrite orb_true_r.
      * eapply wp_mono; [apply (IH fuel r1 true); [lia|done..|]|].
        -- intros q y [Hq Hy]. subst r1. cbn in Hq. apply lookup_insert_Some in Hq as [[_ <-]|[_ Hq]]; [done|].
           by apply (Hge q y).
        -- intros [] r' es (-> & Hok' & la & Hla). split_and!; [done..|]. exists (p :: la). by eapply Hcons.
Qed.

Lemma running_list_exists r : timers_ok r → ∃ l, running_list r l ∧ (length l < S (size (timers r)))%nat.
Proof.
  intros Hok. destruct (ti_tree _ _ _ _ Hok) as (l & Hl & Hin). exists l. split; [by split|].
  pose proof (ot_nodup _ _ _ _ _ Hl) as Hn.
  assert (size (list_to_set l : gset positive) ≤ size (dom (timers r)))%nat as H.
  { apply subseteq_size. intros p [x [Hx _]]%elem_of_list_to_set%Hin. apply elem_of_dom. by eexists. }
  rewrite size_list_to_set, size_dom in H by done. lia.
Qed.

Lemma move_expired_timers_ok now r : timers_ok r →
  wp (move_expired_timers now) r (λ b r' es, es = [] ∧ timers_ok r' ∧
    ∃ la, expired_upto now la r r' ∧ b = negb (bool_decide (la = []))).
Proof.
  intros Hok. destruct (running_list_exists r Hok) as (l & Hl & Hsize).
  unfold move_expired_timers. wp_step. wp_step. by apply (move_loop_ok now l _ r false).
Qed.

(** The first timer, if there is one. *)
Definition first_timer r (o : option positive) : Prop :=
  match o with
  | None => ∀ q y, ¬ running r q y
  | Some p => ∃ x, running r p x ∧ ∀ q y, running r q y → absTime x ≤ absTime y
  end.
Lemma tree_first_ok r : timers_ok r → ∃ o, ot_first (timers_tree r) = Some o ∧ first_timer r o.
Proof.
  intros Hok. destruct (running_list_exists r Hok) as (l & Hl & _).
  destruct (running_first r l Hok Hl) as [Ef H]. exists (head l). split; [done|].
  destruct l; [done|]. destruct H as (x & ? & _ & ?). by exists x.
Qed.

Lemma move_first_timers_ok r p x : timers_ok r → running r p x →
  (∀ q y, running r q y → absTime x ≤ absTime y) →
  wp move_first_timers r (λ _ r' es, es = [] ∧ timers_ok r' ∧
    ∃ la, expired_upto (absTime x) la r r' ∧ la ≠ []).
Proof.
  intros Hok Hp Hleast. destruct (running_list_exists r Hok) as (l & Hl & Hsize).
  destruct (running_first r l Hok Hl) as [Ef H]. destruct l as [|p0 l]; [by destruct (H p x)|].
  destruct H as (x0 & Hx0 & Hbefore & Hleast0). rewrite Forall_forall in Hbefore.
  assert (absTime x0 = absTime x) as Ex by (pose proof (Hleast _ _ Hx0); pose proof (Hleast0 _ _ Hp); lia).
  unfold move_first_timers. wp_step. eapply wp_tree_first; [done|]. cbn [head]. wp_step.
  eapply wp_get_timer; [apply Hx0|]. wp_step. apply wp_assert; [apply Z.eqb_eq, Hx0|]. cbv zeta.
  wp_step. eapply wp_mono; [by apply (expire_ok r p0 l x0)|]. intros [] r1 es (-> & Hok1 & Hl1 & t & Hr1).
  wp_step. wp_step. rewrite Ex. eapply wp_mono; [apply (move_loop_ok (absTime x) l _ _ true); [|done..|]|].
  - subst r1. cbn. rewrite map_size_insert_Some by (by eexists; apply Hx0). cbn [length] in Hsize. lia.
  - intros q y [Hq Hy]. subst r1. cbn in Hq. apply lookup_insert_Some in Hq as [[_ <-]|[_ Hq]]; [done|].
    by apply (Hleast q y).
  - intros [] r' es (-> & Hok' & la & Hla). split_and!; [done..|]. exists (p0 :: la). split; [|done].
    eapply upto_cons; [exact Hx0|lia|exact Hr1|exact Hbefore|apply Hl1|done].
Qed.

(** ** File descriptors *)

Lemma wp_get_fd r p f (Q : BFileDescriptor → BReactor T → list call → Prop) :
  fds r !! p = Some f → Q f r [] → wp (get_fd p) r Q.
Proof. unfold wp, get_fd. by intros ->. Qed.
Lemma wp_set_fd r p f g (Q : unit → BReactor T → list call → Prop) :
  fds r !! p = Some f → Q tt (r <| fds := <[p := g f]> (fds r) |>) [] → wp (set_fd p g) r Q.
Proof. intros E H. unfold set_fd. apply wp_bind. by eapply wp_get_fd. Qed.


Lemma init_fd_inv m results num pos ctr p f : fds_inv m results num pos ctr →
  (∀ g, ¬ active_fd m p g) → active f = false → fds_inv (<[p := f]> m) results num pos ctr.
Proof.
  intros [Hr He Hret Hw Hc] Hp Hf. split; [done| | | |].
  - intros i e q Hi Hie Hq. destruct (He i e q Hi Hie Hq) as (g & Hg & ?). exists g. split; [|done].
    apply active_fd_insert. right. split; [|done]. intros ->. by apply (Hp g).
  - intros q g i [(_ & -> & ?)|[_ Hg]]%active_fd_insert; [congruence|by apply Hret].
  - intros q g [(_ & -> & ?)|[_ Hg]]%active_fd_insert; [congruence|by eapply Hw].
  - rewrite active_count_same; [done|]. split; [|congruence]. intros (g & ?). by destruct (Hp g).
Qed.

Lemma add_fd_ok r p f ok : fds_ok r → fds r !! p = Some f → active f = false →
  wp (BReactor_AddFileDescriptor p ok) r (λ _ r' es, es = [epoll_ctl_add (fd f) p 0 ok] ∧ fds_ok r' ∧
    if ok then ∃ c, r' = r <| fds := <[p := f <| epoll_returned_ptr := None |> <| active := true |> <| waitEvents := 0 |>]> (fds r) |>
                           <| d_fds_counter := c |>
    else r' = r).
Proof.
  intros [Hr He Hret Hw Hc] Ep Ef. unfold BReactor_AddFileDescriptor.
  wp_step. eapply wp_get_fd; [done|]. wp_step. apply wp_assert; [by rewrite Ef|]. wp_step. wp_step.
  destruct ok; cbn [negb]; [|by apply wp_ret; split_and!; [|split|]].
  wp_step. eapply wp_set_fd; [done|]. wp_step. eapply wp_set_fd; [cbn; apply lookup_insert_eq|].
  cbn. rewrite insert_insert_eq. wp_step.
  assert (∀ g, ¬ active_fd (fds r) p g) as Hp by (intros g []; congruence).
  destruct (counter_increment_ok _ _ Hc) as (c & Ec & Hc'). eapply wp_update; [cbn; by rewrite Ec|].
  apply wp_ret. split_and!; [done| |by exists c; destruct r]. split; cbn; [done| | | |].
  - intros i e q Hi Hie Hq. destruct (He i e q Hi Hie Hq) as (g & Hg & ?). exists g. split; [|done].
    apply active_fd_insert. right. split; [|done]. intros ->. by apply (Hp g).
  - intros q g i [(_ & -> & ?)|[_ Hg]]%active_fd_insert; [done|by apply Hret].
  - intros q g [(_ & -> & ?)|[_ Hg]]%active_fd_insert; [cbn; lia|by eapply Hw].
  - by rewrite active_count_on.
Qed.

(** The results once the descriptor that knows the entry [o] is removed. *)
Definition cleared (o : option nat) (results : list epoll_event) : list epoll_event :=
  match o with
  | Some i => alter (λ e, e <| data_ptr := None |>) i results
  | None => results
  end.
Lemma lookup_cleared o results i e : cleared o results !! i = Some e →
  ∃ e', results !! i = Some e' ∧ events e = events e' ∧
    (data_ptr e = None ∨ (o ≠ Some i ∧ data_ptr e = data_ptr e')).
Proof.
  destruct o as [j|]; cbn; [|naive_solver]. destruct (decide (i = j)) as [->|Hne].
  - rewrite list_lookup_alter_eq. intros (e' & ? & ->)%fmap_Some. exists e'. cbn. tauto.
  - rewrite list_lookup_alter_ne by done. intros ?. exists e. split_and!; [done..|]. right. split; congruence.
Qed.
Lemma cleared_lookup o results i e : results !! i = Some e → o ≠ Some i → cleared o results !! i = Some e.
Proof. destruct o as [j|]; cbn; [|done]. intros ??. rewrite list_lookup_alter_ne; congruence. Qed.

Lemma remove_fd_ok r p f : fds_ok r → active_fd (fds r) p f →
  wp (BReactor_RemoveFileDescriptor p true) r (λ _ r' es, es = [epoll_ctl_del (fd f)] ∧ fds_ok r' ∧
    ∃ c, r' = r <| fds := <[p := f <| active := false |>]> (fds r) |> <| d_fds_counter := c |>
                <| epoll_results := cleared (epoll_returned_ptr f) (epoll_results r) |>).
Proof.
  intros [Hr He Hret Hw Hc] Hp. pose proof Hp as [Ep Ef]. unfold BReactor_RemoveFileDescriptor.
  wp_step. eapply wp_get_fd; [done|]. wp_step. apply wp_assert; [done|].
  set (m' := <[p := f <| active := false |>]> (fds r)).
  rewrite (active_count_off _ p (f <| active := false |>) f Hp) in Hc by done.
  destruct (counter_decrement_ok _ _ Hc) as (c & Ec & Hc').
  wp_step. eapply wp_update; [by rewrite Ec|]. wp_step. eapply wp_set_fd; [done|].
  wp_step. wp_step. wp_step. apply wp_assert; [done|].
  assert (wp (match epoll_returned_ptr f with Some i => clear_result i | None => mret tt end)
    (r <| fds := m' |> <| d_fds_counter := c |>) (λ _ r' es, es = [] ∧
      r' = r <| fds := m' |> <| d_fds_counter := c |>
             <| epoll_results := cleared (epoll_returned_ptr f) (epoll_results r) |>)) as H.
  { destruct (epoll_returned_ptr f) as [i|] eqn:Ei; [|apply wp_ret; by destruct r].
    destruct (Hret p f i Hp Ei) as (_ & e & Hie & _). unfold clear_result.
    eapply wp_update; [cbn; rewrite Hie; done|]. split; [done|]. cbn. f_equal.
    apply list_eq. intros j. destruct (decide (j = i)) as [->|].
    - rewrite list_lookup_alter_eq, list_lookup_insert_eq by by eapply lookup_lt_Some. by rewrite Hie.
    - by rewrite list_lookup_alter_ne, list_lookup_insert_ne. }
  eapply wp_mono; [exact H|]. intros [] r' es (-> & ->). split_and!; [done| |by exists c]. clear H. split; cbn.
  - destruct (epoll_returned_ptr f); cbn; unfold len; by rewrite ?length_alter.
  - intros i e q Hi (e' & Hie & _ & [|[Hne Hd]])%lookup_cleared Hq; [congruence|]. rewrite Hq in Hd.
    destruct (He i e' q Hi Hie (eq_sym Hd)) as (g & Hg & Hgi). exists g. split; [|done].
    apply active_fd_insert. right. split; [|done]. intros ->. destruct Hg, Hp. congruence.
  - intros q g i [(_ & -> & [=])|[Hne Hg]]%active_fd_insert Hgi.
    destruct (Hret q g i Hg Hgi) as (Hi & e & Hie & He'). split; [done|]. exists e. split; [|done].
    apply cleared_lookup; [done|]. intros Hfi. destruct (Hret p f i Hp Hfi) as (_ & e2 & He2 & ?). congruence.
  - intros q g [(_ & -> & [=])|[_ Hg]]%active_fd_insert. by eapply Hw.
  - done.
Qed.

Definition epoll_mask (evs : Z) : Z :=
  Z.lor (if has evs BREACTOR_READ then EPOLLIN else 0) (if has evs BREACTOR_WRITE then EPOLLOUT else 0).

Lemma update_fd_inv m results num pos ctr p f f' : fds_inv m results num pos ctr → active_fd m p f →
  active f' = true → epoll_returned_ptr f' = epoll_returned_ptr f → 0 ≤ waitEvents f' ≤ 3 →
  fds_inv (<[p := f']> m) results num pos ctr.
Proof.
  intros [Hr He Hret Hw Hc] Hp Hf Eret Hwait. split; [done| | | |].
  - intros i e q Hi Hie Hq. destruct (He i e q Hi Hie Hq) as (g & Hg & Hgi). destruct (decide (q = p)) as [->|].
    + exists f'. split; [by apply active_fd_insert; left|]. destruct Hg, Hp. congruence.
    + exists g. split; [|done]. apply active_fd_insert. by right.
  - intros q g i [(-> & -> & _)|[_ Hg]]%active_fd_insert; [|by apply Hret].
    rewrite Eret. by apply Hret.
  - intros q g [(_ & -> & ?)|[_ Hg]]%active_fd_insert; [done|by eapply Hw].
  - rewrite active_count_same; [done|]. split; [done|eauto].
Qed.

Lemma set_fd_events_ok r p f evs : fds_ok r → active_fd (fds r) p f → 0 ≤ evs ≤ 3 →
  wp (BReactor_SetFileDescriptorEvents p evs true) r (λ _ r' es, fds_ok r' ∧
    es = (if waitEvents f =? evs then [] else [epoll_ctl_mod (fd f) p (epoll_mask evs)]) ∧
    r' = r <| fds := <[p := f <| waitEvents := evs |>]> (fds r) |>).
Proof.
  intros Hok Hp Hevs. pose proof Hp as [Ep Ef]. unfold BReactor_SetFileDescriptorEvents.
  wp_step. eapply wp_get_fd; [done|]. wp_step. apply wp_assert; [done|].
  wp_step. apply wp_assert.
  { assert (evs = 0 ∨ evs = 1 ∨ evs = 2 ∨ evs = 3) as [->|[->|[->| ->]]] by lia; done. }
  destruct (Z.eqb_spec (waitEvents f) evs) as [E|E].
  - apply wp_ret. split_and!; [done..|]. rewrite insert_id; [by destruct r|]. rewrite Ep. f_equal.
    destruct f; cbn in *. by subst.
  - wp_step. wp_step. wp_step. apply wp_assert; [done|]. eapply wp_set_fd; [done|].
    split_and!; [by eapply update_fd_inv| |done].
    cbn. unfold epoll_mask. by destruct (has evs BREACTOR_READ), (has evs BREACTOR_WRITE).
Qed.

Lemma dispatch_fd_ok r : fds_ok r → (epoll_results_pos r < epoll_results_num r)%nat →
  ∃ e, epoll_results r !! epoll_results_pos r = Some e ∧
    wp dispatch_fd r (λ b r' es, fds_ok r' ∧
      match data_ptr e with
      | None => b = Continued ∧ es = [] ∧ r' = r <| epoll_results_pos := S (epoll_results_pos r) |>
      | Some p => ∃ f, active_fd (fds r) p f ∧ epoll_returned_ptr f = Some (epoll_results_pos r) ∧
          r' = r <| epoll_results_pos := S (epoll_results_pos r) |>
                 <| fds := <[p := f <| epoll_returned_ptr := None |>]> (fds r) |> ∧
          let evs := report_events (waitEvents f) (events e) in
          if evs =? 0 then b = Continued ∧ es = []
          else b = Called ∧ es = [Call_fd p (fd_handler f) (fd_user f) evs]
      end).
Proof.
  intros [Hr He Hret Hw Hc] Hpos. destruct (lookup_lt_is_Some_2 (epoll_results r) (epoll_results_pos r)) as [e Ee]; [lia|].
  exists e. split; [done|]. unfold dispatch_fd. wp_step. wp_step. rewrite Ee. wp_step. wp_step.
  destruct (data_ptr e) as [p|] eqn:Ed.
  - destruct (He _ _ _ (conj (le_n _) Hpos) Ee Ed) as (f & Hf & Hi). pose proof Hf as [Ep Ef].
    wp_step. eapply wp_get_fd; [done|]. wp_step. apply wp_assert; [done|].
    wp_step. apply wp_assert; [by rewrite Hi, bool_decide_eq_true_2|].
    wp_step. eapply wp_set_fd; [done|]. cbv zeta.
    assert (fds_inv (<[p := f <| epoll_returned_ptr := None |>]> (fds r)) (epoll_results r) (epoll_results_num r)
      (S (epoll_results_pos r)) (d_fds_counter r)) as Hok'.
    { split.
      - destruct Hr as (? & ? & ?). lia.
      - intros i e' q Hin Hie Hq. destruct (He i e' q ltac:(lia) Hie Hq) as (g & Hg & Hgi). exists g. split; [|done].
        apply active_fd_insert. right. split; [|done]. intros ->. destruct Hg as [Eg _].
        assert (f = g) as <- by congruence. rewrite Hi in Hgi. injection Hgi. lia.
      - intros q g i [(_ & -> & _)|[Hne Hg]]%active_fd_insert Hgi; [done|].
        destruct (Hret q g i Hg Hgi) as (Hin & e' & Hie & Hd'). split; [|by exists e'].
        assert (i ≠ epoll_results_pos r); [|lia]. intros ->. congruence.
      - intros q g [(_ & -> & ?)|[_ Hg]]%active_fd_insert; [by apply (Hw p f)|by eapply Hw].
      - rewrite active_count_same; [done|]. split; [done|eauto]. }
    destruct (report_events (waitEvents f) (events e) =? 0) eqn:Eev.
    + apply wp_ret. split; [exact Hok'|]. exists f. rewrite Eev. by split_and!.
    + wp_step. wp_step. apply wp_ret. split; [exact Hok'|]. exists f. rewrite Eev. by split_and!.
  - apply wp_ret. split; [|done]. split; cbn.
    + destruct Hr as (? & ? & ?). lia.
    + intros i e' q Hin. apply He. lia.
    + intros q g i Hg Hgi. destruct (Hret q g i Hg Hgi) as (Hin & e' & Hie & Hd'). split; [|by exists e'].
      assert (i ≠ epoll_results_pos r); [|lia]. intros ->. congruence.
    + done.
    + done.
Qed.

(** *** New results *)

Fixpoint set_pointers (i : nat) (l : list (positive * Z)) (m : gmap positive BFileDescriptor) :=
  match l with
  | [] => m
  | (p, _) :: l => set_pointers (S i) l (alter (λ f, f <| epoll_returned_ptr := Some i |>) p m)
  end.
Lemma set_pointers_other i l m p : p ∉ l.*1 → set_pointers i l m !! p = m !! p.
Proof.
  revert i m. induction l as [|[q e] l IH]; intros i m Hp; [done|]. cbn in *.
  apply not_elem_of_cons in Hp as [Hne Hp]. by rewrite IH, lookup_alter_ne.
Qed.
Lemma set_pointers_at i l m k p e : NoDup l.*1 → l !! k = Some (p, e) →
  set_pointers i l m !! p = (λ f, f <| epoll_returned_ptr := Some (i + k)%nat |>) <$> m !! p.
Proof.
  revert i m k. induction l as [|[q e'] l IH]; intros i m k Hn Hk; [done|]. cbn in *.
  apply NoDup_cons in Hn as [Hq Hn]. destruct k as [|k]; cbn in Hk.
  - injection Hk as -> ->. rewrite set_pointers_other, lookup_alter_eq, Nat.add_0_r by done. done.
  - rewrite (IH _ _ k) by done. replace (S i + k)%nat with (i + S k)%nat by lia. f_equal. apply lookup_alter_ne.
    intros ->. apply Hq, list_elem_of_fmap. exists (p, e). split; [done|]. by eapply list_elem_of_lookup_2.
Qed.

Lemma set_pointers_loop_ok r i l : NoDup l.*1 →
  (∀ k p e, l !! k = Some (p, e) → epoll_results r !! (i + k)%nat = Some (MkEvent (Some p) e) ∧
    ∃ f, active_fd (fds r) p f ∧ epoll_returned_ptr f = None) →
  wp (set_epoll_fd_pointers_loop i (length l)) r (λ _ r' es, es = [] ∧ r' = r <| fds := set_pointers i l (fds r) |>).
Proof.
  revert r i. induction l as [|[p e] l IH]; intros r i Hn Hl; cbn [set_epoll_fd_pointers_loop length].
  - apply wp_ret. split; [done|]. by destruct r.
  - cbn in Hn. apply NoDup_cons in Hn as [Hp Hn]. destruct (Hl 0%nat p e eq_refl) as (Ei & f & [Ep Ef] & Er).
    rewrite Nat.add_0_r in Ei. wp_step. unfold set_epoll_fd_pointers_at. wp_step. wp_step. rewrite Ei.
    wp_step. eapply wp_get_fd; [done|]. wp_step. apply wp_assert; [done|]. wp_step.
    apply wp_assert; [by rewrite Er|]. eapply wp_set_fd; [done|].
    assert (<[p := f <| epoll_returned_ptr := Some i |>]> (fds r) =
      alter (λ f, f <| epoll_returned_ptr := Some i |>) p (fds r)) as ->.
    { apply map_eq. intros q. destruct (decide (q = p)) as [->|].
      - by rewrite lookup_insert_eq, lookup_alter_eq, Ep.
      - by rewrite lookup_insert_ne, lookup_alter_ne. }
    eapply wp_mono; [apply IH; [done|]|].
    + intros k q e' Hk. destruct (Hl (S k) q e' Hk) as (Ei' & g & [Eg Hg] & Erg). cbn.
      replace (i + S k)%nat with (S (i + k)) in Ei' by lia. split; [done|]. exists g. split; [|done].
      split; [|done]. rewrite lookup_alter_ne; [done|]. intros ->. apply Hp, list_elem_of_fmap.
      exists (q, e'). split; [done|]. by eapply list_elem_of_lookup_2.
    + intros [] r' es (-> & ->). split; [done|]. by destruct r.
Qed.

Lemma clear_results_inv m results num ctr : fds_inv m results num num ctr → fds_inv m results 0 0 ctr.
Proof.
  intros [Hr He Hret Hw Hc]. split; [split_and!; [apply Hr|lia..]|intros; lia| |done..].
  intros p f i Hp Hi. destruct (Hret p f i Hp Hi). lia.
Qed.

(** What [epoll_wait] returns: different active descriptors. *)
Definition results_ok (m : gmap positive BFileDescriptor) (l : list (positive * Z)) : Prop :=
  NoDup l.*1 ∧ len l ≤ BSYSTEM_MAX_RESULTS ∧ ∀ p e, (p, e) ∈ l → ∃ f, active_fd m p f.

Lemma lookup_store l old k p e : l !! k = Some (p, e) → store_results l old !! k = Some (MkEvent (Some p) e).
Proof.
  intros Hk. unfold store_results. rewrite lookup_app_l.
  - by rewrite list_lookup_fmap, Hk.
  - rewrite length_fmap. by eapply lookup_lt_Some.
Qed.

Lemma new_results_inv m results l ctr : fds_inv m results 0 0 ctr → results_ok m l →
  fds_inv (set_pointers 0 l m) (store_results l results) (length l) 0 ctr.
Proof.
  intros [(Hlen & _) _ Hret Hw Hc] (Hn & Hl & Hact). unfold len, BSYSTEM_MAX_RESULTS in *.
  assert (∀ p g, active_fd (set_pointers 0 l m) p g → ∃ f, active_fd m p f ∧ waitEvents g = waitEvents f ∧
    match epoll_returned_ptr g with Some i => ∃ e, l !! i = Some (p, e) | None => True end) as Hinv.
  { intros p g [Eg Hg]. destruct (decide (p ∈ l.*1)) as [Hp|Hp].
    - apply list_elem_of_fmap in Hp as ([q e] & -> & [k Hk]%list_elem_of_lookup_1).
      cbn in Eg. rewrite (set_pointers_at 0 l m k q e Hn Hk) in Eg. apply fmap_Some in Eg as (f & Ef & ->). cbn in *.
      exists f. split_and!; [done..|by exists e].
    - rewrite set_pointers_other in Eg by done. exists g. split_and!; [done..|].
      destruct (epoll_returned_ptr g) as [i|] eqn:Ei; [|done]. destruct (Hret p g i (conj Eg Hg) Ei). lia. }
  split.
  - assert (length (store_results l results) = length results) as El.
    { unfold store_results. rewrite length_app, length_map, length_drop. lia. }
    unfold len, BSYSTEM_MAX_RESULTS. rewrite El. split_and!; lia.
  - intros i e p Hi Hie Hp. destruct (lookup_lt_is_Some_2 l i) as [[q e'] Hq]; [lia|].
    rewrite (lookup_store _ _ _ _ _ Hq) in Hie. injection Hie as <-. cbn in Hp. injection Hp as ->.
    destruct (Hact p e') as (f & Ep & Ef); [by eapply list_elem_of_lookup_2|].
    exists (f <| epoll_returned_ptr := Some i |>). split; [|done]. split; [|done].
    by rewrite (set_pointers_at 0 l m i p e'), Ep.
  - intros p g i Hg Hgi. destruct (Hinv p g Hg) as (f & _ & _ & H). rewrite Hgi in H. destruct H as (e & He).
    split; [apply lookup_lt_Some in He; lia|]. eexists. by rewrite (lookup_store _ _ _ _ _ He).
  - intros p g (f & Hf & -> & _)%Hinv. by eapply Hw.
  - replace (active_count (set_pointers 0 l m)) with (active_count m); [done|]. unfold active_count.
    assert (∀ p, is_Some (filter (λ f, active f.2 = true) (set_pointers 0 l m) !! p) ↔
      is_Some (filter (λ f, active f.2 = true) m !! p)) as Hdom.
    { intros p. unfold is_Some. setoid_rewrite map_lookup_filter_Some. split.
      - intros (g & Hg). destruct (Hinv p g Hg) as (f & Hf & _). by exists f.
      - intros (f & Ep & Ef). destruct (decide (p ∈ l.*1)) as [Hp|Hp].
        + apply list_elem_of_fmap in Hp as ([q e] & -> & [k Hk]%list_elem_of_lookup_1).
          cbn in *. eexists. by rewrite (set_pointers_at 0 l m k q e Hn Hk), Ep.
        + exists f. by rewrite set_pointers_other. }
    rewrite <- !size_dom. f_equal. apply set_eq. intros p. by rewrite !elem_of_dom, Hdom.
Qed.

(** ** Limits *)

Lemma wp_get_limit r p x (Q : BReactorLimit → BReactor T → list call → Prop) :
  limits r !! p = Some x → Q x r [] → wp (get_limit p) r Q.
Proof. unfold wp, get_limit. by intros ->. Qed.
Lemma wp_set_limit r p x g (Q : unit → BReactor T → list call → Prop) :
  limits r !! p = Some x → Q tt (r <| limits := <[p := g x]> (limits r) |>) [] → wp (set_limit p g) r Q.
Proof. intros E H. unfold set_limit. apply wp_bind. by eapply wp_get_limit. Qed.

Definition counting (m : gmap positive BReactorLimit) (p : positive) : Prop := ∃ x, m !! p = Some x ∧ 0 < count x.
Lemma counting_insert m p x q : counting (<[p := x]> m) q ↔ (q = p ∧ 0 < count x) ∨ (q ≠ p ∧ counting m q).
Proof.
  unfold counting. destruct (decide (q = p)) as [->|].
  - rewrite lookup_insert_eq. naive_solver.
  - rewrite lookup_insert_ne by done. naive_solver.
Qed.

Lemma reset_limits_loop_ok r l : active_limits_list r = l → limits_ok r →
  wp (reset_limits_loop (S (length l))) r (λ _ r' es, es = [] ∧ limits_ok r' ∧
    r' = r <| limits := (λ x, x <| count := 0 |>) <$> limits r |> <| active_limits_list := [] |>).
Proof.
  revert r. induction l as [|o l IH]; intros r Hl [Hn Hin Hr Hc]; rewrite Hl in *; cbn [reset_limits_loop length].
  - wp_step. wp_step. rewrite Hl. apply wp_ret.
    assert ((λ x, x <| count := 0 |>) <$> limits r = limits r) as E.
    { apply map_eq. intros p. rewrite lookup_fmap. destruct (limits r !! p) as [x|] eqn:Ep; [|done]. cbn. f_equal.
      assert (count x = 0); [|destruct x; cbn in *; by subst]. pose proof (Hr p x Ep).
      destruct (decide (0 < count x)); [|lia]. assert (p ∈ []) as Hp by (apply Hin; eauto).
      by apply elem_of_nil in Hp. }
    split_and!; [done|split; by rewrite ?Hl|]. rewrite E. destruct r; cbn in *. by subst.
  - destruct (proj1 (Hin o)) as (x & Eo & Hx); [left|].
    wp_step. wp_step. rewrite Hl. wp_step. eapply wp_get_limit; [done|].
    wp_step. apply wp_assert; [by apply Z.ltb_lt|]. wp_step. eapply wp_set_limit; [done|]. wp_step. wp_step.
    eapply wp_mono; [apply IH|].
    + cbn. rewrite Hl. by apply list_remove_head.
    + split; cbn -[list_remove]; rewrite ?Hl, ?list_remove_head by done.
      * by apply NoDup_cons in Hn as [_ ?].
      * intros p. change (p ∈ l ↔ counting (<[o := x <| count := 0 |>]> (limits r)) p).
        rewrite counting_insert. cbn. specialize (Hin p). rewrite elem_of_cons in Hin.
        apply NoDup_cons in Hn as [Hn _]. split; [|intros [[_ ?]|[? ?%Hin]]; [lia|tauto]].
        intros Hp. right. split; [by intros ->|]. apply Hin. by right.
      * intros p y [[<- <-]|[_ Hy]]%lookup_insert_Some; [|by eapply Hr]. pose proof (Hr o x Eo). cbn.
        unfold INT_MAX in *. lia.
      * rewrite map_size_insert_Some; [done|by eexists].
    + intros [] r' es (-> & Hok & Hr'). split_and!; [done..|]. rewrite Hr'. cbn. rewrite fmap_insert.
      rewrite insert_id; [by destruct r|]. rewrite lookup_fmap, Eo. by destruct x.
Qed.
Lemma reset_limits_ok r : limits_ok r → wp reset_limits r (λ _ r' es, es = [] ∧ limits_ok r' ∧
  r' = r <| limits := (λ x, x <| count := 0 |>) <$> limits r |> <| active_limits_list := [] |>).
Proof. intros H. unfold reset_limits. wp_step. wp_step. by apply reset_limits_loop_ok. Qed.

(** The other operations on limits. *)
Lemma limit_init_ok r o lim : limits_ok r → limits r !! o = None → 0 < lim ≤ INT_MAX →
  wp (BReactorLimit_Init o lim) r (λ _ r' es, es = [] ∧ limits_ok r' ∧
    ∃ c, r' = r <| limits := <[o := MkLimit lim 0]> (limits r) |> <| d_limits_ctr := c |>).
Proof.
  intros [Hn Hin Hr Hc] Eo Hlim. destruct (counter_increment_ok _ _ Hc) as (c & Ec & Hc').
  unfold BReactorLimit_Init. wp_step. apply wp_assert; [apply Z.ltb_lt, Hlim|]. wp_step. wp_step.
  eapply wp_update; [cbn; by rewrite Ec|]. split_and!; [done| |by exists c; destruct r].
  split; cbn; [done| | |by rewrite map_size_insert_None].
  - intros p. rewrite Hin. change (counting (limits r) p ↔ counting (<[o := MkLimit lim 0]> (limits r)) p).
    rewrite counting_insert. cbn. split; [|intros [[_ ?]|[_ ?]]; [lia|done]].
    intros (x & Hx & Hx'). right. split; [by intros ->; congruence|by exists x].
  - intros p x [[<- <-]|[_ Hx]]%lookup_insert_Some; [cbn; unfold INT_MAX in *; lia|by eapply Hr].
Qed.

Lemma limit_free_ok r o : limits_ok r → is_Some (limits r !! o) →
  wp (BReactorLimit_Free o) r (λ _ r' es, es = [] ∧ limits_ok r' ∧
    ∃ c l, r' = r <| limits := delete o (limits r) |> <| d_limits_ctr := c |> <| active_limits_list := l |>).
Proof.
  intros [Hn Hin Hr Hc] [x Eo].
  assert (size (limits r) = S (size (delete o (limits r)))) as Hsize.
  { rewrite map_size_delete_Some by by eexists. assert (size (limits r) ≠ 0%nat); [|lia].
    intros E%map_size_empty_inv. rewrite E in Eo. by rewrite lookup_empty in Eo. }
  rewrite Hsize in Hc. destruct (counter_decrement_ok _ _ Hc) as (c & Ec & Hc').
  unfold BReactorLimit_Free. wp_step. eapply wp_get_limit; [done|]. wp_step. eapply wp_update; [by rewrite Ec|].
  assert (limits_inv (delete o (limits r)) (list_remove o (active_limits_list r)) c) as Hok.
  { split; [by apply NoDup_filter| | |done].
    - intros p. rewrite elem_of_list_remove, Hin. setoid_rewrite lookup_delete_Some. naive_solver.
    - intros p y [_ Hy]%lookup_delete_Some. by eapply Hr. }
  wp_step. wp_step.
  - wp_step. wp_step. split_and!; [done|exact Hok|]. by exists c, (list_remove o (active_limits_list r)); destruct r.
  - wp_step. split_and!; [done| |by exists c, (active_limits_list r); destruct r].
    assert (list_remove o (active_limits_list r) = active_limits_list r) as E; [|by rewrite E in Hok].
    apply filter_absent. rewrite Hin. intros (y & Hy & ?). assert (x = y) as <- by congruence. bool_to_prop. lia.
Qed.

Lemma limit_increment_ok r o x : limits_ok r → limits r !! o = Some x →
  wp (BReactorLimit_Increment o) r (λ res r' es, es = [] ∧ limits_ok r' ∧
    if limit x <=? count x then res = 0 ∧ r' = r
    else res = 1 ∧ ∃ l, r' = r <| limits := <[o := x <| count := count x + 1 |>]> (limits r) |> <| active_limits_list := l |>).
Proof.
  intros [Hn Hin Hr Hc] Eo. pose proof (Hr o x Eo) as Hx. unfold BReactorLimit_Increment.
  wp_step. eapply wp_get_limit; [done|]. destruct (Z.leb_spec (limit x) (count x)) as [Hle|Hlt]; [by apply wp_ret|].
  wp_step. eapply wp_set_limit; [done|]. wp_step. eapply wp_get_limit; [cbn; apply lookup_insert_eq|].
  set (m' := <[o := x <| count := count x + 1 |>]> (limits r)).
  assert (∀ l, NoDup l → (∀ p, p ∈ l ↔ p = o ∨ p ∈ active_limits_list r) → limits_inv m' l (d_limits_ctr r)) as Hok.
  { intros l Hnl Hl. split; [done| | |by unfold m'; rewrite map_size_insert_Some by by eexists].
    - intros p. rewrite Hl, Hin. change (p = o ∨ counting (limits r) p ↔ counting m' p). unfold m'.
      rewrite counting_insert. cbn. destruct (decide (p = o)); [intuition lia|tauto].
    - intros p y [[<- <-]|[_ Hy]]%lookup_insert_Some; [cbn; lia|by eapply Hr]. }
  wp_step. cbn [count upd]. wp_step.
  - wp_step. apply wp_ret. bool_to_prop. split_and!; [done| |done|by eexists; destruct r].
    apply (Hok (active_limits_list r ++ [o])).
    + apply NoDup_app. split_and!; [done| |apply NoDup_singleton]. intros p Hp ->%list_elem_of_singleton.
      apply Hin in Hp as (y & Hy & ?). assert (x = y) as <- by congruence. lia.
    + intros p. rewrite elem_of_app, list_elem_of_singleton. tauto.
  - apply wp_ret. bool_to_prop. split_and!; [done| |done|by exists (active_limits_list r); destruct r].
    apply (Hok (active_limits_list r)); [done|].
    intros p. split; [by right|]. intros [->|]; [|done]. apply Hin. exists x. split; [done|]. lia.
Qed.

Lemma limit_set_ok r o lim : limits_ok r → is_Some (limits r !! o) → 0 < lim ≤ INT_MAX →
  wp (BReactorLimit_SetLimit o lim) r (λ _ r' es, es = [] ∧ limits_ok r' ∧
    ∃ m, r' = r <| limits := m |>).
Proof.
  intros [Hn Hin Hr Hc] [x Eo] Hlim. unfold BReactorLimit_SetLimit. wp_step.
  apply wp_assert; [apply Z.ltb_lt, Hlim|]. eapply wp_set_limit; [done|]. split_and!; [done| |by eexists].
  split; cbn; [done| | |by rewrite map_size_insert_Some by by eexists].
  - intros p. rewrite Hin. change (counting (limits r) p ↔ counting (<[o := x <| limit := lim |>]> (limits r)) p).
    rewrite counting_insert. cbn. destruct (decide (p = o)) as [->|]; [|tauto].
    split; [intros (y & Hy & ?); left; split; [done|congruence]|intros [[_ ?]|[? _]]; [by exists x|done]].
  - intros p y [[<- <-]|[_ Hy]]%lookup_insert_Some; [cbn; split; [eapply Hr; exact Eo|done]|by eapply Hr].
Qed.

(** ** Waiting *)

(** How long to wait at the time [c]. *)
Definition wait_timeout (timeout_abs : option Z) (c : Z) : Z :=
  match timeout_abs with Some t => Z.min (t - c) INT_MAX | None => -1 end.

(** What is assumed of the answers of [epoll_wait], called first at the time
    [c]: it fails only when it is interrupted, returns results for registered
    descriptors ([ok]), and returns none only after the timeout has passed. *)
Fixpoint answers_ok (ok : list (positive * Z) → Prop) (timeout_abs : option Z) (c : Z)
    (answers : list (wait_answer * Z)) : Prop :=
  match answers with
  | [] => True
  | (answer, later) :: answers =>
      c ≤ later ≤ INT64_MAX ∧
      match answer with
      | Wait_error error => error = EINTR
      | Wait_results [] => is_Some timeout_abs ∧ c + wait_timeout timeout_abs c ≤ later
      | Wait_results l => ok l
      end ∧
      answers_ok ok timeout_abs later answers
  end.

Definition found (answer : wait_answer) : Prop :=
  match answer with Wait_results (_ :: _) => True | _ => False end.
(** The calls made while waiting from the time [c] on: sleeping is exactly until
    the first timer, or until the longest timeout there is, and it ends when
    something is found. *)
Fixpoint sleeps (timeout_abs : option Z) (c : Z) (es : list call) : Prop :=
  match es with
  | [] => True
  | epoll_wait timeout answer later :: es =>
      timeout = wait_timeout timeout_abs c ∧ (∀ t, timeout_abs = Some t → c < t) ∧ c ≤ later ≤ INT64_MAX ∧
      (found answer → es = []) ∧ sleeps timeout_abs later es
  | btime_gettime t :: es => t = c ∧ sleeps timeout_abs c es
  | _ => False
  end.
Definition call_time (c : Z) (e : call) : Z :=
  match e with epoll_wait _ _ t | btime_gettime t => t | _ => c end.
(** The time after some calls. *)
Definition clock_after (c : Z) (es : list call) : Z := fold_left call_time es c.

Definition with_results (l : list (positive * Z)) r : BReactor T :=
  r <| epoll_results := store_results l (epoll_results r) |> <| epoll_results_num := length l |>
    <| fds := set_pointers 0 l (fds r) |>.
(** The ways to wake up: with results, or with the first timers expired. *)
Inductive wakes (timeout_abs : option Z) (c : Z) r : list call → BReactor T → Prop :=
  | wakes_results l es timeout later : results_ok (fds r) l → l ≠ [] →
      wakes timeout_abs c r (es ++ [epoll_wait timeout (Wait_results l) later]) (with_results l r)
  | wakes_timers t la es r' : timeout_abs = Some t → t ≤ clock_after c es → expired_upto t la r r' → la ≠ [] →
      (∀ timeout l later, last es = Some (epoll_wait timeout (Wait_results l) later) → l = []) →
      wakes timeout_abs c r es r'.

Lemma wakes_cons timeout_abs c r e es r' : es ≠ [] → wakes timeout_abs (call_time c e) r es r' →
  wakes timeout_abs c r (e :: es) r'.
Proof.
  intros Hne Hw. revert Hne. destruct Hw as [l es' timeout later Hok Hl|t la es' r1 Ht Hc Hla Hn Hlast]; intros Hne.
  - apply (wakes_results _ _ _ l (e :: es')); done.
  - eapply wakes_timers; [done..|]. intros timeout l later. rewrite last_cons.
    destruct (last es') eqn:E; [|by apply last_None in E]. intros [= ->]. by eapply Hlast.
Qed.

(** The first timer is [p], at the time [t]; no timer if there is no timeout. *)
Definition timeout_ok r (timeout_abs : option Z) : Prop :=
  match timeout_abs with
  | Some t => ∃ p x, running r p x ∧ absTime x = t ∧ ∀ q y, running r q y → t ≤ absTime y
  | None => ∀ q y, ¬ running r q y
  end.

Lemma move_first_wakes r t c es : timers_ok r → timeout_ok r (Some t) → t ≤ clock_after c es →
  (∀ timeout l later, last es = Some (epoll_wait timeout (Wait_results l) later) → l = []) →
  wp (move_first_timers;; mret true) r (λ b r' es', b = true ∧ timers_ok r' ∧ es' = [] ∧ wakes (Some t) c r es r').
Proof.
  intros Hok (p & x & Hp & <- & Hleast) Hc Hlast. wp_step.
  eapply wp_mono; [by apply (move_first_timers_ok r p x)|]. intros [] r' es' (-> & Hok' & la & Hla & Hne).
  apply wp_ret. split_and!; [done..|]. by eapply wakes_timers.
Qed.

Lemma wait_timeout_ok t now : 0 ≤ now → now < t → t ≤ INT64_MAX →
  s32 (if INT_MAX <? t - now then INT_MAX else t - now) = wait_timeout (Some t) now.
Proof.
  unfold INT64_MAX, wait_timeout, INT_MAX. intros. destruct (Z.ltb_spec 2147483647 (t - now)); rewrite s32_small; lia.
Qed.

(** What is left of the loop after a call of [epoll_wait] that did not end it. *)
Definition wait_post timeout_abs c r (b : bool) r' (es : list call) : Prop :=
  sleeps timeout_abs c es ∧ timers_ok r' ∧
  if b then es ≠ [] ∧ fds_ok r' ∧ wakes timeout_abs c r es r' else r' = r.

Lemma sleeps_one timeout_abs c a later : (∀ t, timeout_abs = Some t → c < t) → c ≤ later ≤ INT64_MAX →
  sleeps timeout_abs c [epoll_wait (wait_timeout timeout_abs c) a later].
Proof. intros ? [??]. by split_and!. Qed.
Lemma wait_post_cons timeout_abs c a later r b r' es : (∀ t, timeout_abs = Some t → c < t) →
  c ≤ later ≤ INT64_MAX → (found a → es = []) →
  (es = [] → b = false ∨ (sleeps timeout_abs later [] ∧ fds_ok r' ∧
     wakes timeout_abs c r [epoll_wait (wait_timeout timeout_abs c) a later] r')) →
  (es ≠ [] ∨ b = false → wait_post timeout_abs later r b r' es) → timers_ok r' →
  wait_post timeout_abs c r b r' (epoll_wait (wait_timeout timeout_abs c) a later :: es).
Proof.
  intros Hc Hlater Hfound Hnil Hrest Hok. destruct es as [|e es].
  - destruct (Hnil eq_refl) as [->|(_ & Hf & Hw)].
    + destruct (Hrest (or_intror eq_refl)) as (? & ? & ?). split; [by apply sleeps_one|done].
    + split; [by apply sleeps_one|]. split; [done|]. destruct b; [by split_and!|].
      by destruct (Hrest (or_intror eq_refl)) as (_ & _ & ?).
  - destruct Hrest as (Hs & _ & Hb); [by left|].
    split; [exact (conj eq_refl (conj Hc (conj Hlater (conj Hfound Hs))))|]. split; [done|].
    destruct b; [|done]. destruct Hb as (_ & Hf & Hw). split_and!; [done..|]. by apply wakes_cons.
Qed.

(** The loop ends with results. *)
Lemma found_results_ok r timeout_abs c later l : timers_ok r → fds_ok r →
  epoll_results_num r = 0%nat → epoll_results_pos r = 0%nat → results_ok (fds r) l → l ≠ [] →
  (∀ t, timeout_abs = Some t → c < t) → c ≤ later ≤ INT64_MAX →
  wp (modify (λ r, r <| epoll_results := store_results l (epoll_results r) |> <| epoll_results_num := length l |>);;
      set_epoll_fd_pointers;; mret true) r
    (λ b r' es, wait_post timeout_abs c r b r' (epoll_wait (wait_timeout timeout_abs c) (Wait_results l) later :: es)).
Proof.
  intros Hok Hfds Hnum Hpos Hl Hne Hct Hlater. pose proof Hl as (Hn & _ & Hact).
  wp_step. wp_step. wp_step. unfold set_epoll_fd_pointers. wp_step. wp_step.
  eapply wp_mono; [apply (set_pointers_loop_ok _ 0 l Hn)|].
  - intros k p e Hk. split; [exact (lookup_store l _ k p e Hk)|]. destruct (Hact p e) as (f & Hf).
    { by eapply list_elem_of_lookup_2. }
    exists f. split; [done|]. destruct (epoll_returned_ptr f) as [i|] eqn:Ei; [|done].
    destruct (fi_returned _ _ _ _ _ Hfds p f i Hf Ei) as [? _]. lia.
  - intros [] r' es (-> & ->). apply wp_ret. cbn [app].
    split; [by apply sleeps_one|]. split; [done|]. split; [done|]. split.
    + unfold fds_ok in Hfds. rewrite Hnum, Hpos in Hfds.
      pose proof (new_results_inv _ _ l _ Hfds Hl) as Hinv. unfold fds_ok.
      change (fds_inv (set_pointers 0 l (fds r)) (store_results l (epoll_results r)) (length l)
        (epoll_results_pos r) (d_fds_counter r)). by rewrite Hpos.
    + exact (wakes_results timeout_abs c r l [] _ _ Hl Hne).
Qed.

(** The loop ends because the time of the first timer has come, which the last
    call of [es] tells. *)
Lemma timed_out_ok r t c e : timers_ok r → fds_ok r → timeout_ok r (Some t) → t ≤ call_time c e →
  sleeps (Some t) c [e] → (∀ timeout l later, e = epoll_wait timeout (Wait_results l) later → l = []) →
  wp (move_first_timers;; mret true) r (λ b r' es, wait_post (Some t) c r b r' (e :: es)).
Proof.
  intros Hok Hfds Hto Ht Hs He. eapply wp_mono.
  - apply (move_first_wakes r t c [e]); [done..|]. by intros ??? [= ->%He].
  - intros b r' es (-> & Hok' & -> & Hw). split; [done|]. split; [done|]. split; [done|]. split; [|done].
    inversion Hw as [l es' ?? ? Hl E|t' la es' r1 ? ? Hla]; subst.
    + apply (f_equal last) in E. rewrite last_snoc in E. injection E as E. by destruct (He _ _ _ (eq_sym E)).
    + by destruct Hla as ((t0 & ->) & _).
Qed.

(** The end of a round that found nothing: the loop goes on ([Hloop]) unless the
    time of the first timer has come. *)
Lemma try_again_ok r timeout_abs now later answers : timers_ok r → fds_ok r → timeout_ok r timeout_abs →
  0 ≤ later → (∀ t, timeout_abs = Some t → t ≤ INT64_MAX) →
  (∀ now', answers_ok (results_ok (fds r)) timeout_abs later answers →
    (∀ t, timeout_abs = Some t → now' = later ∧ later < t ≤ INT64_MAX) →
    wp (wait_loop timeout_abs now' answers) r (wait_post timeout_abs later r)) →
  answers_ok (results_ok (fds r)) timeout_abs later answers →
  wp (match timeout_abs with
      | Some t => emit (btime_gettime later);;
                  if t <=? later then move_first_timers;; mret true else wait_loop timeout_abs later answers
      | None => wait_loop timeout_abs now answers
      end) r (λ b r' es, wait_post timeout_abs later r b r' es ∧ (es = [] → b = false)).
Proof.
  intros Hok Hfds Hto H0 Hmax Hloop Hans. destruct timeout_abs as [t|].
  - wp_step. wp_step. destruct (Z.leb_spec t later) as [Hle|Hgt].
    + eapply wp_mono; [by apply (timed_out_ok r t later (btime_gettime later))|]. by intros b r' es H.
    + eapply wp_mono; [apply (Hloop later); [done|]|].
      { intros t' [= <-]. split; [done|]. specialize (Hmax t eq_refl). lia. }
      intros b r' es (Hs & Hok' & Hb). split; [|done]. split; [by split_and!|]. split; [done|].
      destruct b; [|done]. destruct Hb as (Hne & Hf & Hw). split_and!; [done..|]. by apply wakes_cons.
  - eapply wp_mono; [by apply (Hloop now)|].
    intros b r' es H. split; [done|]. intros ->. destruct b; [|done]. by destruct H as (_ & _ & ? & _).
Qed.

Lemma wait_loop_ok r timeout_abs now c answers : timers_ok r → fds_ok r →
  epoll_results_num r = 0%nat → epoll_results_pos r = 0%nat →
  timeout_ok r timeout_abs → answers_ok (results_ok (fds r)) timeout_abs c answers → 0 ≤ c →
  (∀ t, timeout_abs = Some t → now = c ∧ c < t ≤ INT64_MAX) →
  wp (wait_loop timeout_abs now answers) r (wait_post timeout_abs c r).
Proof.
  intros Hok Hfds Hnum Hpos Hto. revert now c. induction answers as [|[a later] answers IH]; intros now c Hans Hc0 Hnow;
    cbn [wait_loop]; [by apply wp_ret; split_and!|].
  destruct Hans as (Hlater & Ha & Hans).
  assert (∀ t, timeout_abs = Some t → c < t) as Hct by (intros t Ht; destruct (Hnow t Ht); lia).
  wp_step. apply wp_assert.
  { destruct timeout_abs as [t|]; [|done]. destruct (Hnow t eq_refl) as [-> ?].
    unfold INT64_MIN, INT64_MAX in *. apply andb_true_iff. rewrite !Z.leb_le. lia. }
  cbv zeta. wp_step. wp_step.
  assert ((if bool_decide (is_Some timeout_abs)
    then s32 (if INT_MAX <? match timeout_abs with Some t => t - now | None => 0 end
              then INT_MAX else match timeout_abs with Some t => t - now | None => 0 end)
    else -1) = wait_timeout timeout_abs c) as ->.
  { destruct timeout_abs as [t|]; [|done]. rewrite bool_decide_eq_true_2 by by eexists.
    destruct (Hnow t eq_refl) as [-> ?]. apply wait_timeout_ok; lia. }
  set (try_again := match timeout_abs with Some t => _ | None => _ end).
  assert (¬ found a → wp try_again r (λ b r' es,
    wait_post timeout_abs c r b r' (epoll_wait (wait_timeout timeout_abs c) a later :: es))) as Htry.
  { intros Hnf. eapply wp_mono; [apply (try_again_ok r timeout_abs now later answers); try done|].
    - lia.
    - intros t Ht. destruct (Hnow t Ht). lia.
    - intros now' H1 H2. by apply (IH now' later); [..|lia|].
    - intros b r' es [H Hb]. apply wait_post_cons; [done..|by intros ?%Hnf| |done|apply H]. intros ->. left. by apply Hb. }
  destruct a as [error|l].
  - subst error. wp_step. apply wp_assert; [done|]. apply Htry. by intros [].
  - assert (timeout_abs = None → l ≠ []) as Hl0 by (intros -> ->; by destruct Ha as [[] _]).
    wp_step. apply wp_assert.
    { destruct timeout_abs; [by rewrite bool_decide_eq_true_2 by eauto; rewrite orb_true_r|].
      destruct l; [by destruct Hl0|]. unfold len. cbn [length]. by rewrite (proj2 (Z.eqb_neq _ 0)) by lia. }
    wp_step. apply wp_assert.
    { apply Z.leb_le. destruct l; [done|]. apply Ha. }
    cbn [app]. destruct (Z.eqb_spec (len l) 0) as [El|El]; cbn [negb].
    + apply len_0_nil in El as ->. destruct Ha as [[t ->] Ha].
      destruct (Hnow t eq_refl) as [-> Ht]. destruct (Z.ltb_spec INT_MAX (t - c)) as [Hlt|Hge].
      * rewrite (proj2 (Z.eqb_neq _ _)) by lia. apply Htry. by intros [].
      * rewrite Z.eqb_refl. unfold wait_timeout in Ha.
        apply (timed_out_ok r t c (epoll_wait (wait_timeout (Some t) c) (Wait_results []) later));
          try done; [|by intros ??? [= _ <- _]].
        cbn. lia.
    + apply found_results_ok; try done; [|by intros ->]. destruct l; [done|exact Ha].
Qed.

(** *** [wait_for_events] *)

Definition without_results r : BReactor T := r <| epoll_results_num := 0%nat |> <| epoll_results_pos := 0%nat |>.
Definition with_limits_reset r : BReactor T :=
  r <| limits := (λ x, x <| count := 0 |>) <$> limits r |> <| active_limits_list := [] |>.

(** The time read at the start, when there is a timer. *)
Definition start_time (timeout_abs : option Z) (c now : Z) : Z := if timeout_abs is Some _ then now else c.
Definition start_calls (timeout_abs : option Z) (now : Z) : list call :=
  if timeout_abs is Some _ then [btime_gettime now] else [].

(** The three outcomes: timers had already expired; [epoll_wait] has been called
    and something was found; it has not returned. *)
Inductive waited (c now : Z) r : bool → BReactor T → list call → Prop :=
  | waited_already t la r' : timeout_ok r (Some t) → t ≤ now →
      expired_upto now la (without_results r) r' → la ≠ [] →
      waited c now r true r' [btime_gettime now]
  | waited_woken timeout_abs r' es : timeout_ok r timeout_abs → es ≠ [] →
      sleeps timeout_abs (start_time timeout_abs c now) es →
      wakes timeout_abs (start_time timeout_abs c now) (without_results r) es r' →
      waited c now r true (with_limits_reset r') (start_calls timeout_abs now ++ es)
  | waited_blocked timeout_abs es : timeout_ok r timeout_abs →
      sleeps timeout_abs (start_time timeout_abs c now) es →
      waited c now r false (without_results r) (start_calls timeout_abs now ++ es).

(** What is assumed of a round at the time [c]. *)
Definition round_env r (c now : Z) (answers : list (wait_answer * Z)) : Prop :=
  c ≤ now ≤ INT64_MAX ∧
  ∀ timeout_abs, timeout_ok r timeout_abs →
    answers_ok (results_ok (fds r)) timeout_abs (start_time timeout_abs c now) answers.

Lemma wakes_frame timeout_abs c r es r' : wakes timeout_abs c r es r' →
  pending_jobs r' = pending_jobs r ∧ limits r' = limits r ∧ active_limits_list r' = active_limits_list r ∧
  d_limits_ctr r' = d_limits_ctr r.
Proof. by intros [|t la es' r1 _ _ ((t' & ->) & _)]. Qed.

Lemma wait_and_reset_ok r timeout_abs now c answers : inv r →
  epoll_results_num r = 0%nat → epoll_results_pos r = 0%nat →
  timeout_ok r timeout_abs → answers_ok (results_ok (fds r)) timeout_abs c answers → 0 ≤ c →
  (∀ t, timeout_abs = Some t → now = c ∧ c < t ≤ INT64_MAX) →
  wp (returned ← wait_loop timeout_abs now answers; when returned reset_limits;; mret returned) r
    (λ b r' es, sleeps timeout_abs c es ∧ if (b : bool) then inv r' ∧ es ≠ [] ∧ ∃ r1, r' = with_limits_reset r1 ∧
      wakes timeout_abs c r es r1 else r' = r).
Proof.
  intros [Hj Ht Hf Hl] Hnum Hpos Hto Hans Hc Hnow. wp_step. eapply wp_mono; [by apply wait_loop_ok|].
  intros b r1 es (Hs & Ht1 & Hb). wp_step. wp_step; subst b.
  - destruct Hb as (Hne & Hf1 & Hw). destruct (wakes_frame _ _ _ _ _ Hw) as (Ej & El & Ea & Ec).
    eapply wp_mono; [apply reset_limits_ok; unfold limits_ok; by rewrite El, Ea, Ec|].
    intros [] r2 es2 (-> & Hl2 & ->). apply wp_ret. rewrite !app_nil_r. split_and!; [done| |done|by exists r1].
    split; [by rewrite <- Ej in Hj|exact Ht1|exact Hf1|exact Hl2].
  - apply wp_ret. by rewrite !app_nil_r.
Qed.

Lemma wait_for_events_ok r c now answers : inv r → jobs (pending_jobs r) = [] → timers_expired_list r = [] →
  epoll_results_pos r = epoll_results_num r → 0 ≤ c → round_env r c now answers →
  wp (wait_for_events now answers) r (λ b r' es, waited c now r b r' es ∧ (b = true → inv r')).
Proof.
  intros [Hj Ht Hf Hl] Ejobs Eexp Epos Hc [Hnow Henv].
  assert (inv (without_results r)) as Hinv.
  { split; [exact Hj|exact Ht| |exact Hl]. unfold fds_ok in *. rewrite Epos in Hf. by eapply clear_results_inv. }
  pose proof (i_timers _ Hinv) as Ht'.
  assert (∀ timeout_abs b r' es, timeout_ok r timeout_abs →
    (sleeps timeout_abs (start_time timeout_abs c now) es ∧ if (b : bool) then inv r' ∧ es ≠ [] ∧
      ∃ r1, r' = with_limits_reset r1 ∧ wakes timeout_abs (start_time timeout_abs c now) (without_results r) es r1
     else r' = without_results r) →
    waited c now r b r' (start_calls timeout_abs now ++ es) ∧ (b = true → inv r')) as Hdone.
  { intros timeout_abs b r' es Hto (Hs & Hb). destruct b.
    - destruct Hb as (Hi & Hne & r1 & -> & Hw). split; [|done]. by apply (waited_woken _ _ _ timeout_abs).
    - subst r'. split; [|done]. by apply waited_blocked. }
  unfold wait_for_events, BPendingGroup_HasJobs. wp_step. wp_step. rewrite Ejobs, Eexp, Epos.
  wp_step. apply wp_assert; [done|]. wp_step. apply wp_assert; [done|]. wp_step. apply wp_assert; [by rewrite bool_decide_eq_true_2|].
  wp_step. wp_step. wp_step. destruct (tree_first_ok _ Ht') as ([p|] & Efst & Hfst);
    (eapply wp_tree_first; [exact Efst|]).
  - destruct Hfst as (x & Hx & Hleast). pose proof Hx as [Ex Hsx].
    assert (timeout_ok r (Some (absTime x))) as Hto by (exists p, x; by split_and!).
    assert (is_time (absTime x)) as Htx.
    { apply (ti_time _ _ _ _ Ht p x Ex). rewrite Hsx. apply states_differ. }
    wp_step. eapply wp_get_timer; [exact Ex|]. wp_step. apply wp_assert; [by apply Z.eqb_eq|]. wp_step. wp_step.
    wp_step. eapply wp_mono; [apply move_expired_timers_ok, Ht'|].
    intros b r1 es (-> & Ht1 & la & Hla & ->).
    assert (inv r1) as Hinv1 by (destruct Hla as ((t' & ->) & _), Hinv; by split).
    destruct (Z.leb_spec (absTime x) now) as [Hle|Hgt].
    + assert (la ≠ []) as Hne.
      { intros ->. destruct Hla as (_ & Hin & _). assert (p ∈ []) as H by (apply Hin; by exists x). by apply elem_of_nil in H. }
      rewrite bool_decide_eq_false_2 by done. apply wp_ret. split; [|done]. by eapply waited_already.
    + assert (la = []) as ->.
      { destruct la as [|q la]; [done|]. destruct Hla as (_ & Hin & _).
        destruct (proj1 (Hin q)) as (y & Hy & ?); [left|]. specialize (Hleast q y Hy). lia. }
      destruct Hla as (_ & _ & _ & Hr1). rewrite Hr1, bool_decide_eq_true_2 by done. cbn [negb].
      wp_step. eapply wp_get_timer; [exact Ex|].
      eapply wp_mono; [apply (wait_and_reset_ok _ (Some (absTime x)) now now); [done..| | |]|].
      * by apply (Henv (Some (absTime x))).
      * lia.
      * intros t [= <-]. split; [done|]. unfold is_time in Htx. lia.
      * intros b r' es H. by apply (Hdone (Some (absTime x))).
  - eapply wp_mono; [apply (wait_and_reset_ok _ None 0 c); [done..|by apply (Henv None)|done|done]|].
    intros b r' es H. by apply (Hdone None).
Qed.

(** ** One round *)

Definition timer_call r (p : positive) (x : BSmallTimer) : option call :=
  if is_small x then Some (Call_small_timer p (handler x))
  else (λ b, Call_timer p (handler x) (timer_user b)) <$> btimers r !! p.

(** Jobs come first, then expired timers, then descriptors; only then the loop
    waits. *)
Inductive round (c now : Z) r : progress → BReactor T → list call → Prop :=
  | round_job j rest g : jobs (pending_jobs r) = j :: rest → jobs g = rest →
      round c now r Called (r <| pending_jobs := g |>) [Call_job j]
  | round_timer p l x e : jobs (pending_jobs r) = [] → timers_expired_list r = p :: l →
      timers r !! p = Some x → state x = TIMER_STATE_EXPIRED → timer_call r p x = Some e →
      round c now r Called (r <| timers_expired_list := l |>
        <| timers := <[p := x <| state := TIMER_STATE_INACTIVE |>]> (timers r) |>) [e]
  | round_removed e : jobs (pending_jobs r) = [] → timers_expired_list r = [] →
      (epoll_results_pos r < epoll_results_num r)%nat →
      epoll_results r !! epoll_results_pos r = Some e → data_ptr e = None →
      round c now r Continued (r <| epoll_results_pos := S (epoll_results_pos r) |>) []
  | round_fd e p f b es : jobs (pending_jobs r) = [] → timers_expired_list r = [] →
      (epoll_results_pos r < epoll_results_num r)%nat →
      epoll_results r !! epoll_results_pos r = Some e → data_ptr e = Some p → active_fd (fds r) p f →
      epoll_returned_ptr f = Some (epoll_results_pos r) →
      (let evs := report_events (waitEvents f) (events e) in
       if evs =? 0 then b = Continued ∧ es = []
       else b = Called ∧ es = [Call_fd p (fd_handler f) (fd_user f) evs]) →
      round c now r b (r <| epoll_results_pos := S (epoll_results_pos r) |>
        <| fds := <[p := f <| epoll_returned_ptr := None |>]> (fds r) |>) es
  | round_wait b r' es : jobs (pending_jobs r) = [] → timers_expired_list r = [] →
      epoll_results_pos r = epoll_results_num r → waited c now r b r' es →
      round c now r (if b then Continued else Waiting) r' es.

Lemma dispatch_timer_ok r p l x : timers_ok r → timers_expired_list r = p :: l → timers r !! p = Some x →
  state x = TIMER_STATE_EXPIRED →
  ∃ e, timer_call r p x = Some e ∧ wp (dispatch_timer p) r (λ b r' es, b = Called ∧ es = [e] ∧ timers_ok r' ∧
    r' = r <| timers_expired_list := l |> <| timers := <[p := x <| state := TIMER_STATE_INACTIVE |>]> (timers r) |>).
Proof.
  intros Hok El Ep Ex. pose proof Hok as [Ht Hn Hl Hs Hh Htm]. rewrite El in Hn.
  assert (list_remove p (timers_expired_list r) = l) as Erm by (rewrite El; by apply list_remove_head).
  set (x' := x <| state := TIMER_STATE_INACTIVE |>).
  destruct states_differ as (Hri & Hei & Hre).
  assert (timers_inv (<[p := x']> (timers r)) (btimers r) (timers_tree r) l) as Hok'.
  { assert (∀ s, s ≠ TIMER_STATE_INACTIVE → ∀ q, in_state (<[p:=x']> (timers r)) s q ↔ q ≠ p ∧ in_state (timers r) s q) as Hin.
    { intros s Hne q. rewrite in_state_insert. cbn. naive_solver. }
    split.
    - eapply ot_set_ext; [exact Ht|..].
      + intros q. rewrite Hin by done. split; [tauto|]. intros Hq. split; [|done]. intros ->.
        destruct Hq as (y & ? & ?). congruence.
      + intros q [Hq _]%(Hin _ Hri). apply timer_key_ext. by rewrite lookup_insert_ne.
    - by apply NoDup_cons in Hn as [_ ?].
    - intros q. rewrite Hin, <- Hl, El, elem_of_cons by done. apply NoDup_cons in Hn as [Hn _].
      split; [|tauto]. intros Hq. split; [by intros ->|by right].
    - intros q y [[<- <-]|[_ Hy]]%lookup_insert_Some; [done|by eapply Hs].
    - intros q y [[<- <-]|[_ Hy]]%lookup_insert_Some; [exact (Hh p x Ep)|by eapply Hh].
    - intros q y [[<- <-]|[_ Hy]]%lookup_insert_Some; [done|by eapply Htm]. }
  unfold timer_call. destruct (is_small x) eqn:Esm.
  - eexists. split; [done|]. unfold dispatch_timer. wp_step. eapply wp_get_timer; [done|].
    wp_step. apply wp_assert; [by apply Z.eqb_eq|]. wp_step. wp_step. wp_step. eapply wp_set_timer; [done|].
    rewrite Esm. wp_step. wp_step. apply wp_ret. rewrite Erm. split_and!; [done..| |by destruct r]. exact Hok'.
  - destruct (Hh p x Ep Esm) as [b Eb]. rewrite Eb. eexists. split; [done|].
    unfold dispatch_timer. wp_step. eapply wp_get_timer; [done|].
    wp_step. apply wp_assert; [by apply Z.eqb_eq|]. wp_step. wp_step. wp_step. eapply wp_set_timer; [done|].
    rewrite Esm. wp_step. wp_step. unfold wp at 1, get_btimer. cbn [btimers upd]. rewrite Eb.
    wp_step. apply wp_ret. rewrite Erm. split_and!; [done..| |by destruct r]. exact Hok'.
Qed.

Lemma exec_round_ok r c now answers : inv r → 0 ≤ c →
  (jobs (pending_jobs r) = [] → timers_expired_list r = [] → epoll_results_pos r = epoll_results_num r →
   round_env r c now answers) →
  wp (exec_round now answers) r (λ b r' es, round c now r b r' es ∧ (b ≠ Waiting → inv r')).
Proof.
  intros Hinv Hc Henv. pose proof Hinv as [Hj Ht Hf Hl].
  unfold exec_round, BPendingGroup_HasJobs. wp_step. wp_step.
  destruct (jobs (pending_jobs r)) as [|j rest] eqn:Ejobs.
  - rewrite bool_decide_eq_true_2 by done. cbn [negb]. destruct (timers_expired_list r) as [|p l] eqn:Eexp.
    + destruct (Nat.ltb_spec (epoll_results_pos r) (epoll_results_num r)) as [Hlt|Hge].
      * destruct (dispatch_fd_ok r Hf Hlt) as (e & Ee & Hd). eapply wp_mono; [exact Hd|].
        intros b r' es (Hf' & H). destruct (data_ptr e) as [p|] eqn:Ed.
        -- destruct H as (f & Hact & Eret & -> & Hb). split; [by eapply round_fd|].
           intros _. split; [exact Hj|exact Ht|exact Hf'|exact Hl].
        -- destruct H as (-> & -> & ->). split; [by eapply round_removed|].
           intros _. split; [exact Hj|exact Ht|exact Hf'|exact Hl].
      * assert (epoll_results_pos r = epoll_results_num r) as Epos by (destruct (fi_results _ _ _ _ _ Hf) as (_ & _ & ?); lia).
        wp_step. eapply wp_mono; [by apply wait_for_events_ok; [..|apply Henv]|].
        intros b r' es [Hw Hi]. apply wp_ret. rewrite !app_nil_r. split; [by apply round_wait|].
        destruct b; [by intros _; apply Hi|done].
    + assert (in_state (timers r) TIMER_STATE_EXPIRED p) as (x & Ep & Ex).
      { apply (ti_list _ _ _ _ Ht). rewrite Eexp. left. }
      destruct (dispatch_timer_ok r p l x Ht Eexp Ep Ex) as (e & Ee & Hd). eapply wp_mono; [exact Hd|].
      intros b r' es (-> & -> & Ht' & ->). split; [by eapply round_timer|].
      intros _. split; [exact Hj|exact Ht'|exact Hf|exact Hl].
  - rewrite bool_decide_eq_false_2 by done. cbn [negb]. unfold dispatch_job. wp_step. wp_step.
    destruct (execute_spec (pending_jobs r) j rest Hj Ejobs) as (g & Eg & Hg & Eg' & _). rewrite Eg.
    wp_step. wp_step. wp_step. wp_step. apply wp_ret. split; [by apply (round_job c now r j rest g)|].
    intros _. split; [exact Hg|exact Ht|exact Hf|exact Hl].
Qed.
End facts.
End BReactorFacts.
