(* ===== verification/BReactorRun.v ===== *)
(** Executions of the event loop of BReactor: what the program asks of it, the
    history of what happened, and what the loop guarantees in every execution. *)
From Stdlib Require Import Sorting.Sorted.
From S2P Require Import Prelude Misc BAddr TreeInterface BPending BAVL CAvl CAvlOrder BReactor.

(** * Histories *)
Module BReactorSpec.
Export BReactorCode BReactorFacts BPendingFacts.

(** What the program can ask. The answers of the system are recorded: the time
    [now], and whether [epoll_ctl] succeeded ([ok]). *)
Inductive api :=
  | SmallTimer_Init (p : positive) (h : Z)
  | Timer_Init (p : positive) (ms h user : Z)
  | SetSmallTimer (p : positive) (mode time now : Z)
  | RemoveSmallTimer (p : positive)
  | SetTimer (p : positive) (now : Z)
  | SetTimerAfter (p : positive) (after now : Z)
  | SetTimerAbsolute (p : positive) (time now : Z)
  | RemoveTimer (p : positive)
  | Fd_Init (p : positive) (d h user : Z)
  | AddFd (p : positive) (ok : bool)
  | RemoveFd (p : positive) (ok : bool)
  | SetFdEvents (p : positive) (evs : Z) (ok : bool)
  | Limit_Init (p : positive) (lim : Z)
  | Limit_Free (p : positive)
  | Limit_Increment (p : positive)
  | Limit_SetLimit (p : positive) (lim : Z)
  | Job (o : job_op)
  | Quit (code : Z).

(** What happened, latest first. *)
Inductive event :=
  | Did (o : api)
  | Made (e : call).
Abbreviation history := (list event).

(** The calls [es], in order, after the history [h]. *)
Definition note (es : list call) (h : history) : history := fold_left (λ h e, Made e :: h) es h.

(** The last time known. *)
Fixpoint clock (h : history) : Z :=
  match h with
  | [] => 0
  | Made e :: h => call_time (clock h) e
  | _ :: h => clock h
  end.

(** The jobs that are set, the next one first. *)
Fixpoint job_stack (h : history) : list nat :=
  match h with
  | [] => []
  | Did (Job o) :: h => snd (spec_op o (job_stack h))
  | Made (Call_job _) :: h => tail (job_stack h)
  | _ :: h => job_stack h
  end.

(** How the timer [p] was initialised: its handler and, of a [BTimer], the
    [user] value and the default time. *)
Fixpoint timer_decl (p : positive) (h : history) : option (Z * option (Z * Z)) :=
  match h with
  | [] => None
  | Did (SmallTimer_Init q hd) :: h => if decide (q = p) then Some (hd, None) else timer_decl p h
  | Did (Timer_Init q ms hd user) :: h => if decide (q = p) then Some (hd, Some (user, ms)) else timer_decl p h
  | _ :: h => timer_decl p h
  end.
Definition default_time (p : positive) (h : history) : Z :=
  match timer_decl p h with Some (_, Some (_, ms)) => ms | _ => 0 end.

(** The time the timer [p] was last set to, unless it was removed or its
    handler called since. *)
Fixpoint armed (p : positive) (h : history) : option Z :=
  match h with
  | [] => None
  | e :: h =>
      match e with
      | Did (SetSmallTimer q mode time now) => if decide (q = p) then Some (new_time mode time now) else armed p h
      | Did (SetTimer q now) => if decide (q = p) then Some (btime_add now (default_time p h)) else armed p h
      | Did (SetTimerAfter q after now) => if decide (q = p) then Some (btime_add now after) else armed p h
      | Did (SetTimerAbsolute q time now) => if decide (q = p) then Some time else armed p h
      | Did (RemoveSmallTimer q) | Did (RemoveTimer q) | Did (SmallTimer_Init q _) | Did (Timer_Init q _ _ _)
      | Made (Call_small_timer q _) | Made (Call_timer q _ _) => if decide (q = p) then None else armed p h
      | _ => armed p h
      end
  end.

(** The file descriptor, handler and [user] value of the object [p]. *)
Fixpoint fd_decl (p : positive) (h : history) : option (Z * Z * Z) :=
  match h with
  | [] => None
  | Did (Fd_Init q d hd user) :: h => if decide (q = p) then Some (d, hd, user) else fd_decl p h
  | _ :: h => fd_decl p h
  end.

(** The events the object [p] waits for, while it is added. *)
Fixpoint watching (p : positive) (h : history) : option Z :=
  match h with
  | [] => None
  | e :: h =>
      match e with
      | Did (AddFd q true) => if decide (q = p) then Some 0 else watching p h
      | Did (SetFdEvents q evs _) => if decide (q = p) then Some evs else watching p h
      | Did (RemoveFd q _) | Did (Fd_Init q _ _ _) => if decide (q = p) then None else watching p h
      | _ => watching p h
      end
  end.

(** What the kernel has been told: for each registered descriptor its object and
    events. *)
Fixpoint registered (h : history) : gmap Z (positive * Z) :=
  match h with
  | [] => ∅
  | Made (epoll_ctl_add d p evs true) :: h => <[d := (p, evs)]> (registered h)
  | Made (epoll_ctl_mod d p evs) :: h => <[d := (p, evs)]> (registered h)
  | Made (epoll_ctl_del d) :: h => delete d (registered h)
  | _ :: h => registered h
  end.

(** The events the kernel last reported for the object [p], unless its handler
    was called or it was removed since. *)
Fixpoint reported (p : positive) (h : history) : option Z :=
  match h with
  | [] => None
  | e :: h =>
      match e with
      | Made (epoll_wait _ (Wait_results (pe :: l)) _) => (list_to_map (pe :: l) : gmap positive Z) !! p
      | Made (Call_fd q _ _ _) | Did (RemoveFd q _) => if decide (q = p) then None else reported p h
      | _ => reported p h
      end
  end.

(** The last code [BReactor_Quit] was called with. *)
Fixpoint quit_code (h : history) : option Z :=
  match h with
  | [] => None
  | Did (Quit c) :: _ => Some c
  | _ :: h => quit_code h
  end.

Section spec.
Context {T : Type} `{!OrderedTree T}.
Implicit Types r : BReactor T.

Abbreviation op := (prog (BReactor T) call).
Definition void {A} (m : op A) : op unit := _ ← m; mret tt.
Definition run_job (o : job_op) : op unit :=
  update (λ r, '(_, g) ← run_op o (pending_jobs r); Some (r <| pending_jobs := g |>)).
Definition run_api (o : api) : op unit :=
  match o with
  | SmallTimer_Init p h => BSmallTimer_Init p h
  | Timer_Init p ms h user => BTimer_Init p ms h user
  | SetSmallTimer p mode time now => BReactor_SetSmallTimer p mode time now
  | RemoveSmallTimer p => BReactor_RemoveSmallTimer p
  | SetTimer p now => BReactor_SetTimer p now
  | SetTimerAfter p after now => BReactor_SetTimerAfter p after now
  | SetTimerAbsolute p time now => BReactor_SetTimerAbsolute p time now
  | RemoveTimer p => BReactor_RemoveTimer p
  | Fd_Init p d h user => BFileDescriptor_Init p d h user
  | AddFd p ok => void (BReactor_AddFileDescriptor p ok)
  | RemoveFd p ok => BReactor_RemoveFileDescriptor p ok
  | SetFdEvents p evs ok => BReactor_SetFileDescriptorEvents p evs ok
  | Limit_Init p lim => BReactorLimit_Init p lim
  | Limit_Free p => BReactorLimit_Free p
  | Limit_Increment p => void (BReactorLimit_Increment p)
  | Limit_SetLimit p lim => BReactorLimit_SetLimit p lim
  | Job o => run_job o
  | Quit code => BReactor_Quit code
  end.

(** When the program may ask, by the documentation in BReactor_badvpn.h, and how
    the system answers: the time does not go back, a descriptor is registered
    once, and a registered one can be changed. *)
Definition time_ok (h : history) (now : Z) : Prop := clock h ≤ now ≤ INT64_MAX.
Definition enabled (o : api) r (h : history) : Prop :=
  match o with
  | SmallTimer_Init p _ => armed p h = None
  | Timer_Init p ms _ _ => armed p h = None ∧ is_time ms
  | SetSmallTimer p mode time now => is_Some (timer_decl p h) ∧
      (mode = BTIMER_SET_ABSOLUTE ∨ mode = BTIMER_SET_RELATIVE) ∧ is_time time ∧ time_ok h now
  | RemoveSmallTimer p | RemoveTimer p => is_Some (timer_decl p h)
  | SetTimer p now => (∃ hd user ms, timer_decl p h = Some (hd, Some (user, ms))) ∧ time_ok h now
  | SetTimerAfter p t now | SetTimerAbsolute p t now => is_Some (timer_decl p h) ∧ is_time t ∧ time_ok h now
  | Fd_Init p _ _ _ => watching p h = None
  | AddFd p ok => watching p h = None ∧ ∃ d hd user, fd_decl p h = Some (d, hd, user) ∧
      (ok = true → registered h !! d = None)
  | RemoveFd p ok => is_Some (watching p h) ∧ ∃ d hd user, fd_decl p h = Some (d, hd, user) ∧
      (is_Some (registered h !! d) → ok = true)
  | SetFdEvents p evs ok => is_Some (watching p h) ∧ 0 ≤ evs ≤ 3 ∧ ∃ d hd user, fd_decl p h = Some (d, hd, user) ∧
      (is_Some (registered h !! d) → ok = true)
  | Limit_Init p lim => limits r !! p = None ∧ 0 < lim ≤ INT_MAX
  | Limit_Free p | Limit_Increment p => is_Some (limits r !! p)
  | Limit_SetLimit p lim => is_Some (limits r !! p) ∧ 0 < lim ≤ INT_MAX
  | Job o => op_allowed o (pending_jobs r) ∧ o ≠ OExec
  | Quit _ => True
  end.

(** What the kernel may return: each registered object at most once. *)
Definition kernel_results (h : history) (l : list (positive * Z)) : Prop :=
  NoDup l.*1 ∧ len l ≤ BSYSTEM_MAX_RESULTS ∧ ∀ p e, (p, e) ∈ l → ∃ d evs, registered h !! d = Some (p, evs).
(** The earliest timer that is set. *)
Definition next_alarm (h : history) (o : option Z) : Prop :=
  match o with
  | None => ∀ p, armed p h = None
  | Some t => (∃ p, armed p h = Some t) ∧ ∀ p t', armed p h = Some t' → t ≤ t'
  end.
Definition round_enabled (now : Z) (answers : list (wait_answer * Z)) (h : history) : Prop :=
  time_ok h now ∧ ∀ o, next_alarm h o →
    answers_ok (kernel_results h) o (start_time o (clock h) now) answers.

(** ** Executions

    The program starts from an initialised reactor, whose results array has its
    64 entries. A step is something the program asks, from the outside or from
    a handler, or a round of the loop that does not end in [epoll_wait]. *)
Definition initial r : Prop :=
  ∃ epfd r0, 0 ≤ epfd ∧ BReactor_Init epfd r0 = (1, r) ∧ len (epoll_results r0) = BSYSTEM_MAX_RESULTS ∧
    timers r0 = ∅ ∧ btimers r0 = ∅ ∧ fds r0 = ∅ ∧ limits r0 = ∅.

Inductive reach : BReactor T → history → Prop :=
  | reach_init r : initial r → reach r []
  | reach_api r h o r' es : reach r h → enabled o r h → run_api o r = Some (tt, r', es) →
      reach r' (note es (Did o :: h))
  | reach_round r h now answers b r' es : reach r h → exiting r = false → round_enabled now answers h →
      exec_round now answers r = Some (b, r', es) → b ≠ Waiting →
      reach r' (note es h).
End spec.
End BReactorSpec.

(** * The state and the history agree *)
Module BReactorTied.
Import BReactorSpec.

(** What the timers say about the history. *)
Definition decl_of (m : gmap positive BSmallTimer) (b : gmap positive BTimer) (p : positive) : option (Z * option (Z * Z)) :=
  x ← m !! p;
  Some (handler x, if is_small x then None else (λ v, (timer_user v, msTime v)) <$> b !! p).
Definition armed_timer (x : BSmallTimer) : option Z :=
  if state x =? TIMER_STATE_INACTIVE then None else Some (absTime x).
Definition armed_of (m : gmap positive BSmallTimer) (p : positive) : option Z := m !! p ≫= armed_timer.

Definition timers_tied (m : gmap positive BSmallTimer) (b : gmap positive BTimer) (h : history) : Prop :=
  (∀ p, timer_decl p h = decl_of m b p) ∧
  (∀ p, armed p h = armed_of m p) ∧
  (∀ p x, m !! p = Some x → state x = TIMER_STATE_EXPIRED → absTime x ≤ clock h) ∧
  (∀ p v, b !! p = Some v → is_time (msTime v)).

(** ... and the descriptors. *)
Definition watched (f : BFileDescriptor) : option Z := if active f then Some (waitEvents f) else None.
Definition fds_tied (m : gmap positive BFileDescriptor) (results : list epoll_event) (num pos : nat) (h : history) : Prop :=
  (∀ p, fd_decl p h = (λ f, (fd f, fd_handler f, fd_user f)) <$> m !! p) ∧
  (∀ p, watching p h = m !! p ≫= watched) ∧
  (∀ d p evs, registered h !! d = Some (p, evs) ↔
    ∃ f, active_fd m p f ∧ fd f = d ∧ evs = epoll_mask (waitEvents f)) ∧
  (∀ i e p, (pos ≤ i < num)%nat → results !! i = Some e → data_ptr e = Some p → reported p h = Some (events e)).

Definition quit_tied (ex : bool) (code : Z) (h : history) : Prop :=
  match quit_code h with Some c => ex = true ∧ code = c | None => ex = false end.
Definition clock_tied (h : history) : Prop := 0 ≤ clock h ≤ INT64_MAX.

(** ** Timers *)

Lemma armed_of_insert m p x q : armed_of (<[p := x]> m) q = if decide (p = q) then armed_timer x else armed_of m q.
Proof.
  unfold armed_of. case_decide as E; [subst; by rewrite lookup_insert_eq|by rewrite lookup_insert_ne].
Qed.
Lemma decl_of_insert m b p x q : decl_of (<[p := x]> m) b q =
  if decide (p = q) then Some (handler x, if is_small x then None else (λ v, (timer_user v, msTime v)) <$> b !! p)
  else decl_of m b q.
Proof.
  unfold decl_of. case_decide as E; [subst; by rewrite lookup_insert_eq|by rewrite lookup_insert_ne].
Qed.

Lemma timers_tied_time m b h h' : timers_tied m b h →
  (∀ p, timer_decl p h' = timer_decl p h) → (∀ p, armed p h' = armed p h) → clock h ≤ clock h' →
  timers_tied m b h'.
Proof.
  intros (Hd & Ha & Hdue & Hms) Hd' Ha' Hc. split_and!; intros.
  - by rewrite Hd', Hd.
  - by rewrite Ha', Ha.
  - pose proof (Hdue p x). naive_solver lia.
  - by eapply Hms.
Qed.

(** A timer is set, removed or called. *)
Lemma timers_tied_update m b h h' p x x' : timers_tied m b h → m !! p = Some x →
  handler x' = handler x → is_small x' = is_small x → state x' ≠ TIMER_STATE_EXPIRED →
  (∀ q, timer_decl q h' = timer_decl q h) →
  (∀ q, armed q h' = if decide (p = q) then armed_timer x' else armed q h) →
  clock h ≤ clock h' →
  timers_tied (<[p := x']> m) b h'.
Proof.
  intros (Hd & Ha & Hdue & Hms) Ep Eh Es Hst Hd' Ha' Hc. split_and!; [..|done].
  - intros q. rewrite Hd', Hd, decl_of_insert. case_decide as E; [subst q|done].
    unfold decl_of. rewrite Ep. cbn. by rewrite Eh, Es.
  - intros q. rewrite Ha', armed_of_insert. by case_decide.
  - intros q y [[<- <-]|[_ Hy]]%lookup_insert_Some Hs; [done|]. pose proof (Hdue q y Hy Hs). lia.
Qed.

Lemma timers_tied_decl m b h p x : timers_tied m b h → m !! p = Some x → is_Some (timer_decl p h).
Proof. intros (Hd & _) Ep. rewrite Hd. unfold decl_of. rewrite Ep. by eexists. Qed.
Lemma decl_timer m b h p : timers_tied m b h → is_Some (timer_decl p h) → ∃ x, m !! p = Some x.
Proof. intros (Hd & _). rewrite Hd. unfold decl_of. destruct (m !! p); [eauto|]. by intros []. Qed.
Lemma disarmed m b h p x : timers_tied m b h → armed p h = None → m !! p = Some x → state x = TIMER_STATE_INACTIVE.
Proof.
  intros (_ & Ha & _) Hp Ep. rewrite Ha in Hp. unfold armed_of, armed_timer in Hp. rewrite Ep in Hp. cbn in Hp.
  by destruct (Z.eqb_spec (state x) TIMER_STATE_INACTIVE).
Qed.

(** All timers up to [now] expire. *)
Lemma timers_tied_expire m b h h' t : timers_tied m b h →
  (∀ p, timer_decl p h' = timer_decl p h) → (∀ p, armed p h' = armed p h) → clock h ≤ clock h' → t ≤ clock h' →
  timers_tied (expire_until t <$> m) b h'.
Proof.
  intros (Hd & Ha & Hdue & Hms) Hd' Ha' Hc Ht. split_and!; [..|done].
  - intros p. rewrite Hd', Hd. unfold decl_of. rewrite lookup_fmap. destruct (m !! p) as [x|]; [cbn|done].
    unfold expire_until. by destruct (_ && _).
  - intros p. rewrite Ha', Ha. unfold armed_of. rewrite lookup_fmap. destruct (m !! p) as [x|]; [cbn|done].
    unfold expire_until, armed_timer. destruct (Z.eqb_spec (state x) TIMER_STATE_RUNNING) as [E|]; [|done].
    destruct (absTime x <=? t); cbn; by rewrite ?E.
  - intros p y. rewrite lookup_fmap. intros (x & Ex & ->)%fmap_Some Hy. unfold expire_until in *.
    destruct (Z.eqb_spec (state x) TIMER_STATE_RUNNING) as [Er|]; cbn [andb] in *.
    + destruct (Z.leb_spec (absTime x) t); cbn in *; [lia|]. rewrite Er in Hy. done.
    + pose proof (Hdue p x Ex Hy). lia.
Qed.

(** ** File descriptors *)

Lemma fds_tied_hist m results num pos h h' : fds_tied m results num pos h →
  (∀ p, fd_decl p h' = fd_decl p h) → (∀ p, watching p h' = watching p h) → registered h' = registered h →
  (∀ p, reported p h' = reported p h) → fds_tied m results num pos h'.
Proof.
  intros (Hd & Hw & Hr & Hg) Hd' Hw' Hr' Hg'. split_and!; intros.
  - by rewrite Hd', Hd.
  - by rewrite Hw', Hw.
  - by rewrite Hr', Hr.
  - rewrite Hg'. by eapply Hg.
Qed.
Lemma decl_fd m results num pos h p d hd user : fds_tied m results num pos h → fd_decl p h = Some (d, hd, user) →
  ∃ f, m !! p = Some f ∧ fd f = d ∧ fd_handler f = hd ∧ fd_user f = user.
Proof. intros (Hd & _) H. rewrite Hd in H. apply fmap_Some in H as (f & Ef & [= -> -> ->]). by exists f. Qed.
Lemma watching_fd m results num pos h p w : fds_tied m results num pos h → watching p h = Some w →
  ∃ f, active_fd m p f ∧ waitEvents f = w.
Proof.
  intros (_ & Hw & _) H. rewrite Hw in H. apply bind_Some in H as (f & Ef & Hf). unfold watched in Hf.
  exists f. unfold active_fd. destruct (active f); [|done]. by injection Hf as ->.
Qed.
Lemma not_watching m results num pos h p f : fds_tied m results num pos h → watching p h = None → ¬ active_fd m p f.
Proof. intros (_ & Hw & _) H [Ef Hf]. rewrite Hw, Ef in H. cbn in H. unfold watched in H. by rewrite Hf in H. Qed.
Lemma active_watching m results num pos h p f : fds_tied m results num pos h → active_fd m p f →
  watching p h = Some (waitEvents f).
Proof. intros (_ & Hw & _) [Ef Hf]. rewrite Hw, Ef. cbn. unfold watched. by rewrite Hf. Qed.
Lemma registered_fd m results num pos h p f : fds_tied m results num pos h → active_fd m p f →
  registered h !! fd f = Some (p, epoll_mask (waitEvents f)).
Proof. intros (_ & _ & Hr & _) Hf. apply Hr. by exists f. Qed.
(** Objects are registered for different descriptors. *)
Lemma active_fd_inj m results num pos h p q f g : fds_tied m results num pos h → active_fd m p f → active_fd m q g →
  fd f = fd g → p = q.
Proof.
  intros Ht Hf Hg E. pose proof (registered_fd _ _ _ _ _ _ _ Ht Hf) as H1.
  pose proof (registered_fd _ _ _ _ _ _ _ Ht Hg) as H2. rewrite E in H1. congruence.
Qed.

Lemma lookup_insert_if {A} (m : gmap positive A) p q x :
  <[p := x]> m !! q = if decide (p = q) then Some x else m !! q.
Proof. case_decide as E; [subst; by rewrite lookup_insert_eq|by rewrite lookup_insert_ne]. Qed.

Lemma init_fd_tied m results num pos h p f d hd user : fds_tied m results num pos h →
  watching p h = None → active f = false → fd f = d → fd_handler f = hd → fd_user f = user →
  fds_tied (<[p := f]> m) results num pos (Did (Fd_Init p d hd user) :: h).
Proof.
  intros Ht Hp Hf <- <- <-. pose proof Ht as (Hd & Hw & Hr & Hg). split_and!.
  - intros q. cbn. rewrite lookup_insert_if, Hd. by case_decide.
  - intros q. cbn. rewrite lookup_insert_if, Hw. case_decide; [|done]. cbn. unfold watched. by rewrite Hf.
  - intros d q evs. cbn. rewrite Hr. split; intros (g & Hact & Hg'); exists g; (split; [|done]).
    + apply active_fd_insert. right. split; [|done]. intros ->. by eapply not_watching.
    + apply active_fd_insert in Hact as [(_ & -> & ?)|[_ ?]]; [congruence|done].
  - exact Hg.
Qed.

Lemma add_fd_tied m results num pos h p f ok : fds_tied m results num pos h →
  m !! p = Some f → watching p h = None → (ok = true → registered h !! fd f = None) →
  fds_tied (if ok then <[p := f <| epoll_returned_ptr := None |> <| active := true |> <| waitEvents := 0 |>]> m else m)
    results num pos (Made (epoll_ctl_add (fd f) p 0 ok) :: Did (AddFd p ok) :: h).
Proof.
  intros Ht Ep Hp Hok. pose proof Ht as (Hd & Hw & Hr & Hg). destruct ok; [|exact Ht]. specialize (Hok eq_refl).
  split_and!.
  - intros q. cbn. rewrite lookup_insert_if, Hd. case_decide as E; [subst; by rewrite Ep|done].
  - intros q. cbn. rewrite lookup_insert_if, Hw. by case_decide.
  - intros d q evs. cbn. rewrite lookup_insert_Some, Hr. setoid_rewrite active_fd_insert. split.
    + intros [[<- [= <- <-]]|[Hne (g & Hact & Hg')]].
      * eexists. split; [left; split_and!; done|]. by split.
      * exists g. split; [|done]. right. split; [|done]. intros ->. by eapply not_watching.
    + intros (g & [(-> & -> & _)|[Hne Hact]] & <- & ->); [by left|]. right. split; [|by exists g].
      intros E. rewrite E, (registered_fd _ _ _ _ _ _ _ Ht Hact) in Hok. done.
  - exact Hg.
Qed.

Lemma remove_fd_tied m results num pos ctr h p f ok : fds_tied m results num pos h → fds_inv m results num pos ctr →
  active_fd m p f →
  fds_tied (<[p := f <| active := false |>]> m) (cleared (epoll_returned_ptr f) results) num pos
    (Made (epoll_ctl_del (fd f)) :: Did (RemoveFd p ok) :: h).
Proof.
  intros Ht Hinv Hf. pose proof Hf as [Ep Ef]. pose proof Ht as (Hd & Hw & Hr & Hg). split_and!.
  - intros q. cbn. rewrite lookup_insert_if, Hd. case_decide as E; [subst; by rewrite Ep|done].
  - intros q. cbn. rewrite lookup_insert_if, Hw. by case_decide.
  - intros d q evs. cbn. rewrite lookup_delete_Some, Hr. setoid_rewrite active_fd_insert. split.
    + intros (Hne & g & Hact & <- & Hg'). exists g. split; [|done]. right. split; [|done]. intros ->.
      destruct Hact, Hf. congruence.
    + intros (g & [(_ & -> & [=])|[Hne Hact]] & <- & ->). split; [|by exists g].
      intros E. by destruct Hne; eapply active_fd_inj.
  - intros i e q Hi (e' & Hie & He & [|[Hne Hd']])%lookup_cleared Hq; [congruence|]. rewrite Hq in Hd'. cbn.
    rewrite He. case_decide as E; [|by eapply Hg]. subst q.
    destruct (fi_entry _ _ _ _ _ Hinv i e' p Hi Hie) as (g & Hact & Hret); [done|]. destruct Hact, Hf. congruence.
Qed.

Lemma set_fd_tied m results num pos h p f evs ok : fds_tied m results num pos h → active_fd m p f →
  fds_tied (<[p := f <| waitEvents := evs |>]> m) results num pos
    (note (if waitEvents f =? evs then [] else [epoll_ctl_mod (fd f) p (epoll_mask evs)]) (Did (SetFdEvents p evs ok) :: h)).
Proof.
  intros Ht Hf. pose proof Hf as [Ep Ef]. pose proof Ht as (Hd & Hw & Hr & Hg).
  assert (∀ d q e, (if waitEvents f =? evs then registered h else <[fd f := (p, epoll_mask evs)]> (registered h)) !! d
    = Some (q, e) ↔ ∃ g, active_fd (<[p := f <| waitEvents := evs |>]> m) q g ∧ fd g = d ∧ e = epoll_mask (waitEvents g)) as Hreg.
  { intros d q e. setoid_rewrite active_fd_insert. destruct (Z.eqb_spec (waitEvents f) evs) as [E|E].
    - rewrite Hr. split; intros (g & Hact & <- & ->).
      + destruct (decide (q = p)) as [->|].
        * assert (g = f) as -> by (destruct Hact; congruence). eexists. split; [left; split_and!; [done..|exact Ef]|].
          cbn. by subst.
        * exists g. split_and!; [right; by split|done..].
      + destruct Hact as [(-> & -> & _)|[_ Hact]]; [|by exists g]. exists f. cbn. by subst.
    - rewrite lookup_insert_Some, Hr. split.
      + intros [[<- [= <- <-]]|[Hne (g & Hact & <- & ->)]].
        * eexists. split; [left; split_and!; [done..|exact Ef]|]. done.
        * exists g. split; [|done]. right. split; [|done]. intros ->. apply Hne. destruct Hact. congruence.
      + intros (g & [(-> & -> & _)|[Hne Hact]] & <- & ->); [by left|]. right. split; [|by exists g].
        intros E'. by destruct Hne; eapply active_fd_inj. }
  split_and!.
  - intros q. rewrite lookup_insert_if. destruct (_ =? _); cbn; rewrite Hd; (case_decide as E; [subst; by rewrite Ep|done]).
  - intros q. rewrite lookup_insert_if. destruct (_ =? _); cbn; rewrite Hw; (case_decide as E; [subst; cbn; unfold watched; by rewrite Ef|done]).
  - intros d q e. rewrite <- Hreg. by destruct (_ =? _).
  - intros i e q Hi Hie Hq. rewrite <- (Hg i e q Hi Hie Hq). by destruct (_ =? _).
Qed.

(** A descriptor's entry is dispatched. *)
Lemma next_fd_tied m results num pos h : fds_tied m results num pos h → fds_tied m results num (S pos) h.
Proof. intros (Hd & Hw & Hr & Hg). split_and!; [done..|]. intros i e p Hi. apply Hg. lia. Qed.
Lemma same_fd_tied m results num pos h p f f' : fds_tied m results num pos h → m !! p = Some f →
  fd f' = fd f → fd_handler f' = fd_handler f → fd_user f' = fd_user f → active f' = active f →
  waitEvents f' = waitEvents f → fds_tied (<[p := f']> m) results num pos h.
Proof.
  intros (Hd & Hw & Hr & Hg) Ep E1 E2 E3 E4 E5. split_and!; [| | |done].
  - intros q. rewrite lookup_insert_if, Hd. case_decide as E; [subst; rewrite Ep; cbn; congruence|done].
  - intros q. rewrite lookup_insert_if, Hw. case_decide as E; [subst; rewrite Ep; cbn; unfold watched; by rewrite E4, E5|done].
  - intros d q evs. rewrite Hr. setoid_rewrite active_fd_insert. split.
    + intros (g & Hact & <- & ->). destruct (decide (q = p)) as [->|].
      * assert (g = f) as -> by (destruct Hact; congruence). exists f'. rewrite E1, E5. split; [|done]. left.
        destruct Hact. split_and!; congruence.
      * exists g. split; [|done]. by right.
    + intros (g & [(-> & -> & Hact)|[_ Hact]] & <- & ->); [|by exists g]. exists f. rewrite E1, E5. split; [|done].
      split; congruence.
Qed.
Lemma called_fd_tied m results num pos ctr h p hd user evs : fds_inv m results num (S pos) ctr →
  (∀ f, active_fd m p f → epoll_returned_ptr f = None) →
  fds_tied m results num (S pos) h → fds_tied m results num (S pos) (Made (Call_fd p hd user evs) :: h).
Proof.
  intros Hinv Hp (Hd & Hw & Hr & Hg). split_and!; [done..|]. intros i e q Hi Hie Hq. cbn.
  case_decide as E; [|by eapply Hg]. subst q.
  destruct (fi_entry _ _ _ _ _ Hinv i e p Hi Hie Hq) as (f & Hf & Hret). rewrite (Hp f Hf) in Hret. done.
Qed.

(** New results. *)
Lemma results_fd_tied m results num pos h l timeout later : fds_tied m results num pos h → results_ok m l → l ≠ [] →
  fds_tied (set_pointers 0 l m) (store_results l results) (length l) 0
    (Made (epoll_wait timeout (Wait_results l) later) :: h).
Proof.
  intros (Hd & Hw & Hr & Hg) (Hn & Hlen & Hact) Hne.
  assert (∀ p, ∃ i : option (option nat), set_pointers 0 l m !! p =
    (λ f, match i with Some i => f <| epoll_returned_ptr := i |> | None => f end) <$> m !! p) as Hset.
  { intros p. destruct (decide (p ∈ l.*1)) as [Hp|Hp].
    - apply list_elem_of_fmap in Hp as ([q e] & -> & [k Hk]%list_elem_of_lookup_1). cbn.
      exists (Some (Some k)). by rewrite (set_pointers_at 0 l m k q e Hn Hk).
    - exists None. rewrite set_pointers_other by done. by destruct (m !! p). }
  split_and!.
  - intros p. cbn. rewrite Hd. destruct (Hset p) as (i & ->). destruct (m !! p), i; done.
  - intros p. cbn. rewrite Hw. destruct (Hset p) as (i & ->). destruct (m !! p), i; done.
  - intros d p evs. cbn. rewrite Hr. unfold active_fd. destruct (Hset p) as (i & ->). split.
    + intros (f & [-> Hf] & <- & ->). cbn.
      exists (match i with Some i => f <| epoll_returned_ptr := i |> | None => f end). by destruct i.
    + intros (g & [(f & -> & ->)%fmap_Some Hf] & <- & ->). exists f. by destruct i.
  - intros i e p Hi Hie Hp. destruct (lookup_lt_is_Some_2 l i) as [[q e'] Hq]; [lia|].
    rewrite (lookup_store _ _ _ _ _ Hq) in Hie. injection Hie as <-. injection Hp as ->. cbn -[list_to_map].
    destruct l as [|pe l]; [done|]. apply elem_of_list_to_map_1; [done|]. by eapply list_elem_of_lookup_2.
Qed.
End BReactorTied.

(** * Every step keeps the invariant and the agreement *)
Module BReactorSteps.
Import BReactorSpec BReactorTied.

Section steps.
Context {T : Type} `{!OrderedTree T}.
Implicit Types r : BReactor T.

Definition tied r (h : history) : Prop :=
  jobs (pending_jobs r) = job_stack h ∧
  timers_tied (timers r) (btimers r) h ∧
  fds_tied (fds r) (epoll_results r) (epoll_results_num r) (epoll_results_pos r) h ∧
  quit_tied (exiting r) (exit_code r) h ∧
  clock_tied h.
Definition good r h : Prop := inv r ∧ tied r h.

(** What a request does to the list of expired timers. *)
Definition expired_after (o : api) (l : list positive) : list positive :=
  match o with
  | SetSmallTimer p _ _ _ | RemoveSmallTimer p | SetTimer p _ | SetTimerAfter p _ _ | SetTimerAbsolute p _ _
  | RemoveTimer p => list_remove p l
  | _ => l
  end.
Definition jobs_after (o : api) (l : list nat) : list nat :=
  match o with Job o => snd (spec_op o l) | _ => l end.
Definition stepped (o : api) r (h : history) r' (es : list call) : Prop :=
  good r' (note es (Did o :: h)) ∧
  timers_expired_list r' = expired_after o (timers_expired_list r) ∧
  jobs (pending_jobs r') = jobs_after o (jobs (pending_jobs r)).

Lemma time_is_time h now : clock_tied h → time_ok h now → is_time now.
Proof. unfold clock_tied, time_ok, is_time, INT64_MIN. lia. Qed.

(** ** Timers *)

Lemma set_api_ok r h o p mode time now : good r h → is_Some (timer_decl p h) →
  mode = BTIMER_SET_ABSOLUTE ∨ mode = BTIMER_SET_RELATIVE → is_time time → time_ok h now →
  (∀ q, timer_decl q (Did o :: h) = timer_decl q h) →
  (∀ q, armed q (Did o :: h) = if decide (p = q) then Some (new_time mode time now) else armed q h) →
  fds_tied (fds r) (epoll_results r) (epoll_results_num r) (epoll_results_pos r) (Did o :: h) →
  quit_tied (exiting r) (exit_code r) (Did o :: h) → job_stack (Did o :: h) = job_stack h →
  clock (Did o :: h) = clock h → (∀ l, expired_after o l = list_remove p l) → (∀ l, jobs_after o l = l) →
  wp (BReactor_SetSmallTimer p mode time now) r (λ _, stepped o r h).
Proof.
  intros [[Hj Ht Hf Hl] (Tj & Tt & Tf & Tq & Tc)] Hdecl Hmode Htime Hnow Hd Ha Hfd Hq Hjs Hck Hexp Hjobs.
  destruct (decl_timer _ _ _ _ Tt Hdecl) as (x & Ep).
  eapply wp_mono; [apply (set_timer_ok r p x); [done..|by eapply time_is_time]|].
  intros [] r' es (-> & Ht' & t & ->). split; [|by rewrite Hexp, Hjobs].
  split; [split; [exact Hj|exact Ht'|exact Hf|exact Hl]|].
  set (x' := x <| absTime := new_time mode time now |> <| state := TIMER_STATE_RUNNING |>).
  assert (∀ h', (h' = Did o :: h ∨ h' = Made (btime_gettime now) :: Did o :: h) →
    timers_tied (<[p := x']> (timers r)) (btimers r) h') as Htied.
  { intros h' Hh'. apply (timers_tied_update (timers r) (btimers r) h h' p x); try done.
    - intros q. destruct Hh' as [-> | ->]; exact (Hd q).
    - intros q. destruct Hh' as [-> | ->]; exact (Ha q).
    - destruct Hh' as [-> | ->]; [by rewrite Hck|apply Hnow]. }
  destruct (mode =? BTIMER_SET_RELATIVE); split_and!.
  - transitivity (job_stack (Did o :: h)); [by rewrite Hjs|done].
  - apply Htied. by right.
  - exact Hfd.
  - exact Hq.
  - unfold clock_tied, time_ok in *. cbn. lia.
  - transitivity (job_stack (Did o :: h)); [by rewrite Hjs|done].
  - apply Htied. by left.
  - exact Hfd.
  - exact Hq.
  - unfold clock_tied. cbn [note fold_left]. by rewrite Hck.
Qed.

Lemma remove_api_ok r h o p : good r h → is_Some (timer_decl p h) → o = RemoveSmallTimer p ∨ o = RemoveTimer p →
  wp (BReactor_RemoveSmallTimer p) r (λ _, stepped o r h).
Proof.
  intros [[Hj Ht Hf Hl] (Tj & Tt & Tf & Tq & Tc)] Hdecl Ho. destruct (decl_timer _ _ _ _ Tt Hdecl) as (x & Ep).
  eapply wp_mono; [by apply remove_timer_ok|]. intros [] r' es (-> & Ht' & t & ->).
  split; [|by destruct Ho as [-> | ->]]. split; [split; [exact Hj|exact Ht'|exact Hf|exact Hl]|].
  assert (timers_tied (<[p := x <| state := TIMER_STATE_INACTIVE |>]> (timers r)) (btimers r) (Did o :: h)) as Htied.
  { apply (timers_tied_update (timers r) (btimers r) h _ p x); try done; intros; by destruct Ho as [-> | ->]. }
  destruct Ho as [-> | ->]; (split_and!; [exact Tj|exact Htied|exact Tf|exact Tq|exact Tc]).
Qed.

(** Initialising a timer that is not set; [v] is what a [BTimer] adds. *)
Lemma init_timer_inv r p x v : timers_ok r → (∀ y, timers r !! p = Some y → state y = TIMER_STATE_INACTIVE) →
  state x = TIMER_STATE_INACTIVE → (is_small x = false → is_Some v) →
  timers_inv (<[p := x]> (timers r)) (match v with Some v => <[p := v]> (btimers r) | None => btimers r end)
    (timers_tree r) (timers_expired_list r).
Proof.
  intros [Ht Hn Hl Hs Hh Htm] Hp Ex Hv. destruct states_differ as (Hri & Hei & Hre).
  assert (∀ s, s ≠ TIMER_STATE_INACTIVE → ∀ q, in_state (<[p := x]> (timers r)) s q ↔ in_state (timers r) s q) as Hin.
  { intros s Hne q. rewrite in_state_insert. split; [intros [[_ ?]|[_ ?]]; [congruence|done]|].
    intros (y & Hy & Hys). right. split; [|by exists y]. intros ->. apply Hne. rewrite <- Hys. by eapply Hp. }
  split.
  - eapply ot_set_ext; [exact Ht|by apply Hin|]. intros q (y & Hy & Hys)%Hin; [|done]. apply timer_key_ext.
    rewrite lookup_insert_ne; [done|]. intros <-. rewrite (Hp y Hy) in Hys. done.
  - done.
  - intros q. by rewrite Hl, Hin.
  - intros q y [[<- <-]|[_ Hy]]%lookup_insert_Some; [|by eapply Hs]. unfold assert_timer. by rewrite Ex.
  - intros q y Hq Hy. apply lookup_insert_Some in Hq as [[<- <-]|[Hne Hq]].
    + destruct (Hv Hy) as [w ->]. rewrite lookup_insert_eq. by eexists.
    + destruct v; [rewrite lookup_insert_ne by done|]; by eapply Hh.
  - intros q y [[<- <-]|[_ Hy]]%lookup_insert_Some; [congruence|by eapply Htm].
Qed.

Lemma init_api_ok r h o p hd v : good r h → armed p h = None →
  (match v with Some v => o = Timer_Init p (msTime v) hd (timer_user v) ∧ is_time (msTime v) | None => o = SmallTimer_Init p hd end) →
  wp (run_api o) r (λ _, stepped o r h).
Proof.
  intros [[Hj Ht Hf Hl] (Tj & Tt & Tf & Tq & Tc)] Hp Ho.
  set (x0 := default uninit_timer (timers r !! p)).
  set (x := x0 <| handler := hd |> <| state := TIMER_STATE_INACTIVE |> <| is_small := if v is Some _ then false else true |>).
  set (b := match v with Some v => <[p := v]> (btimers r) | None => btimers r end).
  assert (∀ y, timers r !! p = Some y → state y = TIMER_STATE_INACTIVE) as Hidle by (intros y; by eapply disarmed).
  assert (timers_inv (<[p := x]> (timers r)) b (timers_tree r) (timers_expired_list r)) as Hinv.
  { apply init_timer_inv; try done. destruct v; [by eexists|done]. }
  assert (∀ q w, b !! q = Some w → (q = p ∧ v = Some w) ∨ btimers r !! q = Some w) as Hb.
  { intros q w. unfold b. destruct v as [u|]; [|by right].
    intros [[<- <-]|[_ ?]]%lookup_insert_Some; [by left|by right]. }
  assert (timers_tied (<[p := x]> (timers r)) b (Did o :: h)) as Htied.
  { destruct Tt as (Hd & Ha & Hdue & Hms). split_and!.
    - intros q. rewrite decl_of_insert. assert (timer_decl q (Did o :: h) =
        if decide (p = q) then Some (hd, (λ v, (timer_user v, msTime v)) <$> v) else timer_decl q h) as ->.
      { destruct v; [destruct Ho as [-> _]|subst o]; done. }
      case_decide as E.
      + subst q. unfold b. destruct v; cbn; [by rewrite lookup_insert_eq|done].
      + rewrite Hd. unfold decl_of, b. destruct v; [|done]. by rewrite lookup_insert_ne.
    - intros q. rewrite armed_of_insert. assert (armed q (Did o :: h) = if decide (p = q) then None else armed q h) as ->.
      { destruct v; [destruct Ho as [-> _]|subst o]; done. }
      by case_decide.
    - assert (clock (Did o :: h) = clock h) as -> by (destruct v; [destruct Ho as [-> _]|subst o]; done).
      intros q y [[<- <-]|[_ Hy]]%lookup_insert_Some; [done|by apply (Hdue q)].
    - intros q w [[-> ->]|?]%Hb; [by destruct Ho|by eapply Hms]. }
  destruct v as [[user ms]|]; [destruct Ho as [-> Hms]|subst o]; cbn [run_api]; (apply wp_modify; split; [|by split];
    split; [split; [exact Hj|exact Hinv|exact Hf|exact Hl]|split_and!; [exact Tj|exact Htied|exact Tf|exact Tq|exact Tc]]).
Qed.

(** ** File descriptors *)

Lemma fd_init_api_ok r h p d hd user : good r h → watching p h = None →
  wp (run_api (Fd_Init p d hd user)) r (λ _, stepped (Fd_Init p d hd user) r h).
Proof.
  intros [[Hj Ht Hf Hl] (Tj & Tt & Tf & Tq & Tc)] Hp. cbn [run_api]. apply wp_modify.
  assert (∀ g, ¬ active_fd (fds r) p g) as Hno by (intros g; by eapply not_watching).
  split; [|by split]. split.
  - split; [exact Hj|exact Ht| |exact Hl]. by apply init_fd_inv.
  - split_and!; [exact Tj|exact Tt| |exact Tq|exact Tc]. by apply init_fd_tied.
Qed.

Lemma fd_add_api_ok r h p ok : good r h → enabled (AddFd p ok) r h →
  wp (run_api (AddFd p ok)) r (λ _, stepped (AddFd p ok) r h).
Proof.
  intros [[Hj Ht Hf Hl] (Tj & Tt & Tf & Tq & Tc)] (Hp & d & hd & user & Hd & Hok).
  destruct (decl_fd _ _ _ _ _ _ _ _ _ Tf Hd) as (f & Ep & Efd & _). subst d.
  assert (active f = false) as Ef by (destruct (active f) eqn:E; [by destruct (not_watching _ _ _ _ _ p f Tf Hp)|done]).
  cbn [run_api]. unfold void. wp_step. eapply wp_mono; [by apply add_fd_ok|].
  intros z r' es (-> & Hf' & Hr'). apply wp_ret. cbn [app].
  pose proof (add_fd_tied _ _ _ _ _ p f ok Tf Ep Hp Hok) as Tf'.
  destruct ok; [destruct Hr' as (c & ->)|subst r']; (split; [|by split]; split; [split; [exact Hj|exact Ht|exact Hf'|exact Hl]|]);
    (split_and!; [exact Tj|exact Tt|exact Tf'|exact Tq|exact Tc]).
Qed.

Lemma fd_remove_api_ok r h p ok : good r h → enabled (RemoveFd p ok) r h →
  wp (run_api (RemoveFd p ok)) r (λ _, stepped (RemoveFd p ok) r h).
Proof.
  intros [[Hj Ht Hf Hl] (Tj & Tt & Tf & Tq & Tc)] ([w Hw] & d & hd & user & Hd & Hok).
  destruct (watching_fd _ _ _ _ _ _ _ Tf Hw) as (f & Hact & _).
  destruct (decl_fd _ _ _ _ _ _ _ _ _ Tf Hd) as (f' & Ep & Efd & _).
  assert (f' = f) as -> by (destruct Hact; congruence). subst d.
  rewrite Hok by (rewrite (registered_fd _ _ _ _ _ _ _ Tf Hact); by eexists).
  eapply wp_mono; [by apply remove_fd_ok|]. intros [] r' es (-> & Hf' & c & ->).
  split; [|by split]. split; [split; [exact Hj|exact Ht|exact Hf'|exact Hl]|].
  split_and!; [exact Tj|exact Tt|by eapply remove_fd_tied|exact Tq|exact Tc].
Qed.

Lemma fd_events_api_ok r h p evs ok : good r h → enabled (SetFdEvents p evs ok) r h →
  wp (run_api (SetFdEvents p evs ok)) r (λ _, stepped (SetFdEvents p evs ok) r h).
Proof.
  intros [[Hj Ht Hf Hl] (Tj & Tt & Tf & Tq & Tc)] ([w Hw] & Hevs & d & hd & user & Hd & Hok).
  destruct (watching_fd _ _ _ _ _ _ _ Tf Hw) as (f & Hact & _).
  destruct (decl_fd _ _ _ _ _ _ _ _ _ Tf Hd) as (f' & Ep & Efd & _).
  assert (f' = f) as -> by (destruct Hact; congruence). subst d.
  rewrite Hok by (rewrite (registered_fd _ _ _ _ _ _ _ Tf Hact); by eexists).
  eapply wp_mono; [by apply set_fd_events_ok|]. intros [] r' es (Hf' & -> & ->).
  split; [|by split]. split; [split; [exact Hj|exact Ht|exact Hf'|exact Hl]|].
  pose proof (set_fd_tied _ _ _ _ _ p f evs true Tf Hact) as Tf'.
  destruct (waitEvents f =? evs); (split_and!; [exact Tj|exact Tt|exact Tf'|exact Tq|exact Tc]).
Qed.

(** ** Jobs, and all of it *)

Lemma job_api_ok r h o : good r h → enabled (Job o) r h →
  wp (run_api (Job o)) r (λ _, stepped (Job o) r h).
Proof.
  intros [[Hj Ht Hf Hl] (Tj & Tt & Tf & Tq & Tc)] [Hop _].
  destruct (run_op_ok (pending_jobs r) o Hj Hop) as (g & Eg & Ejobs & Hg).
  cbn [run_api]. unfold run_job. eapply wp_update; [by rewrite Eg|].
  split; [|by split]. split; [split; [exact Hg|exact Ht|exact Hf|exact Hl]|].
  split_and!; [|exact Tt|exact Tf|exact Tq|exact Tc]. cbn. by rewrite Ejobs, Tj.
Qed.

Lemma api_ok r h o : good r h → enabled o r h → wp (run_api o) r (λ _, stepped o r h).
Proof.
  intros Hg He. pose proof Hg as [[Hj Ht Hf Hl] (Tj & Tt & Tf & Tq & Tc)]. destruct o; cbn [enabled] in He.
  - by apply (init_api_ok r h _ p h0 None).
  - destruct He. by apply (init_api_ok r h _ p h0 (Some (MkBTimer user ms))).
  - destruct He as (? & ? & ? & ?). by apply set_api_ok.
  - apply remove_api_ok; auto.
  - destruct He as ((hd & user & ms & Hd) & Hnow). cbn [run_api]. unfold BReactor_SetTimer.
    pose proof Tt as (Hd' & _ & _ & Hms). pose proof Hd as Hd2. rewrite Hd' in Hd2. unfold decl_of in Hd2.
    apply bind_Some in Hd2 as (x & Ex & [= _ Hb]). destruct (is_small x); [done|].
    apply fmap_Some in Hb as (v & Ev & [= -> ->]). apply wp_bind. unfold wp at 1, get_btimer. rewrite Ev.
    eapply wp_mono; [apply (set_api_ok r h (SetTimer p now) p); try done|by intros].
    + by right.
    + by eapply Hms.
    + intros q. cbn. unfold default_time. case_decide as E; [|done]. subst q. by rewrite Hd.
  - destruct He as (? & ? & ?). apply set_api_ok; try done. by right.
  - destruct He as (? & ? & ?). apply set_api_ok; try done. by left.
  - apply remove_api_ok; auto.
  - by apply fd_init_api_ok.
  - by apply fd_add_api_ok.
  - by apply fd_remove_api_ok.
  - by apply fd_events_api_ok.
  - destruct He. eapply wp_mono; [by apply limit_init_ok|]. intros [] r' es (-> & Hl' & c & ->).
    split; [|by split]. split; [split; [exact Hj|exact Ht|exact Hf|exact Hl']|by split_and!].
  - eapply wp_mono; [by apply limit_free_ok|]. intros [] r' es (-> & Hl' & c & l & ->).
    split; [|by split]. split; [split; [exact Hj|exact Ht|exact Hf|exact Hl']|by split_and!].
  - destruct He as [x Ex]. cbn [run_api]. unfold void. wp_step. eapply wp_mono; [by apply limit_increment_ok|].
    intros z r' es (-> & Hl' & Hr'). apply wp_ret. destruct (limit x <=? count x).
    + destruct Hr' as [_ ->]. split; [|by split]. split; [split; [exact Hj|exact Ht|exact Hf|exact Hl']|by split_and!].
    + destruct Hr' as (_ & l & ->). split; [|by split]. split; [split; [exact Hj|exact Ht|exact Hf|exact Hl']|by split_and!].
  - destruct He. eapply wp_mono; [by apply limit_set_ok|]. intros [] r' es (-> & Hl' & m & ->).
    split; [|by split]. split; [split; [exact Hj|exact Ht|exact Hf|exact Hl']|by split_and!].
  - by apply job_api_ok.
  - cbn [run_api]. apply wp_modify. split; [|by split]. split; [split; [exact Hj|exact Ht|exact Hf|exact Hl]|]. by split_and!.
Qed.

(** ** Waiting *)

Definition quiet_call (e : call) : Prop :=
  match e with btime_gettime _ => True | epoll_wait _ answer _ => ¬ found answer | _ => False end.

Lemma note_app es es' h : note (es ++ es') h = note es' (note es h).
Proof. apply fold_left_app. Qed.
Lemma note_snoc es e h : note (es ++ [e]) h = Made e :: note es h.
Proof. by rewrite note_app. Qed.
Lemma clock_note es h : clock (note es h) = clock_after (clock h) es.
Proof. revert h. induction es as [|e es IH]; intros h; [done|]. cbn. by rewrite IH. Qed.

(** Quiet calls change nothing but the time. *)
Lemma note_quiet es h : Forall quiet_call es →
  job_stack (note es h) = job_stack h ∧ (∀ p, timer_decl p (note es h) = timer_decl p h) ∧
  (∀ p, armed p (note es h) = armed p h) ∧ (∀ p, fd_decl p (note es h) = fd_decl p h) ∧
  (∀ p, watching p (note es h) = watching p h) ∧ registered (note es h) = registered h ∧
  (∀ p, reported p (note es h) = reported p h) ∧ quit_code (note es h) = quit_code h.
Proof.
  intros Hes. revert h. induction Hes as [|e es He Hes IH]; intros h; [done|].
  cbn [note fold_left]. fold (note es (Made e :: h)).
  destruct (IH (Made e :: h)) as (E1 & E2 & E3 & E4 & E5 & E6 & E7 & E8).
  rewrite E1, E6, E8. setoid_rewrite E2. setoid_rewrite E3. setoid_rewrite E4. setoid_rewrite E5. setoid_rewrite E7.
  destruct e as [| | | | | | |timeout [error|[|pe l]] later| |]; try done. by destruct He.
Qed.
Lemma tied_quiet r h es : Forall quiet_call es → tied r h → clock h ≤ clock (note es h) ≤ INT64_MAX →
  tied r (note es h).
Proof.
  intros Hes (Tj & Tt & Tf & Tq & Tc) Hc. destruct (note_quiet es h Hes) as (E1 & E2 & E3 & E4 & E5 & E6 & E7 & E8).
  split_and!.
  - by rewrite E1.
  - apply (timers_tied_time _ _ h); [done..|lia].
  - by apply (fds_tied_hist _ _ _ _ h).
  - unfold quit_tied. by rewrite E8.
  - unfold clock_tied in *. lia.
Qed.

Lemma sleeps_clock timeout_abs c es : sleeps timeout_abs c es → c ≤ INT64_MAX → c ≤ clock_after c es ≤ INT64_MAX.
Proof.
  unfold clock_after. revert c. induction es as [|e es IH]; intros c Hs Hc; [cbn; lia|].
  destruct e as [| | | | | | |timeout answer later|t|]; try done; cbn in *.
  - destruct Hs as (_ & _ & Hl & _ & Hs). specialize (IH later Hs). lia.
  - destruct Hs as [-> Hs]. by apply IH.
Qed.
Lemma sleeps_split timeout_abs c es : sleeps timeout_abs c es →
  Forall quiet_call es ∨
  ∃ es' timeout answer later, es = es' ++ [epoll_wait timeout answer later] ∧ Forall quiet_call es' ∧ found answer.
Proof.
  revert c. induction es as [|e es IH]; intros c Hs; [by left|].
  destruct e as [| | | | | | |timeout answer later|t|]; try done; cbn in Hs.
  - destruct Hs as (_ & _ & _ & Hf & Hs). destruct answer as [error|[|pe l]].
    + destruct (IH _ Hs) as [|(es' & x & y & z & -> & ? & ?)]; [left; by constructor; [intros []|]|].
      right. exists (epoll_wait timeout (Wait_error error) later :: es'), x, y, z. split_and!; [done|by constructor; [intros []|]|done].
    + destruct (IH _ Hs) as [|(es' & x & y & z & -> & ? & ?)]; [left; by constructor; [intros []|]|].
      right. exists (epoll_wait timeout (Wait_results []) later :: es'), x, y, z. split_and!; [done|by constructor; [intros []|]|done].
    + rewrite Hf by done. right. by exists [], timeout, (Wait_results (pe :: l)), later.
  - destruct Hs as [-> Hs]. destruct (IH _ Hs) as [|(es' & x & y & z & -> & ? & ?)]; [left; by constructor|].
    right. exists (btime_gettime c :: es'), x, y, z. split_and!; [done|by constructor|done].
Qed.

Lemma tied_without_results r h : tied r h → tied (without_results r) h.
Proof.
  intros (Tj & Tt & (Hd & Hw & Hr & Hg) & Tq & Tc). split_and!; [exact Tj|exact Tt| |exact Tq|exact Tc].
  split_and!; [done..|]. intros i e p Hi. cbn in Hi. lia.
Qed.
Lemma tied_expired r r' h h' now la es : tied r h → expired_upto now la r r' → Forall quiet_call es →
  h' = note es h → clock h ≤ clock h' ≤ INT64_MAX → now ≤ clock h' → tied r' h'.
Proof.
  intros Ht Hla Hes -> Hc Hnow. destruct (tied_quiet r h es Hes Ht Hc) as (Tj & Tt & Tf & Tq & Tc).
  destruct Hla as ((t & ->) & _). split_and!; [exact Tj| |exact Tf|exact Tq|exact Tc].
  eapply timers_tied_expire; [exact Tt|done..|lia|done].
Qed.

Lemma wakes_tied timeout_abs r r' h es : tied r h → epoll_results_pos r = 0%nat → sleeps timeout_abs (clock h) es →
  wakes timeout_abs (clock h) r es r' → tied r' (note es h).
Proof.
  intros Ht Hpos Hs Hw. assert (clock h ≤ INT64_MAX) as Hc by apply Ht.
  pose proof (sleeps_clock _ _ _ Hs Hc) as Hck. rewrite <- clock_note in Hck.
  destruct Hw as [l es timeout later Hl Hne|t la es r1 Et Htc Hla Hne Hlast].
  - destruct (sleeps_split _ _ _ Hs) as [Hq|(es' & timeout' & answer & later' & [-> [= <- <- <-]]%app_inj_tail & Hes & Hf)].
    { apply Forall_app in Hq as [_ Hq]. apply (proj1 (Forall_singleton _ _)) in Hq. destruct l; [done|]. by destruct Hq. }
    rewrite note_snoc in *. cbn [clock call_time] in Hck.
    assert (clock h ≤ clock (note es' h) ≤ later) as Hmid.
    { clear -Hs Hc. revert Hs Hc. rewrite clock_note. unfold clock_after. generalize (clock h). induction es' as [|e es IH]; intros c Hs Hc; cbn in *; [lia|].
      destruct e as [| | | | | | |? ? l'|? |]; try done; cbn in *.
      - destruct Hs as (_ & _ & ? & _ & Hs). specialize (IH _ Hs). lia.
      - destruct Hs as [-> Hs]. by apply IH. }
    destruct (tied_quiet r h es' Hes Ht ltac:(lia)) as (Tj & Tt & Tf & Tq & Tc).
    split_and!; [exact Tj| | |exact Tq|unfold clock_tied in *; cbn; lia].
    + eapply timers_tied_time; [exact Tt|done..|cbn; lia].
    + change (fds_tied (set_pointers 0 l (fds r)) (store_results l (epoll_results r)) (length l) (epoll_results_pos r)
        (Made (epoll_wait timeout (Wait_results l) later) :: note es' h)).
      rewrite Hpos. by eapply results_fd_tied.
  - eapply tied_expired; [exact Ht|exact Hla| |done|done|by rewrite clock_note].
    destruct (sleeps_split _ _ _ Hs) as [Hq|(es' & timeout & answer & later & -> & _ & Hf)]; [done|].
    rewrite last_snoc in Hlast. destruct answer as [|[|]]; [done..|]. by specialize (Hlast _ _ _ eq_refl).
Qed.

Lemma quiet_time now : Forall quiet_call [btime_gettime now].
Proof. by apply Forall_singleton. Qed.

Lemma waited_tied r h now b r' es : tied r h → time_ok h now → waited (clock h) now r b r' es → b = true →
  tied r' (note es h).
Proof.
  intros Ht [Hnow Hmax] Hw Hb. assert (tied (without_results r) h) as Ht' by by apply tied_without_results.
  assert (tied (without_results r) (Made (btime_gettime now) :: h)) as Ht1.
  { apply (tied_quiet _ h [btime_gettime now]); [apply quiet_time|done|cbn; lia]. }
  destruct Hw as [t la r1 _ Hle Hla _|timeout_abs r1 es Hto Hne Hs Hwk|]; [| |done].
  - eapply (tied_expired _ _ _ _ _ _ [btime_gettime now]); [exact Ht'|exact Hla|apply quiet_time|done|cbn; lia|cbn; lia].
  - assert (tied r1 (note (start_calls timeout_abs now ++ es) h)) as H.
    { rewrite note_app. destruct timeout_abs as [t|]; cbn [start_calls start_time] in *;
        (eapply (wakes_tied _ (without_results r)); [|done|exact Hs|exact Hwk]); done. }
    destruct H as (Tj & Tt & Tf & Tq & Tc). split_and!; [exact Tj|exact Tt|exact Tf|exact Tq|exact Tc].
Qed.

(** ** Rounds *)

(** What is assumed of the kernel is what the reactor relies on. *)
Lemma kernel_results_ok r h l : tied r h → kernel_results h l → results_ok (fds r) l.
Proof.
  intros (_ & _ & (_ & _ & Hr & _) & _) (Hn & Hlen & Hl). split_and!; [done..|]. intros p e Hp.
  destruct (Hl p e Hp) as (d & evs & (f & Hf & _)%Hr). by exists f.
Qed.
Lemma answers_ok_mono (P Q : list (positive * Z) → Prop) o c answers : (∀ l, P l → Q l) →
  answers_ok P o c answers → answers_ok Q o c answers.
Proof.
  intros H. revert c. induction answers as [|[a later] answers IH]; intros c; [done|].
  cbn. intros (? & Ha & Hans). split_and!; [lia..| |by apply IH]. destruct a as [|[|]]; auto.
Qed.
Lemma armed_running r h p x : good r h → timers_expired_list r = [] →
  timers r !! p = Some x → state x ≠ TIMER_STATE_INACTIVE → running r p x.
Proof.
  intros [[_ Ht _ _] _] Eexp Ep Hx. split; [done|].
  destruct (state_cases x (ti_state _ _ _ _ Ht p x Ep)) as [|[|Hs]]; [done..|].
  assert (p ∈ timers_expired_list r) as Hp by (apply (ti_list _ _ _ _ Ht); by exists x).
  rewrite Eexp in Hp. by apply elem_of_nil in Hp.
Qed.
Lemma timer_armed r h p t : good r h → timers_expired_list r = [] →
  armed p h = Some t ↔ ∃ x, running r p x ∧ absTime x = t.
Proof.
  intros Hg Eexp. pose proof Hg as [_ (_ & (_ & Ha & _) & _)]. rewrite Ha. unfold armed_of, armed_timer. split.
  - intros (x & Ex & Hx)%bind_Some. destruct (Z.eqb_spec (state x) TIMER_STATE_INACTIVE); [done|].
    injection Hx as Hx. exists x. split; [by eapply armed_running|done].
  - intros (x & [Ex Hx] & <-). rewrite Ex. cbn. by rewrite Hx.
Qed.
Lemma timeout_alarm r h o : good r h → timers_expired_list r = [] → timeout_ok r o ↔ next_alarm h o.
Proof.
  intros Hg Eexp. pose proof (λ p t, timer_armed r h p t Hg Eexp) as Ha. destruct o as [t|]; cbn [timeout_ok next_alarm].
  - split.
    + intros (p & x & Hx & Et & Hl). split; [exists p; apply Ha; eauto|]. intros q t' (y & Hy & <-)%Ha. by eapply Hl.
    + intros ((p & Hp) & Hl). apply Ha in Hp as (x & Hx & Et). exists p, x. split_and!; [done..|].
      intros q y Hy. apply (Hl q). apply Ha. eauto.
  - split.
    + intros H p. destruct (armed p h) as [t|] eqn:E; [|done]. apply Ha in E as (x & Hx & _). by destruct (H p x).
    + intros H p x Hx. assert (armed p h = Some (absTime x)) as E by (apply Ha; eauto). by rewrite H in E.
Qed.
Lemma round_env_ok r h now answers : good r h → timers_expired_list r = [] → round_enabled now answers h →
  round_env r (clock h) now answers.
Proof.
  intros Hg Eexp [Hnow Hans]. split; [done|]. intros o Ho. eapply answers_ok_mono.
  - intros l. apply kernel_results_ok, Hg.
  - by apply Hans, (timeout_alarm r).
Qed.

Lemma round_tied r h now b r' es : good r h → time_ok h now → inv r' → round (clock h) now r b r' es → b ≠ Waiting →
  tied r' (note es h).
Proof.
  intros [Hinv Ht] Hnow Hinv' Hr Hb. pose proof Ht as (Tj & Tt & Tf & Tq & Tc).
  destruct Hr as [j rest g Ej Eg|p l x e _ El Ep Ex Ee|e _ _ Hpos Ee Hd|e p f b es _ _ Hpos Ee Hd Hact Hret Hb'|b r' es _ _ _ Hw].
  - split_and!; [|exact Tt|exact Tf|exact Tq|exact Tc]. cbn. rewrite <- Tj, Ej. done.
  - assert (∀ q, armed q (Made e :: h) = if decide (p = q) then None else armed q h) as Ha.
    { intros q. unfold timer_call in Ee. destruct (is_small x); [by injection Ee as <-|].
      apply fmap_Some in Ee as (v & _ & ->). done. }
    assert (∀ h', e = Call_small_timer p (handler x) ∨ (∃ u, e = Call_timer p (handler x) u) →
      job_stack (Made e :: h') = job_stack h' ∧ (∀ q, timer_decl q (Made e :: h') = timer_decl q h') ∧
      clock (Made e :: h') = clock h') as Hsame by (by intros h' [->|[u ->]]).
    assert (e = Call_small_timer p (handler x) ∨ (∃ u, e = Call_timer p (handler x) u)) as He.
    { unfold timer_call in Ee. destruct (is_small x); [left; by injection Ee|right].
      apply fmap_Some in Ee as (v & _ & ->). by eexists. }
    destruct (Hsame h He) as (E1 & E2 & E3). change (note [e] h) with (Made e :: h). split_and!.
    + rewrite E1. exact Tj.
    + apply (timers_tied_update _ _ h _ p x); try done. by rewrite E3.
    + destruct He as [->|[u ->]]; exact Tf.
    + destruct He as [->|[u ->]]; exact Tq.
    + unfold clock_tied. rewrite E3. exact Tc.
  - split_and!; [exact Tj|exact Tt|by apply next_fd_tied|exact Tq|exact Tc].
  - assert (fds_tied (<[p := f <| epoll_returned_ptr := None |>]> (fds r)) (epoll_results r) (epoll_results_num r)
      (S (epoll_results_pos r)) h) as Tf'.
    { eapply same_fd_tied; [by apply next_fd_tied|apply Hact|done..]. }
    cbv zeta in Hb'. destruct (report_events (waitEvents f) (events e) =? 0); destruct Hb' as [-> ->].
    + split_and!; [exact Tj|exact Tt|exact Tf'|exact Tq|exact Tc].
    + split_and!; [exact Tj|exact Tt| |exact Tq|exact Tc]. eapply called_fd_tied; [exact (i_fds _ Hinv')| |exact Tf'].
      intros g [(_ & -> & _)|[Hne _]]%active_fd_insert; done.
  - destruct b; [|done]. by eapply waited_tied.
Qed.

Lemma round_ok r h now answers : good r h → round_enabled now answers h →
  wp (exec_round now answers) r (λ b r' es, round (clock h) now r b r' es ∧ (b ≠ Waiting → good r' (note es h))).
Proof.
  intros Hg Hen. eapply wp_mono.
  - apply (exec_round_ok r (clock h)); [apply Hg|apply Hg|]. intros _ Eexp _. by apply round_env_ok.
  - intros b r' es [Hr Hi]. split; [done|]. intros Hb. split; [by apply Hi|]. eapply round_tied; [done|apply Hen|auto|done..].
Qed.

Lemma initial_good r : initial r → good r [].
Proof.
  intros (epfd & r0 & Hep & Hr & Hlen & Et & Eb & Ef & El). unfold BReactor_Init in Hr.
  rewrite (proj2 (Z.ltb_ge _ _) Hep) in Hr. injection Hr as <-. split.
  - split; cbn.
    + apply group_inv_init.
    + unfold timers_ok. cbn. rewrite Et, Eb. split.
      * eapply ot_set_ext; [apply ot_set_init|..]; [|by intros p (x & Hx & _); rewrite lookup_empty in Hx].
        intros p. split; [|done]. intros (x & Hx & _). by rewrite lookup_empty in Hx.
      * constructor.
      * intros p. rewrite elem_of_nil. split; [done|]. intros (x & Hx & _). by rewrite lookup_empty in Hx.
      * intros p x Hx. by rewrite lookup_empty in Hx.
      * intros p x Hx. by rewrite lookup_empty in Hx.
      * intros p x Hx. by rewrite lookup_empty in Hx.
    + unfold fds_ok. cbn. rewrite Ef. split.
      * split_and!; [done|lia..].
      * intros; lia.
      * intros p f i [Hp _]. by rewrite lookup_empty in Hp.
      * intros p f [Hp _]. by rewrite lookup_empty in Hp.
      * unfold counts, INT_MAX. split; [lia|]. intros _. unfold active_count. by rewrite map_filter_empty.
    + unfold limits_ok. cbn. rewrite El. split.
      * constructor.
      * intros p. rewrite elem_of_nil. split; [done|]. intros (x & Hx & _). by rewrite lookup_empty in Hx.
      * intros p x Hx. by rewrite lookup_empty in Hx.
      * unfold counts, INT_MAX. split; [lia|done].
  - split_and!; cbn.
    + done.
    + rewrite Et, Eb. split_and!.
      * intros p. unfold decl_of. by rewrite lookup_empty.
      * intros p. unfold armed_of. by rewrite lookup_empty.
      * intros p x Hx. by rewrite lookup_empty in Hx.
      * intros p v Hv. by rewrite lookup_empty in Hv.
    + rewrite Ef. split_and!; intros.
      * by rewrite lookup_empty.
      * by rewrite lookup_empty.
      * cbn. rewrite lookup_empty. split; [done|]. intros (f & [Hf _] & _). by rewrite lookup_empty in Hf.
      * lia.
    + done.
    + unfold clock_tied, INT64_MAX. cbn. lia.
Qed.

Lemma reach_good r h : reach r h → good r h.
Proof.
  induction 1 as [r Hi|r h o r' es _ IH He Hrun|r h now answers b r' es _ IH _ He Hrun Hb].
  - by apply initial_good.
  - pose proof (api_ok r h o IH He) as H. unfold wp in H. rewrite Hrun in H. apply H.
  - pose proof (round_ok r h now answers IH He) as H. unfold wp in H. rewrite Hrun in H. by apply H.
Qed.
End steps.
End BReactorSteps.

(** * What the loop guarantees *)
Module BReactorTheorems.
Import BReactorSpec BReactorTied BReactorSteps.

Section theorems.
Context {T : Type} `{!OrderedTree T}.
Implicit Types r : BReactor T.



(** What is due after waiting: exactly the timers set to a time up to [limit], in
    order of their times. *)
Definition due r' (h : history) (limit : Z) : Prop :=
  timers_expired_list r' ≠ [] ∧
  (∀ p, p ∈ timers_expired_list r' ↔ ∃ t, armed p h = Some t ∧ t ≤ limit) ∧
  StronglySorted (λ p q, ∀ t u, armed p h = Some t → armed q h = Some u → t ≤ u) (timers_expired_list r').

(** The events the next rounds dispatch are those just returned. *)
Definition returned r' (es : list call) : Prop :=
  ∃ timeout l later, last es = Some (epoll_wait timeout (Wait_results l) later) ∧ l ≠ [] ∧
    epoll_results_pos r' = 0%nat ∧ epoll_results_num r' = length l ∧
    ∀ i p e, l !! i = Some (p, e) → epoll_results r' !! i = Some (MkEvent (Some p) e).

Lemma expired_due r r' r0 h limit la : good r h → timers_expired_list r = [] →
  timers r0 = timers r → timers_expired_list r0 = [] → expired_upto limit la r0 r' → la ≠ [] → due r' h limit.
Proof.
  intros Hg Eexp Et El ((t & ->) & Hin & Hs & _) Hne. pose proof (λ p t, timer_armed r h p t Hg Eexp) as Ha.
  assert (∀ p x, running r0 p x ↔ running r p x) as Hrun by (intros; unfold running; by rewrite Et).
  unfold due. cbn. rewrite El. cbn. split_and!; [done| |].
  - intros p. rewrite Hin. setoid_rewrite Ha. setoid_rewrite Hrun. naive_solver.
  - clear Hne. assert (∀ p, p ∈ la → ∃ x, running r p x) as Hla by (intros p (x & Hx%Hrun & _)%Hin; eauto).
    clear Hin. induction Hs as [|p la Hs IH Hp]; constructor.
    + apply IH. intros q Hq. apply Hla. by right.
    + rewrite Forall_forall in Hp |- *. intros q Hq t1 t2 (x & [Ex _] & <-)%Ha (y & [Ey _] & <-)%Ha.
      specialize (Hp q Hq). unfold timer_before in Hp. rewrite Et in Hp. apply compare_pairs_lt in Hp.
      rewrite (timer_key_eq _ _ _ Ex), (timer_key_eq _ _ _ Ey) in Hp. cbn in Hp. lia.
Qed.

(** C18: the loop sleeps exactly as long as it may. When nothing is left to
    dispatch, and a timer's time has come, the loop does not sleep and makes all
    such timers due. Otherwise it calls [epoll_wait] with the time that is left
    until the earliest timer, at most INT_MAX, or without a timeout if no timer is
    set, again after each interruption; no timer's time comes before it sleeps.
    When it wakes up there is something to do: the returned events, or, once the
    time has come, the timers of that time; and all limits are reset. *)
Theorem reactor_waits r h now answers b r' es (Hr : reach r h) (Hen : round_enabled now answers h)
    (Hrun : exec_round now answers r = Some (b, r', es)) (Hb : b = Waiting ∨ (b = Continued ∧ es ≠ [])) :
  ∃ o, next_alarm h o ∧
    ((∃ t, o = Some t ∧ t ≤ now ∧ b = Continued ∧ es = [btime_gettime now] ∧ due r' h now) ∨
     (∃ es', es = start_calls o now ++ es' ∧ sleeps o (start_time o (clock h) now) es' ∧
       (b = Continued → (∀ p x, limits r' !! p = Some x → count x = 0) ∧
         (returned r' es' ∨ ∃ t, o = Some t ∧ t ≤ clock (note es h) ∧ due r' h t)))).
Proof.
  pose proof (reach_good r h Hr) as Hg. pose proof (round_ok r h now answers Hg Hen) as H.
  unfold wp in H. rewrite Hrun in H. destruct H as [Hround _]. clear Hrun.
  destruct Hround as [j rest g _ _|p l x e _ _ _ _ _|e _ _ _ _ _|e p f b es _ _ _ _ _ _ _ Hb'|b r' es Ej Eexp _ Hw];
    [by destruct Hb as [|[]]..|by destruct Hb as [|[_ ?]]| |].
  { cbv zeta in Hb'. destruct (_ =? 0), Hb' as [-> ->]; by destruct Hb as [|[]]. }
  clear Hb. destruct Hw as [t la r1 Hto Hle Hla Hne|o r1 es Hto Hne Hs Hwk|o es Hto Hs].
  - exists (Some t). split; [by apply (timeout_alarm r)|]. left. exists t. split_and!; [done..|].
    by apply (expired_due r r1 (without_results r) h now la).
  - exists o. split; [by apply (timeout_alarm r)|]. right. exists es. split_and!; [done..|]. intros _. split.
    { intros p x. cbn. rewrite lookup_fmap. by intros (y & _ & ->)%fmap_Some. }
    destruct Hwk as [l es timeout later Hl Hln|t la es r1 Et Htc Hla Hln _].
    + left. exists timeout, l, later. rewrite last_snoc. split_and!; [done..|]. intros i p e Hi.
      exact (lookup_store l _ i p e Hi).
    + right. exists t. split_and!; [done| |by apply (expired_due r r1 (without_results r) h t la)].
      rewrite note_app, clock_note. by destruct o.
  - exists o. split; [by apply (timeout_alarm r)|]. right. by exists es.
Qed.

(** ** Freeing the reactor *)

(** Everything is given back. *)
Definition torn_down r (h : history) : Prop :=
  objects (pending_jobs r) = ∅ ∧ limits r = ∅ ∧ (∀ p, armed p h = None) ∧ (∀ p, watching p h = None).

Lemma reactor_free_ok r h : good r h → torn_down r h →
  wp BReactor_Free r (λ _ _ es, es = [close (efd r)]).
Proof.
  intros [[Hj Ht Hf Hl] (Tj & Tt & Tf & _)] (Eo & El & Ha & Hw).
  assert (jobs (pending_jobs r) = []) as Ejobs.
  { destruct (jobs (pending_jobs r)) as [|j rest] eqn:E; [done|].
    destruct (gi_live _ Hj j) as [x Hx]; [rewrite E; left|]. by rewrite Eo, lookup_empty in Hx. }
  assert (∀ p x, timers r !! p = Some x → state x = TIMER_STATE_INACTIVE) as Hidle.
  { intros p x. by eapply disarmed. }
  destruct states_differ as (Hri & Hei & _).
  assert (timers_expired_list r = []) as Eexp.
  { destruct (timers_expired_list r) as [|p l] eqn:E; [done|]. assert (in_state (timers r) TIMER_STATE_EXPIRED p) as (x & Hx & Hs).
    { apply (ti_list _ _ _ _ Ht). rewrite E. left. }
    rewrite (Hidle p x Hx) in Hs. by destruct Hei. }
  assert (active_limits_list r = []) as Elim.
  { destruct (active_limits_list r) as [|p l] eqn:E; [done|].
    destruct (proj1 (li_list _ _ _ Hl p)) as (x & Hx & _); [rewrite E; left|]. by rewrite El, lookup_empty in Hx. }
  assert (∀ c n, counts c n → n = 0%nat → counter_free c = true) as Hfree.
  { intros c n [Hc Hn] ->. unfold counter_free. apply orb_true_iff. rewrite !Z.eqb_eq. lia. }
  destruct (tree_first_ok r Ht) as (o & Efst & Hfst).
  assert (o = None) as ->.
  { destruct o as [p|]; [|done]. destruct Hfst as (x & [Ex Hs] & _). rewrite (Hidle p x Ex) in Hs. by destruct Hri. }
  unfold BReactor_Free, BPendingGroup_HasJobs. wp_step. wp_step. rewrite Ejobs. wp_step. apply wp_assert; [done|].
  wp_step. eapply wp_tree_first; [done|]. wp_step. apply wp_assert; [done|]. rewrite Eexp, Elim.
  wp_step. apply wp_assert; [done|]. wp_step. apply wp_assert; [done|].
  wp_step. apply wp_assert.
  { eapply Hfree; [exact (fi_counter _ _ _ _ _ Hf)|]. unfold active_count. apply map_size_empty_iff, map_empty. intros p.
    apply map_lookup_filter_None. right. intros f Ep Ef. by eapply (not_watching _ _ _ _ _ p f Tf). }
  wp_step. apply wp_assert; [by eapply Hfree; [exact (li_counter _ _ _ Hl)|rewrite El]|].
  wp_step. wp_step. apply wp_assert; [|done]. unfold BPendingGroup_Free.
  rewrite Ejobs, (gi_ctr _ Hj), Eo. done.
Qed.

(** ** The whole loop *)

(** A handler that makes the requests [ops] and returns. *)
Fixpoint run_apis (ops : list api) : prog (BReactor T) call unit :=
  match ops with
  | [] => mret tt
  | o :: ops => run_api o;; run_apis ops
  end.
Fixpoint allowed (ops : list api) r (h : history) : Prop :=
  match ops with
  | [] => True
  | o :: ops => enabled o r h ∧ ∀ r' es, run_api o r = Some (tt, r', es) → allowed ops r' (note es (Did o :: h))
  end.
(** The calls and requests of a handler, as they are added to the history. *)
Fixpoint after_apis (ops : list api) r (h : history) : history :=
  match ops with
  | [] => h
  | o :: ops => match run_api o r with
                | Some (_, r', es) => after_apis ops r' (note es (Did o :: h))
                | None => h
                end
  end.

(** The turns of a call of [BReactor_Exec]: each finds what the system may
    answer, and its handler makes requests that are allowed. *)
Fixpoint served (turns : list (turn T)) r (h : history) : Prop :=
  match turns with
  | [] => True
  | t :: turns =>
      exiting r = true ∨
      round_enabled (turn_now t) (turn_answers t) h ∧ ∃ ops, turn_handler t = run_apis ops ∧
      ∀ b r1 es1, exec_round (turn_now t) (turn_answers t) r = Some (b, r1, es1) →
        match b with
        | Called => allowed ops r1 (note es1 h) ∧
            ∀ r2 es2, run_apis ops r1 = Some (tt, r2, es2) → served turns r2 (after_apis ops r1 (note es1 h))
        | Continued => served turns r1 (note es1 h)
        | Waiting => True
        end
  end.

Lemma run_apis_ok ops r h : reach r h → allowed ops r h →
  wp (run_apis ops) r (λ _ r' _, reach r' (after_apis ops r h)).
Proof.
  revert r h. induction ops as [|o ops IH]; intros r h Hr Ha; cbn [run_apis after_apis]; [by apply wp_ret|].
  destruct Ha as [He Ha]. pose proof (api_ok r h o (reach_good r h Hr) He) as ([] & r' & es & E & _)%wp_some.
  wp_step. rewrite E. unfold wp at 1. rewrite E. apply IH; [by eapply reach_api|by apply Ha].
Qed.

Lemma exec_ok turns r h : reach r h → served turns r h →
  wp (BReactor_Exec turns) r (λ res r' _, res = None ∨ ∃ h', reach r' h' ∧ res = quit_code h').
Proof.
  revert r h. induction turns as [|t turns IH]; intros r h Hr Hs; pose proof (reach_good r h Hr) as Hg;
    pose proof Hg as [_ (_ & _ & _ & Hq & _)]; cbn [BReactor_Exec]; wp_step; wp_step; destruct (exiting r) eqn:Ex;
    try (apply wp_ret; right; exists h; split; [done|]; unfold quit_tied in Hq; destruct (quit_code h); [by destruct Hq as [_ ->]|done]).
  - apply wp_ret. by left.
  - destruct Hs as [|(Hen & ops & Hh & Hnext)]; [congruence|]. wp_step.
    pose proof (round_ok r h _ _ Hg Hen) as (b & r1 & es1 & E & _ & _)%wp_some. unfold wp at 1. rewrite E.
    specialize (Hnext _ _ _ E). destruct b.
    + assert (reach r1 (note es1 h)) as Hr1 by by eapply reach_round. rewrite Hh. destruct Hnext as [Ha Hnext].
      pose proof (run_apis_ok ops r1 _ Hr1 Ha) as ([] & r2 & es2 & E2 & Hr2)%wp_some.
      wp_step. unfold wp at 1. rewrite E2. apply (IH r2 _ Hr2). by eapply Hnext.
    + apply (IH r1 (note es1 h)); [by eapply reach_round|done].
    + apply wp_ret. by left.
Qed.

(** The handlers of the jobs that [BReactor_Synchronize] runs: their requests are
    allowed, and unless they quit they leave the reference job set. *)
Fixpoint synced (ref : nat) (handlers : list (prog (BReactor T) call unit)) r (h : history) : Prop :=
  exiting r = true ∨
  ref ∈ job_stack h ∧
  match handlers with
  | [] => True
  | m :: handlers =>
      ∃ ops, m = run_apis ops ∧
      ∀ r1 es1, dispatch_job r = Some (Called, r1, es1) → allowed ops r1 (note es1 h) ∧
        ∀ r2 es2, run_apis ops r1 = Some (tt, r2, es2) → synced ref handlers r2 (after_apis ops r1 (note es1 h))
  end.

Lemma synchronize_ok ref handlers r h : reach r h → synced ref handlers r h →
  wp (BReactor_Synchronize ref handlers) r (λ res r' _, res = None ∨ ∃ h', reach r' h' ∧
    (res = Some 1 ∧ head (job_stack h') = Some ref ∨ res = Some 0 ∧ is_Some (quit_code h'))).
Proof.
  revert r h. induction handlers as [|m handlers IH]; intros r h Hr Hs; pose proof (reach_good r h Hr) as Hg;
    pose proof Hg as [[Hj _ _ _] (Tj & _ & _ & Hq & Hc)]; cbn [BReactor_Synchronize]; wp_step; wp_step; destruct (exiting r) eqn:Ex.
  1, 3: apply wp_ret; right; exists h; split; [done|]; right; split; [done|]; unfold quit_tied in Hq;
    destruct (quit_code h); [by eexists|congruence].
  all: destruct Hs as [|[Href Hs]]; [congruence|]; rewrite <- Tj in Href; wp_step; apply wp_assert;
    [unfold BPendingGroup_HasJobs; by rewrite bool_decide_eq_false_2 by (intros E; rewrite E in Href; by apply elem_of_nil in Href)|].
  all: unfold BPendingGroup_PeekJob; case_bool_decide as Hh;
    [apply wp_ret; right; exists h; split; [done|]; left; by rewrite <- Tj|].
  - apply wp_ret. by left.
  - destruct Hs as (ops & -> & Hnext).
    assert (exec_round (clock h) [] r = dispatch_job r) as Eround.
    { unfold exec_round, BPendingGroup_HasJobs. unfold mbind, prog_bind, get_st at 1.
      rewrite bool_decide_eq_false_2 by (intros E; rewrite E in Href; by apply elem_of_nil in Href). cbn [negb].
      by destruct (dispatch_job r) as [[[??]?]|]. }
    assert (round_enabled (clock h) [] h) as Hen.
    { split; [|done]. unfold time_ok, clock_tied in *. lia. }
    pose proof (round_ok r h _ _ Hg Hen) as (b & r1 & es1 & E & Hround & _)%wp_some.
    assert (b = Called) as ->.
    { destruct Hround as [j rest g _ _| | | |]; [done|..]; (exfalso; destruct (jobs (pending_jobs r)); [by apply elem_of_nil in Href|done]). }
    assert (reach r1 (note es1 h)) as Hr1 by by eapply reach_round.
    rewrite Eround in E. destruct (Hnext _ _ E) as [Ha Hnext'].
    pose proof (run_apis_ok ops r1 _ Hr1 Ha) as ([] & r2 & es2 & E2 & Hr2)%wp_some.
    wp_step. unfold wp at 1. rewrite E. wp_step. unfold wp at 1. rewrite E2. apply (IH r2 _ Hr2). by eapply Hnext'.
Qed.

(** C17: the event loop never fails. In every state that the program's requests and
    rounds of the loop can reach, in any order, every request the documentation
    allows and every round completes: no assertion of the reactor fails, no
    object is used that does not exist, the results stay within their array, the
    time left does not overflow, [epoll_ctl] is never refused where the reactor
    forbids it, and the tree, the lists and the results agree with the states kept
    in the objects. So does [BReactor_Exec] as a whole, which returns only after
    the program has quit, with the last code it gave, and [BReactor_Synchronize],
    which returns 1 when the reference job is the next one to run and 0 only after
    the program has quit; and once the program has given everything back, freeing
    the reactor completes and closes its descriptor. *)
Theorem reactor_safe r h (Hr : reach r h) :
  inv r ∧
  (∀ o, enabled o r h → ∃ r' es, run_api o r = Some (tt, r', es) ∧ inv r') ∧
  (∀ now answers, round_enabled now answers h → ∃ b r' es, exec_round now answers r = Some (b, r', es) ∧
    (b ≠ Waiting → inv r')) ∧
  (∀ turns, served turns r h → ∃ res r' es, BReactor_Exec turns r = Some (res, r', es) ∧
    (res = None ∨ ∃ h', reach r' h' ∧ res = quit_code h')) ∧
  (∀ ref handlers, synced ref handlers r h → ∃ res r' es, BReactor_Synchronize ref handlers r = Some (res, r', es) ∧
    (res = None ∨ ∃ h', reach r' h' ∧
      (res = Some 1 ∧ head (job_stack h') = Some ref ∨ res = Some 0 ∧ is_Some (quit_code h')))) ∧
  (torn_down r h → ∃ r', BReactor_Free r = Some (tt, r', [close (efd r)])).
Proof.
  pose proof (reach_good r h Hr) as Hg. split_and!; [apply Hg|..].
  - intros o Ho. pose proof (api_ok r h o Hg Ho) as ([] & r' & es & E & H)%wp_some. exists r', es. split; [done|apply H].
  - intros now answers Hen. pose proof (round_ok r h now answers Hg Hen) as (b & r' & es & E & _ & H)%wp_some.
    exists b, r', es. split; [done|]. intros Hb. by apply H.
  - intros turns Hs. pose proof (exec_ok turns r h Hr Hs) as (res & r' & es & E & H)%wp_some. by exists res, r', es.
  - intros ref handlers Hs. pose proof (synchronize_ok ref handlers r h Hr Hs) as (res & r' & es & E & H)%wp_some.
    by exists res, r', es.
  - intros Htd. pose proof (reactor_free_ok r h Hg Htd) as ([] & r' & es & E & ->)%wp_some. by exists r'.
Qed.

(** ** Expired timers are called *)

(** A request that neither concerns the timer [p] nor sets a job nor quits. *)
Definition calm (p : positive) (o : api) : Prop :=
  match o with
  | SmallTimer_Init q _ | Timer_Init q _ _ _ | SetSmallTimer q _ _ _ | RemoveSmallTimer q | SetTimer q _
  | SetTimerAfter q _ _ | SetTimerAbsolute q _ _ | RemoveTimer q => q ≠ p
  | Job (OSet _) | Quit _ => False
  | _ => True
  end.

(** An execution of [n] rounds with calm requests between them, and its calls. *)
Inductive calm_run (p : positive) : nat → BReactor T → history → list call → Prop :=
  | calm_nil r h : calm_run p 0 r h []
  | calm_api n r h o r' es es' : enabled o r h → calm p o → run_api o r = Some (tt, r', es) →
      calm_run p n r' (note es (Did o :: h)) es' → calm_run p n r h (es ++ es')
  | calm_round n r h now answers b r' es es' : exiting r = false → round_enabled now answers h →
      exec_round now answers r = Some (b, r', es) → b ≠ Waiting →
      calm_run p n r' (note es h) es' → calm_run p (S n) r h (es ++ es').

Definition calls_timer (p : positive) (e : call) : Prop :=
  match e with Call_small_timer q _ | Call_timer q _ _ => q = p | _ => False end.

(** How many handlers are called before that of [p]. *)
Definition ahead r (p : positive) (n : nat) : Prop :=
  ∃ l1 l2, timers_expired_list r = l1 ++ p :: l2 ∧ n = (length (jobs (pending_jobs r)) + length l1)%nat.

Lemma calm_ahead p o r h r' es n : stepped o r h r' es → calm p o → enabled o r h → ahead r p n →
  ∃ n', ahead r' p n' ∧ (n' ≤ n)%nat.
Proof.
  intros (_ & El & Ej) Hc He (l1 & l2 & Eexp & ->).
  assert (length (jobs (pending_jobs r')) ≤ length (jobs (pending_jobs r)))%nat as Hj.
  { rewrite Ej. destruct o; cbn [jobs_after]; try done. destruct o; cbn; try done; [apply length_filter..|].
    by destruct He. }
  assert (∀ q, q ≠ p → list_remove q (l1 ++ p :: l2) = list_remove q l1 ++ p :: list_remove q l2) as Hrm.
  { intros q Hq. unfold list_remove. rewrite filter_app, filter_cons_True by done. done. }
  assert (∃ l1' l2', expired_after o (l1 ++ p :: l2) = l1' ++ p :: l2' ∧ (length l1' ≤ length l1)%nat) as (l1' & l2' & E & Hl).
  { destruct o; cbn [expired_after calm] in *; try (by exists l1, l2); (rewrite Hrm by done; eexists _, _;
      split; [done|apply length_filter]). }
  eexists. split; [exists l1', l2'; split; [|done]|lia]. by rewrite El, Eexp.
Qed.

Lemma round_ahead p c now r b r' es n : timers_ok r → round c now r b r' es → ahead r p n →
  (∃ e, es = [e] ∧ calls_timer p e) ∨ ∃ n', ahead r' p n' ∧ S n' = n.
Proof.
  intros Hok Hr (l1 & l2 & Eexp & ->).
  destruct Hr as [j rest g Ej Eg|q l x e Ej El Ep Ex Ee|e Ej El _ _ _|e q f b es Ej El _ _ _ _ _ _|b r' es Ej El _ _];
    try (rewrite El in Eexp; by destruct l1).
  - right. rewrite Ej. eexists. split; [by exists l1, l2|]. cbn. by rewrite Eg.
  - rewrite El in Eexp. destruct l1 as [|q' l1]; cbn in Eexp; injection Eexp as -> ->.
    + left. exists e. split; [done|]. unfold timer_call in Ee. destruct (is_small x); [by injection Ee as <-|].
      by apply fmap_Some in Ee as (v & _ & ->).
    + right. rewrite Ej. eexists. split; [by exists l1, l2|]. cbn. by rewrite Ej.
Qed.

(** C25: an expired timer is called soon. Once a timer is due, whatever events
    arrive and whatever the program does, short of setting jobs, quitting or
    touching this timer, its handler is called within one round more than there
    are jobs set and timers due before it. *)
Theorem reactor_timer_fires r h p n k es (Hr : reach r h) (Ha : ahead r p k) (Hn : (k < n)%nat)
    (Hrun : calm_run p n r h es) :
  ∃ e, e ∈ es ∧ calls_timer p e.
Proof.
  pose proof (reach_good r h Hr) as Hg. clear Hr. revert k Ha Hn Hg.
  induction Hrun as [r h|n r h o r' es es' He Hc Hstep _ IH|n r h now answers b r' es es' _ Hen Hstep Hb _ IH]; intros k Ha Hn Hg.
  - lia.
  - pose proof (api_ok r h o Hg He) as H. unfold wp in H. rewrite Hstep in H.
    destruct (calm_ahead p o r h r' es k H Hc He Ha) as (k' & Ha' & Hk).
    destruct (IH k' Ha') as (e & Hin & Hcall); [lia|apply H|]. exists e. split; [|done]. apply elem_of_app. by right.
  - pose proof (round_ok r h now answers Hg Hen) as H. unfold wp in H. rewrite Hstep in H. destruct H as [Hround Hg'].
    destruct (round_ahead p _ _ _ _ _ _ k (i_timers _ (proj1 Hg)) Hround Ha) as [(e & -> & Hcall)|(k' & Ha' & Hk)].
    + exists e. split; [|done]. apply elem_of_app. left. by apply list_elem_of_singleton.
    + destruct (IH k' Ha') as (e & Hin & Hcall); [lia|by apply Hg'|]. exists e. split; [|done]. apply elem_of_app. by right.
Qed.
End theorems.

(** ** A concrete execution

    A timer that is due at once, a job, and a descriptor. *)
#[local] Existing Instance CAvlOrder.cavl_ordered_tree.

Definition blank : BReactor (CAvlCode.CAvl unit) :=
  MkReactor false 0 BPendingCode.BPendingGroup_Init ot_init [] [] 0 (replicate 64 (MkEvent None 0)) 0 0 0 0 ∅ ∅ ∅ ∅.
Definition demo_start : BReactor (CAvlCode.CAvl unit) := snd (BReactor_Init 3 blank).
Definition demo_ops : list api := [SmallTimer_Init 1 100; SetSmallTimer 1 BTIMER_SET_ABSOLUTE 0 0].
Definition demo_set : BReactor (CAvlCode.CAvl unit) :=
  match run_apis demo_ops demo_start with Some (_, r, _) => r | None => blank end.
(** After the round that finds the timer expired. *)
Definition demo_due : BReactor (CAvlCode.CAvl unit) :=
  match exec_round 0 [] demo_set with Some (_, r, _) => r | None => blank end.
Definition demo_history : history := [Made (btime_gettime 0); Did (SetSmallTimer 1 BTIMER_SET_ABSOLUTE 0 0); Did (SmallTimer_Init 1 100)].

Lemma demo_start_reach : reach demo_start [].
Proof. apply reach_init. exists 3, blank. by split_and!. Qed.
Lemma demo_set_reach : reach demo_set (tail demo_history).
Proof.
  eapply (reach_api _ [Did (SmallTimer_Init 1 100)] (SetSmallTimer 1 BTIMER_SET_ABSOLUTE 0 0) _ []);
    [eapply (reach_api _ [] (SmallTimer_Init 1 100) _ []); [apply demo_start_reach|done|reflexivity]| |].
  - split; [by eexists|]. split; [by left|]. unfold is_time, time_ok, INT64_MIN, INT64_MAX. cbn. lia.
  - vm_compute. reflexivity.
Qed.
Lemma round_enabled_nil (h : history) : clock h = 0 → round_enabled 0 [] h.
Proof. intros E. split; [unfold time_ok, INT64_MAX; lia|done]. Qed.
Lemma demo_due_reach : reach demo_due demo_history.
Proof.
  eapply (reach_round demo_set (tail demo_history) 0 [] Continued _ [btime_gettime 0]);
    [apply demo_set_reach|reflexivity|by apply round_enabled_nil|vm_compute; reflexivity|done].
Qed.

Lemma reactor_safe_witness : inv demo_due ∧ ∃ r' es, run_api (Quit 0) demo_due = Some (tt, r', es) ∧ inv r'.
Proof. split; [apply (reactor_safe _ _ demo_due_reach)|]. by apply (reactor_safe _ _ demo_due_reach). Defined.


Lemma reactor_waits_witness : ∃ o, next_alarm (tail demo_history) o.
Proof.
  destruct (reactor_waits demo_set (tail demo_history) 0 [] Continued demo_due [btime_gettime 0] demo_set_reach)
    as (o & Ho & _).
  - by apply round_enabled_nil.
  - vm_compute. reflexivity.
  - by right.
  - by exists o.
Defined.

Lemma reactor_timer_fires_witness : ∃ e, e ∈ [Call_small_timer 1 100] ∧ calls_timer 1 e.
Proof.
  apply (reactor_timer_fires demo_due demo_history 1 1 0 [Call_small_timer 1 100] demo_due_reach).
  - by exists [], [].
  - lia.
  - eapply (calm_round 1 0 _ _ 0 [] Called _ [Call_small_timer 1 100] []);
      [reflexivity|by apply round_enabled_nil|vm_compute; reflexivity|done|constructor].
Defined.
End BReactorTheorems.
