(* ===== verification/ReactorClient.v ===== *)
(** What a client of the event loop relies on: the part of the reactor's state
    that its objects live in, what each request does to it, and that requests
    for other objects and rounds of the loop leave it alone. *)
From S2P Require Import Prelude Misc BAddr TreeInterface BPending BReactor BReactorRun.

Module ReactorClient.
Import BReactorSpec BReactorTied BReactorSteps.

(** For each descriptor object its descriptor and, while it is added, the events
    it waits for; the jobs that are set, the next one first; the jobs that are
    initialised; the limits. *)
Record cview := MkView {
  v_fds : gmap positive (Z * option Z);
  v_stack : list nat;
  v_jobs : gset nat;
  v_limits : gmap positive BReactorLimit
}.
#[global] Instance eta_cview : Eta cview := λ x, MkView (v_fds x) (v_stack x) (v_jobs x) (v_limits x).

Definition fd_view (f : BFileDescriptor) : Z * option Z := (fd f, watched f).

(** The object is not added to the reactor. *)
Definition off (v : cview) (p : positive) : Prop := ∀ d w, v_fds v !! p ≠ Some (d, Some w).

Section client.
Context {T : Type} `{!OrderedTree T}.
Implicit Types r : BReactor T.

Definition view r : cview :=
  MkView (fd_view <$> fds r) (jobs (pending_jobs r)) (dom (objects (pending_jobs r))) (limits r).

Lemma view_fd r p d w : v_fds (view r) !! p = Some (d, w) → ∃ f, fds r !! p = Some f ∧ fd f = d ∧ watched f = w.
Proof. cbn. rewrite lookup_fmap. intros (f & ? & [= -> ->])%fmap_Some. by exists f. Qed.
Lemma view_active r p d w : v_fds (view r) !! p = Some (d, Some w) →
  ∃ f, active_fd (fds r) p f ∧ fd f = d ∧ waitEvents f = w.
Proof.
  intros (f & Ef & Ed & Ew)%view_fd. exists f. unfold watched in Ew. destruct (active f) eqn:Ha; [|done].
  injection Ew as <-. by split_and!.
Qed.
Lemma view_off r p : off (view r) p ↔ ∀ f, ¬ active_fd (fds r) p f.
Proof.
  unfold off. cbn. split.
  - intros H f [Ef Ha]. apply (H (fd f) (waitEvents f)). by rewrite lookup_fmap, Ef; unfold fd_view, watched; cbn; rewrite Ha.
  - intros H d w (f & Hf & _)%(view_active r p). by apply (H f).
Qed.

Section reached.
Context {r : BReactor T} {h : history} (Hr : reach r h).

Lemma client_inv : inv r.
Proof. apply (reach_good _ _ Hr). Qed.
Lemma stack_nodup : NoDup (v_stack (view r)).
Proof. apply (gi_nodup _ (i_jobs _ client_inv)). Qed.
Lemma stack_jobs j : j ∈ v_stack (view r) → j ∈ v_jobs (view r).
Proof. intros H. apply elem_of_dom. by apply (gi_live _ (i_jobs _ client_inv)). Qed.

Lemma reach_off p : off (view r) p ↔ watching p h = None.
Proof.
  pose proof (reach_good _ _ Hr) as [_ (_ & _ & (_ & Hw & _) & _)]. rewrite view_off, Hw. unfold watched.
  destruct (fds r !! p) as [f|] eqn:E; cbn; [|split; [done|by intros _ f [? _]; congruence]].
  destruct (active f) eqn:Ea.
  - split; [|done]. intros H. by destruct (H f).
  - split; [done|]. intros _ g []. congruence.
Qed.
Lemma reach_watching p d w : v_fds (view r) !! p = Some (d, Some w) → watching p h = Some w.
Proof.
  intros (f & [Ef Ea] & _ & <-)%view_active. pose proof (reach_good _ _ Hr) as [_ (_ & _ & (_ & Hw & _) & _)].
  rewrite Hw, Ef. cbn. unfold watched. by rewrite Ea.
Qed.
Lemma reach_decl p d w : v_fds (view r) !! p = Some (d, w) → ∃ hd user, fd_decl p h = Some (d, hd, user).
Proof.
  intros (f & Ef & <- & _)%view_fd. pose proof (reach_good _ _ Hr) as [_ (_ & _ & (Hd & _) & _)].
  rewrite Hd, Ef. by eexists _, _.
Qed.
Lemma reach_registered d : registered h !! d = None ↔ ∀ p w, v_fds (view r) !! p ≠ Some (d, Some w).
Proof.
  pose proof (reach_good _ _ Hr) as [_ (_ & _ & (_ & _ & Hg & _) & _)]. split.
  - intros E p w (f & Ha & Ed & Ew)%view_active.
    assert (registered h !! d = Some (p, epoll_mask (waitEvents f))); [|congruence]. apply Hg. by exists f.
  - intros H. destruct (registered h !! d) as [[p evs]|] eqn:E; [|done]. apply Hg in E as (f & [Ef Ea] & Ed & _).
    destruct (H p (waitEvents f)). cbn. rewrite lookup_fmap, Ef. cbn. unfold fd_view, watched. by rewrite Ea, Ed.
Qed.

(** [m] is the function that the request [o] is for. *)
Lemma request {A} (o : api) (m : prog (BReactor T) call A) (P : A → BReactor T → Prop) :
  (∀ a r' es, m r = Some (a, r', es) → run_api o r = Some (tt, r', es)) → enabled o r h →
  wp m r (λ a r' _, P a r') → wp m r (λ a r' es, reach r' (note es (Did o :: h)) ∧ P a r').
Proof.
  unfold wp. destruct (m r) as [[[a r'] es]|]; [|done]. intros Hm He HP. split; [|done].
  apply (reach_api r h o r' es Hr He). by eapply Hm.
Qed.

Lemma request_init_fd p d hd user : off (view r) p →
  wp (BFileDescriptor_Init p d hd user) r (λ _ r' es, reach r' (note es (Did (Fd_Init p d hd user) :: h)) ∧
    view r' = view r <| v_fds := <[p := (d, None)]> (v_fds (view r)) |>).
Proof.
  intros Hoff. apply (request (Fd_Init p d hd user)); [by intros []|by apply reach_off|].
  unfold BFileDescriptor_Init. apply wp_modify. unfold view, upd; cbn. by rewrite fmap_insert.
Qed.

Lemma request_add_fd p d ok : v_fds (view r) !! p = Some (d, None) →
  (ok = true → ∀ q w, v_fds (view r) !! q ≠ Some (d, Some w)) →
  wp (BReactor_AddFileDescriptor p ok) r (λ a r' es, reach r' (note es (Did (AddFd p ok) :: h)) ∧
    if ok then a = 1 ∧ view r' = view r <| v_fds := <[p := (d, Some 0)]> (v_fds (view r)) |> else a = 0 ∧ r' = r).
Proof.
  intros Ep Hok. destruct (reach_decl p d None Ep) as (hd & user & Hd).
  assert (off (view r) p) as Hoff by (intros d' w'; rewrite Ep; congruence).
  apply (request (AddFd p ok)).
  - intros a r' es E. cbn [run_api]. unfold void, mbind, prog_bind. rewrite E. cbn. by rewrite app_nil_r.
  - split; [by apply reach_off|]. exists d, hd, user. split; [done|]. intros Eok. by apply reach_registered, Hok.
  - apply view_fd in Ep as (f & Ef & <- & Ew). unfold watched in Ew. destruct (active f) eqn:Ea; [done|].
    unfold BReactor_AddFileDescriptor. wp_step. eapply wp_get_fd; [done|]. wp_step. apply wp_assert; [by rewrite Ea|].
    wp_step. wp_step. destruct ok; cbn [negb]; [|by apply wp_ret].
    wp_step. eapply wp_set_fd; [done|]. wp_step. eapply wp_set_fd; [cbn; apply lookup_insert_eq|].
    wp_step. destruct (counter_increment_ok _ _ (fi_counter _ _ _ _ _ (i_fds _ client_inv))) as (c & Ec & _).
    eapply wp_update; [cbn; by rewrite Ec|]. apply wp_ret. split; [done|].
    unfold view, upd; cbn. by rewrite insert_insert_eq, fmap_insert.
Qed.

Lemma request_remove_fd p d w : v_fds (view r) !! p = Some (d, Some w) →
  wp (BReactor_RemoveFileDescriptor p true) r (λ _ r' es, reach r' (note es (Did (RemoveFd p true) :: h)) ∧
    view r' = view r <| v_fds := <[p := (d, None)]> (v_fds (view r)) |>).
Proof.
  intros Ep. destruct (reach_decl p _ _ Ep) as (hd & user & Hd). pose proof (reach_watching p d w Ep) as Hw.
  apply (request (RemoveFd p true)); [by intros []| |].
  - split; [by rewrite Hw|]. by exists d, hd, user.
  - apply view_active in Ep as (f & Hf & <- & _). eapply wp_mono; [apply remove_fd_ok; [apply client_inv|exact Hf]|].
    intros [] r' es (_ & _ & c & ->). unfold view, upd; cbn. by rewrite fmap_insert.
Qed.

Lemma request_set_fd p d w evs : v_fds (view r) !! p = Some (d, Some w) → 0 ≤ evs ≤ 3 →
  wp (BReactor_SetFileDescriptorEvents p evs true) r (λ _ r' es, reach r' (note es (Did (SetFdEvents p evs true) :: h)) ∧
    view r' = view r <| v_fds := <[p := (d, Some evs)]> (v_fds (view r)) |>).
Proof.
  intros Ep Hevs. destruct (reach_decl p _ _ Ep) as (hd & user & Hd). pose proof (reach_watching p d w Ep) as Hw.
  apply (request (SetFdEvents p evs true)); [by intros []| |].
  - split; [by rewrite Hw|]. split; [done|]. by exists d, hd, user.
  - apply view_active in Ep as (f & Hf & <- & _). eapply wp_mono; [apply set_fd_events_ok; [apply client_inv|exact Hf|done]|].
    intros [] r' es (_ & _ & ->). unfold view, upd; cbn. rewrite fmap_insert. unfold fd_view at 1, watched; cbn.
    destruct Hf as [_ ->]. done.
Qed.

Lemma request_limit_init p lim : v_limits (view r) !! p = None → 0 < lim ≤ INT_MAX →
  wp (BReactorLimit_Init p lim) r (λ _ r' es, reach r' (note es (Did (Limit_Init p lim) :: h)) ∧
    view r' = view r <| v_limits := <[p := MkLimit lim 0]> (v_limits (view r)) |>).
Proof.
  intros Ep Hlim. apply (request (Limit_Init p lim)); [by intros []|by split|].
  eapply wp_mono; [apply limit_init_ok; [apply client_inv|done|done]|]. by intros [] r' es (_ & _ & c & ->).
Qed.
Lemma request_limit_free p : is_Some (v_limits (view r) !! p) →
  wp (BReactorLimit_Free p) r (λ _ r' es, reach r' (note es (Did (Limit_Free p) :: h)) ∧
    view r' = view r <| v_limits := delete p (v_limits (view r)) |>).
Proof.
  intros Ep. apply (request (Limit_Free p)); [by intros []|done|].
  eapply wp_mono; [apply limit_free_ok; [apply client_inv|done]|]. by intros [] r' es (_ & _ & c & l & ->).
Qed.
Lemma request_limit_increment p x : v_limits (view r) !! p = Some x →
  wp (BReactorLimit_Increment p) r (λ a r' es, reach r' (note es (Did (Limit_Increment p) :: h)) ∧
    if limit x <=? count x then a = 0 ∧ view r' = view r
    else a = 1 ∧ view r' = view r <| v_limits := <[p := x <| count := count x + 1 |>]> (v_limits (view r)) |>).
Proof.
  intros Ep. apply (request (Limit_Increment p)).
  - intros a r' es E. cbn [run_api]. unfold void, mbind, prog_bind. rewrite E. cbn. by rewrite app_nil_r.
  - by exists x.
  - eapply wp_mono; [apply limit_increment_ok; [apply client_inv|done]|].
    intros a r' es (_ & _ & H). destruct (limit x <=? count x); [by destruct H as [-> ->]|].
    by destruct H as (-> & l & ->).
Qed.

(** The jobs after a request. *)
Definition jobs_done (o : job_op) (s : gset nat) : gset nat :=
  match o with OInit j => {[j]} ∪ s | OFree j => s ∖ {[j]} | _ => s end.
Definition job_allowed (o : job_op) (s : gset nat) : Prop :=
  match o with OInit j => j ∉ s | OSet j | OUnset j | OFree j => j ∈ s | OExec => False end.
Lemma request_job o : job_allowed o (v_jobs (view r)) →
  wp (run_job o) r (λ _ r' es, reach r' (note es (Did (Job o) :: h)) ∧
    view r' = view r <| v_stack := snd (spec_op o (v_stack (view r))) |> <| v_jobs := jobs_done o (v_jobs (view r)) |>).
Proof.
  intros Ho. assert (op_allowed o (pending_jobs r) ∧ o ≠ OExec) as [Hop Hne].
  { destruct o as [j|j|j|j|]; cbn in *; [split; [by apply not_elem_of_dom|done]|..|done];
      (split; [by apply elem_of_dom|done]). }
  apply (request (Job o)); [by intros []|done|].
  assert (∃ g, run_op o (pending_jobs r) = Some (fst (spec_op o (jobs (pending_jobs r))), g) ∧
    jobs g = snd (spec_op o (jobs (pending_jobs r))) ∧ dom (objects g) = jobs_done o (dom (objects (pending_jobs r))))
    as (g & Eg & Ej & Ed).
  { pose proof (i_jobs _ client_inv) as Hg. destruct o as [j|j|j|j|]; [..|done]; cbn [op_allowed] in Hop.
    - exists (BSmallPending_Init j (pending_jobs r)). split_and!; [done|done|]. cbn. by rewrite dom_insert_L.
    - destruct (set_spec _ j Hg Hop) as (g & E & _ & E1 & E2). exists g. cbn. rewrite E. by split_and!.
    - destruct (unset_spec _ j Hg Hop) as (g & E & _ & E1 & E2). exists g. cbn. rewrite E. by split_and!.
    - destruct (free_spec _ j Hg Hop) as (g & E & _ & E1 & E2). exists g. cbn. rewrite E. by split_and!. }
  unfold run_job. eapply wp_update; [by rewrite Eg|]. unfold view, upd; cbn. by rewrite Ej, Ed.
Qed.
Lemma job_is_set j : j ∈ v_jobs (view r) →
  BSmallPending_IsSet j (pending_jobs r) = Some (bool_decide (j ∈ v_stack (view r))).
Proof.
  cbn. intros [x Ex]%elem_of_dom. destruct (marker_assert _ j x (i_jobs _ client_inv) Ex) as [Ha Hm].
  unfold BSmallPending_IsSet. rewrite Ex, Ha, Hm. by rewrite negb_involutive.
Qed.
End reached.

(** ** Programs that leave a part of the state alone *)

Definition keeps {X A} (f : BReactor T → X) (m : prog (BReactor T) call A) : Prop :=
  ∀ r a r' es, m r = Some (a, r', es) → f r' = f r.

Section keeps.
Context {X : Type} (f : BReactor T → X).

Lemma keeps_bind {A B} (m : prog (BReactor T) call A) (g : A → prog (BReactor T) call B) :
  keeps f m → (∀ a, keeps f (g a)) → keeps f (m ≫= g).
Proof.
  intros Hm Hg r b r' es. unfold mbind, prog_bind. destruct (m r) as [[[a r1] e1]|] eqn:E; [|done].
  destruct (g a r1) as [[[b' r2] e2]|] eqn:E2; [|done]. intros [= <- <- <-]. rewrite (Hg a _ _ _ _ E2). by eapply Hm.
Qed.
Lemma keeps_state {A} (m : prog (BReactor T) call A) : (∀ r a r' es, m r = Some (a, r', es) → r' = r) → keeps f m.
Proof. intros H r a r' es E. by rewrite (H _ _ _ _ E). Qed.
Lemma keeps_modify (g : BReactor T → BReactor T) : (∀ r, f (g r) = f r) → keeps f (modify g).
Proof. intros H r a r' es [= <- <- <-]. apply H. Qed.
Lemma keeps_update (g : BReactor T → option (BReactor T)) : (∀ r r', g r = Some r' → f r' = f r) → keeps f (update g).
Proof. intros H r a r' es. unfold update. destruct (g r) eqn:E; [|done]. intros [= <- <- <-]. by apply H. Qed.
Lemma keeps_when b (m : prog (BReactor T) call unit) : keeps f m → keeps f (when b m).
Proof. destruct b; [done|]. intros _. by apply keeps_state; intros r a r' es [= _ <- _]. Qed.
End keeps.

(** Programs of the reactor, to the changes of the state they make. *)
Ltac keeps_run :=
  repeat match goal with
  | |- keeps _ (_ ≫= _) => apply keeps_bind; [|intros]
  | |- keeps _ (modify _) => apply keeps_modify; intros
  | |- keeps _ (update _) => apply keeps_update; intros
  | |- keeps _ (when _ _) => apply keeps_when
  | |- keeps _ (if _ then _ else _) => case_match
  | |- keeps _ (let '(_, _) := ?x in _) => destruct x
  | |- keeps _ (match ?x with _ => _ end) => case_match
  | |- keeps _ (let _ := _ in _) => cbv zeta
  | |- keeps _ _ => apply keeps_state; intros ????;
      unfold mret, prog_ret, get_st, gets, emit, ASSERT, get_timer, get_btimer, get_fd, get_limit, stuck, Tree_GetFirst; cbn;
      try case_match; try (intros [= <- <- <-]); done
  end.

Definition touches_fd (o : api) (p : positive) : Prop :=
  match o with Fd_Init q _ _ _ | AddFd q _ | RemoveFd q _ | SetFdEvents q _ _ => q = p | _ => False end.
Definition touches_limit (o : api) (p : positive) : Prop :=
  match o with Limit_Init q _ | Limit_Free q | Limit_Increment q | Limit_SetLimit q _ => q = p | _ => False end.
Definition is_job (o : api) : Prop := match o with Job _ => True | _ => False end.

Ltac keeps_solve :=
  keeps_run; try done;
  match goal with
  | |- keeps _ _ => intros ????; repeat case_match; intros; by simplify_eq
  | H : _ = Some _ |- _ => revert H; unfold mbind, option_bind; repeat case_match; intros; by simplify_eq
  end.

Lemma set_timer_keeps bt mode time now {X} (f : BReactor T → X) :
  (∀ r m, f (r <| timers := m |>) = f r) → (∀ r t, f (r <| timers_tree := t |>) = f r) →
  (∀ r l, f (r <| timers_expired_list := l |>) = f r) → keeps f (BReactor_SetSmallTimer bt mode time now).
Proof.
  intros H1 H2 H3.
  unfold BReactor_SetSmallTimer, BReactor_RemoveSmallTimer, set_timer, Tree_Insert, Tree_Remove.
  keeps_run; try done.
  - repeat case_match; by simplify_eq.
  - intros ????. repeat case_match; intros; by simplify_eq.
Qed.
Lemma remove_timer_keeps bt {X} (f : BReactor T → X) :
  (∀ r m, f (r <| timers := m |>) = f r) → (∀ r t, f (r <| timers_tree := t |>) = f r) →
  (∀ r l, f (r <| timers_expired_list := l |>) = f r) → keeps f (BReactor_RemoveSmallTimer bt).
Proof.
  intros H1 H2 H3. unfold BReactor_RemoveSmallTimer, set_timer, Tree_Remove. keeps_run; try done.
  repeat case_match; by simplify_eq.
Qed.

Lemma api_keeps_jobs o : ¬ is_job o → keeps pending_jobs (run_api o).
Proof.
  intros Hj. destruct o; try done; cbn [run_api];
    unfold BReactor_SetTimer, BReactor_SetTimerAfter, BReactor_SetTimerAbsolute, BReactor_RemoveTimer;
    keeps_run; try done; try by apply set_timer_keeps. all: try by apply remove_timer_keeps.
  all: unfold void, BSmallTimer_Init, BTimer_Init, BFileDescriptor_Init, BReactor_AddFileDescriptor,
    BReactor_RemoveFileDescriptor, BReactor_SetFileDescriptorEvents, clear_result, set_fd,
    BReactorLimit_Init, BReactorLimit_Free, BReactorLimit_Increment, BReactorLimit_SetLimit, set_limit, BReactor_Quit.
  all: keeps_solve.
Qed.
Lemma api_keeps_limit o p : ¬ touches_limit o p → keeps (λ r, limits r !! p) (run_api o).
Proof.
  intros Hj. destruct o; cbn [touches_limit] in Hj; cbn [run_api];
    unfold BReactor_SetTimer, BReactor_SetTimerAfter, BReactor_SetTimerAbsolute, BReactor_RemoveTimer, run_job;
    keeps_run; try done; try by apply set_timer_keeps. all: try by apply remove_timer_keeps.
  all: unfold void, BSmallTimer_Init, BTimer_Init, BFileDescriptor_Init, BReactor_AddFileDescriptor,
    BReactor_RemoveFileDescriptor, BReactor_SetFileDescriptorEvents, clear_result, set_fd,
    BReactorLimit_Init, BReactorLimit_Free, BReactorLimit_Increment, BReactorLimit_SetLimit, set_limit, BReactor_Quit.
  all: keeps_run; try done; cbn [limits upd]; try (by rewrite lookup_insert_ne); try (by rewrite lookup_delete_ne).
  all: match goal with H : _ = Some _ |- _ => revert H; unfold mbind, option_bind; repeat case_match; intros; by simplify_eq end.
Qed.

(** ** Requests for other objects *)

Lemma view_history r h p : reach r h →
  v_fds (view r) !! p = (λ '(d, _, _), (d, watching p h)) <$> fd_decl p h.
Proof.
  intros Hr. pose proof (reach_good _ _ Hr) as [_ (_ & _ & (Hd & Hw & _) & _)]. cbn. rewrite lookup_fmap, Hd, Hw.
  by destruct (fds r !! p).
Qed.
Lemma watching_note p es h : watching p (note es h) = watching p h ∧ fd_decl p (note es h) = fd_decl p h.
Proof. revert h. induction es as [|e es IH]; intros h; [done|]. by destruct (IH (Made e :: h)). Qed.
Lemma untouched_fd r h o r' es p : reach r h → reach r' (note es (Did o :: h)) → ¬ touches_fd o p →
  v_fds (view r') !! p = v_fds (view r) !! p.
Proof.
  intros Hr Hr' Ht. rewrite (view_history r h p Hr), (view_history r' _ p Hr').
  destruct (watching_note p es (Did o :: h)) as [-> ->].
  destruct o as [| | | | | | | |q d hd user|q ok|q ok|q evs ok| | | | | |]; try done; cbn [touches_fd] in Ht; cbn.
  - by rewrite !decide_False.
  - destruct ok; [|done]. by rewrite decide_False.
  - by rewrite decide_False.
  - by rewrite decide_False.
Qed.

(** Jobs [j] that a request does not name. *)
Definition names_job (o : api) (j : nat) : Prop :=
  match o with Job (OInit k) | Job (OSet k) | Job (OUnset k) | Job (OFree k) => k = j | _ => False end.

Record untouched (F : list positive) (L : list positive) (J : list nat) (v v' : cview) : Prop := {
  u_fds : ∀ p, p ∈ F → v_fds v' !! p = v_fds v !! p;
  u_limits : ∀ p, p ∈ L → v_limits v' !! p = v_limits v !! p;
  u_jobs : ∀ j, j ∈ J → j ∈ v_jobs v' ↔ j ∈ v_jobs v;
  u_stack : filter (λ j, j ∈ J) (v_stack v') = filter (λ j, j ∈ J) (v_stack v)
}.
Definition foreign (F : list positive) (L : list positive) (J : list nat) (o : api) : Prop :=
  (∀ p, p ∈ F → ¬ touches_fd o p) ∧ (∀ p, p ∈ L → ¬ touches_limit o p) ∧ (∀ j, j ∈ J → ¬ names_job o j).

Lemma filter_remove_job (J : list nat) k l : k ∉ J → filter (λ j, j ∈ J) (list_remove_job k l) = filter (λ j, j ∈ J) l.
Proof.
  intros Hk. induction l as [|j l IH]; [done|]. unfold list_remove_job in *. rewrite filter_cons.
  destruct (decide (j ≠ k)) as [Hne|Hne].
  - rewrite !filter_cons. case_decide; by rewrite IH.
  - assert (j = k) as -> by (by apply dec_stable). rewrite (filter_cons _ k), decide_False by done. exact IH.
Qed.

Lemma untouched_mono F F' L L' J J' v v' : F' ⊆ F → L' ⊆ L → J' ⊆ J →
  untouched F L J v v' → untouched F' L' J' v v'.
Proof.
  intros HF HL HJ [Hf Hl Hj Hs]. split; [auto..|].
  assert (∀ st : list nat, filter (λ j, j ∈ J') st = filter (λ j, j ∈ J') (filter (λ j, j ∈ J) st)) as Hff.
  { intros st. rewrite list_filter_filter_l; auto. }
  by rewrite Hff, Hs, <- Hff.
Qed.

Section untouched.
Context (F L : list positive) (J : list nat).
Lemma untouched_refl v : untouched F L J v v.
Proof. done. Qed.
Lemma untouched_fd_insert v p x : p ∉ F → untouched F L J v (v <| v_fds := <[p := x]> (v_fds v) |>).
Proof. intros Hp. split; [|done..]. intros q Hq. cbn. rewrite lookup_insert_ne; [done|]. by intros ->. Qed.
Lemma untouched_limit_insert v p x : p ∉ L → untouched F L J v (v <| v_limits := <[p := x]> (v_limits v) |>).
Proof. intros Hp. split; [done| |done..]. intros q Hq. cbn. rewrite lookup_insert_ne; [done|]. by intros ->. Qed.
Lemma untouched_limit_delete v p : p ∉ L → untouched F L J v (v <| v_limits := delete p (v_limits v) |>).
Proof. intros Hp. split; [done| |done..]. intros q Hq. cbn. rewrite lookup_delete_ne; [done|]. by intros ->. Qed.
Lemma untouched_job v o : match o with OInit j | OSet j | OUnset j | OFree j => j ∉ J | OExec => False end →
  untouched F L J v (v <| v_stack := snd (spec_op o (v_stack v)) |> <| v_jobs := jobs_done o (v_jobs v) |>).
Proof.
  intros Ho. split; [done|done| |].
  - intros j Hj. destruct o as [k|k|k|k|]; cbn in *; [set_solver..|done].
  - change (filter (λ j, j ∈ J) (snd (spec_op o (v_stack v))) = filter (λ j, j ∈ J) (v_stack v)).
    destruct o as [k|k|k|k|]; cbn [spec_op snd]; [done| | | |done].
    + rewrite filter_cons, decide_False by done. by apply filter_remove_job.
    + by apply filter_remove_job.
    + by apply filter_remove_job.
Qed.
End untouched.

Lemma other_request F L J r h o : reach r h → enabled o r h → foreign F L J o →
  wp (run_api o) r (λ _ r' es, reach r' (note es (Did o :: h)) ∧ untouched F L J (view r) (view r')).
Proof.
  intros Hr He (HF & HL & HJ). pose proof (api_ok r h o (reach_good _ _ Hr) He) as Hwp.
  apply wp_some in Hwp as ([] & r' & es & Erun & (_ & _ & Hstack)).
  unfold wp. rewrite Erun. assert (reach r' (note es (Did o :: h))) as Hr' by by apply (reach_api r h o).
  split; [done|]. split.
  - intros p Hp. apply (untouched_fd r h o r' es p); [done..|]. by apply HF.
  - intros p Hp. apply (api_keeps_limit o p (HL p Hp) r tt r' es Erun).
  - intros j Hj. assert (¬ is_job o → pending_jobs r' = pending_jobs r) as Hkeep
      by (intros Hn; by apply (api_keeps_jobs o Hn r tt r' es)).
    cbn. destruct o as [| | | | | | | | | | | | | | | |jo| ]; try (by rewrite Hkeep by exact id).
    destruct He as [Hop Hne]. assert (job_allowed jo (v_jobs (view r))) as Ha.
    { destruct jo; cbn in *; [by apply not_elem_of_dom|by apply elem_of_dom..|done]. }
    pose proof (request_job Hr jo Ha) as H. cbn [run_api] in Erun. unfold wp in H. rewrite Erun in H.
    destruct H as [_ H]. apply (f_equal v_jobs) in H. cbn in H. rewrite H. specialize (HJ j Hj).
    destruct jo as [k|k|k|k|]; cbn in HJ |- *; set_solver.
  - cbn. rewrite Hstack. destruct o as [| | | | | | | | | | | | | | | |jo| ]; try done. cbn [jobs_after].
    destruct jo as [k|k|k|k|]; cbn [spec_op snd]; [done| | | |by destruct He].
    + assert (k ∉ J) as Hk by (intros Hk; by apply (HJ k Hk)). rewrite filter_cons, decide_False by done. by apply filter_remove_job.
    + apply filter_remove_job. intros Hk. by apply (HJ k Hk).
    + apply filter_remove_job. intros Hk. by apply (HJ k Hk).
Qed.

(** ** Rounds *)

Definition known_jobs r : gset nat := dom (objects (pending_jobs r)).

Lemma move_expired_keeps fuel now moved {X} (f : BReactor T → X) :
  (∀ r m, f (r <| timers := m |>) = f r) → (∀ r t, f (r <| timers_tree := t |>) = f r) →
  (∀ r l, f (r <| timers_expired_list := l |>) = f r) → keeps f (move_expired_loop fuel now moved).
Proof.
  intros H1 H2 H3. revert moved. induction fuel as [|fuel IH]; intros moved; cbn [move_expired_loop];
    unfold expire, set_timer, Tree_Remove; keeps_run; try done; try apply IH.
  repeat case_match; by simplify_eq.
Qed.
Lemma move_first_keeps fuel t {X} (f : BReactor T → X) :
  (∀ r m, f (r <| timers := m |>) = f r) → (∀ r t, f (r <| timers_tree := t |>) = f r) →
  (∀ r l, f (r <| timers_expired_list := l |>) = f r) → keeps f (move_first_loop fuel t).
Proof.
  intros H1 H2 H3. induction fuel as [|fuel IH]; cbn [move_first_loop];
    unfold expire, set_timer, Tree_Remove; keeps_run; try done; try apply IH.
  repeat case_match; by simplify_eq.
Qed.
Lemma move_first_timers_keeps {X} (f : BReactor T → X) :
  (∀ r m, f (r <| timers := m |>) = f r) → (∀ r t, f (r <| timers_tree := t |>) = f r) →
  (∀ r l, f (r <| timers_expired_list := l |>) = f r) → keeps f move_first_timers.
Proof.
  intros H1 H2 H3. unfold move_first_timers, expire, set_timer, Tree_Remove. keeps_run; try done.
  - repeat case_match; by simplify_eq.
  - by apply move_first_keeps.
Qed.
Lemma set_pointers_keeps i n : keeps known_jobs (set_epoll_fd_pointers_loop i n).
Proof.
  revert i. induction n as [|n IH]; intros i; cbn [set_epoll_fd_pointers_loop]; [by keeps_run|].
  unfold set_epoll_fd_pointers_at, set_fd. keeps_run; try done; apply IH.
Qed.
Lemma reset_limits_keeps n : keeps known_jobs (reset_limits_loop n).
Proof. induction n as [|n IH]; cbn [reset_limits_loop]; unfold set_limit; keeps_run; try done; apply IH. Qed.
Lemma wait_loop_keeps timeout_abs now answers : keeps known_jobs (wait_loop timeout_abs now answers).
Proof.
  revert now. induction answers as [|[a later] answers IH]; intros now; cbn [wait_loop]; [by keeps_run|].
  unfold set_epoll_fd_pointers. keeps_run; try done; try apply IH; try by apply move_first_timers_keeps.
  apply set_pointers_keeps.
Qed.
Lemma dispatch_job_keeps : keeps known_jobs dispatch_job.
Proof.
  intros r b r' es. unfold dispatch_job, mbind, prog_bind, get_st, modify, emit. cbn.
  destruct (BPendingGroup_ExecuteJob (pending_jobs r)) as [[j g]|] eqn:E; [|done]. cbn. intros [= <- <- <-].
  unfold known_jobs. cbn. unfold BPendingGroup_ExecuteJob in E. destruct (jobs (pending_jobs r)) as [|k l]; [done|].
  destruct (objects (pending_jobs r) !! k) as [x|] eqn:Ex; [|done]. repeat case_match; try done. injection E as <- <-. cbn.
  apply dom_insert_lookup_L. by exists x.
Qed.
Lemma exec_round_keeps now answers : keeps known_jobs (exec_round now answers).
Proof.
  unfold exec_round, dispatch_timer, dispatch_fd, wait_for_events, move_expired_timers, reset_limits,
    set_timer, set_fd. keeps_run; try done; try apply wait_loop_keeps; try apply dispatch_job_keeps;
    try (by apply move_expired_keeps); try by apply reset_limits_keeps.
Qed.

(** What a round does to the view, given the calls it makes. The limits are only
    reset while no job is set. *)
Inductive round_view (v : cview) : progress → list call → cview → Prop :=
  | rv_job j rest : v_stack v = j :: rest → round_view v Called [Call_job j] (v <| v_stack := rest |>)
  | rv_timer e : v_stack v = [] → match e with Call_small_timer _ _ | Call_timer _ _ _ => True | _ => False end →
      round_view v Called [e] v
  | rv_fd p d w got hd user evs : v_stack v = [] → v_fds v !! p = Some (d, Some w) → 0 ≤ w ≤ 3 →
      evs = report_events w got → evs ≠ 0 → round_view v Called [Call_fd p hd user evs] v
  | rv_idle es : v_stack v = [] → round_view v Continued es v
  | rv_woken es : v_stack v = [] →
      round_view v Continued es (v <| v_limits := (λ x, x <| count := 0 |>) <$> v_limits v |>).

Lemma fmap_set_pointers i l (m : gmap positive BFileDescriptor) : fd_view <$> set_pointers i l m = fd_view <$> m.
Proof.
  revert i m. induction l as [|[q e] l IH]; intros i m; [done|]. cbn [set_pointers]. rewrite IH.
  apply map_eq. intros p. rewrite !lookup_fmap. destruct (decide (q = p)) as [->|].
  - rewrite lookup_alter_eq. by destruct (m !! p).
  - by rewrite lookup_alter_ne.
Qed.

Lemma round_client r h now answers b r' es : reach r h → exiting r = false → round_enabled now answers h →
  exec_round now answers r = Some (b, r', es) → b ≠ Waiting →
  reach r' (note es h) ∧ round_view (view r) b es (view r').
Proof.
  intros Hr Hx Hen Hrun Hb. split; [by eapply reach_round|].
  pose proof (exec_round_keeps now answers r b r' es Hrun) as Hk. unfold known_jobs in Hk.
  pose proof (round_ok r h now answers (reach_good _ _ Hr) Hen) as H. unfold wp in H. rewrite Hrun in H.
  destruct H as [Hround _]. clear Hrun Hx.
  destruct Hround as [j rest g Ej Eg|p l x e Ej El Ep Ex Ee|e Ej _ Hpos Ee Hde|e p f b es Ej _ Hpos Ee Hde Hact Hret Hcase|b r' es Ej _ _ Hwait].
  - assert (view (r <| pending_jobs := g |>) = view r <| v_stack := rest |>) as ->; [|by apply rv_job].
    unfold view, upd in *. cbn in *. by rewrite Eg, Hk.
  - apply rv_timer; [done|]. unfold timer_call in Ee. destruct (is_small x); [by injection Ee as <-|].
    by apply fmap_Some in Ee as (? & _ & ->).
  - by apply rv_idle.
  - assert (view (r <| epoll_results_pos := S (epoll_results_pos r) |>
        <| fds := <[p := f <| epoll_returned_ptr := None |>]> (fds r) |>) = view r) as ->.
    { unfold view, upd. cbn. f_equal. rewrite fmap_insert. apply insert_id. destruct Hact as [Ep _].
      by rewrite lookup_fmap, Ep. }
    cbv zeta in Hcase. destruct (Z.eqb_spec (report_events (waitEvents f) (events e)) 0) as [E|E]; destruct Hcase as [-> ->].
    + by apply rv_idle.
    + destruct Hact as [Ep Ea]. eapply rv_fd; [done| | |reflexivity|done].
      * cbn. rewrite lookup_fmap, Ep. cbn. unfold fd_view, watched. by rewrite Ea.
      * eapply (fi_wait _ _ _ _ _ (i_fds _ (client_inv Hr))). by split.
  - destruct Hwait as [t la r1 _ _ Hexp _|o r1 es _ _ _ Hw|o es _ _]; [| |done].
    + destruct Hexp as ((t' & ->) & _). by apply rv_idle.
    + assert (view (with_limits_reset r1) = view r <| v_limits := (λ x, x <| count := 0 |>) <$> v_limits (view r) |>) as ->; [|by apply rv_woken].
      destruct Hw as [l es' timeout later Hok Hl|t la es' r2 _ _ ((t' & ->) & _) _ _]; unfold view, upd; cbn.
      * f_equal. apply fmap_set_pointers.
      * done.
Qed.
End client.
End ReactorClient.
