(* ===== verification/BConnection.v ===== *)
(** Stream sockets (system/BConnection_unix.c): listeners, connectors and
    connections on the event loop, with the stream interfaces of a connection. *)
From S2P Require Import Prelude Misc BAddr TreeInterface BPending Interfaces BReactor BReactorRun.

(** * The code *)
Module BConnectionCode.
Export BReactorCode BReactorSpec.
Import StreamIf.

Definition MAX_UNIX_SOCKET_PATH : Z := 200.

Definition SEND_STATE_NOT_INITED : Z := 0.
Definition SEND_STATE_READY : Z := 1.
Definition SEND_STATE_BUSY : Z := 2.

Definition RECV_STATE_NOT_INITED : Z := 0.
Definition RECV_STATE_READY : Z := 1.
Definition RECV_STATE_BUSY : Z := 2.
Definition RECV_STATE_INITED_CLOSED : Z := 3.
Definition RECV_STATE_NOT_INITED_CLOSED : Z := 4.

Definition BCONNECTION_SEND_LIMIT : Z := 2.
Definition BCONNECTION_RECV_LIMIT : Z := 2.
Definition BCONNECTION_LISTEN_BACKLOG : Z := 128.

Definition BCONNECTION_EVENT_ERROR : Z := 1.
Definition BCONNECTION_EVENT_RECVCLOSED : Z := 2.

(** Of the operating system's headers. *)
Definition EAGAIN : Z := 11.
Definition EWOULDBLOCK : Z := 11.
Definition EINPROGRESS : Z := 115.
Definition ENOENT : Z := 2.
Definition AF_UNIX : Z := 1.
Definition AF_INET : Z := 2.
Definition AF_INET6 : Z := 10.
Definition sizeof_sockaddr_in : Z := 16.
Definition sizeof_sockaddr_in6 : Z := 28.
Definition offsetof_sun_path : Z := 2.

(** ** Addresses *)

(** The union of [struct sys_addr], by the family in its first field. *)
Inductive sockaddr :=
  | sockaddr_in (port : Z) (ip : Z)
  | sockaddr_in6 (port flowinfo : Z) (ip : bytes) (scope_id : Z)
  | sockaddr_other (family : Z).
Record sys_addr := MkSysAddr {
  sa_len : Z;
  sa_addr : sockaddr
}.
Definition sa_family (a : sockaddr) : Z :=
  match a with
  | sockaddr_in _ _ => AF_INET
  | sockaddr_in6 _ _ _ _ => AF_INET6
  | sockaddr_other f => f
  end.

(** [sun_path] holds the path and its terminating 0. *)
Record unix_addr := MkUnixAddr {
  un_len : Z;
  sun_path : bytes
}.
(** The bytes of [u] behind [sun_family]. *)
Definition sizeof_unix_path : Z := MAX_UNIX_SOCKET_PATH + 1.

(** [socket_path]: the bytes before the terminating 0. *)
Definition build_unix_address (socket_path : bytes) : option unix_addr :=
  if MAX_UNIX_SOCKET_PATH <? len socket_path then None
  else Some (MkUnixAddr (offsetof_sun_path + len socket_path + 1) (socket_path ++ [0])).

Definition addr_socket_to_sys (addr : BAddr) : option sys_addr :=
  match addr with
  | BADDR_IPV4 ip port => Some (MkSysAddr sizeof_sockaddr_in (sockaddr_in port ip))
  | BADDR_IPV6 ip port => Some (MkSysAddr sizeof_sockaddr_in6 (sockaddr_in6 port 0 ip 0))
  | _ => None
  end.
Definition addr_sys_to_socket (addr : sys_addr) : option BAddr :=
  match sa_addr addr with
  | sockaddr_in port ip =>
      ASSERT_ (sa_len addr =? sizeof_sockaddr_in); Some (BAddr_InitIPv4 ip port)
  | sockaddr_in6 port _ ip _ =>
      ASSERT_ (sa_len addr =? sizeof_sockaddr_in6); Some (BAddr_InitIPv6 ip port)
  | sockaddr_other _ => Some BAddr_MakeNone
  end.
Definition BConnection_AddressSupported (addr : BAddr) : bool :=
  (BAddr_type addr =? 1) || (BAddr_type addr =? 2).

(** ** Objects

    One object of each kind; those not initialised are [None]. The reactor
    they live in is part of the state. *)

Record BListener := MkListener {
  unix_socket_path : option bytes;
  listener_fd : Z
}.

Record BConnector := MkConnector {
  connector_fd : Z;
  connected : bool;
  have_bfd : bool
}.
#[global] Instance eta_BConnector : Eta BConnector := λ x,
  MkConnector (connector_fd x) (connected x) (have_bfd x).

(** [send_if_data]: the data given to the send interface. [recv_busy_data]: what
    the receive buffer holds once it was read to. *)
Record BConnection := MkConnection {
  conn_user : Z;
  conn_handler : Z;
  conn_fd : Z;
  close_fd : bool;
  is_hupd : bool;
  wait_events : Z;
  send_iface : StreamInterface;
  send_if_data : bytes;
  send_busy_data : bytes;
  send_busy_data_len : Z;
  send_state : Z;
  recv_iface : StreamInterface;
  recv_busy_data : bytes;
  recv_busy_data_avail : Z;
  recv_state : Z
}.
#[global] Instance eta_BConnection : Eta BConnection := λ x,
  MkConnection (conn_user x) (conn_handler x) (conn_fd x) (close_fd x) (is_hupd x) (wait_events x)
    (send_iface x) (send_if_data x) (send_busy_data x) (send_busy_data_len x) (send_state x)
    (recv_iface x) (recv_busy_data x) (recv_busy_data_avail x) (recv_state x).

(** Where the parts of the objects are that the reactor knows. *)
Class Places := {
  listener_bfd : positive;
  connector_bfd : positive;
  conn_bfd : positive;
  send_limit : positive;
  recv_limit : positive;
  listener_job : nat;
  connector_job : nat;
  err_job : nat;
  send_job : nat;
  recv_job : nat;
  send_op_job : nat;
  send_done_job : nat;
  recv_op_job : nat;
  recv_done_job : nat;
  bfds_distinct : NoDup [listener_bfd; connector_bfd; conn_bfd];
  limits_distinct : NoDup [send_limit; recv_limit];
  jobs_distinct : NoDup [listener_job; connector_job; err_job; send_job; recv_job;
    send_op_job; send_done_job; recv_op_job; recv_done_job]
}.

(** The result of a system call and [errno]. *)
Record answer := MkAnswer {
  ret : Z;
  errno : Z
}.
(** The result of [read], with the bytes it stored. *)
Record read_answer := MkRead {
  read_ret : Z;
  read_errno : Z;
  read_data : bytes
}.

(** What happens: the history of the reactor, system calls with their results,
    and calls of the user's handlers. *)
Inductive call :=
  | Hist (e : event)
  | Sys_socket (family fd : Z)
  | Sys_nonblocking (fd : Z) (ok : bool)
  | Sys_reuseaddr (fd : Z)
  | Sys_bind (fd : Z) (addr : sys_addr) (res : Z)
  | Sys_bind_unix (fd : Z) (addr : unix_addr) (res : Z)
  | Sys_listen (fd backlog res : Z)
  | Sys_connect (fd : Z) (addr : sys_addr) (res : answer)
  | Sys_connect_unix (fd : Z) (addr : unix_addr) (res : answer)
  | Sys_getsockopt_error (fd : Z) (res : answer)
  | Sys_sndbuf (fd size res : Z)
  | Sys_accept (fd newfd : Z)
  | Sys_unlink (path : bytes)
  | Sys_write (fd : Z) (data : bytes) (res : answer)
  | Sys_read (fd avail : Z) (res : read_answer)
  | Sys_close (fd : Z)
  | Listener_handler
  | Connector_handler (is_error : bool)
  | Connection_handler (user handler event : Z)
  | Send_inited
  | Send_start (data : bytes)
  | Send_done (n : Z)
  | Recv_inited
  | Recv_start (avail : Z)
  | Recv_done (data : bytes).

Section code.
Context {T : Type} `{!OrderedTree T} {places : Places}.

Record BSockets := MkSockets {
  reactor : BReactor T;
  listener : option BListener;
  connector : option BConnector;
  conn : option BConnection
}.
#[global] Instance eta_BSockets : Eta BSockets := λ x,
  MkSockets (reactor x) (listener x) (connector x) (conn x).

Abbreviation op := (prog BSockets call).
Definition crash {A} : op A := λ _, None.
Definition of_option {A} (x : option A) : op A := match x with Some a => mret a | None => crash end.

Definition get_listener : op BListener := s ← get_st; of_option (listener s).
Definition get_connector : op BConnector := s ← get_st; of_option (connector s).
Definition set_connector (g : BConnector → BConnector) : op unit :=
  c ← get_connector; modify (λ s, s <| connector := Some (g c) |>).
Definition get_conn : op BConnection := s ← get_st; of_option (conn s).
Definition set_conn (g : BConnection → BConnection) : op unit :=
  o ← get_conn; modify (λ s, s <| conn := Some (g o) |>).

(** ** Calls of the reactor

    [o] names the function [m]. The changes of a registered descriptor succeed,
    as the reactor insists. *)
Definition reactor_do {A} (o : api) (m : prog (BReactor T) BReactorCode.call A) : op A :=
  λ s, match m (reactor s) with
       | Some (a, r, es) => Some (a, s <| reactor := r |>, Hist (Did o) :: map (λ e, Hist (Made e)) es)
       | None => None
       end.
Definition init_bfd (p : positive) (fd h : Z) : op unit :=
  reactor_do (Fd_Init p fd h (Z.pos p)) (BFileDescriptor_Init p fd h (Z.pos p)).
Definition add_bfd (p : positive) (ok : bool) : op Z :=
  reactor_do (AddFd p ok) (BReactor_AddFileDescriptor p ok).
Definition remove_bfd (p : positive) : op unit :=
  reactor_do (RemoveFd p true) (BReactor_RemoveFileDescriptor p true).
Definition set_bfd_events (p : positive) (evs : Z) : op unit :=
  reactor_do (SetFdEvents p evs true) (BReactor_SetFileDescriptorEvents p evs true).
Definition init_limit (p : positive) (lim : Z) : op unit :=
  reactor_do (Limit_Init p lim) (BReactorLimit_Init p lim).
Definition free_limit (p : positive) : op unit :=
  reactor_do (Limit_Free p) (BReactorLimit_Free p).
Definition increment_limit (p : positive) : op Z :=
  reactor_do (Limit_Increment p) (BReactorLimit_Increment p).
(** [BPending_Init], [_Set], [_Unset], [_Free], with the pending group of the reactor. *)
Definition pending (o : job_op) : op unit := reactor_do (Job o) (run_job o).
Definition is_set (j : nat) : op bool :=
  s ← get_st; of_option (BSmallPending_IsSet j (pending_jobs (reactor s))).

(** misc/debugerror.h: the job of [d_err]. *)
Definition DebugError_AssertNoError : op unit := b ← is_set err_job; ASSERT (negb b).

(** The handlers of the file descriptors, by number. *)
Definition HANDLER_LISTENER : Z := 1.
Definition HANDLER_CONNECTOR : Z := 2.
Definition HANDLER_CONNECTION : Z := 3.

(** ** The interfaces

    An operation on an interface, after which the jobs it set are set in the
    group; the result is what the interface called. *)
Definition raise (was now : bool) (j : nat) : op unit := when (negb was && now) (pending (OSet j)).
Definition on_send_if (m : StreamIf.op unit) : op (list StreamIf.call) :=
  o ← get_conn;
  match m (send_iface o) with
  | Some (_, i, es) =>
      set_conn (λ o, o <| send_iface := i |>);;
      raise (job_operation (send_iface o)) (job_operation i) send_op_job;;
      raise (job_done (send_iface o)) (job_done i) send_done_job;;
      mret es
  | None => crash
  end.
Definition on_recv_if (m : StreamIf.op unit) : op (list StreamIf.call) :=
  o ← get_conn;
  match m (recv_iface o) with
  | Some (_, i, es) =>
      set_conn (λ o, o <| recv_iface := i |>);;
      raise (job_operation (recv_iface o)) (job_operation i) recv_op_job;;
      raise (job_done (recv_iface o)) (job_done i) recv_done_job;;
      mret es
  | None => crash
  end.

(** ** Listeners *)

Definition listener_fd_handler : op unit :=
  get_listener;;
  pending (OSet listener_job);;
  emit Listener_handler.

(** [newfd]: what [accept] returns. *)
Definition listener_default_job_handler (newfd : Z) : op unit :=
  l ← get_listener;
  emit (Sys_accept (listener_fd l) newfd);;
  if newfd <? 0 then mret tt else emit (Sys_close newfd).

(** What the system answers while a listener is initialised. *)
Record listen_answers := MkListenAnswers {
  la_strdup : bool;
  la_socket : Z;
  la_nonblocking : bool;
  la_unlink : answer;
  la_bind : Z;
  la_listen : Z;
  la_add : bool
}.

(** From "init BFileDescriptor" on. *)
Definition listener_finish (fd : Z) (path : option bytes) (ok : bool) (fail : op Z) : op Z :=
  init_bfd listener_bfd fd HANDLER_LISTENER;;
  added ← add_bfd listener_bfd ok;
  if added =? 0 then fail else
  set_bfd_events listener_bfd BREACTOR_READ;;
  pending (OInit listener_job);;
  modify (λ s, s <| listener := Some (MkListener path fd) |>);;
  mret 1.

Definition BListener_Init (addr : BAddr) (e : listen_answers) : op Z :=
  if negb (BConnection_AddressSupported addr) then mret 0 else
  sysaddr ← of_option (addr_socket_to_sys addr);
  let fd := la_socket e in
  emit (Sys_socket (sa_family (sa_addr sysaddr)) fd);;
  if fd <? 0 then mret 0 else
  let fail1 := emit (Sys_close fd);; mret 0 in
  emit (Sys_nonblocking fd (la_nonblocking e));;
  if negb (la_nonblocking e) then fail1 else
  emit (Sys_reuseaddr fd);;
  emit (Sys_bind fd sysaddr (la_bind e));;
  if la_bind e <? 0 then fail1 else
  emit (Sys_listen fd BCONNECTION_LISTEN_BACKLOG (la_listen e));;
  if la_listen e <? 0 then fail1 else
  listener_finish fd None (la_add e) fail1.

Definition BListener_InitUnix (socket_path : bytes) (e : listen_answers) : op Z :=
  if negb (la_strdup e) then mret 0 else
  match build_unix_address socket_path with
  | None => mret 0
  | Some addr =>
      let fd := la_socket e in
      emit (Sys_socket AF_UNIX fd);;
      if fd <? 0 then mret 0 else
      let fail2 := emit (Sys_close fd);; mret 0 in
      emit (Sys_nonblocking fd (la_nonblocking e));;
      if negb (la_nonblocking e) then fail2 else
      emit (Sys_unlink socket_path);;
      if (ret (la_unlink e) <? 0) && negb (errno (la_unlink e) =? ENOENT) then fail2 else
      emit (Sys_bind_unix fd addr (la_bind e));;
      if la_bind e <? 0 then fail2 else
      let fail3 := emit (Sys_unlink socket_path);; fail2 in
      emit (Sys_listen fd BCONNECTION_LISTEN_BACKLOG (la_listen e));;
      if la_listen e <? 0 then fail3 else
      listener_finish fd (Some socket_path) (la_add e) fail3
  end.

Definition BListener_Free : op unit :=
  l ← get_listener;
  pending (OFree listener_job);;
  remove_bfd listener_bfd;;
  emit (Sys_close (listener_fd l));;
  match unix_socket_path l with
  | Some path => emit (Sys_unlink path)
  | None => mret tt
  end;;
  modify (λ s, s <| listener := None |>).

(** ** Connectors *)

(** [res]: what [getsockopt] returns, and the error it stores. *)
Definition connector_fd_handler (res : answer) : op unit :=
  c ← get_connector;
  ASSERT (0 <=? connector_fd c);;
  ASSERT (negb (connected c));;
  ASSERT (have_bfd c);;
  remove_bfd connector_bfd;;
  set_connector (λ c, c <| have_bfd := false |>);;
  emit (Sys_getsockopt_error (connector_fd c) res);;
  (if ret res <? 0 then mret tt else
   if negb (errno res =? 0) then mret tt else
   set_connector (λ c, c <| connected := true |>));;
  c ← get_connector;
  emit (Connector_handler (negb (connected c))).

Definition connector_job_handler : op unit :=
  c ← get_connector;
  ASSERT (0 <=? connector_fd c);;
  ASSERT (connected c);;
  ASSERT (negb (have_bfd c));;
  emit (Connector_handler false).

Record connect_answers := MkConnectAnswers {
  ca_socket : Z;
  ca_nonblocking : bool;
  ca_connect : answer;
  ca_add : bool
}.

(** After [connect]; [fail2] closes the descriptor and frees the job. *)
Definition connector_finish (fd : Z) (res : answer) (ok : bool) (fail2 : op Z) : op Z :=
  if (ret res <? 0) && negb (errno res =? EINPROGRESS) then fail2 else
  if ret res <? 0 then
    init_bfd connector_bfd fd HANDLER_CONNECTOR;;
    added ← add_bfd connector_bfd ok;
    if added =? 0 then fail2 else
    set_bfd_events connector_bfd BREACTOR_WRITE;;
    modify (λ s, s <| connector := Some (MkConnector fd false true) |>);;
    mret 1
  else
    pending (OSet connector_job);;
    modify (λ s, s <| connector := Some (MkConnector fd true false) |>);;
    mret 1.

Definition BConnector_Init (addr : BAddr) (e : connect_answers) : op Z :=
  if negb (BConnection_AddressSupported addr) then mret 0 else
  sysaddr ← of_option (addr_socket_to_sys addr);
  pending (OInit connector_job);;
  let fd := ca_socket e in
  emit (Sys_socket (sa_family (sa_addr sysaddr)) fd);;
  let fail1 := pending (OFree connector_job);; mret 0 in
  if fd <? 0 then fail1 else
  let fail2 := emit (Sys_close fd);; fail1 in
  emit (Sys_nonblocking fd (ca_nonblocking e));;
  if negb (ca_nonblocking e) then fail2 else
  emit (Sys_connect fd sysaddr (ca_connect e));;
  connector_finish fd (ca_connect e) (ca_add e) fail2.

Definition BConnector_InitUnix (socket_path : bytes) (e : connect_answers) : op Z :=
  match build_unix_address socket_path with
  | None => mret 0
  | Some addr =>
      pending (OInit connector_job);;
      let fd := ca_socket e in
      emit (Sys_socket AF_UNIX fd);;
      let fail1 := pending (OFree connector_job);; mret 0 in
      if fd <? 0 then fail1 else
      let fail2 := emit (Sys_close fd);; fail1 in
      emit (Sys_nonblocking fd (ca_nonblocking e));;
      if negb (ca_nonblocking e) then fail2 else
      emit (Sys_connect_unix fd addr (ca_connect e));;
      connector_finish fd (ca_connect e) (ca_add e) fail2
  end.

Definition BConnector_Free : op unit :=
  c ← get_connector;
  when (have_bfd c) (remove_bfd connector_bfd);;
  when (negb (connector_fd c =? -1)) (emit (Sys_close (connector_fd c)));;
  pending (OFree connector_job);;
  modify (λ s, s <| connector := None |>).

(** ** Connections *)

Definition connection_report_error : op unit :=
  DebugError_AssertNoError;;
  o ← get_conn;
  ASSERT (negb (conn_handler o =? 0));;
  b ← is_set err_job;
  ASSERT (negb b);;
  pending (OSet err_job);;
  emit (Connection_handler (conn_user o) (conn_handler o) BCONNECTION_EVENT_ERROR).

(** "wait for fd". *)
Definition wait_for (flag : Z) : op unit :=
  set_conn (λ o, o <| wait_events := Z.lor (wait_events o) flag |>);;
  o ← get_conn;
  set_bfd_events conn_bfd (wait_events o).

(** Whether the limit, if it applies, lets the operation go on. *)
Definition within_limit (limit : positive) : op bool :=
  o ← get_conn;
  if is_hupd o then mret true else
  res ← increment_limit limit;
  mret (negb (res =? 0)).

Definition would_block (o : BConnection) (error : Z) : bool :=
  negb (is_hupd o) && ((error =? EAGAIN) || (error =? EWOULDBLOCK)).

(** [res]: the answer of [write], if it is called. *)
Definition connection_send (res : answer) : op unit :=
  DebugError_AssertNoError;;
  o ← get_conn;
  ASSERT (send_state o =? SEND_STATE_BUSY);;
  go ← within_limit send_limit;
  if negb go then wait_for BREACTOR_WRITE else
  emit (Sys_write (conn_fd o) (ztake (send_busy_data_len o) (send_busy_data o)) res);;
  let bytes := ret res in
  if bytes <? 0 then
    if would_block o (errno res) then wait_for BREACTOR_WRITE else connection_report_error
  else
    ASSERT (0 <? bytes);;
    ASSERT (bytes <=? send_busy_data_len o);;
    set_conn (λ o, o <| send_state := SEND_STATE_READY |>);;
    on_send_if (StreamInterface_Done bytes);;
    mret tt.

(** [res]: the answer of [read], if it is called, which writes to the buffer. *)
Definition connection_recv (res : read_answer) : op unit :=
  DebugError_AssertNoError;;
  o ← get_conn;
  ASSERT (recv_state o =? RECV_STATE_BUSY);;
  go ← within_limit recv_limit;
  if negb go then wait_for BREACTOR_READ else
  emit (Sys_read (conn_fd o) (recv_busy_data_avail o) res);;
  let bytes := read_ret res in
  if bytes <? 0 then
    if would_block o (read_errno res) then wait_for BREACTOR_READ else connection_report_error
  else
  set_conn (λ o, o <| recv_busy_data := read_data res |>);;
  if bytes =? 0 then
    set_conn (λ o, o <| recv_state := RECV_STATE_INITED_CLOSED |>);;
    emit (Connection_handler (conn_user o) (conn_handler o) BCONNECTION_EVENT_RECVCLOSED)
  else
    ASSERT (0 <? bytes);;
    ASSERT (bytes <=? recv_busy_data_avail o);;
    set_conn (λ o, o <| recv_state := RECV_STATE_READY |>);;
    on_recv_if (StreamInterface_Done bytes);;
    mret tt.

Definition connection_fd_handler (evs : Z) (w : answer) (rd : read_answer) : op unit :=
  DebugError_AssertNoError;;
  o ← get_conn;
  ASSERT (negb (is_hupd o));;
  set_conn (λ o, o <| wait_events := Z.land (wait_events o) (Z.lnot evs) |>);;
  o ← get_conn;
  set_bfd_events conn_bfd (wait_events o);;
  when (has evs BREACTOR_HUP) (
    remove_bfd conn_bfd;;
    set_conn (λ o, o <| is_hupd := true |>));;
  o ← get_conn;
  let failed := has evs (Z.lor BREACTOR_ERROR BREACTOR_HUP) in
  let have_send := has evs BREACTOR_WRITE || (failed && (send_state o =? SEND_STATE_BUSY)) in
  when have_send (ASSERT (send_state o =? SEND_STATE_BUSY));;
  let have_recv := has evs BREACTOR_READ || (failed && (recv_state o =? RECV_STATE_BUSY)) in
  when have_recv (ASSERT (recv_state o =? RECV_STATE_BUSY));;
  if have_send then
    when have_recv (pending (OSet recv_job));;
    connection_send w
  else if have_recv then connection_recv rd
  else when (negb (is_hupd o)) connection_report_error.

Definition connection_send_job_handler (w : answer) : op unit :=
  DebugError_AssertNoError;;
  o ← get_conn;
  ASSERT (send_state o =? SEND_STATE_BUSY);;
  connection_send w.
Definition connection_recv_job_handler (rd : read_answer) : op unit :=
  DebugError_AssertNoError;;
  o ← get_conn;
  ASSERT (recv_state o =? RECV_STATE_BUSY);;
  connection_recv rd.

Definition connection_send_if_handler_send (data : bytes) (data_len : Z) (w : answer) : op unit :=
  DebugError_AssertNoError;;
  o ← get_conn;
  ASSERT (send_state o =? SEND_STATE_READY);;
  ASSERT (0 <? data_len);;
  set_conn (λ o, o <| send_busy_data := data |> <| send_busy_data_len := data_len |>);;
  set_conn (λ o, o <| send_state := SEND_STATE_BUSY |>);;
  connection_send w.
Definition connection_recv_if_handler_recv (data_avail : Z) (rd : read_answer) : op unit :=
  DebugError_AssertNoError;;
  o ← get_conn;
  ASSERT (recv_state o =? RECV_STATE_READY);;
  ASSERT (0 <? data_avail);;
  set_conn (λ o, o <| recv_busy_data_avail := data_avail |>);;
  set_conn (λ o, o <| recv_state := RECV_STATE_BUSY |>);;
  connection_recv rd.

(** Where the descriptor of a connection comes from; [wants_addr]: whether
    [out_addr] is given. *)
Inductive BConnection_source :=
  | SOURCE_LISTENER (wants_addr : bool)
  | SOURCE_CONNECTOR
  | SOURCE_PIPE (pipefd : Z).

Record init_answers := MkInitAnswers {
  ia_accept : Z;
  ia_addr : sys_addr;
  ia_nonblocking : bool;
  ia_add : bool
}.

Definition check_source (source : BConnection_source) : op unit :=
  match source with
  | SOURCE_LISTENER _ =>
      get_listener;; b ← is_set listener_job; ASSERT b
  | SOURCE_CONNECTOR =>
      c ← get_connector;
      ASSERT (0 <=? connector_fd c);;
      ASSERT (connected c);;
      ASSERT (negb (have_bfd c));;
      b ← is_set connector_job;
      ASSERT (negb b)
  | SOURCE_PIPE pipefd => ASSERT (0 <=? pipefd)
  end.

(** The descriptor and [close_fd], or why there is none ([fail1] or [fail0]);
    the address of the peer. *)
Definition source_fd (source : BConnection_source) (e : init_answers) :
    op (Z * bool * bool * option BAddr) :=
  match source with
  | SOURCE_LISTENER wants_addr =>
      l ← get_listener;
      pending (OUnset listener_job);;
      let fd := ia_accept e in
      emit (Sys_accept (listener_fd l) fd);;
      if fd <? 0 then mret (fd, false, false, None) else
      emit (Sys_nonblocking fd (ia_nonblocking e));;
      if negb (ia_nonblocking e) then mret (fd, true, false, None) else
      if wants_addr then a ← of_option (addr_sys_to_socket (ia_addr e)); mret (fd, true, true, Some a)
      else mret (fd, true, true, None)
  | SOURCE_CONNECTOR =>
      c ← get_connector;
      set_connector (λ c, c <| connector_fd := -1 |>);;
      mret (connector_fd c, true, true, None)
  | SOURCE_PIPE pipefd =>
      emit (Sys_nonblocking pipefd (ia_nonblocking e));;
      mret (pipefd, false, ia_nonblocking e, None)
  end.

(** The result and [*out_addr]. *)
Definition BConnection_Init (source : BConnection_source) (user handler : Z) (e : init_answers) :
    op (Z * option BAddr) :=
  check_source source;;
  ASSERT (negb (handler =? 0));;
  '(fd, owned, ok, out_addr) ← source_fd source e;
  let fail1 := when owned (emit (Sys_close fd));; mret (0, out_addr) in
  if negb ok then fail1 else
  init_bfd conn_bfd fd HANDLER_CONNECTION;;
  added ← add_bfd conn_bfd (ia_add e);
  if added =? 0 then fail1 else
  init_limit send_limit BCONNECTION_SEND_LIMIT;;
  init_limit recv_limit BCONNECTION_RECV_LIMIT;;
  pending (OInit err_job);;
  modify (λ s, s <| conn := Some (MkConnection user handler fd owned false 0
    StreamInterface_Init [] [] 0 SEND_STATE_NOT_INITED StreamInterface_Init [] 0 RECV_STATE_NOT_INITED) |>);;
  mret (1, out_addr).

Definition BConnection_Free : op unit :=
  pending (OFree err_job);;
  o ← get_conn;
  ASSERT (send_state o =? SEND_STATE_NOT_INITED);;
  ASSERT ((recv_state o =? RECV_STATE_NOT_INITED) || (recv_state o =? RECV_STATE_NOT_INITED_CLOSED));;
  free_limit recv_limit;;
  free_limit send_limit;;
  when (negb (is_hupd o)) (remove_bfd conn_bfd);;
  when (close_fd o) (emit (Sys_close (conn_fd o)));;
  modify (λ s, s <| conn := None |>).

Definition BConnection_SetHandlers (user handler : Z) : op unit :=
  set_conn (λ o, o <| conn_user := user |> <| conn_handler := handler |>).

(** [res]: what [setsockopt] returns. *)
Definition BConnection_SetSendBuffer (buf_size res : Z) : op Z :=
  o ← get_conn;
  emit (Sys_sndbuf (conn_fd o) buf_size res);;
  mret (if res <? 0 then 0 else 1).

Definition BConnection_SendAsync_Init : op unit :=
  DebugError_AssertNoError;;
  o ← get_conn;
  ASSERT (send_state o =? SEND_STATE_NOT_INITED);;
  set_conn (λ o, o <| send_iface := StreamInterface_Init |>);;
  pending (OInit send_op_job);;
  pending (OInit send_done_job);;
  pending (OInit send_job);;
  set_conn (λ o, o <| send_state := SEND_STATE_READY |>).

Definition BConnection_SendAsync_Free : op unit :=
  o ← get_conn;
  ASSERT ((send_state o =? SEND_STATE_READY) || (send_state o =? SEND_STATE_BUSY));;
  when (negb (is_hupd o)) (
    set_conn (λ o, o <| wait_events := Z.land (wait_events o) (Z.lnot BREACTOR_WRITE) |>);;
    o ← get_conn;
    set_bfd_events conn_bfd (wait_events o));;
  pending (OFree send_job);;
  pending (OFree send_done_job);;
  pending (OFree send_op_job);;
  set_conn (λ o, o <| send_state := SEND_STATE_NOT_INITED |>).

Definition BConnection_RecvAsync_Init : op unit :=
  DebugError_AssertNoError;;
  o ← get_conn;
  ASSERT (recv_state o =? RECV_STATE_NOT_INITED);;
  set_conn (λ o, o <| recv_iface := StreamInterface_Init |>);;
  pending (OInit recv_op_job);;
  pending (OInit recv_done_job);;
  pending (OInit recv_job);;
  set_conn (λ o, o <| recv_state := RECV_STATE_READY |>).

Definition BConnection_RecvAsync_Free : op unit :=
  o ← get_conn;
  ASSERT ((recv_state o =? RECV_STATE_READY) || (recv_state o =? RECV_STATE_BUSY) ||
          (recv_state o =? RECV_STATE_INITED_CLOSED));;
  when (negb (is_hupd o)) (
    set_conn (λ o, o <| wait_events := Z.land (wait_events o) (Z.lnot BREACTOR_READ) |>);;
    o ← get_conn;
    set_bfd_events conn_bfd (wait_events o));;
  pending (OFree recv_job);;
  pending (OFree recv_done_job);;
  pending (OFree recv_op_job);;
  set_conn (λ o, o <| recv_state := RECV_STATE_NOT_INITED |>).
End code.
Arguments BSockets : clear implicits.
End BConnectionCode.
