(* ===== verification/BConnectionRun.v ===== *)
(** Sockets of BConnection in use: a listener, a connector and a connection on
    one event loop, their users, and the rest of the program on the same loop. *)
From S2P Require Import Prelude Misc BAddr TreeInterface BPending Interfaces CAvl CAvlOrder BReactor BReactorRun ReactorClient BConnection.

(** * The system *)
Module BConnectionSystem.
Import StreamIf.
Export BConnectionCode.
Import ReactorClient.

Section system.
Context {T : Type} `{!OrderedTree T} {places : Places}.
Abbreviation op := (prog (BSockets T) call).

(** ** The users of the interfaces, and their jobs *)

Definition send_user_init : op unit := on_send_if StreamInterface_User_Init;; mret tt.
Definition send_start (data : bytes) : op unit :=
  on_send_if (StreamInterface_Start (len data));;
  set_conn (λ o, o <| send_if_data := data |>);;
  emit (Send_start data).
Definition recv_user_init : op unit := on_recv_if StreamInterface_User_Init;; mret tt.
Definition recv_start (avail : Z) : op unit :=
  on_recv_if (StreamInterface_Start avail);;
  emit (Recv_start avail).

Definition send_operation (w : answer) : op unit :=
  es ← on_send_if _StreamInterface_job_operation;
  o ← get_conn;
  match es with
  | [CallOperation n] => connection_send_if_handler_send (send_if_data o) n w
  | _ => crash
  end.
Definition send_done : op unit :=
  es ← on_send_if _StreamInterface_job_done;
  match es with [CallDone n] => emit (Send_done n) | _ => crash end.
Definition recv_operation (rd : read_answer) : op unit :=
  es ← on_recv_if _StreamInterface_job_operation;
  match es with [CallOperation n] => connection_recv_if_handler_recv n rd | _ => crash end.
Definition recv_done : op unit :=
  es ← on_recv_if _StreamInterface_job_done;
  o ← get_conn;
  match es with [CallDone n] => emit (Recv_done (ztake n (recv_busy_data o))) | _ => crash end.

(** ** A round of the loop

    The system's answers to what the handler that is called may ask. The
    handlers of other objects are not modelled; what they do comes as requests
    of their own. *)
Record io := MkIo {
  io_write : answer;
  io_read : read_answer;
  io_error : answer;
  io_accept : Z
}.
Definition dispatch (e : BReactorCode.call) (x : io) : op unit :=
  match e with
  | Call_fd p _ _ evs =>
      if decide (p = conn_bfd) then connection_fd_handler evs (io_write x) (io_read x)
      else if decide (p = connector_bfd) then connector_fd_handler (io_error x)
      else if decide (p = listener_bfd) then listener_fd_handler
      else mret tt
  | Call_job j =>
      if decide (j = err_job) then crash
      else if decide (j = send_job) then connection_send_job_handler (io_write x)
      else if decide (j = recv_job) then connection_recv_job_handler (io_read x)
      else if decide (j = send_op_job) then send_operation (io_write x)
      else if decide (j = send_done_job) then send_done
      else if decide (j = recv_op_job) then recv_operation (io_read x)
      else if decide (j = recv_done_job) then recv_done
      else if decide (j = connector_job) then connector_job_handler
      else if decide (j = listener_job) then listener_default_job_handler (io_accept x)
      else mret tt
  | _ => mret tt
  end.
(** The round itself, and what it called. *)
Definition reactor_round (now : Z) (answers : list (wait_answer * Z)) : op (progress * list BReactorCode.call) :=
  λ s, match exec_round now answers (reactor s) with
       | Some (b, r, es) => Some ((b, es), s <| reactor := r |>, map (λ e, Hist (Made e)) es)
       | None => None
       end.
Definition round (now : Z) (answers : list (wait_answer * Z)) (x : io) : op unit :=
  '(b, es) ← reactor_round now answers;
  match b, es with
  | Called, [e] => dispatch e x
  | _, _ => mret tt
  end.

(** ** Everything that can happen *)
Inductive act :=
  | Listen (addr : BAddr) (e : listen_answers)
  | ListenUnix (path : bytes) (e : listen_answers)
  | FreeListener
  | Connect (addr : BAddr) (e : connect_answers)
  | ConnectUnix (path : bytes) (e : connect_answers)
  | FreeConnector
  | Open (source : BConnection_source) (user handler : Z) (e : init_answers)
  | SetHandlers (user handler : Z)
  | SetSendBuffer (size res : Z)
  | SendInit | SendUserInit | Send (data : bytes) | SendFree
  | RecvInit | RecvUserInit | Recv (avail : Z) | RecvFree
  | Free
  | Other (o : api)
  | Round (now : Z) (answers : list (wait_answer * Z)) (x : io).

Definition run_act (a : act) : op unit :=
  match a with
  | Listen addr e => BListener_Init addr e;; mret tt
  | ListenUnix path e => BListener_InitUnix path e;; mret tt
  | FreeListener => BListener_Free
  | Connect addr e => BConnector_Init addr e;; mret tt
  | ConnectUnix path e => BConnector_InitUnix path e;; mret tt
  | FreeConnector => BConnector_Free
  | Open source user handler e => BConnection_Init source user handler e;; mret tt
  | SetHandlers user handler => BConnection_SetHandlers user handler
  | SetSendBuffer size res => BConnection_SetSendBuffer size res;; mret tt
  | SendInit => BConnection_SendAsync_Init;; emit Send_inited
  | SendUserInit => send_user_init
  | Send data => send_start data
  | SendFree => BConnection_SendAsync_Free
  | RecvInit => BConnection_RecvAsync_Init;; emit Recv_inited
  | RecvUserInit => recv_user_init
  | Recv avail => recv_start avail
  | RecvFree => BConnection_RecvAsync_Free
  | Free => BConnection_Free
  | Other o => reactor_do o (run_api o)
  | Round now answers x => round now answers x
  end.
Fixpoint run_acts (l : list act) : op unit :=
  match l with
  | [] => mret tt
  | a :: l => run_act a;; run_acts l
  end.

(** ** What a trace says *)

(** The history of the reactor. *)
Definition hist_step (h : history) (e : call) : history := match e with Hist e => e :: h | _ => h end.
Definition hist_after (es : list call) (h : history) : history := fold_left hist_step es h.

(** The descriptors that were obtained and not closed, unless one was closed that
    was not open; and since the interface was initialised: the data last offered
    to the send interface, the bytes written and those reported as sent; the bytes
    read and those delivered. *)
Record summary := MkSummary {
  sm_open : option (gset Z);
  sm_offered : bytes;
  sm_written : bytes;
  sm_sent : bytes;
  sm_read : bytes;
  sm_delivered : bytes
}.
#[global] Instance eta_summary : Eta summary := λ x,
  MkSummary (sm_open x) (sm_offered x) (sm_written x) (sm_sent x) (sm_read x) (sm_delivered x).

Definition obtain (fd : Z) (μ : summary) : summary :=
  if fd <? 0 then μ else μ <| sm_open := (λ l, {[fd]} ∪ l) <$> sm_open μ |>.
Definition step (μ : summary) (e : call) : summary :=
  match e with
  | Sys_socket _ fd | Sys_accept _ fd => obtain fd μ
  | Sys_close fd =>
      μ <| sm_open := l ← sm_open μ; if decide (fd ∈ l) then Some (l ∖ {[fd]}) else None |>
  | Send_inited => μ <| sm_offered := [] |> <| sm_written := [] |> <| sm_sent := [] |>
  | Send_start data => μ <| sm_offered := data |>
  | Sys_write _ data a => μ <| sm_written := sm_written μ ++ ztake (ret a) data |>
  | Send_done n => μ <| sm_sent := sm_sent μ ++ ztake n (sm_offered μ) |>
  | Recv_inited => μ <| sm_read := [] |> <| sm_delivered := [] |>
  | Sys_read _ _ a => if read_ret a <? 0 then μ else μ <| sm_read := sm_read μ ++ read_data a |>
  | Recv_done data => μ <| sm_delivered := sm_delivered μ ++ data |>
  | _ => μ
  end.
Definition no_summary : summary := MkSummary (Some ∅) [] [] [] [] [].
Definition summary_of (tr : list call) : summary := fold_left step tr no_summary.

(** ** When it can happen

    By the documentation in BConnection.h, and how the system answers. *)

Definition our_fds : list positive := [listener_bfd; connector_bfd; conn_bfd].
Definition our_limits : list positive := [send_limit; recv_limit].
Definition our_jobs : list nat :=
  [listener_job; connector_job; err_job; send_job; recv_job; send_op_job; send_done_job; recv_op_job; recv_done_job].

Definition job_set (s : BSockets T) (j : nat) : Prop := j ∈ jobs (pending_jobs (reactor s)).
Definition with_conn (s : BSockets T) (P : BConnection → Prop) : Prop := ∃ o, conn s = Some o ∧ P o.

(** A descriptor that is obtained is not open; one that is registered already
    cannot be added. *)
Definition new_fd (fd : Z) (μ : summary) : Prop := 0 ≤ fd → ∀ l, sm_open μ = Some l → fd ∉ l.
Definition can_add (ok : bool) (fd : Z) (h : history) : Prop := ok = true → registered h !! fd = None.
(** The address of a peer, as [accept] stores it. *)
Definition addr_valid (a : sys_addr) : Prop :=
  match sa_addr a with
  | sockaddr_in _ _ => sa_len a = sizeof_sockaddr_in
  | sockaddr_in6 _ _ _ _ => sa_len a = sizeof_sockaddr_in6
  | sockaddr_other _ => True
  end.

(** Whether the connection still watches for [flag] once the events [evs] are
    handled. *)
Definition still_watched (o : BConnection) (evs flag : Z) : bool :=
  has (Z.land (wait_events o) (Z.lnot evs)) flag && negb (has evs BREACTOR_HUP).
Definition watched_for (o : BConnection) (flag : Z) : bool := negb (is_hupd o) && has (wait_events o) flag.

(** The answers for a handler that is called: [write] and [read] transfer no more
    than asked; and where an error is reported without the readiness that is
    waited for, they do not succeed. *)
Definition answers_for (s : BSockets T) (e : BReactorCode.call) (x : io) : Prop :=
  ∀ o, conn s = Some o →
    (ret (io_write x) < 0 ∨ 0 < ret (io_write x) ≤ job_operation_len (send_iface o)) ∧
    (read_ret (io_read x) < 0 ∨
     0 ≤ read_ret (io_read x) ≤ job_operation_len (recv_iface o) ∧ len (read_data (io_read x)) = read_ret (io_read x)) ∧
    match e with
    | Call_fd _ _ _ evs =>
        (still_watched o evs BREACTOR_WRITE = true → ret (io_write x) < 0) ∧
        (still_watched o evs BREACTOR_READ = true → read_ret (io_read x) < 0)
    | _ => watched_for o BREACTOR_READ = true → read_ret (io_read x) < 0
    end.

Definition act_enabled (a : act) (s : BSockets T) (tr : list call) : Prop :=
  let h := hist_after tr [] in
  let μ := summary_of tr in
  match a with
  | Listen _ e | ListenUnix _ e =>
      listener s = None ∧ new_fd (la_socket e) μ ∧ can_add (la_add e) (la_socket e) h
  | FreeListener => is_Some (listener s)
  | Connect _ e | ConnectUnix _ e =>
      connector s = None ∧ new_fd (ca_socket e) μ ∧ can_add (ca_add e) (ca_socket e) h
  | FreeConnector => is_Some (connector s)
  | Open source _ handler e =>
      conn s = None ∧ handler ≠ 0 ∧
      match source with
      | SOURCE_LISTENER _ =>
          is_Some (listener s) ∧ job_set s listener_job ∧ new_fd (ia_accept e) μ ∧ addr_valid (ia_addr e) ∧
          can_add (ia_add e) (ia_accept e) h
      | SOURCE_CONNECTOR => ∃ c, connector s = Some c ∧ 0 ≤ connector_fd c ∧ connected c = true ∧
          ¬ job_set s connector_job ∧ can_add (ia_add e) (connector_fd c) h
      | SOURCE_PIPE fd => 0 ≤ fd ∧ can_add (ia_add e) fd h
      end
  | SetHandlers _ handler => is_Some (conn s) ∧ handler ≠ 0
  | SetSendBuffer _ _ => is_Some (conn s)
  | SendInit => with_conn s (λ o, send_state o = SEND_STATE_NOT_INITED) ∧ ¬ job_set s err_job
  | SendUserInit => with_conn s (λ o, send_state o ≠ SEND_STATE_NOT_INITED ∧ handler_done (send_iface o) = false)
  | Send data => with_conn s (λ o, send_state o ≠ SEND_STATE_NOT_INITED ∧ handler_done (send_iface o) = true ∧
      StreamIf.state (send_iface o) = SPI_STATE_NONE) ∧ data ≠ [] ∧ ¬ job_set s err_job
  | SendFree => with_conn s (λ o, send_state o ≠ SEND_STATE_NOT_INITED)
  | RecvInit => with_conn s (λ o, recv_state o = RECV_STATE_NOT_INITED) ∧ ¬ job_set s err_job
  | RecvUserInit => with_conn s (λ o, recv_state o ≠ RECV_STATE_NOT_INITED ∧ handler_done (recv_iface o) = false)
  | Recv avail => with_conn s (λ o, recv_state o ≠ RECV_STATE_NOT_INITED ∧ handler_done (recv_iface o) = true ∧
      StreamIf.state (recv_iface o) = SPI_STATE_NONE) ∧ 0 < avail ∧ ¬ job_set s err_job
  | RecvFree => with_conn s (λ o, recv_state o ≠ RECV_STATE_NOT_INITED)
  | Free => with_conn s (λ o, send_state o = SEND_STATE_NOT_INITED ∧ recv_state o = RECV_STATE_NOT_INITED)
  | Other o => enabled o (reactor s) h ∧ foreign our_fds our_limits our_jobs o
  | Round now answers x =>
      exiting (reactor s) = false ∧ round_enabled now answers h ∧
      head (jobs (pending_jobs (reactor s))) ≠ Some err_job ∧ new_fd (io_accept x) μ ∧
      ∀ b r' es, exec_round now answers (reactor s) = Some (b, r', es) →
        b ≠ Waiting ∧ ∀ e, es = [e] → answers_for s e x
  end.

Inductive runs : BSockets T → list call → Prop :=
  | runs_init r : initial r → runs (MkSockets r None None None) []
  | runs_act s tr a s' es : runs s tr → act_enabled a s tr → run_act a s = Some (tt, s', es) →
      runs s' (tr ++ es).
End system.
End BConnectionSystem.
