(* ===== verification/BConnectionRules.v ===== *)
(** Reasoning about programs that make requests to the event loop: one rule for
    each request, with what it does to the client's view of the reactor. *)
From S2P Require Import Prelude Misc BAddr TreeInterface BPending Interfaces BReactor BReactorRun ReactorClient BConnection BConnectionRun.

Module BConnectionRules.
Export BConnectionSystem ReactorClient.

(** Assertions that only depend on the objects [F], [L] and [J] of the reactor. *)
Class Stable {T} `{!OrderedTree T} (F L : list positive) (J : list nat) (Φ : BSockets T → Prop) :=
  stable s r' : Φ s → untouched F L J (view (reactor s)) (view r') → Φ (s <| reactor := r' |>).

Section rules.
Context {T : Type} `{!OrderedTree T}.
Implicit Types (s : BSockets T) (μ : summary) (Φ : BSockets T → Prop).

(** From a state that the reactor can reach and where [Φ] holds, the program runs
    to such a state, and the result, the state and what the trace then says
    satisfy [Q]. *)
Definition rwp {A} Φ (m : prog (BSockets T) call A) s μ (Q : A → BSockets T → summary → Prop) : Prop :=
  ∀ h, reach (reactor s) h → Φ s →
    wp m s (λ a s' es, reach (reactor s') (hist_after es h) ∧ Φ s' ∧ Q a s' (fold_left step es μ)).

Lemma rwp_ret {A} Φ (a : A) s μ Q : Q a s μ → rwp Φ (mret a) s μ Q.
Proof. by intros H h Hr HΦ. Qed.
Lemma rwp_bind {A B} Φ (m : prog (BSockets T) call A) (f : A → prog (BSockets T) call B) s μ Q :
  rwp Φ m s μ (λ a s1 μ1, rwp Φ (f a) s1 μ1 Q) → rwp Φ (m ≫= f) s μ Q.
Proof.
  intros H h Hr HΦ. apply wp_bind. eapply wp_mono; [by apply H|]. intros a s1 e1 (Hr1 & HΦ1 & H1).
  eapply wp_mono; [by apply H1|]. intros b s2 e2. unfold hist_after. by rewrite !fold_left_app.
Qed.
Lemma rwp_mono {A} Φ (m : prog (BSockets T) call A) s μ (P Q : A → BSockets T → summary → Prop) :
  rwp Φ m s μ P → (∀ a s' μ', P a s' μ' → Q a s' μ') → rwp Φ m s μ Q.
Proof.
  intros H HPQ h Hr HΦ. eapply wp_mono; [by apply H|]. intros a s' es (? & ? & ?). split_and!; auto.
Qed.
Lemma rwp_get Φ s μ (Q : BSockets T → BSockets T → summary → Prop) : Q s s μ → rwp Φ get_st s μ Q.
Proof. by intros H h Hr HΦ. Qed.
Lemma rwp_option {A} Φ (x : option A) a s μ Q : x = Some a → Q a s μ → rwp Φ (of_option x) s μ Q.
Proof. by intros -> H h Hr HΦ. Qed.
Lemma rwp_assert Φ b s μ Q : b = true → Q tt s μ → rwp Φ (ASSERT b) s μ Q.
Proof. by intros -> H h Hr HΦ. Qed.
Lemma rwp_emit Φ e s μ Q : (∀ e', e ≠ Hist e') → Q tt s (step μ e) → rwp Φ (emit e) s μ Q.
Proof. intros He H h Hr HΦ. by destruct e; try done; destruct (He e). Qed.
Lemma rwp_modify Φ g s μ Q : reactor (g s) = reactor s → (Φ s → Φ (g s)) → Q tt (g s) μ → rwp Φ (modify g) s μ Q.
Proof. intros Hg HΦ H h Hr HP. apply wp_modify. rewrite Hg. cbn. auto. Qed.
Lemma rwp_when Φ b m s μ Q : (b = true → rwp Φ m s μ Q) → (b = false → Q tt s μ) → rwp Φ (when b m) s μ Q.
Proof. destruct b; cbn; intros H1 H2; [by apply H1|]. by apply rwp_ret, H2. Qed.
Lemma rwp_when_assert Φ b x s μ Q : (b = true → x = true) → Q tt s μ → rwp Φ (when b (ASSERT x)) s μ Q.
Proof. intros Hx HQ. apply rwp_when; intros Hb; [apply rwp_assert; auto|done]. Qed.
(** What is known of every state that is reached. *)
Lemma rwp_reached {A} Φ (m : prog (BSockets T) call A) s μ Q : (∀ h, reach (reactor s) h → Φ s → rwp Φ m s μ Q) → rwp Φ m s μ Q.
Proof. intros H h Hr HΦ. by apply (H h). Qed.
Lemma rwp_frame {A} Φ Ψ (m : prog (BSockets T) call A) s μ Q : Ψ s → (∀ s, Ψ s → Φ s) →
  rwp Ψ m s μ (λ a s' μ', Ψ s' → Q a s' μ') → (Φ s → rwp Φ m s μ Q).
Proof.
  intros HΨ Hw H HΦ h Hr _. eapply wp_mono; [by apply H|]. intros a s' es (? & ? & ?). split_and!; auto.
Qed.

Lemma hist_after_made o es h : hist_after (Hist (Did o) :: map (λ e, Hist (Made e)) es) h = note es (Did o :: h).
Proof.
  cbn. generalize (Did o :: h). clear h. induction es as [|e es IH]; intros h; [done|]. cbn. apply IH.
Qed.
Lemma step_made es μ : fold_left step (map (λ e, Hist (Made e)) es) μ = μ.
Proof. revert μ. by induction es as [|e es IH]; intros μ; cbn. Qed.

Section requests.
Context {F L : list positive} {J : list nat} (Φ : BSockets T → Prop) `{!Stable F L J Φ}.

Lemma rwp_reactor {A} o (m : prog (BReactor T) BReactorCode.call A) (P : A → BReactor T → Prop) s μ Q :
  (∀ h, reach (reactor s) h → wp m (reactor s) (λ a r' es, reach r' (note es (Did o :: h)) ∧ P a r')) →
  (∀ a r', P a r' → untouched F L J (view (reactor s)) (view r') ∧ Q a (s <| reactor := r' |>) μ) →
  rwp Φ (reactor_do o m) s μ Q.
Proof.
  intros Hm HP h Hr HΦ. specialize (Hm h Hr). unfold wp, reactor_do in *.
  destruct (m (reactor s)) as [[[a r'] es]|]; [|done]. destruct Hm as [Hr' Ha]. destruct (HP a r' Ha) as [Hu HQ].
  rewrite hist_after_made. cbn [fold_left step]. rewrite step_made. split_and!; [done|by apply (stable (F := F) (L := L) (J := J))|done].
Qed.

Context (l : option BListener) (c : option BConnector) (oo : option BConnection).
Implicit Types r : BReactor T.
Abbreviation st r := (MkSockets r l c oo).

Lemma rwp_init_fd p d hd r μ Q : off (view r) p → p ∉ F →
  (∀ r', view r' = view r <| v_fds := <[p := (d, None)]> (v_fds (view r)) |> → Q tt (st r') μ) →
  rwp Φ (init_bfd p d hd) (st r) μ Q.
Proof.
  intros Hp HF HQ. eapply rwp_reactor.
  - intros h Hr. by apply (request_init_fd Hr).
  - intros [] r' E. rewrite E. split; [by apply untouched_fd_insert|by apply HQ].
Qed.
Lemma rwp_add_fd p d ok r μ Q : v_fds (view r) !! p = Some (d, None) → p ∉ F →
  (ok = true → ∀ q w, v_fds (view r) !! q ≠ Some (d, Some w)) →
  (∀ r', ok = true → view r' = view r <| v_fds := <[p := (d, Some 0)]> (v_fds (view r)) |> →
    Q 1 (st r') μ) →
  (ok = false → Q 0 (st r) μ) → rwp Φ (add_bfd p ok) (st r) μ Q.
Proof.
  intros Hp HF Hok HQ1 HQ0. eapply rwp_reactor.
  - intros h Hr. by apply (request_add_fd Hr).
  - intros a r' E. destruct ok; destruct E as [-> E].
    + rewrite E. split; [by apply untouched_fd_insert|by apply HQ1].
    + subst r'. split; [done|]. by apply HQ0.
Qed.
Lemma rwp_remove_fd p d w r μ Q : v_fds (view r) !! p = Some (d, Some w) → p ∉ F →
  (∀ r', view r' = view r <| v_fds := <[p := (d, None)]> (v_fds (view r)) |> → Q tt (st r') μ) →
  rwp Φ (remove_bfd p) (st r) μ Q.
Proof.
  intros Hp HF HQ. eapply rwp_reactor.
  - intros h Hr. by apply (request_remove_fd Hr _ _ _ Hp).
  - intros [] r' E. rewrite E. split; [by apply untouched_fd_insert|by apply HQ].
Qed.
Lemma rwp_set_events p d w evs r μ Q : v_fds (view r) !! p = Some (d, Some w) → 0 ≤ evs ≤ 3 → p ∉ F →
  (∀ r', view r' = view r <| v_fds := <[p := (d, Some evs)]> (v_fds (view r)) |> → Q tt (st r') μ) →
  rwp Φ (set_bfd_events p evs) (st r) μ Q.
Proof.
  intros Hp Hevs HF HQ. eapply rwp_reactor.
  - intros h Hr. by apply (request_set_fd Hr _ _ _ _ Hp).
  - intros [] r' E. rewrite E. split; [by apply untouched_fd_insert|by apply HQ].
Qed.
Lemma rwp_init_limit p lim r μ Q : v_limits (view r) !! p = None → 0 < lim ≤ INT_MAX → p ∉ L →
  (∀ r', view r' = view r <| v_limits := <[p := MkLimit lim 0]> (v_limits (view r)) |> → Q tt (st r') μ) →
  rwp Φ (init_limit p lim) (st r) μ Q.
Proof.
  intros Hp Hl HL HQ. eapply rwp_reactor.
  - intros h Hr. by apply (request_limit_init Hr).
  - intros [] r' E. rewrite E. split; [by apply untouched_limit_insert|by apply HQ].
Qed.
Lemma rwp_free_limit p r μ Q : is_Some (v_limits (view r) !! p) → p ∉ L →
  (∀ r', view r' = view r <| v_limits := delete p (v_limits (view r)) |> → Q tt (st r') μ) →
  rwp Φ (free_limit p) (st r) μ Q.
Proof.
  intros Hp HL HQ. eapply rwp_reactor.
  - intros h Hr. by apply (request_limit_free Hr).
  - intros [] r' E. rewrite E. split; [by apply untouched_limit_delete|by apply HQ].
Qed.
Lemma rwp_increment_limit p x r μ Q : v_limits (view r) !! p = Some x → p ∉ L →
  (∀ r', limit x ≤ count x → view r' = view r → Q 0 (st r') μ) →
  (∀ r', count x < limit x →
    view r' = view r <| v_limits := <[p := x <| count := count x + 1 |>]> (v_limits (view r)) |> →
    Q 1 (st r') μ) →
  rwp Φ (increment_limit p) (st r) μ Q.
Proof.
  intros Hp HL HQ0 HQ1. eapply rwp_reactor.
  - intros h Hr. by apply (request_limit_increment Hr _ _ Hp).
  - intros a r' E. destruct (Z.leb_spec (limit x) (count x)); destruct E as [-> E]; rewrite E.
    + split; [done|by apply HQ0].
    + split; [by apply untouched_limit_insert|by apply HQ1].
Qed.
Lemma rwp_pending o r μ Q : job_allowed o (v_jobs (view r)) →
  match o with OInit j | OSet j | OUnset j | OFree j => j ∉ J | OExec => False end →
  (∀ r', view r' = view r <| v_stack := snd (spec_op o (v_stack (view r))) |>
                                   <| v_jobs := jobs_done o (v_jobs (view r)) |> → Q tt (st r') μ) →
  rwp Φ (pending o) (st r) μ Q.
Proof.
  intros Ho HJ HQ. eapply rwp_reactor.
  - intros h Hr. by apply (request_job Hr).
  - intros [] r' E. rewrite E. split; [by apply untouched_job|by apply HQ].
Qed.
End requests.

Lemma rwp_is_set Φ j r l c oo μ Q : j ∈ v_jobs (view r) →
  Q (bool_decide (j ∈ v_stack (view r))) (MkSockets r l c oo) μ → rwp Φ (is_set j) (MkSockets r l c oo) μ Q.
Proof.
  intros Hj HQ. apply rwp_reached. intros h Hr _. unfold is_set. apply rwp_bind, rwp_get.
  by eapply rwp_option; [apply (job_is_set Hr)|].
Qed.
End rules.

(** One step of a program, where it makes no request. *)
Ltac rwp_step :=
  lazymatch goal with
  | |- rwp _ (_ ≫= _) _ _ _ => apply rwp_bind
  | |- rwp _ (mret _) _ _ _ => apply rwp_ret
  | |- rwp _ get_st _ _ _ => apply rwp_get
  | |- rwp _ (emit _) _ _ _ => apply rwp_emit; [done|]
  end; cbn beta.

(** Membership in a list of places. *)
Ltac job_in := solve [left | right; left | do 2 right; left | do 3 right; left | do 4 right; left | do 5 right; left | do 6 right; left].
End BConnectionRules.
