(* ===== verification/BConnectionFacts.v ===== *)
(** The invariant of the sockets of BConnection in use, and that the programs of
    a connection, its handlers included, keep it and fail no assertion. *)
From S2P Require Import Prelude Misc BAddr TreeInterface BPending Interfaces CAvl CAvlOrder BReactor BReactorRun ReactorClient BConnection BConnectionRun BConnectionRules.

(** * The invariant *)
Module BConnectionInv.
Export BConnectionRules BPendingFacts.
Import StreamIf.

Section inv.
Context {T : Type} `{!OrderedTree T} {places : Places}.
Implicit Types (v : cview) (o : BConnection) (μ : summary).

Definition listener_ok v (l : option BListener) : Prop :=
  match l with
  | None => off v listener_bfd ∧ listener_job ∉ v_jobs v
  | Some l => 0 ≤ listener_fd l ∧ v_fds v !! listener_bfd = Some (listener_fd l, Some BREACTOR_READ) ∧
      listener_job ∈ v_jobs v
  end.

Definition connector_ok v (c : option BConnector) : Prop :=
  match c with
  | None => off v connector_bfd ∧ connector_job ∉ v_jobs v
  | Some c => connector_job ∈ v_jobs v ∧ (connector_fd c = -1 ∨ 0 ≤ connector_fd c) ∧
      if have_bfd c then
        connected c = false ∧ 0 ≤ connector_fd c ∧
        v_fds v !! connector_bfd = Some (connector_fd c, Some BREACTOR_WRITE) ∧ connector_job ∉ v_stack v
      else off v connector_bfd ∧ (connector_job ∈ v_stack v → connected c = true ∧ 0 ≤ connector_fd c)
  end.

(** One side of a connection: its state, interface, the length in use, whether
    the descriptor is watched for it, whether the jobs of the interface and the
    side's own job are set. A side that is busy is being taken care of: it is
    watched, its job is set, or there is an excuse. *)
Inductive side_ok (excused : bool) : Z → StreamInterface → Z → bool → bool → bool → bool → Prop :=
  | side_none i n : side_ok excused SEND_STATE_NOT_INITED i n false false false false
  | side_idle i n : state i = SPI_STATE_NONE → job_operation i = false → job_done i = false →
      side_ok excused SEND_STATE_READY i n false false false false
  | side_pending i n : state i = SPI_STATE_OPERATION_PENDING → job_operation i = true → job_done i = false →
      0 < job_operation_len i → side_ok excused SEND_STATE_READY i n false true false false
  | side_done i n : state i = SPI_STATE_DONE_PENDING → job_operation i = false → job_done i = true →
      side_ok excused SEND_STATE_READY i n false false true false
  | side_busy i armed io : state i = SPI_STATE_BUSY → job_operation i = false → job_done i = false →
      0 < job_operation_len i → armed || io || excused = true →
      side_ok excused SEND_STATE_BUSY i (job_operation_len i) armed false false io
  | side_closed i n : state i = SPI_STATE_BUSY → job_operation i = false → job_done i = false →
      side_ok excused RECV_STATE_INITED_CLOSED i n false false false false.

Definition is_on (v : cview) (j : nat) : bool := bool_decide (j ∈ v_stack v).
Definition send_jobs : list nat := [send_job; send_op_job; send_done_job].
Definition recv_jobs : list nat := [recv_job; recv_op_job; recv_done_job].
Definition conn_jobs : list nat := err_job :: send_jobs ++ recv_jobs.

(** What the interface has been told is done and its user not yet. *)
Definition in_flight (i : StreamInterface) (data : bytes) : bytes :=
  if state i =? SPI_STATE_DONE_PENDING then ztake (job_done_len i) data else [].

Record send_ok (excused : bool) v o μ : Prop := {
  so_jobs : ∀ j, j ∈ send_jobs → j ∈ v_jobs v ↔ send_state o ≠ SEND_STATE_NOT_INITED;
  so_side : side_ok excused (send_state o) (send_iface o) (send_busy_data_len o) (watched_for o BREACTOR_WRITE)
    (is_on v send_op_job) (is_on v send_done_job) false;
  so_job : send_job ∉ v_stack v;
  so_closed : send_state o ≠ RECV_STATE_INITED_CLOSED;
  so_data : send_state o ≠ SEND_STATE_NOT_INITED → state (send_iface o) ≠ SPI_STATE_NONE →
    len (send_if_data o) = job_operation_len (send_iface o) ∧ sm_offered μ = send_if_data o;
  so_busy : send_state o = SEND_STATE_BUSY → send_busy_data o = send_if_data o;
  so_stream : send_state o ≠ SEND_STATE_NOT_INITED →
    sm_written μ = sm_sent μ ++ in_flight (send_iface o) (send_if_data o)
}.
Record recv_ok (excused : bool) v o μ : Prop := {
  ro_jobs : ∀ j, j ∈ recv_jobs → j ∈ v_jobs v ↔ recv_state o ≠ RECV_STATE_NOT_INITED;
  ro_side : side_ok excused (recv_state o) (recv_iface o) (recv_busy_data_avail o) (watched_for o BREACTOR_READ)
    (is_on v recv_op_job) (is_on v recv_done_job) (is_on v recv_job);
  ro_stream : recv_state o ≠ RECV_STATE_NOT_INITED →
    sm_read μ = sm_delivered μ ++ in_flight (recv_iface o) (recv_busy_data o)
}.

(** The job [k] is above the job of the error, so it would run before it. *)
Definition over v (k : nat) : Prop := ∃ l1 l2, v_stack v = l1 ++ err_job :: l2 ∧ k ∈ l1.

Record conn_base v o : Prop := {
  cb_fd : if is_hupd o then off v conn_bfd else v_fds v !! conn_bfd = Some (conn_fd o, Some (wait_events o));
  cb_wait : 0 ≤ wait_events o ≤ 3;
  cb_limits : is_Some (v_limits v !! send_limit) ∧ is_Some (v_limits v !! recv_limit);
  cb_err : err_job ∈ v_jobs v;
  cb_handler : conn_handler o ≠ 0;
  cb_fd_pos : 0 ≤ conn_fd o;
  cb_order : ∀ k, k ∈ [send_op_job; recv_op_job; recv_job] → ¬ over v k
}.

Definition conn_ok v (oo : option BConnection) μ : Prop :=
  match oo with
  | None => off v conn_bfd ∧ v_limits v !! send_limit = None ∧ v_limits v !! recv_limit = None ∧
      ∀ j, j ∈ conn_jobs → j ∉ v_jobs v
  | Some o => conn_base v o ∧ send_ok (is_on v err_job) v o μ ∧ recv_ok (is_on v err_job) v o μ
  end.

(** ** What it depends on *)

Lemma untouched_job_on F L J v v' j : untouched F L J v v' → j ∈ J → j ∈ v_stack v' ↔ j ∈ v_stack v.
Proof.
  intros [_ _ _ Hs] Hj. assert (∀ l, j ∈ l ↔ j ∈ filter (λ k, k ∈ J) l) as Hf by (intros l; rewrite list_elem_of_filter; tauto).
  by rewrite (Hf (v_stack v')), Hs, <- Hf.
Qed.
Lemma untouched_off F L J v v' p : untouched F L J v v' → p ∈ F → off v p → off v' p.
Proof. intros [Hf _ _ _] Hp H d w. rewrite Hf by done. apply H. Qed.
Lemma listener_ok_ext v v' l : untouched [listener_bfd] [] [listener_job] v v' → listener_ok v l → listener_ok v' l.
Proof.
  intros Hu. destruct l as [l|]; cbn.
  - intros (? & ? & ?). split_and!; [done| |by apply (u_jobs _ _ _ _ _ Hu); [left|]].
    by rewrite (u_fds _ _ _ _ _ Hu) by left.
  - intros [? ?]. split; [by eapply untouched_off; [|left|]|]. by rewrite (u_jobs _ _ _ _ _ Hu) by left.
Qed.
Lemma connector_ok_ext v v' c : untouched [connector_bfd] [] [connector_job] v v' → connector_ok v c → connector_ok v' c.
Proof.
  intros Hu. assert (connector_job ∈ v_stack v' ↔ connector_job ∈ v_stack v) as Hs
    by by (eapply untouched_job_on; [|left]).
  destruct c as [c|]; cbn.
  - intros (? & ? & H). split; [by apply (u_jobs _ _ _ _ _ Hu); [left|]|]. split; [done|].
    destruct (have_bfd c).
    + destruct H as (? & ? & ? & ?). split_and!; [done|done| |by rewrite Hs].
      by rewrite (u_fds _ _ _ _ _ Hu) by left.
    + destruct H as [? H]. split; [by eapply untouched_off; [|left|]|]. by rewrite Hs.
  - intros [? ?]. split; [by eapply untouched_off; [|left|]|]. by rewrite (u_jobs _ _ _ _ _ Hu) by left.
Qed.

Lemma is_on_ext v v' j : (j ∈ v_stack v' ↔ j ∈ v_stack v) → is_on v' j = is_on v j.
Proof. intros H. unfold is_on. by apply bool_decide_ext. Qed.
Lemma side_ok_excused e e' st i n a op dn io : (e = true → e' = true) → side_ok e st i n a op dn io → side_ok e' st i n a op dn io.
Proof.
  intros He [ | | | | ? ? ? ? ? ? ? H| ]; econstructor; try done. destruct e; [rewrite He in *; [by rewrite orb_true_r|done]|].
  rewrite orb_false_r in H. by rewrite H.
Qed.

(** The parts of a connection that the sending side depends on. *)
Definition same_send v o μ v' o' μ' : Prop :=
  (∀ j, j ∈ send_jobs → (j ∈ v_jobs v' ↔ j ∈ v_jobs v) ∧ (j ∈ v_stack v' ↔ j ∈ v_stack v)) ∧
  (send_state o', send_iface o', send_busy_data_len o', send_busy_data o', send_if_data o', watched_for o' BREACTOR_WRITE) =
  (send_state o, send_iface o, send_busy_data_len o, send_busy_data o, send_if_data o, watched_for o BREACTOR_WRITE) ∧
  (sm_offered μ', sm_written μ', sm_sent μ') = (sm_offered μ, sm_written μ, sm_sent μ).
Definition same_recv v o μ v' o' μ' : Prop :=
  (∀ j, j ∈ recv_jobs → (j ∈ v_jobs v' ↔ j ∈ v_jobs v) ∧ (j ∈ v_stack v' ↔ j ∈ v_stack v)) ∧
  (recv_state o', recv_iface o', recv_busy_data_avail o', recv_busy_data o', watched_for o' BREACTOR_READ) =
  (recv_state o, recv_iface o, recv_busy_data_avail o, recv_busy_data o, watched_for o BREACTOR_READ) ∧
  (sm_read μ', sm_delivered μ') = (sm_read μ, sm_delivered μ).

Lemma send_ok_ext e e' v o μ v' o' μ' : (e = true → e' = true) → same_send v o μ v' o' μ' →
  send_ok e v o μ → send_ok e' v' o' μ'.
Proof.
  intros He (Hj & [= E1 E2 E3 E4 E5 E6] & [= M1 M2 M3]) [H1 H2 H3 H4 H5 H6 H7].
  assert (∀ j, j ∈ send_jobs → is_on v' j = is_on v j) as Hon by (intros j ?; by apply is_on_ext, Hj).
  split; rewrite ?E1, ?E2, ?E3, ?E4, ?E5, ?E6, ?M1, ?M2, ?M3; try done.
  - intros j Hjs. rewrite (proj1 (Hj j Hjs)). by apply H1.
  - rewrite !Hon by set_solver. by eapply side_ok_excused.
  - rewrite (proj2 (Hj send_job ltac:(left))). done.
Qed.
Lemma recv_ok_ext e e' v o μ v' o' μ' : (e = true → e' = true) → same_recv v o μ v' o' μ' →
  recv_ok e v o μ → recv_ok e' v' o' μ'.
Proof.
  intros He (Hj & [= E1 E2 E3 E4 E5] & [= M1 M2]) [H1 H2 H3].
  assert (∀ j, j ∈ recv_jobs → is_on v' j = is_on v j) as Hon by (intros j ?; by apply is_on_ext, Hj).
  split; rewrite ?E1, ?E2, ?E3, ?E4, ?E5, ?M1, ?M2; try done.
  - intros j Hjs. rewrite (proj1 (Hj j Hjs)). by apply H1.
  - rewrite !Hon by set_solver. by eapply side_ok_excused.
Qed.
End inv.
End BConnectionInv.

(** * The connection *)
Module BConnectionConn.
Export BConnectionInv.
Import StreamIf.

Section conn.
Context {T : Type} `{!OrderedTree T} {places : Places}.
Implicit Types (r : BReactor T) (s : BSockets T) (v : cview) (o : BConnection) (μ : summary).

(** A program of the connection leaves the listener and the connector alone. *)
Definition others_ok s : Prop :=
  listener_ok (view (reactor s)) (listener s) ∧ connector_ok (view (reactor s)) (connector s).
#[export] Instance others_stable : Stable [listener_bfd; connector_bfd] [] [listener_job; connector_job] others_ok.
Proof.
  intros s r' [Hl Hc] Hu. split; cbn.
  - eapply listener_ok_ext; [|exact Hl]. eapply untouched_mono; [..|exact Hu]; set_solver.
  - eapply connector_ok_ext; [|exact Hc]. eapply untouched_mono; [..|exact Hu]; set_solver.
Qed.

(** The distinctness of the places. *)
Lemma conn_bfd_other : conn_bfd ∉ [listener_bfd; connector_bfd].
Proof.
  pose proof bfds_distinct as H. apply NoDup_cons in H as [H1 H]. apply NoDup_cons in H as [H2 _]. set_solver.
Qed.
Lemma conn_jobs_other j : j ∈ conn_jobs → j ∉ [listener_job; connector_job].
Proof.
  pose proof jobs_distinct as H. apply NoDup_cons in H as [H1 H]. apply NoDup_cons in H as [H2 _].
  unfold conn_jobs, send_jobs, recv_jobs. cbn [app]. set_solver.
Qed.

Lemma jobs_apart :
  err_job ≠ send_job ∧ err_job ≠ recv_job ∧ err_job ≠ send_op_job ∧
  err_job ≠ send_done_job ∧ err_job ≠ recv_op_job ∧ err_job ≠ recv_done_job ∧
  send_job ≠ recv_job ∧ send_job ≠ send_op_job ∧ send_job ≠ send_done_job ∧
  send_job ≠ recv_op_job ∧ send_job ≠ recv_done_job ∧ recv_job ≠ send_op_job ∧
  recv_job ≠ send_done_job ∧ recv_job ≠ recv_op_job ∧ recv_job ≠ recv_done_job ∧
  send_op_job ≠ send_done_job ∧ send_op_job ≠ recv_op_job ∧ send_op_job ≠ recv_done_job ∧
  send_done_job ≠ recv_op_job ∧ send_done_job ≠ recv_done_job ∧ recv_op_job ≠ recv_done_job.
Proof.
  pose proof jobs_distinct as H. apply NoDup_cons in H as [_ H]. apply NoDup_cons in H as [_ H].
  do 6 (apply NoDup_cons in H as [? H]). clear H. rewrite !not_elem_of_cons in *. tauto.
Qed.
Lemma recv_not_send j : j ∈ recv_jobs → j ∉ send_jobs.
Proof.
  destruct jobs_apart as (?&?&?&?&?&?&?&?&?&?&?&?&?&?&?&?&?&?&?&?&?). unfold send_jobs, recv_jobs.
  intros [->|[->|[->|[]%elem_of_nil]%elem_of_cons]%elem_of_cons]%elem_of_cons; rewrite !not_elem_of_cons; split_and!; try done; apply not_elem_of_nil.
Qed.
Lemma send_not_recv j : j ∈ send_jobs → j ∉ recv_jobs.
Proof. intros Hs Hr. by apply (recv_not_send j). Qed.
Lemma conn_send j : j ∈ send_jobs → j ∈ conn_jobs.
Proof. unfold conn_jobs. set_solver. Qed.
Lemma conn_recv j : j ∈ recv_jobs → j ∈ conn_jobs.
Proof. unfold conn_jobs. set_solver. Qed.
Lemma send_recv_apart j : j ∈ send_jobs → (j ∉ recv_jobs) ∧ j ≠ err_job.
Proof.
  destruct jobs_apart as (?&?&?&?&?&?&?&?&?&?&?&?&?&?&?&?&?&?&?&?&?). unfold send_jobs, recv_jobs.
  intros [->|[->|[->|[]%elem_of_nil]%elem_of_cons]%elem_of_cons]%elem_of_cons; rewrite !not_elem_of_cons; split_and!; try done; apply not_elem_of_nil.
Qed.
Lemma recv_not_err j : j ∈ recv_jobs → j ≠ err_job.
Proof.
  destruct jobs_apart as (?&?&?&?&?&?&?&?&?&?&?&?&?&?&?&?&?&?&?&?&?). unfold recv_jobs.
  by intros [->|[->|[->|[]%elem_of_nil]%elem_of_cons]%elem_of_cons]%elem_of_cons.
Qed.

Section ops.
Context (l : option BListener) (c : option BConnector).

(** A state whose listener and connector are those given. *)
Abbreviation st r o := (MkSockets r l c (Some o)).

Lemma conn_get r o μ Q : Q o (st r o) μ → rwp others_ok get_conn (st r o) μ Q.
Proof. intros H. unfold get_conn. apply rwp_bind, rwp_get. by eapply rwp_option. Qed.
Lemma conn_set g r o μ Q : Q tt (st r (g o)) μ → rwp others_ok (set_conn g) (st r o) μ Q.
Proof. intros H. unfold set_conn. apply rwp_bind, conn_get. by apply rwp_modify. Qed.
Lemma conn_events evs d w r o μ Q : v_fds (view r) !! conn_bfd = Some (d, Some w) → 0 ≤ evs ≤ 3 →
  (∀ r', view r' = view r <| v_fds := <[conn_bfd := (d, Some evs)]> (v_fds (view r)) |> → Q tt (st r' o) μ) →
  rwp others_ok (set_bfd_events conn_bfd evs) (st r o) μ Q.
Proof. intros. eapply rwp_set_events; [apply _|done|done|apply conn_bfd_other|done]. Qed.
Lemma conn_remove d w r o μ Q : v_fds (view r) !! conn_bfd = Some (d, Some w) →
  (∀ r', view r' = view r <| v_fds := <[conn_bfd := (d, None)]> (v_fds (view r)) |> → Q tt (st r' o) μ) →
  rwp others_ok (remove_bfd conn_bfd) (st r o) μ Q.
Proof. intros. eapply rwp_remove_fd; [apply _|done|apply conn_bfd_other|done]. Qed.
Lemma conn_increment p x r o μ Q : v_limits (view r) !! p = Some x →
  (∀ r' z, view r' = view r ∨ view r' = view r <| v_limits := <[p := x <| count := count x + 1 |>]> (v_limits (view r)) |> →
    Q z (st r' o) μ) →
  rwp others_ok (increment_limit p) (st r o) μ Q.
Proof. intros Hp HQ. eapply rwp_increment_limit; [apply _|done|set_solver|intros r' _ E|intros r' _ E]; apply HQ; auto. Qed.
Lemma conn_pending jo r o μ Q : job_allowed jo (v_jobs (view r)) →
  match jo with OInit j | OSet j | OUnset j | OFree j => j ∈ conn_jobs | OExec => False end →
  (∀ r', view r' = view r <| v_stack := snd (spec_op jo (v_stack (view r))) |> <| v_jobs := jobs_done jo (v_jobs (view r)) |> →
    Q tt (st r' o) μ) →
  rwp others_ok (pending jo) (st r o) μ Q.
Proof.
  intros Ha Hj HQ. eapply rwp_pending; [apply _|done| |done]. destruct jo; try done; by apply conn_jobs_other.
Qed.
Lemma conn_no_error r o μ Q : err_job ∈ v_jobs (view r) → err_job ∉ v_stack (view r) → Q tt (st r o) μ →
  rwp others_ok DebugError_AssertNoError (st r o) μ Q.
Proof.
  intros Hj Hn HQ. unfold DebugError_AssertNoError. apply rwp_bind, rwp_is_set; [done|].
  apply rwp_assert; [by rewrite bool_decide_eq_false_2|done].
Qed.

(** ** Bits of events *)

Lemma has_bit w n : 0 ≤ n → has w (2 ^ n) = Z.testbit w n.
Proof.
  intros Hn. unfold has. assert (Z.land w (2 ^ n) = if Z.testbit w n then 2 ^ n else 0) as ->.
  { apply Z.bits_inj'. intros m Hm. rewrite Z.land_spec, Z.pow2_bits_eqb by done.
    destruct (Z.eqb_spec n m) as [->|Hne].
    - rewrite andb_true_r. destruct (Z.testbit w m); [by rewrite Z.pow2_bits_true|by rewrite Z.bits_0].
    - rewrite andb_false_r. destruct (Z.testbit w n); [by rewrite Z.pow2_bits_false|by rewrite Z.bits_0]. }
  destruct (Z.testbit w n); [|done]. apply negb_true_iff, Z.eqb_neq. lia.
Qed.
Lemma has_cleared w evs n : 0 ≤ n → has (Z.land w (Z.lnot evs)) (2 ^ n) = has w (2 ^ n) && negb (has evs (2 ^ n)).
Proof. intros. by rewrite !has_bit, Z.land_spec, Z.lnot_spec. Qed.
Lemma has_added w f n : 0 ≤ n → has (Z.lor w f) (2 ^ n) = has w (2 ^ n) || has f (2 ^ n).
Proof. intros. by rewrite !has_bit, Z.lor_spec. Qed.
Lemma cleared_range w evs : 0 ≤ w ≤ 3 → 0 ≤ Z.land w (Z.lnot evs) ≤ 3.
Proof.
  intros Hw. assert (Z.land w (Z.lnot evs) = Z.land (Z.land w (Z.lnot evs)) (Z.ones 2)) as ->.
  { rewrite <- Z.land_assoc, (Z.land_comm _ (Z.ones 2)), Z.land_assoc. f_equal. rewrite Z.land_ones by lia.
    symmetry. apply Z.mod_small. lia. }
  rewrite Z.land_ones by lia. pose proof (Z.mod_pos_bound (Z.land w (Z.lnot evs)) (2 ^ 2)). lia.
Qed.
Lemma added_range w f : 0 ≤ w ≤ 3 → f = BREACTOR_READ ∨ f = BREACTOR_WRITE → 0 ≤ Z.lor w f ≤ 3.
Proof. intros Hw Hf. assert (w = 0 ∨ w = 1 ∨ w = 2 ∨ w = 3) as [->|[->|[->| ->]]] by lia; destruct Hf as [->| ->]; vm_compute; by split. Qed.

(** ** Order of the jobs *)

Lemma over_no_error v k : err_job ∉ v_stack v → ¬ over v k.
Proof. intros Hn (l1 & l2 & E & _). apply Hn. rewrite E. set_solver. Qed.
Lemma over_error v k : ¬ over (v <| v_stack := err_job :: list_remove_job err_job (v_stack v) |>) k.
Proof.
  intros (l1 & l2 & E & Hk). cbn in E. destruct l1 as [|x l1]; [by apply elem_of_nil in Hk|].
  injection E as <- E. assert (err_job ∈ list_remove_job err_job (v_stack v)) as H by (rewrite E; set_solver).
  by apply remove_not_in in H.
Qed.

(** What the programs below end in. *)
Definition settled (fd : Z) (cl : bool) μ : unit → BSockets T → summary → Prop := λ _ s' μ',
  ∃ r' o', s' = st r' o' ∧ conn_ok (view r') (Some o') μ' ∧ conn_fd o' = fd ∧ close_fd o' = cl ∧ sm_open μ' = sm_open μ.

(** The connection without an excuse for the side [e1], [e2] that has one. *)
Definition conn_parts (e1 e2 : bool) v o μ : Prop := conn_base v o ∧ send_ok e1 v o μ ∧ recv_ok e2 v o μ.
Lemma conn_parts_ok v o μ : err_job ∉ v_stack v → conn_parts false false v o μ → conn_ok v (Some o) μ.
Proof. intros Hn H. cbn. unfold is_on. by rewrite bool_decide_eq_false_2. Qed.

Lemma conn_parts_limits e1 e2 v o μ p x : conn_parts e1 e2 v o μ →
  conn_parts e1 e2 (v <| v_limits := <[p := x]> (v_limits v) |>) o μ.
Proof.
  intros ([H1 H2 [H3 H3'] H4 H5 H6 H7] & Hs & Hr). split_and!.
  - split; try done. cbn. rewrite !lookup_insert_is_Some'. tauto.
  - eapply send_ok_ext; [..|exact Hs]; [done|]. by split_and!.
  - eapply recv_ok_ext; [..|exact Hr]; [done|]. by split_and!.
Qed.

Lemma report_error_ok r o μ : err_job ∉ v_stack (view r) → conn_parts true true (view r) o μ →
  rwp others_ok connection_report_error (st r o) μ (settled (conn_fd o) (close_fd o) μ).
Proof.
  intros Hn (Hb & Hs & Hr). unfold connection_report_error. pose proof Hb as [H1 H2 H3 H4 H5 H6 H7].
  rwp_step. apply conn_no_error; [done..|]. rwp_step. apply conn_get. rwp_step. apply rwp_assert; [by apply negb_true_iff, Z.eqb_neq|].
  rwp_step. apply rwp_is_set; [done|]. rewrite bool_decide_eq_false_2 by done. rwp_step. apply rwp_assert; [done|].
  rwp_step. apply conn_pending; [done|left|]. intros r' Hv. rwp_step.
  assert (∀ j, j ∈ send_jobs ++ recv_jobs → (j ∈ v_jobs (view r') ↔ j ∈ v_jobs (view r)) ∧ (j ∈ v_stack (view r') ↔ j ∈ v_stack (view r))) as Hj.
  { intros j Hj. rewrite Hv. split; [done|].
    change (j ∈ err_job :: list_remove_job err_job (v_stack (view r)) ↔ j ∈ v_stack (view r)).
    rewrite elem_of_cons, elem_of_remove.
    assert (j ≠ err_job); [|naive_solver]. intros ->. pose proof jobs_distinct as Hd.
    apply NoDup_cons in Hd as [_ Hd]. apply NoDup_cons in Hd as [_ Hd]. apply NoDup_cons in Hd as [Hd _].
    unfold send_jobs, recv_jobs in Hj. cbn in Hj. set_solver. }
  exists r', o. split_and!; [done| |done..]. cbn. assert (is_on (view r') err_job = true) as ->.
  { unfold is_on. rewrite Hv. apply bool_decide_eq_true_2. left. }
  split_and!.
  - split; rewrite ?Hv; try done. intros k _. apply over_error.
  - eapply send_ok_ext; [..|exact Hs]; [done|]. split_and!; [|done..]. intros j ?. apply Hj. set_solver.
  - eapply recv_ok_ext; [..|exact Hr]; [done|]. split_and!; [|done..]. intros j ?. apply Hj. set_solver.
Qed.

(** ** Waiting for the descriptor *)

Definition io_flag (f : Z) : Prop := f = BREACTOR_READ ∨ f = BREACTOR_WRITE.
Lemma io_flag_bit f : io_flag f → ∃ n, 0 ≤ n ∧ f = 2 ^ n.
Proof. intros [->| ->]; [by exists 0|by exists 1]. Qed.
Lemma watched_added o f g : is_hupd o = false → io_flag g →
  watched_for (o <| wait_events := Z.lor (wait_events o) f |>) g = watched_for o g || has f g.
Proof.
  intros Hh (n & Hn & ->)%io_flag_bit. unfold watched_for. cbn [is_hupd wait_events upd]. by rewrite Hh, has_added.
Qed.

Lemma base_events v o evs : conn_base v o → is_hupd o = false → 0 ≤ evs ≤ 3 →
  conn_base (v <| v_fds := <[conn_bfd := (conn_fd o, Some evs)]> (v_fds v) |>) (o <| wait_events := evs |>).
Proof.
  intros [H1 H2 H3 H4 H5 H6 H7] Hh He. split; try done. cbn. rewrite Hh. apply lookup_insert_eq.
Qed.
Lemma wait_for_run flag r o μ Q : conn_base (view r) o → is_hupd o = false → io_flag flag →
  (∀ r', view r' = view r <| v_fds := <[conn_bfd := (conn_fd o, Some (Z.lor (wait_events o) flag))]> (v_fds (view r)) |> →
    Q tt (st r' (o <| wait_events := Z.lor (wait_events o) flag |>)) μ) →
  rwp others_ok (wait_for flag) (st r o) μ Q.
Proof.
  intros [H1 H2 _ _ _ _ _] Hh Hf HQ. rewrite Hh in H1. unfold wait_for. rwp_step. apply conn_set. rwp_step. apply conn_get.
  eapply conn_events; [exact H1|by apply added_range|done].
Qed.

Lemma side_busy_inv e st i n a op dn io : side_ok e st i n a op dn io → st = SEND_STATE_BUSY →
  state i = SPI_STATE_BUSY ∧ job_operation i = false ∧ job_done i = false ∧ 0 < job_operation_len i ∧
  n = job_operation_len i ∧ a || io || e = true ∧ op = false ∧ dn = false.
Proof. by destruct 1; intros; try done; split_and!. Qed.
Lemma side_waits e st i n a op dn io : side_ok true st i n a op dn io → st = SEND_STATE_BUSY → side_ok e st i n true op dn io.
Proof. by destruct 1 as [| | | |i a io|]; intros; try done; apply side_busy. Qed.
Lemma wait_for_write_ok r o μ : err_job ∉ v_stack (view r) → is_hupd o = false → send_state o = SEND_STATE_BUSY →
  conn_parts true false (view r) o μ →
  rwp others_ok (wait_for BREACTOR_WRITE) (st r o) μ (settled (conn_fd o) (close_fd o) μ).
Proof.
  intros Hn Hh Hbusy (Hb & Hs & Hr). apply wait_for_run; [done|done|by right|]. intros r' Hv.
  eexists r', _. split_and!; [done| |done..]. rewrite Hv. apply conn_parts_ok; [done|].
  assert (0 ≤ Z.lor (wait_events o) BREACTOR_WRITE ≤ 3) as Hrange by (apply added_range; [apply Hb|by right]).
  split_and!; [by apply base_events| |].
  - destruct Hs as [S1 S2 S3 S4 S5 S6 S7]. split; try done.
    rewrite watched_added by (done || by right). rewrite orb_true_r. by eapply side_waits.
  - eapply recv_ok_ext; [..|exact Hr]; [done|]. split_and!; [done| |done]. rewrite watched_added by (done || by left). by rewrite orb_false_r.
Qed.
Lemma wait_for_read_ok r o μ : err_job ∉ v_stack (view r) → is_hupd o = false → recv_state o = RECV_STATE_BUSY →
  conn_parts false true (view r) o μ →
  rwp others_ok (wait_for BREACTOR_READ) (st r o) μ (settled (conn_fd o) (close_fd o) μ).
Proof.
  intros Hn Hh Hbusy (Hb & Hs & Hr). apply wait_for_run; [done|done|by left|]. intros r' Hv.
  eexists r', _. split_and!; [done| |done..]. rewrite Hv. apply conn_parts_ok; [done|].
  assert (0 ≤ Z.lor (wait_events o) BREACTOR_READ ≤ 3) as Hrange by (apply added_range; [apply Hb|by left]).
  split_and!; [by apply base_events| |].
  - eapply send_ok_ext; [..|exact Hs]; [done|]. split_and!; [done| |done]. rewrite watched_added by (done || by right). by rewrite orb_false_r.
  - destruct Hr as [S1 S2 S3]. split; try done.
    rewrite watched_added by (done || by left). rewrite orb_true_r. by eapply side_waits.
Qed.

(** Before each attempt the limit is consulted, unless the connection was hung up. *)
Lemma within_limit_ok p r o μ Q : is_Some (v_limits (view r) !! p) →
  (∀ r' b, view r' = view r ∨ (∃ x, view r' = view r <| v_limits := <[p := x]> (v_limits (view r)) |>) →
    (b = false → is_hupd o = false) → Q b (st r' o) μ) →
  rwp others_ok (within_limit p) (st r o) μ Q.
Proof.
  intros [x Hx] HQ. unfold within_limit. rwp_step. apply conn_get. destruct (is_hupd o) eqn:Hh.
  - rwp_step. apply (HQ r true); [by left|done].
  - rwp_step. eapply conn_increment; [exact Hx|]. intros r' z [E|E]; rwp_step; apply HQ; [by left|done|right|done].
    by eexists.
Qed.

(** ** The interfaces *)

(** The stack once the jobs that an interface sets are set. *)
Definition pushed (i i' : StreamInterface) (op_job done_job : nat) (l : list nat) : list nat :=
  let l := if negb (job_operation i) && job_operation i' then op_job :: list_remove_job op_job l else l in
  if negb (job_done i) && job_done i' then done_job :: list_remove_job done_job l else l.

Lemma raise_ok b1 b2 j r o μ Q : j ∈ v_jobs (view r) → j ∈ conn_jobs →
  (∀ r', view r' = view r <| v_stack := if negb b1 && b2 then j :: list_remove_job j (v_stack (view r)) else v_stack (view r) |> →
    Q tt (st r' o) μ) →
  rwp others_ok (raise b1 b2 j) (st r o) μ Q.
Proof.
  intros Hj Hc HQ. unfold raise. destruct (negb b1 && b2); cbn [when].
  - eapply conn_pending; [done|done|]. exact HQ.
  - apply rwp_ret, HQ. done.
Qed.
Lemma conn_send_if m i' es r o μ Q : m (send_iface o) = Some (tt, i', es) →
  send_op_job ∈ v_jobs (view r) → send_done_job ∈ v_jobs (view r) →
  (∀ r', view r' = view r <| v_stack := pushed (send_iface o) i' send_op_job send_done_job (v_stack (view r)) |> →
    Q es (st r' (o <| send_iface := i' |>)) μ) →
  rwp others_ok (on_send_if m) (st r o) μ Q.
Proof.
  intros Em H1 H2 HQ. unfold on_send_if. rwp_step. apply conn_get. rewrite Em. rwp_step. apply conn_set.
  rwp_step. apply raise_ok; [done|set_solver|]. intros r1 E1. rwp_step. apply raise_ok; [by rewrite E1|set_solver|].
  intros r2 E2. rwp_step. apply HQ. rewrite E2, E1. done.
Qed.
Lemma conn_recv_if m i' es r o μ Q : m (recv_iface o) = Some (tt, i', es) →
  recv_op_job ∈ v_jobs (view r) → recv_done_job ∈ v_jobs (view r) →
  (∀ r', view r' = view r <| v_stack := pushed (recv_iface o) i' recv_op_job recv_done_job (v_stack (view r)) |> →
    Q es (st r' (o <| recv_iface := i' |>)) μ) →
  rwp others_ok (on_recv_if m) (st r o) μ Q.
Proof.
  intros Em H1 H2 HQ. unfold on_recv_if. rwp_step. apply conn_get. rewrite Em. rwp_step. apply conn_set.
  rwp_step. apply raise_ok; [done|set_solver|]. intros r1 E1. rwp_step. apply raise_ok; [by rewrite E1|set_solver|].
  intros r2 E2. rwp_step. apply HQ. rewrite E2, E1. done.
Qed.

(** ** Finishing an operation *)

(** Setting a job of the other side changes nothing here. *)
Lemma on_push v j k : k ∈ v_stack (v <| v_stack := j :: list_remove_job j (v_stack v) |>) ↔ k = j ∨ k ∈ v_stack v.
Proof.
  change (k ∈ j :: list_remove_job j (v_stack v) ↔ k = j ∨ k ∈ v_stack v). rewrite elem_of_cons, elem_of_remove.
  destruct (decide (k = j)); tauto.
Qed.
Lemma is_on_true v j : is_on v j = true ↔ j ∈ v_stack v.
Proof. unfold is_on. apply bool_decide_eq_true. Qed.
Lemma is_on_false v j : is_on v j = false ↔ j ∉ v_stack v.
Proof. unfold is_on. apply bool_decide_eq_false. Qed.

Lemma interface_done i k : state i = SPI_STATE_BUSY → job_done i = false → 0 < k ≤ job_operation_len i →
  ∃ i', StreamInterface_Done k i = Some (tt, i', []) ∧ state i' = SPI_STATE_DONE_PENDING ∧
    job_operation i' = job_operation i ∧ job_done i' = true ∧ job_done_len i' = k ∧
    job_operation_len i' = job_operation_len i.
Proof.
  intros Hs Hd Hk. exists (i <| job_done_len := k |> <| job_done := true |> <| state := SPI_STATE_DONE_PENDING |>).
  split; [|by split_and!].
  unfold StreamInterface_Done, mbind, prog_bind, get_st, ASSERT, modify. rewrite Hs. cbn.
  rewrite (proj2 (Z.ltb_lt 0 k)), (proj2 (Z.leb_le k _)) by lia. done.
Qed.

Lemma send_finished e v o μ k i' fd a : send_ok true v o μ → send_state o = SEND_STATE_BUSY →
  watched_for o BREACTOR_WRITE = false → 0 < k ≤ job_operation_len (send_iface o) →
  StreamInterface_Done k (send_iface o) = Some (tt, i', []) → ret a = k →
  send_ok e (v <| v_stack := pushed (send_iface o) i' send_op_job send_done_job (v_stack v) |>)
    (o <| send_state := SEND_STATE_READY |> <| send_iface := i' |>)
    (step μ (Sys_write fd (ztake (send_busy_data_len o) (send_busy_data o)) a)) ∧
  pushed (send_iface o) i' send_op_job send_done_job (v_stack v) = send_done_job :: list_remove_job send_done_job (v_stack v).
Proof.
  intros [S1 S2 S3 S4 S5 S6 S7] Hbusy Hw Hk Hi <-.
  destruct (side_busy_inv _ _ _ _ _ _ _ _ S2 Hbusy) as (Es & Eop & Ed & Hlen & En & _ & Hop0 & _).
  destruct (interface_done (send_iface o) (ret a) Es Ed Hk) as (i2 & E2 & I1 & I2 & I3 & I4 & I5).
  rewrite Hi in E2. injection E2 as <-.
  assert (pushed (send_iface o) i' send_op_job send_done_job (v_stack v) = send_done_job :: list_remove_job send_done_job (v_stack v)) as ->.
  { unfold pushed. by rewrite I2, Eop, Ed, I3. }
  split; [|done]. destruct jobs_apart as (?&?&?&?&?&?&?&?&?&?&?&?&?&?&?&?&?&?&?&?&?).
  destruct (S5 ltac:(by rewrite Hbusy) ltac:(by rewrite Es)) as [Hdata Hoff]. specialize (S6 Hbusy).
  specialize (S7 ltac:(by rewrite Hbusy)).
  set (v' := v <| v_stack := _ |>).
  assert (is_on v' send_op_job = false) as Hop by (apply is_on_false; unfold v'; rewrite on_push; intros [?|?]; [done|by apply (is_on_false v send_op_job) in Hop0]).
  assert (is_on v' send_done_job = true) as Hdn by (apply is_on_true; unfold v'; rewrite on_push; by left).
  split.
  - intros j Hj. change (j ∈ v_jobs v ↔ SEND_STATE_READY ≠ SEND_STATE_NOT_INITED). rewrite (S1 j Hj), Hbusy. done.
  - rewrite Hop, Hdn. change (watched_for (o <| send_state := SEND_STATE_READY |> <| send_iface := i' |>) BREACTOR_WRITE) with (watched_for o BREACTOR_WRITE).
    rewrite Hw. apply side_done; [done| |done]. change (job_operation i' = false). by rewrite I2.
  - unfold v'. rewrite on_push. naive_solver.
  - done.
  - intros _ _. change (len (send_if_data o) = job_operation_len i' ∧ sm_offered μ = send_if_data o). by rewrite I5.
  - done.
  - intros _. change (sm_written μ ++ ztake (ret a) (ztake (send_busy_data_len o) (send_busy_data o)) =
      sm_sent μ ++ in_flight i' (send_if_data o)).
    unfold in_flight in *. rewrite I1, I4. rewrite Es in S7. cbn in S7 |- *. rewrite app_nil_r in S7. rewrite S7.
    do 2 f_equal. rewrite S6. apply ztake_all. by rewrite En, Hdata.
Qed.

Lemma recv_finished e v o μ i' fd avail a : recv_ok true v o μ → recv_state o = RECV_STATE_BUSY →
  watched_for o BREACTOR_READ = false → recv_job ∉ v_stack v →
  0 < read_ret a ≤ job_operation_len (recv_iface o) → len (read_data a) = read_ret a →
  StreamInterface_Done (read_ret a) (recv_iface o) = Some (tt, i', []) →
  recv_ok e (v <| v_stack := pushed (recv_iface o) i' recv_op_job recv_done_job (v_stack v) |>)
    (o <| recv_busy_data := read_data a |> <| recv_state := RECV_STATE_READY |> <| recv_iface := i' |>)
    (step μ (Sys_read fd avail a)) ∧
  pushed (recv_iface o) i' recv_op_job recv_done_job (v_stack v) = recv_done_job :: list_remove_job recv_done_job (v_stack v).
Proof.
  intros [S1 S2 S3] Hbusy Hw Hio Hk Hlen Hi.
  destruct (side_busy_inv _ _ _ _ _ _ _ _ S2 Hbusy) as (Es & Eop & Ed & Hpos & _ & _ & Hop0 & _).
  destruct (interface_done (recv_iface o) (read_ret a) Es Ed Hk) as (i2 & E2 & I1 & I2 & I3 & I4 & I5).
  rewrite Hi in E2. injection E2 as <-.
  assert (pushed (recv_iface o) i' recv_op_job recv_done_job (v_stack v) = recv_done_job :: list_remove_job recv_done_job (v_stack v)) as ->.
  { unfold pushed. by rewrite I2, Eop, Ed, I3. }
  split; [|done]. destruct jobs_apart as (?&?&?&?&?&?&?&?&?&?&?&?&?&?&?&?&?&?&?&?&?).
  specialize (S3 ltac:(by rewrite Hbusy)).
  set (v' := v <| v_stack := _ |>).
  assert (is_on v' recv_op_job = false) as Hop by (apply is_on_false; unfold v'; rewrite on_push; intros [?|?]; [done|by apply (is_on_false v recv_op_job) in Hop0]).
  assert (is_on v' recv_job = false) as Hrj by (apply is_on_false; unfold v'; rewrite on_push; intros [?|?]; done).
  assert (is_on v' recv_done_job = true) as Hdn by (apply is_on_true; unfold v'; rewrite on_push; by left).
  split.
  - intros j Hj. change (j ∈ v_jobs v ↔ RECV_STATE_READY ≠ RECV_STATE_NOT_INITED). rewrite (S1 j Hj), Hbusy. done.
  - rewrite Hop, Hdn, Hrj.
    change (watched_for (o <| recv_busy_data := read_data a |> <| recv_state := RECV_STATE_READY |> <| recv_iface := i' |>) BREACTOR_READ) with (watched_for o BREACTOR_READ).
    rewrite Hw. apply side_done; [done| |done]. change (job_operation i' = false). by rewrite I2.
  - intros _. unfold step. rewrite (proj2 (Z.ltb_ge _ _)) by lia.
    change (sm_read μ ++ read_data a = sm_delivered μ ++ in_flight i' (read_data a)).
    unfold in_flight in *. rewrite I1, I4. rewrite Es in S3. cbn in S3 |- *. rewrite app_nil_r in S3. rewrite S3.
    f_equal. symmetry. apply ztake_all. lia.
Qed.

(** The other side, and the rest, when a job is set that is not theirs. *)
Lemma base_push v o j : err_job ∉ v_stack v → j ≠ err_job → conn_base v o →
  conn_base (v <| v_stack := j :: list_remove_job j (v_stack v) |>) o.
Proof.
  intros Hn Hj [H1 H2 H3 H4 H5 H6 H7]. split; try done. intros k _. apply over_no_error. rewrite on_push. naive_solver.
Qed.
Lemma send_push e v o μ j : j ∉ send_jobs → send_ok e v o μ →
  send_ok e (v <| v_stack := j :: list_remove_job j (v_stack v) |>) o μ.
Proof.
  intros Hj. apply send_ok_ext; [done|]. split_and!; [|done..]. intros k Hk. split; [done|]. rewrite on_push.
  split; [|tauto]. by intros [->|?].
Qed.
Lemma recv_push e v o μ j : j ∉ recv_jobs → recv_ok e v o μ →
  recv_ok e (v <| v_stack := j :: list_remove_job j (v_stack v) |>) o μ.
Proof.
  intros Hj. apply recv_ok_ext; [done|]. split_and!; [|done..]. intros k Hk. split; [done|]. rewrite on_push.
  split; [|tauto]. by intros [->|?].
Qed.

Lemma ztake_none {A} n (x : list A) : n ≤ 0 → ztake n x = [].
Proof. intros. unfold ztake. by replace (Z.to_nat n) with 0%nat by lia. Qed.

Lemma connection_send_ok r o μ w : err_job ∉ v_stack (view r) → conn_parts true false (view r) o μ →
  send_state o = SEND_STATE_BUSY → (ret w < 0 ∨ 0 < ret w ≤ job_operation_len (send_iface o)) →
  (watched_for o BREACTOR_WRITE = true → ret w < 0) →
  rwp others_ok (connection_send w) (st r o) μ (settled (conn_fd o) (close_fd o) μ).
Proof.
  intros Hn Hp Hbusy Hret Hfail. unfold connection_send.
  pose proof Hp as ([_ _ [Hl _] He _ _ _] & _ & _).
  rwp_step. apply conn_no_error; [done..|]. rwp_step. apply conn_get. rwp_step.
  apply rwp_assert; [by rewrite Hbusy|]. rwp_step. apply within_limit_ok; [done|]. intros r1 b Hv Hb.
  assert ((err_job ∉ v_stack (view r1)) ∧ conn_parts true false (view r1) o μ) as [Hn1 Hp1].
  { destruct Hv as [->|[x ->]]; [done|]. split; [done|]. by apply conn_parts_limits. }
  clear Hp Hn Hl He Hv. destruct b; cbn [negb].
  - rwp_step. rwp_step. destruct Hp1 as (Hbase & Hs & Hr). destruct (Z.ltb_spec (ret w) 0) as [Hneg|Hpos].
    + assert (ztake (ret w) (ztake (send_busy_data_len o) (send_busy_data o)) = []) as Hnil
        by (apply ztake_none; lia).
      assert (conn_parts true false (view r1) o (step μ (Sys_write (conn_fd o) (ztake (send_busy_data_len o) (send_busy_data o)) w))) as Hp2.
      { split_and!; [done| |by eapply recv_ok_ext; [..|exact Hr]]. eapply send_ok_ext; [..|exact Hs]; [done|].
        split_and!; [done|done|]. cbn. by rewrite Hnil, app_nil_r. }
      destruct (would_block o (errno w)) eqn:Hw.
      * unfold would_block in Hw. apply andb_true_iff in Hw as [Hh%negb_true_iff _].
        eapply rwp_mono; [by apply wait_for_write_ok|]. done.
      * eapply rwp_mono; [apply report_error_ok; [done|]|done]. destruct Hp2 as (? & ? & Hr2). split_and!; [done..|].
        by eapply recv_ok_ext; [..|exact Hr2].
    + assert (watched_for o BREACTOR_WRITE = false) as Hwat
        by (destruct (watched_for o BREACTOR_WRITE); [specialize (Hfail eq_refl); lia|done]).
      assert (0 < ret w ≤ job_operation_len (send_iface o)) as Hk by (destruct Hret; [lia|done]).
      pose proof Hs as [S1 S2 _ _ _ _ _]. destruct (side_busy_inv _ _ _ _ _ _ _ _ S2 Hbusy) as (Es & Eop & Ed & Hlen & En & _).
      rwp_step. apply rwp_assert; [apply Z.ltb_lt; lia|]. rwp_step. apply rwp_assert; [apply Z.leb_le; rewrite En; lia|].
      rwp_step. apply conn_set. rwp_step.
      destruct (interface_done (send_iface o) (ret w) Es Ed Hk) as (i' & Edone & _).
      destruct (send_finished false (view r1) o μ (ret w) i' (conn_fd o) w Hs Hbusy Hwat Hk Edone eq_refl) as [Hs' Epush].
      eapply conn_send_if; [exact Edone|apply S1; [job_in|by rewrite Hbusy]..|]. intros r2 E2. rwp_step.
      change (send_iface (o <| send_state := SEND_STATE_READY |>)) with (send_iface o) in E2. rewrite Epush in E2, Hs'.
      eexists r2, _. split_and!; [done| |done..]. rewrite E2.
      destruct (send_recv_apart send_done_job) as [Hd1 Hd2]; [set_solver|].
      apply conn_parts_ok; [rewrite on_push; naive_solver|]. split_and!; [|exact Hs'|].
      * apply base_push; [done|done|]. destruct Hbase. by split.
      * apply recv_push; [done|]. by eapply recv_ok_ext; [..|exact Hr].
  - eapply rwp_mono; [apply wait_for_write_ok; auto|]. done.
Qed.

Lemma connection_recv_ok r o μ rd : err_job ∉ v_stack (view r) → conn_parts false true (view r) o μ →
  recv_state o = RECV_STATE_BUSY → recv_job ∉ v_stack (view r) →
  (read_ret rd < 0 ∨ 0 ≤ read_ret rd ≤ job_operation_len (recv_iface o) ∧ len (read_data rd) = read_ret rd) →
  (watched_for o BREACTOR_READ = true → read_ret rd < 0) →
  rwp others_ok (connection_recv rd) (st r o) μ (settled (conn_fd o) (close_fd o) μ).
Proof.
  intros Hn Hp Hbusy Hio Hret Hfail. unfold connection_recv.
  pose proof Hp as ([_ _ [_ Hl] He _ _ _] & _ & _).
  rwp_step. apply conn_no_error; [done..|]. rwp_step. apply conn_get. rwp_step.
  apply rwp_assert; [by rewrite Hbusy|]. rwp_step. apply within_limit_ok; [done|]. intros r1 b Hv Hb.
  assert ((err_job ∉ v_stack (view r1)) ∧ (recv_job ∉ v_stack (view r1)) ∧ conn_parts false true (view r1) o μ) as (Hn1 & Hio1 & Hp1).
  { destruct Hv as [->|[x ->]]; [done|]. split_and!; [done..|]. by apply conn_parts_limits. }
  clear Hp Hn Hl He Hv Hio. destruct b; cbn [negb].
  2:{ eapply rwp_mono; [apply wait_for_read_ok; auto|]. done. }
  rwp_step. rwp_step. destruct Hp1 as (Hbase & Hs & Hr). destruct (Z.ltb_spec (read_ret rd) 0) as [Hneg|Hpos].
  - unfold step. rewrite (proj2 (Z.ltb_lt _ _)) by lia. destruct (would_block o (read_errno rd)) eqn:Hw.
    + unfold would_block in Hw. apply andb_true_iff in Hw as [Hh%negb_true_iff _].
      eapply rwp_mono; [by apply wait_for_read_ok|]. done.
    + eapply rwp_mono; [apply report_error_ok; [done|]|done]. split_and!; [done| |done].
      by eapply send_ok_ext; [..|exact Hs].
  - destruct Hret as [?|[Hk Hlen]]; [lia|]. set (μ1 := step μ _).
    assert (send_ok false (view r1) o μ1) as Hs1.
    { eapply send_ok_ext; [..|exact Hs]; [done|]. split_and!; [done|done|]. unfold μ1, step. by case_match. }
    assert (watched_for o BREACTOR_READ = false) as Hwat
      by (destruct (watched_for o BREACTOR_READ); [specialize (Hfail eq_refl); lia|done]).
    pose proof Hr as [S1 S2 S3]. destruct (side_busy_inv _ _ _ _ _ _ _ _ S2 Hbusy) as (Es & Eop & Ed & Hl & En & _ & Eo1 & Eo2).
    rwp_step. apply conn_set. cbv zeta. destruct (Z.eqb_spec (read_ret rd) 0) as [E0|E0].
    + rwp_step. apply conn_set. rwp_step. eexists r1, _. split_and!; [done| |done|done|].
      2:{ cbn [step]. unfold μ1, step. by case_match. }
      apply conn_parts_ok; [done|]. split_and!.
      * destruct Hbase. by split.
      * by eapply send_ok_ext; [..|exact Hs1].
      * split.
        -- intros j Hj. rewrite (S1 j Hj), Hbusy. done.
        -- rewrite Eo1, Eo2, (proj2 (is_on_false _ _) Hio1).
           change (watched_for (o <| recv_busy_data := read_data rd |> <| recv_state := RECV_STATE_INITED_CLOSED |>) BREACTOR_READ) with (watched_for o BREACTOR_READ).
           rewrite Hwat. by apply side_closed.
        -- intros _. cbn [step]. unfold μ1, step. rewrite (proj2 (Z.ltb_ge _ _)) by lia.
           assert (read_data rd = []) as -> by (apply len_0_nil; lia). specialize (S3 ltac:(by rewrite Hbusy)).
           unfold in_flight in *. change (sm_read μ ++ [] = sm_delivered μ ++ (if state (recv_iface o) =? SPI_STATE_DONE_PENDING then ztake (job_done_len (recv_iface o)) [] else [])).
           rewrite Es in *. rewrite app_nil_r. exact S3.
    + rwp_step. apply rwp_assert; [apply Z.ltb_lt; lia|]. rwp_step. apply rwp_assert; [apply Z.leb_le; rewrite En; lia|].
      rwp_step. apply conn_set. rwp_step.
      destruct (interface_done (recv_iface o) (read_ret rd) Es Ed ltac:(lia)) as (i' & Edone & _).
      destruct (recv_finished false (view r1) o μ i' (conn_fd o) (recv_busy_data_avail o) rd Hr Hbusy Hwat Hio1 ltac:(lia) Hlen Edone) as [Hr' Epush].
      eapply conn_recv_if; [exact Edone|apply S1; [job_in|by rewrite Hbusy]..|]. intros r2 E2. rwp_step.
      change (recv_iface (o <| recv_busy_data := read_data rd |> <| recv_state := RECV_STATE_READY |>)) with (recv_iface o) in E2.
      rewrite Epush in E2, Hr'.
      eexists r2, _. split_and!; [done| |done|done|by unfold μ1, step; case_match]. rewrite E2.
      assert (recv_done_job ≠ err_job) as Hd by (apply recv_not_err; job_in).
      apply conn_parts_ok; [rewrite on_push; naive_solver|]. split_and!; [| |exact Hr'].
      * apply base_push; [done|done|]. destruct Hbase. by split.
      * apply send_push; [apply recv_not_send; job_in|].
        by eapply send_ok_ext; [..|exact Hs1].
Qed.

(** ** Events of the descriptor *)

Lemma report_bit w got n : 0 ≤ n → has (report_events w got) (2 ^ n) =
  (has w BREACTOR_READ && has got EPOLLIN && has BREACTOR_READ (2 ^ n)) ||
  (has w BREACTOR_WRITE && has got EPOLLOUT && has BREACTOR_WRITE (2 ^ n)) ||
  (has got EPOLLERR && has BREACTOR_ERROR (2 ^ n)) || (has got EPOLLHUP && has BREACTOR_HUP (2 ^ n)).
Proof.
  intros Hn. unfold report_events. cbv zeta.
  destruct (has w BREACTOR_READ && has got EPOLLIN), (has w BREACTOR_WRITE && has got EPOLLOUT), (has got EPOLLERR), (has got EPOLLHUP);
    rewrite ?has_added by done; rewrite ?has_bit, ?Z.bits_0 by done; cbn [andb orb];
    by rewrite ?orb_false_r.
Qed.
Lemma reported_flag w got f : io_flag f → has (report_events w got) f = true → has w f = true.
Proof.
  intros Hf. destruct (io_flag_bit f Hf) as (n & Hn & ->). rewrite report_bit by done.
  destruct (has w (2 ^ n)) eqn:E; [done|]. assert (n = 0 ∨ n = 1) as [-> | ->].
  { destruct Hf as [Hf|Hf]; [left|right]; eapply (Z.pow_inj_r 2); rewrite ?Hf; done. }
  - change (has w BREACTOR_READ = false) in E. rewrite E. by rewrite !andb_false_r.
  - change (has w BREACTOR_WRITE = false) in E. rewrite E. by rewrite !andb_false_r.
Qed.

Lemma side_armed e st i n op dn io : side_ok e st i n true op dn io → st = SEND_STATE_BUSY.
Proof. by inversion 1. Qed.
Lemma side_idle_off e st i n a op dn io : side_ok e st i n a op dn io → st ≠ SEND_STATE_BUSY → a = false.
Proof. by destruct 1. Qed.
Lemma side_shrink e st i n a a' op dn io : side_ok e st i n a op dn io → (a' = true → a = true) →
  side_ok true st i n a' op dn io.
Proof.
  intros H Ha. destruct a'; [rewrite Ha in H by done; by eapply side_ok_excused; [|exact H]|].
  destruct H; econstructor; try done. by rewrite orb_true_r.
Qed.
(** The job of the side itself takes care of it. *)
Lemma side_job e st i n a op dn io : side_ok true st i n a op dn io → st = SEND_STATE_BUSY → side_ok e st i n a op dn true.
Proof. destruct 1; intros; try done. apply side_busy; try done. by rewrite orb_true_r. Qed.

(** The connection after its events are cleared and, when it is hung up, it is
    removed. *)
Definition after_events o (evs : Z) : BConnection :=
  let o := o <| wait_events := Z.land (wait_events o) (Z.lnot evs) |> in
  if has evs BREACTOR_HUP then o <| is_hupd := true |> else o.
Lemma after_events_watched o evs f : is_hupd o = false → watched_for (after_events o evs) f = still_watched o evs f.
Proof.
  intros Hh. unfold after_events, still_watched, watched_for. destruct (has evs BREACTOR_HUP); cbn [is_hupd wait_events upd].
  - by rewrite andb_false_r.
  - by rewrite Hh, andb_true_r.
Qed.
Lemma still_watched_flag o evs f : is_hupd o = false → io_flag f →
  still_watched o evs f = watched_for o f && negb (has evs f) && negb (has evs BREACTOR_HUP).
Proof. intros Hh (n & Hn & ->)%io_flag_bit. unfold still_watched, watched_for. by rewrite has_cleared, Hh by done. Qed.

Lemma send_after v o μ evs (e : bool) : is_hupd o = false → send_ok false v o μ →
  (e = false → watched_for o BREACTOR_WRITE = true → still_watched o evs BREACTOR_WRITE = true) →
  send_ok e v (after_events o evs) μ.
Proof.
  intros Hh [S1 S2 S3 S4 S5 S6 S7] Hsame. pose proof (after_events_watched o evs BREACTOR_WRITE Hh) as Hw.
  pose proof (still_watched_flag o evs BREACTOR_WRITE Hh ltac:(by right)) as Hst.
  assert (∀ (A : Type) (g : BConnection → A), (∀ o, g (o <| is_hupd := true |>) = g o) →
    (∀ o w, g (o <| wait_events := w |>) = g o) → g (after_events o evs) = g o) as Hg.
  { intros A g G1 G2. unfold after_events. case_match; by rewrite ?G1, ?G2. }
  split; rewrite ?(Hg _ send_state), ?(Hg _ send_iface), ?(Hg _ send_busy_data_len), ?(Hg _ send_if_data),
    ?(Hg _ send_busy_data) by done; try done.
  rewrite Hw. destruct e.
  - eapply side_shrink; [exact S2|]. rewrite Hst. by intros [[? _]%andb_true_iff _]%andb_true_iff.
  - destruct (watched_for o BREACTOR_WRITE) eqn:Ew; [by rewrite Hsame|]. by rewrite Hst.
Qed.
Lemma recv_after v o μ evs (e : bool) : is_hupd o = false → recv_ok false v o μ →
  (e = false → watched_for o BREACTOR_READ = true → still_watched o evs BREACTOR_READ = true) →
  recv_ok e v (after_events o evs) μ.
Proof.
  intros Hh [S1 S2 S3] Hsame. pose proof (after_events_watched o evs BREACTOR_READ Hh) as Hw.
  pose proof (still_watched_flag o evs BREACTOR_READ Hh ltac:(by left)) as Hst.
  assert (∀ (A : Type) (g : BConnection → A), (∀ o, g (o <| is_hupd := true |>) = g o) →
    (∀ o w, g (o <| wait_events := w |>) = g o) → g (after_events o evs) = g o) as Hg.
  { intros A g G1 G2. unfold after_events. case_match; by rewrite ?G1, ?G2. }
  split; rewrite ?(Hg _ recv_state), ?(Hg _ recv_iface), ?(Hg _ recv_busy_data_avail), ?(Hg _ recv_busy_data) by done; try done.
  rewrite Hw. destruct e.
  - eapply side_shrink; [exact S2|]. rewrite Hst. by intros [[? _]%andb_true_iff _]%andb_true_iff.
  - destruct (watched_for o BREACTOR_READ) eqn:Ew; [by rewrite Hsame|]. by rewrite Hst.
Qed.

(** Setting the job of the receiving side. *)
Lemma recv_job_set e v o μ : recv_ok true v o μ → recv_state o = RECV_STATE_BUSY →
  recv_ok e (v <| v_stack := recv_job :: list_remove_job recv_job (v_stack v) |>) o μ.
Proof.
  intros [S1 S2 S3] Hb. destruct jobs_apart as (?&?&?&?&?&?&?&?&?&?&?&?&?&?&?&?&?&?&?&?&?). split; [done| |done].
  set (v' := v <| v_stack := _ |>).
  assert (∀ j, j ≠ recv_job → is_on v' j = is_on v j) as Hon.
  { intros j Hj. apply is_on_ext. unfold v'. rewrite on_push. naive_solver. }
  rewrite !Hon by congruence. assert (is_on v' recv_job = true) as -> by (apply is_on_true; unfold v'; rewrite on_push; by left).
  by eapply side_job.
Qed.
Lemma base_after v v' o evs : conn_base v o → is_hupd o = false →
  v' = v <| v_fds := <[conn_bfd := (conn_fd o, if has evs BREACTOR_HUP then None else Some (Z.land (wait_events o) (Z.lnot evs)))]> (v_fds v) |> →
  conn_base v' (after_events o evs).
Proof.
  intros [H1 H2 H3 H4 H5 H6 H7] Hh ->. pose proof (cleared_range (wait_events o) evs H2) as Hrange. unfold after_events.
  destruct (has evs BREACTOR_HUP); split; try done.
  - intros d w. cbn. rewrite lookup_insert_eq. congruence.
  - change (if is_hupd o then off (v <| v_fds := <[conn_bfd := (conn_fd o, Some (Z.land (wait_events o) (Z.lnot evs)))]> (v_fds v) |>) conn_bfd
      else <[conn_bfd := (conn_fd o, Some (Z.land (wait_events o) (Z.lnot evs)))]> (v_fds v) !! conn_bfd = Some (conn_fd o, Some (Z.land (wait_events o) (Z.lnot evs)))).
    rewrite Hh. apply lookup_insert_eq.
Qed.
Lemma has_failed evs : has evs (Z.lor BREACTOR_ERROR BREACTOR_HUP) = has evs BREACTOR_ERROR || has evs BREACTOR_HUP.
Proof.
  unfold has. rewrite Z.land_lor_distr_r. destruct (Z.eqb_spec (Z.land evs BREACTOR_ERROR) 0) as [->|E1].
  - done.
  - cbn. apply negb_true_iff, Z.eqb_neq. intros E. by apply Z.lor_eq_0_iff in E as [? _].
Qed.

Lemma connection_fd_handler_ok r o μ evs w rd got : v_stack (view r) = [] → conn_ok (view r) (Some o) μ → is_hupd o = false →
  evs = report_events (wait_events o) got →
  (ret w < 0 ∨ 0 < ret w ≤ job_operation_len (send_iface o)) →
  (read_ret rd < 0 ∨ 0 ≤ read_ret rd ≤ job_operation_len (recv_iface o) ∧ len (read_data rd) = read_ret rd) →
  (still_watched o evs BREACTOR_WRITE = true → ret w < 0) → (still_watched o evs BREACTOR_READ = true → read_ret rd < 0) →
  rwp others_ok (connection_fd_handler evs w rd) (st r o) μ (settled (conn_fd o) (close_fd o) μ).
Proof.
  intros Hst Hok Hh Hevs Hw1 Hr1 Hw2 Hr2.
  assert (err_job ∉ v_stack (view r)) as Hn by (rewrite Hst; apply not_elem_of_nil).
  cbn in Hok. rewrite (proj2 (is_on_false _ _) Hn) in Hok. destruct Hok as (Hb & Hs & Hr).
  pose proof Hb as [B1 B2 B3 B4 B5 B6 B7]. rewrite Hh in B1. unfold connection_fd_handler.
  rwp_step. apply conn_no_error; [done..|]. rwp_step. apply conn_get. rwp_step. apply rwp_assert; [by rewrite Hh|].
  rwp_step. apply conn_set. rwp_step. apply conn_get. rwp_step.
  eapply conn_events; [exact B1|by apply cleared_range|]. intros r1 V1. rwp_step.
  (* removed when it is hung up *)
  set (o1 := o <| wait_events := _ |>) in *.
  assert (∀ Q : unit → BSockets T → summary → Prop, (∀ r2, v_stack (view r2) = [] → conn_base (view r2) (after_events o evs) →
      (∀ e μ, send_ok e (view r) o μ → send_ok e (view r2) o μ) → (∀ e μ, recv_ok e (view r) o μ → recv_ok e (view r2) o μ) →
      Q tt (st r2 (after_events o evs)) μ) →
    rwp others_ok (when (has evs BREACTOR_HUP) (remove_bfd conn_bfd;; set_conn (λ o, o <| is_hupd := true |>))) (st r1 o1) μ Q) as Hremove.
  { intros Q HQ. apply rwp_when; intros Hhup.
    - rwp_step. eapply conn_remove; [rewrite V1; apply lookup_insert_eq|]. intros r2 V2.
      assert (after_events o evs = o1 <| is_hupd := true |>) as Ho by (unfold after_events; by rewrite Hhup).
      apply conn_set. rewrite <- Ho. rewrite V1 in V2. apply HQ; rewrite ?V2; [done| | |].
      + apply (base_after (view r) _ o evs Hb Hh). rewrite Hhup. unfold upd. cbn. by rewrite insert_insert_eq.
      + intros e μ'. by apply send_ok_ext.
      + intros e μ'. by apply recv_ok_ext.
    - assert (after_events o evs = o1) as Ho by (unfold after_events; by rewrite Hhup).
      rewrite <- Ho. apply HQ; rewrite ?V1; [done| | |].
      + apply (base_after (view r) _ o evs Hb Hh). by rewrite Hhup.
      + intros e μ'. by apply send_ok_ext.
      + intros e μ'. by apply recv_ok_ext. }
  apply Hremove. clear Hremove V1 r1. intros r2 Hst2 Hb2 Hes Her.
  assert (send_state (after_events o evs) = send_state o ∧ recv_state (after_events o evs) = recv_state o ∧
    send_iface (after_events o evs) = send_iface o ∧ recv_iface (after_events o evs) = recv_iface o ∧
    conn_fd (after_events o evs) = conn_fd o ∧ close_fd (after_events o evs) = close_fd o) as (A1 & A2 & A3 & A4 & A5 & A6)
    by (unfold after_events; by case_match).
  assert (is_hupd (after_events o evs) = has evs BREACTOR_HUP) as A7 by (unfold after_events; case_match; [done|exact Hh]).
  rwp_step. apply conn_get. rewrite A1, A2, has_failed, A7.
  set (o2 := after_events o evs) in *.
  assert (has evs BREACTOR_WRITE = true → send_state o = SEND_STATE_BUSY) as Hwb.
  { intros H. rewrite Hevs in H. apply reported_flag in H; [|by right]. destruct Hs as [_ S2 _ _ _ _ _].
    unfold watched_for in S2. rewrite Hh, H in S2. by apply side_armed in S2. }
  assert (has evs BREACTOR_READ = true → recv_state o = RECV_STATE_BUSY) as Hrb.
  { intros H. rewrite Hevs in H. apply reported_flag in H; [|by left]. destruct Hr as [_ S2 _].
    unfold watched_for in S2. rewrite Hh, H in S2. by apply side_armed in S2. }
  set (have_send := has evs BREACTOR_WRITE || _). set (have_recv := has evs BREACTOR_READ || _).
  assert (have_send = true → send_state o = SEND_STATE_BUSY) as Hsend.
  { unfold have_send. intros [H|[_ H]%andb_true_iff]%orb_true_iff; [auto|by apply Z.eqb_eq]. }
  assert (have_recv = true → recv_state o = RECV_STATE_BUSY) as Hrecv.
  { unfold have_recv. intros [H|[_ H]%andb_true_iff]%orb_true_iff; [auto|by apply Z.eqb_eq]. }
  assert (send_ok (negb (negb have_send)) (view r2) o2 μ) as Hs2.
  { apply send_after; [done|by apply Hes|]. rewrite negb_involutive. intros Hns Hwf.
    apply orb_false_iff in Hns as [N1 N2]. rewrite (still_watched_flag o evs BREACTOR_WRITE Hh) by by right.
    rewrite Hwf, N1. destruct Hs as [_ S2 _ _ _ _ _]. rewrite Hwf in S2. apply side_armed in S2.
    apply andb_false_iff in N2 as [N2|N2]; [|by rewrite S2 in N2]. by apply orb_false_iff in N2 as [_ ->]. }
  assert (recv_ok (negb (negb have_recv)) (view r2) o2 μ) as Hr2'.
  { apply recv_after; [done|by apply Her|]. rewrite negb_involutive. intros Hns Hwf.
    apply orb_false_iff in Hns as [N1 N2]. rewrite (still_watched_flag o evs BREACTOR_READ Hh) by by left.
    rewrite Hwf, N1. destruct Hr as [_ S2 _]. rewrite Hwf in S2. apply side_armed in S2.
    apply andb_false_iff in N2 as [N2|N2]; [|by rewrite S2 in N2]. by apply orb_false_iff in N2 as [_ ->]. }
  rewrite negb_involutive in Hs2, Hr2'.
  rwp_step. apply rwp_when_assert; [intros; by apply Z.eqb_eq, Hsend|].
  rwp_step. apply rwp_when_assert; [intros; by apply Z.eqb_eq, Hrecv|].
  assert (err_job ∉ v_stack (view r2)) as Hn2 by (rewrite Hst2; apply not_elem_of_nil).
  rewrite <- (after_events_watched o evs _ Hh) in Hw2. rewrite <- (after_events_watched o evs _ Hh) in Hr2. fold o2 in Hw2, Hr2. rewrite <- A3 in Hw1. rewrite <- A4 in Hr1.
  rewrite <- A5, <- A6.
  destruct have_send eqn:Es, have_recv eqn:Er; cbn [when].
  - rwp_step. apply conn_pending; [apply Hr2'; [left|by rewrite A2, Hrecv]|by apply conn_recv; left|]. intros r3 V3.
    assert (view r3 = view r2 <| v_stack := recv_job :: list_remove_job recv_job (v_stack (view r2)) |>) as E3 by exact V3.
    assert (recv_job ≠ err_job ∧ (recv_job ∉ send_jobs)) as [D1 D2].
    { split; [by apply recv_not_err; left|]. apply recv_not_send. job_in. }
    apply connection_send_ok; [rewrite E3, on_push; naive_solver| |by rewrite A1, Hsend|done|done].
    rewrite E3. split_and!; [by apply base_push|by apply send_push|]. by apply recv_job_set; [..|rewrite A2, Hrecv].
  - rwp_step. rwp_step. apply connection_send_ok; [done| |by rewrite A1, Hsend|done|done]. by split_and!.
  - apply connection_recv_ok; [done| |by rewrite A2, Hrecv|rewrite Hst2; apply not_elem_of_nil|done|done]. by split_and!.
  - apply rwp_when; intros Hup.
    + apply report_error_ok; [done|]. split_and!; [done| |].
      * by eapply send_ok_ext; [..|exact Hs2].
      * by eapply recv_ok_ext; [..|exact Hr2'].
    + exists r2, o2. split_and!; [done| |done..]. apply conn_parts_ok; [done|]. by split_and!.
Qed.
End ops.
End conn.
End BConnectionConn.
