(* ===== verification/BConnectionOps.v ===== *)
(** The jobs of a connection, and what its user asks of it. *)
From S2P Require Import Prelude Misc BAddr TreeInterface BPending Interfaces BReactor BReactorRun ReactorClient BConnection BConnectionRun BConnectionRules BConnectionFacts.

Module BConnectionOps.
Export BConnectionConn.
Import StreamIf.

(** * Jobs *)
Section jobs.
Context {T : Type} `{!OrderedTree T} {places : Places}.
Implicit Types (r : BReactor T) (s : BSockets T) (v : cview) (o : BConnection) (μ : summary).
Context (l : option BListener) (c : option BConnector).
Abbreviation st r o := (MkSockets r l c (Some o)).
Abbreviation settled := (settled l c).

(** The job [k] on top of the stack is taken off it. *)
Section popped.
Context {v : cview} {k : nat} {rest : list nat} (Hv : v_stack v = k :: rest) (Hnd : NoDup (v_stack v)).
Abbreviation v' := (v <| v_stack := rest |>).

Lemma popped_gone : k ∉ v_stack v'.
Proof using Hv Hnd. rewrite Hv in Hnd. by apply NoDup_cons in Hnd as [? _]. Qed.
Lemma popped_other j : j ≠ k → j ∈ v_stack v' ↔ j ∈ v_stack v.
Proof using Hv. intros Hj. rewrite Hv. change (j ∈ rest ↔ j ∈ k :: rest). rewrite elem_of_cons. tauto. Qed.
Lemma is_on_popped j : j ≠ k → is_on v' j = is_on v j.
Proof using Hv. intros Hj. by apply is_on_ext, popped_other. Qed.
Lemma is_on_top : is_on v k = true.
Proof using Hv. apply is_on_true. rewrite Hv. left. Qed.
Lemma is_on_gone : is_on v' k = false.
Proof using Hv Hnd. apply is_on_false, popped_gone. Qed.

Lemma base_popped o : conn_base v o → conn_base v' o.
Proof using Hv.
  intros [H1 H2 H3 H4 H5 H6 H7]. split; try done. intros j Hj (l1 & l2 & E & Hin). apply (H7 j Hj).
  exists (k :: l1), l2. split; [rewrite Hv; cbn in E |- *; by rewrite E|by right].
Qed.
Lemma send_popped e o μ : k ∉ send_jobs → send_ok e v o μ → send_ok e v' o μ.
Proof using Hv.
  intros Hk. apply send_ok_ext; [done|]. split_and!; [|done..]. intros j Hj. split; [done|]. apply popped_other. by intros ->.
Qed.
Lemma recv_popped e o μ : k ∉ recv_jobs → recv_ok e v o μ → recv_ok e v' o μ.
Proof using Hv.
  intros Hk. apply recv_ok_ext; [done|]. split_and!; [|done..]. intros j Hj. split; [done|]. apply popped_other. by intros ->.
Qed.
(** An operation does not run over an error. *)
Lemma top_no_error o : conn_base v o → k ∈ [send_op_job; recv_op_job; recv_job] → err_job ∉ v_stack v.
Proof using Hv.
  clear Hnd. intros [_ _ _ _ _ _ H] Hk Hin. rewrite Hv in Hin. apply elem_of_cons in Hin as [Hin|Hin].
  - destruct jobs_apart as (?&?&?&?&?&?&?&?&?&?&?&?&?&?&?&?&?&?&?&?&?). subst k. set_solver.
  - apply list_elem_of_split in Hin as (l1 & l2 & ->). apply (H k Hk). exists (k :: l1), l2. split; [done|left].
Qed.
Lemma still_no_error : err_job ∉ v_stack v → err_job ∉ v_stack v'.
Proof using Hv. rewrite Hv. intros Hn Hin. apply Hn. by right. Qed.
End popped.

Lemma side_job_inv e z i n a op dn : side_ok e z i n a op dn true → z = RECV_STATE_BUSY ∧ side_ok true z i n a op dn false.
Proof. inversion 1; subst. split; [done|]. apply side_busy; try done. by rewrite orb_true_r. Qed.
Lemma side_op_inv e z i n a dn io : side_ok e z i n a true dn io →
  z = SEND_STATE_READY ∧ state i = SPI_STATE_OPERATION_PENDING ∧ job_operation i = true ∧ job_done i = false ∧
  0 < job_operation_len i ∧ a = false ∧ dn = false ∧ io = false.
Proof. inversion 1; subst. by split_and!. Qed.
Lemma side_done_inv e z i n a op io : side_ok e z i n a op true io →
  z = SEND_STATE_READY ∧ state i = SPI_STATE_DONE_PENDING ∧ job_operation i = false ∧ job_done i = true ∧
  a = false ∧ op = false ∧ io = false.
Proof. inversion 1; subst. by split_and!. Qed.

Lemma conn_ok_parts v o μ : err_job ∉ v_stack v → conn_ok v (Some o) μ → conn_parts false false v o μ.
Proof. intros Hn H. cbn in H. by rewrite (proj2 (is_on_false _ _) Hn) in H. Qed.

Lemma recv_job_ok v rest r o μ rd : v_stack v = recv_job :: rest → NoDup (v_stack v) → conn_ok v (Some o) μ →
  view r = v <| v_stack := rest |> →
  (read_ret rd < 0 ∨ 0 ≤ read_ret rd ≤ job_operation_len (recv_iface o) ∧ len (read_data rd) = read_ret rd) →
  (watched_for o BREACTOR_READ = true → read_ret rd < 0) →
  rwp others_ok (connection_recv_job_handler rd) (st r o) μ (settled (conn_fd o) (close_fd o) μ).
Proof.
  intros Hv Hnd Hok Hr Hret Hfail. pose proof Hok as (Hb & _).
  assert (err_job ∉ v_stack v) as Hn by (apply (top_no_error Hv o Hb); job_in).
  destruct (conn_ok_parts _ _ _ Hn Hok) as (_ & Hs & [R1 R2 R3]).
  rewrite (is_on_top Hv) in R2. destruct (side_job_inv _ _ _ _ _ _ _ R2) as [Hbusy R2'].
  assert (err_job ∉ v_stack (view r)) as Hn' by (rewrite Hr; by apply (still_no_error Hv)).
  destruct jobs_apart as (?&?&?&?&?&?&?&?&?&?&?&?&?&?&?&?&?&?&?&?&?).
  unfold connection_recv_job_handler. rwp_step. apply conn_no_error; [rewrite Hr; apply Hb|done|].
  rwp_step. apply conn_get. rwp_step. apply rwp_assert; [by apply Z.eqb_eq|].
  apply connection_recv_ok; [done| |done|rewrite Hr; apply (popped_gone Hv Hnd)|done|done]. rewrite Hr.
  split_and!; [by apply (base_popped Hv)| |].
  - apply (send_popped Hv); [|done]. apply recv_not_send. job_in.
  - split; [done| |done]. rewrite !(is_on_popped Hv) by congruence. by rewrite (is_on_gone Hv Hnd).
Qed.

(** The two ends of an interface's work. *)
Lemma interface_operation i : state i = SPI_STATE_OPERATION_PENDING → job_done i = false → job_operation i = true →
  ∃ i', _StreamInterface_job_operation i = Some (tt, i', [CallOperation (job_operation_len i)]) ∧
    state i' = SPI_STATE_BUSY ∧ job_operation i' = false ∧ job_done i' = false ∧ job_operation_len i' = job_operation_len i ∧
    handler_done i' = handler_done i ∧ pushed i i' = λ _ _ st, st.
Proof.
  intros Hs Hd Ho. exists (i <| job_operation := false |> <| state := SPI_STATE_BUSY |>). split_and!; try done.
  - unfold _StreamInterface_job_operation, mbind, prog_bind, get_st, ASSERT, modify, emit. cbn. by rewrite Hs.
  - unfold pushed. cbn. by rewrite Ho, Hd.
Qed.
Lemma interface_finished i : state i = SPI_STATE_DONE_PENDING → job_done i = true → job_operation i = false →
  ∃ i', _StreamInterface_job_done i = Some (tt, i', [CallDone (job_done_len i)]) ∧
    state i' = SPI_STATE_NONE ∧ job_operation i' = false ∧ job_done i' = false ∧ pushed i i' = λ _ _ st, st.
Proof.
  intros Hs Hd Ho. exists (i <| job_done := false |> <| state := SPI_STATE_NONE |>). split_and!; try done.
  - unfold _StreamInterface_job_done, mbind, prog_bind, get_st, ASSERT, modify, emit. cbn. by rewrite Hs.
  - unfold pushed. cbn. by rewrite Ho, Hd.
Qed.

Lemma send_operation_ok v rest r o μ w : v_stack v = send_op_job :: rest → NoDup (v_stack v) → conn_ok v (Some o) μ →
  view r = v <| v_stack := rest |> → (ret w < 0 ∨ 0 < ret w ≤ job_operation_len (send_iface o)) →
  rwp others_ok (send_operation w) (st r o) μ (settled (conn_fd o) (close_fd o) μ).
Proof.
  intros Hv Hnd Hok Hr Hret. pose proof Hok as (Hb & _).
  assert (err_job ∉ v_stack v) as Hn by (apply (top_no_error Hv o Hb); left).
  destruct (conn_ok_parts _ _ _ Hn Hok) as (_ & [S1 S2 S3 S4 S5 S6 S7] & Hrv).
  rewrite (is_on_top Hv) in S2. destruct (side_op_inv _ _ _ _ _ _ _ S2) as (Est & Es & Eo & Ed & Hlen & Hw & Hdn & _).
  destruct (interface_operation _ Es Ed Eo) as (i' & Erun & I1 & I2 & I3 & I4 & I5 & I6).
  destruct (S5 ltac:(by rewrite Est) ltac:(by rewrite Es)) as [Hdata Hoff]. specialize (S7 ltac:(by rewrite Est)).
  destruct jobs_apart as (?&?&?&?&?&?&?&?&?&?&?&?&?&?&?&?&?&?&?&?&?).
  unfold send_operation. rwp_step. eapply conn_send_if; [exact Erun|rewrite Hr; apply S1; [job_in|by rewrite Est]..|].
  intros r1 E1. rewrite I6 in E1. assert (view r1 = v <| v_stack := rest |>) as V1 by (rewrite E1, Hr; done). clear E1 Hr r.
  assert (err_job ∉ v_stack (view r1)) as Hn1 by (rewrite V1; by apply (still_no_error Hv)).
  rwp_step. apply conn_get. unfold connection_send_if_handler_send.
  rwp_step. apply conn_no_error; [rewrite V1; apply Hb|done|]. rwp_step. apply conn_get. rwp_step.
  apply rwp_assert; [by apply Z.eqb_eq|]. rwp_step. apply rwp_assert; [by apply Z.ltb_lt|].
  rwp_step. apply conn_set. rwp_step. apply conn_set.
  set (o' := upd send_state SEND_STATE_BUSY _).
  assert (conn_fd o = conn_fd o' ∧ close_fd o = close_fd o') as [-> ->] by done.
  apply connection_send_ok; [done| |done| |].
  - rewrite V1. split_and!.
    + destruct (base_popped Hv o Hb). by split.
    + split.
      * intros j Hj. change (j ∈ v_jobs v ↔ SEND_STATE_BUSY ≠ SEND_STATE_NOT_INITED). rewrite (S1 j Hj), Est. done.
      * change (watched_for o' BREACTOR_WRITE) with (watched_for o BREACTOR_WRITE). rewrite Hw, (is_on_gone Hv Hnd).
        rewrite (is_on_popped Hv) by congruence. rewrite Hdn. change (send_busy_data_len o') with (job_operation_len (send_iface o)).
        rewrite <- I4. apply side_busy; try done. change (0 < job_operation_len i'). by rewrite I4.
      * intros Hin. apply S3. by apply (popped_other Hv); [congruence|].
      * done.
      * intros _ _. change (len (send_if_data o) = job_operation_len i' ∧ sm_offered μ = send_if_data o). by rewrite I4.
      * done.
      * intros _. change (sm_written μ = sm_sent μ ++ in_flight i' (send_if_data o)). unfold in_flight in *.
        rewrite I1. by rewrite Es in S7.
    + apply (recv_popped Hv); [apply send_not_recv; job_in|].
      eapply recv_ok_ext; [..|exact Hrv]; [done|]. by split_and!.
  - change (job_operation_len (send_iface o')) with (job_operation_len i'). by rewrite I4.
  - change (watched_for o' BREACTOR_WRITE) with (watched_for o BREACTOR_WRITE). by rewrite Hw.
Qed.

Lemma recv_operation_ok v rest r o μ rd : v_stack v = recv_op_job :: rest → NoDup (v_stack v) → conn_ok v (Some o) μ →
  view r = v <| v_stack := rest |> →
  (read_ret rd < 0 ∨ 0 ≤ read_ret rd ≤ job_operation_len (recv_iface o) ∧ len (read_data rd) = read_ret rd) →
  rwp others_ok (recv_operation rd) (st r o) μ (settled (conn_fd o) (close_fd o) μ).
Proof.
  intros Hv Hnd Hok Hr Hret. pose proof Hok as (Hb & _).
  assert (err_job ∉ v_stack v) as Hn by (apply (top_no_error Hv o Hb); right; left).
  destruct (conn_ok_parts _ _ _ Hn Hok) as (_ & Hs & [S1 S2 S3]).
  rewrite (is_on_top Hv) in S2. destruct (side_op_inv _ _ _ _ _ _ _ S2) as (Est & Es & Eo & Ed & Hlen & Hw & Hdn & Hio).
  destruct (interface_operation _ Es Ed Eo) as (i' & Erun & I1 & I2 & I3 & I4 & I5 & I6).
  specialize (S3 ltac:(by rewrite Est)).
  destruct jobs_apart as (?&?&?&?&?&?&?&?&?&?&?&?&?&?&?&?&?&?&?&?&?).
  unfold recv_operation. rwp_step. eapply conn_recv_if; [exact Erun|rewrite Hr; apply S1; [job_in|by rewrite Est]..|].
  intros r1 E1. rewrite I6 in E1. assert (view r1 = v <| v_stack := rest |>) as V1 by (rewrite E1, Hr; done). clear E1 Hr r.
  assert (err_job ∉ v_stack (view r1)) as Hn1 by (rewrite V1; by apply (still_no_error Hv)).
  unfold connection_recv_if_handler_recv.
  rwp_step. apply conn_no_error; [rewrite V1; apply Hb|done|]. rwp_step. apply conn_get. rwp_step.
  apply rwp_assert; [by apply Z.eqb_eq|]. rwp_step. apply rwp_assert; [by apply Z.ltb_lt|].
  rwp_step. apply conn_set. rwp_step. apply conn_set.
  set (o' := upd recv_state RECV_STATE_BUSY _).
  assert (conn_fd o = conn_fd o' ∧ close_fd o = close_fd o') as [-> ->] by done.
  assert (recv_job ∉ v_stack v) as Hrj by by apply is_on_false.
  apply connection_recv_ok; [done| |done| | |].
  - rewrite V1. split_and!.
    + destruct (base_popped Hv o Hb). by split.
    + apply (send_popped Hv); [apply recv_not_send; job_in|].
      eapply send_ok_ext; [..|exact Hs]; [done|]. by split_and!.
    + split.
      * intros j Hj. change (j ∈ v_jobs v ↔ RECV_STATE_BUSY ≠ RECV_STATE_NOT_INITED). rewrite (S1 j Hj), Est. done.
      * change (watched_for o' BREACTOR_READ) with (watched_for o BREACTOR_READ). rewrite Hw, (is_on_gone Hv Hnd).
        rewrite !(is_on_popped Hv) by congruence. rewrite Hdn, Hio. change (recv_busy_data_avail o') with (job_operation_len (recv_iface o)).
        rewrite <- I4. apply side_busy; try done. change (0 < job_operation_len i'). by rewrite I4.
      * intros _. change (sm_read μ = sm_delivered μ ++ in_flight i' (recv_busy_data o)). unfold in_flight in *.
        rewrite I1. by rewrite Es in S3.
  - rewrite V1. intros Hin. apply Hrj. by apply (popped_other Hv); [congruence|].
  - change (job_operation_len (recv_iface o')) with (job_operation_len i'). by rewrite I4.
  - change (watched_for o' BREACTOR_READ) with (watched_for o BREACTOR_READ). by rewrite Hw.
Qed.

(** The user is told: this may happen while an error is being reported. *)
Lemma send_reported_ok v rest r o μ : v_stack v = send_done_job :: rest → NoDup (v_stack v) → conn_ok v (Some o) μ →
  view r = v <| v_stack := rest |> →
  rwp others_ok send_done (st r o) μ (settled (conn_fd o) (close_fd o) μ).
Proof.
  intros Hv Hnd (Hb & [S1 S2 S3 S4 S5 S6 S7] & Hrv) Hr.
  rewrite (is_on_top Hv) in S2. destruct (side_done_inv _ _ _ _ _ _ _ S2) as (Est & Es & Eo & Ed & Hw & Hop & _).
  destruct (interface_finished _ Es Ed Eo) as (i' & Erun & I1 & I2 & I3 & I4).
  destruct (S5 ltac:(by rewrite Est) ltac:(by rewrite Es)) as [Hdata Hoff]. specialize (S7 ltac:(by rewrite Est)).
  destruct jobs_apart as (?&?&?&?&?&?&?&?&?&?&?&?&?&?&?&?&?&?&?&?&?).
  unfold send_done. rwp_step. eapply conn_send_if; [exact Erun|rewrite Hr; apply S1; [job_in|by rewrite Est]..|].
  intros r1 E1. rewrite I4 in E1. assert (view r1 = v <| v_stack := rest |>) as V1 by (rewrite E1, Hr; done). clear E1 Hr r.
  cbv iota. rwp_step. eexists r1, _. split_and!; [done| |done..]. rewrite V1. split_and!.
  - destruct (base_popped Hv o Hb). by split.
  - rewrite (is_on_popped Hv) by congruence. split.
    + exact S1.
    + rewrite (is_on_gone Hv Hnd), !(is_on_popped Hv) by congruence. rewrite Hop.
      change (side_ok (is_on v err_job) (send_state o) i' (send_busy_data_len o) (watched_for o BREACTOR_WRITE) false false false).
      rewrite Hw, Est. by apply side_idle.
    + intros Hin. apply S3. by apply (popped_other Hv); [congruence|].
    + exact S4.
    + intros _ Hne. by destruct Hne.
    + exact S6.
    + intros _. change (sm_written μ = (sm_sent μ ++ ztake (job_done_len (send_iface o)) (sm_offered μ)) ++ in_flight i' (send_if_data o)).
      unfold in_flight in *. rewrite I1. cbn. rewrite app_nil_r, S7, Hoff, Es. done.
  - rewrite (is_on_popped Hv) by congruence. apply (recv_popped Hv); [apply send_not_recv; job_in|].
    eapply recv_ok_ext; [..|exact Hrv]; [done|]. by split_and!.
Qed.
Lemma recv_reported_ok v rest r o μ : v_stack v = recv_done_job :: rest → NoDup (v_stack v) → conn_ok v (Some o) μ →
  view r = v <| v_stack := rest |> →
  rwp others_ok recv_done (st r o) μ (settled (conn_fd o) (close_fd o) μ).
Proof.
  intros Hv Hnd (Hb & Hs & [S1 S2 S3]) Hr.
  rewrite (is_on_top Hv) in S2. destruct (side_done_inv _ _ _ _ _ _ _ S2) as (Est & Es & Eo & Ed & Hw & Hop & Hio).
  destruct (interface_finished _ Es Ed Eo) as (i' & Erun & I1 & I2 & I3 & I4).
  specialize (S3 ltac:(by rewrite Est)).
  destruct jobs_apart as (?&?&?&?&?&?&?&?&?&?&?&?&?&?&?&?&?&?&?&?&?).
  unfold recv_done. rwp_step. eapply conn_recv_if; [exact Erun|rewrite Hr; apply S1; [job_in|by rewrite Est]..|].
  intros r1 E1. rewrite I4 in E1. assert (view r1 = v <| v_stack := rest |>) as V1 by (rewrite E1, Hr; done). clear E1 Hr r.
  rwp_step. apply conn_get. cbv iota. rwp_step. eexists r1, _. split_and!; [done| |done..]. rewrite V1. split_and!.
  - destruct (base_popped Hv o Hb). by split.
  - rewrite (is_on_popped Hv) by congruence.
    apply (send_popped Hv); [apply recv_not_send; job_in|].
    eapply send_ok_ext; [..|exact Hs]; [done|]. by split_and!.
  - rewrite (is_on_popped Hv) by congruence. split.
    + exact S1.
    + rewrite (is_on_gone Hv Hnd), !(is_on_popped Hv) by congruence. rewrite Hop, Hio.
      change (side_ok (is_on v err_job) (recv_state o) i' (recv_busy_data_avail o) (watched_for o BREACTOR_READ) false false false).
      rewrite Hw, Est. by apply side_idle.
    + intros _. change (sm_read μ = (sm_delivered μ ++ ztake (job_done_len (recv_iface o)) (recv_busy_data o)) ++ in_flight i' (recv_busy_data o)).
      unfold in_flight in *. rewrite I1. cbn. rewrite app_nil_r, S3, Es. done.
Qed.

(** * Requests of the user *)

(** Initialising and freeing the jobs of one side. *)
Definition after_job (jo : job_op) v : cview :=
  v <| v_stack := snd (spec_op jo (v_stack v)) |> <| v_jobs := jobs_done jo (v_jobs v) |>.
Definition init_or_free (jo : job_op) (j : nat) : Prop := jo = OInit j ∨ jo = OFree j.

Lemma on_after_job jo j v k : init_or_free jo j → k ≠ j →
  (k ∈ v_jobs (after_job jo v) ↔ k ∈ v_jobs v) ∧ (k ∈ v_stack (after_job jo v) ↔ k ∈ v_stack v).
Proof.
  intros [->| ->] Hk.
  - split; [|done]. change (k ∈ {[j]} ∪ v_jobs v ↔ k ∈ v_jobs v). set_solver.
  - split; [change (k ∈ v_jobs v ∖ {[j]} ↔ k ∈ v_jobs v); set_solver|].
    change (k ∈ list_remove_job j (v_stack v) ↔ k ∈ v_stack v). rewrite elem_of_remove. tauto.
Qed.
Lemma over_removed j x l1 l2 : list_remove_job j x = l1 ++ err_job :: l2 →
  ∃ l1' l2', x = l1' ++ err_job :: l2' ∧ ∀ k, k ∈ l1 → k ∈ l1'.
Proof.
  revert l1. induction x as [|y x IH]; intros l1 E; [by destruct l1|]. unfold list_remove_job in *.
  rewrite filter_cons in E. case_decide as Hy.
  - destruct l1 as [|z l1]; injection E as -> E.
    + exists [], x. split; [done|]. by intros k ?%elem_of_nil.
    + destruct (IH l1 E) as (l1' & l2' & -> & Hk). exists (z :: l1'), l2'. split; [done|].
      intros k [->|?]%elem_of_cons; [left|right; auto].
  - destruct (IH l1 E) as (l1' & l2' & -> & Hk). exists (y :: l1'), l2'. split; [done|]. intros k ?. right. auto.
Qed.
Lemma base_after_job jo j v o : init_or_free jo j → j ≠ err_job → conn_base v o → conn_base (after_job jo v) o.
Proof.
  intros Hjo Hj [H1 H2 H3 H4 H5 H6 H7]. split; try done.
  - by apply (on_after_job jo j v err_job).
  - intros k Hk (l1 & l2 & E & Hin). apply (H7 k Hk). destruct Hjo as [->| ->]; [by exists l1, l2|].
    destruct (over_removed j (v_stack v) l1 l2 E) as (l1' & l2' & ? & ?). exists l1', l2'. auto.
Qed.
Lemma send_after_job jo j v o μ e : init_or_free jo j → j ∉ send_jobs → send_ok e v o μ → send_ok e (after_job jo v) o μ.
Proof.
  intros Hjo Hj. apply send_ok_ext; [done|]. split_and!; [|done..]. intros k Hk. apply (on_after_job jo j v k Hjo). by intros ->.
Qed.
Lemma recv_after_job jo j v o μ e : init_or_free jo j → j ∉ recv_jobs → recv_ok e v o μ → recv_ok e (after_job jo v) o μ.
Proof.
  intros Hjo Hj. apply recv_ok_ext; [done|]. split_and!; [|done..]. intros k Hk. apply (on_after_job jo j v k Hjo). by intros ->.
Qed.
Lemma err_after_job jo j v : init_or_free jo j → j ≠ err_job → is_on (after_job jo v) err_job = is_on v err_job.
Proof. intros Hjo Hj. apply is_on_ext. by apply (on_after_job jo j v err_job Hjo). Qed.

(** A group of jobs is initialised, or freed. *)
Definition after_jobs (f : nat → job_op) (js : list nat) v : cview := foldl (λ v j, after_job (f j) v) v js.

Section group.
Context {f : nat → job_op} (Hf : f = OInit ∨ f = OFree).
Lemma group_job j : init_or_free (f j) j.
Proof using Hf. destruct Hf as [-> | ->]; [by left|by right]. Qed.
Lemma base_after_jobs js v o : err_job ∉ js → conn_base v o → conn_base (after_jobs f js v) o.
Proof using Hf.
  revert v. induction js as [|j js IH]; intros v Hn H; [done|]. apply not_elem_of_cons in Hn as [Hj Hn].
  apply IH; [done|]. eapply base_after_job; [apply group_job|congruence|done].
Qed.
Lemma send_after_jobs js v o μ e : (∀ j, j ∈ js → j ∉ send_jobs) → send_ok e v o μ → send_ok e (after_jobs f js v) o μ.
Proof using Hf.
  revert v. induction js as [|j js IH]; intros v Hn H; [done|]. apply IH; [intros k ?; apply Hn; by right|].
  eapply send_after_job; [apply group_job|apply Hn; left|done].
Qed.
Lemma recv_after_jobs js v o μ e : (∀ j, j ∈ js → j ∉ recv_jobs) → recv_ok e v o μ → recv_ok e (after_jobs f js v) o μ.
Proof using Hf.
  revert v. induction js as [|j js IH]; intros v Hn H; [done|]. apply IH; [intros k ?; apply Hn; by right|].
  eapply recv_after_job; [apply group_job|apply Hn; left|done].
Qed.
Lemma err_after_jobs js v : err_job ∉ js → is_on (after_jobs f js v) err_job = is_on v err_job.
Proof using Hf.
  revert v. induction js as [|j js IH]; intros v Hn; [done|]. apply not_elem_of_cons in Hn as [Hj Hn]. cbn [after_jobs foldl].
  change (is_on (after_jobs f js (after_job (f j) v)) err_job = is_on v err_job). rewrite IH by done.
  eapply err_after_job; [apply group_job|congruence].
Qed.
End group.
Lemma init_after_jobs js v j : (j ∈ v_jobs (after_jobs OInit js v) ↔ j ∈ js ∨ j ∈ v_jobs v) ∧
  (j ∈ v_stack (after_jobs OInit js v) ↔ j ∈ v_stack v).
Proof.
  revert v. induction js as [|k js IH]; intros v; [cbn; by rewrite elem_of_nil; tauto|].
  change (after_jobs OInit (k :: js) v) with (after_jobs OInit js (after_job (OInit k) v)).
  destruct (IH (after_job (OInit k) v)) as [-> ->]. split; [|done].
  change (j ∈ js ∨ j ∈ {[k]} ∪ v_jobs v ↔ j ∈ k :: js ∨ j ∈ v_jobs v). rewrite elem_of_union, elem_of_singleton, elem_of_cons. tauto.
Qed.
Lemma free_after_jobs js v j : (j ∈ v_jobs (after_jobs OFree js v) ↔ (j ∉ js) ∧ j ∈ v_jobs v) ∧
  (j ∈ v_stack (after_jobs OFree js v) ↔ (j ∉ js) ∧ j ∈ v_stack v).
Proof.
  revert v. induction js as [|k js IH]; intros v; [cbn; split; (split; [intros; split; [apply not_elem_of_nil|done]|tauto])|].
  change (after_jobs OFree (k :: js) v) with (after_jobs OFree js (after_job (OFree k) v)).
  destruct (IH (after_job (OFree k) v)) as [-> ->].
  change (((j ∉ js) ∧ j ∈ v_jobs v ∖ {[k]} ↔ (j ∉ k :: js) ∧ j ∈ v_jobs v) ∧
    ((j ∉ js) ∧ j ∈ list_remove_job k (v_stack v) ↔ (j ∉ k :: js) ∧ j ∈ v_stack v)).
  rewrite elem_of_difference, elem_of_singleton, elem_of_remove, not_elem_of_cons. tauto.
Qed.

Lemma init_three {A} j1 j2 j3 (m : prog (BSockets T) BConnectionCode.call A) r o μ Q : NoDup [j1; j2; j3] →
  (∀ j, j ∈ [j1; j2; j3] → j ∈ conn_jobs ∧ j ∉ v_jobs (view r)) →
  (∀ r', view r' = after_jobs OInit [j1; j2; j3] (view r) → rwp others_ok m (st r' o) μ Q) →
  rwp others_ok (pending (OInit j1);; pending (OInit j2);; pending (OInit j3);; m) (st r o) μ Q.
Proof.
  intros Hnd Hj HQ. apply NoDup_cons in Hnd as [N1 Hnd]. apply NoDup_cons in Hnd as [N2 _].
  apply not_elem_of_cons in N1 as [N12 N13%not_elem_of_cons]. apply not_elem_of_cons in N2 as [N23 _].
  rwp_step. apply conn_pending; [apply Hj; job_in|apply Hj; job_in|]. intros r1 V1.
  rwp_step. apply conn_pending; [|apply Hj; job_in|].
  { rewrite V1. change (j2 ∉ {[j1]} ∪ v_jobs (view r)). pose proof (proj2 (Hj j2 ltac:(job_in))). clear -H N12. set_solver. }
  intros r2 V2. rwp_step. apply conn_pending; [|apply Hj; job_in|].
  { rewrite V2, V1. change (j3 ∉ {[j2]} ∪ ({[j1]} ∪ v_jobs (view r))). pose proof (proj2 (Hj j3 ltac:(job_in))).
    destruct N13. clear -H N23 H0. set_solver. }
  intros r3 V3. apply HQ. by rewrite V3, V2, V1.
Qed.
Lemma free_three {A} j1 j2 j3 (m : prog (BSockets T) BConnectionCode.call A) r o μ Q : NoDup [j1; j2; j3] →
  (∀ j, j ∈ [j1; j2; j3] → j ∈ conn_jobs ∧ j ∈ v_jobs (view r)) →
  (∀ r', view r' = after_jobs OFree [j1; j2; j3] (view r) → rwp others_ok m (st r' o) μ Q) →
  rwp others_ok (pending (OFree j1);; pending (OFree j2);; pending (OFree j3);; m) (st r o) μ Q.
Proof.
  intros Hnd Hj HQ. apply NoDup_cons in Hnd as [N1 Hnd]. apply NoDup_cons in Hnd as [N2 _].
  apply not_elem_of_cons in N1 as [N12 N13%not_elem_of_cons]. apply not_elem_of_cons in N2 as [N23 _].
  rwp_step. apply conn_pending; [apply Hj; job_in|apply Hj; job_in|]. intros r1 V1.
  rwp_step. apply conn_pending; [|apply Hj; job_in|].
  { rewrite V1. change (j2 ∈ v_jobs (view r) ∖ {[j1]}). pose proof (proj2 (Hj j2 ltac:(job_in))). clear -H N12. set_solver. }
  intros r2 V2. rwp_step. apply conn_pending; [|apply Hj; job_in|].
  { rewrite V2, V1. change (j3 ∈ (v_jobs (view r) ∖ {[j1]}) ∖ {[j2]}). pose proof (proj2 (Hj j3 ltac:(job_in))).
    destruct N13. clear -H N23 H0. set_solver. }
  intros r3 V3. apply HQ. by rewrite V3, V2, V1.
Qed.

(** ** The sending side *)

Lemma side_none_inv e i n a op dn io : side_ok e SEND_STATE_NOT_INITED i n a op dn io →
  a = false ∧ op = false ∧ dn = false ∧ io = false.
Proof. by inversion 1. Qed.

Lemma send_fresh e v o μ : send_state o = SEND_STATE_READY → send_iface o = StreamInterface_Init →
  (∀ j, j ∈ send_jobs → j ∈ v_jobs v ∧ j ∉ v_stack v) → watched_for o BREACTOR_WRITE = false →
  sm_written μ = [] → sm_sent μ = [] → send_ok e v o μ.
Proof.
  intros Es Ei Hj Hw M1 M2. assert (∀ j, j ∈ send_jobs → is_on v j = false) as Hon by (intros j ?; by apply is_on_false, Hj).
  split; rewrite ?Es, ?Ei; try done.
  - intros j ?. by split; [|intros _; apply Hj].
  - rewrite Hw, !Hon by job_in. by apply side_idle.
  - apply Hj. left.
  - by rewrite M1, M2.
Qed.
Lemma send_gone e v o μ : send_state o = SEND_STATE_NOT_INITED →
  (∀ j, j ∈ send_jobs → (j ∉ v_jobs v) ∧ j ∉ v_stack v) → watched_for o BREACTOR_WRITE = false → send_ok e v o μ.
Proof.
  intros Es Hj Hw. assert (∀ j, j ∈ send_jobs → is_on v j = false) as Hon by (intros j ?; by apply is_on_false, Hj).
  split; rewrite ?Es; try done.
  - intros j Hjs. by split; [intros ?; destruct (Hj j Hjs)|].
  - rewrite Hw, !Hon by job_in. by apply side_none.
  - apply Hj. left.
Qed.
Lemma recv_fresh e v o μ : recv_state o = RECV_STATE_READY → recv_iface o = StreamInterface_Init →
  (∀ j, j ∈ recv_jobs → j ∈ v_jobs v ∧ j ∉ v_stack v) → watched_for o BREACTOR_READ = false →
  sm_read μ = [] → sm_delivered μ = [] → recv_ok e v o μ.
Proof.
  intros Es Ei Hj Hw M1 M2. assert (∀ j, j ∈ recv_jobs → is_on v j = false) as Hon by (intros j ?; by apply is_on_false, Hj).
  split; rewrite ?Es, ?Ei; try done.
  - intros j ?. by split; [|intros _; apply Hj].
  - rewrite Hw, !Hon by job_in. by apply side_idle.
  - by rewrite M1, M2.
Qed.
Lemma recv_gone e v o μ : recv_state o = RECV_STATE_NOT_INITED →
  (∀ j, j ∈ recv_jobs → (j ∉ v_jobs v) ∧ j ∉ v_stack v) → watched_for o BREACTOR_READ = false → recv_ok e v o μ.
Proof.
  intros Es Hj Hw. assert (∀ j, j ∈ recv_jobs → is_on v j = false) as Hon by (intros j ?; by apply is_on_false, Hj).
  split; rewrite ?Es; try done.
  - intros j Hjs. by split; [intros ?; destruct (Hj j Hjs)|].
  - rewrite Hw, !Hon by job_in. by apply side_none.
Qed.

Lemma send_init_ok r o μ : conn_ok (view r) (Some o) μ → send_state o = SEND_STATE_NOT_INITED → err_job ∉ v_stack (view r) →
  rwp others_ok (run_act SendInit) (st r o) μ (settled (conn_fd o) (close_fd o) μ).
Proof.
  intros Hok Es Hn. destruct (conn_ok_parts _ _ _ Hn Hok) as (Hb & [S1 S2 S3 _ _ _ _] & Hrv). rewrite Es in S1, S2.
  destruct (side_none_inv _ _ _ _ _ _ _ S2) as (Hw & Hop & Hdn & _).
  destruct jobs_apart as (?&?&?&?&?&?&?&?&?&?&?&?&?&?&?&?&?&?&?&?&?). cbn [run_act].
  rwp_step. unfold BConnection_SendAsync_Init. rwp_step. apply conn_no_error; [apply Hb|done|]. rwp_step. apply conn_get.
  rwp_step. apply rwp_assert; [by rewrite Es|]. rwp_step. apply conn_set.
  apply init_three.
  - rewrite !NoDup_cons, !not_elem_of_cons. split_and!; try apply not_elem_of_nil; try congruence. apply NoDup_nil_2.
  - intros j Hj. assert (j ∈ send_jobs) by (unfold send_jobs; clear -Hj; set_solver).
    split; [by apply conn_send|]. intros Hin. by apply S1 in Hin.
  - intros r' V. apply conn_set. rwp_step. eexists r', _. split_and!; [done| |done..].
    assert (∀ j, j ∈ [send_op_job; send_done_job; send_job] ↔ j ∈ send_jobs) as Hjs by (intros; unfold send_jobs; clear; set_solver).
    assert (err_job ∉ [send_op_job; send_done_job; send_job]) as He by (rewrite !not_elem_of_cons; split_and!; [..|apply not_elem_of_nil]; congruence).
    apply conn_parts_ok; [by rewrite V, (proj2 (init_after_jobs _ _ _))|].
    rewrite V. split_and!.
    + eapply base_after_jobs; [by left|done|]. destruct Hb. by split.
    + apply send_fresh; try done. intros j Hj. rewrite (proj1 (init_after_jobs _ _ j)), (proj2 (init_after_jobs _ _ j)), Hjs.
      split; [by left|]. unfold send_jobs in Hj. apply is_on_false in Hop, Hdn.
      by apply elem_of_cons in Hj as [->|[->|[->|[]%elem_of_nil]%elem_of_cons]%elem_of_cons].
    + apply recv_after_jobs; [by left|intros j Hj%Hjs; by apply send_not_recv|].
      eapply recv_ok_ext; [..|exact Hrv]; [done|]. by split_and!.
Qed.
Lemma recv_init_ok r o μ : conn_ok (view r) (Some o) μ → recv_state o = RECV_STATE_NOT_INITED → err_job ∉ v_stack (view r) →
  rwp others_ok (run_act RecvInit) (st r o) μ (settled (conn_fd o) (close_fd o) μ).
Proof.
  intros Hok Es Hn. destruct (conn_ok_parts _ _ _ Hn Hok) as (Hb & Hs & [S1 S2 _]). rewrite Es in S1, S2.
  destruct (side_none_inv _ _ _ _ _ _ _ S2) as (Hw & Hop & Hdn & Hio).
  destruct jobs_apart as (?&?&?&?&?&?&?&?&?&?&?&?&?&?&?&?&?&?&?&?&?). cbn [run_act].
  rwp_step. unfold BConnection_RecvAsync_Init. rwp_step. apply conn_no_error; [apply Hb|done|]. rwp_step. apply conn_get.
  rwp_step. apply rwp_assert; [by rewrite Es|]. rwp_step. apply conn_set.
  apply init_three.
  - rewrite !NoDup_cons, !not_elem_of_cons. split_and!; try apply not_elem_of_nil; try congruence. apply NoDup_nil_2.
  - intros j Hj. assert (j ∈ recv_jobs) by (unfold recv_jobs; clear -Hj; set_solver).
    split; [by apply conn_recv|]. intros Hin. by apply S1 in Hin.
  - intros r' V. apply conn_set. rwp_step. eexists r', _. split_and!; [done| |done..].
    assert (∀ j, j ∈ [recv_op_job; recv_done_job; recv_job] ↔ j ∈ recv_jobs) as Hjs by (intros; unfold recv_jobs; clear; set_solver).
    assert (err_job ∉ [recv_op_job; recv_done_job; recv_job]) as He by (rewrite !not_elem_of_cons; split_and!; [..|apply not_elem_of_nil]; congruence).
    apply conn_parts_ok; [by rewrite V, (proj2 (init_after_jobs _ _ _))|].
    rewrite V. split_and!.
    + eapply base_after_jobs; [by left|done|]. destruct Hb. by split.
    + apply send_after_jobs; [by left|intros j Hj%Hjs; by apply recv_not_send|].
      eapply send_ok_ext; [..|exact Hs]; [done|]. by split_and!.
    + apply recv_fresh; try done. intros j Hj. rewrite (proj1 (init_after_jobs _ _ j)), (proj2 (init_after_jobs _ _ j)), Hjs.
      split; [by left|]. unfold recv_jobs in Hj. apply is_on_false in Hop, Hdn, Hio.
      by apply elem_of_cons in Hj as [->|[->|[->|[]%elem_of_nil]%elem_of_cons]%elem_of_cons].
Qed.

(** ** Users *)

(** Nothing that the invariant looks at is different. *)
Definition same_iface (i i' : StreamInterface) : Prop :=
  (state i', job_operation i', job_operation_len i', job_done i', job_done_len i') =
  (state i, job_operation i, job_operation_len i, job_done i, job_done_len i).
Lemma side_same_iface e z i i' n a op dn io : same_iface i i' → side_ok e z i n a op dn io → side_ok e z i' n a op dn io.
Proof.
  intros [= E1 E2 E3 E4 E5]. destruct 1.
  - by apply side_none.
  - apply side_idle; congruence.
  - apply side_pending; congruence.
  - apply side_done; congruence.
  - rewrite <- E3. apply side_busy; congruence.
  - apply side_closed; congruence.
Qed.
Lemma in_flight_same i i' data : same_iface i i' → in_flight i' data = in_flight i data.
Proof. intros [= E1 _ _ _ E5]. unfold in_flight. by rewrite E1, E5. Qed.
Lemma send_same_iface e v o μ i' : same_iface (send_iface o) i' → send_ok e v o μ → send_ok e v (o <| send_iface := i' |>) μ.
Proof.
  intros Hi [S1 S2 S3 S4 S5 S6 S7]. pose proof Hi as [= E1 E2 E3 E4 E5]. split; try done.
  - by apply (side_same_iface _ _ (send_iface o)).
  - change (send_state o ≠ SEND_STATE_NOT_INITED → state i' ≠ SPI_STATE_NONE →
      len (send_if_data o) = job_operation_len i' ∧ sm_offered μ = send_if_data o). by rewrite E1, E3.
  - change (send_state o ≠ SEND_STATE_NOT_INITED → sm_written μ = sm_sent μ ++ in_flight i' (send_if_data o)).
    by rewrite (in_flight_same _ _ _ Hi).
Qed.
Lemma recv_same_iface e v o μ i' : same_iface (recv_iface o) i' → recv_ok e v o μ → recv_ok e v (o <| recv_iface := i' |>) μ.
Proof.
  intros Hi [S1 S2 S3]. split; try done.
  - by apply (side_same_iface _ _ (recv_iface o)).
  - change (recv_state o ≠ RECV_STATE_NOT_INITED → sm_read μ = sm_delivered μ ++ in_flight i' (recv_busy_data o)).
    by rewrite (in_flight_same _ _ _ Hi).
Qed.

Lemma interface_user i : handler_done i = false →
  ∃ i', StreamInterface_User_Init i = Some (tt, i', []) ∧ same_iface i i' ∧ pushed i i' = λ _ _ l, l.
Proof.
  intros Hd. exists (i <| handler_done := true |>). split_and!; [|done|].
  - unfold StreamInterface_User_Init, mbind, prog_bind, get_st, ASSERT, modify. by rewrite Hd.
  - unfold pushed. cbn. by destruct (job_operation i), (job_done i).
Qed.
Lemma interface_start i n : state i = SPI_STATE_NONE → handler_done i = true → job_operation i = false → 0 < n →
  ∃ i', StreamInterface_Start n i = Some (tt, i', []) ∧ state i' = SPI_STATE_OPERATION_PENDING ∧ job_operation i' = true ∧
    job_done i' = job_done i ∧ job_operation_len i' = n ∧
    pushed i i' = λ j _ l, j :: list_remove_job j l.
Proof.
  intros Hs Hd Ho Hn. exists (i <| job_operation_len := n |> <| job_operation := true |> <| state := SPI_STATE_OPERATION_PENDING |>).
  split_and!; try done.
  - unfold StreamInterface_Start, mbind, prog_bind, get_st, ASSERT, modify. by rewrite (proj2 (Z.ltb_lt 0 n)), Hs, Hd.
  - unfold pushed. cbn. rewrite Ho. by destruct (job_done i).
Qed.
Lemma side_idle_inv e z i n a op dn io : side_ok e z i n a op dn io → z ≠ SEND_STATE_NOT_INITED → state i = SPI_STATE_NONE →
  z = SEND_STATE_READY ∧ job_operation i = false ∧ job_done i = false ∧ a = false ∧ op = false ∧ dn = false ∧ io = false.
Proof. destruct 1; intros ? Es; try done; rewrite Es in *; done. Qed.

Lemma send_user_init_ok r o μ : conn_ok (view r) (Some o) μ → send_state o ≠ SEND_STATE_NOT_INITED → handler_done (send_iface o) = false →
  rwp others_ok (run_act SendUserInit) (st r o) μ (settled (conn_fd o) (close_fd o) μ).
Proof.
  intros (Hb & Hs & Hrv) Hne Hd. destruct (interface_user _ Hd) as (i' & Erun & Hi & Hp). cbn [run_act]. unfold send_user_init.
  rwp_step. eapply conn_send_if; [exact Erun|apply Hs; [job_in|done]..|]. intros r' V. rewrite Hp in V. rwp_step.
  assert (view r' = view r) as V' by (by rewrite V; destruct (view r)).
  eexists r', _. split_and!; [done| |done..]. rewrite V'. split_and!.
  - destruct Hb. by split.
  - by apply send_same_iface.
  - eapply recv_ok_ext; [..|exact Hrv]; [done|]. by split_and!.
Qed.
Lemma recv_user_init_ok r o μ : conn_ok (view r) (Some o) μ → recv_state o ≠ RECV_STATE_NOT_INITED → handler_done (recv_iface o) = false →
  rwp others_ok (run_act RecvUserInit) (st r o) μ (settled (conn_fd o) (close_fd o) μ).
Proof.
  intros (Hb & Hs & Hrv) Hne Hd. destruct (interface_user _ Hd) as (i' & Erun & Hi & Hp). cbn [run_act]. unfold recv_user_init.
  rwp_step. eapply conn_recv_if; [exact Erun|apply Hrv; [job_in|done]..|]. intros r' V. rewrite Hp in V. rwp_step.
  assert (view r' = view r) as V' by (by rewrite V; destruct (view r)).
  eexists r', _. split_and!; [done| |done..]. rewrite V'. split_and!.
  - destruct Hb. by split.
  - eapply send_ok_ext; [..|exact Hs]; [done|]. by split_and!.
  - by apply recv_same_iface.
Qed.
Lemma send_start_ok data r o μ : conn_ok (view r) (Some o) μ → send_state o ≠ SEND_STATE_NOT_INITED →
  handler_done (send_iface o) = true → state (send_iface o) = SPI_STATE_NONE → data ≠ [] → err_job ∉ v_stack (view r) →
  rwp others_ok (run_act (Send data)) (st r o) μ (settled (conn_fd o) (close_fd o) μ).
Proof.
  intros Hok Hne Hd Es Hdata Hn. destruct (conn_ok_parts _ _ _ Hn Hok) as (Hb & [S1 S2 S3 S4 S5 S6 S7] & Hrv).
  destruct (side_idle_inv _ _ _ _ _ _ _ _ S2 Hne Es) as (Est & Eo & Ed & Hw & Hop & Hdn & _).
  assert (0 < len data) as Hlen by (destruct data; [done|unfold len; cbn; lia]).
  destruct (interface_start _ (len data) Es Hd Eo Hlen) as (i' & Erun & I1 & I2 & I3 & I4 & Hp).
  destruct jobs_apart as (?&?&?&?&?&?&?&?&?&?&?&?&?&?&?&?&?&?&?&?&?). cbn [run_act]. unfold send_start.
  rwp_step. eapply conn_send_if; [exact Erun|apply S1; [job_in|done]..|]. intros r' V. rewrite Hp in V.
  rwp_step. apply conn_set. rwp_step. eexists r', _. split_and!; [done| |done..]. rewrite V.
  apply conn_parts_ok; [rewrite on_push; naive_solver|]. split_and!.
  - apply base_push; [done|done|]. destruct Hb. by split.
  - set (v' := view r <| v_stack := _ |>).
    split.
    + exact S1.
    + assert (is_on v' send_op_job = true) as -> by (apply is_on_true; unfold v'; rewrite on_push; by left).
      assert (is_on v' send_done_job = false) as ->.
      { rewrite <- Hdn. apply is_on_ext. unfold v'. rewrite on_push. naive_solver. }
      change (side_ok false (send_state o) i' (send_busy_data_len o) (watched_for o BREACTOR_WRITE) true false false).
      rewrite Est, Hw. apply side_pending; [done|done|congruence|by rewrite I4].
    + unfold v'. rewrite on_push. naive_solver.
    + exact S4.
    + intros _ _. change (len data = job_operation_len i' ∧ data = data). by rewrite I4.
    + intros Hbusy. change (send_state o = SEND_STATE_BUSY) in Hbusy. by rewrite Est in Hbusy.
    + intros _. change (sm_written μ = sm_sent μ ++ in_flight i' data). rewrite (S7 Hne). unfold in_flight. by rewrite Es, I1.
  - apply recv_push; [apply send_not_recv; job_in|]. eapply recv_ok_ext; [..|exact Hrv]; [done|]. by split_and!.
Qed.
Lemma recv_start_ok avail r o μ : conn_ok (view r) (Some o) μ → recv_state o ≠ RECV_STATE_NOT_INITED →
  handler_done (recv_iface o) = true → state (recv_iface o) = SPI_STATE_NONE → 0 < avail → err_job ∉ v_stack (view r) →
  rwp others_ok (run_act (Recv avail)) (st r o) μ (settled (conn_fd o) (close_fd o) μ).
Proof.
  intros Hok Hne Hd Es Hlen Hn. destruct (conn_ok_parts _ _ _ Hn Hok) as (Hb & Hs & [S1 S2 S3]).
  destruct (side_idle_inv _ _ _ _ _ _ _ _ S2 Hne Es) as (Est & Eo & Ed & Hw & Hop & Hdn & Hio).
  destruct (interface_start _ avail Es Hd Eo Hlen) as (i' & Erun & I1 & I2 & I3 & I4 & Hp).
  destruct jobs_apart as (?&?&?&?&?&?&?&?&?&?&?&?&?&?&?&?&?&?&?&?&?). cbn [run_act]. unfold recv_start.
  rwp_step. eapply conn_recv_if; [exact Erun|apply S1; [job_in|done]..|]. intros r' V. rewrite Hp in V.
  rwp_step. eexists r', _. split_and!; [done| |done..]. rewrite V.
  apply conn_parts_ok; [rewrite on_push; naive_solver|]. split_and!.
  - apply base_push; [done|done|]. destruct Hb. by split.
  - apply send_push; [apply recv_not_send; job_in|]. eapply send_ok_ext; [..|exact Hs]; [done|]. by split_and!.
  - set (v' := view r <| v_stack := _ |>). split.
    + exact S1.
    + assert (is_on v' recv_op_job = true) as -> by (apply is_on_true; unfold v'; rewrite on_push; by left).
      assert (∀ j, j ≠ recv_op_job → is_on v' j = is_on (view r) j) as Hon.
      { intros j ?. apply is_on_ext. unfold v'. rewrite on_push. naive_solver. }
      rewrite !Hon, Hdn, Hio by congruence.
      change (side_ok false (recv_state o) i' (recv_busy_data_avail o) (watched_for o BREACTOR_READ) true false false).
      rewrite Est, Hw. apply side_pending; [done|done|congruence|by rewrite I4].
    + intros _. change (sm_read μ = sm_delivered μ ++ in_flight i' (recv_busy_data o)). rewrite (S3 Hne). unfold in_flight. by rewrite Es, I1.
Qed.

Lemma set_handlers_ok user handler r o μ : conn_ok (view r) (Some o) μ → handler ≠ 0 →
  rwp others_ok (run_act (SetHandlers user handler)) (st r o) μ (settled (conn_fd o) (close_fd o) μ).
Proof.
  intros (Hb & Hs & Hrv) Hh. cbn [run_act]. unfold BConnection_SetHandlers. apply conn_set.
  eexists r, _. split_and!; [done| |done..]. split_and!.
  - destruct Hb. by split.
  - eapply send_ok_ext; [..|exact Hs]; [done|]. by split_and!.
  - eapply recv_ok_ext; [..|exact Hrv]; [done|]. by split_and!.
Qed.
Lemma set_send_buffer_ok size res r o μ : conn_ok (view r) (Some o) μ →
  rwp others_ok (run_act (SetSendBuffer size res)) (st r o) μ (settled (conn_fd o) (close_fd o) μ).
Proof.
  intros Hok. cbn [run_act]. rwp_step. unfold BConnection_SetSendBuffer. rwp_step. apply conn_get.
  rwp_step. rwp_step. rwp_step. rwp_step. by eexists r, o.
Qed.

(** ** Ends *)

(** The connection once it does not watch for [flag] any more. *)
Definition unwatched (flag : Z) o : BConnection :=
  if is_hupd o then o else o <| wait_events := Z.land (wait_events o) (Z.lnot flag) |>.
Lemma unwatched_watch flag g o : io_flag g → watched_for (unwatched flag o) g = watched_for o g && negb (has flag g).
Proof.
  intros (n & Hn & ->)%io_flag_bit. unfold unwatched, watched_for. destruct (is_hupd o) eqn:Hh; cbn [is_hupd wait_events upd].
  - by rewrite Hh.
  - by rewrite Hh, has_cleared.
Qed.
Lemma unwatched_same {A} (g : BConnection → A) flag o : (∀ o w, g (o <| wait_events := w |>) = g o) → g (unwatched flag o) = g o.
Proof. intros Hg. unfold unwatched. by case_match. Qed.

Lemma unwatch_ok flag r o μ Q : conn_base (view r) o →
  (∀ r', conn_base (view r') (unwatched flag o) → v_jobs (view r') = v_jobs (view r) → v_stack (view r') = v_stack (view r) →
    Q tt (st r' (unwatched flag o)) μ) →
  rwp others_ok (when (negb (is_hupd o)) (
    set_conn (λ o, o <| wait_events := Z.land (wait_events o) (Z.lnot flag) |>);;
    o ← get_conn;
    set_bfd_events conn_bfd (wait_events o))) (st r o) μ Q.
Proof.
  intros Hb HQ. unfold unwatched in HQ. apply rwp_when; intros Hh.
  - apply negb_true_iff in Hh. rewrite Hh in HQ. rwp_step. apply conn_set. rwp_step. apply conn_get.
    pose proof (cb_fd _ _ Hb) as Hfd. rewrite Hh in Hfd. pose proof (cleared_range (wait_events o) flag (cb_wait _ _ Hb)).
    eapply conn_events; [exact Hfd|done|]. intros r' V. apply HQ; rewrite V; [|done..]. by apply base_events.
  - apply negb_false_iff in Hh. rewrite Hh in HQ. by apply HQ.
Qed.

Lemma side_state e z i n a op dn io : side_ok e z i n a op dn io →
  z = SEND_STATE_NOT_INITED ∨ z = SEND_STATE_READY ∨ z = SEND_STATE_BUSY ∨ z = RECV_STATE_INITED_CLOSED.
Proof. destruct 1; auto. Qed.

Lemma send_free_ok r o μ : conn_ok (view r) (Some o) μ → send_state o ≠ SEND_STATE_NOT_INITED →
  rwp others_ok (run_act SendFree) (st r o) μ (settled (conn_fd o) (close_fd o) μ).
Proof.
  intros (Hb & Hs & Hrv) Hne. pose proof Hs as [S1 S2 _ S4 _ _ _].
  destruct jobs_apart as (?&?&?&?&?&?&?&?&?&?&?&?&?&?&?&?&?&?&?&?&?). cbn [run_act]. unfold BConnection_SendAsync_Free.
  rwp_step. apply conn_get. rwp_step. apply rwp_assert.
  { by destruct (side_state _ _ _ _ _ _ _ _ S2) as [E|[->|[->|E]]]. }
  rwp_step. apply unwatch_ok; [done|]. intros r1 Hb1 Vj Vs.
  assert (∀ A (g : BConnection → A), (∀ o w, g (o <| wait_events := w |>) = g o) → g (unwatched BREACTOR_WRITE o) = g o) as Hg
    by (intros A g; apply unwatched_same).
  assert (∀ j, j ∈ [send_job; send_done_job; send_op_job] ↔ j ∈ send_jobs) as Hjs by (intros; unfold send_jobs; clear; set_solver).
  assert (err_job ∉ [send_job; send_done_job; send_op_job]) as He by (rewrite !not_elem_of_cons; split_and!; [..|apply not_elem_of_nil]; congruence).
  apply free_three.
  - rewrite !NoDup_cons, !not_elem_of_cons. split_and!; try apply not_elem_of_nil; try congruence. apply NoDup_nil_2.
  - intros j Hj%Hjs. split; [by apply conn_send|]. rewrite Vj. by apply S1.
  - intros r2 V2. apply conn_set. eexists r2, _. split_and!; [done| |by apply (Hg _ conn_fd)|by apply (Hg _ close_fd)|done].
    rewrite V2. split_and!.
    + eapply base_after_jobs; [by right|done|]. destruct Hb1. by split.
    + apply send_gone; [done| |].
      * intros j Hj%Hjs. rewrite (proj1 (free_after_jobs _ _ j)), (proj2 (free_after_jobs _ _ j)). tauto.
      * change (watched_for (unwatched BREACTOR_WRITE o) BREACTOR_WRITE = false).
        rewrite unwatched_watch by by right. by rewrite andb_false_r.
    + rewrite err_after_jobs by (done || by right). apply recv_after_jobs; [by right|intros j Hj%Hjs; by apply send_not_recv|].
      eapply recv_ok_ext; [..|exact Hrv].
      * unfold is_on. by rewrite Vs.
      * split_and!; [intros j _; by rewrite Vj, Vs| |done].
        change ((recv_state (unwatched BREACTOR_WRITE o), recv_iface (unwatched BREACTOR_WRITE o),
          recv_busy_data_avail (unwatched BREACTOR_WRITE o), recv_busy_data (unwatched BREACTOR_WRITE o),
          watched_for (unwatched BREACTOR_WRITE o) BREACTOR_READ) =
          (recv_state o, recv_iface o, recv_busy_data_avail o, recv_busy_data o, watched_for o BREACTOR_READ)).
        rewrite unwatched_watch by by left. rewrite andb_true_r.
        by rewrite (Hg _ recv_state), (Hg _ recv_iface), (Hg _ recv_busy_data_avail), (Hg _ recv_busy_data).
Qed.
Lemma recv_free_ok r o μ : conn_ok (view r) (Some o) μ → recv_state o ≠ RECV_STATE_NOT_INITED →
  rwp others_ok (run_act RecvFree) (st r o) μ (settled (conn_fd o) (close_fd o) μ).
Proof.
  intros (Hb & Hs & Hrv) Hne. pose proof Hrv as [S1 S2 _].
  destruct jobs_apart as (?&?&?&?&?&?&?&?&?&?&?&?&?&?&?&?&?&?&?&?&?). cbn [run_act]. unfold BConnection_RecvAsync_Free.
  rwp_step. apply conn_get. rwp_step. apply rwp_assert.
  { by destruct (side_state _ _ _ _ _ _ _ _ S2) as [E|[->|[->| -> ]]]. }
  rwp_step. apply unwatch_ok; [done|]. intros r1 Hb1 Vj Vs.
  assert (∀ A (g : BConnection → A), (∀ o w, g (o <| wait_events := w |>) = g o) → g (unwatched BREACTOR_READ o) = g o) as Hg
    by (intros A g; apply unwatched_same).
  assert (∀ j, j ∈ [recv_job; recv_done_job; recv_op_job] ↔ j ∈ recv_jobs) as Hjs by (intros; unfold recv_jobs; clear; set_solver).
  assert (err_job ∉ [recv_job; recv_done_job; recv_op_job]) as He by (rewrite !not_elem_of_cons; split_and!; [..|apply not_elem_of_nil]; congruence).
  apply free_three.
  - rewrite !NoDup_cons, !not_elem_of_cons. split_and!; try apply not_elem_of_nil; try congruence. apply NoDup_nil_2.
  - intros j Hj%Hjs. split; [by apply conn_recv|]. rewrite Vj. by apply S1.
  - intros r2 V2. apply conn_set. eexists r2, _. split_and!; [done| |by apply (Hg _ conn_fd)|by apply (Hg _ close_fd)|done].
    rewrite V2. split_and!.
    + eapply base_after_jobs; [by right|done|]. destruct Hb1. by split.
    + rewrite err_after_jobs by (done || by right). apply send_after_jobs; [by right|intros j Hj%Hjs; by apply recv_not_send|].
      eapply send_ok_ext; [..|exact Hs].
      * unfold is_on. by rewrite Vs.
      * split_and!; [intros j _; by rewrite Vj, Vs| |done].
        change ((send_state (unwatched BREACTOR_READ o), send_iface (unwatched BREACTOR_READ o),
          send_busy_data_len (unwatched BREACTOR_READ o), send_busy_data (unwatched BREACTOR_READ o),
          send_if_data (unwatched BREACTOR_READ o), watched_for (unwatched BREACTOR_READ o) BREACTOR_WRITE) =
          (send_state o, send_iface o, send_busy_data_len o, send_busy_data o, send_if_data o, watched_for o BREACTOR_WRITE)).
        rewrite unwatched_watch by by right. rewrite andb_true_r.
        by rewrite (Hg _ send_state), (Hg _ send_iface), (Hg _ send_busy_data_len), (Hg _ send_busy_data), (Hg _ send_if_data).
    + apply recv_gone; [done| |].
      * intros j Hj%Hjs. rewrite (proj1 (free_after_jobs _ _ j)), (proj2 (free_after_jobs _ _ j)). tauto.
      * change (watched_for (unwatched BREACTOR_READ o) BREACTOR_READ = false).
        rewrite unwatched_watch by by left. by rewrite andb_false_r.
Qed.

Lemma conn_free_limit p r o μ Q : is_Some (v_limits (view r) !! p) →
  (∀ r', view r' = view r <| v_limits := delete p (v_limits (view r)) |> → Q tt (st r' o) μ) →
  rwp others_ok (free_limit p) (st r o) μ Q.
Proof. intros. eapply rwp_free_limit; [apply _|done|apply not_elem_of_nil|done]. Qed.

(** Closing a descriptor. *)
Definition closed (fd : Z) (l : option (gset Z)) : option (gset Z) :=
  l ← l; if decide (fd ∈ l) then Some (l ∖ {[fd]}) else None.

Lemma conn_free_ok r o μ : conn_ok (view r) (Some o) μ → send_state o = SEND_STATE_NOT_INITED → recv_state o = RECV_STATE_NOT_INITED →
  rwp others_ok (run_act Free) (st r o) μ (λ _ s' μ', ∃ r', s' = MkSockets r' l c None ∧ conn_ok (view r') None μ' ∧
    sm_open μ' = if close_fd o then closed (conn_fd o) (sm_open μ) else sm_open μ).
Proof.
  intros (Hb & [S1 _ _ _ _ _ _] & [R1 _ _]) Es Er. rewrite Es in S1. rewrite Er in R1.
  pose proof Hb as [B1 B2 [B3 B3'] B4 B5 B6 B7].
  assert (send_limit ≠ recv_limit) as Hlim.
  { pose proof limits_distinct as H. apply NoDup_cons in H as [H _]. by apply not_elem_of_cons in H as [H _]. }
  cbn [run_act]. unfold BConnection_Free.
  rwp_step. apply conn_pending; [done|left|]. intros r1 V1. rwp_step. apply conn_get.
  rwp_step. apply rwp_assert; [by rewrite Es|]. rwp_step. apply rwp_assert; [by rewrite Er|].
  rwp_step. apply conn_free_limit; [by rewrite V1|]. intros r2 V2.
  rwp_step. apply conn_free_limit.
  { rewrite V2, V1. change (is_Some (delete recv_limit (v_limits (view r)) !! send_limit)). by rewrite lookup_delete_ne. }
  intros r3 V3.
  assert (view r3 = view r <| v_stack := list_remove_job err_job (v_stack (view r)) |> <| v_jobs := v_jobs (view r) ∖ {[err_job]} |>
    <| v_limits := delete send_limit (delete recv_limit (v_limits (view r))) |>) as V by (rewrite V3, V2, V1; done). clear V1 V2 V3.
  assert (∀ r' : BReactor T, off (view r') conn_bfd → v_limits (view r') = v_limits (view r3) → v_jobs (view r') = v_jobs (view r3) →
    conn_ok (view r') None μ) as Hdone.
  { intros r' Hoff El Ej. split_and!; [done|rewrite El, V..|].
    - change (delete send_limit (delete recv_limit (v_limits (view r))) !! send_limit = None). apply lookup_delete_eq.
    - change (delete send_limit (delete recv_limit (v_limits (view r))) !! recv_limit = None).
      rewrite lookup_delete_ne by done. apply lookup_delete_eq.
    - intros j Hj. rewrite Ej, V. change (j ∉ v_jobs (view r) ∖ {[err_job]}). rewrite elem_of_difference, elem_of_singleton.
      unfold conn_jobs in Hj. apply elem_of_cons in Hj as [->|[Hj|Hj]%elem_of_app]; [naive_solver|..]; intros [Hin _].
      + by apply S1 in Hin.
      + by apply R1 in Hin. }
  assert (∀ r4, conn_ok (view r4) None μ → rwp others_ok (when (close_fd o) (emit (Sys_close (conn_fd o)));;
      modify (λ s : BSockets T, s <| conn := None |>)) (st r4 o) μ (λ _ s' μ', ∃ r', s' = MkSockets r' l c None ∧ conn_ok (view r') None μ' ∧
    sm_open μ' = if close_fd o then closed (conn_fd o) (sm_open μ) else sm_open μ)) as Hrest.
  { intros r4 H4. rwp_step. destruct (close_fd o); cbn [when]; rwp_step; (apply rwp_modify; [done|done|by exists r4]). }
  rwp_step. apply rwp_when; intros Hh.
  - apply negb_true_iff in Hh. rewrite Hh in B1. eapply conn_remove; [by rewrite V|]. intros r4 V4.
    apply Hrest, Hdone; rewrite V4; [|done..]. intros d w. cbn. rewrite lookup_insert_eq. congruence.
  - apply negb_false_iff in Hh. rewrite Hh in B1. apply Hrest, Hdone; [|done..]. intros d w. rewrite V. apply B1.
Qed.
End jobs.
End BConnectionOps.
