(* ===== verification/BConnectionEnds.v ===== *)
(** Listeners and connectors, and the beginning of a connection: what each
    program does to its own object, while the others stay as they are. *)
From S2P Require Import Prelude Misc BAddr TreeInterface BPending Interfaces BReactor BReactorRun ReactorClient BConnection BConnectionRun BConnectionRules BConnectionFacts BConnectionOps.

Module BConnectionEnds.
Export BConnectionOps.

Section ends.
Context {T : Type} `{!OrderedTree T} {places : Places}.
Implicit Types (r : BReactor T) (s : BSockets T) (v : cview) (o : BConnection) (μ : summary).

(** ** What a connection depends on *)

Record same_conn v v' : Prop := {
  sc_fd : v_fds v' !! conn_bfd = v_fds v !! conn_bfd;
  sc_limits : ∀ p, p ∈ our_limits → is_Some (v_limits v' !! p) ↔ is_Some (v_limits v !! p);
  sc_jobs : ∀ j, j ∈ conn_jobs → j ∈ v_jobs v' ↔ j ∈ v_jobs v;
  sc_stack : filter (λ j, j ∈ conn_jobs) (v_stack v') = filter (λ j, j ∈ conn_jobs) (v_stack v)
}.
Lemma untouched_same_conn v v' : untouched [conn_bfd] our_limits conn_jobs v v' → same_conn v v'.
Proof. intros [Hf Hl Hj Hs]. split; [apply Hf; left| |done|done]. intros p Hp. by rewrite Hl. Qed.

Lemma filter_split {A} (P : A → Prop) `{!∀ x, Decision (P x)} l m1 x m2 : filter P l = m1 ++ x :: m2 →
  ∃ l1 l2, l = l1 ++ x :: l2 ∧ filter P l1 = m1.
Proof.
  revert m1. induction l as [|y l IH]; intros m1 E; [by destruct m1|]. rewrite filter_cons in E. case_decide as Hy.
  - destruct m1 as [|z m1]; injection E as -> E; [by exists [], l|].
    destruct (IH m1 E) as (l1 & l2 & -> & <-). exists (z :: l1), l2. split; [done|]. by rewrite filter_cons, decide_True.
  - destruct (IH m1 E) as (l1 & l2 & -> & <-). exists (y :: l1), l2. split; [done|]. by rewrite filter_cons, decide_False.
Qed.
Lemma same_conn_stack v v' j : same_conn v v' → j ∈ conn_jobs → j ∈ v_stack v' ↔ j ∈ v_stack v.
Proof.
  intros [_ _ _ Hs] Hj. assert (∀ l, j ∈ l ↔ j ∈ filter (λ k, k ∈ conn_jobs) l) as Hf
    by (intros l; rewrite list_elem_of_filter; tauto).
  by rewrite (Hf (v_stack v')), Hs, <- Hf.
Qed.
Lemma same_conn_over v v' k : same_conn v v' → k ∈ conn_jobs → over v' k → over v k.
Proof.
  intros [_ _ _ Hs] Hk (l1 & l2 & E & Hin). rewrite E, filter_app, filter_cons, decide_True in Hs by left.
  symmetry in Hs. apply filter_split in Hs as (m1 & m2 & ? & Em). exists m1, m2. split; [done|].
  assert (k ∈ filter (λ j, j ∈ conn_jobs) m1) as Hin2 by (rewrite Em; by apply list_elem_of_filter).
  by apply list_elem_of_filter in Hin2 as [_ ?].
Qed.
Lemma conn_ok_same v v' oo μ : same_conn v v' → conn_ok v oo μ → conn_ok v' oo μ.
Proof.
  intros Hv. pose proof Hv as [Hf Hl Hj _]. destruct oo as [o|]; cbn [conn_ok].
  - intros ([H1 H2 [H3 H3'] H4 H5 H6 H7] & Hs & Hr).
    rewrite (is_on_ext v v' err_job) by (apply same_conn_stack; [done|left]). split_and!.
    + split; try done.
      * destruct (is_hupd o); [|by rewrite Hf]. intros d w. rewrite Hf. apply H1.
      * split; apply Hl; [left|done|right; left|done].
      * apply Hj; [left|done].
      * intros k Hk Hov. apply (H7 k Hk). apply (same_conn_over v v'); [done| |done].
        unfold conn_jobs, send_jobs, recv_jobs. clear -Hk. set_solver.
    + eapply send_ok_ext; [..|exact Hs]; [done|]. split_and!; [|done..]. intros j Hjs%conn_send.
      split; [by apply Hj|by apply same_conn_stack].
    + eapply recv_ok_ext; [..|exact Hr]; [done|]. split_and!; [|done..]. intros j Hjs%conn_recv.
      split; [by apply Hj|by apply same_conn_stack].
  - intros (H1 & H2 & H3 & H4). split_and!.
    + intros d w. rewrite Hf. apply H1.
    + apply eq_None_not_Some. rewrite Hl by left. rewrite H2. apply is_Some_None.
    + apply eq_None_not_Some. rewrite Hl by (right; left). rewrite H3. apply is_Some_None.
    + intros j Hjs. rewrite Hj by done. by apply H4.
Qed.

(** What the connection sees of the trace. *)
Definition streams μ : bytes * bytes * bytes * bytes * bytes :=
  (sm_offered μ, sm_written μ, sm_sent μ, sm_read μ, sm_delivered μ).
Lemma conn_ok_streams v oo μ μ' : streams μ' = streams μ → conn_ok v oo μ → conn_ok v oo μ'.
Proof.
  intros [= E1 E2 E3 E4 E5]. destruct oo as [o|]; [|done]. intros (Hb & Hs & Hr). split_and!; [done|..].
  - eapply send_ok_ext; [..|exact Hs]; [done|]. split_and!; [done|done|by rewrite E1, E2, E3].
  - eapply recv_ok_ext; [..|exact Hr]; [done|]. split_and!; [done|done|by rewrite E4, E5].
Qed.

(** ** Descriptors *)

(** Those of the program in hand, [F], and the others, [X], are open. *)
Definition opens (F X : gset Z) μ : Prop := sm_open μ = Some (F ∪ X) ∧ F ## X.
Definition listener_fds (l : option BListener) : gset Z :=
  match l with Some l => {[listener_fd l]} | None => ∅ end.
Definition connector_fds (c : option BConnector) : gset Z :=
  match c with Some c => if connector_fd c =? -1 then ∅ else {[connector_fd c]} | None => ∅ end.
Definition conn_fds (oo : option BConnection) : gset Z :=
  match oo with Some o => if close_fd o then {[conn_fd o]} else ∅ | None => ∅ end.

Lemma obtained fd X μ : new_fd fd μ → 0 ≤ fd → opens ∅ X μ → opens {[fd]} X (obtain fd μ) ∧ streams (obtain fd μ) = streams μ.
Proof.
  intros Hn Hfd [E _]. specialize (Hn Hfd _ E). unfold obtain. rewrite (proj2 (Z.ltb_ge fd 0)) by done. split; [|done].
  split; [|clear -Hn; set_solver].
  change ((λ l, {[fd]} ∪ l) <$> sm_open μ = Some ({[fd]} ∪ X)). rewrite E. cbn. f_equal. clear. set_solver.
Qed.
Lemma not_obtained fd μ : fd < 0 → obtain fd μ = μ.
Proof. intros. unfold obtain. by rewrite (proj2 (Z.ltb_lt fd 0)). Qed.
Lemma closes fd X μ : opens {[fd]} X μ → opens ∅ X (step μ (Sys_close fd)) ∧ streams (step μ (Sys_close fd)) = streams μ.
Proof.
  intros [E Hd]. split; [|done]. split; [|clear; set_solver].
  change ((l ← sm_open μ; if decide (fd ∈ l) then Some (l ∖ {[fd]}) else None) = Some (∅ ∪ X)). rewrite E. cbn.
  rewrite decide_True by (clear; set_solver). f_equal. clear -Hd. set_solver.
Qed.
(** What a program does not own may be counted to the others. *)
Lemma opens_all F X μ : opens F X μ → opens ∅ (F ∪ X) μ.
Proof. intros [E Hd]. split; [|clear; set_solver]. rewrite E. f_equal. clear. set_solver. Qed.

(** ** Frames *)

Definition but_listener μ0 s : Prop :=
  connector_ok (view (reactor s)) (connector s) ∧ conn_ok (view (reactor s)) (conn s) μ0.
#[export] Instance but_listener_stable μ0 : Stable [connector_bfd; conn_bfd] our_limits (connector_job :: conn_jobs) (but_listener μ0).
Proof.
  intros s r' [Hc Ho] Hu. split; cbn.
  - eapply connector_ok_ext; [|exact Hc]. eapply untouched_mono; [..|exact Hu]; set_solver.
  - eapply conn_ok_same; [|exact Ho]. apply untouched_same_conn. eapply untouched_mono; [..|exact Hu]; set_solver.
Qed.
Definition but_connector μ0 s : Prop :=
  listener_ok (view (reactor s)) (listener s) ∧ conn_ok (view (reactor s)) (conn s) μ0.
#[export] Instance but_connector_stable μ0 : Stable [listener_bfd; conn_bfd] our_limits (listener_job :: conn_jobs) (but_connector μ0).
Proof.
  intros s r' [Hc Ho] Hu. split; cbn.
  - eapply listener_ok_ext; [|exact Hc]. eapply untouched_mono; [..|exact Hu]; set_solver.
  - eapply conn_ok_same; [|exact Ho]. apply untouched_same_conn. eapply untouched_mono; [..|exact Hu]; set_solver.
Qed.
#[export] Instance true_stable : Stable [] [] [] (λ _ : BSockets T, True).
Proof. done. Qed.

Lemma listener_apart : (listener_bfd ∉ [connector_bfd; conn_bfd]) ∧ listener_job ∉ connector_job :: conn_jobs.
Proof.
  pose proof bfds_distinct as H. apply NoDup_cons in H as [H1 _]. pose proof jobs_distinct as H. apply NoDup_cons in H as [H2 _].
  split; [done|]. unfold conn_jobs, send_jobs, recv_jobs. clear -H2. set_solver.
Qed.
Lemma connector_apart : (connector_bfd ∉ [listener_bfd; conn_bfd]) ∧ connector_job ∉ listener_job :: conn_jobs.
Proof.
  pose proof bfds_distinct as H. apply NoDup_cons in H as [H1 H]. apply NoDup_cons in H as [H2 _].
  pose proof jobs_distinct as H3. apply NoDup_cons in H3 as [H3 H4]. apply NoDup_cons in H4 as [H4 _].
  apply not_elem_of_cons in H1 as [H1 _], H3 as [H3 _]. split; [apply not_elem_of_cons; by split|].
  unfold conn_jobs, send_jobs, recv_jobs. clear -H3 H4. set_solver.
Qed.

(** ** Addresses *)

Lemma supported_address addr : BConnection_AddressSupported addr = true → ∃ a, addr_socket_to_sys addr = Some a.
Proof. destruct addr; try done; intros _; by eexists. Qed.

(** ** Listeners *)
Section listening.
Context (c : option BConnector) (oo : option BConnection) (μ0 : summary).
Abbreviation st r l := (MkSockets r l c oo).
Abbreviation Φ := (but_listener μ0).

(** What the programs end in, the others having [X] open. *)
Definition listener_done {A} (X : gset Z) μ : A → BSockets T → summary → Prop := λ _ s' μ',
  ∃ r' l', s' = st r' l' ∧ listener_ok (view r') l' ∧ opens (listener_fds l') X μ' ∧ streams μ' = streams μ.

Lemma listener_gone {A} r (a : A) X μ μ' : listener_ok (view r) None → opens ∅ X μ' → streams μ' = streams μ →
  listener_done X μ a (st r None) μ'.
Proof. intros. by exists r, None. Qed.

(** Closing the descriptor after a failure. *)
Lemma listener_fail r fd X μ μ1 : listener_ok (view r) None → opens {[fd]} X μ1 → streams μ1 = streams μ →
  rwp Φ (emit (Sys_close fd);; mret 0) (st r None) μ1 (listener_done X μ).
Proof.
  intros Hl Ho Hs. destruct (closes _ _ _ Ho) as [Ho' Hs']. rwp_step. rwp_step. rwp_step.
  apply listener_gone; [done|done|congruence].
Qed.

Lemma listener_finish_ok r fd path ok (fail : prog (BSockets T) call Z) X μ μ1 : listener_ok (view r) None → 0 ≤ fd →
  (ok = true → ∀ q w, v_fds (view r) !! q ≠ Some (fd, Some w)) → opens {[fd]} X μ1 → streams μ1 = streams μ →
  (∀ r', listener_ok (view r') None → rwp Φ fail (st r' None) μ1 (listener_done X μ)) →
  rwp Φ (listener_finish fd path ok fail) (st r None) μ1 (listener_done X μ).
Proof.
  intros [Hoff Hj] Hfd Hadd Ho Hs Hfail. destruct listener_apart as [Hb Hjob]. unfold listener_finish.
  rwp_step. eapply rwp_init_fd; [apply _|done|done|]. intros r1 V1.
  assert (v_fds (view r1) !! listener_bfd = Some (fd, None)) as E1 by (rewrite V1; apply lookup_insert_eq).
  assert (∀ r', v_fds (view r') !! listener_bfd = Some (fd, None) → v_jobs (view r') = v_jobs (view r) → listener_ok (view r') None) as Hnone.
  { intros r' E J. split; [intros d w; rewrite E; congruence|by rewrite J]. }
  rwp_step. eapply rwp_add_fd; [apply _|exact E1|done| | |].
  - intros -> q w. rewrite V1. change (<[listener_bfd:=(fd, None)]> (v_fds (view r)) !! q ≠ Some (fd, Some w)).
    destruct (decide (q = listener_bfd)) as [->|]; [by rewrite lookup_insert_eq|]. rewrite lookup_insert_ne by done. by apply Hadd.
  - intros r2 _ V2. cbn [Z.eqb]. rwp_step.
    eapply rwp_set_events; [apply _|rewrite V2; apply lookup_insert_eq|done|done|]. intros r3 V3.
    rwp_step. eapply rwp_pending; [apply _|rewrite V3, V2, V1; exact Hj|exact Hjob|]. intros r4 V4.
    rwp_step. apply rwp_modify; [done|done|]. rwp_step. exists r4, (Some (MkListener path fd)). split_and!; [done| |done|done].
    rewrite V4, V3. split_and!; [done|apply lookup_insert_eq|]. change (listener_job ∈ {[listener_job]} ∪ v_jobs (view r2)).
    apply elem_of_union_l, elem_of_singleton_2. done.
  - intros _. cbn [Z.eqb]. apply Hfail, Hnone; [done|by rewrite V1].
Qed.

Lemma listen_ok addr e r X μ : listener_ok (view r) None → new_fd (la_socket e) μ → opens ∅ X μ →
  (la_add e = true → ∀ q w, v_fds (view r) !! q ≠ Some (la_socket e, Some w)) →
  rwp Φ (run_act (Listen addr e)) (st r None) μ (listener_done X μ).
Proof.
  intros Hl Hn Ho Hadd. cbn [run_act]. rwp_step. unfold BListener_Init.
  destruct (BConnection_AddressSupported addr) eqn:Ea; cbn [negb]; [|rwp_step; rwp_step; by apply listener_gone].
  destruct (supported_address addr Ea) as [a Ha]. rwp_step. eapply rwp_option; [exact Ha|].
  rwp_step. rwp_step. cbn [step]. destruct (Z.ltb_spec (la_socket e) 0) as [Hfd|Hfd].
  { rewrite not_obtained by done. rwp_step. rwp_step. by apply listener_gone. }
  destruct (obtained _ _ _ Hn Hfd Ho) as [Ho1 Hs1].
  assert (∀ r' μ', listener_ok (view r') None → opens {[la_socket e]} X μ' → streams μ' = streams μ →
    rwp Φ (emit (Sys_close (la_socket e));; mret 0) (st r' None) μ' (λ _ s1 μ1, rwp Φ (mret tt) s1 μ1 (listener_done X μ))) as Hfail.
  { intros r' μ' H1 H2 H3. eapply rwp_mono; [by apply listener_fail|]. intros. by rwp_step. }
  rwp_step. rwp_step. destruct (la_nonblocking e); cbn [negb]; [|by apply Hfail].
  rwp_step. rwp_step. rwp_step. rwp_step. case_match; [by apply Hfail|].
  rwp_step. rwp_step. case_match; [by apply Hfail|].
  eapply rwp_mono; [eapply listener_finish_ok; try done|intros; by rwp_step].
  intros r' Hr'. by apply listener_fail.
Qed.
Lemma listen_unix_ok path e r X μ : listener_ok (view r) None → new_fd (la_socket e) μ → opens ∅ X μ →
  (la_add e = true → ∀ q w, v_fds (view r) !! q ≠ Some (la_socket e, Some w)) →
  rwp Φ (run_act (ListenUnix path e)) (st r None) μ (listener_done X μ).
Proof.
  intros Hl Hn Ho Hadd. cbn [run_act]. rwp_step. unfold BListener_InitUnix.
  destruct (la_strdup e); cbn [negb]; [|rwp_step; rwp_step; by apply listener_gone].
  destruct (build_unix_address path) as [a|]; [|rwp_step; rwp_step; by apply listener_gone].
  rwp_step. rwp_step. cbn [step]. destruct (Z.ltb_spec (la_socket e) 0) as [Hfd|Hfd].
  { rewrite not_obtained by done. rwp_step. rwp_step. by apply listener_gone. }
  destruct (obtained _ _ _ Hn Hfd Ho) as [Ho1 Hs1].
  assert (∀ r' μ', listener_ok (view r') None → opens {[la_socket e]} X μ' → streams μ' = streams μ →
    rwp Φ (emit (Sys_close (la_socket e));; mret 0) (st r' None) μ' (λ _ s1 μ1, rwp Φ (mret tt) s1 μ1 (listener_done X μ))) as Hfail.
  { intros r' μ' H1 H2 H3. eapply rwp_mono; [by apply listener_fail|]. intros. by rwp_step. }
  rwp_step. rwp_step. destruct (la_nonblocking e); cbn [negb]; [|by apply Hfail].
  rwp_step. rwp_step. case_match; [by apply Hfail|].
  rwp_step. rwp_step. case_match; [by apply Hfail|].
  rwp_step. rwp_step. case_match; [rwp_step; rwp_step; by apply Hfail|].
  eapply rwp_mono; [eapply listener_finish_ok; try done|intros; by rwp_step].
  intros r' Hr'. rwp_step. rwp_step. by apply listener_fail.
Qed.
Lemma free_listener_ok r l X μ : listener_ok (view r) (Some l) → opens (listener_fds (Some l)) X μ →
  rwp Φ (run_act FreeListener) (st r (Some l)) μ (listener_done X μ).
Proof.
  intros (Hfd & Hb & Hj) Ho. destruct listener_apart as [Hbfd Hjob]. destruct (closes _ _ _ Ho) as [Ho' Hs'].
  cbn [run_act]. unfold BListener_Free, get_listener. rwp_step. rwp_step. rwp_step. eapply rwp_option; [done|].
  rwp_step. eapply rwp_pending; [apply _|exact Hj|exact Hjob|]. intros r1 V1.
  rwp_step. eapply rwp_remove_fd; [apply _|rewrite V1; exact Hb|done|]. intros r2 V2. rwp_step. rwp_step.
  assert (listener_ok (view r2) None) as Hnone.
  { rewrite V2, V1. split; [intros d w; cbn; rewrite lookup_insert_eq; congruence|].
    change (listener_job ∉ v_jobs (view r) ∖ {[listener_job]}). clear. set_solver. }
  rwp_step. destruct (unix_socket_path l); rwp_step; (apply rwp_modify; [done|done|]); by apply listener_gone.
Qed.

(** The listener's handlers. *)
Lemma listener_fd_ok r l X μ : listener_ok (view r) (Some l) → opens (listener_fds (Some l)) X μ →
  rwp Φ listener_fd_handler (st r (Some l)) μ (listener_done X μ).
Proof.
  intros (Hfd & Hb & Hj) Ho. destruct listener_apart as [_ Hjob]. unfold listener_fd_handler, get_listener.
  rwp_step. rwp_step. rwp_step. eapply rwp_option; [done|]. rwp_step.
  eapply rwp_pending; [apply _|exact Hj|exact Hjob|]. intros r1 V1. rwp_step.
  exists r1, (Some l). split_and!; [done| |done|done]. rewrite V1. by split_and!.
Qed.
Lemma listener_job_ok newfd r l X μ : listener_ok (view r) (Some l) → opens (listener_fds (Some l)) X μ → new_fd newfd μ →
  rwp Φ (listener_default_job_handler newfd) (st r (Some l)) μ (listener_done X μ).
Proof.
  intros Hl Ho Hn. unfold listener_default_job_handler, get_listener. rwp_step. rwp_step. rwp_step. eapply rwp_option; [done|].
  rwp_step. rwp_step. cbn [step]. destruct (Z.ltb_spec newfd 0) as [Hfd|Hfd].
  { rewrite not_obtained by done. rwp_step. by exists r, (Some l). }
  destruct (obtained _ _ _ Hn Hfd (opens_all _ _ _ Ho)) as [Ho1 Hs1]. destruct (closes _ _ _ Ho1) as [Ho2 Hs2].
  rwp_step. exists r, (Some l). split_and!; [done|done| |congruence]. destruct Ho as [_ Hd], Ho2 as [E _].
  split; [|done]. rewrite E. f_equal. clear. set_solver.
Qed.
End listening.

(** ** Connectors *)
Section connecting.
Context (l : option BListener) (oo : option BConnection) (μ0 : summary).
Abbreviation st r c := (MkSockets r l c oo).
Abbreviation Φ := (but_connector μ0).

Definition connector_done {A} (X : gset Z) μ : A → BSockets T → summary → Prop := λ _ s' μ',
  ∃ r' c', s' = st r' c' ∧ connector_ok (view r') c' ∧ opens (connector_fds c') X μ' ∧ streams μ' = streams μ.

Lemma connector_fds_open c : 0 ≤ connector_fd c → connector_fds (Some c) = {[connector_fd c]}.
Proof. intros H. cbn. by rewrite (proj2 (Z.eqb_neq (connector_fd c) (-1))) by lia. Qed.
Lemma connector_gone {A} r (a : A) X μ μ' : connector_ok (view r) None → opens ∅ X μ' → streams μ' = streams μ →
  connector_done X μ a (st r None) μ'.
Proof. intros. by exists r, None. Qed.

(** While the connector is initialised, its job is. *)
Definition connecting v : Prop := off v connector_bfd ∧ connector_job ∈ v_jobs v ∧ connector_job ∉ v_stack v.
Lemma connector_begin r μ (Q : unit → BSockets T → summary → Prop) : connector_ok (view r) None →
  (∀ r', connecting (view r') → v_fds (view r') = v_fds (view r) → Q tt (st r' None) μ) →
  rwp Φ (pending (OInit connector_job)) (st r None) μ Q.
Proof.
  intros [Hoff Hj] HQ. apply rwp_reached. intros h Hr _. destruct connector_apart as [_ Hjob].
  eapply rwp_pending; [apply _|exact Hj|exact Hjob|]. intros r1 V1. apply HQ; [|by rewrite V1].
  rewrite V1. split_and!; [exact Hoff| |].
  - change (connector_job ∈ {[connector_job]} ∪ v_jobs (view r)). apply elem_of_union_l, elem_of_singleton_2. done.
  - intros Hin. by apply Hj, (stack_jobs Hr).
Qed.
Lemma connector_fail1 r X μ μ1 : connecting (view r) → opens ∅ X μ1 → streams μ1 = streams μ →
  rwp Φ (pending (OFree connector_job);; mret 0) (st r None) μ1 (connector_done X μ).
Proof.
  intros (Hoff & Hj & _) Ho Hs. destruct connector_apart as [_ Hjob].
  rwp_step. eapply rwp_pending; [apply _|exact Hj|exact Hjob|]. intros r1 V1. rwp_step. apply connector_gone; [|done|done].
  rewrite V1. split; [exact Hoff|]. change (connector_job ∉ v_jobs (view r) ∖ {[connector_job]}). clear. set_solver.
Qed.
Lemma connector_fail2 r fd X μ μ1 : connecting (view r) → opens {[fd]} X μ1 → streams μ1 = streams μ →
  rwp Φ (emit (Sys_close fd);; pending (OFree connector_job);; mret 0) (st r None) μ1 (connector_done X μ).
Proof.
  intros Hc Ho Hs. destruct (closes _ _ _ Ho) as [Ho' Hs']. rwp_step. rwp_step. apply connector_fail1; [done|done|congruence].
Qed.

Lemma connector_finish_ok r fd res ok X μ μ1 : connecting (view r) → 0 ≤ fd →
  (ok = true → ∀ q w, v_fds (view r) !! q ≠ Some (fd, Some w)) → opens {[fd]} X μ1 → streams μ1 = streams μ →
  rwp Φ (connector_finish fd res ok (emit (Sys_close fd);; pending (OFree connector_job);; mret 0)) (st r None) μ1 (connector_done X μ).
Proof.
  intros (Hoff & Hj & Hst) Hfd Hadd Ho Hs. destruct connector_apart as [Hb Hjob]. unfold connector_finish.
  assert (∀ b h, opens (connector_fds (Some (MkConnector fd b h))) X μ1) as Ho' by (intros b h; by rewrite connector_fds_open).
  case_match; [apply connector_fail2; done|]. case_match.
  - rwp_step. eapply rwp_init_fd; [apply _|done|done|]. intros r1 V1.
    assert (v_fds (view r1) !! connector_bfd = Some (fd, None)) as E1 by (rewrite V1; apply lookup_insert_eq).
    rwp_step. eapply rwp_add_fd; [apply _|exact E1|done| | |].
    + intros -> q w. rewrite V1. change (<[connector_bfd:=(fd, None)]> (v_fds (view r)) !! q ≠ Some (fd, Some w)).
      destruct (decide (q = connector_bfd)) as [->|]; [by rewrite lookup_insert_eq|]. rewrite lookup_insert_ne by done. by apply Hadd.
    + intros r2 _ V2. cbn [Z.eqb]. rwp_step.
      eapply rwp_set_events; [apply _|rewrite V2; apply lookup_insert_eq|done|done|]. intros r3 V3.
      rwp_step. apply rwp_modify; [done|done|]. rwp_step. eexists r3, _. split_and!; [done| |done|done].
      rewrite V3, V2, V1. cbn [connector_ok have_bfd connected connector_fd].
      split_and!; [exact Hj|by right|done|done|apply lookup_insert_eq|exact Hst].
    + intros _. cbn [Z.eqb]. apply connector_fail2; [|done|done]. rewrite V1. split_and!; [|exact Hj|exact Hst].
      intros d w. cbn. rewrite lookup_insert_eq. congruence.
  - rwp_step. eapply rwp_pending; [apply _|exact Hj|exact Hjob|]. intros r1 V1.
    rwp_step. apply rwp_modify; [done|done|]. rwp_step. eexists r1, _. split_and!; [done| |done|done].
    rewrite V1. cbn [connector_ok have_bfd connected connector_fd]. by split_and!; [exact Hj|right|exact Hoff|].
Qed.

Lemma connect_ok addr e r X μ : connector_ok (view r) None → new_fd (ca_socket e) μ → opens ∅ X μ →
  (ca_add e = true → ∀ q w, v_fds (view r) !! q ≠ Some (ca_socket e, Some w)) →
  rwp Φ (run_act (Connect addr e)) (st r None) μ (connector_done X μ).
Proof.
  intros Hc Hn Ho Hadd. cbn [run_act]. rwp_step. unfold BConnector_Init.
  destruct (BConnection_AddressSupported addr) eqn:Ea; cbn [negb]; [|rwp_step; rwp_step; by apply connector_gone].
  destruct (supported_address addr Ea) as [a Ha]. rwp_step. eapply rwp_option; [exact Ha|].
  rwp_step. apply connector_begin; [done|]. intros r1 Hr1 Hf1. rewrite <- Hf1 in Hadd.
  rwp_step. rwp_step. cbn [step]. destruct (Z.ltb_spec (ca_socket e) 0) as [Hfd|Hfd].
  { rewrite not_obtained by done. eapply rwp_mono; [by apply connector_fail1|intros; by rwp_step]. }
  destruct (obtained _ _ _ Hn Hfd Ho) as [Ho1 Hs1].
  rwp_step. rwp_step. destruct (ca_nonblocking e); cbn [negb].
  - rwp_step. rwp_step. eapply rwp_mono; [by apply connector_finish_ok|intros; by rwp_step].
  - eapply rwp_mono; [by apply connector_fail2|intros; by rwp_step].
Qed.
Lemma connect_unix_ok path e r X μ : connector_ok (view r) None → new_fd (ca_socket e) μ → opens ∅ X μ →
  (ca_add e = true → ∀ q w, v_fds (view r) !! q ≠ Some (ca_socket e, Some w)) →
  rwp Φ (run_act (ConnectUnix path e)) (st r None) μ (connector_done X μ).
Proof.
  intros Hc Hn Ho Hadd. cbn [run_act]. rwp_step. unfold BConnector_InitUnix.
  destruct (build_unix_address path) as [a|]; [|rwp_step; rwp_step; by apply connector_gone].
  rwp_step. apply connector_begin; [done|]. intros r1 Hr1 Hf1. rewrite <- Hf1 in Hadd.
  rwp_step. rwp_step. cbn [step]. destruct (Z.ltb_spec (ca_socket e) 0) as [Hfd|Hfd].
  { rewrite not_obtained by done. eapply rwp_mono; [by apply connector_fail1|intros; by rwp_step]. }
  destruct (obtained _ _ _ Hn Hfd Ho) as [Ho1 Hs1].
  rwp_step. rwp_step. destruct (ca_nonblocking e); cbn [negb].
  - rwp_step. rwp_step. eapply rwp_mono; [by apply connector_finish_ok|intros; by rwp_step].
  - eapply rwp_mono; [by apply connector_fail2|intros; by rwp_step].
Qed.

Lemma free_connector_ok r c X μ : connector_ok (view r) (Some c) → opens (connector_fds (Some c)) X μ →
  rwp Φ (run_act FreeConnector) (st r (Some c)) μ (connector_done X μ).
Proof.
  intros (Hj & Hfd & Hb) Ho. destruct connector_apart as [Hbfd Hjob].
  cbn [run_act]. unfold BConnector_Free, get_connector. rwp_step. rwp_step. rwp_step. eapply rwp_option; [done|].
  assert (∀ r', off (view r') connector_bfd → v_jobs (view r') = v_jobs (view r) →
    rwp Φ (when (negb (connector_fd c =? -1)) (emit (Sys_close (connector_fd c)));;
      pending (OFree connector_job);; modify (λ s : BSockets T, s <| connector := None |>)) (st r' (Some c)) μ (connector_done X μ)) as Hrest.
  { intros r' Hoff Ej.
    assert (∀ μ', opens ∅ X μ' → streams μ' = streams μ →
      rwp Φ (pending (OFree connector_job);; modify (λ s : BSockets T, s <| connector := None |>)) (st r' (Some c)) μ' (connector_done X μ)) as Hend.
    { intros μ' Ho' Hs'. rwp_step. eapply rwp_pending; [apply _|by rewrite Ej|exact Hjob|]. intros r1 V1.
      apply rwp_modify; [done|done|]. apply (connector_gone r1); [|done|done]. rewrite V1. split; [exact Hoff|].
      change (connector_job ∉ v_jobs (view r') ∖ {[connector_job]}). clear. set_solver. }
    rwp_step. cbn [connector_fds] in Ho. destruct (connector_fd c =? -1); cbn [negb when]; rwp_step.
    - by apply Hend.
    - destruct (closes _ _ _ Ho) as [Ho' Hs']. by apply Hend. }
  rwp_step. destruct (have_bfd c); cbn [when].
  - destruct Hb as (_ & _ & Hb & _). eapply rwp_remove_fd; [apply _|exact Hb|done|]. intros r1 V1.
    apply Hrest; [|by rewrite V1]. rewrite V1. intros d w. cbn. rewrite lookup_insert_eq. congruence.
  - destruct Hb as [Hoff _]. rwp_step. by apply Hrest.
Qed.

(** The connector's handlers. *)
Lemma connector_fd_ok res r c d w X μ : connector_ok (view r) (Some c) → opens (connector_fds (Some c)) X μ →
  v_fds (view r) !! connector_bfd = Some (d, Some w) →
  rwp Φ (connector_fd_handler res) (st r (Some c)) μ (connector_done X μ).
Proof.
  intros (Hj & Hfd & Hb) Ho Hw. destruct connector_apart as [Hbfd Hjob].
  destruct (have_bfd c) eqn:Eh; [|by destruct Hb as [Hb _]; apply Hb in Hw]. destruct Hb as (Ec & Hpos & Hb & Hst).
  unfold connector_fd_handler, set_connector, get_connector.
  rwp_step. rwp_step. rwp_step. eapply rwp_option; [done|]. rwp_step. apply rwp_assert; [by apply Z.leb_le|].
  rwp_step. apply rwp_assert; [by rewrite Ec|]. rwp_step. apply rwp_assert; [done|].
  rwp_step. eapply rwp_remove_fd; [apply _|exact Hb|done|]. intros r1 V1.
  do 4 rwp_step. eapply rwp_option; [done|]. apply rwp_modify; [done|done|]. do 2 rwp_step.
  assert (∀ b, connector_done X μ tt (st r1 (Some (c <| have_bfd := false |> <| connected := b |>))) μ) as Hdone.
  { intros b. eexists r1, _. split_and!; [done| |exact Ho|done]. rewrite V1.
    split; [exact Hj|]. split; [exact Hfd|]. split.
    - intros d' w'. cbn. rewrite lookup_insert_eq. congruence.
    - intros Hin. by destruct Hst. }
  assert (∀ b, rwp Φ (c ← get_connector; emit (Connector_handler (negb (connected c))))
    (st r1 (Some (c <| have_bfd := false |> <| connected := b |>))) μ (connector_done X μ)) as Hend.
  { intros b. unfold get_connector. do 3 rwp_step. eapply rwp_option; [done|]. rwp_step. apply Hdone. }
  assert (c <| have_bfd := false |> = c <| have_bfd := false |> <| connected := false |>) as Es by (destruct c; cbn in *; by subst).
  rwp_step. case_match; [rwp_step; rewrite Es; apply Hend|]. case_match; [rwp_step; rewrite Es; apply Hend|].
  do 3 rwp_step. eapply rwp_option; [done|]. apply rwp_modify; [done|done|]. apply Hend.
Qed.
Lemma connector_job_ok v rest r c X μ : v_stack v = connector_job :: rest → NoDup (v_stack v) → connector_ok v (Some c) →
  view r = v <| v_stack := rest |> → opens (connector_fds (Some c)) X μ →
  rwp Φ connector_job_handler (st r (Some c)) μ (connector_done X μ).
Proof.
  intros Hv Hnd (Hj & Hfd & Hb) Hr Ho.
  assert (connector_job ∈ v_stack v) as Hin by (rewrite Hv; left).
  destruct (have_bfd c) eqn:Eh; [by destruct Hb as (_ & _ & _ & Hb)|]. destruct Hb as (Hoff & Hb). destruct (Hb Hin) as [Hc Hpos].
  unfold connector_job_handler, get_connector. rwp_step. rwp_step. rwp_step. eapply rwp_option; [done|].
  rwp_step. apply rwp_assert; [by apply Z.leb_le|]. rwp_step. apply rwp_assert; [done|].
  rwp_step. apply rwp_assert; [by rewrite Eh|]. rwp_step. exists r, (Some c). split_and!; [done| |done|done].
  rewrite Hr. split; [exact Hj|]. split; [exact Hfd|]. rewrite Eh. split; [exact Hoff|done].
Qed.
End connecting.

(** ** The beginning of a connection *)

(** The invariant of the system. *)
Definition system_ok s μ : Prop :=
  listener_ok (view (reactor s)) (listener s) ∧ connector_ok (view (reactor s)) (connector s) ∧
  conn_ok (view (reactor s)) (conn s) μ ∧
  sm_open μ = Some (listener_fds (listener s) ∪ connector_fds (connector s) ∪ conn_fds (conn s)) ∧
  listener_fds (listener s) ## connector_fds (connector s) ∪ conn_fds (conn s) ∧
  connector_fds (connector s) ## conn_fds (conn s).

Lemma system_conn r l c oo μ0 μ : others_ok (MkSockets r l c oo) → conn_ok (view r) oo μ0 → streams μ = streams μ0 →
  listener_fds l ## connector_fds c → opens (conn_fds oo) (listener_fds l ∪ connector_fds c) μ →
  system_ok (MkSockets r l c oo) μ.
Proof.
  intros [Hl Hc] Ho Hs Hd [E Hd']. split_and!; [done|done|by eapply conn_ok_streams| | |].
  - rewrite E. cbn. f_equal. clear. set_solver.
  - cbn. clear -Hd Hd'. set_solver.
  - cbn. clear -Hd'. set_solver.
Qed.

Section opening.
Context (l : option BListener) (c : option BConnector).
Abbreviation st r oo := (MkSockets r l c oo).
Abbreviation X := (listener_fds l ∪ connector_fds c).

(** From "init BFileDescriptor" on, with [fail1]. *)
Lemma conn_open_ok {A} r fd (owned : bool) user handler ok (a : A) μ : conn_ok (view r) None μ → 0 ≤ fd → handler ≠ 0 →
  (ok = true → ∀ q w, v_fds (view r) !! q ≠ Some (fd, Some w)) → opens (if owned then {[fd]} else ∅) X μ →
  listener_fds l ## connector_fds c →
  rwp others_ok (
    init_bfd conn_bfd fd HANDLER_CONNECTION;;
    added ← add_bfd conn_bfd ok;
    if added =? 0 then when owned (emit (Sys_close fd));; mret (0, a) else
    init_limit send_limit BCONNECTION_SEND_LIMIT;;
    init_limit recv_limit BCONNECTION_RECV_LIMIT;;
    pending (OInit err_job);;
    modify (λ s : BSockets T, s <| conn := Some (MkConnection user handler fd owned false 0
      StreamIf.StreamInterface_Init [] [] 0 SEND_STATE_NOT_INITED StreamIf.StreamInterface_Init [] 0 RECV_STATE_NOT_INITED) |>);;
    mret (1, a)) (st r None) μ (λ _ s' μ', others_ok s' → system_ok s' μ').
Proof.
  intros (Hoff & Hl1 & Hl2 & Hj) Hfd Hh Hadd Ho Hd. pose proof conn_bfd_other as Hb.
  assert (send_limit ≠ recv_limit) as Hlim.
  { pose proof limits_distinct as H. apply NoDup_cons in H as [H _]. by apply not_elem_of_cons in H as [H _]. }
  apply rwp_reached. intros h Hr _.
  assert (∀ j, j ∈ conn_jobs → j ∉ v_stack (view r)) as Hst by (intros j ? ?; eapply Hj; [done|by eapply stack_jobs]). clear h Hr.
  rwp_step. eapply rwp_init_fd; [apply _|done|done|]. intros r1 V1.
  assert (v_fds (view r1) !! conn_bfd = Some (fd, None)) as E1 by (rewrite V1; apply lookup_insert_eq).
  rwp_step. eapply rwp_add_fd; [apply _|exact E1|done| | |].
  - intros -> q w. rewrite V1. change (<[conn_bfd:=(fd, None)]> (v_fds (view r)) !! q ≠ Some (fd, Some w)).
    destruct (decide (q = conn_bfd)) as [->|]; [by rewrite lookup_insert_eq|]. rewrite lookup_insert_ne by done. by apply Hadd.
  - intros r2 _ V2. cbn [Z.eqb].
    rwp_step. eapply rwp_init_limit; [apply _|by rewrite V2, V1|done|apply not_elem_of_nil|]. intros r3 V3.
    rwp_step. eapply rwp_init_limit; [apply _| |done|apply not_elem_of_nil|].
    { rewrite V3, V2, V1. change (<[send_limit:=MkLimit BCONNECTION_SEND_LIMIT 0]> (v_limits (view r)) !! recv_limit = None).
      by rewrite lookup_insert_ne. }
    intros r4 V4. rwp_step. eapply rwp_pending; [apply _| |apply conn_jobs_other; left|].
    { rewrite V4, V3, V2, V1. apply Hj. left. }
    intros r5 V5. rwp_step. apply rwp_modify; [done|done|]. rwp_step. intros Hoth.
    apply (system_conn r5 l c _ μ); [exact Hoth| |done|done|exact Ho].
    assert (v_jobs (view r5) = {[err_job]} ∪ v_jobs (view r)) as Ej by (by rewrite V5, V4, V3, V2, V1).
    assert (v_stack (view r5) = v_stack (view r)) as Es by (by rewrite V5, V4, V3, V2, V1).
    apply conn_parts_ok; [rewrite Es; apply Hst; left|].
    assert (∀ j, j ∈ conn_jobs → j ≠ err_job → (j ∉ v_jobs (view r5)) ∧ j ∉ v_stack (view r5)) as Hnone.
    { intros j Hjc Hne. rewrite Ej, Es. split; [|by apply Hst]. specialize (Hj j Hjc). clear -Hj Hne. set_solver. }
    split_and!.
    + split; try done.
      * cbn [is_hupd]. rewrite V5, V4, V3, V2. apply lookup_insert_eq.
      * rewrite V5, V4, V3, V2, V1. cbn. split; [rewrite lookup_insert_ne, lookup_insert_eq by done|rewrite lookup_insert_eq]; by eexists.
      * rewrite Ej. clear. set_solver.
      * intros k _. apply over_no_error. rewrite Es. apply Hst. left.
    + apply send_gone; [done| |done]. intros j Hjs. apply Hnone; [by apply conn_send|]. by apply send_recv_apart.
    + apply recv_gone; [done| |done]. intros j Hjs. apply Hnone; [by apply conn_recv|]. by apply recv_not_err.
  - intros _. cbn [Z.eqb].
    assert (conn_ok (view r1) None μ) as Hnone.
    { rewrite V1. split_and!; [|exact Hl1|exact Hl2|exact Hj]. intros d w. cbn. rewrite lookup_insert_eq. congruence. }
    rwp_step. destruct owned; cbn [when]; rwp_step; rwp_step; intros Hoth.
    + destruct (closes _ _ _ Ho) as [Ho' Hs']. by apply (system_conn _ _ _ _ μ).
    + by apply (system_conn _ _ _ _ μ).
Qed.
End opening.

(** What a new connection needs of its source. *)
Definition source_ready (source : BConnection_source) (e : init_answers) r (l : option BListener) (c : option BConnector) μ : Prop :=
  match source with
  | SOURCE_LISTENER _ => is_Some l ∧ listener_job ∈ v_stack (view r) ∧ new_fd (ia_accept e) μ ∧ addr_valid (ia_addr e)
  | SOURCE_CONNECTOR => ∃ c', c = Some c' ∧ 0 ≤ connector_fd c' ∧ connected c' = true ∧ connector_job ∉ v_stack (view r)
  | SOURCE_PIPE fd => 0 ≤ fd
  end.
Definition source_descriptor (source : BConnection_source) (e : init_answers) (c : option BConnector) : Z :=
  match source, c with
  | SOURCE_LISTENER _, _ => ia_accept e
  | SOURCE_CONNECTOR, Some c => connector_fd c
  | SOURCE_CONNECTOR, None => -1
  | SOURCE_PIPE fd, _ => fd
  end.
Lemma valid_address a : addr_valid a → ∃ b, addr_sys_to_socket a = Some b.
Proof.
  unfold addr_valid, addr_sys_to_socket. intros H. destruct (sa_addr a); try rewrite H; by eexists.
Qed.

Lemma check_source_ok source e r l c μ Q : system_ok (MkSockets r l c None) μ → source_ready source e r l c μ →
  Q tt (MkSockets r l c None) μ → rwp (λ _, True) (check_source source) (MkSockets r l c None) μ Q.
Proof.
  intros (Hl & Hc & _) Hsrc HQ. destruct source as [w| |fd]; cbn [check_source source_ready] in *.
  - destruct Hsrc as ([l' ->] & Hj & _). unfold get_listener. do 3 rwp_step. eapply rwp_option; [done|].
    rwp_step. apply rwp_is_set; [apply Hl|]. by apply rwp_assert; [apply bool_decide_eq_true_2|].
  - destruct Hsrc as (c' & -> & Hfd & Hcon & Hj). destruct Hc as (Hjobs & _ & Hc). unfold get_connector.
    do 3 rwp_step. eapply rwp_option; [done|]. rwp_step. apply rwp_assert; [by apply Z.leb_le|].
    rwp_step. apply rwp_assert; [done|]. rwp_step. apply rwp_assert.
    { destruct (have_bfd c'); [|done]. destruct Hc as [Hc _]. congruence. }
    rwp_step. apply rwp_is_set; [exact Hjobs|]. by apply rwp_assert; [rewrite bool_decide_eq_false_2|].
  - apply rwp_assert; [by apply Z.leb_le|done].
Qed.

Lemma source_fd_ok source e r l c μ Q : system_ok (MkSockets r l c None) μ → source_ready source e r l c μ →
  let fd := source_descriptor source e c in
  (∀ r' c' (owned : bool) ok a μ', others_ok (MkSockets r' l c' None) → conn_ok (view r') None μ' → v_fds (view r') = v_fds (view r) →
    listener_fds l ## connector_fds c' → opens (if owned then {[fd]} else ∅) (listener_fds l ∪ connector_fds c') μ' →
    (ok = true → 0 ≤ fd) → Q (fd, owned, ok, a) (MkSockets r' l c' None) μ') →
  rwp (λ _, True) (source_fd source e) (MkSockets r l c None) μ Q.
Proof.
  intros (Hl & Hc & Ho & Eo & Hd & _) Hsrc fd HQ. cbn in Eo, Hd. rewrite (right_id_L ∅ (∪)) in Eo, Hd.
  assert (opens ∅ (listener_fds l ∪ connector_fds c) μ) as Hopen.
  { split; [rewrite Eo; f_equal; clear; set_solver|clear; set_solver]. }
  destruct source as [w| |pfd]; cbn [source_fd source_ready source_descriptor] in *.
  - destruct Hsrc as ([l' ->] & Hj & Hn & Ha). unfold get_listener. do 3 rwp_step. eapply rwp_option; [done|].
    destruct Hl as (Hl1 & Hl2 & Hl3).
    rwp_step. eapply rwp_pending; [apply true_stable|exact Hl3|apply not_elem_of_nil|]. intros r1 V1.
    assert (others_ok (MkSockets r1 (Some l') c None)) as Hoth.
    { split; cbn [reactor listener connector]; rewrite V1; [by split; [|split]|]. eapply connector_ok_ext; [|exact Hc]. apply untouched_job.
      destruct listener_apart as [_ Hx]. clear -Hx. set_solver. }
    assert (∀ μ', conn_ok (view r1) None μ') as Hnone by (intros μ'; rewrite V1; exact Ho).
    rwp_step. rwp_step. cbn [step]. destruct (Z.ltb_spec (ia_accept e) 0) as [Hfd|Hfd].
    { rewrite not_obtained by done. rwp_step. apply (HQ r1); [done|done|by rewrite V1|done|done|done]. }
    destruct (obtained _ _ _ Hn Hfd Hopen) as [Ho1 _].
    rwp_step. rwp_step. destruct (ia_nonblocking e); cbn [negb].
    + destruct w.
      * destruct (valid_address _ Ha) as [b Hb]. rwp_step. eapply rwp_option; [exact Hb|]. rwp_step.
        apply (HQ r1); [done|done|by rewrite V1|done|done|done].
      * rwp_step. apply (HQ r1); [done|done|by rewrite V1|done|done|done].
    + rwp_step. apply (HQ r1); [done|done|by rewrite V1|done|done|done].
  - destruct Hsrc as (c' & -> & Hfd & Hcon & Hj). unfold set_connector, get_connector.
    do 3 rwp_step. eapply rwp_option; [done|]. do 4 rwp_step. eapply rwp_option; [done|]. apply rwp_modify; [done|done|].
    rwp_step. rewrite connector_fds_open in Hd, Hopen by done. apply HQ; [|exact Ho|done| | |done].
    + split; [exact Hl|]. destruct Hc as (Hc1 & _ & Hc2). split; [done|]. split; [by left|].
      change (if have_bfd c' then connected c' = false ∧ 0 ≤ -1 ∧ v_fds (view r) !! connector_bfd = Some (-1, Some BREACTOR_WRITE) ∧ connector_job ∉ v_stack (view r)
        else off (view r) connector_bfd ∧ (connector_job ∈ v_stack (view r) → connected c' = true ∧ 0 ≤ -1)).
      destruct (have_bfd c'); [destruct Hc2 as [? _]; congruence|]. destruct Hc2 as [? _]. by split.
    + change (listener_fds l ## ∅). clear. set_solver.
    + change (opens {[connector_fd c']} (listener_fds l ∪ ∅) μ). destruct Hopen as [E _]. split; [|clear -Hd; set_solver].
      rewrite E. f_equal. clear. set_solver.
  - rwp_step. rwp_step. rwp_step. apply HQ; try done.
Qed.

Lemma open_ok source user handler e r l c μ : system_ok (MkSockets r l c None) μ → source_ready source e r l c μ → handler ≠ 0 →
  (ia_add e = true → ∀ q w, v_fds (view r) !! q ≠ Some (source_descriptor source e c, Some w)) →
  rwp (λ _, True) (run_act (Open source user handler e)) (MkSockets r l c None) μ (λ _ s' μ', system_ok s' μ').
Proof.
  intros Hsys Hsrc Hh Hadd. cbn [run_act]. rwp_step. unfold BConnection_Init.
  rwp_step. eapply check_source_ok; [done|done|]. rwp_step. apply rwp_assert; [by apply negb_true_iff, Z.eqb_neq|].
  rwp_step. eapply source_fd_ok; [done|done|]. intros r' c' owned ok a μ' Hoth Hc Hf Hd Ho Hfd. rewrite <- Hf in Hadd.
  eapply (rwp_mono _ _ _ _ (λ _ s1 μ1, system_ok s1 μ1)); [|intros; by rwp_step].
  destruct ok; cbn [negb].
  - eapply rwp_frame; [exact Hoth|done| |done]. apply conn_open_ok; try done. by apply Hfd.
  - rwp_step. destruct owned; cbn [when]; rwp_step; rwp_step.
    + destruct (closes _ _ _ Ho) as [Ho' Hs']. by apply (system_conn _ _ _ _ μ').
    + by apply (system_conn _ _ _ _ μ').
Qed.
End ends.
End BConnectionEnds.
