(* ===== verification/BConnectionSafe.v ===== *)
(** The sockets of BConnection work: in every execution the objects obey the
    event loop's rules and no assertion fails, descriptors are neither leaked nor
    closed twice, and what is reported to the users is what was transferred. *)
From S2P Require Import Prelude Misc BAddr TreeInterface BPending Interfaces CAvl CAvlOrder BReactor BReactorRun ReactorClient BConnection BConnectionRun BConnectionRules BConnectionFacts BConnectionOps BConnectionEnds.

Module BConnectionSafe.
Export BConnectionEnds.

Section safe.
Context {T : Type} `{!OrderedTree T} {places : Places}.
Implicit Types (r : BReactor T) (s : BSockets T) (v : cview) (o : BConnection) (μ : summary).

(** ** From one part to the system *)

Definition now_ok {A} : A → BSockets T → summary → Prop := λ _ s' μ', system_ok s' μ'.

(** The others' descriptors. *)
Lemma listener_opens s μ : system_ok s μ → opens (listener_fds (listener s)) (connector_fds (connector s) ∪ conn_fds (conn s)) μ.
Proof. intros (_ & _ & _ & E & Hd & _). split; [|done]. rewrite E. f_equal. clear. set_solver. Qed.
Lemma connector_opens s μ : system_ok s μ → opens (connector_fds (connector s)) (listener_fds (listener s) ∪ conn_fds (conn s)) μ.
Proof.
  intros (_ & _ & _ & E & Hd & Hd'). split; [rewrite E; f_equal; clear; set_solver|clear -Hd Hd'; set_solver].
Qed.

Lemma from_listener {A} (m : prog (BSockets T) call A) r r' l l' c oo μ : system_ok (MkSockets r l c oo) μ →
  but_listener μ (MkSockets r' l' c oo) →
  rwp (but_listener μ) m (MkSockets r' l' c oo) μ (listener_done c oo (connector_fds c ∪ conn_fds oo) μ) →
  rwp (λ _, True) m (MkSockets r' l' c oo) μ now_ok.
Proof.
  intros Hsys Hf Hm. eapply rwp_frame; [exact Hf|done| |done]. eapply rwp_mono; [exact Hm|].
  intros a s' μ' (r1 & l1 & -> & Hl & [E Hd] & Hs) [Hc Ho]. destruct Hsys as (_ & _ & _ & _ & _ & Hd').
  split_and!; [done|done|by eapply conn_ok_streams| |done|done]. cbn. rewrite E. f_equal. clear. set_solver.
Qed.
Lemma from_connector {A} (m : prog (BSockets T) call A) r r' l c c' oo μ : system_ok (MkSockets r l c oo) μ →
  but_connector μ (MkSockets r' l c' oo) →
  rwp (but_connector μ) m (MkSockets r' l c' oo) μ (connector_done l oo (listener_fds l ∪ conn_fds oo) μ) →
  rwp (λ _, True) m (MkSockets r' l c' oo) μ now_ok.
Proof.
  intros Hsys Hf Hm. eapply rwp_frame; [exact Hf|done| |done]. eapply rwp_mono; [exact Hm|].
  intros a s' μ' (r1 & c1 & -> & Hc & [E Hd] & Hs) [Hl Ho]. destruct Hsys as (_ & _ & _ & _ & Hd1 & _). cbn in Hd1.
  split_and!; [done|done|by eapply conn_ok_streams| | |]; cbn.
  - rewrite E. f_equal. clear. set_solver.
  - clear -Hd Hd1. set_solver.
  - clear -Hd. set_solver.
Qed.
Lemma from_conn m r r' l c o μ : system_ok (MkSockets r l c (Some o)) μ → others_ok (MkSockets r' l c (Some o)) →
  rwp others_ok m (MkSockets r' l c (Some o)) μ (settled l c (conn_fd o) (close_fd o) μ) →
  rwp (λ _, True) m (MkSockets r' l c (Some o)) μ now_ok.
Proof.
  intros Hsys Hf Hm. eapply rwp_frame; [exact Hf|done| |done]. eapply rwp_mono; [exact Hm|].
  intros a s' μ' (r1 & o1 & -> & Ho & Ef & Ec & Es) [Hl Hc]. destruct Hsys as (_ & _ & _ & E & Hd & Hd'). cbn in E, Hd, Hd'.
  split_and!; [done|done|done|..]; cbn; rewrite Ef, Ec; [congruence|done|done].
Qed.
Lemma others_of s μ : system_ok s μ → others_ok s.
Proof. by intros (? & ? & _). Qed.
Lemma but_listener_of s μ : system_ok s μ → but_listener μ s.
Proof. by intros (_ & ? & ? & _). Qed.
Lemma but_connector_of s μ : system_ok s μ → but_connector μ s.
Proof. by intros (? & _ & ? & _). Qed.

(** The reactor changed, but not for these objects. *)
Lemma system_same s r' μ : system_ok s μ → others_ok (s <| reactor := r' |>) →
  same_conn (view (reactor s)) (view r') → system_ok (s <| reactor := r' |>) μ.
Proof.
  intros (Hl & Hc & Ho & Hd) [Hl' Hc'] Hs. split; [exact Hl'|]. split; [exact Hc'|]. split; [|exact Hd].
  cbn. by eapply conn_ok_same.
Qed.
Lemma system_untouched s r' μ : system_ok s μ → untouched our_fds our_limits our_jobs (view (reactor s)) (view r') →
  system_ok (s <| reactor := r' |>) μ.
Proof.
  intros Hsys Hu. apply system_same; [done| |].
  - apply (others_stable s r'); [by eapply others_of|]. eapply untouched_mono; [..|exact Hu]; [set_solver..|].
    unfold our_jobs. clear. set_solver.
  - apply untouched_same_conn. eapply untouched_mono; [..|exact Hu]; [set_solver|done|].
    unfold our_jobs, conn_jobs, send_jobs, recv_jobs. clear. set_solver.
Qed.

(** ** Requests *)

Lemma can_add_view {r h} (Hr : reach r h) ok fd : can_add ok fd h → ok = true → ∀ q w, v_fds (view r) !! q ≠ Some (fd, Some w).
Proof. intros H Hok. by apply (reach_registered Hr), H. Qed.

Definition is_request (a : act) : Prop := match a with Other _ | Round _ _ _ => False | _ => True end.

Lemma request_ok a s tr : reach (reactor s) (hist_after tr []) → system_ok s (summary_of tr) → is_request a → act_enabled a s tr →
  rwp (λ _, True) (run_act a) s (summary_of tr) now_ok.
Proof.
  intros Hr Hsys Ha He. destruct s as [r l c oo]. pose proof Hsys as (Hl & Hc & Ho & _). cbn in Hl, Hc, Ho.
  pose proof (listener_opens _ _ Hsys) as Lopens. pose proof (connector_opens _ _ Hsys) as Copens. cbn in Lopens, Copens.
  pose proof (@can_add_view _ _ Hr) as Hadd.
  destruct a as [addr e|path e| |addr e|path e| |src user handler e|user handler|size res| | |data| | | |avail| | |o|now answers x];
    try done; unfold act_enabled, with_conn in He; cbn [reactor listener connector conn] in He.
  - destruct He as (-> & Hn & Hok). eapply from_listener; [exact Hsys|by eapply but_listener_of|].
    by apply listen_ok; [| | |apply Hadd].
  - destruct He as (-> & Hn & Hok). eapply from_listener; [exact Hsys|by eapply but_listener_of|].
    by apply listen_unix_ok; [| | |apply Hadd].
  - destruct He as [l' ->]. eapply from_listener; [exact Hsys|by eapply but_listener_of|]. by apply free_listener_ok.
  - destruct He as (-> & Hn & Hok). eapply from_connector; [exact Hsys|by eapply but_connector_of|].
    by apply connect_ok; [| | |apply Hadd].
  - destruct He as (-> & Hn & Hok). eapply from_connector; [exact Hsys|by eapply but_connector_of|].
    by apply connect_unix_ok; [| | |apply Hadd].
  - destruct He as [c' ->]. eapply from_connector; [exact Hsys|by eapply but_connector_of|]. by apply free_connector_ok.
  - destruct He as (-> & Hh & Hsrc). apply open_ok; [done| |done|]; destruct src as [w| |fd]; cbn.
    + by destruct Hsrc as (? & ? & ? & ? & _).
    + destruct Hsrc as (c' & -> & ? & ? & ? & _). by exists c'.
    + by destruct Hsrc.
    + apply Hadd, Hsrc.
    + destruct Hsrc as (c' & -> & _ & _ & _ & ?). by apply Hadd.
    + apply Hadd, Hsrc.
  - destruct He as [[o ->] Hh]. eapply from_conn; [exact Hsys|by eapply others_of|]. by apply set_handlers_ok.
  - destruct He as [o ->]. eapply from_conn; [exact Hsys|by eapply others_of|]. by apply set_send_buffer_ok.
  - destruct He as ((o & -> & Hst) & Herr). eapply from_conn; [exact Hsys|by eapply others_of|]. by apply send_init_ok.
  - destruct He as (o & -> & Hst & Hd). eapply from_conn; [exact Hsys|by eapply others_of|]. by apply send_user_init_ok.
  - destruct He as ((o & -> & Hst & Hd & Hs) & Hdata & Herr). eapply from_conn; [exact Hsys|by eapply others_of|]. by apply send_start_ok.
  - destruct He as (o & -> & Hst). eapply from_conn; [exact Hsys|by eapply others_of|]. by apply send_free_ok.
  - destruct He as ((o & -> & Hst) & Herr). eapply from_conn; [exact Hsys|by eapply others_of|]. by apply recv_init_ok.
  - destruct He as (o & -> & Hst & Hd). eapply from_conn; [exact Hsys|by eapply others_of|]. by apply recv_user_init_ok.
  - destruct He as ((o & -> & Hst & Hd & Hs) & Hdata & Herr). eapply from_conn; [exact Hsys|by eapply others_of|]. by apply recv_start_ok.
  - destruct He as (o & -> & Hst). eapply from_conn; [exact Hsys|by eapply others_of|]. by apply recv_free_ok.
  - destruct He as (o & -> & Hst & Hst'). eapply rwp_frame; [by eapply others_of|done| |done].
    eapply rwp_mono; [by apply conn_free_ok|]. intros a s' μ' (r' & -> & Hno & Es) [Hl' Hc'].
    destruct Hsys as (_ & _ & _ & E & Hd & Hd'). cbn in E, Hd, Hd'. split_and!; [done|done|done|..]; cbn [listener connector conn conn_fds].
    + rewrite Es, E. destruct (close_fd o); [|done]. cbn. rewrite decide_True by (clear; set_solver).
      f_equal. clear -Hd Hd'. set_solver.
    + clear -Hd. set_solver.
    + clear. set_solver.
Qed.

(** ** Rounds *)

Lemma stack_popped F L J v j rest : v_stack v = j :: rest → j ∉ J → untouched F L J v (v <| v_stack := rest |>).
Proof. intros E Hj. split; [done..|]. by rewrite E, filter_cons, decide_False. Qed.
Lemma in_our_jobs j : j ∈ our_jobs ↔ j = listener_job ∨ j = connector_job ∨ j ∈ conn_jobs.
Proof. unfold our_jobs, conn_jobs, send_jobs, recv_jobs. clear. set_solver. Qed.

(** A job of the connection is on the stack only while the connection is there
    and, when it belongs to a side, while that side is initialised. *)
Lemma conn_of_job v oo μ j : (∀ k, k ∈ v_stack v → k ∈ v_jobs v) → conn_ok v oo μ → j ∈ v_stack v → j ∈ conn_jobs → ∃ o, oo = Some o.
Proof.
  intros Hst Hok Hj Hc. destruct oo as [o|]; [by exists o|]. destruct Hok as (_ & _ & _ & Hn). by destruct (Hn j Hc (Hst j Hj)).
Qed.

Lemma dispatch_job_ok r h r' l c oo μ j rest x : reach r h → system_ok (MkSockets r l c oo) μ →
  v_stack (view r) = j :: rest → view r' = view r <| v_stack := rest |> → j ≠ err_job → new_fd (io_accept x) μ →
  answers_for (MkSockets r l c oo) (Call_job j) x →
  rwp (λ _, True) (dispatch (Call_job j) x) (MkSockets r' l c oo) μ now_ok.
Proof.
  intros Hr Hsys Hv Hv' Hne Hn Hx. pose proof (stack_nodup Hr) as Hnd. pose proof Hsys as (Hl & Hc & Ho & _). cbn in Hl, Hc, Ho.
  assert (∀ k, k ∈ v_stack (view r) → k ∈ v_jobs (view r)) as Hjobs by (intros k; apply (stack_jobs Hr)).
  assert (j ∈ v_stack (view r)) as Hj by (rewrite Hv; left).
  assert (j ∈ conn_jobs → others_ok (MkSockets r' l c oo)) as Hoth.
  { intros Hin. apply (others_stable (MkSockets r l c oo) r'); [by eapply others_of|]. cbn. rewrite Hv'.
    apply (stack_popped _ _ _ _ j); [done|by apply conn_jobs_other]. }
  assert (j ∈ conn_jobs → ∃ o, oo = Some o) as Hconn by by apply (conn_of_job (view r) oo μ j).
  cbn [dispatch]. rewrite (decide_False (P := j = err_job)) by done.
  destruct (decide (j = send_job)) as [->|].
  { destruct Hconn as [o ->]; [by apply conn_send; left|]. destruct Ho as (_ & Hs & _). by destruct (so_job _ _ _ _ Hs). }
  destruct (decide (j = recv_job)) as [->|].
  { destruct Hconn as [o ->]; [by apply conn_recv; left|]. destruct (Hx o eq_refl) as (_ & Hrd & Hw).
    eapply from_conn; [exact Hsys|by apply Hoth, conn_recv; left|]. by eapply recv_job_ok. }
  destruct (decide (j = send_op_job)) as [->|].
  { destruct Hconn as [o ->]; [by apply conn_send; right; left|]. destruct (Hx o eq_refl) as (Hwr & _).
    eapply from_conn; [exact Hsys|by apply Hoth, conn_send; right; left|]. by eapply send_operation_ok. }
  destruct (decide (j = send_done_job)) as [->|].
  { destruct Hconn as [o ->]; [by apply conn_send; do 2 right; left|].
    eapply from_conn; [exact Hsys|by apply Hoth, conn_send; do 2 right; left|]. by eapply send_reported_ok. }
  destruct (decide (j = recv_op_job)) as [->|].
  { destruct Hconn as [o ->]; [by apply conn_recv; right; left|]. destruct (Hx o eq_refl) as (_ & Hrd & _).
    eapply from_conn; [exact Hsys|by apply Hoth, conn_recv; right; left|]. by eapply recv_operation_ok. }
  destruct (decide (j = recv_done_job)) as [->|].
  { destruct Hconn as [o ->]; [by apply conn_recv; do 2 right; left|].
    eapply from_conn; [exact Hsys|by apply Hoth, conn_recv; do 2 right; left|]. by eapply recv_reported_ok. }
  destruct (decide (j = connector_job)) as [->|].
  { destruct connector_apart as [_ Hap]. destruct c as [c|]; [|destruct Hc as [_ Hc]; by destruct (Hc (Hjobs _ Hj))].
    eapply from_connector; [exact Hsys| |].
    - apply (but_connector_stable μ (MkSockets r l (Some c) oo) r'); [by eapply but_connector_of|].
      cbn. rewrite Hv'. by apply (stack_popped _ _ _ _ connector_job).
    - eapply connector_job_ok; [exact Hv|done|done|done|]. by apply (connector_opens _ _ Hsys). }
  destruct (decide (j = listener_job)) as [->|].
  { destruct listener_apart as [_ Hap]. destruct l as [l|]; [|destruct Hl as [_ Hl]; by destruct (Hl (Hjobs _ Hj))].
    eapply from_listener; [exact Hsys| |].
    - apply (but_listener_stable μ (MkSockets r (Some l) c oo) r'); [by eapply but_listener_of|].
      cbn. rewrite Hv'. by apply (stack_popped _ _ _ _ listener_job).
    - apply listener_job_ok; [by rewrite Hv'|by apply (listener_opens _ _ Hsys)|done]. }
  rwp_step. apply (system_untouched (MkSockets r l c oo) r'); [done|]. cbn. rewrite Hv'.
  apply (stack_popped _ _ _ _ j); [done|]. rewrite in_our_jobs. unfold conn_jobs, send_jobs, recv_jobs. cbn [app].
  rewrite !elem_of_cons, elem_of_nil. tauto.
Qed.

Lemma dispatch_event_ok r h r' l c oo μ p d w got hd user evs x : reach r h → system_ok (MkSockets r l c oo) μ →
  v_stack (view r) = [] → v_fds (view r) !! p = Some (d, Some w) → evs = report_events w got → view r' = view r →
  answers_for (MkSockets r l c oo) (Call_fd p hd user evs) x →
  rwp (λ _, True) (dispatch (Call_fd p hd user evs) x) (MkSockets r' l c oo) μ now_ok.
Proof.
  intros Hr Hsys Hv Hp Hevs Hv' Hx. pose proof Hsys as (Hl & Hc & Ho & _). cbn in Hl, Hc, Ho.
  assert (untouched our_fds our_limits our_jobs (view r) (view r')) as Hu by (by rewrite Hv').
  assert (system_ok (MkSockets r' l c oo) μ) as Hsys' by by apply (system_untouched (MkSockets r l c oo) r').
  cbn [dispatch]. destruct (decide (p = conn_bfd)) as [->|].
  { destruct oo as [o|]; [|destruct Ho as [Hoff _]; by apply Hoff in Hp]. destruct (Hx o eq_refl) as (Hwr & Hrd & Hw1 & Hw2).
    pose proof Ho as ([B1 _ _ _ _ _ _] & _). destruct (is_hupd o) eqn:Hh; [by apply B1 in Hp|]. rewrite Hp in B1. injection B1 as -> ->.
    eapply from_conn; [exact Hsys'|by eapply others_of|]. eapply connection_fd_handler_ok; try done; by rewrite Hv'. }
  destruct (decide (p = connector_bfd)) as [->|].
  { destruct c as [c|]; [|destruct Hc as [Hoff _]; by apply Hoff in Hp].
    eapply from_connector; [exact Hsys'|by eapply but_connector_of|].
    eapply connector_fd_ok; [by rewrite Hv'|by apply (connector_opens _ _ Hsys)|by rewrite Hv']. }
  destruct (decide (p = listener_bfd)) as [->|].
  { destruct l as [l|]; [|destruct Hl as [Hoff _]; by apply Hoff in Hp].
    eapply from_listener; [exact Hsys'|by eapply but_listener_of|].
    apply listener_fd_ok; [by rewrite Hv'|by apply (listener_opens _ _ Hsys)]. }
  by rwp_step.
Qed.

(** The limits are counted anew. *)
Lemma reset_same v v' : v' = v <| v_limits := (λ x, x <| count := 0 |>) <$> v_limits v |> →
  same_conn v v' ∧ untouched our_fds [] our_jobs v v'.
Proof.
  intros ->. split; [|by split; [|intros p []%elem_of_nil| |]]. split; try done. intros p _. cbn. by rewrite lookup_fmap, fmap_is_Some.
Qed.
Lemma round_quiet r r' l c oo μ : system_ok (MkSockets r l c oo) μ → same_conn (view r) (view r') →
  untouched our_fds [] our_jobs (view r) (view r') → system_ok (MkSockets r' l c oo) μ.
Proof.
  intros Hsys Hs Hu. apply (system_same (MkSockets r l c oo) r'); [done| |done].
  apply (others_stable (MkSockets r l c oo) r'); [by eapply others_of|].
  eapply untouched_mono; [..|exact Hu]; [set_solver|done|]. unfold our_jobs. clear. set_solver.
Qed.

(** ** Everything that can happen *)

Definition goes_on (a : act) s tr : Prop :=
  wp (run_act a) s (λ _ s' es, reach (reactor s') (hist_after (tr ++ es) []) ∧ system_ok s' (summary_of (tr ++ es))).

Lemma rwp_goes_on (a : act) s tr : reach (reactor s) (hist_after tr []) →
  rwp (λ _, True) (run_act a) s (summary_of tr) now_ok → goes_on a s tr.
Proof.
  intros Hr Hm. eapply wp_mono; [by apply Hm|]. intros [] s' es (Hr' & _ & Hsys).
  unfold hist_after, summary_of in *. by rewrite !fold_left_app.
Qed.
Lemma hist_rounds es h : hist_after (map (λ e, Hist (Made e)) es) h = note es h.
Proof. revert h. induction es as [|e es IH]; intros h; [done|]. cbn. apply IH. Qed.
Lemma round_goes_on now answers x s tr : reach (reactor s) (hist_after tr []) → system_ok s (summary_of tr) →
  act_enabled (Round now answers x) s tr → goes_on (Round now answers x) s tr.
Proof.
  intros Hr Hsys (Hx & Hen & Herr & Hn & Hans). destruct s as [r l c oo]. cbn [reactor] in *.
  pose proof (BReactorSteps.round_ok r _ now answers (BReactorSteps.reach_good _ _ Hr) Hen) as Htotal.
  apply wp_some in Htotal as (b & r' & es & Erun & _). destruct (Hans b r' es Erun) as [Hb Hans'].
  destruct (round_client r _ now answers b r' es Hr Hx Hen Erun Hb) as [Hr' Hview].
  set (tr1 := map (λ e, Hist (Made e)) es).
  assert (reach r' (hist_after tr1 (hist_after tr []))) as Hr1 by (unfold tr1; by rewrite hist_rounds).
  assert (∀ m : prog (BSockets T) call unit, rwp (λ _, True) m (MkSockets r' l c oo) (summary_of tr) now_ok →
    wp m (MkSockets r' l c oo) (λ _ s' es2, reach (reactor s') (hist_after (tr ++ (tr1 ++ es2)) []) ∧ system_ok s' (summary_of (tr ++ (tr1 ++ es2))))) as Hgo.
  { intros m Hm. eapply wp_mono; [by apply (Hm _ Hr1)|]. intros [] s' es2 (H1 & _ & H2).
    unfold hist_after, summary_of in *. rewrite !fold_left_app. split; [done|]. unfold tr1. by rewrite step_made. }
  assert (∀ m : prog (BSockets T) call unit, wp m (MkSockets r' l c oo) (λ _ s' es2, reach (reactor s') (hist_after (tr ++ (tr1 ++ es2)) []) ∧
      system_ok s' (summary_of (tr ++ (tr1 ++ es2)))) →
    round now answers x (MkSockets r l c oo) = (match m (MkSockets r' l c oo) with
      | Some (a, s', es2) => Some (a, s', tr1 ++ es2) | None => None end) → goes_on (Round now answers x) (MkSockets r l c oo) tr) as Hrun.
  { intros m Hm E. unfold goes_on. cbn [run_act]. unfold wp in *. rewrite E. by destruct (m _) as [[[a s'] es2]|]. }
  assert (round now answers x (MkSockets r l c oo) =
    match (match b, es with Called, [e] => dispatch e x | _, _ => mret tt end) (MkSockets r' l c oo) with
    | Some (a, s', es2) => Some (a, s', tr1 ++ es2) | None => None end) as E.
  { unfold round, reactor_round, mbind, prog_bind. cbn [reactor]. by rewrite Erun. }
  assert (∀ v1, v1 = view r' → same_conn (view r) v1 → untouched our_fds [] our_jobs (view r) v1 →
    (match b, es with Called, [e] => dispatch e x | _, _ => mret tt end) (MkSockets r' l c oo) = Some (tt, MkSockets r' l c oo, []) →
    goes_on (Round now answers x) (MkSockets r l c oo) tr) as Hquiet.
  { intros v1 -> H1 H2 Ed. apply (Hrun (mret tt)); [apply Hgo; rwp_step; by eapply round_quiet|]. by rewrite E, Ed. }
  remember (view r') as v' eqn:Ev'. remember (view r) as v eqn:Ev.
  destruct Hview as [j rest Hv|e Hv He|p d w got hd user evs Hv Hp Hw Hevs Hne|es Hv|es Hv].
  - apply (Hrun (dispatch (Call_job j) x)); [|exact E]. apply Hgo. subst v.
    eapply dispatch_job_ok; [exact Hr|done|exact Hv|done| |done|by apply Hans'].
    intros ->. apply Herr. change (jobs (pending_jobs r)) with (v_stack (view r)). by rewrite Hv.
  - eapply Hquiet; [reflexivity|by split|by split|]. by destruct e.
  - apply (Hrun (dispatch (Call_fd p hd user evs) x)); [|exact E]. apply Hgo.
    rewrite Ev in Hv, Hp. eapply dispatch_event_ok; [exact Hr|done|exact Hv|exact Hp|exact Hevs|congruence|by apply Hans'].
  - eapply Hquiet; [reflexivity|by split|by split|done].
  - destruct (reset_same _ _ (eq_refl (v <| v_limits := (λ x, x <| count := 0 |>) <$> v_limits v |>))).
    eapply Hquiet; [reflexivity|done..].
Qed.
Lemma act_ok a s tr : reach (reactor s) (hist_after tr []) → system_ok s (summary_of tr) → act_enabled a s tr → goes_on a s tr.
Proof.
  intros Hr Hsys He. assert (is_request a ∨ (∃ o : api, a = Other o) ∨ ∃ now answers x, a = Round now answers x) as [Ha|[[o ->]|(now & answers & x & ->)]]
    by (destruct a; naive_solver).
  - by apply rwp_goes_on, request_ok.
  - destruct He as [He Hf]. unfold goes_on. cbn [run_act].
    pose proof (other_request _ _ _ _ _ o Hr He Hf) as H. unfold wp in *. unfold reactor_do.
    destruct (run_api o (reactor s)) as [[[[] r'] es]|]; [|done]. destruct H as [Hr' Hu].
    unfold hist_after, summary_of in *. rewrite !fold_left_app.
    change (reach r' (hist_after (Hist (Did o) :: map (λ e, Hist (Made e)) es) (fold_left hist_step tr [])) ∧
      system_ok (s <| reactor := r' |>) (fold_left step (map (λ e, Hist (Made e)) es) (fold_left step tr no_summary))).
    rewrite hist_after_made, step_made. split; [done|]. by apply system_untouched.
  - by apply round_goes_on.
Qed.

Lemma initial_view r : initial r → view r = MkView ∅ [] ∅ ∅.
Proof.
  intros (epfd & r0 & Hep & E & _ & _ & _ & Ef & El). unfold BReactor_Init in E.
  rewrite (proj2 (Z.ltb_ge _ _) Hep) in E. injection E as <-. unfold view. cbn. by rewrite Ef, El, dom_empty_L, fmap_empty.
Qed.
Lemma runs_ok s tr : runs s tr → reach (reactor s) (hist_after tr []) ∧ system_ok s (summary_of tr).
Proof.
  induction 1 as [r Hi|s tr a s' es _ [Hr Hsys] He Hrun].
  - split; [by apply reach_init|]. assert (∀ p, off (MkView ∅ [] ∅ ∅) p) as Hoff by (intros p d w; cbn; by rewrite lookup_empty).
    unfold system_ok. cbn [reactor listener connector conn]. rewrite (initial_view r Hi).
    split_and!; done.
  - pose proof (act_ok a s tr Hr Hsys He) as H. unfold goes_on, wp in H. by rewrite Hrun in H.
Qed.
Lemma runs_conn s tr o : runs s tr → conn s = Some o →
  reach (reactor s) (hist_after tr []) ∧ conn_base (view (reactor s)) o ∧
  send_ok (is_on (view (reactor s)) err_job) (view (reactor s)) o (summary_of tr) ∧
  recv_ok (is_on (view (reactor s)) err_job) (view (reactor s)) o (summary_of tr).
Proof. intros Hruns Eo. destruct (runs_ok s tr Hruns) as (Hr & _ & _ & Ho & _). rewrite Eo in Ho. by split. Qed.
End safe.
End BConnectionSafe.

(** * Theorems *)
Module BConnectionTheorems.
Export BConnectionSafe.

Section theorems.
Context {T : Type} `{!OrderedTree T} {places : Places}.
Implicit Types (s : BSockets T) (o : BConnection).


(** C19: no descriptor is leaked or closed twice. Those that were obtained from
    [socket] and [accept] and not closed are those of the listener, the connector
    and the connection, each held by one of them; in particular, when the objects
    are freed, every one has been closed, and nothing was closed that was not
    open. *)
Theorem sockets_own_descriptors s tr (Hruns : runs s tr) :
  sm_open (summary_of tr) = Some (listener_fds (listener s) ∪ connector_fds (connector s) ∪ conn_fds (conn s)) ∧
  listener_fds (listener s) ## connector_fds (connector s) ∪ conn_fds (conn s) ∧
  connector_fds (connector s) ## conn_fds (conn s).
Proof. by destruct (runs_ok s tr Hruns) as (_ & _ & _ & _ & ?). Qed.

(** C11: streams are faithful. While a side of the connection is initialised, the
    bytes its user was told are sent are those that were written, up to those of
    a transfer that is about to be reported; and the bytes delivered to the
    receiving user are those that were read, up to those about to be delivered. *)
Theorem sockets_streams s tr o (Hruns : runs s tr) (Hconn : conn s = Some o) :
  let μ := summary_of tr in
  (send_state o ≠ SEND_STATE_NOT_INITED → sm_written μ = sm_sent μ ++ in_flight (send_iface o) (sm_offered μ)) ∧
  (recv_state o ≠ RECV_STATE_NOT_INITED → sm_read μ = sm_delivered μ ++ in_flight (recv_iface o) (recv_busy_data o)).
Proof.
  destruct (runs_conn s tr o Hruns Hconn) as (_ & _ & Hs & Hr). split; intros Hne.
  - rewrite (so_stream _ _ _ _ Hs Hne). f_equal. unfold in_flight. case_match eqn:E; [|done]. apply Z.eqb_eq in E.
    destruct (so_data _ _ _ _ Hs Hne) as [_ ->]; [by rewrite E|done].
  - by apply Hr.
Qed.

(** C20: no operation is forgotten. While the connection is sending, the event
    loop watches the descriptor for writing, or an error is being reported; while
    it is receiving, the loop watches it for reading, the job that reads is set,
    or an error is being reported. *)
Theorem sockets_attended s tr o (Hruns : runs s tr) (Hconn : conn s = Some o) :
  let watches f := ∃ w, watching conn_bfd (hist_after tr []) = Some w ∧ has w f = true in
  (send_state o = SEND_STATE_BUSY → watches BREACTOR_WRITE ∨ job_set s err_job) ∧
  (recv_state o = RECV_STATE_BUSY → watches BREACTOR_READ ∨ job_set s recv_job ∨ job_set s err_job).
Proof.
  destruct (runs_conn s tr o Hruns Hconn) as (Hreach & Hb & Hs & Hr).
  assert (∀ f, watched_for o f = true → ∃ w, watching conn_bfd (hist_after tr []) = Some w ∧ has w f = true) as Hwatch.
  { intros f [Hh Hf]%andb_true_iff. apply negb_true_iff in Hh. pose proof (cb_fd _ _ Hb) as Hfd. rewrite Hh in Hfd.
    exists (wait_events o). split; [|done]. by eapply (reach_watching Hreach). }
  split; intros Hbusy.
  - destruct (side_busy_inv _ _ _ _ _ _ _ _ (so_side _ _ _ _ Hs) Hbusy) as (_ & _ & _ & _ & _ & H & _).
    rewrite orb_false_r in H. apply orb_true_iff in H as [H|H]; [left; auto|right; by apply (is_on_true (view (reactor s)))].
  - destruct (side_busy_inv _ _ _ _ _ _ _ _ (ro_side _ _ _ _ Hr) Hbusy) as (_ & _ & _ & _ & _ & H & _).
    apply orb_true_iff in H as [[H|H]%orb_true_iff|H]; [left; auto|right; left|right; right]; by apply (is_on_true (view (reactor s))).
Qed.
End theorems.

(** an address survives the conversion to the system's form and back, and
    the conversion is defined for the addresses that are supported; a path makes
    an address exactly when it fits with its terminator, whose length is right. *)
Theorem socket_addresses (addr : BAddr) (path : bytes)
    (Hip : match addr with BADDR_IPV6 ip _ => length ip = 16%nat | _ => True end) :
  (BConnection_AddressSupported addr = true → ∃ a, addr_socket_to_sys addr = Some a ∧ addr_sys_to_socket a = Some addr) ∧
  (build_unix_address path = None ↔ MAX_UNIX_SOCKET_PATH < len path) ∧
  (∀ u, build_unix_address path = Some u → sun_path u = path ++ [0] ∧
    len (sun_path u) ≤ sizeof_unix_path ∧ un_len u = offsetof_sun_path + len (sun_path u)).
Proof.
  split; [|split].
  - destruct addr as [| |ip port|]; try done; intros _; eexists; (split; [reflexivity|]); [reflexivity|].
    change (Some (BADDR_IPV6 (take 16 ip) port) = Some (BADDR_IPV6 ip port)). by rewrite take_ge by (by rewrite Hip).
  - unfold build_unix_address. destruct (Z.ltb_spec MAX_UNIX_SOCKET_PATH (len path)); split; try done; lia.
  - unfold build_unix_address, sizeof_unix_path. destruct (Z.ltb_spec MAX_UNIX_SOCKET_PATH (len path)); [done|].
    intros u [= <-]. cbn [sun_path un_len]. rewrite len_app. change (len [0]) with 1. split_and!; [done|lia|lia].
Qed.

(** ** A concrete execution

    A connection on descriptor 7, given as a pipe, that sends and receives. *)
#[local] Existing Instance CAvlOrder.cavl_ordered_tree.

Definition demo_places : Places.
Proof.
  refine {| listener_bfd := 1; connector_bfd := 2; conn_bfd := 3; send_limit := 1; recv_limit := 2;
    listener_job := 0; connector_job := 1; err_job := 2; send_job := 3; recv_job := 4;
    send_op_job := 5; send_done_job := 6; recv_op_job := 7; recv_done_job := 8 |}%positive;
    apply (bool_decide_unpack _); vm_compute; exact I.
Defined.
#[local] Existing Instance demo_places.

Abbreviation demo_sockets := (BSockets (CAvlCode.CAvl unit)).
Definition demo_sockets_start : demo_sockets := MkSockets BReactorTheorems.demo_start None None None.
Definition again : answer := MkAnswer (-1) EAGAIN.
Definition read_again : read_answer := MkRead (-1) EAGAIN [].
Definition idle_io : io := MkIo again read_again again (-1).

(** What the system is asked when a list of things happens. *)
Fixpoint happen (l : list act) (x : demo_sockets * list call) : option (demo_sockets * list call) :=
  match l with
  | [] => Some x
  | a :: l => match run_act a (fst x) with Some (_, s', es) => happen l (s', snd x ++ es) | None => None end
  end.
Fixpoint all_enabled (l : list act) (x : demo_sockets * list call) : Prop :=
  match l with
  | [] => True
  | a :: l => act_enabled a (fst x) (snd x) ∧
      match run_act a (fst x) with Some (_, s', es) => all_enabled l (s', snd x ++ es) | None => False end
  end.
Lemma happen_runs l x y : runs (fst x) (snd x) → all_enabled l x → happen l x = Some y → runs (fst y) (snd y).
Proof.
  revert x. induction l as [|a l IH]; intros x Hr He E; [by injection E as <-|]. cbn in He, E. destruct He as [He Hl].
  destruct (run_act a (fst x)) as [[[[] s'] es]|] eqn:Erun; [|done]. apply (IH (s', snd x ++ es)); [|done|done].
  by eapply runs_act.
Qed.

Definition pipe_answers : init_answers := MkInitAnswers (-1) (MkSysAddr 0 (sockaddr_other 0)) true true.
Definition listen_ok_answers : listen_answers := MkListenAnswers true 8 true (MkAnswer 0 0) 0 0 true.
Definition connecting_answers : connect_answers := MkConnectAnswers 9 true (MkAnswer (-1) EINPROGRESS) true.
(** Besides a listener and a connector in progress, three bytes are offered to
    the connection and receiving is asked for; of the three, two are written. *)
Definition demo_acts : list act := [
  Listen (BADDR_IPV4 0 0) listen_ok_answers;
  Connect (BADDR_IPV4 1 2) connecting_answers;
  Open (SOURCE_PIPE 7) 100 200 pipe_answers;
  SendInit; SendUserInit; RecvInit; RecvUserInit;
  Send [1; 2; 3];
  Round 0 [] (MkIo (MkAnswer 2 0) read_again again (-1));
  Recv 10;
  Round 0 [] idle_io].
Definition demo_after : demo_sockets * list call :=
  match happen demo_acts (demo_sockets_start, []) with Some x => x | None => (demo_sockets_start, []) end.

Ltac next_act := match goal with |- context [run_act ?a ?s] =>
    let x := eval vm_compute in (run_act a s) in change (run_act a s) with x end; cbv iota beta; cbn [fst snd app].
Ltac not_set := unfold job_set; cbn; apply (bool_decide_unpack _); vm_compute; exact I.
Ltac the_conn := eexists; split; [reflexivity|]; first [done | by split_and!].
Ltac fresh_fd := intros _ ? [= <-]; apply (bool_decide_unpack _); vm_compute; exact I.
(** A round without waiting, whose answers are in order. *)
Ltac demo_round :=
  split_and!; [done|by apply BReactorTheorems.round_enabled_nil|done|by intros []|];
  let E := fresh in intros ??? E; vm_compute in E; injection E as <- <- <-; split; [done|];
  intros ? [= <-] ? [= <-]; split_and!; cbn; try lia; try done.
Lemma start_runs : runs demo_sockets_start [].
Proof. apply runs_init. exists 3, BReactorTheorems.blank. by split_and!. Qed.
Lemma demo_runs : runs (fst demo_after) (snd demo_after).
Proof.
  apply (happen_runs demo_acts (demo_sockets_start, [])); [apply start_runs| |vm_compute; reflexivity].
  cbn [demo_acts all_enabled fst snd].
  split; [split_and!; [done|fresh_fd|done]|]. next_act.
  split; [split_and!; [done|fresh_fd|done]|]. next_act.
  split; [by split_and!|]. next_act.
  split; [split; [the_conn|not_set]|]. next_act.
  split; [the_conn|]. next_act.
  split; [split; [the_conn|not_set]|]. next_act.
  split; [the_conn|]. next_act.
  split; [split_and!; [the_conn|done|not_set]|]. next_act.
  split; [demo_round|]. next_act.
  split; [split_and!; [the_conn|done|not_set]|]. next_act.
  split; [demo_round|]. next_act. done.
Qed.

Lemma sockets_own_descriptors_witness :
  sm_open (summary_of (snd demo_after)) = Some {[8; 9]} ∧
  listener_fds (listener (fst demo_after)) ## connector_fds (connector (fst demo_after)) ∪ conn_fds (conn (fst demo_after)).
Proof. split; [vm_compute; reflexivity|]. apply (sockets_own_descriptors _ _ demo_runs). Defined.
Definition demo_conn : BConnection :=
  match conn (fst demo_after) with Some o => o | None => MkConnection 0 0 0 false false 0 StreamIf.StreamInterface_Init [] [] 0 0 StreamIf.StreamInterface_Init [] 0 0 end.
Lemma sockets_streams_witness : let μ := summary_of (snd demo_after) in
  sm_written μ = [1; 2] ∧ sm_written μ = sm_sent μ ++ in_flight (send_iface demo_conn) (sm_offered μ).
Proof.
  split; [vm_compute; reflexivity|].
  apply (proj1 (sockets_streams (fst demo_after) (snd demo_after) demo_conn demo_runs ltac:(vm_compute; reflexivity))). by vm_compute.
Defined.
Lemma sockets_attended_witness : let h := hist_after (snd demo_after) [] in
  (∃ w, watching conn_bfd h = Some w ∧ has w BREACTOR_READ = true) ∨ job_set (fst demo_after) recv_job ∨ job_set (fst demo_after) err_job.
Proof.
  apply (proj2 (sockets_attended (fst demo_after) (snd demo_after) demo_conn demo_runs ltac:(vm_compute; reflexivity))). by vm_compute.
Defined.
Lemma socket_addresses_witness : ∃ a, addr_socket_to_sys (BADDR_IPV6 (replicate 16 1) 80) = Some a ∧
  addr_sys_to_socket a = Some (BADDR_IPV6 (replicate 16 1) 80).
Proof. by apply (socket_addresses (BADDR_IPV6 (replicate 16 1) 80) []). Defined.

(** ** An event that stays armed

    Receiving is asked for and the descriptor is watched for reading. *)
Definition waiting_acts : list act := [
  Open (SOURCE_PIPE 7) 100 200 pipe_answers;
  RecvInit; RecvUserInit; Recv 10;
  Round 0 [] idle_io;
  Round 0 [(Wait_results [(conn_bfd, EPOLLERR)], 0)] idle_io].
Definition waiting_after : demo_sockets * list call :=
  match happen waiting_acts (demo_sockets_start, []) with Some x => x | None => (demo_sockets_start, []) end.

Lemma no_alarm (h : history) o : (∀ p, armed p h = None) → next_alarm h o → o = None.
Proof. intros Hn. destruct o as [t|]; [|done]. intros [[p E] _]. by rewrite Hn in E. Qed.
Lemma round_enabled_results h p e d evs : clock h = 0 → (∀ q, armed q h = None) → registered h !! d = Some (p, evs) →
  round_enabled 0 [(Wait_results [(p, e)], 0)] h.
Proof.
  intros Hc Ha Hreg. split; [unfold time_ok, INT64_MAX; lia|]. intros o ->%no_alarm; [|done]. cbn [answers_ok]. unfold start_time. rewrite Hc.
  split_and!; try done. split_and!; [apply NoDup_singleton|done|]. intros q e' [= -> ->]%list_elem_of_singleton. by exists d, evs.
Qed.
Lemma waiting_runs : runs (fst waiting_after) (snd waiting_after).
Proof.
  apply (happen_runs waiting_acts (demo_sockets_start, [])); [apply start_runs| |vm_compute; reflexivity].
  cbn [waiting_acts all_enabled fst snd].
  split; [by split_and!|]. next_act.
  split; [split; [the_conn|not_set]|]. next_act.
  split; [the_conn|]. next_act.
  split; [split_and!; [the_conn|done|not_set]|]. next_act.
  split; [demo_round|]. next_act.
  split; [|next_act; done].
  split_and!; [done| |done|by intros []|].
  - apply (round_enabled_results _ _ _ 7 1); [reflexivity|intros q; reflexivity|vm_compute; reflexivity].
  - intros ??? E. vm_compute in E. injection E as <- <- <-. split; [done|].
    intros ? [= <-] ? [= <-]. split_and!; cbn; try lia; try done.
Qed.

(** C35: an error event that does not fail the read leaves the descriptor watched.
    There is an execution in which the connection waits to read and the loop
    reports an error without readability; [read] then succeeds, and the connection
    is ready while the descriptor is still registered for input: when the input
    comes, the assertion in the handler that receiving is busy fails, whatever
    the system answers. *)
Theorem connection_error_leaves_event :
  ∃ s tr, runs s tr ∧ ∃ s' tr',
    happen [Round 0 [] (MkIo again (MkRead 3 0 [1; 2; 3]) again (-1)); Round 0 [] idle_io;
      Round 0 [(Wait_results [(conn_bfd, EPOLLIN)], 0)] idle_io] (s, tr) = Some (s', tr') ∧
    sm_delivered (summary_of tr') = [1; 2; 3] ∧
    (∃ o, conn s' = Some o ∧ recv_state o = RECV_STATE_READY ∧ watched_for o BREACTOR_READ = true) ∧
    registered (hist_after tr' []) !! 7 = Some (conn_bfd, EPOLLIN) ∧
    ∀ x, run_act (Round 0 [] x) s' = None.
Proof.
  exists (fst waiting_after), (snd waiting_after). split; [apply waiting_runs|].
  eexists _, _. split; [vm_compute; reflexivity|]. split; [vm_compute; reflexivity|].
  split; [eexists; split; [reflexivity|]; by split|]. split; [vm_compute; reflexivity|].
  intros x. vm_compute. reflexivity.
Qed.
End BConnectionTheorems.
